(* ===== verification/_CoqProject ===== *)
-Q . S2P
Prelude.v
StateMonad.v
CommonData.v
RLP.v
PBFTMsg.v
BlockHeader.v
Block.v
PBFTMsgCache.v
PBFTReqCache.v
PBFTState.v
PBFTEngine.v
PBFTSafety.v
PBFTProps.v
PBFTChecks.v
DAG.v
TxDAG.v
Transaction.v
NonceCheck.v
TxPool.v
Receipt.v
TxsParser.v
TrieHash.v
BlockCodec.v
Sealer.v
RaftMsg.v
RaftEngine.v
RaftProps.v
SyncQueues.v
SyncMaster.v
SyncProps.v
Text.v
ABI.v
StorageEntry.v
MemoryTable.v
TableProps.v
TableFactory.v
FactoryProps.v
TableRows.v
TableEffects.v
StorageState.v
StateProps.v
ABIParser.v
Precompiled.v
ParallelConfig.v
DagTransfer.v
EVM.v
EVMProps.v
EVMRuns.v
EVMStatic.v
EVMArith.v
TableInv.v
Executive.v
ExecutiveProps.v
ExecutiveFuel.v
ExecutiveState.v
PermissionPrecompiled.v
ExecutiveCases.v
BlockVerifier.v
BlockProps.v
