(* ===== verification/Prelude.v ===== *)
(** * FISCO-BCOS: a verification library for the consensus and execution core

    FISCO-BCOS is a consortium block chain: a fixed set of sealers orders
    transactions into blocks by PBFT, executes them and stores the result.  This
    library models the parts that carry that logic and proves what makes them
    correct.  All paths below are under [src/].

    ** The program and its parts

    Clients submit transactions ([librpc], [libchannelserver]) to the pool
    ([libtxpool]), which checks signatures, nonces and block limits.  The sealer
    ([libconsensus]) takes the oldest ones from the pool and assembles a block;
    the PBFT engine ([libconsensus/pbft]) broadcasts it as a prepare request,
    executes it through the block verifier ([libblockverifier]), collects sign
    and commit requests from the other sealers, and hands the block to the chain
    ([libblockchain]) once it holds a quorum of both.  A committed block is
    reported back to the engine and to the pool, which drops its transactions.
    Messages, headers and transactions travel as RLP ([libdevcore/RLP.*]).

    ** The files

    - [Prelude]: exceptions and the [result] type, machine integers ([wrap],
      [swrap]), the tactics [bool_to_prop], [case_step], [case_hyp], [len_simpl], the
      hint databases and the generic lemmas.
    - [CommonData]: [libdevcore/CommonData.*], [vector_ref.h]: big-endian integers,
      nibbles, hex strings, cropped views.
    - [RLP]: [libdevcore/RLP.h], [RLP.cpp]: the reader with its mutable indexing cache,
      the conversions and their strictness flags, reads of header bytes that fail
      out of bounds ([readAt], [readBytes]), the writer as the stack machine it is,
      and a reference encoding of trees.
    - [PBFTMsg]: [libconsensus/pbft/Common.h]: packets and requests, their signatures
      and codecs.  Hashing and signing are the class [Crypto].
    - [BlockHeader], [Block]: [libethcore/BlockHeader.*], [Block.h].
    - [PBFTMsgCache]: [libconsensus/pbft/PBFTMsgCache.h] and the [QueueSet] of
      [libdevcore/Common.h]: the broadcast filters.
    - [PBFTReqCache]: [libconsensus/pbft/PBFTReqCache.*]: the caches of requests.  The
      iteration order of a hash table is the class [MapOrder].
    - [PBFTState]: the members of [PBFTEngine] and [ConsensusEngineBase],
      [TimeManager.h], the interfaces of the components the engine calls as
      records of their answers, the events by which it acts on them, and the
      state and exception monad [M] of its handlers.
    - [PBFTEngine]: [libconsensus/pbft/PBFTEngine.*], [ConsensusEngineBase.*]: every
      handler, check, timeout and restart of the engine.
    - [PBFTSafety]: weakest preconditions for [M] and the invariants of the handlers.
    - [PBFTProps]: the transition system of the engine (one transition per entry
      point, [reach]) and its theorems on locks, commits, views and quorums.
    - [PBFTChecks]: leaders, prepares, synchronised blocks, recovery, forwarding.
    - [DAG], [TxDAG]: [libblockverifier/DAG.*], [TxDAG.*]: the dependency graph of the
      transactions of a block and its execution by concurrent workers, as a step
      function over any schedule.
    - [Transaction]: [libethcore/Transaction.*] and [SignatureStruct] of
      [libdevcrypto/Common.*].  Public-key recovery is the class [Recover].
    - [NonceCheck]: [libtxpool/TransactionNonceCheck.*],
      [CommonTransactionNonceCheck.*]; the chain is the record [NonceChain] with
      its promise [serves].
    - [TxPool]: [libtxpool/TxPool.*]: the queue, with its iterators as numbered
      nodes, its index, and every operation of the pool.
    - [StateMonad]: the monad of the later components, a state and exceptions,
      with the rules for what an operation keeps and ends in.
    - [Receipt], [TxsParser], [TrieHash], [BlockCodec]: [libethcore/TransactionReceipt.*],
      [LogEntry.*], [TxsParallelParser.*], [libdevcore/TrieHash.*], [TrieCommon.*] and
      [libethcore/Block.*]: receipts, the parallel encoding of transactions, the
      root of a map, and whole blocks on the wire with their caches.
    - [Sealer]: [libconsensus/Sealer.*], [pbft/PBFTSealer.*]: the assembly of blocks.
    - [RaftMsg], [RaftEngine], [RaftProps]: [libconsensus/raft]: messages, roles,
      elections and heartbeats, and the transition system of the engine.
    - [SyncQueues], [SyncMaster], [SyncProps]: [libsync]: packets, the queues of blocks,
      requests and transactions, the work of a round, and runs of a node.
    - [Text], [ABI], [ABIParser]: strings and numbers as the tables hold them, the
      Solidity ABI of [libethcore/ABI.*] and the signatures of [ABIParser.*].
    - [StorageEntry], [MemoryTable], [TableProps], [TableFactory], [FactoryProps],
      [TableRows], [TableEffects], [TableInv]: [libstorage/Table.*], [MemoryTable2.*],
      [MemoryTableFactory2.*]: entries and their copy on write, the tables of a
      block over the storage, savepoints and hashes, and how an operation
      changes the rows a reader sees.
    - [StorageState], [StateProps]: [libstoragestate]: accounts in tables.
    - [Precompiled], [ParallelConfig], [DagTransfer], [PermissionPrecompiled]:
      [libblockverifier/Precompiled.*], [libprecompiled/Common.*],
      [ParallelConfigPrecompiled.*], [extension/DagTransferPrecompiled.*] and
      [PermissionPrecompiled.cpp].
    - [EVM], [EVMProps], [EVMRuns], [EVMStatic], [EVMArith]: [libinterpreter]: the
      virtual machine over any host (class of callbacks [Host]), its stack and
      memory bounds, its gas, static runs, signed arithmetic.
    - [Executive], [ExecutiveProps], [ExecutiveFuel], [ExecutiveState],
      [ExecutiveCases]: [libexecutive], [libevm]: transactions, nested calls and
      creations, the host of the virtual machine; over any state that keeps the
      laws of the class [StateLaws], which [ExecutiveState] proves of the accounts.
    - [BlockVerifier], [BlockProps]: [libblockverifier/BlockVerifier.cpp],
      [ExecutiveContextFactory.cpp], [ExecutiveContext.*]: the execution of a block,
      serially and in parallel, and the comparison of its header.

    State is a record with the C++ member names, an operation is a function on
    it, a [throw] is the [Throw] of [result] (or of [M], which keeps the changes made
    before it), and undefined behaviour is the exception [UndefinedBehaviour],
    so that its absence can be stated.

    ** What the theorems show

    - Agreement: a node never locks two announced hashes at a height
      ([one_lock_per_height]), two quorums of correct nodes cannot lock different
      ones ([lock_agreement], from [quorums_intersect]); the lock is on the hash a
      prepare announces, which the code never compares with the block it carries
      ([announced_hash_unchecked]).  A block is committed only with a quorum of sign
      and of commit requests, each in the cache before the call or received in it
      with valid signatures ([commit_needs_quorum]), views only grow and change by
      such a quorum ([views_grow_by_quorum]), the lock survives a restart, through
      the bytes of the backup and all states reached afterwards
      ([lock_survives_restart]), accepted synchronised blocks share correct signers
      ([checked_blocks_share_signers]), prepares are accepted exactly when the
      checks say so ([valid_prepare_iff]), all nodes elect the same leader and
      every sealer leads in turn ([nodes_agree_on_leader], [leader_rotation]).
    - Parallel execution: transactions that conflict never overlap and keep
      their order ([conflicting_never_overlap]), the run completes
      ([parallel_run_completes]) and has the effect of the serial one
      ([parallel_equals_serial]).
    - The pool: no transaction is accepted again after it is in a block, unless the
      chain repeated its nonce within the limit before it was accepted ([no_replay],
      from the sliding window [nonce_window]; [repeated_nonce_replayed] is such a
      chain), no iterator dangles
      ([pool_safe]), acceptance and sealing are characterised exactly
      ([import_accepts_iff], [top_transactions_spec]).
    - Wire formats: the RLP writer equals the reference encoding, reading back what
      it wrote gives the tree ([rlp_read_back]), the indexing cache is transparent,
      strict readers stay in bounds, header bytes included
      ([rlp_strict_no_bad_read]); packets, requests, headers and transactions round
      trip ([PBFTMsg], [BlockHeader], [Transaction]); a memoised header hash is never stale
      under the setters ([header_hash_fresh]).
      Whole blocks survive the wire ([block_wire]) and their roots are never of a
      stale cache ([block_roots_fresh]), before RC2 and after; the root of a map is that of a reference
      tree ([trie_root_spec]); contract arguments and signatures are read back
      ([abi_round_trip], [signature_read_back]).
    - Raft and sealing: two candidates with a majority of one term are the same
      ([election_safety], with the deviation [stale_heartbeat_revotes]); sealed
      blocks pass the checks of other nodes exactly when the limit and the clock of
      these allow it ([sealed_block_valid]).
    - Synchronisation commits only checked successors ([sync_commits_checked]),
      completes a download that is there ([download_completes]), and keeps its
      queues bounded ([sync_memory_bounded]).
    - Tables and accounts: a rollback restores what a reader sees
      ([rollback_restores_tables]), transfers between accounts with a balance row
      conserve the balances ([transfer_conserves], [transfer_not_enough]; without a
      row: [balance_of_rolled_back_account_lost], [rowless_sender_pays]); the transfer contract refines
      a ledger and calls with disjoint tags commute ([dag_call_refines_ledger],
      [disjoint_tags_commute]); the conflict fields of a registered function are
      its first arguments ([critical_fields_of_call]).
    - The virtual machine never leaves its stack, memory and code ([vm_safe]), ends
      ([vm_terminates]), and changes nothing in a static run
      ([static_run_changes_nothing]).
    - Transactions and blocks, from RC2 on: every transaction ends, in undefined
      behaviour only where a precompiled contract runs into it itself
      ([transaction_total], [precompiled_ub]); one that fails leaves nothing behind
      ([failed_transaction_restores]); the serial execution of a block ends
      ([block_total]).  In every version a block executed serially is accepted by
      every node that executes it serially from the same parent, given rows without
      ties ([executed_block_accepted], [hashable]), and a block is accepted only with
      the roots of its execution ([accepted_roots_true]).  What these ask of the
      precompiled contracts ([precompiled_safe]) is proved of the one that writes
      the permissions ([permission_safe]).
    - Caches and timers: invariants and bounds of the request and broadcast
      caches, view-change triggers, back-off of timeouts.
    - Deviations of the code from its comments or its purpose are theorems too
      ([signed_hash_mod32], [repeated_signature_accepted], [trigger_order_dependent],
      [header_populate_stale], [empty_criticals_unordered],
      [sealed_nonce_not_rechecked], [wrong_group_takes_nonce],
      [announced_hash_unchecked], [repeated_nonce_replayed], [rowless_sender_pays],
      [negative_critical_misread], the runs of
      ExecutiveCases.v, [parallel_block_rejected], [short_call_stops_parallel]).

    ** Bounds and fuel

    The loops of the RLP reader over a payload ([iter_items], [items_loop]) take the
    length of the payload as fuel and consume at least a byte per round;
    [index_loop] takes the number of positions to advance; [bytesRequired] takes
    the bits of its argument.  The round-trip theorems show that this is
    enough.  Byte strings are bounded by [size_ok] (the reader compares sizes as
    64-bit integers).  Runs of the engine keep views below [MAXVIEW], as [int64_t]
    requires; the transaction graph has fewer than [2^32] edges, the range of its
    in-degrees.  The schedules of the workers need no fuel:
    [parallel_run_completes] bounds their effective steps.

    The recursion of a trie takes the sizes of its keys ([trie_root_spec] shows it
    is enough); the loops of the synchroniser the lengths of the queues they
    empty; decimal printing the logarithm of the number; the arrays of the ABI
    one more than the length of the data; the extents of a type the length of
    its text.  The virtual machine takes [2 g + 2] rounds for [g] gas, 257 rounds
    for an exponentiation and the length of the code for its scans
    ([vm_terminates], [exp256_spec], [jump_dests_exact]).  A transaction has 1025
    frames, since calls stop at depth 1024; running out of frames or rounds is
    undefined behaviour, which [transaction_total] excludes for the frames and rounds.

    ** What is not modelled

    Left to parameters: cryptography ([Crypto], [Recover]), the storage behind the
    tables, the precompiled contracts of the executive but the three above (system
    configuration, consensus, CNS, CRUD), the answers of the chain,
    the pool and the synchroniser to the engines.  Locks are not modelled: each
    entry point of an engine, of the pool and of the synchroniser is one step;
    the workers of the transaction graph are interleaved, but a transaction a
    worker takes is one step of [BlockVerifier].  Not covered: the block chain and
    its tables ([libblockchain]), the write-back cache and the back ends of the
    storage ([libstorage/CachedStorage.cpp] and others), the mutable trie and the
    state on it ([libdevcore/TrieDB.h], [libmptstate]), the Raft sealer,
    networking, channels and RPC, configuration, disk encryption: mostly I/O and
    glue over libraries outside of the repository. *)

From stdpp Require Export base tactics option list list_numbers numbers
  gmap sets fin_sets fin_maps strings.
From Stdlib Require Export ZArith Lia.

#[global] Open Scope Z_scope.

(** ** Exceptions

    The C++ code reports failures with exceptions; a fallible operation
    returns a [result].  One constructor per exception type thrown by the
    modelled functions. *)
Inductive Exn : Set :=
  | BadRLP | BadCast | OversizeRLP | UndersizeRLP | RLPException
  | BadHexCharacter | EmptySealers | BlockSealerListWrong | OverThresTransNum
  | DisabledFutureTime | InvalidBlockHeight | ParentNoneExist | WrongParentHash
  | InvalidBlockFormat | ErrorBlockHash | InvalidNumber | TooMuchGasUsed
  | InvalidParentHash | InvalidTimestamp | InvalidTransactionFormat
  | InvalidSignature | TransactionIsUnsigned | TransactionRefused | ExecFailed | NotEnoughAvailableSpace
  | InvalidArgument | OutOfRange | RuntimeError | StorageException | NotEnoughCash
  | InvalidAccountStartNonceInState | IncorrectAccountStartNonceInState
  | PrecompiledException | PrecompiledErrorExn | ErrorBlockNumber
  (** the exceptions of the virtual machine; a revert carries its output *)
  | BadInstruction | BadJumpDestination | OutOfGas | GasOverflow | OutOfStack
  | StackUnderflow | DisallowedStateChange | BufferOverrun | RevertInstruction (output : list Z)
  | InternalVMError | PermissionDenied | OutOfGasIntrinsic | OutOfGasBase | BlockExecutionFailed
  | InvalidBlockWithBadStateOrReceipt
  (** [std::terminate]: an exception that leaves a [noexcept] function *)
  | Terminated
  (** undefined behaviour: a read through a null or short view *)
  | UndefinedBehaviour.

#[export] Instance Exn_eq_dec : EqDecision Exn.
Proof. solve_decision. Defined.

Inductive result (A : Type) : Type :=
  | Ok (a : A)
  | Throw (e : Exn).
Arguments Ok {A} _.
Arguments Throw {A} _.

#[export] Instance result_ret : MRet result := fun A a => Ok a.
#[export] Instance result_bind : MBind result := fun A B f m =>
  match m with Ok a => f a | Throw e => Throw e end.
#[export] Instance result_fmap : FMap result := fun A B f m =>
  match m with Ok a => Ok (f a) | Throw e => Throw e end.

Definition is_ok {A} (r : result A) : bool :=
  match r with Ok _ => true | Throw _ => false end.

Definition from_ok {A} (d : A) (r : result A) : A := match r with Ok a => a | Throw _ => d end.

Definition require (b : bool) (e : Exn) : result unit :=
  if b then Ok tt else Throw e.

(** ** Machine integers *)
Definition wrap (w : Z) (x : Z) : Z := x mod 2 ^ w.
Definition swrap (w : Z) (x : Z) : Z := (x + 2 ^ (w - 1)) mod 2 ^ w - 2 ^ (w - 1).

Definition SIZE_MAX : Z := 2 ^ 64 - 1.
Definition UINT16_MAX : Z := 2 ^ 16 - 1.
Definition UINT64_MAX : Z := 2 ^ 64 - 1.
Definition INT64_MAX : Z := 2 ^ 63 - 1.
Definition Invalid256 : Z := 2 ^ 256 - 1.

Definition lenZ {A} (l : list A) : Z := Z.of_nat (length l).

(** ** Tactics *)

(** Turn every boolean comparison in the context and the goal into its
    propositional reading. *)
Ltac bool_to_prop :=
  repeat match goal with
  | H : _ && _ = true |- _ => apply andb_true_iff in H; destruct H
  | H : _ || _ = false |- _ => apply orb_false_iff in H; destruct H
  | H : negb _ = true |- _ => apply negb_true_iff in H
  | H : negb _ = false |- _ => apply negb_false_iff in H
  | H : bool_decide _ = true |- _ => apply bool_decide_eq_true in H
  | H : bool_decide _ = false |- _ => apply bool_decide_eq_false in H
  | H : (_ =? _) = true |- _ => apply Z.eqb_eq in H
  | H : (_ =? _) = false |- _ => apply Z.eqb_neq in H
  | H : (_ <? _) = true |- _ => apply Z.ltb_lt in H
  | H : (_ <? _) = false |- _ => apply Z.ltb_ge in H
  | H : (_ <=? _) = true |- _ => apply Z.leb_le in H
  | H : (_ <=? _) = false |- _ => apply Z.leb_gt in H
  end.

(** Case analysis on the scrutinee of a [match] or [if], outermost first. *)
Ltac case_step :=
  match goal with
  | |- context [match ?x with _ => _ end] =>
      lazymatch x with context [match _ with _ => _ end] => fail | _ => idtac end;
      let E := fresh "E" in destruct x eqn:E
  end.

Ltac case_hyp H :=
  match type of H with
  | context [match ?x with _ => _ end] =>
      lazymatch x with context [match _ with _ => _ end] => fail | _ => idtac end;
      let E := fresh "E" in destruct x eqn:E
  end.

(** ** Generic lemmas *)
Create HintDb bcos.
Create Rewrite HintDb bcos_len.

Lemma wrap_range w x : 0 <= w -> 0 <= wrap w x < 2 ^ w.
Proof. intros. unfold wrap. apply Z.mod_pos_bound. lia. Qed.

Lemma wrap_small w x : 0 <= x < 2 ^ w -> wrap w x = x.
Proof. intros. unfold wrap. by apply Z.mod_small. Qed.

Lemma swrap_small w x : 0 < w -> - 2 ^ (w - 1) <= x < 2 ^ (w - 1) -> swrap w x = x.
Proof.
  intros Hw Hx. unfold swrap.
  assert (2 ^ w = 2 * 2 ^ (w - 1)) as E.
  { rewrite <- Z.pow_succ_r by lia. f_equal. lia. }
  rewrite Z.mod_small by lia. lia.
Qed.

Lemma lenZ_nonneg {A} (l : list A) : 0 <= lenZ l.
Proof. unfold lenZ. lia. Qed.

Lemma lenZ_app {A} (l k : list A) : lenZ (l ++ k) = lenZ l + lenZ k.
Proof. unfold lenZ. rewrite length_app. lia. Qed.

Lemma lenZ_cons {A} (x : A) l : lenZ (x :: l) = 1 + lenZ l.
Proof. unfold lenZ. simpl. lia. Qed.

Lemma lenZ_nil {A} : lenZ (@nil A) = 0.
Proof. reflexivity. Qed.

Lemma lenZ_1_inv {A} (l : list A) : lenZ l = 1 -> exists x, l = [x].
Proof.
  unfold lenZ. destruct l as [|x [|y l]]; simpl; intros; [lia | eauto | lia].
Qed.

Lemma lenZ_0_inv {A} (l : list A) : lenZ l = 0 -> l = [].
Proof. unfold lenZ. destruct l; simpl; intros; [done | lia]. Qed.

#[export] Hint Rewrite @lenZ_app @lenZ_cons @lenZ_nil : bcos_len.
#[export] Hint Resolve lenZ_nonneg : bcos.

Lemma bind_ok {A B} (m : result A) (f : A -> result B) b :
  m ≫= f = Ok b -> exists a, m = Ok a /\ f a = Ok b.
Proof. destruct m; [eauto | discriminate]. Qed.

Ltac len_simpl := autorewrite with bcos_len in *.
