(* ===== verification/StateMonad.v ===== *)
(** * Stateful operations that may throw

    The monad of the later components: a state is passed on, an exception keeps
    the state it was thrown in.  [keeps R m] says that [m] relates the states
    before and after by [R]; [ends Q m s] says what [m] ends in from [s]. *)

From S2P Require Import Prelude.

Definition SE (St A : Type) : Type := St -> St * result A.
#[export] Instance SE_ret {St} : MRet (SE St) := fun A a s => (s, Ok a).
#[export] Instance SE_bind {St} : MBind (SE St) := fun A B f m s =>
  match m s with (s', Ok a) => f a s' | (s', Throw e) => (s', Throw e) end.

Definition se_get {St} : SE St St := fun s => (s, Ok s).
Definition se_mod {St} (f : St -> St) : SE St unit := fun s => (f s, Ok tt).
Definition se_lift {St A} (r : result A) : SE St A := fun s => (s, r).
Definition se_when {St} (b : bool) (m : SE St unit) : SE St unit := if b then m else mret tt.
(** [catch (std::exception&)]; undefined behaviour is not an exception. *)
Definition se_try {St} (m : SE St unit) : SE St unit := fun s =>
  match m s with
  | (s', Throw UndefinedBehaviour) => (s', Throw UndefinedBehaviour)
  | (s', Throw _) => (s', Ok tt)
  | r => r
  end.

Section Laws.
Context {St : Type}.
Implicit Types s : St.

Lemma se_bind_get {A} (k : St -> SE St A) s : (se_get ≫= k) s = k s s.
Proof. done. Qed.
Lemma se_bind_mod {A} f (k : unit -> SE St A) s : (se_mod f ≫= k) s = k tt (f s).
Proof. done. Qed.
Lemma se_bind_ret {A B} (a : A) (k : A -> SE St B) s : (mret a ≫= k) s = k a s.
Proof. done. Qed.
Lemma se_bind_assoc {A B C} (m : SE St A) (k : A -> SE St B) (h : B -> SE St C) s :
  ((m ≫= k) ≫= h) s = (m ≫= (fun a => k a ≫= h)) s.
Proof. unfold mbind, SE_bind. by destruct (m s) as [s' [a|e]]. Qed.
Lemma se_bind_ok {A B} (m : SE St A) (k : A -> SE St B) s s' a : m s = (s', Ok a) -> (m ≫= k) s = k a s'.
Proof. intros E. unfold mbind, SE_bind. by rewrite E. Qed.
Lemma se_bind_throw {A B} (m : SE St A) (k : A -> SE St B) s s' e : m s = (s', Throw e) -> (m ≫= k) s = (s', Throw e).
Proof. intros E. unfold mbind, SE_bind. by rewrite E. Qed.

(** ** What an operation keeps *)
Definition se_keeps (Rl : St -> St -> Prop) {A} (m : SE St A) : Prop := forall s, Rl s (fst (m s)).

Lemma se_keeps_run Rl {A} (m : SE St A) s s' r : se_keeps Rl m -> m s = (s', r) -> Rl s s'.
Proof. intros Hm Hs. specialize (Hm s). by rewrite Hs in Hm. Qed.

Lemma se_keeps_all Rl {A} (m : SE St A) : se_keeps Rl m -> forall s, Rl s (fst (m s)).
Proof. done. Qed.

Lemma se_keeps_mono (R1 R2 : St -> St -> Prop) {A} (m : SE St A) :
  (forall s s', R1 s s' -> R2 s s') -> se_keeps R1 m -> se_keeps R2 m.
Proof. intros HR Hm s. by apply HR. Qed.

Section Rules.
Context (Rl : St -> St -> Prop) `{!PreOrder Rl}.

Lemma se_keeps_ret {A} (a : A) : se_keeps Rl (mret a : SE St A).
Proof. intros s. cbn. reflexivity. Qed.
Lemma se_keeps_get : se_keeps Rl se_get.
Proof. intros s. cbn. reflexivity. Qed.
Lemma se_keeps_lift {A} (r : result A) : se_keeps Rl (se_lift r).
Proof. intros s. cbn. reflexivity. Qed.
Lemma se_keeps_mod f : (forall s, Rl s (f s)) -> se_keeps Rl (se_mod f).
Proof. intros Hf s. apply Hf. Qed.
Lemma se_keeps_bind {A B} (m : SE St A) (k : A -> SE St B) :
  se_keeps Rl m -> (forall a, se_keeps Rl (k a)) -> se_keeps Rl (m ≫= k).
Proof.
  intros Hm Hk s. unfold mbind, SE_bind. specialize (Hm s). destruct (m s) as [s' [a|e]]; cbn in *; [| done].
  etransitivity; [exact Hm | apply Hk].
Qed.
Lemma se_keeps_lift_bind {A B} (r : result A) (k : A -> SE St B) :
  (forall a, r = Ok a -> se_keeps Rl (k a)) -> se_keeps Rl (se_lift r ≫= k).
Proof. intros Hk s. unfold mbind, SE_bind, se_lift. destruct r; [by apply Hk | cbn; reflexivity]. Qed.
Lemma se_keeps_when b m : se_keeps Rl m -> se_keeps Rl (se_when b m).
Proof. intros. destruct b; [done | apply se_keeps_ret]. Qed.
Lemma se_keeps_try m : se_keeps Rl m -> se_keeps Rl (se_try m).
Proof. intros Hm s. unfold se_try. specialize (Hm s). destruct (m s) as [s' [a|[]]]; done. Qed.
End Rules.

(** ** What a run ends in *)
Definition se_ends {A} (Q : St * result A -> Prop) (m : SE St A) (s : St) : Prop := Q (m s).

Lemma se_ends_bind {A B} (Q : St * result B -> Prop) (m : SE St A) (k : A -> SE St B) s :
  (forall s' a, m s = (s', Ok a) -> se_ends Q (k a) s') -> (forall s' e, m s = (s', Throw e) -> Q (s', Throw e)) ->
  se_ends Q (m ≫= k) s.
Proof.
  intros Ha He. unfold se_ends, mbind, SE_bind. destruct (m s) as [s' [a|e]]; [by apply Ha | by apply He].
Qed.

Lemma se_ends_lift {A B} (Q : St * result B -> Prop) (r : result A) (k : A -> SE St B) s :
  (forall a, r = Ok a -> se_ends Q (k a) s) -> (forall e, Q (s, Throw e)) -> se_ends Q (se_lift r ≫= k) s.
Proof. intros Ha He. apply se_ends_bind; intros s' a [= <- Hr]; [by apply Ha | apply He]. Qed.
End Laws.

Create HintDb se.
#[export] Hint Resolve se_keeps_ret se_keeps_get se_keeps_lift : se.

(** Walks an operation down to its updates of the state. *)
Ltac se_keeps_step :=
  match goal with
  | |- se_keeps _ (se_lift _ ≫= _) => apply se_keeps_lift_bind; [typeclasses eauto | intros]
  | |- se_keeps _ (_ ≫= _) => apply se_keeps_bind; [typeclasses eauto | | intros]
  | |- se_keeps _ (se_try _) => apply se_keeps_try
  | |- se_keeps _ (se_when _ _) => apply se_keeps_when; [typeclasses eauto |]
  | |- se_keeps _ (match ?x with _ => _ end) => destruct x eqn:?
  | |- se_keeps _ (let _ := _ in _) => cbv zeta
  end.
Ltac se_keeps_auto :=
  repeat first [solve [eauto with se] | se_keeps_step]; try (apply se_keeps_mod; intros; solve [done]).
Ltac se_steps := repeat first [rewrite se_bind_mod | rewrite se_bind_get | rewrite se_bind_ret]; cbv beta.
