(* ===== verification/CommonData.v ===== *)
(** * Byte strings, big-endian integers and hex strings

    [libdevcore/CommonData.h] and [libdevcore/CommonData.cpp], and the
    [vector_ref] views of [libdevcore/vector_ref.h].  A byte is an integer in
    [0, 256); [bytes] is [std::vector<byte>] and also a [bytesConstRef]
    (a view is represented by its contents). *)

From S2P Require Import Prelude.

Definition byteZ := Z.
Abbreviation bytes := (list Z) (only parsing).

Definition is_byte (b : Z) : Prop := 0 <= b < 256.
Definition bytes_ok (bs : bytes) : Prop := Forall is_byte bs.

(** ** Views: [vector_ref::cropped] *)

(** [cropped(_begin, _count)]: out of bounds in any way gives the empty view. *)
Definition cropped2 (b c : Z) (l : bytes) : bytes :=
  if (b <=? lenZ l) && (c <=? lenZ l) && (b + c <=? lenZ l)
  then take (Z.to_nat c) (drop (Z.to_nat b) l) else [].

(** [cropped(_begin)]. *)
Definition cropped1 (b : Z) (l : bytes) : bytes :=
  if b <=? lenZ l then drop (Z.to_nat b) l else [].

(** ** Big-endian conversions *)

(** [toBigEndian]: writes the low [n] bytes of [v], most significant first. *)
Fixpoint toBigEndian (n : nat) (v : Z) : bytes :=
  match n with
  | O => []
  | S n' => toBigEndian n' (Z.shiftr v 8) ++ [Z.land v 255]
  end.

(** [fromBigEndian<T>]: [wr] is the conversion to [T] made at each round. *)
Definition fromBigEndian (wr : Z -> Z) (bs : bytes) : Z :=
  foldl (fun ret b => wr (Z.lor (Z.shiftl ret 8) b)) 0 bs.

(** [bytesRequired]: counts the rounds of [_i >>= 8] until zero.  [Z.log2 i]
    rounds are always enough, which gives the fuel. *)
Fixpoint bytesRequired_loop (fuel : nat) (i : Z) : Z :=
  match fuel with
  | O => 0
  | S f => if i =? 0 then 0 else 1 + bytesRequired_loop f (Z.shiftr i 8)
  end.

Definition bytesRequired (i : Z) : Z :=
  bytesRequired_loop (S (Z.to_nat (Z.log2 i))) i.

Arguments bytesRequired : simpl never.

(** [toCompactBigEndian(_val, _min)]. *)
Definition toCompactBigEndian (v : Z) (mn : Z) : bytes :=
  toBigEndian (Z.to_nat (Z.max mn (bytesRequired v))) v.

Arguments toCompactBigEndian : simpl never.

(** [asNibbles]. *)
Definition asNibbles (bs : bytes) : bytes :=
  mjoin (fmap (fun i => [i / 16; i mod 16]) bs).

(** [commonPrefix]. *)
Fixpoint commonPrefix (t u : bytes) : Z :=
  match t, u with
  | a :: t', b :: u' => if a =? b then 1 + commonPrefix t' u' else 0
  | _, _ => 0
  end.

(** ** Hex strings *)

(** The characters of a [std::string] are represented by their codes. *)
Abbreviation chars := (list Z) (only parsing).

Definition hexdigit (d : Z) : Z := if d <? 10 then 48 + d else 87 + d.

(** [toHex(_it, _end, _prefix)]. *)
Definition toHex (prefix : chars) (bs : bytes) : chars :=
  prefix ++ mjoin (fmap (fun b => [hexdigit (Z.land (Z.shiftr b 4) 15);
                                   hexdigit (Z.land b 15)]) bs).

Definition fromHexChar (c : Z) : Z :=
  if (48 <=? c) && (c <=? 57) then c - 48
  else if (97 <=? c) && (c <=? 102) then c - 97 + 10
  else if (65 <=? c) && (c <=? 70) then c - 65 + 10
  else -1.

Definition starts_0x (s : chars) : bool :=
  match s with 48 :: 120 :: _ => true | _ => false end.

(** [isHex]. *)
Definition isHex (s : chars) : bool :=
  forallb (fun c => negb (fromHexChar c =? -1)) (if starts_0x s then drop 2 s else s).

Inductive WhenError : Set := DontThrow | ThrowOnBad.

(** The two-characters-at-a-time loop of [fromHex]; [None] is the early exit
    on a bad character. *)
Fixpoint fromHex_pairs (s : chars) : option bytes :=
  match s with
  | h :: l :: s' =>
      let h' := fromHexChar h in
      let l' := fromHexChar l in
      if negb (h' =? -1) && negb (l' =? -1)
      then r ← fromHex_pairs s'; Some (wrap 8 (h' * 16 + l') :: r)
      else None
  | _ => Some []
  end.

(** [fromHex]. *)
Definition fromHex (s : chars) (w : WhenError) : result bytes :=
  let bad := match w with ThrowOnBad => Throw BadHexCharacter | DontThrow => Ok [] end in
  let body := if starts_0x s then drop 2 s else s in
  if Z.odd (lenZ s) then
    match body with
    | c :: rest =>
        if fromHexChar c =? -1 then bad
        else match fromHex_pairs rest with
             | Some r => Ok (fromHexChar c :: r)
             | None => bad
             end
    | [] => bad
    end
  else match fromHex_pairs body with Some r => Ok r | None => bad end.

(** ** Lemmas: bytes and views *)

Lemma byte_div_mod v b : is_byte b -> (v * 256 + b) / 256 = v /\ (v * 256 + b) mod 256 = b.
Proof. unfold is_byte. intros H. Z.div_mod_to_equations. lia. Qed.

Lemma lor_shiftl_byte v b : 0 <= v -> is_byte b -> Z.lor (Z.shiftl v 8) b = v * 256 + b.
Proof.
  unfold is_byte. intros Hv Hb. rewrite Z.shiftl_mul_pow2 by lia. change (2 ^ 8) with 256.
  assert (Z.land (v * 256) b = 0) as E.
  { apply Z.bits_inj'. intros n Hn. rewrite Z.land_spec, Z.bits_0.
    destruct (Z_lt_dec n 8).
    - change 256 with (2 ^ 8). rewrite Z.mul_pow2_bits_low by lia. done.
    - destruct (decide (b = 0)) as [->|]; [by rewrite Z.bits_0, andb_false_r |].
      rewrite (Z.bits_above_log2 b n); [by rewrite andb_false_r | lia |].
      assert (Z.log2 b < 8); [| lia]. apply Z.log2_lt_pow2; lia. }
  rewrite <- Z.lxor_lor by done. symmetry. by apply Z.add_nocarry_lxor.
Qed.

Lemma shiftr8 v : Z.shiftr v 8 = v / 256.
Proof. rewrite Z.shiftr_div_pow2 by lia. done. Qed.

Lemma land255 v : Z.land v 255 = v mod 256.
Proof. change 255 with (Z.ones 8). by rewrite Z.land_ones by lia. Qed.

Lemma toBigEndian_length n v : length (toBigEndian n v) = n.
Proof. revert v. induction n; intros; simpl; [done |]. rewrite length_app, IHn. simpl. lia. Qed.

Lemma toBigEndian_bytes n v : bytes_ok (toBigEndian n v).
Proof.
  revert v. induction n; intros; simpl; [constructor |].
  apply Forall_app. split; [apply IHn |]. constructor; [| constructor].
  rewrite land255. unfold is_byte. apply Z.mod_pos_bound. lia.
Qed.

(** The value of a byte string, as an unbounded integer. *)
Definition be_val (bs : bytes) : Z := foldl (fun r b => r * 256 + b) 0 bs.

Lemma be_val_snoc bs b : be_val (bs ++ [b]) = be_val bs * 256 + b.
Proof. unfold be_val. by rewrite foldl_app. Qed.

Lemma be_val_bound bs : bytes_ok bs -> 0 <= be_val bs < 256 ^ lenZ bs.
Proof.
  induction bs as [|b bs IH] using rev_ind; intros H; [done |].
  apply Forall_app in H as [H1 H2]. inversion H2; subst. unfold is_byte in *.
  specialize (IH H1). rewrite be_val_snoc, lenZ_app. change (lenZ [b]) with 1.
  rewrite Z.pow_add_r by (pose proof (lenZ_nonneg bs); lia). lia.
Qed.

Lemma be_val_toBigEndian n v : 0 <= v -> be_val (toBigEndian n v) = v mod 256 ^ Z.of_nat n.
Proof.
  revert v. induction n as [|n IH]; intros v Hv; [simpl; by rewrite Z.mod_1_r |].
  cbn [toBigEndian]. rewrite be_val_snoc, IH, shiftr8, land255.
  2:{ rewrite shiftr8. apply Z.div_pos; lia. }
  rewrite Nat2Z.inj_succ, Z.pow_succ_r by lia.
  rewrite Z.rem_mul_r by lia. lia.
Qed.

Lemma toBigEndian_be_val bs : bytes_ok bs -> toBigEndian (length bs) (be_val bs) = bs.
Proof.
  induction bs as [|b bs IH] using rev_ind; intros H; [done |].
  apply Forall_app in H as [H1 H2]. inversion H2; subst.
  rewrite length_app, Nat.add_comm. cbn [length Nat.add toBigEndian].
  rewrite be_val_snoc, shiftr8, land255.
  destruct (byte_div_mod (be_val bs) b) as [-> ->]; [done |]. by rewrite IH.
Qed.

(** Without truncation [fromBigEndian] computes the value of the byte string. *)
Lemma fromBigEndian_exact wr bs :
  bytes_ok bs ->
  (forall x, 0 <= x <= be_val bs -> wr x = x) ->
  fromBigEndian wr bs = be_val bs.
Proof.
  unfold fromBigEndian. induction bs as [|b bs IH] using rev_ind; intros Hb Hwr; [done |].
  apply Forall_app in Hb as [H1 H2]. inversion H2; subst.
  pose proof (be_val_bound bs H1). unfold is_byte in *.
  rewrite be_val_snoc in *. rewrite foldl_app. cbn [foldl].
  rewrite IH; [| done | intros x Hx; apply Hwr; lia].
  rewrite lor_shiftl_byte by (done || lia). apply Hwr. lia.
Qed.

(** *** [bytesRequired] *)

Lemma bytesRequired_loop_spec f v k :
  0 <= v -> (0 < k)%nat -> 256 ^ (Z.of_nat k - 1) <= v < 256 ^ Z.of_nat k -> (k <= f)%nat ->
  bytesRequired_loop f v = Z.of_nat k.
Proof.
  revert v k. induction f as [|f IH]; intros v k Hv Hk Hr Hf; [lia |].
  cbn [bytesRequired_loop]. destruct (Z.eqb_spec v 0) as [->|].
  { assert (0 < 256 ^ (Z.of_nat k - 1)) by (apply Z.pow_pos_nonneg; lia). lia. }
  rewrite shiftr8. destruct k as [|[|k]]; [lia | |].
  - change (Z.of_nat 1) with 1 in *. change (256 ^ 1) with 256 in Hr.
    rewrite Z.div_small by lia. by destruct f.
  - rewrite (IH _ (S k)); [lia | apply Z.div_pos; lia | lia | | lia].
    rewrite !Nat2Z.inj_succ in *.
    replace (Z.succ (Z.succ (Z.of_nat k)) - 1) with (Z.succ (Z.of_nat k)) in Hr by lia.
    replace (Z.succ (Z.of_nat k) - 1) with (Z.of_nat k) by lia.
    rewrite !Z.pow_succ_r in * by lia. split.
    + apply Z.div_le_lower_bound; lia.
    + apply Z.div_lt_upper_bound; lia.
Qed.

Lemma bytes_exponent v : 0 < v -> exists k, (0 < k)%nat /\
  256 ^ (Z.of_nat k - 1) <= v < 256 ^ Z.of_nat k /\ (k <= S (Z.to_nat (Z.log2 v)))%nat.
Proof.
  intros Hv. pose proof (Z.log2_nonneg v). destruct (Z.log2_spec v Hv) as [Hlo Hhi].
  exists (S (Z.to_nat (Z.log2 v / 8))).
  assert (0 <= Z.log2 v / 8) by (apply Z.div_pos; lia).
  rewrite Nat2Z.inj_succ, Z2Nat.id by done.
  replace (Z.succ (Z.log2 v / 8) - 1) with (Z.log2 v / 8) by lia.
  change 256 with (2 ^ 8). rewrite <- !Z.pow_mul_r by lia.
  split; [lia |]. split; [split |].
  - eapply Z.le_trans; [| exact Hlo]. apply Z.pow_le_mono_r; Z.div_mod_to_equations; lia.
  - eapply Z.lt_le_trans; [exact Hhi |]. apply Z.pow_le_mono_r; Z.div_mod_to_equations; lia.
  - apply le_n_S, Z2Nat.inj_le; Z.div_mod_to_equations; lia.
Qed.

(** [bytesRequired v] is the least number of bytes that holds [v]. *)
Lemma bytesRequired_spec v : 0 < v ->
  1 <= bytesRequired v /\ 256 ^ (bytesRequired v - 1) <= v < 256 ^ bytesRequired v.
Proof.
  intros Hv. destruct (bytes_exponent v Hv) as (k & Hk & Hr & Hf).
  unfold bytesRequired. rewrite (bytesRequired_loop_spec _ v k) by (done || lia). lia.
Qed.

Lemma bytesRequired_nonneg v : 0 <= v -> 0 <= bytesRequired v.
Proof.
  intros Hv. destruct (decide (v = 0)) as [->|]; [done |].
  destruct (bytesRequired_spec v); lia.
Qed.

Lemma bytesRequired_le v k : 0 <= v < 256 ^ k -> 0 <= k -> bytesRequired v <= k.
Proof.
  intros Hv Hk. destruct (decide (v = 0)) as [->|]; [by vm_compute bytesRequired |].
  destruct (bytesRequired_spec v) as [H1 [H2 H3]]; [lia |].
  destruct (Z_le_dec (bytesRequired v) k); [done |].
  assert (256 ^ k <= 256 ^ (bytesRequired v - 1)) by (apply Z.pow_le_mono_r; lia). lia.
Qed.

(** The most significant byte of the compact encoding of a non-zero integer
    is not zero. *)
Lemma toBigEndian_head n v :
  256 ^ Z.of_nat n <= v < 256 ^ (Z.of_nat n + 1) ->
  exists b rest, toBigEndian (S n) v = b :: rest /\ b <> 0.
Proof.
  intros Hv. pose proof (toBigEndian_length (S n) v) as HL.
  destruct (toBigEndian (S n) v) as [|b rest] eqn:E; [done |].
  exists b, rest. split; [done |]. intros ->.
  assert (0 < 256 ^ Z.of_nat n) by (apply Z.pow_pos_nonneg; lia).
  pose proof (be_val_toBigEndian (S n) v ltac:(lia)) as HV.
  pose proof (toBigEndian_bytes (S n) v) as HB. rewrite E in *.
  apply Forall_cons in HB as [_ HB].
  assert (be_val (0 :: rest) = be_val rest) as Hz by done.
  pose proof (be_val_bound rest HB) as Hbd. simpl in HL. unfold lenZ in Hbd.
  replace (length rest) with n in Hbd by lia.
  rewrite Z.mod_small in HV by (rewrite Nat2Z.inj_succ, <- Z.add_1_r; lia). lia.
Qed.

Lemma compact_length v : 0 <= v -> lenZ (toCompactBigEndian v 0) = bytesRequired v.
Proof.
  intros Hv. unfold toCompactBigEndian, lenZ. rewrite toBigEndian_length.
  pose proof (bytesRequired_nonneg v Hv). lia.
Qed.

Lemma compact_val v : 0 <= v -> be_val (toCompactBigEndian v 0) = v.
Proof.
  intros Hv. unfold toCompactBigEndian. rewrite be_val_toBigEndian by done.
  pose proof (bytesRequired_nonneg v Hv).
  rewrite Z2Nat.id by lia. rewrite Z.max_r by done.
  destruct (decide (v = 0)) as [->|]; [done |].
  destruct (bytesRequired_spec v) as [? [? ?]]; [lia |]. apply Z.mod_small. lia.
Qed.

Lemma compact_head v : 0 < v ->
  exists b rest, toCompactBigEndian v 0 = b :: rest /\ b <> 0.
Proof.
  intros Hv. destruct (bytesRequired_spec v Hv) as [H1 H2].
  unfold toCompactBigEndian. rewrite Z.max_r by lia.
  replace (Z.to_nat (bytesRequired v)) with (S (Z.to_nat (bytesRequired v - 1))) by lia.
  apply toBigEndian_head. rewrite Z2Nat.id by lia.
  replace (bytesRequired v - 1 + 1) with (bytesRequired v) by lia. lia.
Qed.

(** ** Lemmas: hex strings *)

Definition hex_char (c : Z) : Prop := 48 <= c <= 57 \/ 97 <= c <= 102.

Lemma hexdigit_char d : 0 <= d < 16 -> hex_char (hexdigit d).
Proof. unfold hexdigit, hex_char. destruct (Z.ltb_spec d 10); lia. Qed.

Lemma fromHexChar_hexdigit d : 0 <= d < 16 -> fromHexChar (hexdigit d) = d.
Proof.
  intros Hd. unfold hexdigit, fromHexChar.
  destruct (Z.ltb_spec d 10); repeat case_step; bool_to_prop;
    repeat match goal with H : _ && _ = false |- _ => apply andb_false_iff in H as [H|H] end;
    bool_to_prop; lia.
Qed.

Lemma nibbles_of_byte b : is_byte b ->
  0 <= Z.land (Z.shiftr b 4) 15 < 16 /\ 0 <= Z.land b 15 < 16 /\
  Z.land (Z.shiftr b 4) 15 * 16 + Z.land b 15 = b.
Proof.
  unfold is_byte. intros Hb. change 15 with (Z.ones 4). rewrite !Z.land_ones by lia.
  rewrite Z.shiftr_div_pow2 by lia. change (2 ^ 4) with 16.
  rewrite (Z.mod_small (b / 16)); Z.div_mod_to_equations; lia.
Qed.

Lemma toHex_cons b bs :
  toHex [] (b :: bs) =
  hexdigit (Z.land (Z.shiftr b 4) 15) :: hexdigit (Z.land b 15) :: toHex [] bs.
Proof. done. Qed.

Lemma toHex_chars bs : bytes_ok bs -> Forall hex_char (toHex [] bs).
Proof.
  induction 1 as [|b bs Hb Hbs IH]; [constructor |]. rewrite toHex_cons.
  destruct (nibbles_of_byte b Hb) as (? & ? & ?).
  constructor; [by apply hexdigit_char |]. constructor; [by apply hexdigit_char |]. exact IH.
Qed.

Lemma hex_chars_no_0x s : Forall hex_char s -> starts_0x s = false.
Proof.
  intros H. destruct (starts_0x s) eqn:E; [| done]. exfalso.
  assert (exists r, s = 48 :: 120 :: r) as [r ->].
  { unfold starts_0x in E. repeat case_hyp E; try discriminate. eauto. }
  apply Forall_cons in H as [_ H]. apply Forall_cons in H as [H _]. unfold hex_char in H. lia.
Qed.

Lemma fromHex_pairs_toHex bs : bytes_ok bs -> fromHex_pairs (toHex [] bs) = Some bs.
Proof.
  induction 1 as [|b bs Hb Hbs IH]; [done |]. rewrite toHex_cons.
  destruct (nibbles_of_byte b Hb) as (H1 & H2 & H3). unfold is_byte in Hb.
  cbn [fromHex_pairs]. rewrite !fromHexChar_hexdigit by done. rewrite IH, H3.
  rewrite !(proj2 (Z.eqb_neq _ _)) by lia. simpl. by rewrite wrap_small by (simpl; lia).
Qed.

Lemma toHex_even bs : lenZ (toHex [] bs) = 2 * lenZ bs.
Proof. induction bs; [done |]. rewrite toHex_cons, !lenZ_cons. lia. Qed.

(** [fromHex] inverts [toHex]. *)
Lemma fromHex_toHex bs w : bytes_ok bs -> fromHex (toHex [] bs) w = Ok bs.
Proof.
  intros H. unfold fromHex. rewrite hex_chars_no_0x by (by apply toHex_chars).
  rewrite toHex_even, Z.odd_mul. simpl.
  by rewrite fromHex_pairs_toHex.
Qed.

Lemma toHex_inj b1 b2 : bytes_ok b1 -> bytes_ok b2 -> toHex [] b1 = toHex [] b2 -> b1 = b2.
Proof.
  intros H1 H2 E. pose proof (fromHex_toHex b1 ThrowOnBad H1) as F.
  rewrite E, fromHex_toHex in F by done. congruence.
Qed.
