(* ===== verification/RLP.v ===== *)
(** * Recursive Linear-Prefix data

    [libdevcore/RLP.h] and [libdevcore/RLP.cpp]: the reader [RLP] with its
    list-indexing cache, the conversions to integers, byte strings, hashes
    and vectors, and the writer [RLPStream] with its stack of open lists.
    The reader's queries take the bytes of the node ([RLP::m_data]); only
    [operator[]] touches the mutable cache and threads the whole object. *)

From S2P Require Import Prelude CommonData.

(** ** Constants *)
Definition c_rlpMaxLengthBytes : Z := 8.
Definition c_rlpDataImmLenStart : Z := 0x80.
Definition c_rlpListStart : Z := 0xc0.
Definition c_rlpDataImmLenCount : Z := c_rlpListStart - c_rlpDataImmLenStart - c_rlpMaxLengthBytes.
Definition c_rlpDataIndLenZero : Z := c_rlpDataImmLenStart + c_rlpDataImmLenCount - 1.
Definition c_rlpListImmLenCount : Z := 256 - c_rlpListStart - c_rlpMaxLengthBytes.
Definition c_rlpListIndLenZero : Z := c_rlpListStart + c_rlpListImmLenCount - 1.

(** Conversion flags. *)
Definition AllowNonCanon : Z := 1.
Definition ThrowOnFail : Z := 4.
Definition FailIfTooBig : Z := 8.
Definition FailIfTooSmall : Z := 16.
Definition Strict : Z := Z.lor ThrowOnFail FailIfTooBig.
Definition VeryStrict : Z := Z.lor (Z.lor ThrowOnFail FailIfTooBig) FailIfTooSmall.
Definition LaissezFaire : Z := AllowNonCanon.

Definition has (flags f : Z) : bool := negb (Z.land flags f =? 0).

(** The integer types the code decodes to: [intTraits<T>::maxSize] and the
    conversion to [T]. *)
Inductive ity : Set := U8 | U16 | U32 | U64 | I64 | U160 | U256 | Bigint.

Definition maxSize (t : ity) : Z :=
  match t with
  | U8 => 1 | U16 => 2 | U32 => 4 | U64 => 8 | I64 => 8 | U160 => 20 | U256 => 32
  | Bigint => 2 ^ 32 - 1
  end.

Definition conv_to (t : ity) (x : Z) : Z :=
  match t with
  | U8 => wrap 8 x | U16 => wrap 16 x | U32 => wrap 32 x | U64 => wrap 64 x
  | I64 => swrap 64 x | U160 => wrap 160 x | U256 => wrap 256 x | Bigint => x
  end.

(** ** The reader *)
Record RLP := mk_RLP {
  m_data : bytes;
  m_lastIndex : Z;
  m_lastEnd : Z;
  m_lastItem : bytes
}.

(** A node over [d] with a fresh indexing cache. *)
Definition node (d : bytes) : RLP :=
  {| m_data := d; m_lastIndex := SIZE_MAX; m_lastEnd := 0; m_lastItem := [] |}.

(** A byte that a guard has shown to be there. *)
Definition byteAt (d : bytes) (i : Z) : Z := nth (Z.to_nat i) d 0.

(** [m_data[i]] and the bytes [m_data[i] .. m_data[i + n - 1]]: a read past the
    end of the view is undefined behaviour. *)
Definition readAt (d : bytes) (i : Z) : result Z :=
  if i <? lenZ d then Ok (byteAt d i) else Throw UndefinedBehaviour.

Definition readBytes (d : bytes) (i n : Z) : result bytes :=
  if i + n <=? lenZ d then Ok (take (Z.to_nat n) (drop (Z.to_nat i) d)) else Throw UndefinedBehaviour.

Definition isNull (d : bytes) : bool := lenZ d =? 0.

Definition isEmpty (d : bytes) : bool :=
  negb (isNull d) &&
  ((byteAt d 0 =? c_rlpDataImmLenStart) || (byteAt d 0 =? c_rlpListStart)).

Definition isData (d : bytes) : bool := negb (isNull d) && (byteAt d 0 <? c_rlpListStart).

Definition isList (d : bytes) : bool := negb (isNull d) && (c_rlpListStart <=? byteAt d 0).

Definition isSingleByte (d : bytes) : bool :=
  negb (isNull d) && (byteAt d 0 <? c_rlpDataImmLenStart).

Definition requireGood (d : bytes) : result unit :=
  if isNull d then Throw BadRLP
  else
    n ← readAt d 0;
    if negb (n =? c_rlpDataImmLenStart + 1) then Ok tt
    else if lenZ d <? 2 then Throw BadRLP
    else
      b ← readAt d 1;
      if b <? c_rlpDataImmLenStart then Throw BadRLP else Ok tt.

Definition isInt (d : bytes) : result bool :=
  if isNull d then Ok false
  else
    _ ← requireGood d;
    n ← readAt d 0;
    if n <? c_rlpDataImmLenStart then Ok (negb (n =? 0))
    else if n =? c_rlpDataImmLenStart then Ok true
    else if n <=? c_rlpDataIndLenZero then
      if lenZ d <=? 1 then Throw BadRLP else b ← readAt d 1; Ok (negb (b =? 0))
    else if n <? c_rlpListStart then
      if lenZ d <=? 1 + n - c_rlpDataIndLenZero then Throw BadRLP
      else b ← readAt d (1 + n - c_rlpDataIndLenZero); Ok (negb (b =? 0))
    else Ok false.

(** The part of [length] shared by long strings and long lists, [n] being the
    first byte: the length of the length is [n - zero], the length follows, most
    significant byte first. *)
Definition longLength (d : bytes) (n zero limit : Z) : result Z :=
  let lengthSize := n - zero in
  if lenZ d <=? lengthSize then Throw BadRLP
  else
    zeroLed ← (if 1 <? lenZ d then b ← readAt d 1; Ok (b =? 0) else Ok false);
    if (zeroLed : bool) then Throw BadRLP
    else if 8 <? lengthSize then Throw UndersizeRLP
    else
      b ← readAt d 1;
      if b =? 0 then Throw BadRLP
      else
        bs ← readBytes d 1 lengthSize;
        let ret := fromBigEndian (wrap 64) bs in
        if ret <? limit then Throw BadRLP
        else if SIZE_MAX - 0x100 <=? ret then Throw UndersizeRLP
        else Ok ret.

(** [RLP::length]. *)
Definition rlpLength (d : bytes) : result Z :=
  if isNull d then Ok 0
  else
    _ ← requireGood d;
    n ← readAt d 0;
    if n <? c_rlpDataImmLenStart then Ok 1
    else if n <=? c_rlpDataIndLenZero then Ok (n - c_rlpDataImmLenStart)
    else if n <? c_rlpListStart then
      longLength d n c_rlpDataIndLenZero
        (c_rlpListStart - c_rlpDataImmLenStart - c_rlpMaxLengthBytes)
    else if n <=? c_rlpListIndLenZero then Ok (n - c_rlpListStart)
    else longLength d n c_rlpListIndLenZero (0x100 - c_rlpListStart - c_rlpMaxLengthBytes).

Definition lengthSize (d : bytes) : Z :=
  if isData d && (c_rlpDataIndLenZero <? byteAt d 0) then byteAt d 0 - c_rlpDataIndLenZero
  else if isList d && (c_rlpListIndLenZero <? byteAt d 0) then byteAt d 0 - c_rlpListIndLenZero
  else 0.

Definition payloadOffset (d : bytes) : Z := if isSingleByte d then 0 else 1 + lengthSize d.

Definition actualSize (d : bytes) : result Z :=
  if isNull d then Ok 0
  else if isSingleByte d then Ok 1
  else if isData d || isList d then l ← rlpLength d; Ok (payloadOffset d + l)
  else Ok 0.

Definition payload (d : bytes) : result bytes :=
  l ← rlpLength d;
  if lenZ d <? l then Throw BadRLP else Ok (cropped2 (payloadOffset d) l d).

(** The constructor [RLP(bytesConstRef, Strictness)]. *)
Definition RLP_ (d : bytes) (s : Z) : result RLP :=
  d1 ← (if has s FailIfTooBig then
          a ← actualSize d;
          if a <? lenZ d then
            if has s ThrowOnFail then Throw OversizeRLP else Ok []
          else Ok d
        else Ok d);
  d2 ← (if has s FailIfTooSmall then
          a ← actualSize d1;
          if lenZ d <? a then
            if has s ThrowOnFail then Throw UndersizeRLP else Ok []
          else Ok d1
        else Ok d1);
  Ok (node d2).

Definition sizeAsEncoded (d : bytes) : result Z :=
  r ← RLP_ d (Z.lor ThrowOnFail FailIfTooSmall); actualSize (m_data r).

(** The cache-advancing loop of [operator[]]: at most [i - m_lastIndex]
    rounds, and it stops on an empty item. *)
Fixpoint index_loop (rounds : nat) (pl : bytes) (r : RLP) : result RLP :=
  match rounds with
  | O => Ok r
  | S k =>
      if lenZ (m_lastItem r) =? 0 then Ok r
      else
        let it := cropped1 (m_lastEnd r) pl in
        n ← sizeAsEncoded it;
        let it' := cropped2 0 n it in
        index_loop k pl
          {| m_data := m_data r; m_lastIndex := m_lastIndex r + 1;
             m_lastEnd := m_lastEnd r + lenZ it'; m_lastItem := it' |}
  end.

(** [operator[]]: the item and the node with its updated cache. *)
Definition index (i : Z) (r : RLP) : result (RLP * RLP) :=
  pl ← payload (m_data r);
  r1 ← (if i <? m_lastIndex r then
          n ← sizeAsEncoded pl;
          Ok {| m_data := m_data r; m_lastIndex := 0; m_lastEnd := n;
                m_lastItem := cropped2 0 n pl |}
        else Ok r);
  r2 ← index_loop (Z.to_nat (i - m_lastIndex r1)) pl r1;
  it ← RLP_ (m_lastItem r2) (Z.lor ThrowOnFail FailIfTooSmall);
  Ok (it, r2).

(** The items an iterator over the node visits: each item is cut off the
    front of the payload, and built with the default strictness. *)
Fixpoint iter_items (fuel : nat) (pl : bytes) : result (list RLP) :=
  match fuel with
  | O => Ok []
  | S f =>
      if lenZ pl =? 0 then Ok []
      else
        n ← sizeAsEncoded pl;
        it ← RLP_ (cropped2 0 n pl) VeryStrict;
        rest ← iter_items f (cropped1 n pl);
        Ok (it :: rest)
  end.

Definition toList (flags : Z) (r : RLP) : result (list RLP) :=
  if negb (isList (m_data r)) then
    if has flags ThrowOnFail then Throw BadCast else Ok []
  else pl ← payload (m_data r); iter_items (length pl) pl.

(** [items]: the number of items of a list. *)
Fixpoint items_loop (fuel : nat) (d : bytes) : result Z :=
  match fuel with
  | O => Ok 0
  | S f => if lenZ d =? 0 then Ok 0
           else n ← sizeAsEncoded d; k ← items_loop f (cropped1 n d); Ok (1 + k)
  end.

Definition itemCount (r : RLP) : result Z :=
  if isList (m_data r) then pl ← payload (m_data r); items_loop (length pl) pl else Ok 0.

(** ** Conversions *)
Definition toBytes (flags : Z) (r : RLP) : result bytes :=
  let d := m_data r in
  if negb (isData d) then if has flags ThrowOnFail then Throw BadCast else Ok []
  else
    p ← payload d;
    l ← rlpLength d;
    if lenZ p <? l then Throw UndefinedBehaviour else Ok (take (Z.to_nat l) p).

Definition toBytesConstRef (flags : Z) (r : RLP) : result bytes :=
  let d := m_data r in
  if negb (isData d) then if has flags ThrowOnFail then Throw BadCast else Ok []
  else p ← payload d; l ← rlpLength d; Ok (cropped2 0 l p).

Definition toInt (t : ity) (flags : Z) (r : RLP) : result Z :=
  let d := m_data r in
  _ ← requireGood d;
  ii ← isInt d;
  if (negb ii && negb (has flags AllowNonCanon)) || isList d || isNull d then
    if has flags ThrowOnFail then Throw BadCast else Ok 0
  else
    p ← payload d;
    if (maxSize t <? lenZ p) && has flags FailIfTooBig then
      if has flags ThrowOnFail then Throw BadCast else Ok 0
    else Ok (fromBigEndian (conv_to t) p).

Definition toPositiveInt64 (flags : Z) (r : RLP) : result Z :=
  i ← toInt I64 flags r;
  if has flags ThrowOnFail && (i <? 0) then Throw BadCast else Ok i.

(** [toHash<FixedHash<N>>]: right-aligned, zero-padded on the left. *)
Definition toHash (N : Z) (flags : Z) (r : RLP) : result bytes :=
  let d := m_data r in
  _ ← requireGood d;
  p ← payload d;
  let l := lenZ p in
  if negb (isData d) || ((N <? l) && has flags FailIfTooBig)
     || ((l <? N) && has flags FailIfTooSmall) then
    if has flags ThrowOnFail then Throw BadCast else Ok (replicate (Z.to_nat N) 0)
  else
    let s := Z.min N l in
    Ok (replicate (Z.to_nat (N - s)) 0 ++ take (Z.to_nat s) p).

Section MapResult.
Context {A B : Type} (f : A -> result B).

Fixpoint mapM_result (l : list A) : result (list B) :=
  match l with
  | [] => Ok []
  | x :: l' => y ← f x; ys ← mapM_result l'; Ok (y :: ys)
  end.
End MapResult.

Definition toVector {A} (conv : Z -> RLP -> result A) (flags : Z) (r : RLP) : result (list A) :=
  if isList (m_data r) then its ← toList flags r; mapM_result (conv flags) its
  else if has flags ThrowOnFail then Throw BadCast else Ok [].

Definition toPair {A B} (dfl : A * B) (ca : Z -> RLP -> result A) (cb : Z -> RLP -> result B)
    (flags : Z) (r : RLP) : result (A * B) :=
  if negb (isList (m_data r)) then Throw BadCast
  else
    n ← itemCount r;
    if negb (n =? 2) then if has flags ThrowOnFail then Throw BadCast else Ok dfl
    else
      '(i0, r1) ← index 0 r;
      a ← ca flags i0;
      '(i1, _) ← index 1 r1;
      b ← cb flags i1;
      Ok (a, b).

(** ** The writer *)

(** The stack of open lists is kept with [m_listStack.back()] at its head:
    the items still expected and the offset where the list starts. *)
Record RLPStream := mk_RLPStream {
  m_out : bytes;
  m_listStack : list (Z * Z)
}.

Definition emptyStream : RLPStream := {| m_out := []; m_listStack := [] |}.

(** Closing a list that starts at [p]: the header is inserted at [p]. *)
Definition closeList (p : Z) (o : bytes) : result bytes :=
  let s := lenZ o - p in
  let brs := bytesRequired s in
  let pre := take (Z.to_nat p) o in
  let body := drop (Z.to_nat p) o in
  if s <? c_rlpListImmLenCount then Ok (pre ++ [c_rlpListStart + s] ++ body)
  else if c_rlpListIndLenZero + brs <=? 0xff then
    Ok (pre ++ ((c_rlpListIndLenZero + brs) :: toBigEndian (Z.to_nat brs) s) ++ body)
  else Throw RLPException.

Fixpoint noteAppended_loop (stack : list (Z * Z)) (cnt : Z) (o : bytes) : result RLPStream :=
  match stack with
  | [] => Ok {| m_out := o; m_listStack := [] |}
  | (first, p) :: rest =>
      if first <? cnt then Throw RLPException
      else if negb (first - cnt =? 0) then
        Ok {| m_out := o; m_listStack := (first - cnt, p) :: rest |}
      else o' ← closeList p o; noteAppended_loop rest 1 o'
  end.

Definition noteAppended (cnt : Z) (s : RLPStream) : result RLPStream :=
  if cnt =? 0 then Ok s else noteAppended_loop (m_listStack s) cnt (m_out s).

Definition push (bs : bytes) (s : RLPStream) : RLPStream :=
  {| m_out := m_out s ++ bs; m_listStack := m_listStack s |}.

Definition pushInt (i br : Z) (s : RLPStream) : RLPStream :=
  push (toBigEndian (Z.to_nat br) i) s.

Definition pushCount (count base : Z) (s : RLPStream) : result RLPStream :=
  let br := bytesRequired count in
  if 0xff <? br + base then Throw RLPException
  else Ok (pushInt count br (push [br + base] s)).

Definition appendRaw (bs : bytes) (itemCount : Z) (s : RLPStream) : result RLPStream :=
  noteAppended itemCount (push bs s).

(** [append(bytesConstRef _s, bool _compact)]: [_compact] drops leading zeroes. *)
Fixpoint dropZeroes (bs : bytes) : bytes :=
  match bs with
  | b :: bs' => if b =? 0 then dropZeroes bs' else bs
  | [] => []
  end.

Definition append_data (bs0 : bytes) (compact : bool) (s : RLPStream) : result RLPStream :=
  let bs := if compact then dropZeroes bs0 else bs0 in
  s' ← (if (lenZ bs =? 1) && (byteAt bs 0 <? c_rlpDataImmLenStart) then
          Ok (push [byteAt bs 0] s)
        else
          s1 ← (if lenZ bs <? c_rlpDataImmLenCount
                then Ok (push [lenZ bs + c_rlpDataImmLenStart] s)
                else pushCount (lenZ bs) c_rlpDataIndLenZero s);
          appendRaw bs 0 s1);
  noteAppended 1 s'.

(** [append(bigint)]. *)
Definition append_bigint (i : Z) (s : RLPStream) : result RLPStream :=
  s' ← (if i =? 0 then Ok (push [c_rlpDataImmLenStart] s)
        else if i <? c_rlpDataImmLenStart then Ok (push [wrap 8 i] s)
        else
          let br := bytesRequired i in
          s1 ← (if br <? c_rlpDataImmLenCount then Ok (push [br + c_rlpDataImmLenStart] s)
                else
                  let brbr := bytesRequired br in
                  if 0xff <? c_rlpDataIndLenZero + brbr then Throw RLPException
                  else Ok (pushInt br brbr (push [c_rlpDataIndLenZero + brbr] s)));
          Ok (pushInt i br s1));
  noteAppended 1 s'.

(** [append(unsigned)], the overload chosen for every built-in integer type:
    the argument is converted to 32 bits. *)
Definition append_unsigned (x : Z) (s : RLPStream) : result RLPStream :=
  append_bigint (wrap 32 x) s.

Definition append_u256 (x : Z) (s : RLPStream) : result RLPStream := append_bigint x s.

(** [appendList(bytesConstRef)] and [appendList(size_t)]. *)
Definition appendList_rlp (bs : bytes) (s : RLPStream) : result RLPStream :=
  s1 ← (if lenZ bs <? c_rlpListImmLenCount then Ok (push [lenZ bs + c_rlpListStart] s)
        else pushCount (lenZ bs) c_rlpListIndLenZero s);
  appendRaw bs 1 s1.

Definition appendList (n : Z) (s : RLPStream) : result RLPStream :=
  if negb (n =? 0) then
    Ok {| m_out := m_out s; m_listStack := (n, lenZ (m_out s)) :: m_listStack s |}
  else appendList_rlp [] s.

Section FoldStream.
Context {A : Type} (f : A -> RLPStream -> result RLPStream).

Fixpoint foldM_stream (l : list A) (s : RLPStream) : result RLPStream :=
  match l with
  | [] => Ok s
  | x :: l' => s' ← f x s; foldM_stream l' s'
  end.
End FoldStream.

Definition appendVector {A} (app : A -> RLPStream -> result RLPStream) (l : list A)
    (s : RLPStream) : result RLPStream :=
  s' ← appendList (lenZ l) s; foldM_stream app l s'.

Definition appendPair {A B} (fa : A -> RLPStream -> result RLPStream)
    (fb : B -> RLPStream -> result RLPStream) (p : A * B) (s : RLPStream) : result RLPStream :=
  s1 ← appendList 2 s; s2 ← fa (fst p) s1; fb (snd p) s2.

(** A chain of [<<]: the operations in order. *)
Definition streamAll (ops : list (RLPStream -> result RLPStream)) (s : RLPStream)
    : result RLPStream := foldM_stream (fun op => op) ops s.

(** [out] and [swapOut]. *)
Definition out (s : RLPStream) : result bytes :=
  match m_listStack s with [] => Ok (m_out s) | _ => Throw RLPException end.

(** ** Reference encoding *)

(** The header of a payload of [n] bytes. *)
Definition hdr (short long n : Z) : bytes :=
  if n <? 56 then [short + n]
  else (long + bytesRequired n) :: toBigEndian (Z.to_nat (bytesRequired n)) n.

Definition enc_data (bs : bytes) : bytes :=
  if (lenZ bs =? 1) && (byteAt bs 0 <? 0x80) then bs else hdr 0x80 0xb7 (lenZ bs) ++ bs.

Definition enc_int (n : Z) : bytes := enc_data (toCompactBigEndian n 0).

Definition enc_list (pl : bytes) : bytes := hdr 0xc0 0xf7 (lenZ pl) ++ pl.

(** Lengths the reader accepts: the bound [length] enforces. *)
Definition size_ok (bs : bytes) : Prop := lenZ bs < SIZE_MAX - 0x100.

(** Trees of byte strings, their encoding, and the calls that stream them. *)
#[warnings="-register-all"]
Inductive item : Type :=
  | Data (bs : bytes)
  | List (its : list item).

Fixpoint encode_item (it : item) : bytes :=
  match it with
  | Data bs => enc_data bs
  | List its => enc_list (concat (map encode_item its))
  end.

Fixpoint stream_item (it : item) (s : RLPStream) : result RLPStream :=
  match it with
  | Data bs => append_data bs false s
  | List its => s' ← appendList (lenZ its) s; foldM_stream stream_item its s'
  end.

(** Well-sized trees of bytes. *)
Fixpoint item_ok (it : item) : Prop :=
  match it with
  | Data bs => bytes_ok bs /\ size_ok bs
  | List its => size_ok (concat (map encode_item its)) /\
                fold_right (fun x P => item_ok x /\ P) True its
  end.

(** Induction over trees, with the hypothesis for every item of a list. *)
Lemma item_ind' (P : item -> Prop) :
  (forall bs, P (Data bs)) -> (forall its, Forall P its -> P (List its)) -> forall it, P it.
Proof.
  intros HD HL. fix rec 1. intros [bs|its]; [apply HD |]. apply HL.
  induction its; constructor; [apply rec | done].
Qed.

Lemma item_ok_forall its :
  fold_right (fun x P => item_ok x /\ P) True its <-> Forall item_ok its.
Proof.
  induction its; simpl; [split; constructor |]. rewrite Forall_cons, IHits. done.
Qed.

(** ** Lemmas: headers *)

Lemma compact_eq n : 0 <= n ->
  toBigEndian (Z.to_nat (bytesRequired n)) n = toCompactBigEndian n 0.
Proof.
  intros H. unfold toCompactBigEndian. pose proof (bytesRequired_nonneg n H).
  by rewrite Z.max_r.
Qed.

Lemma bytesRequired_size n : 0 < n < 2 ^ 64 -> 1 <= bytesRequired n <= 8.
Proof.
  intros H. split; [apply bytesRequired_spec; lia |].
  apply bytesRequired_le; [| lia]. change (256 ^ 8) with (2 ^ 64). lia.
Qed.

Lemma hdr_short a b n : n < 56 -> hdr a b n = [a + n].
Proof. intros H. unfold hdr. by rewrite (proj2 (Z.ltb_lt _ _)). Qed.

Lemma be_len n : 0 <= n -> lenZ (toBigEndian (Z.to_nat (bytesRequired n)) n) = bytesRequired n.
Proof. intros H. rewrite compact_eq by done. by apply compact_length. Qed.

Lemma hdr_nonempty a b n : hdr a b n <> [].
Proof. unfold hdr. destruct (n <? 56); done. Qed.

Lemma hdr_len a b n : 0 <= n < 2 ^ 64 -> 1 <= lenZ (hdr a b n) <= 9.
Proof.
  intros H. unfold hdr. destruct (Z.ltb_spec n 56); [unfold lenZ; simpl; lia |].
  rewrite lenZ_cons, be_len by lia.
  pose proof (bytesRequired_size n). lia.
Qed.

(** *** Reads that a guard protects *)
Lemma readAt_in d i : i < lenZ d -> readAt d i = Ok (byteAt d i).
Proof. intros Hi. unfold readAt. by rewrite (proj2 (Z.ltb_lt _ _)). Qed.

Lemma readAt_first d : isNull d = false -> readAt d 0 = Ok (byteAt d 0).
Proof. unfold isNull. intros Hd. bool_to_prop. pose proof (lenZ_nonneg d). apply readAt_in. lia. Qed.

Lemma readBytes_in d i n : i + n <= lenZ d -> readBytes d i n = Ok (take (Z.to_nat n) (drop (Z.to_nat i) d)).
Proof. intros Hi. unfold readBytes. by rewrite (proj2 (Z.leb_le _ _)). Qed.

Lemma requireGood_at d :
  requireGood d =
  if isNull d then Throw BadRLP
  else if negb (byteAt d 0 =? c_rlpDataImmLenStart + 1) then Ok tt
  else if lenZ d <? 2 then Throw BadRLP
  else if byteAt d 1 <? c_rlpDataImmLenStart then Throw BadRLP
  else Ok tt.
Proof.
  unfold requireGood. destruct (isNull d) eqn:En; [done |]. rewrite readAt_first by done.
  cbn [mbind result_bind]. case_step; [done |]. destruct (Z.ltb_spec (lenZ d) 2); [done |].
  by rewrite readAt_in by lia.
Qed.

Lemma longLength_at d n zero limit : zero < n ->
  longLength d n zero limit =
  if lenZ d <=? n - zero then Throw BadRLP
  else if byteAt d 1 =? 0 then Throw BadRLP
  else if 8 <? n - zero then Throw UndersizeRLP
  else
    let ret := fromBigEndian (wrap 64) (take (Z.to_nat (n - zero)) (drop 1 d)) in
    if ret <? limit then Throw BadRLP
    else if SIZE_MAX - 0x100 <=? ret then Throw UndersizeRLP
    else Ok ret.
Proof.
  intros Hn. unfold longLength. cbv zeta. destruct (Z.leb_spec (lenZ d) (n - zero)); [done |].
  rewrite (proj2 (Z.ltb_lt 1 _)), readAt_in by lia. cbn [mbind result_bind].
  destruct (byteAt d 1 =? 0) eqn:E1; [done |]. case_step; [done |]. rewrite readBytes_in by lia.
  cbn [mbind result_bind]. by rewrite ?E1.
Qed.

Lemma rlpLength_at d :
  rlpLength d =
  if isNull d then Ok 0
  else
    _ ← requireGood d;
    let n := byteAt d 0 in
    if n <? c_rlpDataImmLenStart then Ok 1
    else if n <=? c_rlpDataIndLenZero then Ok (n - c_rlpDataImmLenStart)
    else if n <? c_rlpListStart then
      longLength d n c_rlpDataIndLenZero
        (c_rlpListStart - c_rlpDataImmLenStart - c_rlpMaxLengthBytes)
    else if n <=? c_rlpListIndLenZero then Ok (n - c_rlpListStart)
    else longLength d n c_rlpListIndLenZero (0x100 - c_rlpListStart - c_rlpMaxLengthBytes).
Proof.
  unfold rlpLength. destruct (isNull d) eqn:En; [done |]. by rewrite readAt_first.
Qed.

Lemma longLength_hdr zero limit n rest :
  56 <= n < SIZE_MAX - 0x100 -> limit <= n ->
  longLength ((zero + bytesRequired n) :: toBigEndian (Z.to_nat (bytesRequired n)) n ++ rest)
    (zero + bytesRequired n) zero limit = Ok n.
Proof.
  unfold SIZE_MAX. intros Hn Hl. pose proof (bytesRequired_size n ltac:(lia)) as Hbr.
  rewrite compact_eq, longLength_at by lia. rewrite Z.add_simpl_l.
  pose proof (compact_length n ltac:(lia)) as HL. unfold SIZE_MAX.
  destruct (compact_head n) as (b & t & Hc & Hb); [lia |].
  assert (byteAt ((zero + bytesRequired n) :: toCompactBigEndian n 0 ++ rest) 1 = b) as ->.
  { by rewrite Hc. }
  rewrite lenZ_cons, lenZ_app, HL. pose proof (lenZ_nonneg rest).
  rewrite (proj2 (Z.leb_gt _ _)) by lia. rewrite (proj2 (Z.eqb_neq b 0)) by done.
  rewrite (proj2 (Z.ltb_ge 8 _)) by lia.
  change (drop 1 (?x :: ?l)) with l.
  rewrite take_app_length' by (unfold lenZ in HL; lia).
  rewrite fromBigEndian_exact, compact_val by
    (lia || apply toBigEndian_bytes || (intros x; rewrite compact_val by lia; intros;
     apply wrap_small; lia)).
  rewrite (proj2 (Z.ltb_ge n limit)) by lia.
  by rewrite (proj2 (Z.leb_gt _ _)) by lia.
Qed.

(** ** Lemmas: what the reader sees on an encoded item *)

(** The node over [d] is a list or a string as [lst] says, with a payload of
    [n] bytes at offset [off]. *)
Record nodeView (d : bytes) (lst : bool) (off n : Z) : Prop := {
  view_null : isNull d = false;
  view_data : isData d = negb lst;
  view_list : isList d = lst;
  view_good : requireGood d = Ok tt;
  view_length : rlpLength d = Ok n;
  view_offset : payloadOffset d = off;
  view_single : isSingleByte d = true -> off = 0 /\ n = 1
}.

Lemma isNull_cons x t : isNull (x :: t) = false.
Proof. unfold isNull. rewrite lenZ_cons. pose proof (lenZ_nonneg t). apply Z.eqb_neq. lia. Qed.

Lemma first_cons x t : byteAt (x :: t) 0 = x.
Proof. done. Qed.

(** Decide the comparisons the reader makes on a first byte whose range is
    known. *)
Ltac decide_first :=
  repeat match goal with
  | |- context [?a <? ?b] =>
      first [rewrite (proj2 (Z.ltb_lt a b)) by lia | rewrite (proj2 (Z.ltb_ge a b)) by lia]
  | |- context [?a <=? ?b] =>
      first [rewrite (proj2 (Z.leb_le a b)) by lia | rewrite (proj2 (Z.leb_gt a b)) by lia]
  | |- context [?a =? ?b] =>
      first [rewrite (proj2 (Z.eqb_eq a b)) by lia | rewrite (proj2 (Z.eqb_neq a b)) by lia]
  end.

Ltac unfold_consts :=
  unfold c_rlpDataIndLenZero, c_rlpListIndLenZero in *;
  unfold c_rlpDataImmLenCount, c_rlpListImmLenCount in *;
  unfold c_rlpMaxLengthBytes, c_rlpDataImmLenStart, c_rlpListStart in *.

Ltac unfold_reader :=
  rewrite ?rlpLength_at, ?requireGood_at; unfold payloadOffset, lengthSize in *;
  unfold isData, isList, isSingleByte in *; unfold_consts;
  rewrite ?isNull_cons, ?first_cons in *.

Lemma view_byte b rest : 0 <= b < 0x80 -> nodeView (b :: rest) false 0 1.
Proof.
  intros Hb. constructor; unfold_reader; try (rewrite isNull_cons; done);
    simpl negb; decide_first; try done.
Qed.

(** A short header: one byte, at least [0x80]; the two-byte form of a single
    small byte is excluded. *)
Lemma view_short x rest :
  0x80 <= x < 0xb8 \/ 0xc0 <= x < 0xf8 ->
  (x = 0x81 -> exists b t, rest = b :: t /\ 0x80 <= b) ->
  nodeView (x :: rest) (0xc0 <=? x) 1 (if 0xc0 <=? x then x - 0xc0 else x - 0x80).
Proof.
  intros Hx Hs.
  assert (requireGood (x :: rest) = Ok tt) as Hg.
  { unfold_reader. destruct (Z.eqb_spec x (128 + 1)) as [->|]; simpl; [| done].
    destruct Hs as (b & t & -> & Hb); [done |].
    rewrite !lenZ_cons. pose proof (lenZ_nonneg t). change (byteAt (_ :: ?y :: _) 1) with y.
    by decide_first. }
  constructor; try exact Hg; try apply isNull_cons; destruct Hx as [Hx|Hx];
    try (rewrite rlpLength_at, Hg; cbn [mbind result_bind]);
    unfold_reader; simpl negb; decide_first; try done.
Qed.

Lemma view_long (lst : bool) n rest :
  56 <= n < SIZE_MAX - 0x100 ->
  let zero := if lst then 0xf7 else 0xb7 in
  nodeView ((zero + bytesRequired n) :: toBigEndian (Z.to_nat (bytesRequired n)) n ++ rest)
    lst (1 + bytesRequired n) n.
Proof.
  intros Hn zero. pose proof (bytesRequired_size n ltac:(unfold SIZE_MAX in Hn; lia)) as Hb.
  assert (requireGood ((zero + bytesRequired n) ::
            toBigEndian (Z.to_nat (bytesRequired n)) n ++ rest) = Ok tt) as Hg.
  { subst zero. unfold_reader. destruct lst; decide_first; done. }
  constructor; try exact Hg; try apply isNull_cons.
  3:{ rewrite rlpLength_at, Hg, isNull_cons, first_cons. cbn [mbind result_bind].
      subst zero. destruct lst; unfold_reader; decide_first; apply longLength_hdr; lia. }
  all: clear Hg; subst zero; destruct lst; unfold_reader; simpl negb; decide_first;
    cbn [andb]; try done; lia.
Qed.

Lemma view_enc_list pl rest : size_ok pl ->
  nodeView (enc_list pl ++ rest) true (lenZ (enc_list pl) - lenZ pl) (lenZ pl).
Proof.
  unfold size_ok. intros Hs. pose proof (lenZ_nonneg pl). unfold enc_list.
  rewrite lenZ_app, Z.add_simpl_r, <- app_assoc. unfold hdr.
  destruct (Z.ltb_spec (lenZ pl) 56).
  - change ([?x] ++ ?l) with (x :: l). change (lenZ [_]) with 1.
    pose proof (view_short (0xc0 + lenZ pl) (pl ++ rest)) as V.
    rewrite (proj2 (Z.leb_le _ _)) in V by lia. rewrite Z.add_simpl_l in V. apply V; lia.
  - rewrite lenZ_cons, be_len by done. apply (view_long true). lia.
Qed.

Lemma view_enc_data bs rest : bytes_ok bs -> size_ok bs ->
  nodeView (enc_data bs ++ rest) false (lenZ (enc_data bs) - lenZ bs) (lenZ bs).
Proof.
  unfold size_ok. intros Hb Hs. pose proof (lenZ_nonneg bs). unfold enc_data.
  destruct ((lenZ bs =? 1) && (byteAt bs 0 <? 128)) eqn:E1.
  - bool_to_prop. rewrite Z.sub_diag. destruct (lenZ_1_inv bs) as [b ->]; [done |].
    apply Forall_cons in Hb as [Hb _]. apply view_byte. unfold is_byte in Hb.
    change (byteAt [b] 0) with b in *. lia.
  - rewrite lenZ_app, Z.add_simpl_r, <- app_assoc. unfold hdr.
    destruct (Z.ltb_spec (lenZ bs) 56).
    + change ([?x] ++ ?l) with (x :: l). change (lenZ [_]) with 1.
      pose proof (view_short (0x80 + lenZ bs) (bs ++ rest)) as V.
      rewrite (proj2 (Z.leb_gt _ _)) in V by lia. rewrite Z.add_simpl_l in V. apply V; [lia |].
      intros Hx. assert (lenZ bs = 1) as Hl by lia. rewrite Hl in E1. simpl in E1. bool_to_prop.
      destruct (lenZ_1_inv bs) as [b ->]; [done |]. exists b, rest. done.
    + rewrite lenZ_cons, be_len by done. apply (view_long false). lia.
Qed.

(** ** Valid items: their size can be read off their front *)
Definition valid_item (e : bytes) : Prop :=
  e <> [] /\ forall rest, actualSize (e ++ rest) = Ok (lenZ e).

Lemma view_actual d lst off n : nodeView d lst off n -> actualSize d = Ok (off + n).
Proof.
  intros V. unfold actualSize. rewrite (view_null _ _ _ _ V).
  destruct (isSingleByte d) eqn:E.
  - destruct (view_single _ _ _ _ V E) as [-> ->]. done.
  - rewrite (view_data _ _ _ _ V), (view_list _ _ _ _ V), (view_length _ _ _ _ V),
      (view_offset _ _ _ _ V). by destruct lst.
Qed.

Lemma enc_data_nonempty bs : enc_data bs <> [].
Proof.
  unfold enc_data. destruct (_ && _) eqn:E.
  - bool_to_prop. intros ->. done.
  - pose proof (hdr_nonempty 0x80 0xb7 (lenZ bs)). by destruct (hdr _ _ _).
Qed.

Lemma valid_enc_data bs : bytes_ok bs -> size_ok bs -> valid_item (enc_data bs).
Proof.
  intros Hb Hs. split; [apply enc_data_nonempty |]. intros rest.
  rewrite (view_actual _ _ _ _ (view_enc_data bs rest Hb Hs)). f_equal. lia.
Qed.

Lemma valid_enc_list pl : size_ok pl -> valid_item (enc_list pl).
Proof.
  intros Hs. split.
  - unfold enc_list. pose proof (hdr_nonempty 0xc0 0xf7 (lenZ pl)). by destruct (hdr _ _ _).
  - intros rest. rewrite (view_actual _ _ _ _ (view_enc_list pl rest Hs)). f_equal. lia.
Qed.

(** Evaluate the tests on constant conversion flags. *)
Ltac eval_flags :=
  repeat match goal with
  | |- context [has ?a ?b] =>
      let v := eval vm_compute in (has a b) in
      lazymatch v with true => idtac | false => idtac end; change (has a b) with v
  end; cbn [andb orb negb mbind result_bind].

Lemma valid_size e rest : valid_item e -> sizeAsEncoded (e ++ rest) = Ok (lenZ e).
Proof.
  intros [_ H]. unfold sizeAsEncoded, RLP_. eval_flags. rewrite (H rest). eval_flags.
  rewrite lenZ_app. pose proof (lenZ_nonneg rest).
  rewrite (proj2 (Z.ltb_ge _ _)) by lia. cbn. apply H.
Qed.

Lemma valid_RLP e : valid_item e ->
  RLP_ e VeryStrict = Ok (node e) /\ RLP_ e (Z.lor ThrowOnFail FailIfTooSmall) = Ok (node e).
Proof.
  intros [_ H]. specialize (H []). rewrite app_nil_r in H.
  split; unfold RLP_; eval_flags; rewrite H; eval_flags; rewrite Z.ltb_irrefl;
    eval_flags; [| done].
  rewrite H. eval_flags. by rewrite Z.ltb_irrefl.
Qed.

Lemma valid_RLP_strict e : valid_item e -> RLP_ e VeryStrict = Ok (node e).
Proof. apply valid_RLP. Qed.

Lemma cropped2_app pre b post : cropped2 (lenZ pre) (lenZ b) (pre ++ b ++ post) = b.
Proof.
  unfold cropped2, lenZ. rewrite !length_app.
  rewrite !(proj2 (Z.leb_le _ _)) by lia. cbn [andb].
  rewrite !Nat2Z.id. rewrite drop_app_length. by rewrite take_app_length.
Qed.

Lemma cropped2_front b post : cropped2 0 (lenZ b) (b ++ post) = b.
Proof. apply (cropped2_app []). Qed.

Lemma cropped1_app pre post : cropped1 (lenZ pre) (pre ++ post) = post.
Proof.
  unfold cropped1, lenZ. rewrite length_app, (proj2 (Z.leb_le _ _)) by lia.
  rewrite Nat2Z.id. apply drop_app_length.
Qed.

(** A view that covers its whole node gives the payload. *)
Lemma view_payload h p lst :
  nodeView (h ++ p) lst (lenZ h) (lenZ p) -> payload (h ++ p) = Ok p.
Proof.
  intros V. unfold payload. rewrite (view_length _ _ _ _ V). cbn.
  pose proof (lenZ_nonneg h). rewrite lenZ_app, (proj2 (Z.ltb_ge _ _)) by lia.
  rewrite (view_offset _ _ _ _ V). rewrite <- (app_nil_r (h ++ p)), <- app_assoc.
  by rewrite cropped2_app.
Qed.

Lemma enc_data_split bs : exists h, enc_data bs = h ++ bs.
Proof. unfold enc_data. destruct (_ && _); [by exists [] | eauto]. Qed.

Lemma view_data_full bs : bytes_ok bs -> size_ok bs ->
  exists h, enc_data bs = h ++ bs /\ nodeView (h ++ bs) false (lenZ h) (lenZ bs).
Proof.
  intros Hb Hs. destruct (enc_data_split bs) as [h E]. exists h. split; [done |].
  pose proof (view_enc_data bs [] Hb Hs) as V. rewrite app_nil_r, E, lenZ_app in V.
  by rewrite Z.add_simpl_r in V.
Qed.

Lemma view_list_full pl : size_ok pl ->
  exists h, enc_list pl = h ++ pl /\ nodeView (h ++ pl) true (lenZ h) (lenZ pl).
Proof.
  intros Hs. exists (hdr 0xc0 0xf7 (lenZ pl)). split; [done |].
  pose proof (view_enc_list pl [] Hs) as V. unfold enc_list in V.
  by rewrite app_nil_r, lenZ_app, Z.add_simpl_r in V.
Qed.

Lemma payload_enc_data bs : bytes_ok bs -> size_ok bs -> payload (enc_data bs) = Ok bs.
Proof.
  intros Hb Hs. destruct (view_data_full bs Hb Hs) as (h & -> & V). by eapply view_payload.
Qed.

Lemma payload_enc_list pl : size_ok pl -> payload (enc_list pl) = Ok pl.
Proof. intros Hs. destruct (view_list_full pl Hs) as (h & -> & V). by eapply view_payload. Qed.

(** ** Conversions of encoded items *)

Lemma toBytes_enc bs flags : bytes_ok bs -> size_ok bs ->
  toBytes flags (node (enc_data bs)) = Ok bs.
Proof.
  intros Hb Hs. pose proof (payload_enc_data bs Hb Hs) as Hp.
  destruct (view_data_full bs Hb Hs) as (h & E & V). unfold toBytes. cbn [m_data node].
  rewrite Hp, E, (view_data _ _ _ _ V), (view_length _ _ _ _ V). cbn.
  rewrite Z.ltb_irrefl. unfold lenZ. by rewrite Nat2Z.id, firstn_all.
Qed.

Lemma toBytesConstRef_enc bs flags : bytes_ok bs -> size_ok bs ->
  toBytesConstRef flags (node (enc_data bs)) = Ok bs.
Proof.
  intros Hb Hs. pose proof (payload_enc_data bs Hb Hs) as Hp.
  destruct (view_data_full bs Hb Hs) as (h & E & V). unfold toBytesConstRef. cbn [m_data node].
  rewrite Hp, E, (view_data _ _ _ _ V), (view_length _ _ _ _ V). cbn.
  rewrite <- (app_nil_r bs) at 2. by rewrite cropped2_front.
Qed.

Lemma toHash_enc N bs flags : bytes_ok bs -> size_ok bs -> lenZ bs = N ->
  toHash N flags (node (enc_data bs)) = Ok bs.
Proof.
  intros Hb Hs <-. pose proof (payload_enc_data bs Hb Hs) as Hp.
  destruct (view_data_full bs Hb Hs) as (h & E & V). unfold toHash. cbn [m_data node].
  rewrite Hp, E, (view_data _ _ _ _ V), (view_good _ _ _ _ V). cbn.
  rewrite Z.ltb_irrefl, Z.min_id, Z.sub_diag. unfold lenZ. cbn.
  by rewrite Nat2Z.id, firstn_all.
Qed.

Lemma compact_size n : 0 <= n < 2 ^ 256 -> bytes_ok (toCompactBigEndian n 0) /\
  size_ok (toCompactBigEndian n 0) /\ lenZ (toCompactBigEndian n 0) <= 32.
Proof.
  intros Hn. split; [apply toBigEndian_bytes |]. unfold size_ok.
  rewrite compact_length by lia. unfold SIZE_MAX.
  assert (bytesRequired n <= 32); [| lia].
  apply bytesRequired_le; [| lia]. change (256 ^ 32) with (2 ^ 256). lia.
Qed.

Lemma isInt_enc n : 0 <= n < 2 ^ 256 -> isInt (enc_int n) = Ok true.
Proof.
  intros Hn. destruct (compact_size n Hn) as (Hb & Hs & Hl).
  unfold enc_int. pose proof (view_enc_data _ [] Hb Hs) as V. rewrite app_nil_r in V.
  unfold isInt. rewrite (view_null _ _ _ _ V), (view_good _ _ _ _ V). cbn.
  destruct (decide (n = 0)) as [->|Hn0]; [done |].
  destruct (compact_head n) as (b & t & E & Hb0); [lia |].
  rewrite E in *. pose proof (lenZ_nonneg t). apply Forall_cons in Hb as [Hb _].
  unfold is_byte in Hb. rewrite lenZ_cons in Hl. unfold enc_data.
  destruct (_ && _) eqn:E1.
  - rewrite readAt_first by apply isNull_cons. cbn [mbind result_bind].
    change (byteAt (b :: t) 0) with b in *. bool_to_prop.
    unfold c_rlpDataImmLenStart. decide_first. done.
  - rewrite hdr_short by (rewrite lenZ_cons; lia). cbn [app].
    rewrite !readAt_in by (rewrite !lenZ_cons; lia). cbn [mbind result_bind].
    change (byteAt (?x :: _) 0) with x. change (byteAt (_ :: ?x :: _) 1) with x.
    rewrite !lenZ_cons.
    unfold_consts. by decide_first.
Qed.

Lemma toInt_enc t n flags :
  0 <= n < 2 ^ 256 -> lenZ (toCompactBigEndian n 0) <= maxSize t ->
  (forall x, 0 <= x <= n -> conv_to t x = x) ->
  toInt t flags (node (enc_int n)) = Ok n.
Proof.
  intros Hn Hm Hc. destruct (compact_size n Hn) as (Hb & Hs & Hl).
  pose proof (payload_enc_data _ Hb Hs) as Hp.
  pose proof (view_enc_data _ [] Hb Hs) as V. rewrite app_nil_r in V.
  unfold toInt. cbn [m_data node]. rewrite isInt_enc by done. unfold enc_int.
  rewrite (view_good _ _ _ _ V), (view_list _ _ _ _ V), (view_null _ _ _ _ V), Hp. cbn.
  rewrite (proj2 (Z.ltb_ge _ _)) by done. cbn. f_equal.
  rewrite fromBigEndian_exact, compact_val; [done | lia | done |].
  intros x. rewrite compact_val by lia. apply Hc.
Qed.

(** ** The writer against the reference encoding *)

Lemma appendRaw_push a b n s : appendRaw b n (push a s) = appendRaw (a ++ b) n s.
Proof. unfold appendRaw, push. cbn. by rewrite app_assoc. Qed.

Lemma append_data_ref bs s : lenZ bs < 2 ^ 64 ->
  append_data bs false s = appendRaw (enc_data bs) 1 s.
Proof.
  intros Hs. pose proof (lenZ_nonneg bs). unfold append_data, enc_data.
  unfold c_rlpDataImmLenStart at 1. destruct (_ && _) eqn:E.
  - bool_to_prop. destruct (lenZ_1_inv bs) as [b ->]; done.
  - unfold hdr. unfold_consts. change (192 - 128 - 8) with 56.
    destruct (Z.ltb_spec (lenZ bs) 56); cbn [mbind result_bind].
    + unfold appendRaw, noteAppended, push. cbn. rewrite <- app_assoc.
      by rewrite (Z.add_comm (lenZ bs)).
    + pose proof (bytesRequired_size (lenZ bs) ltac:(lia)). unfold pushCount.
      rewrite (proj2 (Z.ltb_ge _ _)) by lia. cbn [mbind result_bind].
      unfold appendRaw, noteAppended, pushInt, push. cbn. rewrite <- !app_assoc. cbn.
      by rewrite (Z.add_comm (bytesRequired _)).
Qed.

Lemma append_bigint_ref n s : 0 <= n < 2 ^ 256 ->
  append_bigint n s = appendRaw (enc_int n) 1 s.
Proof.
  intros Hn. destruct (compact_size n Hn) as (Hb & _ & Hl).
  unfold append_bigint, enc_int, enc_data.
  destruct (Z.eqb_spec n 0) as [->|]; [done |].
  destruct (compact_head n) as (b & t & E & Hb0); [lia |].
  pose proof (compact_val n ltac:(lia)) as HV. pose proof (compact_length n ltac:(lia)) as HL.
  destruct (bytesRequired_spec n) as [Hbr1 Hbr2]; [lia |].
  unfold c_rlpDataImmLenStart at 1. destruct (Z.ltb_spec n 128).
  - assert (bytesRequired n = 1) as Hbr.
    { assert (bytesRequired n <= 1); [| lia]. apply bytesRequired_le; lia. }
    rewrite Hbr in HL. destruct (lenZ_1_inv _ HL) as [c Hc]. rewrite Hc in *.
    unfold be_val in HV. cbn [foldl] in HV. rewrite Z.mul_0_l, Z.add_0_l in HV. subst c.
    change (byteAt [n] 0) with n. rewrite (proj2 (Z.ltb_lt n 128)) by done.
    rewrite wrap_small by lia. done.
  - destruct (_ && _) eqn:E1.
    { bool_to_prop. destruct (lenZ_1_inv _ H0) as [c Hc]. rewrite Hc in *.
      unfold be_val in HV. cbn [foldl] in HV. change (byteAt [c] 0) with c in *. lia. }
    rewrite HL in *. unfold hdr. unfold_consts. change (192 - 128 - 8) with 56.
    rewrite (proj2 (Z.ltb_lt _ 56)) by lia. cbn [mbind result_bind].
    unfold appendRaw, pushInt, push. cbn [m_out m_listStack].
    rewrite compact_eq by lia. rewrite <- app_assoc. by rewrite (Z.add_comm (bytesRequired n)).
Qed.

Lemma closeList_ref pre body : lenZ body < 2 ^ 64 ->
  closeList (lenZ pre) (pre ++ body) = Ok (pre ++ enc_list body).
Proof.
  intros Hs. pose proof (lenZ_nonneg body). unfold closeList.
  rewrite lenZ_app, Z.add_simpl_l.
  assert (take (Z.to_nat (lenZ pre)) (pre ++ body) = pre) as ->.
  { unfold lenZ. rewrite Nat2Z.id. apply take_app_length. }
  assert (drop (Z.to_nat (lenZ pre)) (pre ++ body) = body) as ->.
  { unfold lenZ. rewrite Nat2Z.id. apply drop_app_length. }
  unfold enc_list, hdr. unfold_consts. change (256 - 192 - 8) with 56.
  destruct (Z.ltb_spec (lenZ body) 56); [done |].
  pose proof (bytesRequired_size (lenZ body) ltac:(lia)).
  rewrite (proj2 (Z.leb_le _ _)) by lia. done.
Qed.

Lemma appendList_0 s : appendList 0 s = appendRaw (enc_list []) 1 s.
Proof.
  unfold appendList, appendList_rlp. cbn [Z.eqb negb].
  change (lenZ [] <? c_rlpListImmLenCount) with true. cbn [mbind result_bind].
  by rewrite appendRaw_push.
Qed.

(** Appending one raw item while the innermost list expects [k + 1] more. *)
Lemma appendRaw_open e o p k rest : 0 < k ->
  appendRaw e 1 {| m_out := o; m_listStack := (k + 1, p) :: rest |} =
  Ok {| m_out := o ++ e; m_listStack := (k, p) :: rest |}.
Proof.
  intros Hk. unfold appendRaw, noteAppended, push. cbn [m_out m_listStack Z.eqb].
  cbn [noteAppended_loop]. decide_first. rewrite Z.add_simpl_r. by decide_first.
Qed.

(** Appending the last item of the innermost list closes it, and counts as one
    item of the enclosing list. *)
Lemma appendRaw_last e pre body rest : lenZ (body ++ e) < 2 ^ 64 ->
  appendRaw e 1 {| m_out := pre ++ body; m_listStack := (1, lenZ pre) :: rest |} =
  appendRaw (enc_list (body ++ e)) 1 {| m_out := pre; m_listStack := rest |}.
Proof.
  intros Hs. unfold appendRaw, noteAppended, push. cbn [m_out m_listStack Z.eqb].
  cbn [noteAppended_loop Z.ltb Z.compare Pos.compare Pos.compare_cont Z.sub Z.eqb negb].
  change (1 - 1 =? 0) with true. cbn [negb].
  rewrite <- app_assoc, closeList_ref by done. done.
Qed.

(** Streaming [es] into an open list that expects exactly them. *)
Lemma fold_open {A} (f : A -> RLPStream -> result RLPStream) es encs :
  forall pre body rest,
  es <> [] ->
  Forall2 (fun x e => forall s, f x s = appendRaw e 1 s) es encs ->
  lenZ (body ++ concat encs) < 2 ^ 64 ->
  foldM_stream f es {| m_out := pre ++ body; m_listStack := (lenZ es, lenZ pre) :: rest |} =
  appendRaw (enc_list (body ++ concat encs)) 1 {| m_out := pre; m_listStack := rest |}.
Proof.
  revert encs. induction es as [|x es IH]; intros encs pre body rest Hne Hf Hs; [done |].
  inversion Hf as [|? e ? encs' Hx Hf' E1 E2]; subst. cbn [foldM_stream concat] in *.
  rewrite Hx. rewrite lenZ_cons. destruct es as [|y es'].
  - inversion Hf'; subst. cbn [foldM_stream concat] in *. rewrite app_nil_r in *.
    change (1 + lenZ []) with 1. rewrite appendRaw_last by done.
    by destruct (appendRaw (enc_list (body ++ e)) 1 _).
  - rewrite (Z.add_comm 1), appendRaw_open by (rewrite lenZ_cons; pose proof (lenZ_nonneg es'); lia).
    cbn [mbind result_bind]. rewrite <- app_assoc.
    rewrite (IH encs') by (done || by rewrite <- app_assoc). by rewrite <- app_assoc.
Qed.

(** [appendVector] and any list streamed between [appendList] and its items. *)
Lemma appendVector_ref2 {A} (f : A -> RLPStream -> result RLPStream) es encs s :
  Forall2 (fun x e => forall s, f x s = appendRaw e 1 s) es encs ->
  lenZ (concat encs) < 2 ^ 64 ->
  appendVector f es s = appendRaw (enc_list (concat encs)) 1 s.
Proof.
  intros Hf Hs. unfold appendVector. destruct es as [|x es].
  - inversion Hf; subst. rewrite lenZ_nil, appendList_0. cbn [foldM_stream concat].
    by destruct (appendRaw (enc_list []) 1 s).
  - unfold appendList. rewrite (proj2 (Z.eqb_neq _ _)).
    2:{ rewrite lenZ_cons. pose proof (lenZ_nonneg es). lia. }
    cbn [negb mbind result_bind]. destruct s as [o st]. cbn [m_out m_listStack].
    rewrite <- (app_nil_r o) at 1. by rewrite (fold_open f _ encs).
Qed.

Lemma appendVector_ref {A} (f : A -> RLPStream -> result RLPStream) (enc : A -> bytes) es s :
  Forall (fun x => forall s, f x s = appendRaw (enc x) 1 s) es ->
  lenZ (concat (map enc es)) < 2 ^ 64 ->
  appendVector f es s = appendRaw (enc_list (concat (map enc es))) 1 s.
Proof.
  intros Hf. apply appendVector_ref2. apply Forall2_fmap_r. by apply Forall_Forall2_diag.
Qed.

(** Streaming into a stream with no open list concatenates the encodings. *)
Lemma fold_flat {A} (f : A -> RLPStream -> result RLPStream) es encs o :
  Forall2 (fun x e => forall s, f x s = appendRaw e 1 s) es encs ->
  foldM_stream f es {| m_out := o; m_listStack := [] |} =
  Ok {| m_out := o ++ concat encs; m_listStack := [] |}.
Proof.
  intros H. revert o. induction H as [|x e es encs Hx Hf IH]; intros o;
    cbn [foldM_stream concat]; [by rewrite app_nil_r |].
  rewrite Hx. unfold appendRaw, noteAppended, push. cbn [m_out m_listStack Z.eqb].
  cbn [noteAppended_loop mbind result_bind]. by rewrite IH, <- app_assoc.
Qed.

Lemma size_ok_64 bs : size_ok bs -> lenZ bs < 2 ^ 64.
Proof. unfold size_ok, SIZE_MAX. lia. Qed.

Lemma stream_item_ref it : item_ok it -> forall s, stream_item it s = appendRaw (encode_item it) 1 s.
Proof.
  induction it as [bs|its IH] using item_ind'; intros Hok s; cbn [stream_item encode_item].
  - destruct Hok. by apply append_data_ref, size_ok_64.
  - destruct Hok as [Hs Hits]. apply item_ok_forall in Hits.
    change (appendVector stream_item its s = appendRaw (enc_list (concat (map encode_item its))) 1 s).
    apply appendVector_ref; [| by apply size_ok_64].
    rewrite Forall_forall in *. intros x Hx. apply IH; auto.
Qed.

(** ** Reading a list back *)

Lemma iter_items_ref es fuel :
  Forall valid_item es -> (length (concat es) <= fuel)%nat ->
  iter_items fuel (concat es) = Ok (map node es).
Proof.
  revert fuel. induction es as [|e es IH]; intros fuel Hv Hf.
  - by destruct fuel.
  - apply Forall_cons in Hv as [He Hv]. cbn [concat] in *. pose proof He as [Hne _].
    rewrite length_app in Hf. destruct fuel as [|fuel]; [destruct e; [done | simpl in Hf; lia] |].
    cbn [iter_items]. rewrite lenZ_app. rewrite (proj2 (Z.eqb_neq _ _)).
    2:{ pose proof (lenZ_nonneg (concat es)). destruct e; [done |].
        rewrite lenZ_cons. pose proof (lenZ_nonneg e). lia. }
    rewrite valid_size by done. cbn [mbind result_bind].
    rewrite cropped2_front, cropped1_app, valid_RLP_strict by done. cbn [mbind result_bind].
    rewrite IH; [done | done |]. destruct e; [done |]. simpl in Hf. lia.
Qed.

Lemma toList_ref es flags :
  Forall valid_item es -> size_ok (concat es) ->
  toList flags (node (enc_list (concat es))) = Ok (map node es).
Proof.
  intros Hv Hs. unfold toList. cbn [m_data node].
  pose proof (view_enc_list _ [] Hs) as V. rewrite app_nil_r in V.
  rewrite (view_list _ _ _ _ V), payload_enc_list by done. cbn [negb mbind result_bind].
  by apply iter_items_ref.
Qed.

Lemma mapM_result_map {A B C} (g : A -> B) (f : B -> result C) (h : A -> C) l :
  Forall (fun x => f (g x) = Ok (h x)) l -> mapM_result f (map g l) = Ok (map h l).
Proof. induction 1 as [|x l Hx Hl IH]; [done |]. cbn. by rewrite Hx, IH. Qed.

Lemma toVector_ref {A} (conv : Z -> RLP -> result A) (enc : A -> bytes) flags l :
  Forall (fun x => valid_item (enc x)) l ->
  size_ok (concat (map enc l)) ->
  Forall (fun x => conv flags (node (enc x)) = Ok x) l ->
  toVector conv flags (node (enc_list (concat (map enc l)))) = Ok l.
Proof.
  intros Hv Hs Hc. unfold toVector. cbn [m_data node].
  pose proof (view_enc_list _ [] Hs) as V. rewrite app_nil_r in V.
  rewrite (view_list _ _ _ _ V), toList_ref; [| | done].
  2:{ rewrite Forall_map. exact Hv. }
  cbn [mbind result_bind]. rewrite map_map, (mapM_result_map _ _ id) by done.
  by rewrite map_id.
Qed.

(** Parsing a tree: lists item by item, anything else as a byte string. *)
Fixpoint parse_item (fuel : nat) (r : RLP) : result item :=
  match fuel with
  | O => Throw UndefinedBehaviour
  | S f =>
      if isList (m_data r) then
        its ← toList Strict r; l ← mapM_result (parse_item f) its; Ok (List l)
      else bs ← toBytes Strict r; Ok (Data bs)
  end.

Fixpoint depth (it : item) : nat :=
  match it with
  | Data _ => 1
  | List its => S (fold_right (fun x n => Nat.max (depth x) n) 0%nat its)
  end.

Lemma depth_in x its : x ∈ its -> (depth x <= fold_right (fun x n => Nat.max (depth x) n) 0%nat its)%nat.
Proof. induction 1; simpl; lia. Qed.

Lemma encode_item_valid it : item_ok it -> valid_item (encode_item it).
Proof.
  destruct it; intros [? ?]; [by apply valid_enc_data | by apply valid_enc_list].
Qed.

Lemma parse_encode it fuel : item_ok it -> (depth it <= fuel)%nat ->
  parse_item fuel (node (encode_item it)) = Ok it.
Proof.
  revert fuel. induction it as [bs|its IH] using item_ind'; intros fuel Hok Hd;
    (destruct fuel as [|fuel]; [simpl in Hd; lia |]); cbn [parse_item encode_item m_data node].
  - destruct Hok as [Hb Hs]. pose proof (view_enc_data bs [] Hb Hs) as V. rewrite app_nil_r in V.
    rewrite (view_list _ _ _ _ V). change (mk_RLP ?d _ _ _) with (node d).
    by rewrite toBytes_enc.
  - destruct Hok as [Hs Hits]. apply item_ok_forall in Hits.
    pose proof (view_enc_list _ [] Hs) as V. rewrite app_nil_r in V.
    rewrite (view_list _ _ _ _ V). change (mk_RLP ?d _ _ _) with (node d).
    rewrite toList_ref; [| | done].
    2:{ rewrite Forall_map. eapply Forall_impl; [exact Hits |]. apply encode_item_valid. }
    cbn [mbind result_bind]. rewrite map_map, (mapM_result_map _ _ id).
    { by rewrite map_id. }
    rewrite Forall_forall in *. intros x Hx. apply IH; auto.
    pose proof (depth_in x its Hx). cbn [depth] in Hd. unfold id. lia.
Qed.

(** ** The indexing cache *)

(** The cache of [r] stands at item [k] of the items [es] of its payload. *)
Definition cache_at (es : list bytes) (k : nat) (r : RLP) : Prop :=
  m_lastIndex r = Z.of_nat k /\ es !! k = Some (m_lastItem r) /\
  m_lastEnd r = lenZ (concat (take (S k) es)).

(** Either a fresh cache, or one left by an earlier access. *)
Definition cache_ok (es : list bytes) (r : RLP) : Prop :=
  payload (m_data r) = Ok (concat es) /\
  (m_lastIndex r = SIZE_MAX \/ exists k, cache_at es k r).

Lemma index_loop_ref es n : forall k r,
  Forall valid_item es -> cache_at es k r -> (k + n < length es)%nat ->
  exists r', index_loop n (concat es) r = Ok r' /\ cache_at es (k + n) r' /\ m_data r' = m_data r.
Proof.
  induction n as [|n IH]; intros k r Hv Hc Hn.
  - exists r. by rewrite Nat.add_0_r.
  - destruct Hc as (Hi & He & Hend). cbn [index_loop].
    pose proof (Forall_lookup_1 _ _ _ _ Hv He) as [Hne _].
    rewrite (proj2 (Z.eqb_neq _ _)).
    2:{ destruct (m_lastItem r) as [|b0 b]; [done |]. rewrite lenZ_cons. pose proof (lenZ_nonneg b). lia. }
    destruct (lookup_lt_is_Some_2 es (S k)) as [e He']; [lia |].
    pose proof (Forall_lookup_1 _ _ _ _ Hv He') as Hve.
    assert (concat es = concat (take (S k) es) ++ e ++ concat (drop (S (S k)) es)) as Hsplit.
    { rewrite <- (take_drop_middle es (S k) e He') at 1. by rewrite concat_app. }
    rewrite Hend, Hsplit, cropped1_app, valid_size by done. cbn [mbind result_bind].
    rewrite cropped2_front, <- Hsplit.
    destruct (IH (S k) (mk_RLP (m_data r) (m_lastIndex r + 1)
                (lenZ (concat (take (S k) es)) + lenZ e) e)) as (r' & Hl & Hc' & Hd);
      [done | | lia |].
    + split_and!; cbn [m_lastIndex m_lastItem m_lastEnd]; [| exact He' |].
      * rewrite Hi. lia.
      * rewrite (take_S_r _ _ _ He'), concat_app, lenZ_app. cbn [concat]. by rewrite app_nil_r.
    + exists r'. split; [exact Hl |]. split; [by replace (k + S n)%nat with (S k + n)%nat by lia |].
      done.
Qed.

(** One access: whatever the cache, the item asked for, and a good cache. *)
Lemma index_ref es r i e :
  Forall valid_item es -> cache_ok es r -> es !! i = Some e -> Z.of_nat (length es) < SIZE_MAX ->
  exists r', index (Z.of_nat i) r = Ok (node e, r') /\ cache_ok es r' /\ m_data r' = m_data r.
Proof.
  intros Hv [Hp Hc] He Hlen. pose proof (lookup_lt_Some _ _ _ He) as Hi.
  assert (exists r1 k, (if Z.of_nat i <? m_lastIndex r then
            n ← sizeAsEncoded (concat es);
            Ok {| m_data := m_data r; m_lastIndex := 0; m_lastEnd := n;
                  m_lastItem := cropped2 0 n (concat es) |}
          else Ok r) = Ok r1 /\ cache_at es k r1 /\ (k <= i)%nat /\ m_data r1 = m_data r)
    as (r1 & k & H1 & Hat & Hk & Hd1).
  { destruct (Z.ltb_spec (Z.of_nat i) (m_lastIndex r)).
    - destruct es as [|e0 es0]; [simpl in Hi; lia |].
      apply Forall_cons in Hv as [Hv0 _]. cbn [concat]. rewrite valid_size by done.
      cbn [mbind result_bind]. rewrite cropped2_front. eexists _, 0%nat. split; [done |].
      split; [| split; [lia | done]]. split_and!; cbn; [done | done |]. by rewrite app_nil_r.
    - destruct Hc as [Hc|[k Hk]]; [lia |]. exists r, k. destruct Hk as (Hk & ? & ?).
      split; [done |]. split; [done |]. split; [lia | done]. }
  destruct (index_loop_ref es (i - k) k r1 Hv Hat) as (r2 & H2 & Hat2 & Hd2); [lia |].
  replace (k + (i - k))%nat with i in Hat2 by lia.
  exists r2. split; [| split; [split; [by rewrite Hd2, Hd1 | eauto] | congruence]].
  unfold index. rewrite Hp. cbn [mbind result_bind]. rewrite H1. cbn [mbind result_bind].
  destruct Hat as (-> & _). replace (Z.to_nat (Z.of_nat i - Z.of_nat k)) with (i - k)%nat by lia.
  rewrite H2. cbn [mbind result_bind]. destruct Hat2 as (_ & Hit & _).
  rewrite He in Hit. injection Hit as <-.
  by rewrite (proj2 (valid_RLP e (Forall_lookup_1 _ _ _ _ Hv He))).
Qed.

(** A sequence of accesses on one node, the cache threaded through. *)
Fixpoint index_seq (ixs : list nat) (r : RLP) : result (list RLP) :=
  match ixs with
  | [] => Ok []
  | i :: ixs' => '(e, r') ← index (Z.of_nat i) r; l ← index_seq ixs' r'; Ok (e :: l)
  end.

Lemma index_seq_ref es ixs r :
  Forall valid_item es -> Z.of_nat (length es) < SIZE_MAX -> cache_ok es r ->
  Forall (fun i => (i < length es)%nat) ixs ->
  index_seq ixs r = Ok (map (fun i => node (nth i es [])) ixs).
Proof.
  intros Hv Hl Hc Hi. revert r Hc. induction Hi as [|i ixs Hi His IH]; intros r Hc; [done |].
  destruct (lookup_lt_is_Some_2 es i Hi) as [e He].
  destruct (index_ref es r i e Hv Hc He Hl) as (r' & E & Hc' & _).
  cbn [index_seq map]. rewrite E. cbn [mbind result_bind]. rewrite (IH r' Hc').
  by rewrite (nth_lookup_Some _ _ _ _ He).
Qed.

(** ** Reading the fields of a record in turn *)

(** [rlp[i]] converted by [conv]; the node is threaded for its cache. *)
Definition field {A} (i : nat) (conv : RLP -> result A) (r : RLP) : result (A * RLP) :=
  '(e, r') ← index (Z.of_nat i) r; a ← conv e; Ok (a, r').

Lemma field_ref {A} es r i (conv : RLP -> result A) e a :
  Forall valid_item es -> Z.of_nat (length es) < SIZE_MAX -> cache_ok es r ->
  es !! i = Some e -> conv (node e) = Ok a ->
  exists r', field i conv r = Ok (a, r') /\ cache_ok es r'.
Proof.
  intros Hv Hl Hc He Ha. destruct (index_ref es r i e Hv Hc He Hl) as (r' & E & Hc' & _).
  exists r'. unfold field. rewrite E. cbn [mbind result_bind]. by rewrite Ha.
Qed.

Lemma cache_fresh d es : payload d = Ok (concat es) -> cache_ok es (node d).
Proof. intros H. split; [done |]. by left. Qed.

(** Step through the next [field] of the goal; [Hc] is the state of the cache. *)
Ltac read_field Hv Hc tac :=
  match goal with
  | |- context [field ?i ?conv ?r] =>
      let r' := fresh "r" in let E := fresh "E" in let Hc' := fresh "Hc" in
      edestruct (field_ref _ r i conv _ _ Hv ltac:(done) Hc ltac:(reflexivity) ltac:(tac))
        as (r' & E & Hc'); rewrite E; clear E Hc; rename Hc' into Hc;
      cbn [mbind result_bind]
  end.

(** ** Nodes built from arbitrary bytes *)

Lemma RLP_strict_inv d r : RLP_ d VeryStrict = Ok r ->
  r = node d /\ actualSize d = Ok (lenZ d).
Proof.
  unfold RLP_. eval_flags. destruct (actualSize d) as [a|e] eqn:Ha; [| done].
  cbn [mbind result_bind]. destruct (Z.ltb_spec a (lenZ d)); [done |]. cbn [mbind result_bind].
  rewrite Ha. cbn [mbind result_bind]. destruct (Z.ltb_spec (lenZ d) a); [done |].
  cbn [mbind result_bind]. intros [= <-]. split; [done |]. f_equal. lia.
Qed.

Lemma lengthSize_nonneg d : 0 <= lengthSize d.
Proof.
  unfold lengthSize. unfold_consts.
  repeat case_step; bool_to_prop; lia.
Qed.

Lemma payloadOffset_nonneg d : 0 <= payloadOffset d.
Proof. unfold payloadOffset. pose proof (lengthSize_nonneg d). case_step; lia. Qed.

Lemma rlpLength_single d l : isSingleByte d = true -> rlpLength d = Ok l -> l = 1.
Proof.
  rewrite rlpLength_at. unfold isSingleByte. intros H. bool_to_prop. rewrite H.
  destruct (requireGood d); [| done]. cbn [mbind result_bind].
  rewrite (proj2 (Z.ltb_lt _ _)) by done. congruence.
Qed.

Lemma cropped2_len b c l : 0 <= b -> 0 <= c -> b + c <= lenZ l -> lenZ (cropped2 b c l) = c.
Proof.
  intros Hb Hc Hl. unfold cropped2. rewrite !(proj2 (Z.leb_le _ _)) by lia. cbn [andb].
  unfold lenZ in *. rewrite length_take, length_drop. lia.
Qed.

(** A string node that fills its bytes exactly has a full payload. *)
Lemma exact_payload d l :
  isData d = true -> actualSize d = Ok (lenZ d) -> rlpLength d = Ok l ->
  payloadOffset d + l = lenZ d.
Proof.
  intros Hd Ha Hl. unfold actualSize in Ha. unfold isData in Hd. bool_to_prop.
  rewrite H in Ha. destruct (isSingleByte d) eqn:E.
  - rewrite (rlpLength_single d l E Hl). injection Ha as <-. unfold payloadOffset. by rewrite E.
  - unfold isData in Ha. rewrite H, (proj2 (Z.ltb_lt _ _)), Hl in Ha by done.
    cbn in Ha. congruence.
Qed.

(** *** No reader goes past the end of its view *)
Definition no_bad_read {A} (r : result A) : Prop := r <> Throw UndefinedBehaviour.

Lemma no_bad_bind {A B} (m : result A) (f : A -> result B) :
  no_bad_read m -> (forall a, m = Ok a -> no_bad_read (f a)) -> no_bad_read (m ≫= f).
Proof. unfold no_bad_read. destruct m as [a|e]; cbn; [eauto | congruence]. Qed.

Lemma requireGood_reads d : no_bad_read (requireGood d).
Proof. rewrite requireGood_at. repeat case_step; discriminate. Qed.

Lemma longLength_reads d n zero limit : zero < n -> no_bad_read (longLength d n zero limit).
Proof. intros Hn. rewrite longLength_at by done. cbv zeta. repeat case_step; discriminate. Qed.

Lemma rlpLength_reads d : no_bad_read (rlpLength d).
Proof.
  rewrite rlpLength_at. case_step; [discriminate |]. apply no_bad_bind; [apply requireGood_reads |].
  intros _ _. cbv zeta. repeat case_step; bool_to_prop; try discriminate; by apply longLength_reads.
Qed.

Lemma isInt_reads d : no_bad_read (isInt d).
Proof.
  unfold isInt. destruct (isNull d) eqn:En; [discriminate |].
  apply no_bad_bind; [apply requireGood_reads |]. intros _ _. rewrite readAt_first by done.
  cbn [mbind result_bind].
  repeat case_step; bool_to_prop; try discriminate; rewrite readAt_in by lia; discriminate.
Qed.

Lemma actualSize_reads d : no_bad_read (actualSize d).
Proof.
  unfold actualSize. repeat case_step; try discriminate.
  apply no_bad_bind; [apply rlpLength_reads | discriminate].
Qed.

Lemma payload_reads d : no_bad_read (payload d).
Proof. unfold payload. apply no_bad_bind; [apply rlpLength_reads | intros; case_step; discriminate]. Qed.

Lemma RLP_reads d s : no_bad_read (RLP_ d s).
Proof.
  unfold RLP_. repeat first [apply no_bad_bind; intros | apply actualSize_reads | case_step | discriminate].
Qed.

Lemma sizeAsEncoded_reads d : no_bad_read (sizeAsEncoded d).
Proof. apply no_bad_bind; [apply RLP_reads | intros; apply actualSize_reads]. Qed.

Lemma index_loop_reads n : forall pl r, no_bad_read (index_loop n pl r).
Proof.
  induction n as [|n IH]; intros pl r; cbn [index_loop]; [discriminate |]. case_step; [discriminate |].
  apply no_bad_bind; [apply sizeAsEncoded_reads | intros; apply IH].
Qed.

Lemma index_reads i r : no_bad_read (index i r).
Proof.
  unfold index. apply no_bad_bind; [apply payload_reads |]. intros pl _. apply no_bad_bind.
  - case_step; [apply no_bad_bind; [apply sizeAsEncoded_reads |] |]; discriminate.
  - intros r1 _. apply no_bad_bind; [apply index_loop_reads |]. intros r2 _.
    apply no_bad_bind; [apply RLP_reads | discriminate].
Qed.

Lemma iter_items_reads n : forall pl, no_bad_read (iter_items n pl).
Proof.
  induction n as [|n IH]; intros pl; cbn [iter_items]; [discriminate |]. case_step; [discriminate |].
  apply no_bad_bind; [apply sizeAsEncoded_reads |]. intros k _. apply no_bad_bind; [apply RLP_reads |].
  intros it _. apply no_bad_bind; [apply IH | discriminate].
Qed.

Lemma toList_reads flags r : no_bad_read (toList flags r).
Proof.
  unfold toList. repeat case_step; try discriminate.
  apply no_bad_bind; [apply payload_reads | intros; apply iter_items_reads].
Qed.

Lemma toInt_reads t flags r : no_bad_read (toInt t flags r).
Proof.
  unfold toInt. apply no_bad_bind; [apply requireGood_reads |]. intros _ _.
  apply no_bad_bind; [apply isInt_reads |]. intros ii _.
  repeat case_step; try discriminate; (apply no_bad_bind; [apply payload_reads |]);
    intros; repeat case_step; discriminate.
Qed.

Lemma toHash_reads N flags r : no_bad_read (toHash N flags r).
Proof.
  unfold toHash. apply no_bad_bind; [apply requireGood_reads |]. intros _ _.
  apply no_bad_bind; [apply payload_reads |]. intros. repeat case_step; discriminate.
Qed.

Lemma toBytesConstRef_reads flags r : no_bad_read (toBytesConstRef flags r).
Proof.
  unfold toBytesConstRef. repeat case_step; try discriminate.
  apply no_bad_bind; [apply payload_reads |]. intros p _.
  apply no_bad_bind; [apply rlpLength_reads | discriminate].
Qed.

(** [toBytes] copies [length] bytes from the front of the payload. *)
Lemma toBytes_reads d flags : actualSize d = Ok (lenZ d) -> no_bad_read (toBytes flags (node d)).
Proof.
  intros Ha. unfold toBytes. cbn [m_data node].
  destruct (isData d) eqn:Hd; cbn [negb]; [| case_step; discriminate].
  destruct (rlpLength d) as [l|e] eqn:Hl.
  - unfold payload. rewrite Hl. cbn [mbind result_bind]. case_step; [discriminate |].
    cbn [mbind result_bind]. pose proof (exact_payload d l Hd Ha Hl). pose proof (payloadOffset_nonneg d).
    destruct (Z_le_dec 0 l).
    + rewrite cropped2_len, Z.ltb_irrefl by lia. discriminate.
    + rewrite (proj2 (Z.ltb_ge _ _)); [discriminate |].
      pose proof (lenZ_nonneg (cropped2 (payloadOffset d) l d)). lia.
  - apply no_bad_bind; [apply payload_reads |]. intros p _. pose proof (rlpLength_reads d) as Hr.
    rewrite Hl in Hr. cbn. unfold no_bad_read in *. congruence.
Qed.

(** ** Properties *)

(** The stack machine of [RLPStream] ([append], [appendList],
    [noteAppended] with its deferred, in-place list headers) produces, for
    every tree of byte strings, exactly the reference RLP encoding. *)
Theorem rlp_writer_reference it :
  item_ok it -> (s ← stream_item it emptyStream; out s) = Ok (encode_item it).
Proof.
  intros H. rewrite (stream_item_ref it H). unfold appendRaw, noteAppended. by cbn.
Qed.

(** C31: reading back what the writer produced gives the same tree: the bytes
    that the stack machine of [RLPStream] leaves for a tree of lists and byte
    strings are accepted by the strict reader and its parse is the tree, for
    every tree whose nodes are within the size limit. *)
Theorem rlp_read_back it :
  item_ok it ->
  exists bs r, (s ← stream_item it emptyStream; out s) = Ok bs /\
    RLP_ bs VeryStrict = Ok r /\ parse_item (depth it) r = Ok it.
Proof.
  intros H. exists (encode_item it), (node (encode_item it)). split_and!.
  - rewrite (stream_item_ref it H). unfold appendRaw, noteAppended. by cbn.
  - by apply valid_RLP_strict, encode_item_valid.
  - by apply parse_encode.
Qed.

(** The indexing cache of [operator[]] is transparent: any sequence of
    in-range accesses, in any order and with repetitions, returns the items a
    cache-free scan of the list gives. *)
Theorem rlp_index_any_order its ixs :
  item_ok (List its) -> Z.of_nat (length its) < SIZE_MAX ->
  Forall (fun i => (i < length its)%nat) ixs ->
  index_seq ixs (node (encode_item (List its))) =
  Ok (map (fun i => node (nth i (map encode_item its) [])) ixs).
Proof.
  intros [Hs Hits] Hl Hi. apply item_ok_forall in Hits.
  apply (index_seq_ref (map encode_item its)).
  - rewrite Forall_map. eapply Forall_impl; [exact Hits |]. apply encode_item_valid.
  - by rewrite length_map.
  - apply cache_fresh. by apply payload_enc_list.
  - by rewrite length_map.
Qed.

(** C32: no bytes received make the reader go past the end of its view: not the
    strict constructor, and, on a node it accepted, neither [operator[]], [toList]
    and the conversions to integers, hashes and byte strings, nor their reads of
    the header bytes. *)
Theorem rlp_strict_no_bad_read d :
  no_bad_read (RLP_ d VeryStrict) /\
  forall r, RLP_ d VeryStrict = Ok r -> forall flags i t n,
    no_bad_read (toBytes flags r) /\ no_bad_read (toBytesConstRef flags r) /\
    no_bad_read (toInt t flags r) /\ no_bad_read (toHash n flags r) /\
    no_bad_read (index i r) /\ no_bad_read (toList flags r).
Proof.
  split; [apply RLP_reads |]. intros r H flags i t n. destruct (RLP_strict_inv d r H) as [-> Ha].
  split_and!; [by apply toBytes_reads | apply toBytesConstRef_reads | apply toInt_reads |
    apply toHash_reads | apply index_reads | apply toList_reads].
Qed.

Definition sample_item : item := List [Data [1]; List [Data [200; 3]; Data []]; Data (replicate 60 7)].

Lemma sample_item_ok : item_ok sample_item.
Proof.
  vm_compute. intuition (try congruence). all: repeat constructor; intros; discriminate.
Qed.

Lemma rlp_writer_reference_witness :
  (s ← stream_item sample_item emptyStream; out s) = Ok (encode_item sample_item).
Proof. apply (rlp_writer_reference sample_item). apply sample_item_ok. Defined.

Lemma rlp_read_back_witness :
  exists bs r, (s ← stream_item sample_item emptyStream; out s) = Ok bs /\
    RLP_ bs VeryStrict = Ok r /\ parse_item (depth sample_item) r = Ok sample_item.
Proof. apply (rlp_read_back sample_item). apply sample_item_ok. Defined.

Lemma rlp_index_any_order_witness :
  index_seq [2; 0; 2; 1]%nat (node (encode_item sample_item)) =
  Ok (map (fun i => node (nth i
    (map encode_item [Data [1]; List [Data [200; 3]; Data []]; Data (replicate 60 7)]) []))
    [2; 0; 2; 1]%nat).
Proof.
  apply (rlp_index_any_order [Data [1]; List [Data [200; 3]; Data []]; Data (replicate 60 7)]).
  - apply sample_item_ok.
  - vm_compute. reflexivity.
  - repeat constructor.
Defined.

Lemma rlp_strict_no_bad_read_witness :
  no_bad_read (toBytes Strict (node [0x83; 1; 2; 3])).
Proof. apply (rlp_strict_no_bad_read [0x83; 1; 2; 3]); [vm_compute; reflexivity | exact 0 | exact U8 | exact 0]. Defined.

(** A byte string of a length that needs more bytes than there are: the guard on
    the length of the length turns the read into an exception. *)
Example short_header_refused : RLP_ [0xb9; 1] VeryStrict = Throw BadRLP.
Proof. reflexivity. Qed.
