(* ===== verification/PBFTMsg.v ===== *)
(** * PBFT messages and their wire format

    [libconsensus/pbft/Common.h]: [PBFTMsgPacket], [PBFTMsg] and the four
    requests, with [encode]/[decode] through [RLPStream]/[RLP], and the types
    of [libconsensus/Common.h].  The hash and signature functions of
    [libdevcrypto] are the parameter [Crypto]. *)

From S2P Require Import Prelude CommonData RLP.

(** ** Types of [libconsensus/Common.h] *)
Abbreviation IDXTYPE := Z (only parsing).
Abbreviation VIEWTYPE := Z (only parsing).
Definition MAXIDX : IDXTYPE := UINT16_MAX.
Definition MAXVIEW : VIEWTYPE := INT64_MAX.
Definition MAXTTL : Z := 2.

Abbreviation h256 := bytes (only parsing).
Abbreviation h512 := bytes (only parsing).
Abbreviation NodeID := h512 (only parsing).
Abbreviation Signature := bytes (only parsing).

Definition zeros (n : nat) : bytes := replicate n 0.
Definition h256_0 : h256 := zeros 32.
Definition h512_0 : h512 := zeros 64.
Definition Signature_0 : Signature := zeros 65.

(** [FixedHash<N>(bytesConstRef, FailIfDifferent)]: all zero on a wrong size. *)
Definition fixedHash (n : nat) (bs : bytes) : bytes :=
  if lenZ bs =? Z.of_nat n then bs else zeros n.

(** [dev::sha3], [dev::sign] and [dev::verify]. *)
Class Crypto := {
  sha3 : bytes -> h256;
  sign : bytes -> h256 -> Signature;
  verify : NodeID -> Signature -> h256 -> bool
}.

(** A computable stand-in, for the witnesses. *)
Definition toy_crypto : Crypto :=
  {| sha3 := fun b => fixedHash 32 (take 32 (1 :: b ++ zeros 32));
     sign := fun k h => take 65 (k ++ h ++ zeros 65);
     verify := fun id s h => bool_decide (s = take 65 (take 32 id ++ h ++ zeros 65)) |}.

Record KeyPair := mkKeyPair { secret : bytes; pub : NodeID }.

(** ** Packets *)
Definition PrepareReqPacket : Z := 0.
Definition SignReqPacket : Z := 1.
Definition CommitReqPacket : Z := 2.
Definition ViewChangeReqPacket : Z := 3.

Record PBFTMsgPacket := mkPacket {
  node_idx : IDXTYPE;
  node_id : NodeID;
  packet_id : Z;
  ttl : Z;
  data : bytes;
  pk_timestamp : Z;
  endpoint : chars
}.

(** The default constructor; [now] is [utcTime()]. *)
Definition newPacket (now : Z) : PBFTMsgPacket :=
  {| node_idx := 0; node_id := h512_0; packet_id := 0; ttl := MAXTTL; data := [];
     pk_timestamp := now; endpoint := [] |}.

Definition packet_fields (p : PBFTMsgPacket) (s : RLPStream) : result RLPStream :=
  streamAll [append_unsigned (packet_id p); append_unsigned (ttl p); append_data (data p) false] s.

(** [encode]: the fields are streamed flat, then wrapped as the single
    byte-string item of a list. *)
Definition wrap_list1 (fields : RLPStream -> result RLPStream) : result bytes :=
  tmp ← fields emptyStream;
  o ← out tmp;
  l ← appendList 1 emptyStream;
  l' ← append_data o false l;
  out l'.

Definition packet_encode (p : PBFTMsgPacket) : result bytes := wrap_list1 (packet_fields p).

Definition packet_populate (p : PBFTMsgPacket) (r : RLP) : result PBFTMsgPacket :=
  '(id, r) ← field 0 (toInt U8 Strict) r;
  '(t, r) ← field 1 (toInt U8 Strict) r;
  '(d, r) ← field 2 (toBytes LaissezFaire) r;
  Ok {| node_idx := node_idx p; node_id := node_id p; packet_id := id; ttl := t; data := d;
        pk_timestamp := pk_timestamp p; endpoint := endpoint p |}.

Definition packet_decode (p : PBFTMsgPacket) (bs : bytes) : result PBFTMsgPacket :=
  r ← RLP_ bs VeryStrict;
  '(i, _) ← index 0 r;
  packet_populate p i.

Definition setOtherField (idx : IDXTYPE) (id : NodeID) (ep : chars) (now : Z)
    (p : PBFTMsgPacket) : PBFTMsgPacket :=
  {| node_idx := idx; node_id := id; packet_id := packet_id p; ttl := ttl p; data := data p;
     pk_timestamp := now; endpoint := ep |}.

(** ** Messages *)
Record PBFTMsg := mkMsg {
  height : Z;
  view : VIEWTYPE;
  idx : IDXTYPE;
  timestamp : Z;
  block_hash : h256;
  sig : Signature;
  sig2 : Signature
}.

#[export] Instance PBFTMsg_eq_dec : EqDecision PBFTMsg.
Proof. solve_decision. Defined.

Definition emptyMsg : PBFTMsg :=
  {| height := -1; view := MAXVIEW; idx := MAXIDX; timestamp := Invalid256;
     block_hash := h256_0; sig := Signature_0; sig2 := Signature_0 |}.

(** [clear] resets every field of the base message. *)
Definition msg_clear (_ : PBFTMsg) : PBFTMsg := emptyMsg.

(** [operator==]. *)
Definition msg_eqb (m q : PBFTMsg) : bool :=
  (height m =? height q) && (view m =? view q) && bool_decide (block_hash m = block_hash q)
  && bool_decide (sig m = sig q) && bool_decide (sig2 m = sig2 q).

(** [streamRLPFields].  [height], [view] and [idx] are built-in integers and
    go through [append(unsigned)]. *)
Definition msg_ops (m : PBFTMsg) : list (RLPStream -> result RLPStream) :=
  [append_unsigned (height m); append_unsigned (view m); append_unsigned (idx m);
   append_u256 (timestamp m); append_data (block_hash m) false;
   append_data (sig m) false; append_data (sig2 m) false].

Definition msg_fields (m : PBFTMsg) (s : RLPStream) : result RLPStream := streamAll (msg_ops m) s.

Definition msg_encode (m : PBFTMsg) : result bytes := wrap_list1 (msg_fields m).

Definition msg_populate (r : RLP) : result (PBFTMsg * RLP) :=
  '(h, r) ← field 0 (toInt I64 Strict) r;
  '(v, r) ← field 1 (toInt I64 Strict) r;
  '(i, r) ← field 2 (toInt U16 Strict) r;
  '(t, r) ← field 3 (toInt U256 Strict) r;
  '(b, r) ← field 4 (toHash 32 VeryStrict) r;
  '(s1, r) ← field 5 (toBytesConstRef LaissezFaire) r;
  '(s2, r) ← field 6 (toBytesConstRef LaissezFaire) r;
  Ok ({| height := h; view := v; idx := i; timestamp := t; block_hash := b;
         sig := fixedHash 65 s1; sig2 := fixedHash 65 s2 |}, r).

Definition msg_decode (bs : bytes) (i : Z) : result PBFTMsg :=
  r ← RLP_ bs VeryStrict;
  '(e, _) ← index i r;
  '(m, _) ← msg_populate e;
  Ok m.

(** [uniqueKey]: the concatenated hex strings of the two signatures. *)
Definition uniqueKey (m : PBFTMsg) : chars := toHex [] (sig m) ++ toHex [] (sig2 m).

Section Signed.
Context `{Crypto}.

(** The hash of the fields other than the block hash and the signatures. *)
Definition fieldsWithoutBlock (h : Z) (v : VIEWTYPE) (i : IDXTYPE) (t : Z) : result h256 :=
  s ← streamAll [append_unsigned h; append_unsigned v; append_unsigned i; append_u256 t] emptyStream;
  o ← out s;
  Ok (sha3 o).

Definition msg_fieldsWithoutBlock (m : PBFTMsg) : result h256 :=
  fieldsWithoutBlock (height m) (view m) (idx m) (timestamp m).

(** A signed message: the body shared by every message constructor. *)
Definition newMsg (kp : KeyPair) (h : Z) (v : VIEWTYPE) (i : IDXTYPE) (hash : h256) (now : Z)
    : result PBFTMsg :=
  f ← fieldsWithoutBlock h v i now;
  Ok {| height := h; view := v; idx := i; timestamp := now; block_hash := hash;
        sig := sign (secret kp) hash; sig2 := sign (secret kp) f |}.
End Signed.

(** ** The requests *)

(** [PrepareReq]: the block is carried encoded ([block]), and, for a locally
    generated or executed request, as an object ([pBlock]) with its execution
    context ([p_execContext]). *)
Section Requests.
Context `{Crypto} {Block ExecContext : Type}.

Record PrepareReq := mkPrepare {
  p_msg : PBFTMsg;
  block : bytes;
  pBlock : option Block;
  p_execContext : option ExecContext
}.

Definition emptyPrepare : PrepareReq :=
  {| p_msg := emptyMsg; block := []; pBlock := None; p_execContext := None |}.

(** [clear] is the base class's: the block members are kept. *)
Definition prepare_clear (p : PrepareReq) : PrepareReq :=
  {| p_msg := msg_clear (p_msg p); block := block p; pBlock := pBlock p;
     p_execContext := p_execContext p |}.

(** [PrepareReq(req, keyPair, view, idx)]: re-sign a request for a view. *)
Definition prepare_resign (req : PrepareReq) (kp : KeyPair) (v : VIEWTYPE) (i : IDXTYPE)
    (now : Z) : result PrepareReq :=
  m ← newMsg kp (height (p_msg req)) v i (block_hash (p_msg req)) now;
  Ok {| p_msg := m; block := block req; pBlock := pBlock req; p_execContext := None |}.

(** [PrepareReq(blockStruct, keyPair, view, idx)]. *)
Definition prepare_of_block (number : Z) (hash : h256) (encoded : bytes) (b : Block)
    (kp : KeyPair) (v : VIEWTYPE) (i : IDXTYPE) (now : Z) : result PrepareReq :=
  m ← newMsg kp number v i hash now;
  Ok {| p_msg := m; block := encoded; pBlock := Some b; p_execContext := None |}.

(** [PrepareReq(req, sealing, keyPair)]: after execution; [block] stays empty. *)
Definition prepare_executed (req : PrepareReq) (b : Block) (hash : h256)
    (ctx : option ExecContext) (kp : KeyPair) (now : Z) : result PrepareReq :=
  m ← newMsg kp (height (p_msg req)) (view (p_msg req)) (idx (p_msg req)) hash now;
  Ok {| p_msg := m; block := []; pBlock := Some b; p_execContext := ctx |}.

Definition prepare_fields (p : PrepareReq) (s : RLPStream) : result RLPStream :=
  streamAll (msg_ops (p_msg p) ++ [append_data (block p) false]) s.

Definition prepare_encode (p : PrepareReq) : result bytes := wrap_list1 (prepare_fields p).

Definition prepare_populate (r : RLP) : result PrepareReq :=
  '(m, r) ← msg_populate r;
  '(b, r) ← field 7 (toBytes LaissezFaire) r;
  Ok {| p_msg := m; block := b; pBlock := None; p_execContext := None |}.

(** [populate] on an object that is already there: a field that cannot be read
    leaves the object with the fields assigned before it. *)
Definition fill {A} (i : nat) (conv : RLP -> result A) (put : A -> PrepareReq -> PrepareReq)
    (st : PrepareReq * result RLP) : PrepareReq * result RLP :=
  match st with
  | (p, Ok r) =>
      match field i conv r with
      | Ok (a, r') => (put a p, Ok r')
      | Throw e => (p, Throw e)
      end
  | (p, Throw e) => (p, Throw e)
  end.

Definition put_msg (f : PBFTMsg -> PBFTMsg) (p : PrepareReq) : PrepareReq :=
  {| p_msg := f (p_msg p); block := block p; pBlock := pBlock p; p_execContext := p_execContext p |}.

Definition put_height h := put_msg (fun m => {| height := h; view := view m; idx := idx m;
  timestamp := timestamp m; block_hash := block_hash m; sig := sig m; sig2 := sig2 m |}).
Definition put_view v := put_msg (fun m => {| height := height m; view := v; idx := idx m;
  timestamp := timestamp m; block_hash := block_hash m; sig := sig m; sig2 := sig2 m |}).
Definition put_idx i := put_msg (fun m => {| height := height m; view := view m; idx := i;
  timestamp := timestamp m; block_hash := block_hash m; sig := sig m; sig2 := sig2 m |}).
Definition put_timestamp t := put_msg (fun m => {| height := height m; view := view m; idx := idx m;
  timestamp := t; block_hash := block_hash m; sig := sig m; sig2 := sig2 m |}).
Definition put_hash b := put_msg (fun m => {| height := height m; view := view m; idx := idx m;
  timestamp := timestamp m; block_hash := b; sig := sig m; sig2 := sig2 m |}).
Definition put_sig s := put_msg (fun m => {| height := height m; view := view m; idx := idx m;
  timestamp := timestamp m; block_hash := block_hash m; sig := fixedHash 65 s; sig2 := sig2 m |}).
Definition put_sig2 s := put_msg (fun m => {| height := height m; view := view m; idx := idx m;
  timestamp := timestamp m; block_hash := block_hash m; sig := sig m; sig2 := fixedHash 65 s |}).
Definition put_block b (p : PrepareReq) : PrepareReq :=
  {| p_msg := p_msg p; block := b; pBlock := pBlock p; p_execContext := p_execContext p |}.

Definition prepare_populate_into (p : PrepareReq) (r : RLP) : PrepareReq * result RLP :=
  let st := fill 0 (toInt I64 Strict) put_height (p, Ok r) in
  let st := fill 1 (toInt I64 Strict) put_view st in
  let st := fill 2 (toInt U16 Strict) put_idx st in
  let st := fill 3 (toInt U256 Strict) put_timestamp st in
  let st := fill 4 (toHash 32 VeryStrict) put_hash st in
  let st := fill 5 (toBytesConstRef LaissezFaire) put_sig st in
  let st := fill 6 (toBytesConstRef LaissezFaire) put_sig2 st in
  fill 7 (toBytes LaissezFaire) put_block st.

(** Data that decodes replaces every field of the wire format and no other. *)
Lemma populate_into_ok p r q : prepare_populate r = Ok q ->
  exists r', prepare_populate_into p r =
    ({| p_msg := p_msg q; block := block q; pBlock := pBlock p; p_execContext := p_execContext p |}, Ok r').
Proof.
  unfold prepare_populate, msg_populate, prepare_populate_into.
  destruct (field 0 _ r) as [[h r0]|] eqn:E0; [| done]. cbn [mbind result_bind].
  destruct (field 1 _ r0) as [[v r1]|] eqn:E1; [| done]. cbn [mbind result_bind].
  destruct (field 2 _ r1) as [[i r2]|] eqn:E2; [| done]. cbn [mbind result_bind].
  destruct (field 3 _ r2) as [[t r3]|] eqn:E3; [| done]. cbn [mbind result_bind].
  destruct (field 4 _ r3) as [[b r4]|] eqn:E4; [| done]. cbn [mbind result_bind].
  destruct (field 5 _ r4) as [[s1 r5]|] eqn:E5; [| done]. cbn [mbind result_bind].
  destruct (field 6 _ r5) as [[s2 r6]|] eqn:E6; [| done]. cbn [mbind result_bind].
  destruct (field 7 _ r6) as [[k r7]|] eqn:E7; [| done]. cbn [mbind result_bind].
  intros [= <-]. exists r7. unfold fill. rewrite E0, E1, E2, E3, E4, E5, E6, E7. reflexivity.
Qed.

Definition prepare_decode (bs : bytes) : result PrepareReq :=
  r ← RLP_ bs VeryStrict;
  '(e, _) ← index 0 r;
  prepare_populate e.

(** [SignReq(req, keyPair, idx)] and [CommitReq(req, keyPair, idx)]. *)
Definition SignReq_of (req : PrepareReq) (kp : KeyPair) (i : IDXTYPE) (now : Z) : result PBFTMsg :=
  newMsg kp (height (p_msg req)) (view (p_msg req)) i (block_hash (p_msg req)) now.

Definition CommitReq_of (req : PrepareReq) (kp : KeyPair) (i : IDXTYPE) (now : Z) : result PBFTMsg :=
  newMsg kp (height (p_msg req)) (view (p_msg req)) i (block_hash (p_msg req)) now.

(** [ViewChangeReq(keyPair, height, view, idx, hash)]. *)
Definition ViewChangeReq_of (kp : KeyPair) (h : Z) (v : VIEWTYPE) (i : IDXTYPE) (hash : h256)
    (now : Z) : result PBFTMsg := newMsg kp h v i hash now.
End Requests.

Arguments PrepareReq : clear implicits.
Arguments emptyPrepare {Block ExecContext}.

(** ** The codec *)

(** What the wire keeps of a message: [height] and [view] modulo [2^32]. *)
Definition trunc32 (m : PBFTMsg) : PBFTMsg :=
  {| height := wrap 32 (height m); view := wrap 32 (view m); idx := idx m;
     timestamp := timestamp m; block_hash := block_hash m; sig := sig m; sig2 := sig2 m |}.

(** Fields within their declared types and sizes. *)
Definition msg_wf (m : PBFTMsg) : Prop :=
  0 <= idx m < 2 ^ 16 /\ 0 <= timestamp m < 2 ^ 256 /\
  (bytes_ok (block_hash m) /\ lenZ (block_hash m) = 32) /\
  (bytes_ok (sig m) /\ lenZ (sig m) = 65) /\ (bytes_ok (sig2 m) /\ lenZ (sig2 m) = 65).

Definition msg_encs (m : PBFTMsg) : list bytes :=
  [enc_int (wrap 32 (height m)); enc_int (wrap 32 (view m)); enc_int (wrap 32 (idx m));
   enc_int (timestamp m); enc_data (block_hash m); enc_data (sig m); enc_data (sig2 m)].

Lemma append_unsigned_ref x s : append_unsigned x s = appendRaw (enc_int (wrap 32 x)) 1 s.
Proof.
  unfold append_unsigned. apply append_bigint_ref.
  pose proof (wrap_range 32 x ltac:(lia)). lia.
Qed.

Lemma small_size bs n : lenZ bs = n -> n < 2 ^ 62 -> size_ok bs /\ lenZ bs < 2 ^ 64.
Proof. unfold size_ok, SIZE_MAX. lia. Qed.

Lemma msg_ops_ref m : msg_wf m ->
  Forall2 (fun op e => forall s, op s = appendRaw e 1 s) (msg_ops m) (msg_encs m).
Proof.
  intros (Hi & Ht & [_ Hb] & [_ H1] & [_ H2]).
  repeat constructor; intros s; try apply append_unsigned_ref;
    try (apply append_bigint_ref; lia); apply append_data_ref; lia.
Qed.

Lemma valid_enc_int n : 0 <= n < 2 ^ 256 -> valid_item (enc_int n).
Proof. intros H. destruct (compact_size n H) as (? & ? & _). by apply valid_enc_data. Qed.

Lemma msg_encs_valid m : msg_wf m -> Forall valid_item (msg_encs m).
Proof.
  intros (Hi & Ht & [Hbb Hb] & [Hb1 H1] & [Hb2 H2]).
  pose proof (wrap_range 32 (height m) ltac:(lia)).
  pose proof (wrap_range 32 (view m) ltac:(lia)).
  pose proof (wrap_range 32 (idx m) ltac:(lia)).
  repeat constructor; try (apply valid_enc_int; lia);
    (apply valid_enc_data; [done | apply (small_size _ _ eq_refl); lia]).
Qed.

(** The outer wrapping: one list whose only item is the byte string [o]. *)
Lemma wrap_list1_ref fields o :
  (tmp ← fields emptyStream; out tmp) = Ok o -> size_ok (enc_data o) ->
  wrap_list1 fields = Ok (enc_list (enc_data o)).
Proof.
  intros Hf Hs. unfold wrap_list1. destruct (fields emptyStream) as [tmp|]; [| done].
  cbn [mbind result_bind] in *. rewrite Hf. cbn [mbind result_bind appendList Z.eqb negb].
  apply size_ok_64 in Hs. destruct (enc_data_split o) as [h Eh].
  rewrite append_data_ref by (rewrite Eh, lenZ_app in Hs; pose proof (lenZ_nonneg h); lia).
  cbn [m_out m_listStack emptyStream].
  rewrite (appendRaw_last _ [] [] []) by done. done.
Qed.

Lemma index_wrapped o : bytes_ok o -> size_ok o -> size_ok (enc_data o) ->
  exists r r', RLP_ (enc_list (enc_data o)) VeryStrict = Ok r /\
    index 0 r = Ok (node (enc_data o), r').
Proof.
  intros Hb Hs Hs2. exists (node (enc_list (enc_data o))).
  destruct (index_ref [enc_data o] (node (enc_list (enc_data o))) 0 (enc_data o))
    as (r' & E & _); [| | done | done |].
  - repeat constructor; by apply valid_enc_data.
  - apply cache_fresh. cbn [concat]. rewrite app_nil_r. by apply payload_enc_list.
  - exists r'. split; [| exact E]. by apply valid_RLP_strict, valid_enc_list.
Qed.

Lemma compact_le n k : 0 <= n < 256 ^ k -> 0 < k -> lenZ (toCompactBigEndian n 0) <= k.
Proof. intros. rewrite compact_length by lia. apply bytesRequired_le; lia. Qed.

(** A value that fits the target type is read back unchanged. *)
Lemma toInt_I64_enc n flags : 0 <= n < 2 ^ 63 -> toInt I64 flags (node (enc_int n)) = Ok n.
Proof.
  intros H. apply toInt_enc; [lia | apply compact_le; cbn; lia |].
  intros x Hx. apply swrap_small; cbn in *; lia.
Qed.

Lemma toInt_U16_enc n flags : 0 <= n < 2 ^ 16 -> toInt U16 flags (node (enc_int n)) = Ok n.
Proof.
  intros H. apply toInt_enc; [lia | apply compact_le; cbn; lia |].
  intros x Hx. apply wrap_small. lia.
Qed.

Lemma toInt_U8_enc n flags : 0 <= n < 2 ^ 8 -> toInt U8 flags (node (enc_int n)) = Ok n.
Proof.
  intros H. apply toInt_enc; [lia | apply compact_le; cbn; lia |].
  intros x Hx. apply wrap_small. lia.
Qed.

Lemma toInt_U256_enc n flags : 0 <= n < 2 ^ 256 -> toInt U256 flags (node (enc_int n)) = Ok n.
Proof.
  intros H. apply toInt_enc; [lia | apply compact_le; cbn; lia |].
  intros x Hx. apply wrap_small. lia.
Qed.

Lemma fixedHash_exact n bs : lenZ bs = Z.of_nat n -> fixedHash n bs = bs.
Proof. intros H. unfold fixedHash. by rewrite H, Z.eqb_refl. Qed.

Lemma msg_populate_ref m extra r :
  msg_wf m -> Forall valid_item (msg_encs m ++ extra) ->
  Z.of_nat (length (msg_encs m ++ extra)) < SIZE_MAX -> cache_ok (msg_encs m ++ extra) r ->
  exists r', msg_populate r = Ok (trunc32 m, r') /\ cache_ok (msg_encs m ++ extra) r'.
Proof.
  intros (Hi & Ht & [Hbb Hb] & [Hb1 H1] & [Hb2 H2]) Hv Hl Hc.
  pose proof (wrap_range 32 (height m) ltac:(lia)).
  pose proof (wrap_range 32 (view m) ltac:(lia)).
  assert (wrap 32 (idx m) = idx m) as Ei by (apply wrap_small; lia).
  unfold msg_populate.
  do 2 (read_field Hv Hc ltac:(apply toInt_I64_enc; lia)).
  read_field Hv Hc ltac:(rewrite Ei; apply toInt_U16_enc; lia).
  read_field Hv Hc ltac:(apply toInt_U256_enc; lia).
  read_field Hv Hc ltac:(apply toHash_enc; [done | apply (small_size _ _ Hb); lia | done]).
  read_field Hv Hc ltac:(apply toBytesConstRef_enc; [done | apply (small_size _ _ H1); lia]).
  read_field Hv Hc ltac:(apply toBytesConstRef_enc; [done | apply (small_size _ _ H2); lia]).
  eexists. split; [| exact Hc]. rewrite !fixedHash_exact by done. done.
Qed.

Lemma enc_data_len bs : lenZ bs < 2 ^ 64 -> lenZ (enc_data bs) <= lenZ bs + 9.
Proof.
  intros H. unfold enc_data. case_step; [lia |]. rewrite lenZ_app.
  pose proof (hdr_len 128 183 (lenZ bs)). pose proof (lenZ_nonneg bs). lia.
Qed.

Lemma enc_int_len n : 0 <= n < 2 ^ 256 -> lenZ (enc_int n) <= 41.
Proof.
  intros H. destruct (compact_size n H) as (_ & Hs & Hl). apply size_ok_64 in Hs.
  pose proof (enc_data_len _ Hs). unfold enc_int. lia.
Qed.

Lemma msg_encs_len m : msg_wf m -> lenZ (concat (msg_encs m)) <= 400.
Proof.
  intros (Hi & Ht & [_ Hb] & [_ H1] & [_ H2]).
  pose proof (wrap_range 32 (height m) ltac:(lia)).
  pose proof (wrap_range 32 (view m) ltac:(lia)).
  pose proof (wrap_range 32 (idx m) ltac:(lia)).
  pose proof (enc_int_len (wrap 32 (height m)) ltac:(lia)).
  pose proof (enc_int_len (wrap 32 (view m)) ltac:(lia)).
  pose proof (enc_int_len (wrap 32 (idx m)) ltac:(lia)).
  pose proof (enc_int_len (timestamp m) Ht).
  pose proof (enc_data_len (block_hash m) ltac:(lia)).
  pose proof (enc_data_len (sig m) ltac:(lia)). pose proof (enc_data_len (sig2 m) ltac:(lia)).
  unfold msg_encs. cbn [concat]. len_simpl. lia.
Qed.

Lemma hdr_bytes short long n : 0 <= n < 2 ^ 64 -> 0 <= short <= 200 -> 0 <= long <= 0xf7 ->
  bytes_ok (hdr short long n).
Proof.
  intros Hn Hs Hl. unfold hdr. destruct (Z.ltb_spec n 56).
  - constructor; [unfold is_byte; lia | constructor].
  - pose proof (bytesRequired_size n ltac:(lia)).
    constructor; [unfold is_byte; lia | apply toBigEndian_bytes].
Qed.

Lemma enc_data_bytes bs : bytes_ok bs -> lenZ bs < 2 ^ 64 -> bytes_ok (enc_data bs).
Proof.
  intros Hb Hs. pose proof (lenZ_nonneg bs). unfold enc_data. case_step; [done |].
  apply Forall_app. split; [apply hdr_bytes; lia | done].
Qed.

Lemma enc_list_bytes bs : bytes_ok bs -> lenZ bs < 2 ^ 64 -> bytes_ok (enc_list bs).
Proof.
  intros Hb Hs. pose proof (lenZ_nonneg bs). unfold enc_list.
  apply Forall_app. split; [apply hdr_bytes; lia | done].
Qed.

Lemma enc_list_pos bs : 0 < lenZ (enc_list bs).
Proof.
  unfold enc_list, hdr. len_simpl. pose proof (lenZ_nonneg bs). case_step; len_simpl; [lia |].
  pose proof (lenZ_nonneg (toBigEndian (Z.to_nat (bytesRequired (lenZ bs))) (lenZ bs))). lia.
Qed.

Lemma enc_int_bytes n : 0 <= n < 2 ^ 256 -> bytes_ok (enc_int n).
Proof.
  intros H. destruct (compact_size n H) as (Hb & Hs & _). by apply enc_data_bytes, size_ok_64.
Qed.

Lemma msg_encs_bytes m : msg_wf m -> bytes_ok (concat (msg_encs m)).
Proof.
  intros (Hi & Ht & [Hb Lb] & [H1 L1] & [H2 L2]).
  pose proof (wrap_range 32 (height m) ltac:(lia)).
  pose proof (wrap_range 32 (view m) ltac:(lia)).
  pose proof (wrap_range 32 (idx m) ltac:(lia)).
  unfold msg_encs. cbn [concat].
  repeat (apply Forall_app; split); [apply enc_int_bytes; lia.. | | | | constructor];
    apply enc_data_bytes; [done | lia | done | lia | done | lia].
Qed.

(** A record streamed flat and wrapped: the decoder reaches its fields. *)
Lemma wrapped_record (ops : list (RLPStream -> result RLPStream)) es :
  Forall2 (fun op e => forall s, op s = appendRaw e 1 s) ops es ->
  Forall valid_item es -> bytes_ok (concat es) -> lenZ (concat es) < SIZE_MAX - 0x200 ->
  exists bs r r' e, wrap_list1 (streamAll ops) = Ok bs /\ RLP_ bs VeryStrict = Ok r /\
    index 0 r = Ok (e, r') /\ cache_ok es e /\ bytes_ok bs /\ 0 < lenZ bs.
Proof.
  intros Hops Hv Hb Hl.
  assert (size_ok (concat es)) as Hs by (unfold size_ok; lia).
  assert (size_ok (enc_data (concat es))) as Hs2.
  { pose proof (enc_data_len _ (size_ok_64 _ Hs)). unfold size_ok. lia. }
  destruct (index_wrapped (concat es) Hb Hs Hs2) as (r & r' & E1 & E2).
  exists (enc_list (enc_data (concat es))), r, r', (node (enc_data (concat es))).
  split_and!; [| done | done | by apply cache_fresh, payload_enc_data | | apply enc_list_pos].
  2: { apply enc_list_bytes; [by apply enc_data_bytes, size_ok_64 | by apply size_ok_64]. }
  apply wrap_list1_ref; [| done].
  unfold streamAll, emptyStream. by rewrite (fold_flat _ _ es).
Qed.

(** The flat image of the hashed fields. *)
Lemma fieldsWithoutBlock_ref `{Crypto} h v i t : 0 <= t < 2 ^ 256 ->
  fieldsWithoutBlock h v i t =
  Ok (sha3 (concat [enc_int (wrap 32 h); enc_int (wrap 32 v); enc_int (wrap 32 i); enc_int t])).
Proof.
  intros Ht. unfold fieldsWithoutBlock, streamAll, emptyStream.
  rewrite (fold_flat _ _ [enc_int (wrap 32 h); enc_int (wrap 32 v); enc_int (wrap 32 i); enc_int t]).
  { done. }
  repeat constructor; intros s; try apply append_unsigned_ref; apply append_bigint_ref; lia.
Qed.

Definition packet_encs (p : PBFTMsgPacket) : list bytes :=
  [enc_int (wrap 32 (packet_id p)); enc_int (wrap 32 (ttl p)); enc_data (data p)].

Lemma packet_ops_ref p : lenZ (data p) < 2 ^ 64 ->
  Forall2 (fun op e => forall s, op s = appendRaw e 1 s)
    [append_unsigned (packet_id p); append_unsigned (ttl p); append_data (data p) false]
    (packet_encs p).
Proof.
  intros Hd. repeat constructor; intros s; try apply append_unsigned_ref. by apply append_data_ref.
Qed.

(** ** Properties *)

(** A message sent by [encode] and received by [decode] arrives with every
    field intact except [height] and [view], which arrive modulo [2^32]: the
    fields are [int64_t] but are streamed as [unsigned]. *)
Theorem pbft_msg_wire m :
  msg_wf m ->
  exists bs, msg_encode m = Ok bs /\ msg_decode bs 0 = Ok (trunc32 m).
Proof.
  intros Hm. pose proof (msg_encs_valid m Hm) as Hv. pose proof (msg_encs_len m Hm).
  destruct (wrapped_record (msg_ops m) (msg_encs m)) as (bs & r & r' & e & E1 & E2 & E3 & Hc & Hbs & Hpos);
    [by apply msg_ops_ref | done | by apply msg_encs_bytes | unfold SIZE_MAX; lia |].
  exists bs. split; [exact E1 |]. unfold msg_decode. rewrite E2. cbn [mbind result_bind].
  rewrite E3. cbn [mbind result_bind]. rewrite <- (app_nil_r (msg_encs m)) in Hv, Hc.
  destruct (msg_populate_ref m [] e Hm Hv ltac:(done) Hc) as (r'' & E & _). by rewrite E.
Qed.

(** A prepare request on the wire: only [height] and [view] are cut. *)
Lemma prepare_codec {Block ExecContext} (p : PrepareReq Block ExecContext) :
  msg_wf (p_msg p) -> bytes_ok (block p) -> lenZ (block p) < 2 ^ 63 ->
  exists bs, prepare_encode p = Ok bs /\ bytes_ok bs /\ 0 < lenZ bs /\
    prepare_decode bs = Ok {| p_msg := trunc32 (p_msg p); block := block p; pBlock := @None Block;
                              p_execContext := @None ExecContext |}.
Proof.
  intros Hm Hb Hl. pose proof (msg_encs_len _ Hm).
  assert (size_ok (block p)) as Hs by (unfold size_ok, SIZE_MAX; lia).
  pose proof (enc_data_len (block p) (size_ok_64 _ Hs)).
  assert (Forall valid_item (msg_encs (p_msg p) ++ [enc_data (block p)])) as Hv.
  { apply Forall_app. split; [by apply msg_encs_valid | repeat constructor; by apply valid_enc_data]. }
  destruct (wrapped_record (msg_ops (p_msg p) ++ [append_data (block p) false])
    (msg_encs (p_msg p) ++ [enc_data (block p)])) as (bs & r & r' & e & E1 & E2 & E3 & Hc & Hbs & Hpos).
  - apply Forall2_app; [by apply msg_ops_ref |]. repeat constructor. intros s.
    by apply append_data_ref, size_ok_64.
  - done.
  - rewrite concat_app. apply Forall_app. split; [by apply msg_encs_bytes |].
    cbn [concat]. rewrite app_nil_r. by apply enc_data_bytes, size_ok_64.
  - rewrite concat_app, lenZ_app. cbn [concat]. rewrite app_nil_r. unfold SIZE_MAX. lia.
  - exists bs. split_and!; [exact E1 | done | done |]. unfold prepare_decode. rewrite E2. cbn [mbind result_bind].
    rewrite E3. cbn [mbind result_bind]. unfold prepare_populate.
    destruct (msg_populate_ref _ _ e Hm Hv ltac:(done) Hc) as (r2 & E & Hc2).
    rewrite E. cbn [mbind result_bind].
    read_field Hv Hc2 ltac:(apply toBytes_enc; done). done.
Qed.

(** A prepare request round-trips with its block bytes; the members that
    are not sent (the block object and its execution context) arrive unset. *)
Theorem prepare_wire {Block ExecContext} (p : PrepareReq Block ExecContext) :
  msg_wf (p_msg p) -> bytes_ok (block p) -> lenZ (block p) < 2 ^ 63 ->
  0 <= height (p_msg p) < 2 ^ 32 -> 0 <= view (p_msg p) < 2 ^ 32 ->
  exists bs, prepare_encode p = Ok bs /\
    prepare_decode bs = Ok {| p_msg := p_msg p; block := block p; pBlock := @None Block;
                              p_execContext := @None ExecContext |}.
Proof.
  intros Hm Hb Hl Hh Hw. destruct (prepare_codec p Hm Hb Hl) as (bs & E1 & _ & _ & E2).
  exists bs. split; [done |]. rewrite E2. unfold trunc32. rewrite !wrap_small by done.
  by destruct (p_msg p).
Qed.

(** The packet codec. *)
Lemma packet_codec p q :
  0 <= packet_id p < 2 ^ 8 -> 0 <= ttl p < 2 ^ 8 ->
  bytes_ok (data p) -> lenZ (data p) < 2 ^ 63 ->
  exists bs, packet_encode p = Ok bs /\
    packet_decode q bs = Ok {| node_idx := node_idx q; node_id := node_id q;
      packet_id := packet_id p; ttl := ttl p; data := data p;
      pk_timestamp := pk_timestamp q; endpoint := endpoint q |}.
Proof.
  intros Hi Ht Hb Hl.
  assert (size_ok (data p)) as Hs by (unfold size_ok, SIZE_MAX; lia).
  pose proof (enc_data_len (data p) (size_ok_64 _ Hs)).
  assert (wrap 32 (packet_id p) = packet_id p) as Ei by (apply wrap_small; lia).
  assert (wrap 32 (ttl p) = ttl p) as Et by (apply wrap_small; lia).
  assert (Forall valid_item (packet_encs p)) as Hv.
  { unfold packet_encs. rewrite Ei, Et.
    repeat constructor; try (apply valid_enc_int; lia); by apply valid_enc_data. }
  destruct (wrapped_record _ _ (packet_ops_ref p (size_ok_64 _ Hs)) Hv)
    as (bs & r & r' & e & E1 & E2 & E3 & Hc & Hbs & Hpos); unfold packet_encs in *; rewrite ?Ei, ?Et in *.
  - cbn [concat]. repeat (apply Forall_app; split); [apply enc_int_bytes; lia.. | | constructor].
    by apply enc_data_bytes, size_ok_64.
  - cbn [concat]. len_simpl. pose proof (enc_int_len (packet_id p) ltac:(lia)).
    pose proof (enc_int_len (ttl p) ltac:(lia)). unfold SIZE_MAX. lia.
  - exists bs. split; [exact E1 |]. unfold packet_decode. rewrite E2. cbn [mbind result_bind].
    rewrite E3. cbn [mbind result_bind]. unfold packet_populate.
    do 2 (read_field Hv Hc ltac:(apply toInt_U8_enc; lia)).
    read_field Hv Hc ltac:(apply toBytes_enc; done). done.
Qed.

(** A packet round-trips: type, time-to-live and payload are those sent,
    and the receiver-side fields are those of the packet decoded into. *)
Theorem packet_wire p q :
  0 <= packet_id p < 2 ^ 8 -> 0 <= ttl p < 2 ^ 8 ->
  bytes_ok (data p) -> lenZ (data p) < 2 ^ 63 ->
  exists bs, packet_encode p = Ok bs /\
    packet_decode q bs = Ok {| node_idx := node_idx q; node_id := node_id q;
      packet_id := packet_id p; ttl := ttl p; data := data p;
      pk_timestamp := pk_timestamp q; endpoint := endpoint q |}.
Proof. apply packet_codec. Qed.

(** [sig2] signs the same hash for messages whose heights and views agree
    modulo [2^32]: a signature for one is a signature for the other. *)
Theorem signed_hash_mod32 `{Crypto} h v h' v' i t :
  0 <= t < 2 ^ 256 -> h mod 2 ^ 32 = h' mod 2 ^ 32 -> v mod 2 ^ 32 = v' mod 2 ^ 32 ->
  fieldsWithoutBlock h v i t = fieldsWithoutBlock h' v' i t.
Proof.
  intros Ht Hh Hv. rewrite !fieldsWithoutBlock_ref by done. unfold wrap. by rewrite Hh, Hv.
Qed.

Definition sample_msg : PBFTMsg :=
  {| height := 2 ^ 32 + 5; view := 7; idx := 3; timestamp := 1000; block_hash := replicate 32 9;
     sig := replicate 65 1; sig2 := replicate 65 2 |}.

Lemma sample_msg_wf : msg_wf sample_msg.
Proof. vm_compute. intuition (try congruence). all: repeat constructor; intros; discriminate. Qed.

Lemma pbft_msg_wire_witness :
  exists bs, msg_encode sample_msg = Ok bs /\ msg_decode bs 0 = Ok (trunc32 sample_msg).
Proof. apply (pbft_msg_wire sample_msg). apply sample_msg_wf. Defined.

Definition sample_prepare : PrepareReq unit unit :=
  {| p_msg := trunc32 sample_msg; block := [1; 2; 3]; pBlock := Some tt; p_execContext := None |}.

Lemma prepare_wire_witness :
  exists bs, prepare_encode sample_prepare = Ok bs /\
    prepare_decode bs = Ok {| p_msg := trunc32 sample_msg; block := [1; 2; 3];
                              pBlock := @None unit; p_execContext := @None unit |}.
Proof.
  apply (prepare_wire sample_prepare).
  - vm_compute. intuition (try congruence). all: repeat constructor; intros; discriminate.
  - vm_compute. repeat constructor; intros; discriminate.
  - vm_compute. reflexivity.
  - vm_compute. intuition congruence.
  - vm_compute. intuition congruence.
Defined.

Lemma packet_wire_witness :
  exists bs, packet_encode (setOtherField 1 h512_0 [] 5 (newPacket 3)) = Ok bs /\
    packet_decode (newPacket 9) bs = Ok (newPacket 9).
Proof.
  apply (packet_wire (setOtherField 1 h512_0 [] 5 (newPacket 3)) (newPacket 9));
    vm_compute; [intuition congruence | intuition congruence | constructor | reflexivity].
Defined.

Lemma signed_hash_mod32_witness :
  let C := toy_crypto in fieldsWithoutBlock 5 7 3 0 = fieldsWithoutBlock (5 + 2 ^ 32) 7 3 0.
Proof.
  intros C. apply (signed_hash_mod32 5 7 (5 + 2 ^ 32) 7 3 0).
  - vm_compute. intuition congruence.
  - reflexivity.
  - reflexivity.
Defined.
