(* ===== verification/BlockHeader.v ===== *)
(** * Block headers

    [libethcore/BlockHeader.h] and [libethcore/BlockHeader.cpp]: the thirteen
    fields, the memoised hash [m_hash] and the operations that reset it, the
    RLP form, the derivation from a parent and [verify]. *)

From S2P Require Import Prelude CommonData RLP PBFTMsg.

(** [LogBloom] is [FixedHash<256>]. *)
Definition LogBloom_0 : bytes := zeros 256.
Definition MaxBlockNumber : Z := INT64_MAX.
Definition BasicFields : Z := 13.

Inductive Strictness : Set := CheckEverything | QuickNonce | CheckNothingNew.
Inductive BlockDataType : Set := HeaderData | BlockData.

Record BlockHeader := mkHeader {
  m_parentHash : h256;
  m_stateRoot : h256;
  m_transactionsRoot : h256;
  m_receiptsRoot : h256;
  m_dbHash : h256;
  m_logBloom : bytes;
  m_number : Z;
  m_gasLimit : Z;
  m_gasUsed : Z;
  m_timestamp : Z;
  m_extraData : list bytes;
  m_sealer : Z;
  m_sealerList : list h512;
  (** the memo: all zero when the hash is not known *)
  m_hash : h256
}.

Definition emptyHeader : BlockHeader :=
  {| m_parentHash := h256_0; m_stateRoot := h256_0; m_transactionsRoot := h256_0;
     m_receiptsRoot := h256_0; m_dbHash := h256_0; m_logBloom := LogBloom_0; m_number := 0;
     m_gasLimit := 0; m_gasUsed := 0; m_timestamp := UINT64_MAX; m_extraData := [];
     m_sealer := Invalid256; m_sealerList := []; m_hash := h256_0 |}.

(** [operator bool]. *)
Definition header_bool (h : BlockHeader) : bool := negb (m_timestamp h =? UINT64_MAX).

(** The header with another memo. *)
Definition set_hash (x : h256) (h : BlockHeader) : BlockHeader :=
  {| m_parentHash := m_parentHash h; m_stateRoot := m_stateRoot h;
     m_transactionsRoot := m_transactionsRoot h; m_receiptsRoot := m_receiptsRoot h;
     m_dbHash := m_dbHash h; m_logBloom := m_logBloom h; m_number := m_number h;
     m_gasLimit := m_gasLimit h; m_gasUsed := m_gasUsed h; m_timestamp := m_timestamp h;
     m_extraData := m_extraData h; m_sealer := m_sealer h; m_sealerList := m_sealerList h;
     m_hash := x |}.

Definition noteDirty (h : BlockHeader) : BlockHeader := set_hash h256_0 h.

(** ** Setters *)
Definition setParentHash (x : h256) (h : BlockHeader) : BlockHeader :=
  noteDirty {| m_parentHash := x; m_stateRoot := m_stateRoot h;
               m_transactionsRoot := m_transactionsRoot h; m_receiptsRoot := m_receiptsRoot h;
               m_dbHash := m_dbHash h; m_logBloom := m_logBloom h; m_number := m_number h;
               m_gasLimit := m_gasLimit h; m_gasUsed := m_gasUsed h;
               m_timestamp := m_timestamp h; m_extraData := m_extraData h;
               m_sealer := m_sealer h; m_sealerList := m_sealerList h; m_hash := m_hash h |}.

Definition setRoots (trans receipt state : h256) (h : BlockHeader) : BlockHeader :=
  noteDirty {| m_parentHash := m_parentHash h; m_stateRoot := state;
               m_transactionsRoot := trans; m_receiptsRoot := receipt; m_dbHash := m_dbHash h;
               m_logBloom := m_logBloom h; m_number := m_number h; m_gasLimit := m_gasLimit h;
               m_gasUsed := m_gasUsed h; m_timestamp := m_timestamp h;
               m_extraData := m_extraData h; m_sealer := m_sealer h;
               m_sealerList := m_sealerList h; m_hash := m_hash h |}.

Definition setDBhash (x : h256) (h : BlockHeader) : BlockHeader :=
  noteDirty {| m_parentHash := m_parentHash h; m_stateRoot := m_stateRoot h;
               m_transactionsRoot := m_transactionsRoot h; m_receiptsRoot := m_receiptsRoot h;
               m_dbHash := x; m_logBloom := m_logBloom h; m_number := m_number h;
               m_gasLimit := m_gasLimit h; m_gasUsed := m_gasUsed h;
               m_timestamp := m_timestamp h; m_extraData := m_extraData h;
               m_sealer := m_sealer h; m_sealerList := m_sealerList h; m_hash := m_hash h |}.

Definition setLogBloom (x : bytes) (h : BlockHeader) : BlockHeader :=
  noteDirty {| m_parentHash := m_parentHash h; m_stateRoot := m_stateRoot h;
               m_transactionsRoot := m_transactionsRoot h; m_receiptsRoot := m_receiptsRoot h;
               m_dbHash := m_dbHash h; m_logBloom := x; m_number := m_number h;
               m_gasLimit := m_gasLimit h; m_gasUsed := m_gasUsed h;
               m_timestamp := m_timestamp h; m_extraData := m_extraData h;
               m_sealer := m_sealer h; m_sealerList := m_sealerList h; m_hash := m_hash h |}.

Definition setNumber (x : Z) (h : BlockHeader) : BlockHeader :=
  noteDirty {| m_parentHash := m_parentHash h; m_stateRoot := m_stateRoot h;
               m_transactionsRoot := m_transactionsRoot h; m_receiptsRoot := m_receiptsRoot h;
               m_dbHash := m_dbHash h; m_logBloom := m_logBloom h; m_number := x;
               m_gasLimit := m_gasLimit h; m_gasUsed := m_gasUsed h;
               m_timestamp := m_timestamp h; m_extraData := m_extraData h;
               m_sealer := m_sealer h; m_sealerList := m_sealerList h; m_hash := m_hash h |}.

Definition setGasLimit (x : Z) (h : BlockHeader) : BlockHeader :=
  noteDirty {| m_parentHash := m_parentHash h; m_stateRoot := m_stateRoot h;
               m_transactionsRoot := m_transactionsRoot h; m_receiptsRoot := m_receiptsRoot h;
               m_dbHash := m_dbHash h; m_logBloom := m_logBloom h; m_number := m_number h;
               m_gasLimit := x; m_gasUsed := m_gasUsed h; m_timestamp := m_timestamp h;
               m_extraData := m_extraData h; m_sealer := m_sealer h;
               m_sealerList := m_sealerList h; m_hash := m_hash h |}.

Definition setGasUsed (x : Z) (h : BlockHeader) : BlockHeader :=
  noteDirty {| m_parentHash := m_parentHash h; m_stateRoot := m_stateRoot h;
               m_transactionsRoot := m_transactionsRoot h; m_receiptsRoot := m_receiptsRoot h;
               m_dbHash := m_dbHash h; m_logBloom := m_logBloom h; m_number := m_number h;
               m_gasLimit := m_gasLimit h; m_gasUsed := x; m_timestamp := m_timestamp h;
               m_extraData := m_extraData h; m_sealer := m_sealer h;
               m_sealerList := m_sealerList h; m_hash := m_hash h |}.

Definition setExtraDataAll (x : list bytes) (h : BlockHeader) : BlockHeader :=
  noteDirty {| m_parentHash := m_parentHash h; m_stateRoot := m_stateRoot h;
               m_transactionsRoot := m_transactionsRoot h; m_receiptsRoot := m_receiptsRoot h;
               m_dbHash := m_dbHash h; m_logBloom := m_logBloom h; m_number := m_number h;
               m_gasLimit := m_gasLimit h; m_gasUsed := m_gasUsed h;
               m_timestamp := m_timestamp h; m_extraData := x; m_sealer := m_sealer h;
               m_sealerList := m_sealerList h; m_hash := m_hash h |}.

Definition setTimestamp (x : Z) (h : BlockHeader) : BlockHeader :=
  noteDirty {| m_parentHash := m_parentHash h; m_stateRoot := m_stateRoot h;
               m_transactionsRoot := m_transactionsRoot h; m_receiptsRoot := m_receiptsRoot h;
               m_dbHash := m_dbHash h; m_logBloom := m_logBloom h; m_number := m_number h;
               m_gasLimit := m_gasLimit h; m_gasUsed := m_gasUsed h; m_timestamp := x;
               m_extraData := m_extraData h; m_sealer := m_sealer h;
               m_sealerList := m_sealerList h; m_hash := m_hash h |}.

Definition setSealer (x : Z) (h : BlockHeader) : BlockHeader :=
  noteDirty {| m_parentHash := m_parentHash h; m_stateRoot := m_stateRoot h;
               m_transactionsRoot := m_transactionsRoot h; m_receiptsRoot := m_receiptsRoot h;
               m_dbHash := m_dbHash h; m_logBloom := m_logBloom h; m_number := m_number h;
               m_gasLimit := m_gasLimit h; m_gasUsed := m_gasUsed h;
               m_timestamp := m_timestamp h; m_extraData := m_extraData h; m_sealer := x;
               m_sealerList := m_sealerList h; m_hash := m_hash h |}.

Definition setSealerList (x : list h512) (h : BlockHeader) : BlockHeader :=
  noteDirty {| m_parentHash := m_parentHash h; m_stateRoot := m_stateRoot h;
               m_transactionsRoot := m_transactionsRoot h; m_receiptsRoot := m_receiptsRoot h;
               m_dbHash := m_dbHash h; m_logBloom := m_logBloom h; m_number := m_number h;
               m_gasLimit := m_gasLimit h; m_gasUsed := m_gasUsed h;
               m_timestamp := m_timestamp h; m_extraData := m_extraData h;
               m_sealer := m_sealer h; m_sealerList := x; m_hash := m_hash h |}.

Definition setStateRoot (x : h256) (h : BlockHeader) : BlockHeader :=
  noteDirty {| m_parentHash := m_parentHash h; m_stateRoot := x;
               m_transactionsRoot := m_transactionsRoot h; m_receiptsRoot := m_receiptsRoot h;
               m_dbHash := m_dbHash h; m_logBloom := m_logBloom h; m_number := m_number h;
               m_gasLimit := m_gasLimit h; m_gasUsed := m_gasUsed h;
               m_timestamp := m_timestamp h; m_extraData := m_extraData h;
               m_sealer := m_sealer h; m_sealerList := m_sealerList h; m_hash := m_hash h |}.

Definition setTransactionsRoot (x : h256) (h : BlockHeader) : BlockHeader :=
  noteDirty {| m_parentHash := m_parentHash h; m_stateRoot := m_stateRoot h;
               m_transactionsRoot := x; m_receiptsRoot := m_receiptsRoot h;
               m_dbHash := m_dbHash h; m_logBloom := m_logBloom h; m_number := m_number h;
               m_gasLimit := m_gasLimit h; m_gasUsed := m_gasUsed h;
               m_timestamp := m_timestamp h; m_extraData := m_extraData h;
               m_sealer := m_sealer h; m_sealerList := m_sealerList h; m_hash := m_hash h |}.

Definition setReceiptsRoot (x : h256) (h : BlockHeader) : BlockHeader :=
  noteDirty {| m_parentHash := m_parentHash h; m_stateRoot := m_stateRoot h;
               m_transactionsRoot := m_transactionsRoot h; m_receiptsRoot := x;
               m_dbHash := m_dbHash h; m_logBloom := m_logBloom h; m_number := m_number h;
               m_gasLimit := m_gasLimit h; m_gasUsed := m_gasUsed h;
               m_timestamp := m_timestamp h; m_extraData := m_extraData h;
               m_sealer := m_sealer h; m_sealerList := m_sealerList h; m_hash := m_hash h |}.

Definition appendExtraDataArray (x : bytes) (h : BlockHeader) : BlockHeader :=
  setExtraDataAll (m_extraData h ++ [x]) h.

(** [setExtraData(content, index)] and [appendExtraDataItem]: out of range
    nothing changes. *)
Definition setExtraData (x : bytes) (i : nat) (h : BlockHeader) : bool * BlockHeader :=
  if (length (m_extraData h) <=? i)%nat then (false, h)
  else (true, setExtraDataAll (<[i := x]> (m_extraData h)) h).

(** ** RLP form *)

(** [streamRLPFields]. *)
Definition header_ops (h : BlockHeader) : list (RLPStream -> result RLPStream) :=
  [append_data (m_parentHash h) false; append_data (m_stateRoot h) false;
   append_data (m_transactionsRoot h) false; append_data (m_receiptsRoot h) false;
   append_data (m_dbHash h) false; append_data (m_logBloom h) false;
   append_bigint (m_number h); append_u256 (m_gasLimit h); append_u256 (m_gasUsed h);
   append_bigint (m_timestamp h);
   appendVector (fun x => append_data x false) (m_extraData h);
   append_u256 (m_sealer h);
   appendVector (fun x => append_data x false) (m_sealerList h)].

Definition header_encode (h : BlockHeader) : result bytes :=
  s ← appendList BasicFields emptyStream;
  s' ← streamAll (header_ops h) s;
  out s'.

(** [populate] leaves [m_hash] as it was. *)
Definition header_populate (r : RLP) (h : BlockHeader) : result BlockHeader :=
  '(f0, r) ← field 0 (toHash 32 VeryStrict) r;
  '(f1, r) ← field 1 (toHash 32 VeryStrict) r;
  '(f2, r) ← field 2 (toHash 32 VeryStrict) r;
  '(f3, r) ← field 3 (toHash 32 VeryStrict) r;
  '(f4, r) ← field 4 (toHash 32 VeryStrict) r;
  '(f5, r) ← field 5 (toHash 256 VeryStrict) r;
  '(f6, r) ← field 6 (toPositiveInt64 Strict) r;
  '(f7, r) ← field 7 (toInt U256 Strict) r;
  '(f8, r) ← field 8 (toInt U256 Strict) r;
  '(f9, r) ← field 9 (toInt U64 Strict) r;
  '(f10, r) ← field 10 (toVector toBytes LaissezFaire) r;
  '(f11, r) ← field 11 (toInt U256 Strict) r;
  '(f12, r) ← field 12 (toVector (toHash 64) LaissezFaire) r;
  Ok {| m_parentHash := f0; m_stateRoot := f1; m_transactionsRoot := f2; m_receiptsRoot := f3;
        m_dbHash := f4; m_logBloom := f5; m_number := f6; m_gasLimit := f7; m_gasUsed := f8;
        m_timestamp := f9; m_extraData := f10; m_sealer := f11; m_sealerList := f12;
        m_hash := m_hash h |}.

Definition header_decode (bs : bytes) (h : BlockHeader) : result BlockHeader :=
  r ← RLP_ bs VeryStrict; header_populate r h.

(** [extractBlock] and [extractHeader]. *)
Definition extractBlock (bs : bytes) : result RLP :=
  root ← RLP_ bs VeryStrict;
  if negb (isList (m_data root)) then Throw InvalidBlockFormat
  else
    '(r0, root') ← index 0 root;
    if negb (isList (m_data r0)) then Throw InvalidBlockFormat else Ok root'.

Definition extractHeader (bs : bytes) : result RLP :=
  root ← extractBlock bs; '(r0, _) ← index 0 root; Ok r0.

Section Hashing.
Context `{Crypto}.

(** [hash]: compute and memoise when the memo is empty. *)
Definition header_hash (h : BlockHeader) : result (h256 * BlockHeader) :=
  if bool_decide (m_hash h = h256_0) then
    bs ← header_encode h; Ok (sha3 bs, set_hash (sha3 bs) h)
  else Ok (m_hash h, h).

(** [EmptyTrie] of [libdevcore/TrieCommon.cpp]: the hash of [rlp("")]. *)
Definition EmptyTrie : h256 := sha3 (enc_data []).

Definition header_clear (h : BlockHeader) : BlockHeader :=
  noteDirty {| m_parentHash := h256_0; m_stateRoot := EmptyTrie; m_transactionsRoot := EmptyTrie;
     m_receiptsRoot := EmptyTrie; m_dbHash := h256_0; m_logBloom := LogBloom_0; m_number := 0;
     m_gasLimit := 0; m_gasUsed := 0; m_timestamp := UINT64_MAX; m_extraData := [];
     m_sealer := Invalid256; m_sealerList := []; m_hash := m_hash h |}.

(** [BlockHeader(bytes, type, hashWith)]. *)
Definition header_of_bytes (bs : bytes) (bdt : BlockDataType) (hashWith : h256)
    : result BlockHeader :=
  r ← (match bdt with BlockData => extractHeader bs | HeaderData => RLP_ bs VeryStrict end);
  header_populate r
    (set_hash (if bool_decide (hashWith = h256_0) then sha3 (m_data r) else hashWith) emptyHeader).

(** [BlockHeader(other)] and [operator=]: every field, and the hash of the
    other header, computed if need be (the other's memo is then filled too). *)
Definition header_copy (other : BlockHeader) : result (BlockHeader * BlockHeader) :=
  '(x, other') ← header_hash other; Ok (set_hash x other', other').

(** [headerHashFromBlock]. *)
Definition headerHashFromBlock (bs : bytes) : result h256 :=
  root ← RLP_ bs VeryStrict; '(r0, _) ← index 0 root; Ok (sha3 (m_data r0)).

(** [populateFromParent]; the number is an [int64_t]. *)
Definition populateFromParent (parent h : BlockHeader) : result (BlockHeader * BlockHeader) :=
  '(ph, parent') ← header_hash parent;
  Ok (noteDirty
        {| m_parentHash := ph; m_stateRoot := m_stateRoot parent;
           m_transactionsRoot := m_transactionsRoot h; m_receiptsRoot := m_receiptsRoot h;
           m_dbHash := m_dbHash h; m_logBloom := m_logBloom h;
           m_number := swrap 64 (m_number parent + 1);
           m_gasLimit := m_gasLimit parent; m_gasUsed := 0; m_timestamp := m_timestamp h;
           m_extraData := m_extraData h; m_sealer := Invalid256; m_sealerList := m_sealerList h;
           m_hash := m_hash h |}, parent').

(** [verify(strictness, parent)], with the default empty [_block]. *)
Definition header_verify (s : Strictness) (parent h : BlockHeader) : result unit :=
  if (MaxBlockNumber <=? m_number h) || (m_number h <? 0) then Throw InvalidNumber
  else if (match s with CheckNothingNew => false | _ => true end)
          && (m_gasLimit h <? m_gasUsed h) then Throw TooMuchGasUsed
  else if header_bool parent then
    wrongParent ← (if bool_decide (m_parentHash h = h256_0) then Ok false
                   else '(ph, _) ← header_hash parent; Ok (negb (bool_decide (ph = m_parentHash h))));
    if wrongParent : bool then Throw InvalidParentHash
    else if m_timestamp h <=? m_timestamp parent then Throw InvalidTimestamp
    else if negb (m_number h =? m_number parent + 1) then Throw InvalidNumber
    else Ok tt
  else Ok tt.
End Hashing.

(** ** Facts *)

Definition hashes_ok (n : Z) (l : list bytes) : Prop :=
  Forall (fun x => bytes_ok x /\ lenZ x = n) l.

(** Field values within their C++ types. *)
Definition header_wf (h : BlockHeader) : Prop :=
  hashes_ok 32 [m_parentHash h; m_stateRoot h; m_transactionsRoot h; m_receiptsRoot h; m_dbHash h] /\
  (bytes_ok (m_logBloom h) /\ lenZ (m_logBloom h) = 256) /\
  0 <= m_number h < 2 ^ 63 /\ 0 <= m_gasLimit h < 2 ^ 256 /\ 0 <= m_gasUsed h < 2 ^ 256 /\
  0 <= m_timestamp h < 2 ^ 64 /\ 0 <= m_sealer h < 2 ^ 256 /\
  Forall bytes_ok (m_extraData h) /\ lenZ (concat (map enc_data (m_extraData h))) < 2 ^ 62 /\
  hashes_ok 64 (m_sealerList h) /\ lenZ (concat (map enc_data (m_sealerList h))) < 2 ^ 62.

Definition header_encs (h : BlockHeader) : list bytes :=
  [enc_data (m_parentHash h); enc_data (m_stateRoot h); enc_data (m_transactionsRoot h);
   enc_data (m_receiptsRoot h); enc_data (m_dbHash h); enc_data (m_logBloom h);
   enc_int (m_number h); enc_int (m_gasLimit h); enc_int (m_gasUsed h); enc_int (m_timestamp h);
   enc_list (concat (map enc_data (m_extraData h))); enc_int (m_sealer h);
   enc_list (concat (map enc_data (m_sealerList h)))].

Lemma enc_data_grows bs : lenZ bs <= lenZ (enc_data bs).
Proof.
  destruct (enc_data_split bs) as [h E]. rewrite E, lenZ_app. pose proof (lenZ_nonneg h). lia.
Qed.

Lemma elem_concat_len {A} (f : A -> bytes) l x : x ∈ l -> lenZ (f x) <= lenZ (concat (map f l)).
Proof.
  induction 1 as [x l|x y l _ IH]; cbn [map concat]; rewrite lenZ_app.
  - pose proof (lenZ_nonneg (concat (map f l))). lia.
  - pose proof (lenZ_nonneg (f y)). lia.
Qed.

(** Streaming a vector of byte strings. *)
Lemma appendVector_data l s : lenZ (concat (map enc_data l)) < 2 ^ 62 ->
  appendVector (fun x => append_data x false) l s =
  appendRaw (enc_list (concat (map enc_data l))) 1 s.
Proof.
  intros Hl. apply appendVector_ref; [| lia]. apply Forall_forall. intros x Hx s'.
  apply append_data_ref. pose proof (elem_concat_len enc_data l x Hx).
  pose proof (enc_data_grows x). lia.
Qed.

Lemma header_ops_ref h : header_wf h ->
  Forall2 (fun op e => forall s, op s = appendRaw e 1 s) (header_ops h) (header_encs h).
Proof.
  intros (Hh & [_ Hb] & ? & ? & ? & ? & ? & _ & ? & _ & ?). unfold hashes_ok in Hh.
  repeat (apply Forall_cons in Hh as [[_ ?] Hh]).
  repeat constructor; intros s; try (apply append_data_ref; lia);
    try (apply append_bigint_ref; lia); by apply appendVector_data.
Qed.

Lemma enc_vector_valid l : lenZ (concat (map enc_data l)) < 2 ^ 62 ->
  valid_item (enc_list (concat (map enc_data l))).
Proof. intros H. apply valid_enc_list. unfold size_ok, SIZE_MAX. lia. Qed.

Lemma header_encs_valid h : header_wf h -> Forall valid_item (header_encs h).
Proof.
  intros (Hh & [? Hb] & ? & ? & ? & ? & ? & _ & ? & _ & ?). unfold hashes_ok in Hh.
  repeat (apply Forall_cons in Hh as [[? ?] Hh]).
  repeat constructor; try (apply valid_enc_int; lia); try (by apply enc_vector_valid);
    (apply valid_enc_data; [done | unfold size_ok, SIZE_MAX; lia]).
Qed.

Lemma enc_list_len pl : lenZ pl < 2 ^ 64 -> lenZ (enc_list pl) <= lenZ pl + 9.
Proof.
  intros H. unfold enc_list. rewrite lenZ_app. pose proof (lenZ_nonneg pl).
  pose proof (hdr_len 192 247 (lenZ pl)). lia.
Qed.

Lemma header_encs_len h : header_wf h -> lenZ (concat (header_encs h)) < 2 ^ 63 + 1000.
Proof.
  intros (Hh & [? Hb] & Hn & Hl & Hu & Ht & Hs & _ & He & _ & Hsl). unfold hashes_ok in Hh.
  repeat (apply Forall_cons in Hh as [[? ?] Hh]). unfold header_encs. cbn [concat]. len_simpl.
  pose proof (enc_int_len (m_number h) ltac:(lia)). pose proof (enc_int_len _ Hl).
  pose proof (enc_int_len _ Hu). pose proof (enc_int_len (m_timestamp h) ltac:(lia)).
  pose proof (enc_int_len _ Hs).
  pose proof (enc_list_len (concat (map enc_data (m_extraData h))) ltac:(lia)).
  pose proof (enc_list_len (concat (map enc_data (m_sealerList h))) ltac:(lia)).
  pose proof (enc_data_len (m_parentHash h) ltac:(lia)).
  pose proof (enc_data_len (m_stateRoot h) ltac:(lia)).
  pose proof (enc_data_len (m_transactionsRoot h) ltac:(lia)).
  pose proof (enc_data_len (m_receiptsRoot h) ltac:(lia)).
  pose proof (enc_data_len (m_dbHash h) ltac:(lia)).
  pose proof (enc_data_len (m_logBloom h) ltac:(lia)). lia.
Qed.

(** The RLP form of a well-formed header. *)
Lemma header_encode_ref h : header_wf h ->
  header_encode h = Ok (enc_list (concat (header_encs h))).
Proof.
  intros Hw. pose proof (header_encs_len h Hw). unfold header_encode, streamAll.
  cbn [mbind result_bind appendList Z.eqb negb BasicFields m_out m_listStack emptyStream].
  pose proof (fold_open (fun op => op) (header_ops h) (header_encs h) [] [] []
    ltac:(done) (header_ops_ref h Hw) ltac:(cbn [app]; lia)) as E.
  change (lenZ (header_ops h)) with BasicFields in E. cbn [app] in E. by rewrite E.
Qed.

Lemma toVector_data l : Forall bytes_ok l -> lenZ (concat (map enc_data l)) < 2 ^ 62 ->
  toVector toBytes LaissezFaire (node (enc_list (concat (map enc_data l)))) = Ok l.
Proof.
  intros Hb Hl. apply toVector_ref; [| unfold size_ok, SIZE_MAX; lia |];
    rewrite Forall_forall in *; intros x Hx; specialize (Hb x Hx);
    pose proof (elem_concat_len enc_data l x Hx); pose proof (enc_data_grows x);
    [apply valid_enc_data | apply toBytes_enc]; try done; unfold size_ok, SIZE_MAX; lia.
Qed.

Lemma toVector_hash n l : hashes_ok n l -> lenZ (concat (map enc_data l)) < 2 ^ 62 ->
  toVector (toHash n) LaissezFaire (node (enc_list (concat (map enc_data l)))) = Ok l.
Proof.
  intros Hb Hl. unfold hashes_ok in Hb. apply toVector_ref; [| unfold size_ok, SIZE_MAX; lia |];
    rewrite Forall_forall in *; intros x Hx; destruct (Hb x Hx);
    pose proof (elem_concat_len enc_data l x Hx); pose proof (enc_data_grows x);
    [apply valid_enc_data | apply toHash_enc]; try done; unfold size_ok, SIZE_MAX; lia.
Qed.

Lemma toPositive_enc n : 0 <= n < 2 ^ 63 -> toPositiveInt64 Strict (node (enc_int n)) = Ok n.
Proof.
  intros H. unfold toPositiveInt64. rewrite toInt_I64_enc by done. cbn [mbind result_bind].
  by rewrite (proj2 (Z.ltb_ge _ _)), andb_false_r by lia.
Qed.

Lemma toInt_U64_enc n flags : 0 <= n < 2 ^ 64 -> toInt U64 flags (node (enc_int n)) = Ok n.
Proof.
  intros H. apply toInt_enc; [lia | apply compact_le; cbn; lia |].
  intros x Hx. apply wrap_small. lia.
Qed.

Ltac hash_field := apply toHash_enc; [done | unfold size_ok, SIZE_MAX; lia | done].

Lemma header_populate_ref h h0 r : header_wf h -> cache_ok (header_encs h) r ->
  header_populate r h0 = Ok (set_hash (m_hash h0) h).
Proof.
  intros Hw Hc. pose proof (header_encs_valid h Hw) as Hv.
  destruct Hw as (Hh & [? ?] & ? & ? & ? & ? & ? & ? & ? & ? & ?). unfold hashes_ok in Hh.
  repeat (apply Forall_cons in Hh as [[? ?] Hh]). unfold header_populate.
  do 6 (read_field Hv Hc ltac:(hash_field)).
  read_field Hv Hc ltac:(by apply toPositive_enc).
  do 2 (read_field Hv Hc ltac:(by apply toInt_U256_enc)).
  read_field Hv Hc ltac:(by apply toInt_U64_enc).
  read_field Hv Hc ltac:(by apply toVector_data).
  read_field Hv Hc ltac:(by apply toInt_U256_enc).
  read_field Hv Hc ltac:(by apply toVector_hash). done.
Qed.

(** ** The memoised hash *)

(** The updates of a header other than [populate]. *)
Inductive header_op : Type :=
  | OParentHash (x : h256) | ORoots (a b c : h256) | ODBhash (x : h256) | OLogBloom (x : bytes)
  | ONumber (x : Z) | OGasLimit (x : Z) | OGasUsed (x : Z) | OAppendExtra (x : bytes)
  | OExtra (x : bytes) (i : nat) | OExtraAll (x : list bytes) | OTimestamp (x : Z)
  | OSealer (x : Z) | OSealerList (x : list h512) | OStateRoot (x : h256) | OTxRoot (x : h256)
  | OReceiptsRoot (x : h256) | OClear | OFromParent (p : BlockHeader)
  (** a call of [hash()], which fills the memo *)
  | OHash
  (** [operator=] *)
  | OAssign (other : BlockHeader).

Section Memo.
Context `{Crypto}.

Definition header_step (o : header_op) (h : BlockHeader) : result BlockHeader :=
  match o with
  | OParentHash x => Ok (setParentHash x h)
  | ORoots a b c => Ok (setRoots a b c h)
  | ODBhash x => Ok (setDBhash x h)
  | OLogBloom x => Ok (setLogBloom x h)
  | ONumber x => Ok (setNumber x h)
  | OGasLimit x => Ok (setGasLimit x h)
  | OGasUsed x => Ok (setGasUsed x h)
  | OAppendExtra x => Ok (appendExtraDataArray x h)
  | OExtra x i => Ok (snd (setExtraData x i h))
  | OExtraAll x => Ok (setExtraDataAll x h)
  | OTimestamp x => Ok (setTimestamp x h)
  | OSealer x => Ok (setSealer x h)
  | OSealerList x => Ok (setSealerList x h)
  | OStateRoot x => Ok (setStateRoot x h)
  | OTxRoot x => Ok (setTransactionsRoot x h)
  | OReceiptsRoot x => Ok (setReceiptsRoot x h)
  | OClear => Ok (header_clear h)
  | OFromParent p => fst <$> populateFromParent p h
  | OHash => snd <$> header_hash h
  | OAssign other => fst <$> header_copy other
  end.

Fixpoint header_run (os : list header_op) (h : BlockHeader) : result BlockHeader :=
  match os with
  | [] => Ok h
  | o :: os' => h' ← header_step o h; header_run os' h'
  end.

(** The memo is empty or the hash of the encoding. *)
Definition memo_ok (h : BlockHeader) : Prop :=
  m_hash h = h256_0 \/ exists bs, header_encode h = Ok bs /\ m_hash h = sha3 bs.

Lemma encode_memo x h : header_encode (set_hash x h) = header_encode h.
Proof. reflexivity. Qed.

Lemma header_hash_spec h bs : memo_ok h -> header_encode h = Ok bs ->
  header_hash h = Ok (sha3 bs, set_hash (sha3 bs) h).
Proof.
  unfold header_hash. intros Hm E. rewrite E. case_bool_decide; [done |].
  destruct Hm as [|(bs' & E' & Hm)]; [done |]. replace (sha3 bs) with (m_hash h) by congruence.
  by destruct h.
Qed.

Lemma header_hash_memo_ok h x h' : memo_ok h -> header_hash h = Ok (x, h') ->
  memo_ok h' /\ x = m_hash h' /\ header_encode h' = header_encode h.
Proof.
  unfold header_hash. intros Hm. case_bool_decide.
  - destruct (header_encode h) as [bs|] eqn:E; [| done]. intros [= <- <-].
    split; [right; exists bs; by rewrite encode_memo | done].
  - intros [= <- <-]. done.
Qed.

(** Operands of an update are headers with a good memo themselves. *)
Definition op_ok (o : header_op) : Prop :=
  match o with OFromParent p => memo_ok p | OAssign other => memo_ok other | _ => True end.

Lemma header_step_memo o h h' : op_ok o -> memo_ok h -> header_step o h = Ok h' -> memo_ok h'.
Proof.
  intros Ho Hm. destruct o; cbn [header_step op_ok] in *; try (intros [= <-]; by left).
  - unfold setExtraData. case_step; intros [= <-]; [done | by left].
  - unfold populateFromParent. destruct (header_hash p) as [[x p']|]; [| done].
    intros [= <-]. by left.
  - destruct (header_hash h) as [[x h1]|] eqn:E; [| done]. intros [= <-].
    by apply (header_hash_memo_ok h x).
  - unfold header_copy. destruct (header_hash other) as [[x h1]|] eqn:E; [| done].
    intros [= <-]. destruct (header_hash_memo_ok other x h1 Ho E) as (Hm1 & -> & _).
    by destruct h1.
Qed.
End Memo.

(** ** Properties *)

(** A header decoded from its encoding has the thirteen fields it was
    encoded from; the memoised hash is the one the target object held. *)
Theorem header_wire h h0 :
  header_wf h ->
  exists bs, header_encode h = Ok bs /\ header_decode bs h0 = Ok (set_hash (m_hash h0) h).
Proof.
  intros Hw. eexists. split; [by apply header_encode_ref |].
  pose proof (header_encs_len h Hw).
  assert (size_ok (concat (header_encs h))) as Hs by (unfold size_ok, SIZE_MAX; lia).
  unfold header_decode. rewrite valid_RLP_strict by (by apply valid_enc_list).
  cbn [mbind result_bind]. apply header_populate_ref; [done |].
  by apply cache_fresh, payload_enc_list.
Qed.

(** The memoised hash is never stale: after any sequence of setters,
    clears, assignments, derivations from a parent and calls of [hash()],
    [hash()] returns the hash of the current encoding. *)
Theorem header_hash_fresh `{Crypto} os h bs :
  Forall op_ok os -> header_run os emptyHeader = Ok h -> header_encode h = Ok bs ->
  fst <$> header_hash h = Ok (sha3 bs).
Proof.
  intros Hos Hr He.
  assert (memo_ok h) as Hm.
  { assert (memo_ok emptyHeader) as H0 by (by left). revert Hr H0. generalize emptyHeader.
    induction Hos as [|o os Ho Hos IH]; cbn; intros h0 Hr H0; [congruence |].
    destruct (header_step o h0) as [h1|] eqn:E; [| done]. cbn in Hr.
    apply (IH _ Hr). by apply (header_step_memo o h0). }
  by rewrite (header_hash_spec h bs Hm He).
Qed.

(** [populate] (and [decode]) do not reset the memo: a header whose hash
    was computed before a decode keeps answering with the old hash. *)
Theorem header_populate_stale `{Crypto} h h0 :
  header_wf h -> m_hash h0 <> h256_0 ->
  exists bs h', header_encode h = Ok bs /\ header_decode bs h0 = Ok h' /\
    fst <$> header_hash h' = Ok (m_hash h0).
Proof.
  intros Hw Hne. pose proof (header_encs_len h Hw).
  assert (size_ok (concat (header_encs h))) as Hs by (unfold size_ok, SIZE_MAX; lia).
  eexists _, (set_hash (m_hash h0) h). split; [by apply header_encode_ref |]. split.
  - unfold header_decode. rewrite valid_RLP_strict by (by apply valid_enc_list).
    cbn [mbind result_bind]. apply header_populate_ref; [done |].
    by apply cache_fresh, payload_enc_list.
  - unfold header_hash. cbn [m_hash set_hash]. by rewrite bool_decide_eq_false_2.
Qed.

(** A header derived from its parent by [populateFromParent] and given a
    later timestamp passes [verify] against that parent. *)
Theorem child_header_verifies `{Crypto} parent h s t c p' :
  0 <= m_number parent < INT64_MAX - 1 -> 0 <= m_gasLimit parent ->
  m_timestamp parent < t ->
  populateFromParent parent h = Ok (c, p') ->
  header_verify s parent (setTimestamp t c) = Ok tt.
Proof.
  intros Hn Hg Ht. unfold populateFromParent.
  destruct (header_hash parent) as [[ph p1]|] eqn:E; [| done]. intros [= <- <-].
  unfold header_verify, MaxBlockNumber, INT64_MAX in *.
  cbn [m_number m_gasLimit m_gasUsed m_timestamp m_parentHash setTimestamp noteDirty set_hash].
  rewrite swrap_small by (cbn; lia).
  rewrite (proj2 (Z.leb_gt _ _)), (proj2 (Z.ltb_ge (m_number parent + 1) 0)) by lia. cbn [orb].
  rewrite (proj2 (Z.ltb_ge (m_gasLimit parent) 0)) by lia. rewrite andb_false_r.
  destruct (header_bool parent); [| done].
  case_bool_decide; [| rewrite E]; cbn [mbind result_bind];
    rewrite ?bool_decide_eq_true_2 by done; cbn [negb];
    by rewrite (proj2 (Z.leb_gt _ _)), Z.eqb_refl by lia.
Qed.

(** A header with every field set, for the witnesses. *)
Definition sample_header : BlockHeader :=
  {| m_parentHash := replicate 32 1; m_stateRoot := replicate 32 2;
     m_transactionsRoot := replicate 32 3; m_receiptsRoot := replicate 32 4;
     m_dbHash := replicate 32 5; m_logBloom := LogBloom_0; m_number := 41; m_gasLimit := 300000;
     m_gasUsed := 0; m_timestamp := 1000; m_extraData := [[1; 2]; []]; m_sealer := 2;
     m_sealerList := [replicate 64 7; replicate 64 8]; m_hash := h256_0 |}.

Lemma sample_header_wf : header_wf sample_header.
Proof.
  vm_compute. intuition (try congruence). all: repeat constructor; intros; discriminate.
Qed.

Lemma header_wire_witness :
  exists bs, header_encode sample_header = Ok bs /\
    header_decode bs emptyHeader = Ok sample_header.
Proof. apply (header_wire sample_header emptyHeader). apply sample_header_wf. Defined.

Definition sample_ops : list header_op := [ONumber 5; OHash; OTimestamp 9; OExtraAll [[1]]; OHash].

Lemma header_hash_fresh_witness :
  let C := toy_crypto in
  let h := from_ok emptyHeader (header_run sample_ops emptyHeader) in
  fst <$> header_hash h = Ok (sha3 (from_ok [] (header_encode h))).
Proof.
  intros C h. apply (@header_hash_fresh C sample_ops h).
  - repeat constructor.
  - vm_compute. reflexivity.
  - vm_compute. reflexivity.
Defined.

Lemma header_populate_stale_witness :
  let C := toy_crypto in
  exists bs h', header_encode sample_header = Ok bs /\
    header_decode bs (set_hash (replicate 32 9) emptyHeader) = Ok h' /\
    fst <$> header_hash h' = Ok (replicate 32 9).
Proof.
  intros C. apply (@header_populate_stale C sample_header (set_hash (replicate 32 9) emptyHeader)).
  - apply sample_header_wf.
  - vm_compute. discriminate.
Defined.

Definition sample_child : BlockHeader * BlockHeader :=
  let C := toy_crypto in
  from_ok (emptyHeader, emptyHeader) (populateFromParent sample_header emptyHeader).

Lemma child_header_verifies_witness :
  let C := toy_crypto in
  header_verify CheckEverything sample_header (setTimestamp 1001 (fst sample_child)) = Ok tt.
Proof.
  intros C. apply (@child_header_verifies C sample_header emptyHeader CheckEverything 1001
    (fst sample_child) (snd sample_child)).
  - vm_compute. intuition congruence.
  - vm_compute. discriminate.
  - vm_compute. reflexivity.
  - vm_compute. reflexivity.
Defined.
