(* ===== verification/Block.v ===== *)
(** * Blocks

    [libethcore/Block.h]: the block object the consensus handles, with the
    caches of its encoded transactions and receipts.  The transaction and
    receipt types are parameters. *)

From S2P Require Import Prelude CommonData PBFTMsg BlockHeader.

(** The hash of a header as a value, for the components that only read it: the
    header's memo is left out, it is not observable when it is coherent (see
    [header_hash_fresh]).  Encoding a header only fails on a list of [2^64]
    bytes. *)
Definition hashOf `{Crypto} (h : BlockHeader) : h256 := from_ok h256_0 (fst <$> header_hash h).

Section Block.
Context {Tx Rcpt : Type}.

Record Block := mkBlock {
  b_header : BlockHeader;
  b_transactions : list Tx;
  b_receipts : list Rcpt;
  b_sigList : list (Z * Signature);
  (** encoded transactions and receipts; empty when not up to date *)
  b_txsCache : bytes;
  b_tReceiptsCache : bytes;
  b_transRootCache : h256;
  b_receiptRootCache : h256
}.

Definition emptyBlock : Block := mkBlock emptyHeader [] [] [] [] [] h256_0 h256_0.

Definition getTransactionSize (b : Block) : Z := lenZ (b_transactions b).

Definition isSealed (b : Block) : bool := negb (m_sealer (b_header b) =? Invalid256).

Definition noteChange (b : Block) : Block :=
  mkBlock (b_header b) (b_transactions b) (b_receipts b) (b_sigList b) [] (b_tReceiptsCache b)
    (b_transRootCache b) (b_receiptRootCache b).

Definition noteReceiptChange (b : Block) : Block :=
  mkBlock (b_header b) (b_transactions b) (b_receipts b) (b_sigList b) (b_txsCache b) []
    (b_transRootCache b) (b_receiptRootCache b).

Definition with_header (h : BlockHeader) (b : Block) : Block :=
  mkBlock h (b_transactions b) (b_receipts b) (b_sigList b) (b_txsCache b) (b_tReceiptsCache b)
    (b_transRootCache b) (b_receiptRootCache b).

Definition with_transactions (l : list Tx) (b : Block) : Block :=
  mkBlock (b_header b) l (b_receipts b) (b_sigList b) (b_txsCache b) (b_tReceiptsCache b)
    (b_transRootCache b) (b_receiptRootCache b).

Definition with_receipts (l : list Rcpt) (b : Block) : Block :=
  mkBlock (b_header b) (b_transactions b) l (b_sigList b) (b_txsCache b) (b_tReceiptsCache b)
    (b_transRootCache b) (b_receiptRootCache b).

Definition setTransactions (l : list Tx) (b : Block) : Block := noteChange (with_transactions l b).

Definition appendTransactions (l : list Tx) (b : Block) : Block :=
  noteChange (with_transactions (b_transactions b ++ l) b).

Definition setTransactionReceipts (l : list Rcpt) (b : Block) : Block :=
  noteReceiptChange (with_receipts l b).

Definition setSigList (l : list (Z * Signature)) (b : Block) : Block :=
  mkBlock (b_header b) (b_transactions b) (b_receipts b) l (b_txsCache b) (b_tReceiptsCache b)
    (b_transRootCache b) (b_receiptRootCache b).

Section Reset.
Context `{Crypto}.

(** [resetCurrentBlock]: a parent whose sealer is unset is ignored. *)
Definition resetCurrentBlock (parent : BlockHeader) (b : Block) : result Block :=
  h ← (if negb (m_sealer parent =? Invalid256)
       then fst <$> populateFromParent parent (b_header b) else Ok (b_header b));
  Ok (mkBlock (setSealer Invalid256 h) [] [] [] [] [] (b_transRootCache b) (b_receiptRootCache b)).

Definition setEmptyBlock (timeStamp : Z) (b : Block) : Block :=
  noteReceiptChange (noteChange (with_header
    (setTimestamp timeStamp (setSealer 0 (setGasUsed 0 (setNumber 0 (b_header b))))) b)).

Definition headerHash (b : Block) : h256 := hashOf (b_header b).
End Reset.
End Block.
Arguments Block : clear implicits.

