(* ===== verification/PBFTMsgCache.v ===== *)
(** * The broadcast filter

    [QueueSet] of [libdevcore/Common.h], [PBFTMsgCache] and
    [PBFTBroadcastCache] of [libconsensus/pbft/PBFTMsgCache.h]: which messages
    were already sent to, or received from, each peer. *)

From S2P Require Import Prelude CommonData PBFTMsg.

(** ** A set with a queue of its elements, oldest first *)
Module QueueSet.
Section QueueSet.
Context `{Countable T}.

Record t := mk { m_set : gset T; m_queue : list T }.

Definition empty : t := {| m_set := ∅; m_queue := [] |}.

Definition exist (x : T) (q : t) : bool := bool_decide (x ∈ m_set q).

Definition push (x : T) (q : t) : bool * t :=
  if negb (exist x q) then (true, {| m_set := m_set q ∪ {[x]}; m_queue := m_queue q ++ [x] |})
  else (false, q).

Definition pop (q : t) : bool * t :=
  match m_queue q with
  | [] => (false, q)
  | x :: l => (true, {| m_set := m_set q ∖ {[x]}; m_queue := l |})
  end.

Definition count (x : T) (q : t) : Z := if exist x q then 1 else 0.

Definition size (q : t) : Z := Z.of_nat (base.size (m_set q)).

Definition clear (_ : t) : t := empty.

(** The set holds the elements of the queue, each once. *)
Definition ok (q : t) : Prop := NoDup (m_queue q) /\ m_set q = list_to_set (m_queue q).

Lemma empty_ok : ok empty.
Proof. split; [constructor | done]. Qed.

Lemma push_ok x q : ok q -> ok (snd (push x q)).
Proof.
  intros [Hn Hs]. unfold push, exist. case_bool_decide as Hx; [done |]. cbn. split.
  - apply NoDup_app. split; [done |]. split; [| apply NoDup_singleton].
    intros y Hy Hyx. apply list_elem_of_singleton in Hyx as ->. apply Hx. rewrite Hs.
    by apply elem_of_list_to_set.
  - cbn. rewrite Hs, list_to_set_app_L. cbn. by rewrite union_empty_r_L.
Qed.

Lemma pop_ok q : ok q -> ok (snd (pop q)).
Proof.
  intros [Hn Hs]. unfold pop. destruct (m_queue q) as [|x l] eqn:E; cbn.
  - split; [by rewrite E | by rewrite E].
  - apply NoDup_cons in Hn as [Hx Hn]. split; cbn; [done |]. rewrite Hs. cbn.
    apply set_eq. intros y. rewrite elem_of_difference, elem_of_union, elem_of_singleton,
      elem_of_list_to_set. split; [intros [[->|?] ?]; done | intros Hy; split; [by right | by intros ->]].
Qed.

Lemma size_queue q : ok q -> size q = lenZ (m_queue q).
Proof.
  intros [Hn Hs]. unfold size, lenZ. rewrite Hs. by rewrite size_list_to_set.
Qed.

Lemma push_exist x q : exist x (snd (push x q)) = true.
Proof.
  unfold push. destruct (exist x q) eqn:E; cbn; [done |].
  unfold exist. cbn. apply bool_decide_eq_true. set_solver.
Qed.

Lemma push_size x q : ok q -> size (snd (push x q)) <= size q + 1.
Proof.
  intros Hq. rewrite !size_queue; [| done | by apply push_ok].
  unfold push. case_step; cbn; len_simpl; lia.
Qed.

Lemma pop_size q : ok q -> 0 < size q -> size (snd (pop q)) = size q - 1.
Proof.
  intros Hq. rewrite !size_queue; [| by apply pop_ok | done]. unfold pop.
  destruct (m_queue q) eqn:E; cbn; len_simpl; lia.
Qed.
End QueueSet.
Arguments t T {_ _}.
End QueueSet.

(** ** The cache of one peer *)
Definition c_known : Z := 1024.

(** [insertMessage]. *)
Definition insertMessage (key : chars) (q : QueueSet.t chars) : QueueSet.t chars :=
  let q' := if c_known <? QueueSet.size q then snd (QueueSet.pop q) else q in
  snd (QueueSet.push key q').

Record PBFTMsgCache := mkMsgCache {
  m_knownPrepare : QueueSet.t chars;
  m_knownSign : QueueSet.t chars;
  m_knownCommit : QueueSet.t chars;
  m_knownViewChange : QueueSet.t chars
}.

Definition emptyMsgCache : PBFTMsgCache :=
  mkMsgCache QueueSet.empty QueueSet.empty QueueSet.empty QueueSet.empty.

Definition insertByPacketType (type : Z) (key : chars) (c : PBFTMsgCache) : bool * PBFTMsgCache :=
  if type =? PrepareReqPacket then
    (true, mkMsgCache (insertMessage key (m_knownPrepare c)) (m_knownSign c) (m_knownCommit c)
             (m_knownViewChange c))
  else if type =? SignReqPacket then
    (true, mkMsgCache (m_knownPrepare c) (insertMessage key (m_knownSign c)) (m_knownCommit c)
             (m_knownViewChange c))
  else if type =? CommitReqPacket then
    (true, mkMsgCache (m_knownPrepare c) (m_knownSign c) (insertMessage key (m_knownCommit c))
             (m_knownViewChange c))
  else if type =? ViewChangeReqPacket then
    (true, mkMsgCache (m_knownPrepare c) (m_knownSign c) (m_knownCommit c)
             (insertMessage key (m_knownViewChange c)))
  else (false, c).

Definition cacheOf (type : Z) (c : PBFTMsgCache) : option (QueueSet.t chars) :=
  if type =? PrepareReqPacket then Some (m_knownPrepare c)
  else if type =? SignReqPacket then Some (m_knownSign c)
  else if type =? CommitReqPacket then Some (m_knownCommit c)
  else if type =? ViewChangeReqPacket then Some (m_knownViewChange c)
  else None.

(** [exists(type, key)]. *)
Definition msg_exists (type : Z) (key : chars) (c : PBFTMsgCache) : bool :=
  match cacheOf type c with Some q => QueueSet.exist key q | None => false end.

Definition msgCache_clearAll (c : PBFTMsgCache) : PBFTMsgCache :=
  mkMsgCache (QueueSet.clear (m_knownPrepare c)) (QueueSet.clear (m_knownSign c))
    (QueueSet.clear (m_knownCommit c)) (QueueSet.clear (m_knownViewChange c)).

(** ** The caches of all peers *)
Abbreviation PBFTBroadcastCache := (gmap h512 PBFTMsgCache).

Definition insertKey (id : h512) (type : Z) (key : chars) (b : PBFTBroadcastCache)
    : bool * PBFTBroadcastCache :=
  let c := default emptyMsgCache (b !! id) in
  let '(ok, c') := insertByPacketType type key c in
  (ok, <[id := c']> b).

Definition keyExists (id : h512) (type : Z) (key : chars) (b : PBFTBroadcastCache) : bool :=
  match b !! id with None => false | Some c => msg_exists type key c end.

Definition broadcast_clearAll (b : PBFTBroadcastCache) : PBFTBroadcastCache :=
  msgCache_clearAll <$> b.

(** ** Invariant *)

(** A queue is duplicate free, agrees with its set and stays within
    [c_known + 1] keys. *)
Definition queue_ok (q : QueueSet.t chars) : Prop :=
  QueueSet.ok q /\ QueueSet.size q <= c_known + 1.

Definition msgCache_ok (c : PBFTMsgCache) : Prop :=
  queue_ok (m_knownPrepare c) /\ queue_ok (m_knownSign c) /\ queue_ok (m_knownCommit c) /\
  queue_ok (m_knownViewChange c).

Definition broadcast_ok (b : PBFTBroadcastCache) : Prop := map_Forall (fun _ => msgCache_ok) b.

Lemma queue_empty_ok : queue_ok QueueSet.empty.
Proof. split; [apply QueueSet.empty_ok | done]. Qed.
#[export] Hint Resolve queue_empty_ok : bcos.

Lemma insertMessage_ok key q : queue_ok q -> queue_ok (insertMessage key q).
Proof.
  intros [Hq Hs]. unfold insertMessage, queue_ok. destruct (Z.ltb_spec c_known (QueueSet.size q)).
  - pose proof (QueueSet.pop_ok q Hq) as Hp. split; [by apply QueueSet.push_ok |].
    pose proof (QueueSet.push_size key _ Hp). pose proof (QueueSet.pop_size q Hq).
    unfold c_known in *. lia.
  - split; [by apply QueueSet.push_ok |]. pose proof (QueueSet.push_size key q Hq). lia.
Qed.
#[export] Hint Resolve insertMessage_ok : bcos.

Lemma insertMessage_exist key q : QueueSet.exist key (insertMessage key q) = true.
Proof. apply QueueSet.push_exist. Qed.

Lemma insertByPacketType_ok type key c :
  msgCache_ok c -> msgCache_ok (snd (insertByPacketType type key c)).
Proof.
  unfold insertByPacketType, msgCache_ok. intros (? & ? & ? & ?).
  repeat case_step; cbn; split_and!; eauto with bcos.
Qed.

Lemma emptyMsgCache_ok : msgCache_ok emptyMsgCache.
Proof. split_and!; eauto with bcos. Qed.

Lemma insertKey_ok id type key b : broadcast_ok b -> broadcast_ok (snd (insertKey id type key b)).
Proof.
  intros Hb. unfold insertKey.
  assert (msgCache_ok (default emptyMsgCache (b !! id))) as Hc.
  { destruct (b !! id) eqn:E; [by apply (Hb id) | apply emptyMsgCache_ok]. }
  pose proof (insertByPacketType_ok type key _ Hc) as Hi.
  destruct (insertByPacketType type key _) as [ok c']. cbn in *. by apply map_Forall_insert_2.
Qed.

Lemma clearAll_ok b : broadcast_ok (broadcast_clearAll b).
Proof.
  unfold broadcast_ok, broadcast_clearAll. apply map_Forall_fmap. intros id c _.
  split_and!; eauto with bcos.
Qed.

Definition known_type (type : Z) : bool := (0 <=? type) && (type <=? 3).

Lemma known_cases type : known_type type = true ->
  type = PrepareReqPacket \/ type = SignReqPacket \/ type = CommitReqPacket \/
  type = ViewChangeReqPacket.
Proof.
  unfold known_type, PrepareReqPacket, SignReqPacket, CommitReqPacket, ViewChangeReqPacket.
  intros H. bool_to_prop. lia.
Qed.

Lemma insertKey_exists id type key b : known_type type = true ->
  keyExists id type key (snd (insertKey id type key b)) = true.
Proof.
  intros Ht. unfold insertKey. set (c := default _ _).
  assert (msg_exists type key (snd (insertByPacketType type key c)) = true) as He.
  { destruct (known_cases type Ht) as [-> | [-> | [-> | ->]]]; apply insertMessage_exist. }
  destruct (insertByPacketType type key c) as [ok c']. unfold keyExists. cbn [snd] in *.
  by rewrite lookup_insert_eq.
Qed.

(** The operations of the cache. *)
Inductive broadcast_op : Type :=
  | OInsertKey (id : h512) (type : Z) (key : chars)
  | OClearKeys.

Definition broadcast_step (o : broadcast_op) (b : PBFTBroadcastCache) : PBFTBroadcastCache :=
  match o with
  | OInsertKey id type key => snd (insertKey id type key b)
  | OClearKeys => broadcast_clearAll b
  end.

Definition broadcast_run (os : list broadcast_op) : PBFTBroadcastCache :=
  foldl (fun b o => broadcast_step o b) ∅ os.

Lemma run_ok_from os b : broadcast_ok b -> broadcast_ok (foldl (fun b o => broadcast_step o b) b os).
Proof.
  revert b. induction os as [|o os IH]; cbn; intros b Hb; [done |].
  apply IH. destruct o; [by apply insertKey_ok | apply clearAll_ok].
Qed.

Lemma run_ok os : broadcast_ok (broadcast_run os).
Proof. apply run_ok_from, map_Forall_empty. Qed.

(** *** How long a key stays *)

(** The queue of a peer for a packet type. *)
Definition queueOf (id : h512) (type : Z) (b : PBFTBroadcastCache) : QueueSet.t chars :=
  default QueueSet.empty (b !! id ≫= cacheOf type).

Definition is_insert (o : broadcast_op) : Prop :=
  match o with OInsertKey _ _ _ => True | OClearKeys => False end.

(** The insertions of [os] into the queue of [id] for [type]. *)
Definition goes_to (id : h512) (type : Z) (o : broadcast_op) : Prop :=
  match o with OInsertKey i t _ => i = id /\ t = type | OClearKeys => False end.

#[export] Instance goes_to_dec id type o : Decision (goes_to id type o).
Proof. destruct o; cbn; apply _. Defined.

Definition inserts_for (id : h512) (type : Z) (os : list broadcast_op) : Z :=
  lenZ (filter (goes_to id type) os).

Lemma keyExists_queue id type key b :
  keyExists id type key b = QueueSet.exist key (queueOf id type b).
Proof.
  unfold keyExists, queueOf, msg_exists. destruct (b !! id) as [c|]; [| done]. cbn.
  by destruct (cacheOf type c).
Qed.

Lemma cacheOf_insert type type' key c :
  known_type type = true ->
  cacheOf type (snd (insertByPacketType type' key c)) =
  if bool_decide (type' = type) then insertMessage key <$> cacheOf type c else cacheOf type c.
Proof.
  intros Ht. unfold insertByPacketType.
  destruct (known_cases type Ht) as [-> | [-> | [-> | ->]]];
    repeat case_step; bool_to_prop; subst; try done.
Qed.

Lemma queueOf_insert id type id' type' key b :
  known_type type = true ->
  queueOf id type (snd (insertKey id' type' key b)) =
  if bool_decide (id' = id) then
    if bool_decide (type' = type) then insertMessage key (queueOf id type b) else queueOf id type b
  else queueOf id type b.
Proof.
  intros Ht. unfold insertKey, queueOf. pose proof (cacheOf_insert type type' key
    (default emptyMsgCache (b !! id')) Ht) as Hc.
  destruct (insertByPacketType type' key _) as [ok c']. cbn [snd] in *.
  destruct (bool_decide_reflect (id' = id)) as [->|Hne]; [| by rewrite lookup_insert_ne].
  rewrite lookup_insert_eq. cbn [mbind option_bind]. rewrite Hc.
  case_bool_decide; destruct (b !! id) as [c|]; cbn [default mbind option_bind];
    destruct (known_cases type Ht) as [-> | [-> | [-> | ->]]]; done.
Qed.

Lemma queueOf_ok id type b : broadcast_ok b -> queue_ok (queueOf id type b).
Proof.
  intros Hb. unfold queueOf. destruct (b !! id) as [c|] eqn:E; [| apply queue_empty_ok].
  destruct (Hb id c E) as (? & ? & ? & ?). cbn. unfold cacheOf. repeat case_step; cbn;
    eauto with bcos.
Qed.

(** [key] is queued with at most [n] younger keys behind it. *)
Definition window (key : chars) (n : Z) (q : QueueSet.t chars) : Prop :=
  queue_ok q /\ exists l1 l2, QueueSet.m_queue q = l1 ++ key :: l2 /\ lenZ l2 <= n.

Lemma window_exist key n q : window key n q -> QueueSet.exist key q = true.
Proof.
  intros ([[_ Hs] _] & l1 & l2 & E & _). unfold QueueSet.exist. apply bool_decide_eq_true.
  rewrite Hs, E. apply elem_of_list_to_set, elem_of_app. right. constructor.
Qed.

Lemma push_new_queue (key : chars) q : QueueSet.exist key q = false ->
  QueueSet.m_queue (snd (QueueSet.push key q)) = QueueSet.m_queue q ++ [key].
Proof. intros H. unfold QueueSet.push. by rewrite H. Qed.

Lemma pop_not_exist (key : chars) q : QueueSet.exist key q = false ->
  QueueSet.exist key (snd (QueueSet.pop q)) = false.
Proof.
  unfold QueueSet.exist, QueueSet.pop. intros H. destruct (QueueSet.m_queue q); [done |].
  cbn. apply bool_decide_eq_false in H. apply bool_decide_eq_false.
  by rewrite elem_of_difference; intros [? _].
Qed.

Lemma window_insert_new key q : queue_ok q -> QueueSet.exist key q = false ->
  window key 0 (insertMessage key q).
Proof.
  intros Hq H. split; [by apply insertMessage_ok |]. unfold insertMessage.
  destruct (c_known <? _); rewrite push_new_queue; try (by apply pop_not_exist); try done;
    eexists _, []; done.
Qed.

Lemma window_push key n k q : window key n q ->
  exists l1 l2, QueueSet.m_queue (snd (QueueSet.push k q)) = l1 ++ key :: l2 /\ lenZ l2 <= n + 1.
Proof.
  intros (_ & l1 & l2 & E & Hl). unfold QueueSet.push. destruct (QueueSet.exist k q); cbn.
  - exists l1, l2. split; [done | lia].
  - exists l1, (l2 ++ [k]). rewrite E, <- app_assoc. split; [done |]. len_simpl. lia.
Qed.

(** One more insertion pushes the window by one, and evicts nothing of it
    while fewer than 1024 keys are younger. *)
Lemma window_insert key n k q : n < c_known -> window key n q ->
  window key (n + 1) (insertMessage k q).
Proof.
  intros Hn Hw. pose proof Hw as (Hq & l1 & l2 & E & Hl).
  split; [by apply insertMessage_ok |]. unfold insertMessage.
  destruct (Z.ltb_spec c_known (QueueSet.size q)) as [Hs|]; [| by apply window_push].
  apply window_push. destruct Hq as [Hq Hb]. pose proof (QueueSet.pop_size q Hq).
  split; [split; [by apply QueueSet.pop_ok | unfold c_known in *; lia] |].
  rewrite QueueSet.size_queue, E in Hs by done. len_simpl. unfold QueueSet.pop. rewrite E.
  destruct l1 as [|x l1]; [len_simpl; lia |]. by exists l1, l2.
Qed.

Lemma window_mono key n m q : n <= m -> window key n q -> window key m q.
Proof. intros H (? & l1 & l2 & ? & ?). split; [done |]. exists l1, l2. split; [done | lia]. Qed.

Lemma window_run later b id type key n :
  known_type type = true -> broadcast_ok b -> Forall is_insert later ->
  window key n (queueOf id type b) -> n + inserts_for id type later <= c_known ->
  window key (n + inserts_for id type later)
    (queueOf id type (foldl (fun b o => broadcast_step o b) b later)).
Proof.
  intros Ht Hb Hi. revert b n Hb. induction Hi as [|o later Ho _ IH]; intros b n Hb Hw Hn.
  - cbn. by rewrite Z.add_0_r.
  - destruct o as [id' type' k|]; [| done]. cbn [foldl broadcast_step].
    unfold inserts_for in *. rewrite filter_cons in *.
    pose proof (queueOf_insert id type id' type' k b Ht) as Hq.
    pose proof (insertKey_ok id' type' k b Hb) as Hb'.
    pose proof (lenZ_nonneg (filter (goes_to id type) later)).
    case_decide as Hd.
    + destruct Hd as [-> ->]. rewrite !bool_decide_eq_true_2 in Hq by done. len_simpl.
      eapply window_mono; [| apply (IH _ (n + 1) Hb')]; [lia | | lia].
      rewrite Hq. apply window_insert; [lia | done].
    + apply IH; [done | | done]. rewrite Hq. repeat case_bool_decide; try done. naive_solver.
Qed.

(** ** Properties *)

(** Whatever the sequence of insertions and clears, every queue of every
    peer is duplicate free, agrees with its set, and never holds more than
    1025 keys, one more than the limit the code names. *)
Theorem broadcast_cache_bounded os : broadcast_ok (broadcast_run os).
Proof. apply run_ok. Qed.

(** A new key stays filtered for its peer through the next 1024 insertions
    of the same packet type for that peer, whatever is inserted meanwhile for
    other peers and types: eviction is first in, first out. *)
Theorem broadcast_filter_window os id type key later :
  known_type type = true ->
  keyExists id type key (broadcast_run os) = false ->
  Forall is_insert later -> inserts_for id type later <= 1024 ->
  keyExists id type key (broadcast_run (os ++ OInsertKey id type key :: later)) = true.
Proof.
  intros Ht Hfresh Hins Hn. unfold broadcast_run. rewrite foldl_app. cbn [foldl].
  change (foldl _ ∅ os) with (broadcast_run os). pose proof (run_ok os) as Hb.
  rewrite keyExists_queue in *. eapply window_exist, (window_run later _ id type key 0); try done.
  - by apply insertKey_ok.
  - cbn [broadcast_step]. rewrite queueOf_insert, !bool_decide_eq_true_2 by done.
    apply window_insert_new; [by apply queueOf_ok | done].
Qed.

Lemma broadcast_filter_window_witness :
  keyExists [1] SignReqPacket [65]
    (broadcast_run ([OInsertKey [1] SignReqPacket [67]; OClearKeys] ++
       OInsertKey [1] SignReqPacket [65] ::
       [OInsertKey [1] SignReqPacket [66]; OInsertKey [2] SignReqPacket [65]])) = true.
Proof.
  apply (broadcast_filter_window [OInsertKey [1] SignReqPacket [67]; OClearKeys] [1]
           SignReqPacket [65] [OInsertKey [1] SignReqPacket [66]; OInsertKey [2] SignReqPacket [65]]).
  - reflexivity.
  - vm_compute. reflexivity.
  - repeat constructor.
  - vm_compute. discriminate.
Defined.
