(* ===== verification/PBFTReqCache.v ===== *)
(** * The caches of requests

    [libconsensus/pbft/PBFTReqCache.h] and [PBFTReqCache.cpp]: prepare, sign,
    commit, view-change and future-prepare caches.  The nested
    [std::unordered_map]s are finite maps; where the code iterates over one,
    the order of iteration is the class [MapOrder]. *)

From S2P Require Import Prelude CommonData PBFTMsg BlockHeader Block.

(** [std::unordered_map]: an iteration visits every entry once, in an
    unspecified order. *)
Class MapOrder := {
  order : forall {K A : Type} `{Countable K}, gmap K A -> list (K * A);
  order_perm : forall {K A : Type} `{Countable K} (m : gmap K A), order m ≡ₚ map_to_list m
}.

Definition canonical_order : MapOrder :=
  {| order := fun K A _ _ m => map_to_list m; order_perm := fun K A _ _ m => reflexivity _ |}.

(** ** Two-level maps *)
Section Nested.
Context `{Countable K1, Countable K2} {A : Type}.

(** [cache[k1][k2] = v]. *)
Definition insert2 (k1 : K1) (k2 : K2) (v : A) (m : gmap K1 (gmap K2 A)) : gmap K1 (gmap K2 A) :=
  <[k1 := <[k2 := v]> (default ∅ (m !! k1))]> m.

Definition lookup2 (k1 : K1) (k2 : K2) (m : gmap K1 (gmap K2 A)) : option A :=
  m !! k1 ≫= fun c => c !! k2.

Definition cacheExists (k1 : K1) (k2 : K2) (m : gmap K1 (gmap K2 A)) : bool :=
  match m !! k1 with
  | None => false
  | Some c => match c !! k2 with None => false | Some _ => true end
  end.

Definition getSizeFromCache (k1 : K1) (m : gmap K1 (gmap K2 A)) : Z :=
  match m !! k1 with None => 0 | Some c => Z.of_nat (size c) end.

(** Drop the entries of the submap at [k1] that fail [keep]; an emptied submap
    stays. *)
Definition filterAt (keep : A -> bool) (k1 : K1) (m : gmap K1 (gmap K2 A)) : gmap K1 (gmap K2 A) :=
  match m !! k1 with
  | None => m
  | Some c => <[k1 := filter (fun kv => keep kv.2 = true) c]> m
  end.

(** Drop the entries that fail [keep] everywhere; an emptied submap goes. *)
Definition filterAll (keep : A -> bool) (m : gmap K1 (gmap K2 A)) : gmap K1 (gmap K2 A) :=
  omap (fun c => let c' := filter (fun kv => keep kv.2 = true) c in
                 if (size c' =? 0)%nat then None else Some c') m.
End Nested.

Section PBFTReqCache.
Context `{Crypto} {Tx Rcpt ExecContext : Type}.

Abbreviation Prepare := (PrepareReq (Block Tx Rcpt) ExecContext).

Record PBFTReqCache := mkReqCache {
  m_prepareCache : Prepare;
  m_rawPrepareCache : Prepare;
  m_signCache : gmap h256 (gmap chars PBFTMsg);
  m_recvViewChangeReq : gmap VIEWTYPE (gmap IDXTYPE PBFTMsg);
  m_commitCache : gmap h256 (gmap chars PBFTMsg);
  m_committedPrepareCache : Prepare;
  m_futurePrepareCache : gmap Z Prepare
}.

Definition emptyReqCache : PBFTReqCache :=
  mkReqCache emptyPrepare emptyPrepare ∅ ∅ ∅ emptyPrepare ∅.

(** ** Field updates *)
Definition upd_prepare (p : Prepare) (c : PBFTReqCache) : PBFTReqCache :=
  mkReqCache p (m_rawPrepareCache c) (m_signCache c) (m_recvViewChangeReq c) (m_commitCache c)
    (m_committedPrepareCache c) (m_futurePrepareCache c).
Definition upd_raw (p : Prepare) (c : PBFTReqCache) : PBFTReqCache :=
  mkReqCache (m_prepareCache c) p (m_signCache c) (m_recvViewChangeReq c) (m_commitCache c)
    (m_committedPrepareCache c) (m_futurePrepareCache c).
Definition upd_sign (x : gmap h256 (gmap chars PBFTMsg)) (c : PBFTReqCache) : PBFTReqCache :=
  mkReqCache (m_prepareCache c) (m_rawPrepareCache c) x (m_recvViewChangeReq c) (m_commitCache c)
    (m_committedPrepareCache c) (m_futurePrepareCache c).
Definition upd_viewChange (x : gmap VIEWTYPE (gmap IDXTYPE PBFTMsg)) (c : PBFTReqCache)
    : PBFTReqCache :=
  mkReqCache (m_prepareCache c) (m_rawPrepareCache c) (m_signCache c) x (m_commitCache c)
    (m_committedPrepareCache c) (m_futurePrepareCache c).
Definition upd_commit (x : gmap h256 (gmap chars PBFTMsg)) (c : PBFTReqCache) : PBFTReqCache :=
  mkReqCache (m_prepareCache c) (m_rawPrepareCache c) (m_signCache c) (m_recvViewChangeReq c) x
    (m_committedPrepareCache c) (m_futurePrepareCache c).
Definition upd_committed (p : Prepare) (c : PBFTReqCache) : PBFTReqCache :=
  mkReqCache (m_prepareCache c) (m_rawPrepareCache c) (m_signCache c) (m_recvViewChangeReq c)
    (m_commitCache c) p (m_futurePrepareCache c).
Definition upd_future (x : gmap Z Prepare) (c : PBFTReqCache) : PBFTReqCache :=
  mkReqCache (m_prepareCache c) (m_rawPrepareCache c) (m_signCache c) (m_recvViewChangeReq c)
    (m_commitCache c) (m_committedPrepareCache c) x.

(** ** Queries *)
Definition isExistPrepare (req : Prepare) (c : PBFTReqCache) : bool :=
  bool_decide (block_hash (p_msg (m_rawPrepareCache c)) = block_hash (p_msg req)).

Definition sigKey (m : PBFTMsg) : chars := toHex [] (sig m).

Definition isExistSign (req : PBFTMsg) (c : PBFTReqCache) : bool :=
  cacheExists (block_hash req) (sigKey req) (m_signCache c).

Definition isExistCommit (req : PBFTMsg) (c : PBFTReqCache) : bool :=
  cacheExists (block_hash req) (sigKey req) (m_commitCache c).

Definition isExistViewChange (req : PBFTMsg) (c : PBFTReqCache) : bool :=
  cacheExists (view req) (idx req) (m_recvViewChangeReq c).

Definition getSigCacheSize (h : h256) (c : PBFTReqCache) : Z := getSizeFromCache h (m_signCache c).
Definition getCommitCacheSize (h : h256) (c : PBFTReqCache) : Z :=
  getSizeFromCache h (m_commitCache c).
Definition getViewChangeSize (v : VIEWTYPE) (c : PBFTReqCache) : Z :=
  getSizeFromCache v (m_recvViewChangeReq c).

(** The key is [uint64_t]. *)
Definition futurePrepareCache (number : Z) (c : PBFTReqCache) : option Prepare :=
  m_futurePrepareCache c !! wrap 64 number.

Definition futurePrepareCacheSize (c : PBFTReqCache) : Z := Z.of_nat (size (m_futurePrepareCache c)).

(** ** Additions *)
Definition addRawPrepare (req : Prepare) (c : PBFTReqCache) : PBFTReqCache :=
  upd_prepare emptyPrepare (upd_raw req c).

Definition removeInvalidSignCache (h : h256) (v : VIEWTYPE) (c : PBFTReqCache) : PBFTReqCache :=
  upd_sign (filterAt (fun r => view r =? v) h (m_signCache c)) c.

Definition removeInvalidCommitCache (h : h256) (v : VIEWTYPE) (c : PBFTReqCache) : PBFTReqCache :=
  upd_commit (filterAt (fun r => view r =? v) h (m_commitCache c)) c.

Definition addPrepareReq (req : Prepare) (c : PBFTReqCache) : PBFTReqCache :=
  removeInvalidCommitCache (block_hash (p_msg req)) (view (p_msg req))
    (removeInvalidSignCache (block_hash (p_msg req)) (view (p_msg req)) (upd_prepare req c)).

Definition addSignReq (req : PBFTMsg) (c : PBFTReqCache) : PBFTReqCache :=
  upd_sign (insert2 (block_hash req) (sigKey req) req (m_signCache c)) c.

Definition addCommitReq (req : PBFTMsg) (c : PBFTReqCache) : PBFTReqCache :=
  upd_commit (insert2 (block_hash req) (sigKey req) req (m_commitCache c)) c.

Definition addViewChangeReq (req : PBFTMsg) (c : PBFTReqCache) : PBFTReqCache :=
  upd_viewChange
    (match m_recvViewChangeReq c !! view req with
     | Some vm => <[view req := <[idx req := req]> vm]> (m_recvViewChangeReq c)
     | None => <[view req := {[idx req := req]}]> (m_recvViewChangeReq c)
     end) c.

Definition c_maxFuture : Z := 20.

Definition addFuturePrepareCache (req : Prepare) (c : PBFTReqCache) : PBFTReqCache :=
  if c_maxFuture <=? futurePrepareCacheSize c then c
  else
    let k := wrap 64 (height (p_msg req)) in
    match m_futurePrepareCache c !! k with
    | None => upd_future (<[k := req]> (m_futurePrepareCache c)) c
    | Some _ => c
    end.

Definition updateCommittedPrepare (c : PBFTReqCache) : PBFTReqCache :=
  upd_committed (m_rawPrepareCache c) c.

(** ** Removals *)
Definition delCache (h : h256) (c : PBFTReqCache) : PBFTReqCache :=
  let c1 := upd_commit (delete h (m_commitCache c)) (upd_sign (delete h (m_signCache c)) c) in
  if bool_decide (h = block_hash (p_msg (m_prepareCache c1)))
  then upd_prepare (prepare_clear (m_prepareCache c1)) c1 else c1.

(** The two tests shared by [removeInvalidEntryFromCache] and
    [removeInvalidViewChange]: not below the highest block, and, at its
    height, with its hash. *)
Definition not_stale (highest : BlockHeader) (m : PBFTMsg) : bool :=
  negb ((height m <? m_number highest)
        || ((height m =? m_number highest) && negb (bool_decide (block_hash m = hashOf highest)))).

Definition removeInvalidFutureCache (highest : BlockHeader) (c : PBFTReqCache) : PBFTReqCache :=
  upd_future (filter (fun kv => (kv.1 <=? wrap 64 (m_number highest)) = false)
                (m_futurePrepareCache c)) c.

Definition delInvalidViewChange (highest : BlockHeader) (c : PBFTReqCache) : PBFTReqCache :=
  upd_viewChange (filterAll (not_stale highest) (m_recvViewChangeReq c)) c.

Definition collectGarbage_cache (highest : BlockHeader) (c : PBFTReqCache) : PBFTReqCache :=
  let c1 := upd_sign (filterAll (not_stale highest) (m_signCache c)) c in
  let c2 := upd_commit (filterAll (not_stale highest) (m_commitCache c1)) c1 in
  delInvalidViewChange highest (removeInvalidFutureCache highest c2).

(** [removeInvalidViewChange(view, highest)]: one view only. *)
Definition removeInvalidViewChange (v : VIEWTYPE) (highest : BlockHeader) (c : PBFTReqCache)
    : PBFTReqCache :=
  upd_viewChange (filterAt (not_stale highest) v (m_recvViewChangeReq c)) c.

(** [removeInvalidViewChange(curView)]: every view up to the current one. *)
Definition removeOldViews (curView : VIEWTYPE) (c : PBFTReqCache) : PBFTReqCache :=
  upd_viewChange (filter (fun kv => (kv.1 <=? curView) = false) (m_recvViewChangeReq c)) c.

Definition triggerViewChange (curView : VIEWTYPE) (c : PBFTReqCache) : PBFTReqCache :=
  removeOldViews curView
    (upd_future ∅ (upd_commit ∅ (upd_sign ∅
      (upd_prepare (prepare_clear (m_prepareCache c))
        (upd_raw (prepare_clear (m_rawPrepareCache c)) c))))).

Definition clearAllExceptCommitCache (c : PBFTReqCache) : PBFTReqCache :=
  upd_viewChange ∅ (upd_sign ∅ (upd_prepare (prepare_clear (m_prepareCache c)) c)).

Definition clearAll (c : PBFTReqCache) : PBFTReqCache :=
  upd_commit ∅ (clearAllExceptCommitCache
    (upd_future ∅ (upd_raw (prepare_clear (m_rawPrepareCache c)) c))).

Definition eraseHandledFutureReq (number : Z) (c : PBFTReqCache) : PBFTReqCache :=
  upd_future (delete (wrap 64 number) (m_futurePrepareCache c)) c.

(** ** The signature list of a committed block *)

(** [Signature(std::string)]: from hex, all zero on a wrong size. *)
Definition signature_of_hex (s : chars) : result Signature :=
  bs ← fromHex s ThrowOnBad; Ok (fixedHash 65 bs).

Section Ordered.
Context `{MapOrder}.

Definition sigListOf (cs : list (chars * PBFTMsg)) : result (list (Z * Signature)) :=
  RLP.mapM_result (fun kv => s ← signature_of_hex kv.1; Ok (idx kv.2, s)) cs.

(** [generateAndSetSigList]: whether the list was set, and the block. *)
Definition generateAndSetSigList (b : Block Tx Rcpt) (minSigSize : IDXTYPE) (c : PBFTReqCache)
    : result (bool * Block Tx Rcpt) :=
  match m_commitCache c !! block_hash (p_msg (m_prepareCache c)) with
  | None => Ok (false, b)
  | Some cs =>
      sig_list ← sigListOf (order cs);
      if lenZ sig_list <? minSigSize then Ok (false, b) else Ok (true, setSigList sig_list b)
  end.

(** ** Can a view change be triggered *)
Record vcAcc := mkAcc { idx_view_map : gmap IDXTYPE VIEWTYPE; minView : VIEWTYPE; min_height : Z }.

Definition vc_entry (v : VIEWTYPE) (highest : BlockHeader) (a : vcAcc) (kv : IDXTYPE * PBFTMsg)
    : vcAcc :=
  let it := idx_view_map a !! kv.1 in
  if (match it with None => true | Some v0 => v0 <? v end)
     && (m_number highest <=? height kv.2)
  then {| idx_view_map := <[kv.1 := v]> (idx_view_map a);
          minView := if v <? minView a then v else minView a;
          min_height := if height kv.2 <? min_height a then height kv.2 else min_height a |}
  else a.

Definition vc_view (toView : VIEWTYPE) (highest : BlockHeader) (a : vcAcc)
    (item : VIEWTYPE * gmap IDXTYPE PBFTMsg) : vcAcc :=
  if toView <? item.1 then foldl (vc_entry item.1 highest) a (order item.2) else a.

Definition vc_scan (toView : VIEWTYPE) (highest : BlockHeader) (c : PBFTReqCache) : vcAcc :=
  foldl (vc_view toView highest) {| idx_view_map := ∅; minView := MAXVIEW; min_height := INT64_MAX |}
    (order (m_recvViewChangeReq c)).

(** [canTriggerViewChange]: the answer and [minView]; [count] is a [uint16_t]. *)
Definition canTriggerViewChange (maxInvalidNodeNum : IDXTYPE) (toView : VIEWTYPE)
    (highest : BlockHeader) (consensusBlockNumber : Z) (c : PBFTReqCache) : bool * VIEWTYPE :=
  let a := vc_scan toView highest c in
  let count := wrap 16 (Z.of_nat (size (idx_view_map a))) in
  let flag := (min_height a =? consensusBlockNumber)
              && (min_height a =? height (p_msg (m_committedPrepareCache c))) in
  ((maxInvalidNodeNum <? count) && negb flag, minView a).
End Ordered.
End PBFTReqCache.
Arguments PBFTReqCache : clear implicits.

(** ** Facts on two-level maps *)
Section NestedFacts.
Context `{Countable K1, Countable K2} {A : Type}.
Implicit Types m : gmap K1 (gmap K2 A).

Lemma lookup2_insert2 a b k1 k2 (v : A) m :
  lookup2 a b (insert2 k1 k2 v m) =
  if decide (k1 = a /\ k2 = b) then Some v else lookup2 a b m.
Proof.
  unfold lookup2, insert2. destruct (decide (k1 = a)) as [->|Hne].
  - rewrite lookup_insert_eq. cbn. destruct (decide (k2 = b)) as [->|Hne'].
    + by rewrite lookup_insert_eq, decide_True.
    + rewrite lookup_insert_ne, decide_False by (try intros [??]; done). by destruct (m !! a).
  - rewrite lookup_insert_ne, decide_False by (try intros [??]; done). done.
Qed.

Lemma lookup2_filterAt a b keep k1 m x :
  lookup2 a b (filterAt keep k1 m) = Some x ->
  lookup2 a b m = Some x /\ (a = k1 -> keep x = true).
Proof.
  unfold lookup2, filterAt. destruct (m !! k1) as [c|] eqn:E.
  - destruct (decide (k1 = a)) as [->|Hne].
    + rewrite lookup_insert_eq, E. cbn. intros Hx. apply map_lookup_filter_Some in Hx as [? ?]. done.
    + rewrite lookup_insert_ne by done. naive_solver.
  - intros Hx. split; [done |]. intros ->. by rewrite E in Hx.
Qed.

Lemma lookup2_filterAll a b keep m x :
  lookup2 a b (filterAll keep m) = Some x -> lookup2 a b m = Some x /\ keep x = true.
Proof.
  unfold lookup2, filterAll. rewrite lookup_omap. destruct (m !! a) as [c|]; [| done]. cbn.
  destruct (_ =? _)%nat; [done |]. cbn. intros Hx. by apply map_lookup_filter_Some in Hx as [? ?].
Qed.

Lemma lookup2_delete a b k1 m x :
  lookup2 a b (delete k1 m) = Some x -> lookup2 a b m = Some x /\ a <> k1.
Proof.
  unfold lookup2. destruct (decide (k1 = a)) as [->|Hne].
  - by rewrite lookup_delete_eq.
  - rewrite lookup_delete_ne by done. naive_solver.
Qed.

Lemma lookup2_empty a b : lookup2 a b (∅ : gmap K1 (gmap K2 A)) = None.
Proof. unfold lookup2. by rewrite lookup_empty. Qed.

Lemma cacheExists_lookup2 a b m : cacheExists a b m = true <-> is_Some (lookup2 a b m).
Proof.
  unfold cacheExists, lookup2. destruct (m !! a) as [c|]; cbn.
  - destruct (c !! b); split; done.
  - split; done.
Qed.
End NestedFacts.

(** ** Well-formed caches *)
Section WellFormed.
Context `{Crypto} {Tx Rcpt ExecContext : Type}.
Abbreviation Prepare := (PrepareReq (Block Tx Rcpt) ExecContext).
Abbreviation Cache := (PBFTReqCache Tx Rcpt ExecContext).

(** Every entry is filed under its own hash and signature, or view and index;
    at most 20 future prepares, filed under their height. *)
Record cache_wf (c : Cache) : Prop := {
  wf_sign : forall h k m, lookup2 h k (m_signCache c) = Some m -> block_hash m = h /\ sigKey m = k;
  wf_commit : forall h k m, lookup2 h k (m_commitCache c) = Some m -> block_hash m = h /\ sigKey m = k;
  wf_view : forall v i m, lookup2 v i (m_recvViewChangeReq c) = Some m -> view m = v /\ idx m = i;
  wf_future : forall k p, m_futurePrepareCache c !! k = Some p -> wrap 64 (height (p_msg p)) = k;
  wf_futureSize : futurePrepareCacheSize c <= c_maxFuture
}.

Lemma emptyReqCache_wf : cache_wf emptyReqCache.
Proof. split; intros *; cbn; rewrite ?lookup2_empty, ?lookup_empty; done. Qed.

(** The operations of the cache. *)
Inductive cache_op : Type :=
  | CAddRaw (p : Prepare) | CAddPrepare (p : Prepare) | CAddSign (m : PBFTMsg)
  | CAddCommit (m : PBFTMsg) | CAddViewChange (m : PBFTMsg) | CAddFuture (p : Prepare)
  | CCommitted | CTrigger (v : VIEWTYPE) | CDel (h : h256) | CGarbage (b : BlockHeader)
  | CRemoveViewChange (v : VIEWTYPE) (b : BlockHeader) | CDelViewChange (b : BlockHeader)
  | CRemoveFuture (b : BlockHeader) | CErase (n : Z) | CClear | CClearExceptCommit.

Definition cache_step (o : cache_op) (c : Cache) : Cache :=
  match o with
  | CAddRaw p => addRawPrepare p c
  | CAddPrepare p => addPrepareReq p c
  | CAddSign m => addSignReq m c
  | CAddCommit m => addCommitReq m c
  | CAddViewChange m => addViewChangeReq m c
  | CAddFuture p => addFuturePrepareCache p c
  | CCommitted => updateCommittedPrepare c
  | CTrigger v => triggerViewChange v c
  | CDel h => delCache h c
  | CGarbage b => collectGarbage_cache b c
  | CRemoveViewChange v b => removeInvalidViewChange v b c
  | CDelViewChange b => delInvalidViewChange b c
  | CRemoveFuture b => removeInvalidFutureCache b c
  | CErase n => eraseHandledFutureReq n c
  | CClear => clearAll c
  | CClearExceptCommit => clearAllExceptCommitCache c
  end.

Lemma addViewChangeReq_eq m (c : Cache) :
  addViewChangeReq m c = upd_viewChange (insert2 (view m) (idx m) m (m_recvViewChangeReq c)) c.
Proof.
  unfold addViewChangeReq, insert2. destruct (m_recvViewChangeReq c !! view m); [done |].
  by rewrite <- insert_empty.
Qed.

Lemma upd_view_wf (c : Cache) x :
  cache_wf c -> (forall v i m, lookup2 v i x = Some m -> view m = v /\ idx m = i) ->
  cache_wf (upd_viewChange x c).
Proof. intros [] Hx. by split. Qed.

Lemma upd_sign_wf (c : Cache) x :
  cache_wf c -> (forall h k m, lookup2 h k x = Some m -> block_hash m = h /\ sigKey m = k) ->
  cache_wf (upd_sign x c).
Proof. intros [] Hx. by split. Qed.

Lemma upd_commit_wf (c : Cache) x :
  cache_wf c -> (forall h k m, lookup2 h k x = Some m -> block_hash m = h /\ sigKey m = k) ->
  cache_wf (upd_commit x c).
Proof. intros [] Hx. by split. Qed.

Lemma upd_future_wf (c : Cache) x :
  cache_wf c -> x ⊆ m_futurePrepareCache c -> cache_wf (upd_future x c).
Proof.
  intros Hc Hx. pose proof (map_subseteq_size _ _ Hx). destruct Hc. split; try done.
  - cbn. intros k p Hk. apply wf_future0. by eapply lookup_weaken.
  - unfold futurePrepareCacheSize in *. cbn. lia.
Qed.

Lemma upd_prepare_wf p (c : Cache) : cache_wf c -> cache_wf (upd_prepare p c).
Proof. intros []. by split. Qed.
Lemma upd_raw_wf p (c : Cache) : cache_wf c -> cache_wf (upd_raw p c).
Proof. intros []. by split. Qed.
Lemma upd_committed_wf p (c : Cache) : cache_wf c -> cache_wf (upd_committed p c).
Proof. intros []. by split. Qed.

(** A submap of a well-formed cache: filtered, deleted or emptied. *)
Ltac sub_cache :=
  intros ? ? ? Hsub;
  repeat first
    [ apply lookup2_filterAt in Hsub as [Hsub ?]
    | apply lookup2_filterAll in Hsub as [Hsub ?]
    | apply lookup2_delete in Hsub as [Hsub ?]
    | by rewrite lookup2_empty in Hsub ];
  eauto using wf_sign, wf_commit, wf_view.

Ltac ins_cache :=
  intros ? ? ? Hins; rewrite lookup2_insert2 in Hins; case_decide; simplify_eq;
  [naive_solver | eauto using wf_sign, wf_commit, wf_view].

Lemma addFuture_wf p (c : Cache) : cache_wf c -> cache_wf (addFuturePrepareCache p c).
Proof.
  intros Hc. unfold addFuturePrepareCache. destruct (Z.leb_spec c_maxFuture (futurePrepareCacheSize c));
    [done |].
  destruct (m_futurePrepareCache c !! _) eqn:E; [done |]. destruct Hc. split; try done; cbn.
  - intros k q. destruct (decide (wrap 64 (height (p_msg p)) = k)) as [<-|].
    + rewrite lookup_insert_eq. by intros [= <-].
    + rewrite lookup_insert_ne by done. apply wf_future0.
  - unfold futurePrepareCacheSize in *. cbn. rewrite map_size_insert_None by done. lia.
Qed.

Lemma removeOldViews_lookup2 v v' i (c : Cache) m :
  lookup2 v' i (m_recvViewChangeReq (removeOldViews v c)) = Some m ->
  lookup2 v' i (m_recvViewChangeReq c) = Some m /\ v < v'.
Proof.
  unfold lookup2. cbn. destruct (filter _ _ !! v') as [x|] eqn:E; [| done]. cbn. intros Hm.
  apply map_lookup_filter_Some in E as [E Hv]. cbn in Hv. rewrite E. split; [done |].
  bool_to_prop. lia.
Qed.

Lemma trigger_wf v (c : Cache) : cache_wf c -> cache_wf (triggerViewChange v c).
Proof.
  intros Hc. apply upd_view_wf.
  - apply upd_future_wf; [| apply map_empty_subseteq].
    apply upd_commit_wf; [apply upd_sign_wf |]; [by apply upd_prepare_wf, upd_raw_wf | sub_cache..].
  - intros v' i m Hm. apply (removeOldViews_lookup2 v) in Hm as [Hm _]. by apply (wf_view c).
Qed.

Lemma clearExcept_wf (c : Cache) : cache_wf c -> cache_wf (clearAllExceptCommitCache c).
Proof.
  intros Hc. apply upd_view_wf; [apply upd_sign_wf |]; [by apply upd_prepare_wf | sub_cache..].
Qed.

Lemma removeFuture_wf b (c : Cache) : cache_wf c -> cache_wf (removeInvalidFutureCache b c).
Proof. intros Hc. apply upd_future_wf; [done | apply map_filter_subseteq]. Qed.

Lemma delViewChange_wf b (c : Cache) : cache_wf c -> cache_wf (delInvalidViewChange b c).
Proof. intros Hc. apply upd_view_wf; [done | sub_cache]. Qed.

Lemma cache_step_wf o (c : Cache) : cache_wf c -> cache_wf (cache_step o c).
Proof.
  intros Hc. destruct o; cbn [cache_step].
  - by apply upd_prepare_wf, upd_raw_wf.
  - unfold addPrepareReq. apply upd_commit_wf; [apply upd_sign_wf |]; [by apply upd_prepare_wf | ..];
      sub_cache.
  - apply upd_sign_wf; [done | ins_cache].
  - apply upd_commit_wf; [done | ins_cache].
  - rewrite addViewChangeReq_eq. apply upd_view_wf; [done | ins_cache].
  - by apply addFuture_wf.
  - by apply upd_committed_wf.
  - by apply trigger_wf.
  - assert (cache_wf (upd_commit (delete h (m_commitCache c)) (upd_sign (delete h (m_signCache c)) c))).
    { apply upd_commit_wf; [apply upd_sign_wf; [done |] |]; sub_cache. }
    unfold delCache. case_step; [by apply upd_prepare_wf | done].
  - apply delViewChange_wf, removeFuture_wf, upd_commit_wf; [apply upd_sign_wf; [done |] |]; sub_cache.
  - apply upd_view_wf; [done | sub_cache].
  - by apply delViewChange_wf.
  - by apply removeFuture_wf.
  - apply upd_future_wf; [done | apply delete_subseteq].
  - apply upd_commit_wf; [| sub_cache]. apply clearExcept_wf.
    apply upd_future_wf; [by apply upd_raw_wf | apply map_empty_subseteq].
  - by apply clearExcept_wf.
Qed.
End WellFormed.

(** ** The scan of the view-change requests *)
Section Scan.
Context `{Crypto} {Tx Rcpt ExecContext : Type}.
Abbreviation Cache := (PBFTReqCache Tx Rcpt ExecContext).
Implicit Types c : Cache.

Lemma elem_order `{MapOrder} `{Countable K} {A} (m : gmap K A) k x :
  (k, x) ∈ order m <-> m !! k = Some x.
Proof. by rewrite (order_perm m), elem_of_map_to_list. Qed.

(** The entries in the order they are visited. *)
Definition vc_visits (O : MapOrder) (toView : VIEWTYPE) c : list (VIEWTYPE * (IDXTYPE * PBFTMsg)) :=
  concat (map (fun item : VIEWTYPE * gmap IDXTYPE PBFTMsg =>
                 if toView <? item.1 then map (pair item.1) (order item.2) else [])
            (order (m_recvViewChangeReq c))).

Definition vc_init : vcAcc := {| idx_view_map := ∅; minView := MAXVIEW; min_height := INT64_MAX |}.

Definition vc_fold (highest : BlockHeader) (a : vcAcc) (l : list (VIEWTYPE * (IDXTYPE * PBFTMsg)))
    : vcAcc := foldl (fun a e => vc_entry e.1 highest a e.2) a l.

Lemma vc_scan_visits (O : MapOrder) toView highest c :
  vc_scan toView highest c = vc_fold highest vc_init (vc_visits O toView c).
Proof.
  unfold vc_scan, vc_visits. fold vc_init. generalize vc_init.
  induction (order (m_recvViewChangeReq c)) as [|item l IH]; intros a; [done |].
  cbn [foldl map concat]. rewrite IH. unfold vc_fold. rewrite foldl_app. f_equal.
  unfold vc_view. destruct (toView <? item.1); [| done].
  clear. revert a. induction (order item.2) as [|kv l IH]; intros a; [done |]. apply IH.
Qed.

Lemma elem_visits (O : MapOrder) toView c v i m :
  (v, (i, m)) ∈ vc_visits O toView c <->
  lookup2 v i (m_recvViewChangeReq c) = Some m /\ toView < v.
Proof.
  unfold vc_visits, lookup2. rewrite list_elem_of_In, in_concat. split.
  - intros (l & Hl & Hin). apply in_map_iff in Hl as ([v' vm] & <- & Hitem).
    apply list_elem_of_In, elem_order in Hitem. cbn [fst snd] in Hin.
    destruct (Z.ltb_spec toView v'); [| done].
    apply in_map_iff in Hin as ([i' m'] & [= <- <- <-] & Hm).
    apply list_elem_of_In, elem_order in Hm. by rewrite Hitem.
  - intros [Hl Hv]. destruct (m_recvViewChangeReq c !! v) as [vm|] eqn:E; [| done].
    exists (map (pair v) (order vm)). split.
    + apply in_map_iff. exists (v, vm). cbn [fst snd]. rewrite (proj2 (Z.ltb_lt _ _)) by done.
      split; [done |]. by apply list_elem_of_In, elem_order.
    + apply in_map_iff. exists (i, m). split; [done |]. by apply list_elem_of_In, elem_order.
Qed.

(** A request that counts: not below the highest block. *)
Definition vc_counts (highest : BlockHeader) (m : PBFTMsg) : Prop := m_number highest <= height m.

(** [v] is the highest view among the requests of [l] that count for node [i]. *)
Definition top_view (highest : BlockHeader) (l : list (VIEWTYPE * (IDXTYPE * PBFTMsg))) (i : IDXTYPE)
    (v : VIEWTYPE) : Prop :=
  (exists m, (v, (i, m)) ∈ l /\ vc_counts highest m) /\
  (forall v' m, (v', (i, m)) ∈ l -> vc_counts highest m -> v' <= v).

Record scan_inv (highest : BlockHeader) (l : list (VIEWTYPE * (IDXTYPE * PBFTMsg))) (a : vcAcc) : Prop := {
  scan_some : forall i v, idx_view_map a !! i = Some v -> top_view highest l i v;
  scan_none : forall i v m, idx_view_map a !! i = None -> (v, (i, m)) ∈ l -> ~ vc_counts highest m;
  scan_min : minView a <= MAXVIEW /\
    (minView a = MAXVIEW \/ exists i m, (minView a, (i, m)) ∈ l /\ vc_counts highest m)
}.

Lemma scan_step highest l a e :
  scan_inv highest l a -> scan_inv highest (l ++ [e]) (vc_entry e.1 highest a e.2).
Proof.
  destruct e as [v [i m]]. intros [Hs Hn Hm]. unfold vc_entry. cbn [fst snd].
  assert (forall x, x ∈ l ++ [(v, (i, m))] <-> x ∈ l \/ x = (v, (i, m))) as Hin.
  { intros x. by rewrite elem_of_app, list_elem_of_singleton. }
  assert (forall i' v', top_view highest l i' v' ->
    (i' = i -> vc_counts highest m -> v <= v') -> top_view highest (l ++ [(v, (i, m))]) i' v') as Hkeep.
  { intros i' v' [(m' & Hm' & Hc) Hmax] Hle. split.
    - exists m'. split; [apply Hin; by left | done].
    - intros v2 m2 H2 Hc2. apply Hin in H2 as [H2|[= -> -> ->]]; eauto. }
  destruct (_ && _) eqn:E.
  - bool_to_prop. split; cbn [idx_view_map minView].
    + intros i' v'. destruct (decide (i = i')) as [<-|Hne].
      * rewrite lookup_insert_eq. intros [= <-]. split.
        { exists m. split; [apply Hin; by right | done]. }
        intros v2 m2 H2 Hc2. apply Hin in H2 as [H2|[= -> ->]]; [| lia].
        destruct (idx_view_map a !! i) as [v0|] eqn:E0; [| by destruct (Hn _ _ _ E0 H2)].
        bool_to_prop. destruct (Hs _ _ E0) as [_ Hmax]. specialize (Hmax _ _ H2 Hc2). lia.
      * rewrite lookup_insert_ne by done. intros Hv. apply Hkeep; [by apply Hs | congruence].
    + intros i' v' m'. destruct (decide (i = i')) as [<-|Hne]; [by rewrite lookup_insert_eq |].
      rewrite lookup_insert_ne by done. intros Hnone Hx. apply Hin in Hx as [Hx|[= -> -> ->]]; eauto.
    + destruct Hm as [Hle Hor]. destruct (Z.ltb_spec v (minView a)).
      * split; [lia |]. right. exists i, m. split; [apply Hin; by right | done].
      * split; [lia |]. destruct Hor as [?|(i' & m' & ? & ?)]; [by left | right].
        exists i', m'. split; [apply Hin; by left | done].
  - assert (vc_counts highest m -> exists v0 : VIEWTYPE, idx_view_map a !! i = Some v0 /\ v <= v0) as Hold.
    { intros Hc. unfold vc_counts in Hc. rewrite (proj2 (Z.leb_le _ _)), andb_true_r in E by done.
      destruct (idx_view_map a !! i) as [v0|]; [| done]. exists v0. bool_to_prop. done. }
    split.
    + intros i' v' Hv. apply Hkeep; [by apply Hs |]. intros -> Hc.
      destruct (Hold Hc) as (v0 & E0 & ?). assert (v0 = v') by congruence. lia.
    + intros i' v' m' Hnone Hx. apply Hin in Hx as [Hx|[= -> -> ->]]; [eauto |].
      intros Hc. destruct (Hold Hc) as (v0 & E0 & _). congruence.
    + destruct Hm as [Hle [?|(i' & m' & ? & ?)]]; split; try done; [by left | right].
      exists i', m'. split; [apply Hin; by left | done].
Qed.

Lemma scan_fold highest l2 : forall l1 a,
  scan_inv highest l1 a -> scan_inv highest (l1 ++ l2) (vc_fold highest a l2).
Proof.
  induction l2 as [|e l2 IH]; intros l1 a Ha; [by rewrite app_nil_r |].
  rewrite cons_middle, app_assoc. apply IH. by apply scan_step.
Qed.

Lemma scan_inv_scan (O : MapOrder) toView highest c :
  scan_inv highest (vc_visits O toView c) (vc_scan toView highest c).
Proof.
  rewrite vc_scan_visits. apply (scan_fold highest _ []). split; cbn.
  - intros i v. by rewrite lookup_empty.
  - intros i v m _ Hx. by apply not_elem_of_nil in Hx.
  - split; [done | by left].
Qed.
End Scan.

Lemma trigger_above `{Crypto} {Tx Rcpt ExecContext} (O : MapOrder) f toView highest number
    (c : PBFTReqCache Tx Rcpt ExecContext) v :
  canTriggerViewChange f toView highest number c = (true, v) -> toView < MAXVIEW -> toView < v.
Proof.
  unfold canTriggerViewChange. intros [= _ <-] Hto.
  pose proof (scan_inv_scan O toView highest c) as [_ _ [_ Hm]].
  destruct Hm as [->|(i & m & Hm & _)]; [done |]. by apply elem_visits in Hm as [_ Hm].
Qed.

(** The cache after a sequence of operations. *)
Definition cache_run `{Crypto} {Tx Rcpt ExecContext} (os : list cache_op)
    : PBFTReqCache Tx Rcpt ExecContext :=
  foldl (fun c o => cache_step o c) emptyReqCache os.

Lemma mapM_result_ok {A B} (f : A -> result B) (g : A -> B) l :
  Forall (fun x => f x = Ok (g x)) l -> RLP.mapM_result f l = Ok (map g l).
Proof. induction 1 as [|x l Hx Hl IH]; cbn; [done |]. by rewrite Hx, IH. Qed.

(** Signatures in a cache have their type's size. *)
Definition sig_sized (m : PBFTMsg) : Prop := bytes_ok (sig m) /\ lenZ (sig m) = 65.

Lemma signature_of_key m : sig_sized m -> signature_of_hex (sigKey m) = Ok (sig m).
Proof.
  intros [Hb Hl]. unfold signature_of_hex, sigKey. rewrite fromHex_toHex by done. cbn.
  by rewrite fixedHash_exact.
Qed.

(** ** Properties *)

(** Whatever the sequence of operations, every cached request is filed
    under its own hash and signature (or view and index), and at most 20
    future prepares are kept. *)
Theorem req_cache_wf `{Crypto} {Tx Rcpt ExecContext} os :
  cache_wf (cache_run (Tx := Tx) (Rcpt := Rcpt) (ExecContext := ExecContext) os).
Proof.
  unfold cache_run. pose proof (emptyReqCache_wf (Tx := Tx) (Rcpt := Rcpt)
    (ExecContext := ExecContext)) as H0. revert H0. generalize (@emptyReqCache Tx Rcpt ExecContext).
  induction os as [|o os IH]; cbn; intros c Hc; [done |]. by apply IH, cache_step_wf.
Qed.

(** Whatever the order in which [canTriggerViewChange] visits its hash
    tables, the map it builds gives each node its highest requested view above
    [toView], over the requests not below the highest block. *)
Theorem view_scan_top_views `{Crypto} {Tx Rcpt ExecContext} (O : MapOrder) toView highest
    (c : PBFTReqCache Tx Rcpt ExecContext) i v :
  idx_view_map (vc_scan toView highest c) !! i = Some v <->
  (exists m, lookup2 v i (m_recvViewChangeReq c) = Some m /\ toView < v /\ m_number highest <= height m) /\
  (forall v' m, lookup2 v' i (m_recvViewChangeReq c) = Some m -> toView < v' ->
     m_number highest <= height m -> v' <= v).
Proof.
  pose proof (scan_inv_scan O toView highest c) as [Hs Hn _]. split.
  - intros Hv. destruct (Hs i v Hv) as [(m & Hm & Hc) Hmax]. apply elem_visits in Hm as [Hm Hlt].
    split; [by exists m |]. intros v' m' Hm' Hlt' Hc'. apply (Hmax v' m'); [| done].
    by apply elem_visits.
  - intros [(m & Hm & Hlt & Hc) Hmax].
    assert ((v, (i, m)) ∈ vc_visits O toView c) as Hin by (by apply elem_visits).
    destruct (idx_view_map _ !! i) as [v0|] eqn:E; [| by destruct (Hn i v m E Hin)].
    destruct (Hs i v0 E) as [(m0 & Hm0 & Hc0) Hmax0]. apply elem_visits in Hm0 as [Hm0 Hlt0].
    pose proof (Hmax v0 m0 Hm0 Hlt0 Hc0). pose proof (Hmax0 v m Hin Hc). f_equal. lia.
Qed.

(** A fast view change is triggered only by view-change requests from more
    than [f] distinct nodes, none below the highest block, and the view it
    answers with is above [toView]. *)
Theorem trigger_needs_more_than_f `{Crypto} {Tx Rcpt ExecContext} (O : MapOrder) f toView highest
    number (c : PBFTReqCache Tx Rcpt ExecContext) v :
  canTriggerViewChange f toView highest number c = (true, v) -> toView < MAXVIEW ->
  toView < v /\
  exists nodes : list IDXTYPE, NoDup nodes /\ f < lenZ nodes /\
    forall i, i ∈ nodes -> exists v' m, lookup2 v' i (m_recvViewChangeReq c) = Some m /\
      toView < v' /\ m_number highest <= height m.
Proof.
  intros Htr Hto. split; [by apply (trigger_above O f toView highest number c) |].
  revert Htr. unfold canTriggerViewChange. intros [= E _]. bool_to_prop.
  pose proof (scan_inv_scan O toView highest c) as [Hs _ _].
  exists (map_to_list (idx_view_map (vc_scan toView highest c))).*1. split_and!.
  - apply NoDup_fst_map_to_list.
  - unfold lenZ. rewrite length_fmap, length_map_to_list.
    pose proof (Z.mod_le (Z.of_nat (size (idx_view_map (vc_scan toView highest c)))) (2 ^ 16)).
    unfold wrap in *. lia.
  - intros i Hi. apply list_elem_of_fmap in Hi as ([i' v'] & -> & Hi).
    apply elem_of_map_to_list in Hi. destruct (Hs _ _ Hi) as [(m & Hm' & Hc) _].
    apply elem_visits in Hm' as [? ?]. by exists v', m.
Qed.

(** Another legal order of iteration: backwards. *)
Lemma reverse_order_perm {K A : Type} `{Countable K} (m : gmap K A) :
  reverse (map_to_list m) ≡ₚ map_to_list m.
Proof. apply reverse_Permutation. Qed.

Definition reversed_order : MapOrder :=
  {| order := fun K A _ _ m => reverse (map_to_list m);
     order_perm := fun K A _ _ m => reverse_order_perm m |}.

Definition vc_request (h v i : Z) : PBFTMsg :=
  {| height := h; view := v; idx := i; timestamp := 0; block_hash := h256_0;
     sig := Signature_0; sig2 := Signature_0 |}.

(** Node 1 asked for views 5 (at height 10) and 7 (at height 11). *)
Definition two_requests {Tx Rcpt ExecContext} : PBFTReqCache Tx Rcpt ExecContext :=
  upd_committed {| p_msg := vc_request 10 0 0; block := []; pBlock := None; p_execContext := None |}
    (addViewChangeReq (vc_request 11 7 1) (addViewChangeReq (vc_request 10 5 1) emptyReqCache)).

(** The answer of [canTriggerViewChange], and the view it reports, depend on
    the order in which the hash tables are visited: two orders of the same
    cache give different answers. *)
Theorem trigger_order_dependent {Tx Rcpt ExecContext} :
  exists (c : PBFTReqCache Tx Rcpt ExecContext) (O1 O2 : MapOrder) highest number,
    @canTriggerViewChange _ _ _ O1 0 0 highest number c = (true, 7) /\
    @canTriggerViewChange _ _ _ O2 0 0 highest number c = (false, 5).
Proof.
  exists two_requests.
  first [ exists canonical_order, reversed_order, emptyHeader, 10; split; reflexivity
        | exists reversed_order, canonical_order, emptyHeader, 10; split; reflexivity ].
Qed.

(** A block gets its signature list exactly when the commit cache holds at
    least [minSigSize] requests for the prepared hash; the list is then, in
    some order, the signer index and signature of each of them. *)
Theorem sig_list_from_commits `{Crypto} {Tx Rcpt ExecContext} (O : MapOrder) b minSigSize
    (c : PBFTReqCache Tx Rcpt ExecContext) cs :
  cache_wf c -> m_commitCache c !! block_hash (p_msg (m_prepareCache c)) = Some cs ->
  (forall k m, cs !! k = Some m -> sig_sized m) ->
  exists l, l ≡ₚ map (fun kv => (idx kv.2, sig kv.2)) (map_to_list cs) /\
    generateAndSetSigList b minSigSize c =
    Ok (if Z.of_nat (size cs) <? minSigSize then (false, b) else (true, setSigList l b)).
Proof.
  intros Hwf Hcs Hsz. exists (map (fun kv => (idx kv.2, sig kv.2)) (order cs)). split.
  { by rewrite (order_perm cs). }
  unfold generateAndSetSigList. rewrite Hcs. unfold sigListOf.
  rewrite (mapM_result_ok _ (fun kv => (idx kv.2, sig kv.2))).
  - cbn [mbind result_bind]. unfold lenZ. rewrite length_map, (Permutation_length (order_perm cs)),
      length_map_to_list. by case_step.
  - apply Forall_forall. intros [k m] Hin. apply elem_order in Hin. cbn [fst snd].
    destruct (wf_commit c Hwf (block_hash (p_msg (m_prepareCache c))) k m) as [_ <-].
    { unfold lookup2. by rewrite Hcs. }
    rewrite signature_of_key; [done | by apply (Hsz (sigKey m))].
Qed.

Definition commit_request (i : Z) : PBFTMsg :=
  {| height := 3; view := 0; idx := i; timestamp := 0; block_hash := h256_0;
     sig := replicate 65 i; sig2 := Signature_0 |}.

Definition two_commits : PBFTReqCache unit unit unit :=
  addCommitReq (commit_request 2) (addCommitReq (commit_request 1) emptyReqCache).

Lemma trigger_needs_more_than_f_witness :
  let C := toy_crypto in let O := reversed_order in
  0 < 7 /\
  exists nodes : list IDXTYPE, NoDup nodes /\ 0 < lenZ nodes /\
    forall i, i ∈ nodes -> exists v' m,
      lookup2 v' i (m_recvViewChangeReq (two_requests (Tx := unit) (Rcpt := unit)
        (ExecContext := unit))) = Some m /\ 0 < v' /\ m_number emptyHeader <= height m.
Proof.
  intros C O.
  first [ apply (@trigger_needs_more_than_f C unit unit unit reversed_order 0 0 emptyHeader 10
            two_requests 7); [reflexivity | reflexivity]
        | apply (@trigger_needs_more_than_f C unit unit unit canonical_order 0 0 emptyHeader 10
            two_requests 7); [reflexivity | reflexivity] ].
Defined.

Definition two_entries : gmap chars PBFTMsg :=
  <[sigKey (commit_request 2) := commit_request 2]>
    (<[sigKey (commit_request 1) := commit_request 1]> ∅).

Lemma sig_list_from_commits_witness :
  let C := toy_crypto in let O := canonical_order in
  exists l, l ≡ₚ map (fun kv => (idx kv.2, sig kv.2)) (map_to_list two_entries) /\
    generateAndSetSigList emptyBlock 2 two_commits = Ok (true, setSigList l emptyBlock).
Proof.
  intros C O. apply (@sig_list_from_commits C unit unit unit canonical_order emptyBlock 2
    two_commits two_entries).
  - apply (cache_step_wf (CAddCommit (commit_request 2))), (cache_step_wf (CAddCommit (commit_request 1))),
      emptyReqCache_wf.
  - reflexivity.
  - unfold two_entries. intros k m Hk.
    apply lookup_insert_Some in Hk as [[_ <-]|[_ Hk]];
      [| apply lookup_insert_Some in Hk as [[_ <-]|[_ Hk]]; [| by rewrite lookup_empty in Hk]];
      (split; [| reflexivity]); cbn [sig commit_request]; apply Forall_replicate; by vm_compute.
Defined.
