(* ===== verification/PBFTState.v ===== *)
(** * The state of the PBFT engine

    The members of [PBFTEngine] ([libconsensus/pbft/PBFTEngine.h]) and of its
    base [ConsensusEngineBase] ([libconsensus/ConsensusEngineBase.h]), the
    timer [TimeManager.h], the interfaces of the components the engine calls,
    the events by which it acts on them, and the state monad its handlers are
    written in: an exception keeps the changes made before it. *)

From S2P Require Import Prelude CommonData PBFTMsg BlockHeader Block PBFTMsgCache PBFTReqCache.

Inductive NodeAccountType : Set := ObserverAccount | SealerAccount.

Inductive CheckResult : Set := VALID | INVALID | FUTURE.

#[export] Instance CheckResult_eq_dec : EqDecision CheckResult.
Proof. solve_decision. Defined.

(** ** [TimeManager] *)
Definition kMaxChangeCycle : Z := 20.
Definition CollectInterval : Z := 60.

Record TimeManager := mkTime {
  m_viewTimeout : Z;
  m_changeCycle : Z;
  m_lastSignTime : Z;
  m_lastConsensusTime : Z;
  m_emptyBlockGenTime : Z;
  m_minBlockGenTime : Z;
  (** milliseconds, on the clock of [utcTime] *)
  m_lastGarbageCollection : Z
}.

Definition initTimerManager (view_timeout now : Z) (t : TimeManager) : TimeManager :=
  mkTime view_timeout 0 0 now (m_emptyBlockGenTime t) (m_minBlockGenTime t) now.

Definition changeView (t : TimeManager) : TimeManager :=
  mkTime (m_viewTimeout t) (m_changeCycle t) 0 0 (m_emptyBlockGenTime t) (m_minBlockGenTime t)
    (m_lastGarbageCollection t).

Definition set_changeCycle (x : Z) (t : TimeManager) : TimeManager :=
  mkTime (m_viewTimeout t) x (m_lastSignTime t) (m_lastConsensusTime t) (m_emptyBlockGenTime t)
    (m_minBlockGenTime t) (m_lastGarbageCollection t).
Definition set_lastSignTime (x : Z) (t : TimeManager) : TimeManager :=
  mkTime (m_viewTimeout t) (m_changeCycle t) x (m_lastConsensusTime t) (m_emptyBlockGenTime t)
    (m_minBlockGenTime t) (m_lastGarbageCollection t).
Definition set_lastConsensusTime (x : Z) (t : TimeManager) : TimeManager :=
  mkTime (m_viewTimeout t) (m_changeCycle t) (m_lastSignTime t) x (m_emptyBlockGenTime t)
    (m_minBlockGenTime t) (m_lastGarbageCollection t).
Definition set_lastGarbageCollection (x : Z) (t : TimeManager) : TimeManager :=
  mkTime (m_viewTimeout t) (m_changeCycle t) (m_lastSignTime t) (m_lastConsensusTime t)
    (m_emptyBlockGenTime t) (m_minBlockGenTime t) x.

Definition updateChangeCycle (t : TimeManager) : TimeManager :=
  set_changeCycle (Z.min (m_changeCycle t + 1) kMaxChangeCycle) t.

(** [m_viewTimeout * pow(1.5, m_changeCycle)], truncated: exact in a [double]
    as long as [m_viewTimeout * 3 ^ m_changeCycle] is below [2^53]. *)
Definition interval (t : TimeManager) : Z :=
  m_viewTimeout t * 3 ^ m_changeCycle t / 2 ^ m_changeCycle t.

Definition isTimeout (now : Z) (t : TimeManager) : bool :=
  interval t <=? wrap 64 (now - Z.max (m_lastConsensusTime t) (m_lastSignTime t)).

(** ** The components the engine calls *)
Section Interfaces.
Context {Tx Rcpt Ctx : Type}.

Record BlockInfo := mkBlockInfo { bi_hash : h256; bi_number : Z; bi_stateRoot : h256 }.

(** What [BlockChainInterface] answers during one call of a handler. *)
Record BlockChainInterface := mkBlockChain {
  bc_number : Z;
  bc_numberHash : Z -> h256;
  bc_getBlockByHash : h256 -> option (Block Tx Rcpt);
  bc_getBlockByNumber : Z -> option (Block Tx Rcpt);
  (** [commitBlock(..) == CommitResult::OK] *)
  bc_commitBlock : Block Tx Rcpt -> option Ctx -> bool;
  bc_sealerList : list h512;
  bc_observerList : list h512;
  (** [lexical_cast<uint64_t>(getSystemConfigByKey("tx_count_limit"))] *)
  bc_txCountLimit : result Z
}.

Record SyncInterface := mkSync { sync_isSyncing : bool; sync_knownHighestNumber : Z }.

Record TxPoolInterface := mkTxPool {
  (** [verifyAndSetSenderForBlock] *)
  tp_setSenders : Block Tx Rcpt -> result (Block Tx Rcpt);
  tp_txHash : Tx -> h256
}.

Record BlockVerifierInterface := mkVerifier {
  bv_executeBlock : Block Tx Rcpt -> BlockInfo -> result (Block Tx Rcpt * option Ctx)
}.

(** [Block::encode] and [Block::decode(.., CheckTransaction::None, false, true)]. *)
Record BlockCodec := mkCodec {
  bl_encode : Block Tx Rcpt -> result bytes;
  bl_decode : bytes -> result (Block Tx Rcpt)
}.

(** Everything one call of a handler reads outside of the engine.  The clock is
    read once per call. *)
Record Env := mkEnv {
  now : Z;
  sessions : list NodeID;
  blockChain : BlockChainInterface;
  blockSync : SyncInterface;
  txPool : TxPoolInterface;
  blockVerifier : BlockVerifierInterface;
  codec : BlockCodec;
  (** whether the database of the backups takes an insertion *)
  backupOk : bool
}.

(** ** Effects *)
Inductive Event : Type :=
  (** [asyncMulticastMessageByNodeIDList], [asyncSendMessageByNodeID],
      [setNodeListByGroupID] *)
  | EvMulticast (ids : list NodeID) (msg : bytes)
  | EvSend (id : NodeID) (msg : bytes)
  | EvSetNodeList (ids : list NodeID)
  (** [noteSealingBlockNumber] *)
  | EvNoteSealing (n : Z)
  (** [commitBlock], [dropBlockTrans], [handleBadBlock] *)
  | EvCommitBlock (b : Block Tx Rcpt) (ctx : option Ctx)
  | EvDropTrans (b : Block Tx Rcpt)
  | EvBadBlock (b : Block Tx Rcpt)
  (** [updateCommittedPrepare]: the height and hash the node locks on *)
  | EvLocked (h : Z) (hash : h256)
  (** registered callbacks *)
  | EvNextLeaderReset (filter : list h256)
  (** [raise(SIGTERM)] *)
  | EvSigterm
  | EvOnTimeout (sealingTxNumber : Z)
  | EvOnViewChange
  | EvOnCommitBlock (number txs cycle : Z).
End Interfaces.
Arguments Event : clear implicits.
Arguments Env : clear implicits.

(** What is set once, before the engine runs. *)
Record Config := mkConfig {
  m_keyPair : KeyPair;
  m_allowFutureBlocks : bool;
  m_omitEmptyBlock : bool;
  has_onViewChange : bool;
  has_onNotifyNextLeaderReset : bool;
  has_onTimeout : bool;
  has_onCommitBlock : bool
}.

(** ** The engine *)
Section State.
Context {Tx Rcpt Ctx : Type}.

Record PBFTEngine := mkEngine {
  m_view : VIEWTYPE;
  m_toView : VIEWTYPE;
  m_leaderFailed : bool;
  m_notifyNextLeaderSeal : bool;
  m_backupDB : option (gmap string chars);
  m_broadCastCache : PBFTBroadcastCache;
  m_reqCache : PBFTReqCache Tx Rcpt Ctx;
  m_timeManager : TimeManager;
  m_msgQueue : list PBFTMsgPacket;
  m_fastViewChange : bool;
  maxTTL : Z;
  m_viewMap : gmap IDXTYPE VIEWTYPE;
  m_sealingNumber : Z;
  m_maxBlockTransactions : Z;
  m_consensusBlockNumber : Z;
  m_highestBlock : BlockHeader;
  m_nodeNum : IDXTYPE;
  m_f : IDXTYPE;
  m_accountType : NodeAccountType;
  m_idx : IDXTYPE;
  eng_sealerList : list h512;
  m_lastNodeList : option (list bytes * list bytes);
  m_connectedNode : IDXTYPE;
  m_cfgErr : bool;
  m_cfg : Config;
  m_trace : list (Event Tx Rcpt Ctx)
}.

Definition set_view (x : VIEWTYPE) (s : PBFTEngine) : PBFTEngine :=
  mkEngine x (m_toView s) (m_leaderFailed s) (m_notifyNextLeaderSeal s) (m_backupDB s)
    (m_broadCastCache s) (m_reqCache s) (m_timeManager s) (m_msgQueue s) (m_fastViewChange s)
    (maxTTL s) (m_viewMap s) (m_sealingNumber s) (m_maxBlockTransactions s)
    (m_consensusBlockNumber s) (m_highestBlock s) (m_nodeNum s) (m_f s) (m_accountType s)
    (m_idx s) (eng_sealerList s) (m_lastNodeList s) (m_connectedNode s) (m_cfgErr s) (m_cfg s)
    (m_trace s).
Definition set_toView (x : VIEWTYPE) (s : PBFTEngine) : PBFTEngine :=
  mkEngine (m_view s) x (m_leaderFailed s) (m_notifyNextLeaderSeal s) (m_backupDB s)
    (m_broadCastCache s) (m_reqCache s) (m_timeManager s) (m_msgQueue s) (m_fastViewChange s)
    (maxTTL s) (m_viewMap s) (m_sealingNumber s) (m_maxBlockTransactions s)
    (m_consensusBlockNumber s) (m_highestBlock s) (m_nodeNum s) (m_f s) (m_accountType s)
    (m_idx s) (eng_sealerList s) (m_lastNodeList s) (m_connectedNode s) (m_cfgErr s) (m_cfg s)
    (m_trace s).
Definition set_leaderFailed (x : bool) (s : PBFTEngine) : PBFTEngine :=
  mkEngine (m_view s) (m_toView s) x (m_notifyNextLeaderSeal s) (m_backupDB s)
    (m_broadCastCache s) (m_reqCache s) (m_timeManager s) (m_msgQueue s) (m_fastViewChange s)
    (maxTTL s) (m_viewMap s) (m_sealingNumber s) (m_maxBlockTransactions s)
    (m_consensusBlockNumber s) (m_highestBlock s) (m_nodeNum s) (m_f s) (m_accountType s)
    (m_idx s) (eng_sealerList s) (m_lastNodeList s) (m_connectedNode s) (m_cfgErr s) (m_cfg s)
    (m_trace s).
Definition set_notifyNextLeaderSeal (x : bool) (s : PBFTEngine) : PBFTEngine :=
  mkEngine (m_view s) (m_toView s) (m_leaderFailed s) x (m_backupDB s) (m_broadCastCache s)
    (m_reqCache s) (m_timeManager s) (m_msgQueue s) (m_fastViewChange s) (maxTTL s) (m_viewMap s)
    (m_sealingNumber s) (m_maxBlockTransactions s) (m_consensusBlockNumber s) (m_highestBlock s)
    (m_nodeNum s) (m_f s) (m_accountType s) (m_idx s) (eng_sealerList s) (m_lastNodeList s)
    (m_connectedNode s) (m_cfgErr s) (m_cfg s) (m_trace s).
Definition set_backupDB (x : option (gmap string chars)) (s : PBFTEngine) : PBFTEngine :=
  mkEngine (m_view s) (m_toView s) (m_leaderFailed s) (m_notifyNextLeaderSeal s) x
    (m_broadCastCache s) (m_reqCache s) (m_timeManager s) (m_msgQueue s) (m_fastViewChange s)
    (maxTTL s) (m_viewMap s) (m_sealingNumber s) (m_maxBlockTransactions s)
    (m_consensusBlockNumber s) (m_highestBlock s) (m_nodeNum s) (m_f s) (m_accountType s)
    (m_idx s) (eng_sealerList s) (m_lastNodeList s) (m_connectedNode s) (m_cfgErr s) (m_cfg s)
    (m_trace s).
Definition set_broadCastCache (x : PBFTBroadcastCache) (s : PBFTEngine) : PBFTEngine :=
  mkEngine (m_view s) (m_toView s) (m_leaderFailed s) (m_notifyNextLeaderSeal s) (m_backupDB s) x
    (m_reqCache s) (m_timeManager s) (m_msgQueue s) (m_fastViewChange s) (maxTTL s) (m_viewMap s)
    (m_sealingNumber s) (m_maxBlockTransactions s) (m_consensusBlockNumber s) (m_highestBlock s)
    (m_nodeNum s) (m_f s) (m_accountType s) (m_idx s) (eng_sealerList s) (m_lastNodeList s)
    (m_connectedNode s) (m_cfgErr s) (m_cfg s) (m_trace s).
Definition set_reqCache (x : PBFTReqCache Tx Rcpt Ctx) (s : PBFTEngine) : PBFTEngine :=
  mkEngine (m_view s) (m_toView s) (m_leaderFailed s) (m_notifyNextLeaderSeal s) (m_backupDB s)
    (m_broadCastCache s) x (m_timeManager s) (m_msgQueue s) (m_fastViewChange s) (maxTTL s)
    (m_viewMap s) (m_sealingNumber s) (m_maxBlockTransactions s) (m_consensusBlockNumber s)
    (m_highestBlock s) (m_nodeNum s) (m_f s) (m_accountType s) (m_idx s) (eng_sealerList s)
    (m_lastNodeList s) (m_connectedNode s) (m_cfgErr s) (m_cfg s) (m_trace s).
Definition set_timeManager (x : TimeManager) (s : PBFTEngine) : PBFTEngine :=
  mkEngine (m_view s) (m_toView s) (m_leaderFailed s) (m_notifyNextLeaderSeal s) (m_backupDB s)
    (m_broadCastCache s) (m_reqCache s) x (m_msgQueue s) (m_fastViewChange s) (maxTTL s)
    (m_viewMap s) (m_sealingNumber s) (m_maxBlockTransactions s) (m_consensusBlockNumber s)
    (m_highestBlock s) (m_nodeNum s) (m_f s) (m_accountType s) (m_idx s) (eng_sealerList s)
    (m_lastNodeList s) (m_connectedNode s) (m_cfgErr s) (m_cfg s) (m_trace s).
Definition set_msgQueue (x : list PBFTMsgPacket) (s : PBFTEngine) : PBFTEngine :=
  mkEngine (m_view s) (m_toView s) (m_leaderFailed s) (m_notifyNextLeaderSeal s) (m_backupDB s)
    (m_broadCastCache s) (m_reqCache s) (m_timeManager s) x (m_fastViewChange s) (maxTTL s)
    (m_viewMap s) (m_sealingNumber s) (m_maxBlockTransactions s) (m_consensusBlockNumber s)
    (m_highestBlock s) (m_nodeNum s) (m_f s) (m_accountType s) (m_idx s) (eng_sealerList s)
    (m_lastNodeList s) (m_connectedNode s) (m_cfgErr s) (m_cfg s) (m_trace s).
Definition set_fastViewChange (x : bool) (s : PBFTEngine) : PBFTEngine :=
  mkEngine (m_view s) (m_toView s) (m_leaderFailed s) (m_notifyNextLeaderSeal s) (m_backupDB s)
    (m_broadCastCache s) (m_reqCache s) (m_timeManager s) (m_msgQueue s) x (maxTTL s)
    (m_viewMap s) (m_sealingNumber s) (m_maxBlockTransactions s) (m_consensusBlockNumber s)
    (m_highestBlock s) (m_nodeNum s) (m_f s) (m_accountType s) (m_idx s) (eng_sealerList s)
    (m_lastNodeList s) (m_connectedNode s) (m_cfgErr s) (m_cfg s) (m_trace s).
Definition set_maxTTL (x : Z) (s : PBFTEngine) : PBFTEngine :=
  mkEngine (m_view s) (m_toView s) (m_leaderFailed s) (m_notifyNextLeaderSeal s) (m_backupDB s)
    (m_broadCastCache s) (m_reqCache s) (m_timeManager s) (m_msgQueue s) (m_fastViewChange s) x
    (m_viewMap s) (m_sealingNumber s) (m_maxBlockTransactions s) (m_consensusBlockNumber s)
    (m_highestBlock s) (m_nodeNum s) (m_f s) (m_accountType s) (m_idx s) (eng_sealerList s)
    (m_lastNodeList s) (m_connectedNode s) (m_cfgErr s) (m_cfg s) (m_trace s).
Definition set_viewMap (x : gmap IDXTYPE VIEWTYPE) (s : PBFTEngine) : PBFTEngine :=
  mkEngine (m_view s) (m_toView s) (m_leaderFailed s) (m_notifyNextLeaderSeal s) (m_backupDB s)
    (m_broadCastCache s) (m_reqCache s) (m_timeManager s) (m_msgQueue s) (m_fastViewChange s)
    (maxTTL s) x (m_sealingNumber s) (m_maxBlockTransactions s) (m_consensusBlockNumber s)
    (m_highestBlock s) (m_nodeNum s) (m_f s) (m_accountType s) (m_idx s) (eng_sealerList s)
    (m_lastNodeList s) (m_connectedNode s) (m_cfgErr s) (m_cfg s) (m_trace s).
Definition set_sealingNumber (x : Z) (s : PBFTEngine) : PBFTEngine :=
  mkEngine (m_view s) (m_toView s) (m_leaderFailed s) (m_notifyNextLeaderSeal s) (m_backupDB s)
    (m_broadCastCache s) (m_reqCache s) (m_timeManager s) (m_msgQueue s) (m_fastViewChange s)
    (maxTTL s) (m_viewMap s) x (m_maxBlockTransactions s) (m_consensusBlockNumber s)
    (m_highestBlock s) (m_nodeNum s) (m_f s) (m_accountType s) (m_idx s) (eng_sealerList s)
    (m_lastNodeList s) (m_connectedNode s) (m_cfgErr s) (m_cfg s) (m_trace s).
Definition set_maxBlockTransactions (x : Z) (s : PBFTEngine) : PBFTEngine :=
  mkEngine (m_view s) (m_toView s) (m_leaderFailed s) (m_notifyNextLeaderSeal s) (m_backupDB s)
    (m_broadCastCache s) (m_reqCache s) (m_timeManager s) (m_msgQueue s) (m_fastViewChange s)
    (maxTTL s) (m_viewMap s) (m_sealingNumber s) x (m_consensusBlockNumber s) (m_highestBlock s)
    (m_nodeNum s) (m_f s) (m_accountType s) (m_idx s) (eng_sealerList s) (m_lastNodeList s)
    (m_connectedNode s) (m_cfgErr s) (m_cfg s) (m_trace s).
Definition set_consensusBlockNumber (x : Z) (s : PBFTEngine) : PBFTEngine :=
  mkEngine (m_view s) (m_toView s) (m_leaderFailed s) (m_notifyNextLeaderSeal s) (m_backupDB s)
    (m_broadCastCache s) (m_reqCache s) (m_timeManager s) (m_msgQueue s) (m_fastViewChange s)
    (maxTTL s) (m_viewMap s) (m_sealingNumber s) (m_maxBlockTransactions s) x (m_highestBlock s)
    (m_nodeNum s) (m_f s) (m_accountType s) (m_idx s) (eng_sealerList s) (m_lastNodeList s)
    (m_connectedNode s) (m_cfgErr s) (m_cfg s) (m_trace s).
Definition set_highestBlock (x : BlockHeader) (s : PBFTEngine) : PBFTEngine :=
  mkEngine (m_view s) (m_toView s) (m_leaderFailed s) (m_notifyNextLeaderSeal s) (m_backupDB s)
    (m_broadCastCache s) (m_reqCache s) (m_timeManager s) (m_msgQueue s) (m_fastViewChange s)
    (maxTTL s) (m_viewMap s) (m_sealingNumber s) (m_maxBlockTransactions s)
    (m_consensusBlockNumber s) x (m_nodeNum s) (m_f s) (m_accountType s) (m_idx s)
    (eng_sealerList s) (m_lastNodeList s) (m_connectedNode s) (m_cfgErr s) (m_cfg s) (m_trace s).
Definition set_nodeNum (x : IDXTYPE) (s : PBFTEngine) : PBFTEngine :=
  mkEngine (m_view s) (m_toView s) (m_leaderFailed s) (m_notifyNextLeaderSeal s) (m_backupDB s)
    (m_broadCastCache s) (m_reqCache s) (m_timeManager s) (m_msgQueue s) (m_fastViewChange s)
    (maxTTL s) (m_viewMap s) (m_sealingNumber s) (m_maxBlockTransactions s)
    (m_consensusBlockNumber s) (m_highestBlock s) x (m_f s) (m_accountType s) (m_idx s)
    (eng_sealerList s) (m_lastNodeList s) (m_connectedNode s) (m_cfgErr s) (m_cfg s) (m_trace s).
Definition set_f (x : IDXTYPE) (s : PBFTEngine) : PBFTEngine :=
  mkEngine (m_view s) (m_toView s) (m_leaderFailed s) (m_notifyNextLeaderSeal s) (m_backupDB s)
    (m_broadCastCache s) (m_reqCache s) (m_timeManager s) (m_msgQueue s) (m_fastViewChange s)
    (maxTTL s) (m_viewMap s) (m_sealingNumber s) (m_maxBlockTransactions s)
    (m_consensusBlockNumber s) (m_highestBlock s) (m_nodeNum s) x (m_accountType s) (m_idx s)
    (eng_sealerList s) (m_lastNodeList s) (m_connectedNode s) (m_cfgErr s) (m_cfg s) (m_trace s).
Definition set_accountType (x : NodeAccountType) (s : PBFTEngine) : PBFTEngine :=
  mkEngine (m_view s) (m_toView s) (m_leaderFailed s) (m_notifyNextLeaderSeal s) (m_backupDB s)
    (m_broadCastCache s) (m_reqCache s) (m_timeManager s) (m_msgQueue s) (m_fastViewChange s)
    (maxTTL s) (m_viewMap s) (m_sealingNumber s) (m_maxBlockTransactions s)
    (m_consensusBlockNumber s) (m_highestBlock s) (m_nodeNum s) (m_f s) x (m_idx s)
    (eng_sealerList s) (m_lastNodeList s) (m_connectedNode s) (m_cfgErr s) (m_cfg s) (m_trace s).
Definition set_idx (x : IDXTYPE) (s : PBFTEngine) : PBFTEngine :=
  mkEngine (m_view s) (m_toView s) (m_leaderFailed s) (m_notifyNextLeaderSeal s) (m_backupDB s)
    (m_broadCastCache s) (m_reqCache s) (m_timeManager s) (m_msgQueue s) (m_fastViewChange s)
    (maxTTL s) (m_viewMap s) (m_sealingNumber s) (m_maxBlockTransactions s)
    (m_consensusBlockNumber s) (m_highestBlock s) (m_nodeNum s) (m_f s) (m_accountType s) x
    (eng_sealerList s) (m_lastNodeList s) (m_connectedNode s) (m_cfgErr s) (m_cfg s) (m_trace s).
Definition set_sealerList (x : list h512) (s : PBFTEngine) : PBFTEngine :=
  mkEngine (m_view s) (m_toView s) (m_leaderFailed s) (m_notifyNextLeaderSeal s) (m_backupDB s)
    (m_broadCastCache s) (m_reqCache s) (m_timeManager s) (m_msgQueue s) (m_fastViewChange s)
    (maxTTL s) (m_viewMap s) (m_sealingNumber s) (m_maxBlockTransactions s)
    (m_consensusBlockNumber s) (m_highestBlock s) (m_nodeNum s) (m_f s) (m_accountType s)
    (m_idx s) x (m_lastNodeList s) (m_connectedNode s) (m_cfgErr s) (m_cfg s) (m_trace s).
Definition set_lastNodeList (x : option (list bytes * list bytes)) (s : PBFTEngine) : PBFTEngine :=
  mkEngine (m_view s) (m_toView s) (m_leaderFailed s) (m_notifyNextLeaderSeal s) (m_backupDB s)
    (m_broadCastCache s) (m_reqCache s) (m_timeManager s) (m_msgQueue s) (m_fastViewChange s)
    (maxTTL s) (m_viewMap s) (m_sealingNumber s) (m_maxBlockTransactions s)
    (m_consensusBlockNumber s) (m_highestBlock s) (m_nodeNum s) (m_f s) (m_accountType s)
    (m_idx s) (eng_sealerList s) x (m_connectedNode s) (m_cfgErr s) (m_cfg s) (m_trace s).
Definition set_connectedNode (x : IDXTYPE) (s : PBFTEngine) : PBFTEngine :=
  mkEngine (m_view s) (m_toView s) (m_leaderFailed s) (m_notifyNextLeaderSeal s) (m_backupDB s)
    (m_broadCastCache s) (m_reqCache s) (m_timeManager s) (m_msgQueue s) (m_fastViewChange s)
    (maxTTL s) (m_viewMap s) (m_sealingNumber s) (m_maxBlockTransactions s)
    (m_consensusBlockNumber s) (m_highestBlock s) (m_nodeNum s) (m_f s) (m_accountType s)
    (m_idx s) (eng_sealerList s) (m_lastNodeList s) x (m_cfgErr s) (m_cfg s) (m_trace s).
Definition set_cfgErr (x : bool) (s : PBFTEngine) : PBFTEngine :=
  mkEngine (m_view s) (m_toView s) (m_leaderFailed s) (m_notifyNextLeaderSeal s) (m_backupDB s)
    (m_broadCastCache s) (m_reqCache s) (m_timeManager s) (m_msgQueue s) (m_fastViewChange s)
    (maxTTL s) (m_viewMap s) (m_sealingNumber s) (m_maxBlockTransactions s)
    (m_consensusBlockNumber s) (m_highestBlock s) (m_nodeNum s) (m_f s) (m_accountType s)
    (m_idx s) (eng_sealerList s) (m_lastNodeList s) (m_connectedNode s) x (m_cfg s) (m_trace s).
Definition set_cfg (x : Config) (s : PBFTEngine) : PBFTEngine :=
  mkEngine (m_view s) (m_toView s) (m_leaderFailed s) (m_notifyNextLeaderSeal s) (m_backupDB s)
    (m_broadCastCache s) (m_reqCache s) (m_timeManager s) (m_msgQueue s) (m_fastViewChange s)
    (maxTTL s) (m_viewMap s) (m_sealingNumber s) (m_maxBlockTransactions s)
    (m_consensusBlockNumber s) (m_highestBlock s) (m_nodeNum s) (m_f s) (m_accountType s)
    (m_idx s) (eng_sealerList s) (m_lastNodeList s) (m_connectedNode s) (m_cfgErr s) x (m_trace s).
Definition set_trace (x : list (Event Tx Rcpt Ctx)) (s : PBFTEngine) : PBFTEngine :=
  mkEngine (m_view s) (m_toView s) (m_leaderFailed s) (m_notifyNextLeaderSeal s) (m_backupDB s)
    (m_broadCastCache s) (m_reqCache s) (m_timeManager s) (m_msgQueue s) (m_fastViewChange s)
    (maxTTL s) (m_viewMap s) (m_sealingNumber s) (m_maxBlockTransactions s)
    (m_consensusBlockNumber s) (m_highestBlock s) (m_nodeNum s) (m_f s) (m_accountType s)
    (m_idx s) (eng_sealerList s) (m_lastNodeList s) (m_connectedNode s) (m_cfgErr s) (m_cfg s) x.

(** ** The monad of the handlers *)
Definition M (A : Type) : Type := PBFTEngine -> PBFTEngine * result A.

#[export] Instance M_ret : MRet M := fun A a s => (s, Ok a).
#[export] Instance M_bind : MBind M := fun A B f m s =>
  match m s with
  | (s', Ok a) => f a s'
  | (s', Throw e) => (s', Throw e)
  end.

Definition get : M PBFTEngine := fun s => (s, Ok s).
Definition modify (f : PBFTEngine -> PBFTEngine) : M unit := fun s => (f s, Ok tt).
Definition lift {A} (r : result A) : M A := fun s => (s, r).
Definition throw {A} (e : Exn) : M A := fun s => (s, Throw e).

(** [try { m } catch (std::exception&) { h }]: undefined behaviour is not an
    exception. *)
Definition tryCatch {A} (m : M A) (h : Exn -> M A) : M A := fun s =>
  match m s with
  | (s', Throw UndefinedBehaviour) => (s', Throw UndefinedBehaviour)
  | (s', Throw e) => h e s'
  | r => r
  end.

(** The [catch] of a block that changed nothing: go on with [a]. *)
Definition caught {A} (e : Exn) (a : A) : M A := tryCatch (throw e) (fun _ => mret a).

Definition emit (e : Event Tx Rcpt Ctx) : M unit := modify (fun s => set_trace (e :: m_trace s) s).

Definition modifyCache (f : PBFTReqCache Tx Rcpt Ctx -> PBFTReqCache Tx Rcpt Ctx) : M unit :=
  modify (fun s => set_reqCache (f (m_reqCache s)) s).

Definition modifyTime (f : TimeManager -> TimeManager) : M unit :=
  modify (fun s => set_timeManager (f (m_timeManager s)) s).

Definition when (b : bool) (m : M unit) : M unit := if b then m else mret tt.
End State.
Arguments PBFTEngine : clear implicits.
Arguments M : clear implicits.
