(* ===== verification/PBFTEngine.v ===== *)
(** * The PBFT engine

    [libconsensus/pbft/PBFTEngine.h], [PBFTEngine.cpp] and the parts of
    [libconsensus/ConsensusEngineBase.*] it inherits: configuration, leader
    election, broadcasting, the checks on requests, and the handlers of the
    four message types, of timeouts and of committed blocks. *)

From S2P Require Import Prelude CommonData RLP PBFTMsg BlockHeader Block PBFTMsgCache.
From S2P Require Import PBFTReqCache PBFTState.

Section Engine.
Context `{Crypto} `{MapOrder} {Tx Rcpt Ctx : Type}.

Abbreviation Prepare := (PrepareReq (Block Tx Rcpt) Ctx).
Abbreviation Engine := (PBFTEngine Tx Rcpt Ctx).
Abbreviation Handler := (M Tx Rcpt Ctx).

Implicit Types s : Engine.

(** ** Configuration and queries *)
Definition nodeIdx s : IDXTYPE := m_idx s.

Definition minValidNodes s : IDXTYPE := wrap 16 (m_nodeNum s - m_f s).

Definition getNextLeader s : IDXTYPE :=
  wrap 16 (Z.rem (m_number (m_highestBlock s) + 1) (m_nodeNum s)).

Definition getLeader s : bool * IDXTYPE :=
  if m_cfgErr s || m_leaderFailed s || (m_sealer (m_highestBlock s) =? Invalid256)
     || (m_nodeNum s =? 0)
  then (false, MAXIDX)
  else (true, wrap 16 (Z.rem (m_view s + m_number (m_highestBlock s)) (m_nodeNum s))).

Definition getSealerByIndex (i : Z) s : NodeID :=
  if i <? lenZ (eng_sealerList s) then nth (Z.to_nat i) (eng_sealerList s) h512_0 else h512_0.

Fixpoint index_of (id : NodeID) (l : list NodeID) (i : Z) : Z :=
  match l with
  | [] => -1
  | x :: l' => if bool_decide (x = id) then i else index_of id l' (i + 1)
  end.

Definition getIndexBySealer (id : NodeID) s : Z := index_of id (eng_sealerList s) 0.

(** [getNodeIDByIndex]: [None] when the index is not a sealer's. *)
Definition getNodeIDByIndex (i : IDXTYPE) s : option NodeID :=
  let id := getSealerByIndex i s in if bool_decide (id = h512_0) then None else Some id.

Definition checkSign (req : PBFTMsg) s : result bool :=
  match getNodeIDByIndex (idx req) s with
  | None => Ok false
  | Some id =>
      if verify id (sig req) (block_hash req) then
        f ← msg_fieldsWithoutBlock req; Ok (verify id (sig2 req) f)
      else Ok false
  end.

(** [std::sort] on node ids: byte-wise lexicographic order. *)
Fixpoint bytes_le (a b : bytes) : bool :=
  match a, b with
  | [], _ => true
  | _ :: _, [] => false
  | x :: a', y :: b' => (x <? y) || ((x =? y) && bytes_le a' b')
  end.

Fixpoint insert_sorted (x : bytes) (l : list bytes) : list bytes :=
  match l with
  | [] => [x]
  | y :: l' => if bytes_le x y then x :: l else y :: insert_sorted x l'
  end.

Definition sort_ids (l : list bytes) : list bytes := foldr insert_sorted [] l.

(** [h512::abridged] keeps the first four bytes. *)
Definition abridged (id : bytes) : bytes := take 4 id.

Section Handlers.
Context (E : Env Tx Rcpt Ctx).

Definition updateMaxBlockTransactions : Handler unit :=
  n ← lift (bc_txCountLimit (blockChain E)); modify (set_maxBlockTransactions n).

Definition updateConsensusNodeList : Handler unit :=
  let sealers := sort_ids (bc_sealerList (blockChain E)) in
  modify (set_sealerList sealers);;
  s ← get;
  let text := (map abridged sealers, map abridged (bc_observerList (blockChain E))) in
  when (negb (bool_decide (m_lastNodeList s = Some text)))
    (emit (EvSetNodeList (bc_sealerList (blockChain E) ++ bc_observerList (blockChain E)));;
     modify (set_lastNodeList (Some text))).

Definition resetConfig : Handler unit :=
  updateMaxBlockTransactions;;
  modify (set_accountType ObserverAccount);;
  updateConsensusNodeList;;
  s ← get;
  let i := getIndexBySealer (pub (m_keyPair (m_cfg s))) s in
  let node_idx := if i <? 0 then MAXIDX else wrap 16 i in
  when (0 <=? i) (modify (set_accountType SealerAccount));;
  modify (set_nodeNum (wrap 16 (lenZ (eng_sealerList s))));;
  s ← get;
  if m_nodeNum s <? 1 then throw EmptySealers
  else
    modify (set_f (Z.quot (m_nodeNum s - 1) 3));;
    modify (set_cfgErr (node_idx =? MAXIDX));;
    modify (set_idx node_idx).

(** ** The backup of the committed prepare *)
Definition c_backupKeyCommitted : string := "committed".

Definition backupMsg (key : string) (msg : Prepare) : Handler unit :=
  s ← get;
  match m_backupDB s with
  | None => mret tt
  | Some db =>
      message_data ← lift (prepare_encode msg);
      if backupOk E then modify (set_backupDB (Some (<[key := toHex [] message_data]> db)))
      else emit EvSigterm;; throw InvalidArgument
  end.

(** [reloadMsg] decodes into the committed prepare in place: data that cannot
    be decoded leaves the fields that were read before the failure. *)
Definition reloadMsg (key : string) : Handler unit :=
  s ← get;
  match m_backupDB s with
  | None => mret tt
  | Some db =>
      match fromHex (default [] (db !! key)) DontThrow with
      | Throw e => caught e tt
      | Ok data =>
          if lenZ data =? 0 then mret tt
          else
            match (r ← RLP_ data VeryStrict; index 0 r) with
            | Throw e => caught e tt
            | Ok (r, _) =>
                let '(p, res) := prepare_populate_into (m_committedPrepareCache (m_reqCache s)) r in
                modifyCache (upd_committed p);;
                match res with Throw e => caught e tt | Ok _ => mret tt end
            end
      end
  end.

(** [initBackupDB]: the database found on disk. *)
Definition initBackupDB (disk : gmap string chars) (diskSpaceEnough : bool) : Handler unit :=
  modify (set_backupDB (Some disk));;
  if diskSpaceEnough then reloadMsg c_backupKeyCommitted else throw NotEnoughAvailableSpace.

Definition initPBFTEnv (view_timeout : Z) (disk : gmap string chars) (diskSpaceEnough : bool)
    : Handler unit :=
  resetConfig;;
  modify (set_consensusBlockNumber 0);;
  modify (fun s => set_view 0 (set_toView 0 s));;
  modify (set_leaderFailed false);;
  initBackupDB disk diskSpaceEnough;;
  modifyTime (initTimerManager view_timeout (now E)).

(** [start]: [3 * getEmptyBlockGenTime()] is an [unsigned]. *)
Definition start (disk : gmap string chars) (diskSpaceEnough : bool) : Handler unit :=
  s ← get;
  initPBFTEnv (wrap 32 (3 * m_emptyBlockGenTime (m_timeManager s))) disk diskSpaceEnough.

(** ** Sending *)
Definition broadcastFilter (id : NodeID) (packetType : Z) (key : chars) s : bool :=
  keyExists id packetType key (m_broadCastCache s).

Definition broadcastMark (id : NodeID) (packetType : Z) (key : chars) : Handler unit :=
  modify (fun s =>
    if keyExists id packetType key (m_broadCastCache s) then s
    else set_broadCastCache (snd (insertKey id packetType key (m_broadCastCache s))) s).

(** [transDataToMessage]: the packet's [ttl] is a [uint8_t]. *)
Definition transDataToMessage (data : bytes) (packetType ttl : Z) : Handler bytes :=
  s ← get;
  lift (packet_encode
    {| node_idx := 0; node_id := h512_0; packet_id := packetType;
       PBFTMsg.ttl := if ttl =? 0 then maxTTL s else wrap 8 ttl;
       PBFTMsg.data := data; pk_timestamp := now E; endpoint := [] |}).

(** The loop of [broadcastMsg]: the peers to send to, in order. *)
Fixpoint selectPeers (ids : list NodeID) (packetType : Z) (key : chars) (filter : gset h512)
    : Handler (list NodeID) :=
  match ids with
  | [] => mret []
  | id :: ids' =>
      s ← get;
      if getIndexBySealer id s <? 0 then selectPeers ids' packetType key filter
      else if bool_decide (id ∈ filter) then
        broadcastMark id packetType key;; selectPeers ids' packetType key filter
      else if broadcastFilter id packetType key s then selectPeers ids' packetType key filter
      else
        broadcastMark id packetType key;;
        rest ← selectPeers ids' packetType key filter;
        mret (id :: rest)
  end.

Definition broadcastMsg (packetType : Z) (key : chars) (data : bytes) (filter : gset h512) (ttl : Z)
    : Handler bool :=
  modify (set_connectedNode (wrap 16 (lenZ (sessions E))));;
  nodeIdList ← selectPeers (sessions E) packetType key filter;
  msg ← transDataToMessage data packetType ttl;
  emit (EvMulticast nodeIdList msg);;
  mret true.

Definition sendMsg (id : NodeID) (packetType : Z) (key : chars) (data : bytes) (ttl : Z)
    : Handler bool :=
  s ← get;
  if getIndexBySealer id s <? 0 then mret true
  else if broadcastFilter id packetType key s then mret true
  else if lenZ (sessions E) =? 0 then mret false
  else if bool_decide (id ∈ sessions E) then
    msg ← transDataToMessage data packetType ttl;
    emit (EvSend id msg);;
    broadcastMark id packetType key;;
    mret true
  else mret false.

Definition broadcastSignReq (req : Prepare) : Handler bool :=
  s ← get;
  sign_req ← lift (SignReq_of req (m_keyPair (m_cfg s)) (nodeIdx s) (now E));
  data ← lift (msg_encode sign_req);
  succ ← broadcastMsg SignReqPacket (uniqueKey sign_req) data ∅ 0;
  modifyCache (addSignReq sign_req);;
  mret succ.

Definition broadcastCommitReq (req : Prepare) : Handler bool :=
  s ← get;
  commit_req ← lift (CommitReq_of req (m_keyPair (m_cfg s)) (nodeIdx s) (now E));
  data ← lift (msg_encode commit_req);
  succ ← broadcastMsg CommitReqPacket (uniqueKey commit_req) data ∅ 0;
  when succ (modifyCache (addCommitReq commit_req));;
  mret succ.

(** The request of [sendViewChangeMsg] and [broadcastViewChangeReq]. *)
Definition myViewChangeReq s : result PBFTMsg :=
  ViewChangeReq_of (m_keyPair (m_cfg s)) (m_number (m_highestBlock s)) (m_toView s) (nodeIdx s)
    (hashOf (m_highestBlock s)) (now E).

Definition sendViewChangeMsg (id : NodeID) : Handler unit :=
  s ← get;
  req ← lift (myViewChangeReq s);
  data ← lift (msg_encode req);
  sendMsg id ViewChangeReqPacket (uniqueKey req) data 1;;
  mret tt.

Definition broadcastViewChangeReq : Handler bool :=
  s ← get;
  req ← lift (myViewChangeReq s);
  data ← lift (msg_encode req);
  broadcastMsg ViewChangeReqPacket (uniqueKey req) data ∅ 0.

(** ** Checks on requests *)
Definition hasConsensused (m : PBFTMsg) s : bool :=
  (height m <? m_consensusBlockNumber s)
  || ((height m =? m_consensusBlockNumber s) && (view m <? m_view s)).

Definition isSyncingHigherBlock (m : PBFTMsg) : bool :=
  sync_isSyncing (blockSync E) && (height m <=? sync_knownHighestNumber (blockSync E)).

Definition isFutureBlock (m : PBFTMsg) s : bool :=
  (m_consensusBlockNumber s <=? height m) || (m_view s <? view m).

Definition isFuturePrepare (m : PBFTMsg) s : bool :=
  (m_consensusBlockNumber s <? height m)
  || ((height m =? m_consensusBlockNumber s) && (m_view s <? view m)).

Definition isHashSavedAfterCommit (m : PBFTMsg) s : bool :=
  let c := p_msg (m_committedPrepareCache (m_reqCache s)) in
  negb ((height m =? height c) && negb (bool_decide (block_hash m = block_hash c))).

Definition isValidLeader (m : PBFTMsg) s : bool :=
  let leader := getLeader s in fst leader && (idx m =? snd leader).

Definition updateViewMap (i : IDXTYPE) (v : VIEWTYPE) : Handler unit :=
  modify (fun s => set_viewMap (<[i := v]> (m_viewMap s)) s).

Definition isValidPrepare (req : Prepare) : Handler CheckResult :=
  s ← get;
  if isExistPrepare req (m_reqCache s) then mret INVALID
  else if isSyncingHigherBlock (p_msg req) then mret INVALID
  else if hasConsensused (p_msg req) s then mret INVALID
  else if isFuturePrepare (p_msg req) s then
    modifyCache (addFuturePrepareCache req);; mret FUTURE
  else if negb (isValidLeader (p_msg req) s) then mret INVALID
  else if negb (isHashSavedAfterCommit (p_msg req) s) then mret INVALID
  else
    ok ← lift (checkSign (p_msg req) s);
    mret (if ok : bool then VALID else INVALID).

(** [checkReq], shared by sign and commit requests. *)
Definition checkReq (req : PBFTMsg) s : result CheckResult :=
  let prep := p_msg (m_prepareCache (m_reqCache s)) in
  if isSyncingHigherBlock req then Ok INVALID
  else if negb (bool_decide (block_hash prep = block_hash req)) then
    if isFutureBlock req s then
      ok ← checkSign req s; Ok (if ok : bool then FUTURE else INVALID)
    else Ok INVALID
  else if idx req =? nodeIdx s then Ok INVALID
  else if negb (view prep =? view req) then Ok INVALID
  else ok ← checkSign req s; Ok (if ok : bool then VALID else INVALID).

Definition isValidSignReq (req : PBFTMsg) : Handler CheckResult :=
  s ← get;
  if isExistSign req (m_reqCache s) then mret INVALID
  else if hasConsensused req s then mret INVALID
  else
    r ← lift (checkReq req s);
    when (bool_decide (r = FUTURE) &&
          (getSigCacheSize (block_hash req) (m_reqCache s) <? wrap 64 (minValidNodes s - 1)))
      (modifyCache (addSignReq req));;
    mret r.

Definition isValidCommitReq (req : PBFTMsg) : Handler CheckResult :=
  s ← get;
  if isExistCommit req (m_reqCache s) then mret INVALID
  else if hasConsensused req s then mret INVALID
  else
    r ← lift (checkReq req s);
    when (bool_decide (r = FUTURE)) (modifyCache (addCommitReq req));;
    mret r.

Definition catchupView (req : PBFTMsg) : Handler unit :=
  s ← get;
  when (view req + 1 <? m_toView s)
    (match getNodeIDByIndex (idx req) s with
     | Some id => sendViewChangeMsg id
     | None => mret tt
     end).

Definition isValidViewChangeReq (req : PBFTMsg) (source : IDXTYPE) : Handler bool :=
  s ← get;
  if isExistViewChange req (m_reqCache s) then mret false
  else if idx req =? nodeIdx s then mret false
  else
    when ((view req + 1 <? m_toView s) && (idx req =? source)) (catchupView req);;
    s ← get;
    if (height req <? m_number (m_highestBlock s)) || (view req <=? m_view s) then mret false
    else if ((height req =? m_number (m_highestBlock s))
             && negb (bool_decide (block_hash req = hashOf (m_highestBlock s))))
            || (match bc_getBlockByHash (blockChain E) (block_hash req) with
                | None => true | Some _ => false end)
    then mret false
    else lift (checkSign req s).

(** ** Blocks *)
Definition checkBlockValid (b : Block Tx Rcpt) : Handler unit :=
  s ← get;
  let hd := b_header b in
  if m_maxBlockTransactions s <? getTransactionSize b then throw OverThresTransNum
  else if (now E <? m_timestamp hd) && negb (m_allowFutureBlocks (m_cfg s)) then
    throw DisabledFutureTime
  else if m_number hd <=? bc_number (blockChain E) then throw InvalidBlockHeight
  else if (match bc_getBlockByHash (blockChain E) (m_parentHash hd) with
           | None => true | Some _ => false end) then throw ParentNoneExist
  else if (1 <? m_number hd)
          && negb (bool_decide (bc_numberHash (blockChain E) (m_number hd - 1) = m_parentHash hd))
  then throw WrongParentHash
  (** [checkSealerList] *)
  else if negb (bool_decide (eng_sealerList s = m_sealerList hd)) then throw BlockSealerListWrong
  else mret tt.

(** The loop of [checkBlock] over the signatures. *)
Fixpoint checkSigs (sigs : list (Z * Signature)) (sealers : list h512) (hash : h256) : bool :=
  match sigs with
  | [] => true
  | (i, sg) :: rest =>
      if lenZ sealers <=? i then false
      else if negb (verify (nth (Z.to_nat i) sealers h512_0) sg hash) then false
      else checkSigs rest sealers hash
  end.

(** [checkBlock]; [convert_to_size] is [u256::convert_to<size_t>] of
    Boost.Multiprecision. *)
Definition checkBlock (convert_to_size : Z -> Z) (b : Block Tx Rcpt) s : bool :=
  let sealers := eng_sealerList s in
  if m_number (b_header b) =? 0 then true
  else if negb (bool_decide (sealers = m_sealerList (b_header b))) then false
  else if bool_decide (getSealerByIndex (convert_to_size (m_sealer (b_header b))) s = h512_0) then false
  else if lenZ (b_sigList b) <? minValidNodes s then false
  else if negb (checkSigs (b_sigList b) sealers (headerHash b)) then false
  else if m_maxBlockTransactions s <? lenZ (b_transactions b) then false
  else true.

Definition notifySealing (b : Block Tx Rcpt) : Handler unit :=
  s ← get;
  when (has_onNotifyNextLeaderReset (m_cfg s) && fst (getLeader s)
        && negb (snd (getLeader s) =? nodeIdx s) && (nodeIdx s =? getNextLeader s))
    (modify (set_notifyNextLeaderSeal true);;
     emit (EvNextLeaderReset (map (tp_txHash (txPool E)) (b_transactions b)))).

(** [ConsensusEngineBase::executeBlock]; a missing parent is a null
    dereference. *)
Definition executeBlock (b : Block Tx Rcpt) : result (Block Tx Rcpt * option Ctx) :=
  match bc_getBlockByNumber (blockChain E) (bc_number (blockChain E)) with
  | None => Throw UndefinedBehaviour
  | Some parent =>
      bv_executeBlock (blockVerifier E) b
        {| bi_hash := headerHash parent; bi_number := m_number (b_header parent);
           bi_stateRoot := m_stateRoot (b_header parent) |}
  end.

Definition needOmit (b : Block Tx Rcpt) s : bool :=
  (getTransactionSize b =? 0) && m_omitEmptyBlock (m_cfg s).

Definition execBlock (req : Prepare) : Handler (Block Tx Rcpt * option Ctx) :=
  b ← lift (match pBlock req with
            | Some b => Ok b
            | None => bl_decode (codec E) (PBFTMsg.block req)
            end);
  modify (set_sealingNumber (getTransactionSize b));;
  s ← get;
  if needOmit b s then mret (b, None)
  else
    checkBlockValid b;;
    when (negb (idx (p_msg req) =? nodeIdx s)) (notifySealing b);;
    emit (EvNoteSealing (m_number (b_header b)));;
    b' ← lift (tp_setSenders (txPool E) b);
    lift (executeBlock b').

Definition changeViewForFastViewChange : Handler unit :=
  modifyTime changeView;; modify (set_fastViewChange true).

(** ** Committing *)

(** [checkAndSave]: a missing block object is a null dereference. *)
Definition checkAndSave : Handler unit :=
  s ← get;
  let prep := m_prepareCache (m_reqCache s) in
  let hash := block_hash (p_msg prep) in
  let sign_size := getSigCacheSize hash (m_reqCache s) in
  let commit_size := getCommitCacheSize hash (m_reqCache s) in
  if (minValidNodes s <=? sign_size) && (minValidNodes s <=? commit_size) then
    if negb (view (p_msg prep) =? m_view s) then mret tt
    else if m_number (m_highestBlock s) <? height (p_msg prep) then
      p_block ← lift (match pBlock prep with Some b => Ok b | None => Throw UndefinedBehaviour end);
      '(_, p_block') ← lift (generateAndSetSigList p_block (minValidNodes s) (m_reqCache s));
      modifyCache (upd_prepare
        {| p_msg := p_msg prep; PBFTMsg.block := PBFTMsg.block prep; pBlock := Some p_block';
           p_execContext := p_execContext prep |});;
      emit (EvCommitBlock p_block' (p_execContext prep));;
      if bc_commitBlock (blockChain E) p_block' (p_execContext prep) then
        emit (EvDropTrans p_block');;
        emit (EvNoteSealing (height (p_msg prep)));;
        modifyCache (delCache hash);;
        modifyCache (removeInvalidFutureCache (m_highestBlock s))
      else
        emit (EvNoteSealing (bc_number (blockChain E)));;
        emit (EvBadBlock p_block')
    else mret tt
  else mret tt.

Definition checkAndCommit : Handler unit :=
  s ← get;
  let prep := m_prepareCache (m_reqCache s) in
  let sign_size := getSigCacheSize (block_hash (p_msg prep)) (m_reqCache s) in
  if sign_size =? minValidNodes s then
    if negb (view (p_msg prep) =? m_view s) then mret tt
    else
      modifyCache updateCommittedPrepare;;
      s ← get;
      let committed := m_committedPrepareCache (m_reqCache s) in
      emit (EvLocked (height (p_msg committed)) (block_hash (p_msg committed)));;
      backupMsg c_backupKeyCommitted committed;;
      broadcastCommitReq prep;;
      modifyTime (set_lastSignTime (now E));;
      checkAndSave
  else mret tt.

(** ** Handlers *)

(** [handlePrepareMsg(PrepareReq const&, endpoint)]. *)
Definition handlePrepare (prepareReq : Prepare) : Handler bool :=
  valid_ret ← isValidPrepare prepareReq;
  if bool_decide (valid_ret = INVALID) then mret false
  else
    updateViewMap (idx (p_msg prepareReq)) (view (p_msg prepareReq));;
    if bool_decide (valid_ret = FUTURE) then mret true
    else
      modifyCache (addRawPrepare prepareReq);;
      r ← tryCatch (x ← execBlock prepareReq; mret (Some x)) (fun _ => mret None);
      match r with
      | None => mret true
      | Some (b, ctx) =>
          s ← get;
          if needOmit b s then
            changeViewForFastViewChange;; modifyTime (set_changeCycle 0);; mret true
          else
            sign_prepare ← lift (prepare_executed prepareReq b (headerHash b) ctx
                                   (m_keyPair (m_cfg s)) (now E));
            modifyCache (addPrepareReq sign_prepare);;
            broadcastSignReq sign_prepare;;
            checkAndCommit;;
            mret true
      end.

(** [handlePrepareMsg(PrepareReq&, PBFTMsgPacket const&)]: the result and the
    request, [None] when it does not decode. *)
Definition handlePrepareMsg (pbftMsg : PBFTMsgPacket) : Handler (bool * option PBFTMsg) :=
  match prepare_decode (PBFTMsg.data pbftMsg) with
  | Throw e => caught e (false, None)
  | Ok req => succ ← handlePrepare req; mret (succ, Some (p_msg req))
  end.

Definition handleSignMsg (pbftMsg : PBFTMsgPacket) : Handler (bool * option PBFTMsg) :=
  match msg_decode (PBFTMsg.data pbftMsg) 0 with
  | Throw e => caught e (false, None)
  | Ok req =>
      check_ret ← isValidSignReq req;
      if bool_decide (check_ret = INVALID) then mret (false, Some req)
      else
        updateViewMap (idx req) (view req);;
        if bool_decide (check_ret = FUTURE) then mret (true, Some req)
        else
          modifyCache (addSignReq req);;
          checkAndCommit;;
          mret (true, Some req)
  end.

Definition handleCommitMsg (pbftMsg : PBFTMsgPacket) : Handler (bool * option PBFTMsg) :=
  match msg_decode (PBFTMsg.data pbftMsg) 0 with
  | Throw e => caught e (false, None)
  | Ok req =>
      valid_ret ← isValidCommitReq req;
      if bool_decide (valid_ret = INVALID) then mret (false, Some req)
      else
        updateViewMap (idx req) (view req);;
        if bool_decide (valid_ret = FUTURE) then mret (true, Some req)
        else
          modifyCache (addCommitReq req);;
          checkAndSave;;
          mret (true, Some req)
  end.

Definition checkAndChangeView : Handler unit :=
  s ← get;
  let count := wrap 16 (getViewChangeSize (m_toView s) (m_reqCache s)) in
  when (minValidNodes s - 1 <=? count)
    (when (m_lastSignTime (m_timeManager s) =? 0) (modify (set_fastViewChange false));;
     when (m_view s + 1 <? m_toView s) (modifyTime (set_changeCycle 1));;
     modify (set_leaderFailed false);;
     modifyTime (set_lastConsensusTime (now E));;
     modify (set_view (m_toView s));;
     modify (set_notifyNextLeaderSeal false);;
     modifyCache (triggerViewChange (m_toView s));;
     emit (EvNoteSealing (bc_number (blockChain E)))).

Definition handleViewChangeMsg (pbftMsg : PBFTMsgPacket) : Handler (bool * option PBFTMsg) :=
  match msg_decode (PBFTMsg.data pbftMsg) 0 with
  | Throw e => caught e (false, None)
  | Ok req =>
      valid ← isValidViewChangeReq req (node_idx pbftMsg);
      if negb valid then mret (false, Some req)
      else
        modifyCache (addViewChangeReq req);;
        s ← get;
        (if view req =? m_toView s then checkAndChangeView
         else
           let '(should_trigger, min_view) :=
             canTriggerViewChange (m_f s) (m_toView s) (m_highestBlock s)
               (m_consensusBlockNumber s) (m_reqCache s) in
           when should_trigger (modify (set_toView (min_view - 1));; changeViewForFastViewChange));;
        mret (true, Some req)
  end.

(** The second half of [handleMsg]: an accepted message is forwarded while its
    time to live lasts; [current_ttl] is an [unsigned]. *)
Definition forwardMsg (pbftMsg : PBFTMsgPacket) (r : bool * option PBFTMsg) : Handler unit :=
  if PBFTMsg.ttl pbftMsg =? 1 then mret tt
  else
    match r with
    | (true, Some m) =>
        s ← get;
        let key := uniqueKey m in
        let highest := m_number (m_highestBlock s) in
        let height_flag := (highest <? height m) || (highest - height m <? 10) in
        if (0 <? lenZ key) && height_flag then
          let gen := getSealerByIndex (idx m) s in
          let filter : gset h512 :=
            {[node_id pbftMsg]} ∪ (if bool_decide (gen = h512_0) then ∅ else {[gen]}) in
          broadcastMsg (packet_id pbftMsg) key (PBFTMsg.data pbftMsg) filter
            (wrap 32 (PBFTMsg.ttl pbftMsg - 1));;
          mret tt
        else mret tt
    | _ => mret tt
    end.

(** [handleMsg]: dispatch on the packet type, then forward. *)
Definition handleMsg (pbftMsg : PBFTMsgPacket) : Handler unit :=
  let forward := forwardMsg pbftMsg in
  if packet_id pbftMsg =? PrepareReqPacket then handlePrepareMsg pbftMsg ≫= forward
  else if packet_id pbftMsg =? SignReqPacket then handleSignMsg pbftMsg ≫= forward
  else if packet_id pbftMsg =? CommitReqPacket then handleCommitMsg pbftMsg ≫= forward
  else if packet_id pbftMsg =? ViewChangeReqPacket then handleViewChangeMsg pbftMsg ≫= forward
  else mret tt.

(** [reportBlock]. *)
Definition reportBlock (b : Block Tx Rcpt) : Handler unit :=
  s ← get;
  let number := m_number (b_header b) in
  when ((bc_number (blockChain E) =? 0) || (m_number (m_highestBlock s) <? number))
    (when (has_onCommitBlock (m_cfg s))
       (emit (EvOnCommitBlock number (getTransactionSize b) (m_changeCycle (m_timeManager s))));;
     modifyCache (removeInvalidFutureCache (m_highestBlock s));;
     modify (set_highestBlock (b_header b));;
     when (m_consensusBlockNumber s <=? number)
       (modify (fun s => set_view 0 (set_toView 0 s));;
        modify (set_leaderFailed false);;
        modifyTime (set_lastConsensusTime (now E));;
        modifyTime (set_changeCycle 0);;
        modify (set_consensusBlockNumber (swrap 64 (number + 1)));;
        modifyCache (delInvalidViewChange (b_header b)));;
     resetConfig;;
     modifyCache (delCache (hashOf (b_header b)))).

Definition collectGarbage : Handler unit :=
  s ← get;
  if negb (header_bool (m_highestBlock s)) then mret tt
  else
    when (CollectInterval * 1000 <? now E - m_lastGarbageCollection (m_timeManager s))
      (modifyCache (collectGarbage_cache (m_highestBlock s));;
       modifyTime (set_lastGarbageCollection (now E))).

Definition checkTimeout : Handler unit :=
  s ← get;
  if isTimeout (now E) (m_timeManager s) then
    when (negb (m_lastConsensusTime (m_timeManager s) =? 0))
      (modify (set_fastViewChange false);;
       modifyTime updateChangeCycle;;
       when (has_onTimeout (m_cfg s) &&
             (m_number (m_highestBlock s) <? height (p_msg (m_prepareCache (m_reqCache s)))))
         (emit (EvOnTimeout (m_sealingNumber s))));;
    modify (set_toView (swrap 64 (m_toView s + 1)));;
    modify (set_leaderFailed true);;
    emit (EvNoteSealing (bc_number (blockChain E)));;
    modifyTime (set_lastConsensusTime (now E));;
    s ← get;
    modifyCache (removeInvalidViewChange (m_toView s) (m_highestBlock s));;
    succ ← broadcastViewChangeReq;
    if negb succ then mret tt
    else
      checkAndChangeView;;
      when (has_onViewChange (m_cfg s)) (emit EvOnViewChange)
  else mret tt.

Definition handleFutureBlock : Handler unit :=
  s ← get;
  match futurePrepareCache (m_consensusBlockNumber s) (m_reqCache s) with
  | None => mret tt
  | Some p =>
      if view (p_msg p) =? m_view s then
        handlePrepare p;;
        modifyCache (eraseHandledFutureReq (height (p_msg p)))
      else mret tt
  end.

(** ** The leader *)
Definition rehandleCommitedPrepareCache (req : Prepare) : Handler unit :=
  modify (fun s => set_broadCastCache (broadcast_clearAll (m_broadCastCache s)) s);;
  s ← get;
  prepare_req ← lift (prepare_resign req (m_keyPair (m_cfg s)) (m_view s) (nodeIdx s) (now E));
  data ← lift (prepare_encode prepare_req);
  broadcastMsg PrepareReqPacket (uniqueKey (p_msg prepare_req)) data ∅ 0;;
  handlePrepare prepare_req;;
  emit (EvNoteSealing (bc_number (blockChain E))).

Definition shouldSeal : Handler bool :=
  s ← get;
  if m_cfgErr s || (match m_accountType s with SealerAccount => false | _ => true end) then mret false
  else
    let '(ok, leader) := getLeader s in
    if negb ok then mret false
    else if negb (leader =? nodeIdx s) then
      mret (m_notifyNextLeaderSeal s && (getNextLeader s =? nodeIdx s))
    else
      let committed := m_committedPrepareCache (m_reqCache s) in
      if height (p_msg committed) =? m_consensusBlockNumber s then
        when (negb (height (p_msg (m_rawPrepareCache (m_reqCache s))) =? m_consensusBlockNumber s))
          (rehandleCommitedPrepareCache committed);;
        mret false
      else mret true.

Definition generatePrepare (b : Block Tx Rcpt) : Handler bool :=
  modify (set_notifyNextLeaderSeal false);;
  s ← get;
  encoded ← lift (bl_encode (codec E) b);
  prepare_req ← lift (prepare_of_block (m_number (b_header b)) (headerHash b) encoded b
                        (m_keyPair (m_cfg s)) (m_view s) (nodeIdx s) (now E));
  data ← lift (prepare_encode prepare_req);
  succ ← broadcastMsg PrepareReqPacket (uniqueKey (p_msg prepare_req)) data ∅ 0;
  if (succ : bool) then
    if needOmit b s then
      modify (set_leaderFailed true);;
      changeViewForFastViewChange;;
      modifyTime (set_changeCycle 0);;
      mret true
    else handlePrepare prepare_req;; mret succ
  else mret succ.

Definition canHandleBlockForNextLeader s : bool :=
  if negb (fst (getLeader s)) then false
  else if snd (getLeader s) =? nodeIdx s then true
  else if m_notifyNextLeaderSeal s && (getNextLeader s =? nodeIdx s) then false
  else true.

Definition reachMinBlockGenTime s : bool :=
  m_minBlockGenTime (m_timeManager s) <=? wrap 64 (now E - m_lastConsensusTime (m_timeManager s)).

Definition reachBlockIntervalTime s : bool :=
  m_emptyBlockGenTime (m_timeManager s) <=? wrap 64 (now E - m_lastConsensusTime (m_timeManager s)).

(** ** Receiving *)

(** [isValidReq]: the index of the sender, when the message is to be decoded. *)
Definition isValidReq (buffer : bytes) (from : NodeID) s : option Z :=
  if lenZ buffer <=? 0 then None
  else
    let peerIndex := getIndexBySealer from s in
    if peerIndex <? 0 then None
    else
      match getNodeIDByIndex (nodeIdx s) s with
      | None => None
      | Some me => if bool_decide (from = me) then None else Some peerIndex
      end.

Definition onRecvPBFTMessage (buffer : bytes) (from : NodeID) (ep : chars) : Handler unit :=
  s ← get;
  if nodeIdx s =? MAXIDX then mret tt
  else
    match isValidReq buffer from s with
    | None => mret tt
    | Some peerIndex =>
        match packet_decode (newPacket (now E)) buffer with
        | Throw e => caught e tt
        | Ok p =>
            when (packet_id p <=? ViewChangeReqPacket)
              (modify (fun s => set_msgQueue
                 (m_msgQueue s ++ [setOtherField (wrap 16 peerIndex) from ep (now E) p]) s))
        end
    end.

(** One round of [workLoop]: a popped message, then the periodic work; an
    exception ends the round. *)
Definition workLoop_body : Handler unit :=
  s ← get;
  (match m_msgQueue s with
   | p :: q => modify (set_msgQueue q);; handleMsg p
   | [] => mret tt
   end);;
  s ← get;
  when (negb (nodeIdx s =? MAXIDX)) (checkTimeout;; handleFutureBlock;; collectGarbage).

Definition workLoop_round : Handler unit := tryCatch workLoop_body (fun _ => mret tt).
End Handlers.
End Engine.
