(* ===== verification/PBFTSafety.v ===== *)
(** * Safety of the PBFT engine

    Invariants of [PBFTEngine] by induction over its entry points (messages,
    timeouts, future blocks, garbage collection, reported blocks, sealing):
    the locked prepare never changes hash at a height, views only grow, cached
    requests agree with the prepared block, and a block is committed only with
    a quorum of sign and of commit requests. *)

From S2P Require Import Prelude CommonData PBFTMsg BlockHeader Block PBFTMsgCache.
From S2P Require Import PBFTReqCache PBFTState PBFTEngine.

(** ** Weakest preconditions for the handler monad *)
Section WP.
Context {Tx Rcpt Ctx : Type}.
Abbreviation Engine := (PBFTEngine Tx Rcpt Ctx).
Abbreviation Handler := (M Tx Rcpt Ctx).

(** [m] from [s] ends in [Q], or throws in a state satisfying [I]. *)
Definition wp {A} (I : Engine -> Prop) (m : Handler A) (Q : A -> Engine -> Prop) (s : Engine) : Prop :=
  match m s with
  | (s', Ok a) => Q a s'
  | (s', Throw _) => I s'
  end.

Variable I : Engine -> Prop.

Lemma wp_bind {A B} (m : Handler A) (f : A -> Handler B) Q s :
  wp I m (fun a => wp I (f a) Q) s -> wp I (m ≫= f) Q s.
Proof. unfold wp, mbind, M_bind. by destruct (m s) as [s' [a|e]]. Qed.

Lemma wp_get (Q : Engine -> Engine -> Prop) s : Q s s -> wp I get Q s.
Proof. done. Qed.

Lemma wp_ret {A} (a : A) Q s : Q a s -> wp I (mret a) Q s.
Proof. done. Qed.

Lemma wp_modify f (Q : unit -> Engine -> Prop) s : Q tt (f s) -> wp I (modify f) Q s.
Proof. done. Qed.

Lemma wp_lift {A} (r : result A) Q s :
  (forall a, r = Ok a -> Q a s) -> (forall e, r = Throw e -> I s) -> wp I (lift r) Q s.
Proof. unfold wp, lift. destruct r; eauto. Qed.

Lemma wp_throw {A} e (Q : A -> Engine -> Prop) s : I s -> wp I (throw e) Q s.
Proof. done. Qed.

Lemma wp_when b (m : Handler unit) (Q : unit -> Engine -> Prop) s :
  (b = true -> wp I m Q s) -> (b = false -> Q tt s) -> wp I (when b m) Q s.
Proof. destruct b; cbn; eauto. Qed.

Lemma wp_mono {A} (m : Handler A) (Q Q' : A -> Engine -> Prop) s :
  (forall a s', Q a s' -> Q' a s') -> wp I m Q s -> wp I m Q' s.
Proof. unfold wp. destruct (m s) as [s' [a|e]]; eauto. Qed.

Lemma wp_try {A} (m : Handler A) h Q s :
  wp (fun s' => I s' /\ forall e, wp I (h e) Q s') m Q s -> wp I (tryCatch m h) Q s.
Proof.
  unfold wp, tryCatch. destruct (m s) as [s' [a|e]]; [done |]. intros [HI Hm].
  destruct e; (exact HI || apply Hm).
Qed.

Lemma wp_caught {A} e (a : A) Q s : I s -> Q a s -> wp I (caught e a) Q s.
Proof. intros HI HQ. apply wp_try. by split. Qed.

Lemma wp_fst {A} (m : Handler A) (Q : Engine -> Prop) s :
  (forall s', I s' -> Q s') -> wp I m (fun _ => Q) s -> Q (fst (m s)).
Proof. unfold wp. destruct (m s) as [s' [a|e]]; eauto. Qed.
End WP.

(** Symbolic execution of one handler step. *)
Ltac wp_step :=
  lazymatch goal with
  | |- wp _ (_ ≫= _) _ _ => apply wp_bind
  | |- wp _ get _ _ => apply wp_get
  | |- wp _ (mret _) _ _ => apply wp_ret
  | |- wp _ (modify _) _ _ => apply wp_modify
  | |- wp _ (emit _) _ _ => apply wp_modify
  | |- wp _ (modifyCache _) _ _ => apply wp_modify
  | |- wp _ (modifyTime _) _ _ => apply wp_modify
  | |- wp _ (throw _) _ _ => apply wp_throw
  end.

(** ** What the invariants see of a state *)
Section Core.
Context {Tx Rcpt Ctx : Type}.
Abbreviation Engine := (PBFTEngine Tx Rcpt Ctx).
Abbreviation Handler := (M Tx Rcpt Ctx).

Definition lock_of (e : Event Tx Rcpt Ctx) : option (Z * h256) :=
  match e with EvLocked h x => Some (h, x) | _ => None end.
Definition commit_of (e : Event Tx Rcpt Ctx) : option (Block Tx Rcpt * option Ctx) :=
  match e with EvCommitBlock b ctx => Some (b, ctx) | _ => None end.

(** The locks taken and the blocks given to the chain so far. *)
Definition locks (s : Engine) : list (Z * h256) := omap lock_of (m_trace s).
Definition commits (s : Engine) : list (Block Tx Rcpt * option Ctx) := omap commit_of (m_trace s).

Definition config (s : Engine) : BlockHeader * IDXTYPE * IDXTYPE * IDXTYPE * list h512 * Config :=
  (m_highestBlock s, m_nodeNum s, m_f s, m_idx s, eng_sealerList s, m_cfg s).

Definition core (s : Engine) :=
  (m_view s, m_toView s, m_consensusBlockNumber s, m_reqCache s, locks s, commits s, config s).

(** The core without the configuration. *)
Definition kern (s : Engine) :=
  (m_view s, m_toView s, m_consensusBlockNumber s, m_reqCache s, locks s, commits s).

(** [m] leaves a part of the state alone. *)
Section FrameOf.
Context {X : Type} (proj : Engine -> X).

Definition frame_of {A} (m : Handler A) : Prop := forall s, proj (fst (m s)) = proj s.

Lemma frame_bind {A B} (m : Handler A) (f : A -> Handler B) :
  frame_of m -> (forall a, frame_of (f a)) -> frame_of (m ≫= f).
Proof.
  intros Hm Hf s. unfold mbind, M_bind. specialize (Hm s). destruct (m s) as [s' [a|e]]; [| done].
  rewrite (Hf a s'). exact Hm.
Qed.

Lemma frame_get : frame_of get.
Proof. done. Qed.
Lemma frame_ret {A} (a : A) : frame_of (mret a).
Proof. done. Qed.
Lemma frame_lift {A} (r : result A) : frame_of (lift r).
Proof. done. Qed.
Lemma frame_throw {A} e : frame_of (A := A) (throw e).
Proof. done. Qed.
Lemma frame_modify f : (forall s, proj (f s) = proj s) -> frame_of (modify f).
Proof. intros Hf s. apply Hf. Qed.
Lemma frame_when b m : frame_of m -> frame_of (when b m).
Proof. by destruct b. Qed.
Lemma frame_if {A} (b : bool) (m1 m2 : Handler A) :
  frame_of m1 -> frame_of m2 -> frame_of (if b then m1 else m2).
Proof. by destruct b. Qed.
Lemma frame_try {A} (m : Handler A) h :
  frame_of m -> (forall e, frame_of (h e)) -> frame_of (tryCatch m h).
Proof.
  intros Hm Hh s. unfold tryCatch. specialize (Hm s). destruct (m s) as [s' [a|e]]; [done |].
  destruct e; (done || by rewrite (Hh _ s')).
Qed.
Lemma frame_caught {A} e (a : A) : frame_of (caught e a).
Proof. by apply frame_try. Qed.
End FrameOf.

Abbreviation frame := (frame_of core).

Lemma frame_emit e : lock_of e = None -> commit_of e = None -> frame (emit e).
Proof.
  intros Hl Hc s. unfold core, locks, commits. cbn. by rewrite Hl, Hc.
Qed.

(** Use of a framed call in a proof about [wp]. *)
Lemma wp_frame {A} (I : Engine -> Prop) (m : Handler A) (Q : A -> Engine -> Prop) s :
  frame m -> (forall s', core s' = core s -> I s') ->
  (forall a s', core s' = core s -> Q a s') -> wp I m Q s.
Proof. intros Hf HI HQ. unfold wp. specialize (Hf s). destruct (m s) as [s' [a|e]]; auto. Qed.
End Core.

Abbreviation frame := (frame_of core).

Create HintDb frames.
#[export] Hint Resolve frame_get frame_ret frame_lift frame_throw frame_caught : frames.
Ltac frame_tac :=
  repeat first
    [ progress intros
    | solve [eauto with frames]
    | apply frame_bind | apply frame_if | apply frame_when | apply frame_try
    | apply frame_emit; reflexivity
    | apply frame_modify; intros; reflexivity
    | case_step ].

(** ** Calls that leave the core alone *)
Section Frames.
Context `{Crypto} `{MapOrder} {Tx Rcpt Ctx : Type} (E : Env Tx Rcpt Ctx).

Lemma broadcastMark_frame id t key : frame_of (core (Tx := Tx) (Rcpt := Rcpt) (Ctx := Ctx)) (broadcastMark id t key).
Proof. intros s. cbn. by destruct (keyExists _ _ _ _). Qed.
Hint Resolve broadcastMark_frame : frames.

Lemma selectPeers_frame ids t key filter :
  frame_of (core (Tx := Tx) (Rcpt := Rcpt) (Ctx := Ctx)) (selectPeers ids t key filter).
Proof. induction ids as [|id ids IH]; cbn [selectPeers]; frame_tac. Qed.
Hint Resolve selectPeers_frame : frames.

Lemma transData_frame d t ttl : frame (transDataToMessage E d t ttl).
Proof. unfold transDataToMessage. frame_tac. Qed.
Hint Resolve transData_frame : frames.

Lemma broadcastMsg_frame t key d filter ttl : frame (broadcastMsg E t key d filter ttl).
Proof. unfold broadcastMsg. frame_tac. Qed.

Lemma sendMsg_frame id t key d ttl : frame (sendMsg E id t key d ttl).
Proof. unfold sendMsg. frame_tac. Qed.
Hint Resolve broadcastMsg_frame sendMsg_frame : frames.

Lemma sendViewChangeMsg_frame id : frame (sendViewChangeMsg E id).
Proof. unfold sendViewChangeMsg. frame_tac. Qed.
Hint Resolve sendViewChangeMsg_frame : frames.

Lemma broadcastViewChangeReq_frame : frame (broadcastViewChangeReq E).
Proof. unfold broadcastViewChangeReq. frame_tac. Qed.

Lemma catchupView_frame m : frame (catchupView E m).
Proof. unfold catchupView. frame_tac. Qed.
Hint Resolve catchupView_frame : frames.

Lemma isValidViewChangeReq_frame m i : frame (isValidViewChangeReq E m i).
Proof. unfold isValidViewChangeReq. frame_tac. Qed.

Lemma updateViewMap_frame i v : frame_of (core (Tx := Tx) (Rcpt := Rcpt) (Ctx := Ctx)) (updateViewMap i v).
Proof. unfold updateViewMap. frame_tac. Qed.

Lemma backupMsg_frame key (p : PrepareReq (Block Tx Rcpt) Ctx) : frame (backupMsg E key p).
Proof. unfold backupMsg. frame_tac. Qed.

Lemma checkBlockValid_frame b : frame (checkBlockValid E b).
Proof. unfold checkBlockValid. frame_tac. Qed.
Hint Resolve checkBlockValid_frame : frames.

Lemma notifySealing_frame b : frame (notifySealing E b).
Proof. unfold notifySealing. frame_tac. Qed.
Hint Resolve notifySealing_frame : frames.

Lemma execBlock_frame p : frame (execBlock E p).
Proof. unfold execBlock. frame_tac. Qed.

Lemma fastViewChange_frame : frame_of (core (Tx := Tx) (Rcpt := Rcpt) (Ctx := Ctx)) changeViewForFastViewChange.
Proof. unfold changeViewForFastViewChange, modifyTime. frame_tac. Qed.

Lemma onRecv_frame buf from ep : frame (onRecvPBFTMessage E buf from ep).
Proof. unfold onRecvPBFTMessage. frame_tac. Qed.
End Frames.
#[export] Hint Resolve broadcastMsg_frame broadcastViewChangeReq_frame isValidViewChangeReq_frame
  updateViewMap_frame backupMsg_frame execBlock_frame fastViewChange_frame onRecv_frame : frames.

(** ** The invariant of the caches *)
Section Invariant.
Context `{Crypto} `{MapOrder} {Tx Rcpt Ctx : Type}.
Abbreviation Prepare := (PrepareReq (Block Tx Rcpt) Ctx).
Abbreviation Cache := (PBFTReqCache Tx Rcpt Ctx).
Abbreviation Engine := (PBFTEngine Tx Rcpt Ctx).
Implicit Types c : Cache.

Definition raw c : PBFTMsg := p_msg (m_rawPrepareCache c).
Definition prep c : PBFTMsg := p_msg (m_prepareCache c).
Definition lock c : PBFTMsg := p_msg (m_committedPrepareCache c).

(** A cleared or default request. *)
Definition dead (m : PBFTMsg) : Prop := height m = -1 /\ view m = MAXVIEW.

(** Entries cached for the prepared hash carry the prepared view. *)
Definition agree (p : PBFTMsg) (m : gmap h256 (gmap chars PBFTMsg)) : Prop :=
  forall k x, lookup2 (block_hash p) k m = Some x -> view x = view p.

(** A prepared request belongs to the raw request, comes with its executed
    block, and the entries for its hash agree with it. *)
Record prepared c : Prop := {
  pr_height : 0 <= height (prep c) /\ height (prep c) = height (raw c);
  pr_view : view (prep c) = view (raw c);
  pr_block : exists b, pBlock (m_prepareCache c) = Some b /\ headerHash b = block_hash (prep c);
  pr_sign : agree (prep c) (m_signCache c);
  pr_commit : agree (prep c) (m_commitCache c)
}.

(** The raw request is at the current height at most, not below the lock, and
    has the locked hash when it is at the height of the lock. *)
Definition raw_ok (cn : Z) c : Prop :=
  0 <= height (raw c) <= cn /\ height (lock c) <= height (raw c) /\
  (height (raw c) = height (lock c) -> block_hash (raw c) = block_hash (lock c)).

Record cinv (cn : Z) (lk : list (Z * h256)) c : Prop := {
  ci_wf : cache_wf c;
  ci_cn : 0 <= cn /\ height (lock c) <= cn;
  ci_raw : height (raw c) = -1 \/ raw_ok cn c;
  ci_prep : dead (prep c) \/ prepared c;
  ci_locks : forall h x, (h, x) ∈ lk ->
    h < height (lock c) \/ (h = height (lock c) /\ x = block_hash (lock c));
  ci_once : forall h x y, (h, x) ∈ lk -> (h, y) ∈ lk -> x = y
}.

(** An operation that keeps the three prepares and only removes entries. *)
Lemma cinv_remove cn lk c c' :
  cinv cn lk c -> cache_wf c' ->
  m_rawPrepareCache c' = m_rawPrepareCache c ->
  m_committedPrepareCache c' = m_committedPrepareCache c ->
  m_prepareCache c' = m_prepareCache c ->
  (forall h k m, lookup2 h k (m_signCache c') = Some m -> lookup2 h k (m_signCache c) = Some m) ->
  (forall h k m, lookup2 h k (m_commitCache c') = Some m -> lookup2 h k (m_commitCache c) = Some m) ->
  cinv cn lk c'.
Proof.
  intros [] Hwf Er Ec Ep Hs Hm. unfold raw_ok, raw, lock, prep in *. split.
  - done.
  - unfold lock. by rewrite Ec.
  - unfold raw_ok, raw, lock. by rewrite Er, Ec.
  - unfold prep. rewrite Ep. destruct ci_prep0 as [|[]]; [by left | right].
    unfold agree, prep, raw in *. split; unfold agree, prep, raw; rewrite ?Ep, ?Er; eauto.
  - unfold lock. by rewrite Ec.
  - done.
Qed.

Lemma cinv_clear_prepare cn lk c :
  cinv cn lk c -> cinv cn lk (upd_prepare (prepare_clear (m_prepareCache c)) c).
Proof. intros []. split; try done; [by apply upd_prepare_wf | by left]. Qed.

Lemma cinv_delCache cn lk c h : cinv cn lk c -> cinv cn lk (delCache h c).
Proof.
  intros Hc.
  assert (cinv cn lk (upd_commit (delete h (m_commitCache c)) (upd_sign (delete h (m_signCache c)) c)))
    as H1.
  { apply (cinv_remove cn lk c); try done.
    - destruct Hc as [Hwf]. apply upd_commit_wf; [apply upd_sign_wf; [done |] |];
        intros ? ? ? Hx; apply lookup2_delete in Hx as [Hx _]; eauto using wf_sign, wf_commit.
    - cbn. intros ? ? ? Hx. by apply lookup2_delete in Hx as [Hx _].
    - cbn. intros ? ? ? Hx. by apply lookup2_delete in Hx as [Hx _]. }
  unfold delCache. case_step; [by apply cinv_clear_prepare | done].
Qed.

Lemma cinv_removeFuture cn lk c b : cinv cn lk c -> cinv cn lk (removeInvalidFutureCache b c).
Proof. intros Hc. apply (cinv_remove cn lk c); try done. by apply removeFuture_wf, Hc. Qed.

Lemma cinv_erase cn lk c n : cinv cn lk c -> cinv cn lk (eraseHandledFutureReq n c).
Proof. intros Hc. apply (cinv_remove cn lk c); try done. by apply (cache_step_wf (CErase n)), Hc. Qed.

Lemma cinv_addFuture cn lk c p : cinv cn lk c -> cinv cn lk (addFuturePrepareCache p c).
Proof.
  intros Hc. pose proof (addFuture_wf p c (ci_wf _ _ _ Hc)) as Hwf. revert Hwf.
  unfold addFuturePrepareCache. case_step; [done |]. case_step; [done |]. intros Hwf.
  by apply (cinv_remove cn lk c).
Qed.

Lemma cinv_delViewChange cn lk c b : cinv cn lk c -> cinv cn lk (delInvalidViewChange b c).
Proof. intros Hc. apply (cinv_remove cn lk c); try done. by apply delViewChange_wf, Hc. Qed.

Lemma cinv_removeViewChange cn lk c v b : cinv cn lk c -> cinv cn lk (removeInvalidViewChange v b c).
Proof.
  intros Hc. apply (cinv_remove cn lk c); try done.
  by apply (cache_step_wf (CRemoveViewChange v b)), Hc.
Qed.

Lemma cinv_addViewChange cn lk c m : cinv cn lk c -> cinv cn lk (addViewChangeReq m c).
Proof.
  intros Hc. apply (cinv_remove cn lk c); try done. by apply (cache_step_wf (CAddViewChange m)), Hc.
Qed.

Lemma cinv_garbage cn lk c b : cinv cn lk c -> cinv cn lk (collectGarbage_cache b c).
Proof.
  intros Hc. apply (cinv_remove cn lk c); try done.
  - by apply (cache_step_wf (CGarbage b)), Hc.
  - cbn. intros ? ? ? Hx. by apply lookup2_filterAll in Hx as [Hx _].
  - cbn. intros ? ? ? Hx. by apply lookup2_filterAll in Hx as [Hx _].
Qed.

Lemma cinv_trigger cn lk c v : cinv cn lk c -> cinv cn lk (triggerViewChange v c).
Proof. intros []. split; try done; [by apply trigger_wf | by left | by left]. Qed.

(** A request may be added when it agrees with the prepared one. *)
Definition may_add c (m : PBFTMsg) : Prop :=
  dead (prep c) \/ block_hash m <> block_hash (prep c) \/ view m = view (prep c).

Lemma agree_insert c (m : PBFTMsg) (x : gmap h256 (gmap chars PBFTMsg)) :
  may_add c m -> ~ dead (prep c) -> agree (prep c) x ->
  agree (prep c) (insert2 (block_hash m) (sigKey m) m x).
Proof.
  intros Hm Hd Ha k y. rewrite lookup2_insert2. case_decide as Hk; [| apply Ha].
  intros [= <-]. destruct Hm as [|[Hm|]]; [done | | done]. by destruct Hk as [Hk _].
Qed.

Lemma prepared_not_dead c : prepared c -> ~ dead (prep c).
Proof. intros [[]] []. lia. Qed.

Lemma cinv_addSign cn lk c m : cinv cn lk c -> may_add c m -> cinv cn lk (addSignReq m c).
Proof.
  intros [] Hm. split; try done; [by apply (cache_step_wf (CAddSign m)) |].
  destruct ci_prep0 as [|Hp]; [by left | right]. pose proof (prepared_not_dead _ Hp).
  destruct Hp. split; try done. by apply agree_insert.
Qed.

Lemma cinv_addCommit cn lk c m : cinv cn lk c -> may_add c m -> cinv cn lk (addCommitReq m c).
Proof.
  intros [] Hm. split; try done; [by apply (cache_step_wf (CAddCommit m)) |].
  destruct ci_prep0 as [|Hp]; [by left | right]. pose proof (prepared_not_dead _ Hp).
  destruct Hp. split; try done. by apply agree_insert.
Qed.

Lemma cinv_addRaw cn lk c (p : Prepare) :
  cinv cn lk c -> height (p_msg p) = cn ->
  (height (p_msg p) = height (lock c) -> block_hash (p_msg p) = block_hash (lock c)) ->
  cinv cn lk (addRawPrepare p c).
Proof.
  intros [] Hh Hx. split; try done.
  - by apply (cache_step_wf (CAddRaw p)).
  - right. unfold raw_ok, raw. cbn. destruct ci_cn0. split_and!; try lia; try done.
    change (lock (addRawPrepare p c)) with (lock c). lia.
  - by left.
Qed.

(** The executed request of the raw prepare just added. *)
Lemma cinv_addPrepare cn lk c (p : Prepare) b :
  cinv cn lk c -> height (p_msg p) = height (raw c) -> view (p_msg p) = view (raw c) ->
  0 <= height (raw c) -> pBlock p = Some b -> headerHash b = block_hash (p_msg p) ->
  cinv cn lk (addPrepareReq p c).
Proof.
  intros [] Hh Hv Hp Hb Hbh. split; try done.
  - by apply (cache_step_wf (CAddPrepare p)).
  - right. split; try done.
    + change (prep (addPrepareReq p c)) with (p_msg p). change (raw (addPrepareReq p c)) with (raw c). lia.
    + by exists b.
    + intros k x Hx. apply lookup2_filterAt in Hx as [_ Hx]. specialize (Hx eq_refl).
      by bool_to_prop.
    + intros k x Hx. apply lookup2_filterAt in Hx as [_ Hx]. specialize (Hx eq_refl).
      by bool_to_prop.
Qed.

(** Locking on the raw prepare of a prepared request. *)
Lemma cinv_lock cn lk c :
  cinv cn lk c -> prepared c ->
  cinv cn ((height (raw c), block_hash (raw c)) :: lk) (updateCommittedPrepare c).
Proof.
  intros [] [[Hp0 Hp] Hv Hb Hs Hm].
  destruct ci_raw0 as [?|(Hr & Hl & Hx)]; [lia |]. split.
  - by apply (cache_step_wf CCommitted).
  - change (lock (updateCommittedPrepare c)) with (raw c). lia.
  - right. unfold raw_ok. change (lock (updateCommittedPrepare c)) with (raw c).
    change (raw (updateCommittedPrepare c)) with (raw c). split_and!; [lia.. | done].
  - right. by split.
  - change (lock (updateCommittedPrepare c)) with (raw c). intros h x Hin.
    apply elem_of_cons in Hin as [[= -> ->]|Hin]; [by right |].
    destruct (ci_locks0 h x Hin) as [?|[-> ->]]; [left; lia |].
    destruct (decide (height (raw c) = height (lock c))) as [e|]; [right | left; lia].
    rewrite <- Hx by done. done.
  - assert (forall y, (height (raw c), y) ∈ lk -> y = block_hash (raw c)) as Hold.
    { intros y Hy. destruct (ci_locks0 _ _ Hy) as [?|[? ->]]; [lia |]. by rewrite Hx. }
    intros h x y Hhx Hhy.
    apply elem_of_cons in Hhx as [Hhx|Hhx]; apply elem_of_cons in Hhy as [Hhy|Hhy]; simplify_eq;
      eauto; symmetry; eauto.
Qed.

(** Attaching the signature list to the prepared block. *)
Lemma cinv_setSig cn lk c b b' :
  cinv cn lk c -> pBlock (m_prepareCache c) = Some b -> headerHash b' = headerHash b ->
  cinv cn lk (upd_prepare {| p_msg := prep c; PBFTMsg.block := PBFTMsg.block (m_prepareCache c);
    pBlock := Some b'; p_execContext := p_execContext (m_prepareCache c) |} c).
Proof.
  intros [] Hb Hh. split; try done; [by apply upd_prepare_wf |].
  destruct ci_prep0 as [|[? ? (b0 & E0 & Hb0)]]; [by left | right]. split; try done.
  exists b'. split; [done |]. assert (b0 = b) as -> by congruence. rewrite Hh. exact Hb0.
Qed.

Lemma cinv_mono cn cn' lk c : cinv cn lk c -> cn <= cn' -> cinv cn' lk c.
Proof.
  intros [] Hle. split; try done; [lia |]. destruct ci_raw0 as [|(? & ? & ?)]; [by left | right].
  split_and!; [lia.. | done].
Qed.
End Invariant.

(** ** The invariant of the engine *)
Section EngineInvariant.
Context `{Crypto} `{MapOrder} {Tx Rcpt Ctx : Type}.
Abbreviation Prepare := (PrepareReq (Block Tx Rcpt) Ctx).
Abbreviation Engine := (PBFTEngine Tx Rcpt Ctx).
Abbreviation Handler := (M Tx Rcpt Ctx).
Implicit Types s : Engine.

(** The locks taken before the engine was built, by the process whose database
    it was started on. *)
Variable L : list (Z * h256).

Definition taken s : list (Z * h256) := locks s ++ L.

Definition inv s : Prop :=
  cinv (m_consensusBlockNumber s) (taken s) (m_reqCache s) /\ 0 <= m_view s <= m_toView s.

(** One call of an entry point: what it reads outside of the engine, the sign,
    commit and view change requests it receives, by packet type, and the
    prepares it is offered. *)
Variables (E : Env Tx Rcpt Ctx) (rcv : Z -> PBFTMsg -> Prop) (offers : Prepare -> Prop).

(** A request that came in during the call: received and signed by the sealer it
    names, or made and signed by the node itself. *)
Definition arrives s0 (packetType : Z) (x : PBFTMsg) : Prop :=
  (rcv packetType x /\ checkSign x s0 = Ok true) \/
  exists h v hash, newMsg (m_keyPair (m_cfg s0)) h v (m_idx s0) hash (now E) = Ok x.

(** A cache whose requests were there before the call or came in during it, and
    whose prepared request, if any, is the old one or belongs to a prepare that
    the call was offered at the height and in the view agreed on. *)
Definition entries_from s0 (packetType : Z) (m0 m : gmap h256 (gmap chars PBFTMsg)) : Prop :=
  forall h k x, lookup2 h k m = Some x -> lookup2 h k m0 = Some x \/ arrives s0 packetType x.

Definition prep_from s0 (p : PBFTMsg) : Prop :=
  p = prep (m_reqCache s0) \/
  exists req, offers req /\ height p = height (p_msg req) /\ view p = view (p_msg req) /\
    height p = m_consensusBlockNumber s0.

Record from s0 (c : PBFTReqCache Tx Rcpt Ctx) : Prop := {
  from_sign : entries_from s0 SignReqPacket (m_signCache (m_reqCache s0)) (m_signCache c);
  from_commit : entries_from s0 CommitReqPacket (m_commitCache (m_reqCache s0)) (m_commitCache c);
  from_prep : dead (prep c) \/ prep_from s0 (prep c)
}.

(** [n - f] requests for the block of [p] in its view, filed under their
    signatures, each of them in the cache before the call or come in during it. *)
Definition quorum s0 (packetType : Z) (m0 : gmap h256 (gmap chars PBFTMsg)) (p : PBFTMsg)
    (q : gmap chars PBFTMsg) : Prop :=
  minValidNodes s0 <= Z.of_nat (size q) /\
  forall k x, q !! k = Some x ->
    block_hash x = block_hash p /\ view x = view p /\ sigKey x = k /\
    (lookup2 (block_hash p) k m0 = Some x \/ arrives s0 packetType x).

(** What the engine has when it hands [b] to the chain in a call from [s0]. *)
Definition justified s0 (b : Block Tx Rcpt) : Prop :=
  exists p signs cms,
    prep_from s0 p /\ headerHash b = block_hash p /\ view p = m_view s0 /\
    m_number (m_highestBlock s0) < height p /\
    quorum s0 SignReqPacket (m_signCache (m_reqCache s0)) p signs /\
    quorum s0 CommitReqPacket (m_commitCache (m_reqCache s0)) p cms /\
    (0 < minValidNodes s0 -> sigListOf (order cms) = Ok (b_sigList b)).

(** The same views, height, configuration and commits as [s0], the invariant, and
    caches that come from [s0] and the call. *)
Definition fresh s0 s : Prop :=
  inv s /\ (m_consensusBlockNumber s = m_consensusBlockNumber s0 /\ from s0 (m_reqCache s)) /\
  m_view s = m_view s0 /\ m_toView s = m_toView s0 /\ config s = config s0 /\
  commits s = commits s0.

(** ... or one more commit, justified when it was made. *)
Definition good s0 s : Prop :=
  inv s /\ m_view s = m_view s0 /\ m_toView s = m_toView s0 /\ config s = config s0 /\
  (commits s = commits s0 \/
   exists b ctx, commits s = (b, ctx) :: commits s0 /\ justified s0 b).

Lemma fresh_good s0 s : fresh s0 s -> good s0 s.
Proof. intros (? & ? & ? & ? & ? & ?). unfold good. eauto 10. Qed.

Lemma core_inv s s' : core s' = core s -> inv s -> inv s'.
Proof. intros [= Ev Et En Ec El _ _ _ _ _ _ _] []. unfold inv, taken in *. split; congruence. Qed.

Lemma core_checkSign x s s' : config s' = config s -> checkSign x s' = checkSign x s.
Proof. intros [= _ _ _ _ Es _]. unfold checkSign, getNodeIDByIndex, getSealerByIndex. by rewrite Es. Qed.

Lemma core_fresh s0 s s' : core s' = core s -> fresh s0 s -> fresh s0 s'.
Proof.
  intros Hc (Hi & [? ?] & ? & ? & ? & ?). pose proof (core_inv _ _ Hc Hi). unfold core in Hc.
  split; [done |]. injection Hc as ? ? ? ? ? ? ? ? ? ? ? ?. unfold config in *.
  split_and!; congruence.
Qed.

Lemma core_good s0 s s' : core s' = core s -> good s0 s -> good s0 s'.
Proof.
  intros Hc (Hi & ? & ? & ? & Hor). pose proof (core_inv _ _ Hc Hi). unfold core in Hc.
  injection Hc as ? ? ? ? ? Hcm ? ? ? ? ? ?. unfold good. unfold config in *. rewrite Hcm.
  split_and!; try congruence; done.
Qed.

Lemma fresh_cache s0 s c : fresh s0 s -> cinv (m_consensusBlockNumber s) (taken s) c ->
  from s0 c -> fresh s0 (set_reqCache c s).
Proof. intros ([? ?] & [? _] & Hrest) Hc Hfr. split; [by split |]. split; [by split | exact Hrest]. Qed.

Lemma good_cache s0 s c : good s0 s -> cinv (m_consensusBlockNumber s) (taken s) c ->
  good s0 (set_reqCache c s).
Proof. intros ([? ?] & Hrest) Hc. split; [by split | exact Hrest]. Qed.

Lemma fresh_cinv s0 s : fresh s0 s -> cinv (m_consensusBlockNumber s) (taken s) (m_reqCache s).
Proof. by intros [[? _] _]. Qed.

Lemma good_cinv s0 s : good s0 s -> cinv (m_consensusBlockNumber s) (taken s) (m_reqCache s).
Proof. by intros [[? _] _]. Qed.

Lemma fresh_from s0 s : fresh s0 s -> from s0 (m_reqCache s).
Proof. by intros (_ & [_ ?] & _). Qed.

Lemma fresh_config s0 s : fresh s0 s -> config s = config s0.
Proof. by intros (_ & _ & _ & _ & ? & _). Qed.

(** *** Where the entries of a cache come from *)
Lemma from_refl s : from s (m_reqCache s).
Proof. split; [by left.. |]. right. by left. Qed.

Lemma entries_insert s0 ty m0 m (x : PBFTMsg) : entries_from s0 ty m0 m -> arrives s0 ty x ->
  entries_from s0 ty m0 (insert2 (block_hash x) (sigKey x) x m).
Proof.
  intros Hm Hx h k y. rewrite lookup2_insert2. case_decide; [| apply Hm]. intros [= <-]. by right.
Qed.

Lemma entries_filter s0 ty m0 m keep h : entries_from s0 ty m0 m -> entries_from s0 ty m0 (filterAt keep h m).
Proof. intros Hm a k y Hy. apply lookup2_filterAt in Hy as [Hy _]. by apply Hm. Qed.

Lemma from_addSign s0 c x : from s0 c -> arrives s0 SignReqPacket x -> from s0 (addSignReq x c).
Proof. intros [] Hx. split; [by apply entries_insert | done..]. Qed.

Lemma from_addCommit s0 c x : from s0 c -> arrives s0 CommitReqPacket x -> from s0 (addCommitReq x c).
Proof. intros [] Hx. split; [done | by apply entries_insert | done]. Qed.

Lemma from_addRaw s0 c p : from s0 c -> from s0 (addRawPrepare p c).
Proof. intros []. split; [done.. |]. by left. Qed.

Lemma from_addPrepare s0 c p : from s0 c -> prep_from s0 (p_msg p) -> from s0 (addPrepareReq p c).
Proof. intros [] Hp. split; [by apply entries_filter.. |]. by right. Qed.

Lemma from_addFuture s0 c p : from s0 c -> from s0 (addFuturePrepareCache p c).
Proof. intros []. unfold addFuturePrepareCache. repeat case_step; by split. Qed.

(** A received request that [checkReq] did not refuse, and the node's own. *)
Lemma arrives_rcv s0 s ty x : fresh s0 s -> rcv ty x -> checkSign x s = Ok true -> arrives s0 ty x.
Proof. intros Hf Hr Hc. left. by rewrite <- (core_checkSign x s0 s (fresh_config _ _ Hf)). Qed.

Lemma arrives_own s0 s ty h v hash x : fresh s0 s ->
  newMsg (m_keyPair (m_cfg s)) h v (nodeIdx s) hash (now E) = Ok x -> arrives s0 ty x.
Proof.
  intros Hf Hx. pose proof (fresh_config _ _ Hf) as [= _ _ _ Ei _ Ek]. unfold nodeIdx in Hx.
  rewrite Ei, Ek in Hx. right. eauto.
Qed.

(** A framed call between two fresh (or good) states. *)
Lemma wp_fresh {A} s0 (m : Handler A) (Q : A -> Engine -> Prop) s :
  frame m -> fresh s0 s -> (forall a s', fresh s0 s' -> core s' = core s -> Q a s') ->
  wp (good s0) m Q s.
Proof.
  intros Hf Hs HQ. apply wp_frame; [done | |].
  - intros s' Hc. apply fresh_good. by eapply core_fresh.
  - intros a s' Hc. apply HQ; [by eapply core_fresh | done].
Qed.

Lemma wp_good {A} s0 (m : Handler A) s :
  frame m -> good s0 s -> wp (good s0) m (fun _ => good s0) s.
Proof. intros Hf Hs. apply wp_frame; [done | |]; intros; by eapply core_good. Qed.

(** [generateAndSetSigList] changes the signature list only. *)
Lemma generate_header (c : PBFTReqCache Tx Rcpt Ctx) b n r b' :
  generateAndSetSigList b n c = Ok (r, b') -> @headerHash Tx Rcpt _ b' = headerHash b.
Proof.
  unfold generateAndSetSigList. case_step; [| by intros [= _ <-]].
  destruct (sigListOf _); [| done]. cbn [mbind result_bind]. case_step; by intros [= _ <-].
Qed.

Lemma mapM_result_length {A B} (f : A -> result B) l r :
  RLP.mapM_result f l = Ok r -> length r = length l.
Proof.
  revert r. induction l as [|x l IH]; cbn; intros r.
  - by intros [= <-].
  - destruct (f x); [| done]. cbn. destruct (RLP.mapM_result f l); [| done]. cbn.
    intros [= <-]. cbn. by rewrite IH.
Qed.

Lemma generate_list (c : PBFTReqCache Tx Rcpt Ctx) b n r b' :
  generateAndSetSigList b n c = Ok (r, b') -> 0 < n ->
  n <= getCommitCacheSize (block_hash (prep c)) c ->
  exists cs, m_commitCache c !! block_hash (prep c) = Some cs /\
    sigListOf (order cs) = Ok (b_sigList b').
Proof.
  unfold generateAndSetSigList, getCommitCacheSize, getSizeFromCache, prep. intros Hg Hn Hsz.
  destruct (m_commitCache c !! _) as [cs|]; [| lia]. exists cs. split; [done |].
  destruct (sigListOf (order cs)) as [l|] eqn:El; [| done]. cbn [mbind result_bind] in Hg.
  apply mapM_result_length in El as Hl. rewrite (Permutation_length (order_perm cs)),
    length_map_to_list in Hl.
  rewrite (proj2 (Z.ltb_ge _ _)) in Hg by (unfold lenZ; lia). by injection Hg as _ <-.
Qed.

(** ** Committing *)
Section Steps.

Lemma emit_good s0 s e : good s0 s -> lock_of e = None -> commit_of e = None ->
  good s0 (set_trace (e :: m_trace s) s).
Proof.
  intros Hg Hl Hc. eapply core_good, Hg. unfold core, locks, commits. cbn. by rewrite Hl, Hc.
Qed.

(** The prepared request is live when its view is the current one. *)
Lemma prepared_now s0 s : fresh s0 s -> m_toView s0 < MAXVIEW ->
  view (prep (m_reqCache s)) = m_view s -> prepared (m_reqCache s).
Proof.
  intros Hf Hb Hv. destruct (fresh_cinv _ _ Hf) as [_ _ _ [[_ Hd]|Hp] _ _]; [| done].
  destruct Hf as ([_ ?] & _ & ? & ? & _). lia.
Qed.

Lemma config_minValid s s' : config s = config s' -> minValidNodes s = minValidNodes s'.
Proof. unfold config, minValidNodes. intros Hc. injection Hc as _ En Ef _ _ _. congruence. Qed.

Lemma quorum_of s0 s ty m0 m p : fresh s0 s ->
  (forall h k x, lookup2 h k m = Some x -> block_hash x = h /\ sigKey x = k) ->
  agree p m -> entries_from s0 ty m0 m ->
  minValidNodes s <= getSizeFromCache (block_hash p) m ->
  quorum s0 ty m0 p (default ∅ (m !! block_hash p)).
Proof.
  intros Hf Hwf Ha Hfr Hsz. unfold quorum. rewrite <- (config_minValid _ _ (fresh_config _ _ Hf)).
  unfold getSizeFromCache in Hsz. split; [by destruct (m !! _) |]. intros k x Hx.
  assert (lookup2 (block_hash p) k m = Some x) as Hl.
  { unfold lookup2. destruct (m !! block_hash p); [done | cbn in Hx; by rewrite lookup_empty in Hx]. }
  destruct (Hwf _ _ _ Hl) as [? ?]. split_and!; [done | by apply (Ha k) | done | by apply Hfr].
Qed.

Lemma checkAndSave_wp s0 s : m_toView s0 < MAXVIEW -> fresh s0 s ->
  wp (good s0) (checkAndSave E) (fun _ => good s0) s.
Proof.
  intros Hb Hf. pose proof (fresh_good _ _ Hf) as Hg. pose proof (fresh_cinv _ _ Hf) as Hci.
  unfold checkAndSave. repeat wp_step. fold (prep (m_reqCache s)).
  destruct (_ && _) eqn:Eq; [| by apply wp_ret]. bool_to_prop.
  destruct (Z.eqb_spec (view (prep (m_reqCache s))) (m_view s)) as [Ev|]; [| by apply wp_ret].
  cbn [negb]. destruct (Z.ltb_spec (m_number (m_highestBlock s)) (height (prep (m_reqCache s))))
    as [Eh|]; [| by apply wp_ret].
  pose proof (prepared_now s0 s Hf Hb Ev) as Hp.
  destruct (pr_block _ Hp) as (b & Epb & Hbh).
  apply wp_bind, wp_lift; [intros b0 Hb0 | by intros]. rewrite Epb in Hb0. injection Hb0 as <-.
  apply wp_bind, wp_lift; [intros [r b'] Hgen | by intros].
  pose proof (generate_header _ _ _ _ _ Hgen) as Hh.
  assert (justified s0 b') as Hj.
  { pose proof (ci_wf _ _ _ Hci) as Hwf. pose proof (fresh_from _ _ Hf) as [Hfs Hfc Hfp].
    pose proof (fresh_config _ _ Hf) as Hcfg.
    exists (prep (m_reqCache s)), (default ∅ (m_signCache (m_reqCache s) !! block_hash (prep (m_reqCache s)))),
      (default ∅ (m_commitCache (m_reqCache s) !! block_hash (prep (m_reqCache s)))).
    split_and!.
    - destruct Hfp as [Hd|]; [by destruct (prepared_not_dead _ Hp) | done].
    - congruence.
    - destruct Hf as (_ & _ & ? & _). congruence.
    - by injection Hcfg as <- _ _ _ _ _.
    - apply (quorum_of s0 s); try done; [by apply (wf_sign _ Hwf) | by apply Hp].
    - apply (quorum_of s0 s); try done; [by apply (wf_commit _ Hwf) | by apply Hp].
    - rewrite <- (config_minValid _ _ Hcfg). intros Hn.
      destruct (generate_list _ _ _ _ _ Hgen) as (cs & -> & Hcs); done. }
  pose proof (cinv_setSig _ _ _ b b' Hci Epb Hh) as Hci'.
  assert (good s0 (set_trace (EvCommitBlock b' (p_execContext (m_prepareCache (m_reqCache s))) :: m_trace s)
    (set_reqCache (upd_prepare {| p_msg := prep (m_reqCache s);
       PBFTMsg.block := PBFTMsg.block (m_prepareCache (m_reqCache s)); pBlock := Some b';
       p_execContext := p_execContext (m_prepareCache (m_reqCache s)) |} (m_reqCache s)) s))) as Hg1.
  { destruct Hf as ([_ ?] & _ & ? & ? & ? & Hcm). split_and!; try done.
    right. exists b', (p_execContext (m_prepareCache (m_reqCache s))). split_and!; try done.
    unfold commits in *. cbn. by rewrite Hcm. }
  apply wp_bind, wp_modify, wp_bind, wp_modify.
  destruct (bc_commitBlock _ _ _).
  - apply wp_bind, wp_modify, wp_bind, wp_modify, wp_bind, wp_modify, wp_modify.
    apply good_cache; [| by apply cinv_removeFuture, cinv_delCache].
    apply good_cache; [| by apply cinv_delCache].
    apply emit_good; [| done..]. by apply emit_good.
  - apply wp_bind, wp_modify, wp_modify. apply emit_good; [| done..]. by apply emit_good.
Qed.

Lemma newMsg_fields kp h v i hash t m : newMsg kp h v i hash t = Ok m ->
  height m = h /\ view m = v /\ idx m = i /\ block_hash m = hash.
Proof. unfold newMsg. destruct (fieldsWithoutBlock _ _ _ _); [| done]. by intros [= <-]. Qed.

(** Own requests made from the prepared one agree with it. *)
Lemma own_may_add (c : PBFTReqCache Tx Rcpt Ctx) (req : Prepare) m kp i t :
  p_msg req = prep c -> SignReq_of req kp i t = Ok m -> may_add c m.
Proof.
  intros Hr Hm. apply newMsg_fields in Hm as (_ & Hv & _ & _). right. right. by rewrite Hv, Hr.
Qed.

Lemma broadcastSignReq_wp s0 s req : fresh s0 s -> p_msg req = prep (m_reqCache s) ->
  wp (good s0) (broadcastSignReq E req) (fun _ s' => fresh s0 s') s.
Proof.
  intros Hf Hr. unfold broadcastSignReq. do 2 wp_step.
  apply wp_bind, wp_lift; [intros m Hm | intros; by apply fresh_good].
  apply wp_bind, wp_lift; [intros d _ | intros; by apply fresh_good].
  apply wp_bind. apply wp_fresh; [eauto with frames | done |]. intros a s' Hf' Hc. repeat wp_step.
  apply fresh_cache; [done | |].
  - apply cinv_addSign; [by apply fresh_cinv in Hf' |].
    injection Hc as _ _ _ Ec _ _ _ _ _ _ _ _. rewrite Ec. by eapply own_may_add.
  - apply from_addSign; [by apply fresh_from | by eapply (arrives_own s0 s)].
Qed.

Lemma broadcastCommitReq_wp s0 s req : fresh s0 s -> p_msg req = prep (m_reqCache s) ->
  wp (good s0) (broadcastCommitReq E req) (fun _ s' => fresh s0 s') s.
Proof.
  intros Hf Hr. unfold broadcastCommitReq. do 2 wp_step.
  apply wp_bind, wp_lift; [intros m Hm | intros; by apply fresh_good].
  apply wp_bind, wp_lift; [intros d _ | intros; by apply fresh_good].
  apply wp_bind. apply wp_fresh; [eauto with frames | done |]. intros a s' Hf' Hc.
  apply wp_bind, wp_when; intros _; [| by apply wp_ret]. repeat wp_step.
  apply fresh_cache; [done | |].
  - apply cinv_addCommit; [by apply fresh_cinv in Hf' |].
    injection Hc as _ _ _ Ec _ _ _ _ _ _ _ _. rewrite Ec. by eapply own_may_add.
  - apply from_addCommit; [by apply fresh_from | by eapply (arrives_own s0 s)].
Qed.

(** Taking the lock: the event and the cache change together. *)
Lemma lock_fresh s0 s : fresh s0 s -> prepared (m_reqCache s) ->
  fresh s0 (set_trace (EvLocked (height (raw (m_reqCache s))) (block_hash (raw (m_reqCache s))) :: m_trace s)
    (set_reqCache (updateCommittedPrepare (m_reqCache s)) s)).
Proof.
  intros Hf Hp. pose proof (cinv_lock _ _ _ (fresh_cinv _ _ Hf) Hp) as Hc.
  destruct Hf as ([_ ?] & [? [? ? ?]] & Hrest). split; [by split |]. split; [| exact Hrest]. by split.
Qed.

Lemma checkAndCommit_wp s0 s : m_toView s0 < MAXVIEW -> fresh s0 s ->
  wp (good s0) (checkAndCommit E) (fun _ => good s0) s.
Proof.
  intros Hb Hf. pose proof (fresh_good _ _ Hf) as Hg. unfold checkAndCommit. do 2 wp_step.
  fold (prep (m_reqCache s)). case_step; [| by wp_step].
  destruct (Z.eqb_spec (view (prep (m_reqCache s))) (m_view s)) as [Ev|]; [| by apply wp_ret].
  cbn [negb]. pose proof (lock_fresh s0 s Hf (prepared_now s0 s Hf Hb Ev)) as Hl.
  do 6 wp_step. apply wp_bind. apply wp_fresh; [eauto with frames | exact Hl |].
  intros _ s1 Hf1 Hc1. apply wp_bind. eapply wp_mono; [| apply broadcastCommitReq_wp; [exact Hf1 |]].
  - intros a s2 Hf2. do 2 wp_step. apply checkAndSave_wp; [done |]. by eapply core_fresh, Hf2.
  - injection Hc1 as _ _ _ Ec _ _ _ _ _ _ _ _. rewrite Ec. done.
Qed.

(** ** Requests *)
Lemma checkReq_signed req s r : checkReq E req s = Ok r -> r <> INVALID -> checkSign req s = Ok true.
Proof.
  unfold checkReq. intros Hr Hne. destruct (isSyncingHigherBlock E req); [congruence |].
  destruct (checkSign req s) as [[]|]; [done | |]; repeat case_hyp Hr; cbn in Hr; congruence.
Qed.

Lemma checkReq_add req s r : checkReq E req s = Ok r -> r <> INVALID -> may_add (m_reqCache s) req.
Proof.
  unfold checkReq. fold (prep (m_reqCache s)). intros Hr Hne. unfold may_add.
  destruct (isSyncingHigherBlock E req); [congruence |].
  destruct (bool_decide (block_hash (prep (m_reqCache s)) = block_hash req)) eqn:Eb; bool_to_prop.
  - cbn [negb] in Hr. case_hyp Hr; [congruence |].
    destruct (Z.eqb_spec (view (prep (m_reqCache s))) (view req)); cbn [negb] in Hr; [| congruence].
    by right; right.
  - right. left. congruence.
Qed.

Lemma isValidSignReq_wp s0 s req : rcv SignReqPacket req -> fresh s0 s ->
  wp (good s0) (isValidSignReq E req)
    (fun r s' => fresh s0 s' /\
      (r = VALID -> may_add (m_reqCache s') req /\ arrives s0 SignReqPacket req)) s.
Proof.
  intros Hrcv Hf. unfold isValidSignReq. do 2 wp_step.
  destruct (isExistSign _ _); [by apply wp_ret |]. destruct (hasConsensused _ _); [by apply wp_ret |].
  apply wp_bind, wp_lift; [intros r Hr | intros; by apply fresh_good].
  pose proof (checkReq_add req s r Hr) as Hadd.
  apply wp_bind, wp_when; intros Hw.
  - bool_to_prop. subst r. repeat wp_step. split; [| done]. apply fresh_cache; [done | |].
    + apply cinv_addSign; [by apply fresh_cinv in Hf | by apply Hadd].
    + apply from_addSign; [by apply fresh_from | by eapply arrives_rcv, checkReq_signed].
  - wp_step. split; [done |]. intros ->. split; [by apply Hadd | by eapply arrives_rcv, checkReq_signed].
Qed.

Lemma isValidCommitReq_wp s0 s req : rcv CommitReqPacket req -> fresh s0 s ->
  wp (good s0) (isValidCommitReq E req)
    (fun r s' => fresh s0 s' /\
      (r = VALID -> may_add (m_reqCache s') req /\ arrives s0 CommitReqPacket req)) s.
Proof.
  intros Hrcv Hf. unfold isValidCommitReq. do 2 wp_step.
  destruct (isExistCommit _ _); [by apply wp_ret |]. destruct (hasConsensused _ _); [by apply wp_ret |].
  apply wp_bind, wp_lift; [intros r Hr | intros; by apply fresh_good].
  pose proof (checkReq_add req s r Hr) as Hadd.
  apply wp_bind, wp_when; intros Hw.
  - bool_to_prop. subst r. repeat wp_step. split; [| done]. apply fresh_cache; [done | |].
    + apply cinv_addCommit; [by apply fresh_cinv in Hf | by apply Hadd].
    + apply from_addCommit; [by apply fresh_from | by eapply arrives_rcv, checkReq_signed].
  - wp_step. split; [done |]. intros ->. split; [by apply Hadd | by eapply arrives_rcv, checkReq_signed].
Qed.

(** What a valid prepare satisfies. *)
Definition valid_prepare s (m : PBFTMsg) : Prop :=
  height m = m_consensusBlockNumber s /\ view m = m_view s /\ getLeader s = (true, idx m) /\
  (height m = height (lock (m_reqCache s)) -> block_hash m = block_hash (lock (m_reqCache s))) /\
  checkSign m s = Ok true.

Lemma isValidPrepare_valid req s s' r : isValidPrepare E req s = (s', Ok r) -> r = VALID ->
  s' = s /\ valid_prepare s (p_msg req).
Proof.
  unfold isValidPrepare, mbind, M_bind, get, modifyCache, modify, lift, mret, M_ret. intros Hr ->.
  destruct (isExistPrepare _ _); [done |]. destruct (isSyncingHigherBlock _ _); [done |].
  unfold hasConsensused, isFuturePrepare, isValidLeader, isHashSavedAfterCommit in Hr.
  fold (lock (m_reqCache s)) in Hr.
  destruct (_ || _) eqn:E1 in Hr; [done |]. destruct (_ || _) eqn:E2 in Hr; [done |].
  destruct (negb _) eqn:E3 in Hr; [done |]. destruct (negb _) eqn:E4 in Hr; [done |].
  destruct (checkSign (p_msg req) s) as [[]|] eqn:E5; try done. injection Hr as <-.
  split; [done |]. unfold valid_prepare. bool_to_prop.
  assert (height (p_msg req) = m_consensusBlockNumber s) as Eh by lia.
  rewrite Eh, Z.eqb_refl in *. cbn [andb] in *. bool_to_prop.
  destruct (getLeader s) as [ok ld]. cbn [fst snd] in *. subst.
  split_and!; try done; try lia. intros Hl. rewrite Hl, Z.eqb_refl in E4. cbn [andb] in E4.
  by bool_to_prop.
Qed.

Lemma isValidPrepare_wp s0 s req : fresh s0 s ->
  wp (good s0) (isValidPrepare E req)
    (fun r s' => fresh s0 s' /\ (r = VALID -> valid_prepare s' (p_msg req))) s.
Proof.
  intros Hf.
  assert (wp (good s0) (isValidPrepare E req) (fun _ s' => fresh s0 s') s) as Hw.
  { unfold isValidPrepare. do 2 wp_step.
    destruct (isExistPrepare _ _); [by apply wp_ret |].
    destruct (isSyncingHigherBlock _ _); [by apply wp_ret |].
    destruct (hasConsensused _ _); [by apply wp_ret |].
    destruct (isFuturePrepare _ _).
    { repeat wp_step. apply fresh_cache; [done | |].
      - apply cinv_addFuture. by apply fresh_cinv in Hf.
      - by apply from_addFuture, fresh_from. }
    destruct (negb _); [by apply wp_ret |]. destruct (negb _); [by apply wp_ret |].
    apply wp_bind, wp_lift; [intros; by apply wp_ret | intros; by apply fresh_good]. }
  unfold wp in *. destruct (isValidPrepare E req s) as [s' [r|e]] eqn:Er; [| done].
  split; [done |]. intros Hr. by destruct (isValidPrepare_valid _ _ _ _ Er Hr) as [-> ?].
Qed.

Lemma handlePrepare_wp s0 s req : m_toView s0 < MAXVIEW -> offers req -> fresh s0 s ->
  wp (good s0) (handlePrepare E req) (fun _ => good s0) s.
Proof.
  intros Hb Hoff Hf. unfold handlePrepare. apply wp_bind.
  eapply wp_mono; [| by apply isValidPrepare_wp]. intros r s1 [Hf1 Hv].
  destruct (bool_decide_reflect (r = INVALID)); [by apply wp_ret, fresh_good |].
  apply wp_bind, wp_fresh; [eauto with frames | done |]. intros _ s2 Hf2 Hc2.
  destruct (bool_decide_reflect (r = FUTURE)); [by apply wp_ret, fresh_good |].
  assert (r = VALID) as Hr by (by destruct r). destruct (Hv Hr) as (Hh & Hview & _ & Hlock & _).
  injection Hc2 as Ev _ En Ec _ _ _ _ _ _ _ _.
  assert (cinv (m_consensusBlockNumber s2) (taken s2) (addRawPrepare req (m_reqCache s2))) as Hraw.
  { apply cinv_addRaw; [by apply fresh_cinv in Hf2 | congruence | by rewrite Ec]. }
  pose proof (fresh_cache _ _ _ Hf2 Hraw (from_addRaw _ _ _ (fresh_from _ _ Hf2))) as Hf3. do 2 wp_step.
  apply wp_bind. apply wp_fresh; [frame_tac | exact Hf3 |].
  intros [[b ctx]|] s4 Hf4 Hc4; [| by apply wp_ret, fresh_good].
  do 2 wp_step. destruct (needOmit b s4).
  { eapply wp_mono; [| apply wp_good; [| by apply fresh_good]]; [done |].
    unfold modifyTime. frame_tac. }
  apply wp_bind, wp_lift; [intros p Hp | intros; by apply fresh_good].
  unfold prepare_executed in Hp. destruct (newMsg _ _ _ _ _ _) as [m|] eqn:Em; [| done].
  injection Hp as <-. apply newMsg_fields in Em as (Hmh & Hmv & _ & Hmb).
  injection Hc4 as _ _ En4 Ec4 _ _ _ _ _ _ _ _.
  assert (raw (m_reqCache s4) = p_msg req) as Hraw4 by (by rewrite Ec4).
  assert (fresh s0 (set_reqCache (addPrepareReq {| p_msg := m; PBFTMsg.block := []; pBlock := Some b;
    p_execContext := ctx |} (m_reqCache s4)) s4)) as Hf5.
  { apply fresh_cache; [done | apply (cinv_addPrepare _ _ _ _ b) |].
    - by apply fresh_cinv in Hf4.
    - by rewrite Hraw4.
    - by rewrite Hraw4.
    - rewrite Hraw4, Hh. destruct (fresh_cinv _ _ Hf1) as [_ [? _] _ _ _ _]. done.
    - done.
    - done.
    - apply from_addPrepare; [by apply fresh_from |]. right. exists req. cbn [p_msg].
      destruct Hf1 as (_ & [En1 _] & _). split_and!; [done | done | done | congruence]. }
  do 2 wp_step. apply wp_bind. eapply wp_mono; [| apply broadcastSignReq_wp; [exact Hf5 | done]].
  intros a s6 Hf6. apply wp_bind. eapply wp_mono; [| by apply checkAndCommit_wp].
  intros a' s7 Hg7. by apply wp_ret.
Qed.

Lemma handleSignMsg_wp s0 s p : m_toView s0 < MAXVIEW ->
  (forall req, msg_decode (PBFTMsg.data p) 0 = Ok req -> rcv SignReqPacket req) -> fresh s0 s ->
  wp (good s0) (handleSignMsg E p) (fun _ => good s0) s.
Proof.
  intros Hb Hrcv Hf. unfold handleSignMsg. destruct (msg_decode _ _) as [req|];
    [| by apply wp_caught; apply fresh_good].
  apply wp_bind. eapply wp_mono; [| by apply isValidSignReq_wp; [apply Hrcv |]]. intros r s1 [Hf1 Hv].
  destruct (bool_decide_reflect (r = INVALID)); [by apply wp_ret, fresh_good |].
  apply wp_bind, wp_fresh; [eauto with frames | done |]. intros _ s2 Hf2 Hc2.
  destruct (bool_decide_reflect (r = FUTURE)); [by apply wp_ret, fresh_good |].
  assert (r = VALID) as Hr by (by destruct r). injection Hc2 as _ _ _ Ec _ _ _ _ _ _ _ _.
  do 2 wp_step. apply wp_bind. eapply wp_mono; [| apply checkAndCommit_wp; [done |]].
  - intros a s3 Hg3. by apply wp_ret.
  - apply fresh_cache; [done | |].
    + apply cinv_addSign; [by apply fresh_cinv in Hf2 |]. rewrite Ec. by apply Hv.
    + apply from_addSign; [by apply fresh_from | by apply Hv].
Qed.

Lemma handleCommitMsg_wp s0 s p : m_toView s0 < MAXVIEW ->
  (forall req, msg_decode (PBFTMsg.data p) 0 = Ok req -> rcv CommitReqPacket req) -> fresh s0 s ->
  wp (good s0) (handleCommitMsg E p) (fun _ => good s0) s.
Proof.
  intros Hb Hrcv Hf. unfold handleCommitMsg. destruct (msg_decode _ _) as [req|];
    [| by apply wp_caught; apply fresh_good].
  apply wp_bind. eapply wp_mono; [| by apply isValidCommitReq_wp; [apply Hrcv |]]. intros r s1 [Hf1 Hv].
  destruct (bool_decide_reflect (r = INVALID)); [by apply wp_ret, fresh_good |].
  apply wp_bind, wp_fresh; [eauto with frames | done |]. intros _ s2 Hf2 Hc2.
  destruct (bool_decide_reflect (r = FUTURE)); [by apply wp_ret, fresh_good |].
  assert (r = VALID) as Hr by (by destruct r). injection Hc2 as _ _ _ Ec _ _ _ _ _ _ _ _.
  do 2 wp_step. apply wp_bind. eapply wp_mono; [| apply checkAndSave_wp; [done |]].
  - intros a s3 Hg3. by apply wp_ret.
  - apply fresh_cache; [done | |].
    + apply cinv_addCommit; [by apply fresh_cinv in Hf2 |]. rewrite Ec. by apply Hv.
    + apply from_addCommit; [by apply fresh_from | by apply Hv].
Qed.

Lemma handleFutureBlock_wp s0 s : m_toView s0 < MAXVIEW ->
  (forall p, futurePrepareCache (m_consensusBlockNumber s) (m_reqCache s) = Some p -> offers p) ->
  fresh s0 s -> wp (good s0) (handleFutureBlock E) (fun _ => good s0) s.
Proof.
  intros Hb Hoff Hf. unfold handleFutureBlock. do 2 wp_step.
  destruct (futurePrepareCache _ _) as [p|]; [| by apply wp_ret, fresh_good].
  destruct (_ =? _); [| by apply wp_ret, fresh_good].
  apply wp_bind. eapply wp_mono; [| apply handlePrepare_wp; [done | by apply Hoff | done]]. intros a s1 Hg. wp_step.
  apply good_cache; [done |]. apply cinv_erase. by apply good_cinv in Hg.
Qed.

(** Sealing: the leader's own prepare. *)
Lemma rehandle_wp s0 s req : m_toView s0 < MAXVIEW ->
  (forall p, prepare_resign req (m_keyPair (m_cfg s)) (m_view s) (nodeIdx s) (now E) = Ok p -> offers p) ->
  fresh s0 s -> wp (good s0) (rehandleCommitedPrepareCache E req) (fun _ => good s0) s.
Proof.
  intros Hb Hoff Hf. unfold rehandleCommitedPrepareCache. apply wp_bind, wp_fresh; [frame_tac | done |].
  intros _ s1 Hf1 Hc1. do 2 wp_step. injection Hc1 as Ev1 _ _ _ _ _ _ _ _ Ei1 _ Ek1.
  unfold nodeIdx in *. rewrite Ev1, Ei1, Ek1.
  apply wp_bind, wp_lift; [intros p Hp | intros; by apply fresh_good].
  apply wp_bind, wp_lift; [intros d _ | intros; by apply fresh_good].
  apply wp_bind, wp_fresh; [eauto with frames | done |]. intros _ s2 Hf2 _.
  apply wp_bind. eapply wp_mono; [| apply handlePrepare_wp; [done | by apply Hoff | done]].
  intros a s3 Hg. wp_step. by apply emit_good.
Qed.

Lemma shouldSeal_wp s0 s : m_toView s0 < MAXVIEW ->
  (forall p, prepare_resign (m_committedPrepareCache (m_reqCache s)) (m_keyPair (m_cfg s)) (m_view s)
     (nodeIdx s) (now E) = Ok p -> offers p) ->
  fresh s0 s -> wp (good s0) (shouldSeal E) (fun _ => good s0) s.
Proof.
  intros Hb Hoff Hf. unfold shouldSeal. do 2 wp_step. destruct (_ || _); [by apply wp_ret, fresh_good |].
  destruct (getLeader s) as [ok leader]. destruct ok; [| by apply wp_ret, fresh_good]. cbn [negb].
  destruct (negb _); [by apply wp_ret, fresh_good |].
  destruct (_ =? m_consensusBlockNumber s); [| by apply wp_ret, fresh_good].
  apply wp_bind, wp_when; intros _; [| by apply wp_ret, fresh_good].
  eapply wp_mono; [| by apply rehandle_wp]. intros a s1 Hg. by apply wp_ret.
Qed.

Lemma generatePrepare_wp s0 s b : m_toView s0 < MAXVIEW ->
  (forall e p, bl_encode (codec E) b = Ok e ->
     prepare_of_block (m_number (b_header b)) (headerHash b) e b (m_keyPair (m_cfg s)) (m_view s)
       (nodeIdx s) (now E) = Ok p -> offers p) ->
  fresh s0 s -> wp (good s0) (generatePrepare E b) (fun _ => good s0) s.
Proof.
  intros Hb Hoff Hf. unfold generatePrepare. apply wp_bind, wp_fresh; [frame_tac | done |].
  intros _ s1 Hf1 Hc1. do 2 wp_step. injection Hc1 as Ev1 _ _ _ _ _ _ _ _ Ei1 _ Ek1.
  unfold nodeIdx in *. rewrite Ev1, Ei1, Ek1.
  apply wp_bind, wp_lift; [intros e He | intros; by apply fresh_good].
  apply wp_bind, wp_lift; [intros p Hp | intros; by apply fresh_good].
  apply wp_bind, wp_lift; [intros d _ | intros; by apply fresh_good].
  apply wp_bind, wp_fresh; [eauto with frames | done |]. intros [] s2 Hf2 _;
    [| by apply wp_ret, fresh_good].
  destruct (needOmit b s1).
  - eapply wp_mono; [| apply wp_good; [| by apply fresh_good]]; [done |].
    unfold modifyTime. frame_tac.
  - apply wp_bind. eapply wp_mono; [| apply handlePrepare_wp; [done | by eapply Hoff | done]].
    intros a s3 Hg. by apply wp_ret.
Qed.

(** ** View changes *)

(** A view change request that was in the cache before the call, or that the call
    received, signed by the sealer it names. *)
Definition vfrom s0 (c : PBFTReqCache Tx Rcpt Ctx) : Prop :=
  forall v i x, lookup2 v i (m_recvViewChangeReq c) = Some x ->
    lookup2 v i (m_recvViewChangeReq (m_reqCache s0)) = Some x \/
    (rcv ViewChangeReqPacket x /\ checkSign x s0 = Ok true).

(** [n - f - 1] requests for the view [v], of distinct nodes. *)
Definition view_quorum s0 (v : VIEWTYPE) (q : gmap IDXTYPE PBFTMsg) : Prop :=
  minValidNodes s0 - 1 <= Z.of_nat (size q) /\
  forall i x, q !! i = Some x ->
    idx x = i /\ view x = v /\
    (lookup2 v i (m_recvViewChangeReq (m_reqCache s0)) = Some x \/
     (rcv ViewChangeReqPacket x /\ checkSign x s0 = Ok true)).

(** Between two states around a view change: nothing committed, views only
    grow, and a new view had enough requests. *)
Definition vgood s0 s : Prop :=
  inv s /\ commits s = commits s0 /\ config s = config s0 /\
  m_view s0 <= m_view s /\ m_toView s0 <= m_toView s /\
  (m_view s = m_view s0 \/ exists q, view_quorum s0 (m_view s) q).

(** ... with the view unchanged so far. *)
Definition vfresh s0 s : Prop :=
  inv s /\ vfrom s0 (m_reqCache s) /\ commits s = commits s0 /\ config s = config s0 /\
  m_view s = m_view s0 /\ m_toView s0 <= m_toView s.

Lemma vfresh_good s0 s : vfresh s0 s -> vgood s0 s.
Proof. intros (? & _ & ? & ? & ? & ?). split_and!; try done; [lia | by left]. Qed.

Lemma core_vfresh s0 s s' : core s' = core s -> vfresh s0 s -> vfresh s0 s'.
Proof.
  intros Hc (Hi & ? & ? & ? & ? & ?). pose proof (core_inv _ _ Hc Hi). unfold core in Hc.
  injection Hc as ? ? ? Ec ? ? ? ? ? ? ? ?. unfold vfresh, config in *. rewrite Ec.
  split_and!; try congruence; done || lia.
Qed.

Lemma core_vgood s0 s s' : core s' = core s -> vgood s0 s -> vgood s0 s'.
Proof.
  intros Hc (Hi & ? & ? & ? & ? & Hor). pose proof (core_inv _ _ Hc Hi). unfold core in Hc.
  injection Hc as Hv ? ? ? ? ? ? ? ? ? ? ?. unfold vgood, config in *. rewrite Hv.
  split_and!; try congruence; try lia; done.
Qed.

Lemma wp_vfresh {A} s0 (m : Handler A) (Q : A -> Engine -> Prop) s :
  frame m -> vfresh s0 s -> (forall a s', vfresh s0 s' -> core s' = core s -> Q a s') ->
  wp (vgood s0) m Q s.
Proof.
  intros Hf Hs HQ. apply wp_frame; [done | |].
  - intros s' Hc. apply vfresh_good. by eapply core_vfresh.
  - intros a s' Hc. apply HQ; [by eapply core_vfresh | done].
Qed.

Lemma wp_vgood {A} s0 (m : Handler A) s :
  frame m -> vgood s0 s -> wp (vgood s0) m (fun _ => vgood s0) s.
Proof. intros Hf Hs. apply wp_frame; [done | |]; intros; by eapply core_vgood. Qed.

Lemma vfresh_cache s0 s c : vfresh s0 s -> cinv (m_consensusBlockNumber s) (taken s) c ->
  vfrom s0 c -> vfresh s0 (set_reqCache c s).
Proof. intros ([? ?] & _ & Hrest) Hc Hv. split; [by split |]. split; [exact Hv | exact Hrest]. Qed.

Lemma vfresh_from s0 s : vfresh s0 s -> vfrom s0 (m_reqCache s).
Proof. by intros (_ & ? & _). Qed.

Lemma vfrom_refl s : vfrom s (m_reqCache s).
Proof. by left. Qed.

Lemma vfrom_add s0 c x : vfrom s0 c -> rcv ViewChangeReqPacket x -> checkSign x s0 = Ok true ->
  vfrom s0 (addViewChangeReq x c).
Proof.
  intros Hc Hr Hs v i y. unfold addViewChangeReq, lookup2. cbn [m_recvViewChangeReq upd_viewChange].
  intros Hy. assert (lookup2 v i (insert2 (view x) (idx x) x (m_recvViewChangeReq c)) = Some y) as Hy'.
  { unfold insert2, lookup2. by destruct (m_recvViewChangeReq c !! view x); [| cbn; rewrite insert_empty]. }
  rewrite lookup2_insert2 in Hy'. case_decide; [| by apply Hc]. injection Hy' as <-. by right.
Qed.

Lemma vfrom_remove s0 c v b : vfrom s0 c -> vfrom s0 (removeInvalidViewChange v b c).
Proof. intros Hc w i x Hx. apply lookup2_filterAt in Hx as [Hx _]. by apply Hc. Qed.

Lemma vfrom_garbage s0 c b : vfrom s0 c -> vfrom s0 (collectGarbage_cache b c).
Proof. intros Hc w i x Hx. apply lookup2_filterAll in Hx as [Hx _]. by apply Hc. Qed.

Lemma isValidViewChangeReq_signed req src s s' :
  isValidViewChangeReq E req src s = (s', Ok true) -> checkSign req s' = Ok true.
Proof.
  unfold isValidViewChangeReq, mbind, M_bind, get, lift, mret, M_ret.
  destruct (isExistViewChange _ _); [done |]. destruct (idx req =? nodeIdx s); [done |].
  destruct (when _ _ s) as [s1 [u|e]]; [| done]. destruct (_ || _); [done |]. destruct (_ || _); [done |].
  by intros [= <- ?].
Qed.

(** Entering the view [m_toView]. *)
Lemma enter_view s0 s : vfresh s0 s ->
  minValidNodes s - 1 <= getViewChangeSize (m_toView s) (m_reqCache s) ->
  vgood s0 (set_reqCache (triggerViewChange (m_toView s) (m_reqCache s)) (set_view (m_toView s) s)).
Proof.
  intros ([Hc Hv] & Hfr & ? & Hcfg & Hview & ?) Hsz. split_and!; try done.
  - by split; [apply cinv_trigger | cbn; lia].
  - cbn. lia.
  - right. exists (default ∅ (m_recvViewChangeReq (m_reqCache s) !! m_toView s)). split.
    { rewrite <- (config_minValid _ _ Hcfg). unfold getViewChangeSize, getSizeFromCache in Hsz.
      by destruct (m_recvViewChangeReq (m_reqCache s) !! m_toView s). }
    intros i x Hx. assert (lookup2 (m_toView s) i (m_recvViewChangeReq (m_reqCache s)) = Some x) as Hl.
    { unfold lookup2. destruct (m_recvViewChangeReq _ !! _); [done | cbn in Hx; by rewrite lookup_empty in Hx]. }
    destruct (wf_view _ (ci_wf _ _ _ Hc) _ _ _ Hl) as [? ?]. split_and!; [done | done |]. by apply Hfr.
Qed.

Lemma checkAndChangeView_wp s0 s : vfresh s0 s ->
  wp (vgood s0) (checkAndChangeView E) (fun _ => vgood s0) s.
Proof.
  intros Hf. unfold checkAndChangeView. do 2 wp_step. apply wp_when; intros Hw;
    [| by apply vfresh_good]. bool_to_prop.
  assert (minValidNodes s - 1 <= getViewChangeSize (m_toView s) (m_reqCache s)) as Hsz.
  { assert (0 <= getViewChangeSize (m_toView s) (m_reqCache s)).
    { unfold getViewChangeSize, getSizeFromCache. case_step; lia. }
    pose proof (Z.mod_le (getViewChangeSize (m_toView s) (m_reqCache s)) (2 ^ 16)).
    unfold wrap in Hw. lia. }
  pose proof (enter_view s0 s Hf Hsz) as Hg.
  apply wp_bind, wp_vfresh; [frame_tac | done |]. intros _ s1 _ Hc1.
  apply wp_bind. apply wp_frame; [unfold modifyTime; frame_tac | |].
  { intros s' Hc'. apply vfresh_good. eapply core_vfresh, Hf. by rewrite Hc'. }
  intros _ s2 Hc2. rewrite Hc1 in Hc2. repeat wp_step.
  eapply core_vgood, Hg. injection Hc2 as ? ? ? Ec ? ? ? ? ? ? ? ?. cbn [m_reqCache].
  unfold core, locks, commits, config in *. cbn. congruence.
Qed.

Lemma isValidViewChangeReq_wp s0 s req src : vfresh s0 s ->
  wp (vgood s0) (isValidViewChangeReq E req src)
    (fun ok s' => vfresh s0 s' /\ core s' = core s /\ (ok = true -> checkSign req s0 = Ok true)) s.
Proof.
  intros Hf. pose proof (isValidViewChangeReq_frame E req src s) as Hc. unfold wp.
  destruct (isValidViewChangeReq E req src s) as [s' [ok|e]] eqn:Er; cbn in Hc.
  - pose proof (core_vfresh _ _ _ Hc Hf) as Hf'. split_and!; [done | done |]. intros ->.
    rewrite <- (isValidViewChangeReq_signed _ _ _ _ Er). apply core_checkSign.
    by destruct Hf' as (_ & _ & _ & -> & _).
  - by apply vfresh_good, (core_vfresh _ _ _ Hc).
Qed.

Lemma handleViewChangeMsg_wp s0 s p : m_toView s < MAXVIEW ->
  (forall req, msg_decode (PBFTMsg.data p) 0 = Ok req -> rcv ViewChangeReqPacket req) -> vfresh s0 s ->
  wp (vgood s0) (handleViewChangeMsg E p) (fun _ => vgood s0) s.
Proof.
  intros Hb Hrcv Hf. unfold handleViewChangeMsg. destruct (msg_decode _ _) as [req|];
    [| by apply wp_caught; apply vfresh_good].
  apply wp_bind. eapply wp_mono; [| by apply isValidViewChangeReq_wp]. intros ok s1 (Hf1 & Hc1 & Hsg).
  destruct ok; [| by apply wp_ret, vfresh_good]. cbn [negb].
  assert (vfresh s0 (set_reqCache (addViewChangeReq req (m_reqCache s1)) s1)) as Hf2.
  { apply vfresh_cache; [done | apply cinv_addViewChange; by destruct Hf1 as [[? _] _] |].
    apply vfrom_add; [by apply vfresh_from | by apply Hrcv | by apply Hsg]. }
  do 4 wp_step. set (s2 := set_reqCache _ _) in *. apply wp_bind.
  assert (m_toView s2 < MAXVIEW) as Hb2 by (injection Hc1 as _ Et _ _ _ _ _ _ _ _ _ _; cbn; lia).
  destruct (_ =? m_toView s2).
  { eapply wp_mono; [| by apply checkAndChangeView_wp]. intros a s3 Hg. by apply wp_ret. }
  destruct (canTriggerViewChange _ _ _ _ _) as [[] v] eqn:Et; [| by apply wp_ret, wp_ret, vfresh_good].
  cbn [when]. apply trigger_above in Et; [| done]. repeat wp_step.
  eapply wp_mono; [| apply wp_vgood; [eauto with frames |]].
  { intros a s3 Hg. by apply wp_ret. }
  apply vfresh_good. destruct Hf2 as ([? ?] & ? & ? & ? & ? & ?). split_and!; try done.
  - split; [done |]. change (0 <= m_view s1 <= v - 1). change (m_toView s1 < v) in Et.
    change (0 <= m_view s1 <= m_toView s1) in H2. lia.
  - cbn in *. lia.
Qed.

Lemma vfresh_refl s : inv s -> vfresh s s.
Proof. intros Hi. split_and!; try done. apply vfrom_refl. Qed.

Lemma checkTimeout_wp s0 s : m_toView s < MAXVIEW -> vfresh s0 s ->
  wp (vgood s0) (checkTimeout E) (fun _ => vgood s0) s.
Proof.
  intros Hb Hf. assert (0 <= m_toView s) as Hpos by (destruct Hf as ([_ ?] & _); lia).
  unfold checkTimeout. do 2 wp_step.
  destruct (isTimeout _ _); [| by apply wp_ret, vfresh_good].
  apply wp_bind, wp_vfresh; [unfold modifyTime; frame_tac | done |]. intros _ s1 Hf1 Hc1.
  injection Hc1 as _ Et _ _ _ _ _ _ _ _ _ _. rewrite swrap_small by (unfold MAXVIEW, INT64_MAX in *; cbn; lia).
  assert (vfresh s0 (set_toView (m_toView s + 1) s1)) as Hf2.
  { destruct Hf1 as ([? ?] & ? & ? & ? & ? & ?). split_and!; try done; [split; [done |] |]; cbn; lia. }
  do 2 wp_step. apply wp_bind, wp_vfresh; [frame_tac | exact Hf2 |]. intros _ s3 Hf3 _.
  apply wp_bind, wp_vfresh; [frame_tac | exact Hf3 |]. intros _ s4 Hf4 _.
  apply wp_bind, wp_vfresh; [unfold modifyTime; frame_tac | exact Hf4 |]. intros _ s5 Hf5 _.
  do 4 wp_step. apply wp_bind, wp_vfresh; [eauto with frames | |].
  { apply vfresh_cache; [done | apply cinv_removeViewChange; by destruct Hf5 as [[? _] _] |].
    by apply vfrom_remove, vfresh_from. }
  intros succ s6 Hf6 _. destruct succ; [| by apply wp_ret, vfresh_good]. cbn [negb].
  apply wp_bind. eapply wp_mono; [| by apply checkAndChangeView_wp]. intros a7 s7 Hg7.
  apply wp_vgood; [frame_tac | done].
Qed.

Lemma collectGarbage_wp s0 s : vfresh s0 s ->
  wp (vgood s0) (collectGarbage E) (fun _ => vgood s0) s.
Proof.
  intros Hf. unfold collectGarbage. do 2 wp_step. destruct (negb _); [by apply wp_ret, vfresh_good |].
  apply wp_when; intros _; [| by apply vfresh_good]. repeat wp_step. apply vfresh_good.
  apply (core_vfresh s0 (set_reqCache (collectGarbage_cache (m_highestBlock s) (m_reqCache s)) s)); [done |].
  apply vfresh_cache; [done | apply cinv_garbage; by destruct Hf as [[? _] _] |].
  by apply vfrom_garbage, vfresh_from.
Qed.

(** ** Reported blocks *)
Lemma resetConfig_kern : frame_of kern (resetConfig E).
Proof. unfold resetConfig, updateMaxBlockTransactions, updateConsensusNodeList. frame_tac. Qed.

(** After a reported block: no commit, and the height only grows. *)
Definition rgood s0 s : Prop :=
  inv s /\ commits s = commits s0 /\ m_consensusBlockNumber s0 <= m_consensusBlockNumber s.

Lemma rgood_cache s0 s c : rgood s0 s -> cinv (m_consensusBlockNumber s) (taken s) c ->
  rgood s0 (set_reqCache c s).
Proof. intros ([? ?] & Hrest) Hc. split; [by split | exact Hrest]. Qed.

Lemma rgood_core s0 s s' : core s' = core s -> rgood s0 s -> rgood s0 s'.
Proof.
  intros Hc (Hi & ? & ?). pose proof (core_inv _ _ Hc Hi). unfold core in Hc.
  injection Hc as ? ? ? ? ? ? ? ? ? ? ? ?. split_and!; [done | congruence | lia].
Qed.

Lemma resetConfig_wp s0 s : rgood s0 s -> wp (rgood s0) (resetConfig E) (fun _ => rgood s0) s.
Proof.
  intros Hg. pose proof (resetConfig_kern s) as Hk. unfold wp.
  destruct (resetConfig E s) as [s' r]. cbn in Hk. injection Hk as Hv Ht Hn Hc Hl Hm.
  assert (rgood s0 s') as Hg'.
  { unfold rgood, inv, taken in *. by rewrite Hv, Ht, Hn, Hc, Hl, Hm. }
  by destruct r.
Qed.

Lemma reportBlock_wp s b : inv s -> m_number (b_header b) < INT64_MAX ->
  wp (rgood s) (reportBlock E b) (fun _ => rgood s) s.
Proof.
  intros Hi Hb. assert (rgood s s) as Hg by (by split_and!). unfold reportBlock. do 2 wp_step.
  apply wp_when; intros _; [| done].
  apply wp_bind, wp_frame; [frame_tac | intros; by eapply rgood_core |]. intros _ s1 Hc1.
  pose proof (rgood_core _ _ _ Hc1 Hg) as Hg1. injection Hc1 as _ _ En _ _ _ _ _ _ _ _ _.
  assert (rgood s (set_highestBlock (b_header b)
    (set_reqCache (removeInvalidFutureCache (m_highestBlock s) (m_reqCache s1)) s1))) as Hg2.
  { apply (rgood_cache s s1); [done |]. apply cinv_removeFuture. by destruct Hg1 as [[? _] _]. }
  do 5 wp_step. set (s2 := set_highestBlock _ _) in *.
  apply (wp_mono _ _ (fun _ s' => rgood s s')).
  { intros _ s3 Hg3. apply wp_bind. eapply wp_mono; [| by apply resetConfig_wp]. intros a4 s4 Hg4.
    wp_step. apply rgood_cache; [done |]. apply cinv_delCache. by destruct Hg4 as [[? _] _]. }
  apply wp_when; intros Hle; [| done]. bool_to_prop. repeat wp_step.
  destruct Hg2 as ([Hc2 _] & Hcm & Hn). pose proof (proj1 (ci_cn _ _ _ Hc2)) as Hpos.
  change (m_consensusBlockNumber s2) with (m_consensusBlockNumber s1) in *.
  rewrite swrap_small by (unfold INT64_MAX in *; cbn; lia).
  split_and!; [split |..]; try done.
  - apply cinv_delViewChange. eapply cinv_mono; [exact Hc2 |]. cbn. lia.
  - cbn. lia.
Qed.
End Steps.

Lemma view_bound s0 s : fresh s0 s -> m_toView s0 < MAXVIEW -> m_view s < MAXVIEW.
Proof. intros ([_ ?] & _ & ? & ? & _) ?. lia. Qed.
End EngineInvariant.
