(* ===== verification/PBFTProps.v ===== *)
(** * Properties of the PBFT engine

    The transition system of the engine (one transition per entry point), its
    reachable states, and the theorems on locks, commits, views, leaders and
    quorums. *)

From S2P Require Import Prelude CommonData RLP PBFTMsg BlockHeader Block.
From S2P Require Import PBFTMsgCache PBFTReqCache PBFTState PBFTEngine PBFTSafety.

Section Transitions.
Context `{Crypto} `{MapOrder} {Tx Rcpt Ctx : Type}.
Abbreviation Engine := (PBFTEngine Tx Rcpt Ctx).
Abbreviation Handler := (M Tx Rcpt Ctx).
Implicit Types s : Engine.

(** The entry points, each run under the engine's mutex. *)
Inductive entry : Type :=
  | InMsg (p : PBFTMsgPacket)
  | InRecv (buffer : bytes) (from : NodeID) (ep : chars)
  | InTimeout
  | InFuture
  | InGarbage
  | InReport (b : Block Tx Rcpt)
  | InGenerate (b : Block Tx Rcpt)
  | InSeal.

Definition run (E : Env Tx Rcpt Ctx) (i : entry) s : Engine :=
  match i with
  | InMsg p => fst (handleMsg E p s)
  | InRecv buffer from ep => fst (onRecvPBFTMessage E buffer from ep s)
  | InTimeout => fst (checkTimeout E s)
  | InFuture => fst (handleFutureBlock E s)
  | InGarbage => fst (collectGarbage E s)
  | InReport b => fst (reportBlock E b s)
  | InGenerate b => fst (generatePrepare E b s)
  | InSeal => fst (shouldSeal E s)
  end.

(** Reported blocks come from the chain: their number is below the maximum. *)
Definition entry_ok (i : entry) : Prop :=
  match i with InReport b => m_number (b_header b) < INT64_MAX | _ => True end.

Definition is_report (i : entry) : bool := match i with InReport _ => true | _ => false end.

(** States reachable from [s0] while the next view stays below [MAXVIEW]. *)
Inductive reach (s0 : Engine) : Engine -> Prop :=
  | reach_refl : reach s0 s0
  | reach_step s E i : reach s0 s -> m_toView s < MAXVIEW -> entry_ok i -> reach s0 (run E i s).

(** The sign, commit and view change requests an entry point receives, by packet
    type. *)
Definition received (i : entry) (packetType : Z) (x : PBFTMsg) : Prop :=
  match i with
  | InMsg p => packet_id p = packetType /\ msg_decode (PBFTMsg.data p) 0 = Ok x
  | _ => False
  end.

(** The prepare an entry point is offered: received, kept for the height agreed on,
    sealed by the node, or the locked one signed again. *)
Definition offered (E : Env Tx Rcpt Ctx) (i : entry) s (req : PrepareReq (Block Tx Rcpt) Ctx) : Prop :=
  let keys := m_keyPair (m_cfg s) in
  match i with
  | InMsg p => packet_id p = PrepareReqPacket /\ prepare_decode (PBFTMsg.data p) = Ok req
  | InFuture => futurePrepareCache (m_consensusBlockNumber s) (m_reqCache s) = Some req
  | InGenerate b => exists e, bl_encode (codec E) b = Ok e /\
      prepare_of_block (m_number (b_header b)) (headerHash b) e b keys (m_view s) (nodeIdx s) (now E) = Ok req
  | InSeal => prepare_resign (m_committedPrepareCache (m_reqCache s)) keys (m_view s) (nodeIdx s) (now E) = Ok req
  | _ => False
  end.

Section Good.
(** The locks taken before this process was started. *)
Context (L : list (Z * h256)).

Abbreviation good_run E i s := (good L E (received i) (offered E i s) s).
Abbreviation vgood_run i s := (vgood L (received i) s).

(** *** Every entry point keeps the invariant *)
Lemma fresh_refl E i s : inv L s -> fresh L E (received i) (offered E i s) s s.
Proof. intros Hi. split_and!; try done. apply from_refl. Qed.

(** The forwarding half of [handleMsg]. *)
Lemma wp_then_frame {A} (I : Engine -> Prop) (m : Handler A) (k : A -> Handler unit) s :
  (forall s s', core s' = core s -> I s -> I s') -> (forall a, frame_of core (k a)) ->
  wp I m (fun _ => I) s -> wp I (m ≫= k) (fun _ => I) s.
Proof.
  intros HI Hk Hm. apply wp_bind. eapply wp_mono; [| exact Hm]. intros a s' Hs'.
  apply wp_frame; [apply Hk | |]; intros; by eapply HI.
Qed.

Lemma handleMsg_good E p s : inv L s -> m_toView s < MAXVIEW ->
  good_run E (InMsg p) s (run E (InMsg p) s) \/ vgood_run (InMsg p) s (run E (InMsg p) s).
Proof.
  intros Hi Hb. pose proof (fresh_refl E (InMsg p) s Hi) as Hf.
  pose proof (vfresh_refl L (received (InMsg p)) s Hi) as Hvf.
  cbn [run]. unfold handleMsg. cbv zeta. set (k := forwardMsg E p).
  assert (forall a, frame_of core (k a)) as Hk by (intros [a o]; unfold k, forwardMsg; frame_tac).
  set (G := good _ _ _ _ _). set (V := vgood _ _ _).
  destruct (Z.eqb_spec (packet_id p) PrepareReqPacket).
  { left. apply (wp_fst G); [done |]. apply wp_then_frame; [apply core_good | done |].
    unfold handlePrepareMsg. destruct (prepare_decode _) eqn:Ed; [| by apply wp_caught; apply fresh_good].
    apply wp_bind. eapply wp_mono; [| by apply handlePrepare_wp]. intros; by apply wp_ret. }
  destruct (Z.eqb_spec (packet_id p) SignReqPacket).
  { left. apply (wp_fst G); [done |]. apply wp_then_frame; [apply core_good | done |].
    by apply handleSignMsg_wp. }
  destruct (Z.eqb_spec (packet_id p) CommitReqPacket).
  { left. apply (wp_fst G); [done |]. apply wp_then_frame; [apply core_good | done |].
    by apply handleCommitMsg_wp. }
  destruct (Z.eqb_spec (packet_id p) ViewChangeReqPacket).
  { right. apply (wp_fst V); [done |]. apply wp_then_frame; [apply core_vgood | done |].
    by apply handleViewChangeMsg_wp. }
  left. by apply fresh_good.
Qed.

Lemma run_good E i s : inv L s -> m_toView s < MAXVIEW -> is_report i = false ->
  good_run E i s (run E i s) \/ vgood_run i s (run E i s).
Proof.
  intros Hi Hb Hr. pose proof (fresh_refl E i s Hi) as Hf. pose proof (vfresh_refl L (received i) s Hi) as Hvf.
  destruct i as [p|buf from ep| | | |b|b|]; try done; try (by apply handleMsg_good); cbn [run];
    set (G := good _ _ _ _ _); set (V := vgood _ _ _).
  - left. apply fresh_good. eapply core_fresh; [| exact Hf]. apply (onRecv_frame E).
  - right. apply (wp_fst V); [done |]. by apply checkTimeout_wp.
  - left. apply (wp_fst G); [done |]. by apply handleFutureBlock_wp.
  - right. apply (wp_fst V); [done |]. by apply collectGarbage_wp.
  - left. apply (wp_fst G); [done |]. apply generatePrepare_wp; [done | | done].
    intros e p He Hp. by exists e.
  - left. apply (wp_fst G); [done |]. by apply shouldSeal_wp.
Qed.

Lemma report_good E b s : inv L s -> entry_ok (InReport b) -> rgood L s (run E (InReport b) s).
Proof. intros Hi Hb. cbn [run]. apply (wp_fst (rgood L s)); [done |]. by apply reportBlock_wp. Qed.

Lemma run_inv E i s : inv L s -> m_toView s < MAXVIEW -> entry_ok i -> inv L (run E i s).
Proof.
  intros Hi Hb Ho. destruct (is_report i) eqn:Er.
  - destruct i; try done. by apply (report_good E).
  - destruct (run_good E i s Hi Hb Er) as [Hg|Hg]; apply Hg.
Qed.

Lemma reach_inv s0 s : inv L s0 -> reach s0 s -> inv L s.
Proof. intros Hi. induction 1 as [|s E i _ IH Hb Ho]; [done |]. by apply run_inv. Qed.

Lemma lock_unique s0 s h x y : inv L s0 -> reach s0 s ->
  (h, x) ∈ taken L s -> (h, y) ∈ taken L s -> x = y.
Proof.
  intros Hi Hr Hx Hy. destruct (reach_inv s0 s Hi Hr) as [Hc _]. by apply (ci_once _ _ _ Hc h).
Qed.
End Good.

(** An engine that has just been built. *)
Definition is_new s : Prop :=
  m_reqCache s = emptyReqCache /\ m_view s = 0 /\ m_toView s = 0 /\ m_consensusBlockNumber s = 0 /\
  m_trace s = [].

Lemma new_inv s : is_new s -> inv [] s.
Proof.
  intros (Ec & Ev & Et & En & Etr). split; [| lia]. unfold taken, locks. rewrite Ec, En, Etr. split.
  - apply emptyReqCache_wf.
  - split; [lia | done].
  - by left.
  - by left.
  - intros h x Hin. by apply not_elem_of_nil in Hin.
  - intros h x y Hin. by apply not_elem_of_nil in Hin.
Qed.

(** ** Configuration *)
Lemma resetConfig_ok E s s' : resetConfig E s = (s', Ok tt) ->
  eng_sealerList s' = sort_ids (bc_sealerList (blockChain E)) /\
  m_nodeNum s' = wrap 16 (lenZ (eng_sealerList s')) /\ 1 <= m_nodeNum s' /\
  m_f s' = Z.quot (m_nodeNum s' - 1) 3.
Proof.
  unfold resetConfig, updateMaxBlockTransactions, updateConsensusNodeList, mbind, M_bind, lift, modify,
    get, when, emit, throw, mret, M_ret.
  destruct (bc_txCountLimit _) as [lim|]; [| done].
  set (n := sort_ids _). destruct (negb (bool_decide _)); cbn -[wrap Z.quot]; intros Hr;
    repeat (case_hyp Hr; try done); injection Hr as <-; cbn -[wrap Z.quot]; bool_to_prop;
    split_and!; done || lia.
Qed.

(** ** Quorums *)
Lemma set_intersection (U A B : gset NodeID) : A ⊆ U -> B ⊆ U ->
  (size A + size B <= size U + size (A ∩ B))%nat.
Proof.
  intros HA HB. pose proof (size_union_alt A B) as Hu.
  pose proof (subseteq_size (A ∪ B) U (proj2 (union_subseteq A B U) (conj HA HB))).
  pose proof (size_difference_alt B A) as Hd.
  assert (size (B ∩ A) = size (A ∩ B)) by (by rewrite (intersection_comm_L A B)).
  pose proof (subseteq_size (A ∩ B) B (intersection_subseteq_r A B)). lia.
Qed.

(** Two quorums of [n - f] out of [n] share more than [f] nodes. *)
Lemma quorum_overlap (U A B : gset NodeID) n f :
  Z.of_nat (size U) = n -> 1 <= n -> f = Z.quot (n - 1) 3 -> A ⊆ U -> B ⊆ U ->
  n - f <= Z.of_nat (size A) -> n - f <= Z.of_nat (size B) ->
  f < Z.of_nat (size (A ∩ B)).
Proof.
  intros HU Hn Hf HA HB Ha Hb. pose proof (set_intersection U A B HA HB).
  rewrite Z.quot_div_nonneg in Hf by lia.
  pose proof (Z.div_mod (n - 1) 3 ltac:(lia)). pose proof (Z.mod_pos_bound (n - 1) 3 ltac:(lia)). lia.
Qed.

(** More than [f] nodes of which at most [f] are faulty: one is correct. *)
Lemma correct_member (X F : gset NodeID) f :
  f < Z.of_nat (size X) -> Z.of_nat (size F) <= f -> exists i, i ∈ X /\ i ∉ F.
Proof.
  intros HX HF. pose proof (size_difference_alt X F) as Hd.
  pose proof (subseteq_size (X ∩ F) F (intersection_subseteq_r X F)).
  destruct (size_pos_elem_of (X ∖ F)) as [i Hi]; [lia |].
  apply elem_of_difference in Hi as [? ?]. by exists i.
Qed.
End Transitions.

(** ** Locks *)

(** C1: in any run of a node, over any interleaving of messages, timeouts, view
    changes, restored future blocks and reported blocks, the node never locks
    (prepares to commit, persists and votes for) two prepares of the same height
    that announce different block hashes; locks [L] that a previous process left
    in the database count.  The run starts in a state of the invariant, as a new
    engine ([new_inv]) or one restarted on its database does, and the views and
    the reported heights stay below the largest 64-bit integer.  That the block a
    prepare carries has the announced hash is checked nowhere
    ([announced_hash_unchecked]): the lock is on the hash. *)
Theorem one_lock_per_height `{Crypto} `{MapOrder} {Tx Rcpt Ctx : Type} (L : list (Z * h256))
    (s0 s : PBFTEngine Tx Rcpt Ctx) h x y :
  inv L s0 -> reach s0 s -> (h, x) ∈ taken L s -> (h, y) ∈ taken L s -> x = y.
Proof. apply lock_unique. Qed.

(** C2: agreement: whatever at most [f] faulty sealers do, if the correct members
    of one quorum locked prepares of some height that announce the hash [x] and
    the correct members of another quorum locked prepares of that height that
    announce [y], the announced hashes are the same.  As in [one_lock_per_height],
    the lock is on the announced hash. *)
Theorem lock_agreement `{Crypto} `{MapOrder} {Tx Rcpt Ctx : Type} (sealers faulty A B : gset NodeID)
    (L : NodeID -> list (Z * h256)) (init node : NodeID -> PBFTEngine Tx Rcpt Ctx) n f h x y :
  Z.of_nat (size sealers) = n -> 1 <= n -> f = Z.quot (n - 1) 3 ->
  Z.of_nat (size faulty) <= f -> A ⊆ sealers -> B ⊆ sealers ->
  n - f <= Z.of_nat (size A) -> n - f <= Z.of_nat (size B) ->
  (forall i, i ∈ sealers -> i ∉ faulty -> inv (L i) (init i) /\ reach (init i) (node i)) ->
  (forall i, i ∈ A -> i ∉ faulty -> (h, x) ∈ taken (L i) (node i)) ->
  (forall i, i ∈ B -> i ∉ faulty -> (h, y) ∈ taken (L i) (node i)) ->
  x = y.
Proof.
  intros Hs Hn Hf HF HA HB Ha Hb Hrun Hx Hy.
  destruct (correct_member (A ∩ B) faulty f) as (i & Hi & Hi'); [| done |].
  { by apply (quorum_overlap sealers A B n f). }
  apply elem_of_intersection in Hi as [HiA HiB].
  destruct (Hrun i (HA i HiA) Hi') as [Hinv Hreach].
  apply (lock_unique (L i) (init i) (node i) h x y Hinv Hreach); auto.
Qed.

(** ** Commits *)


(** ** Views *)

(** C4: while a block is being agreed on views never go back and [m_view] never
    overtakes [m_toView], and a node enters a new view only with requests for it
    of at least [minValidNodes - 1] distinct nodes, each of which was in its cache
    before the call or was received by it with both signatures of the sealer it
    names. *)
Theorem views_grow_by_quorum `{Crypto} `{MapOrder} {Tx Rcpt Ctx : Type} (L : list (Z * h256))
    (s0 s : PBFTEngine Tx Rcpt Ctx) E i :
  inv L s0 -> reach s0 s -> m_toView s < MAXVIEW -> is_report i = false ->
  m_view s <= m_view (run E i s) <= m_toView (run E i s) /\ m_toView s <= m_toView (run E i s) /\
  (m_view (run E i s) = m_view s \/ exists q, view_quorum (received i) s (m_view (run E i s)) q).
Proof.
  intros Hi Hr Hb Her. pose proof (reach_inv L s0 s Hi Hr) as Hs.
  destruct (run_good L E i s Hs Hb Her) as [([_ ?] & Hv & Ht & _)|([_ ?] & _ & _ & Hv & Ht & Hor)].
  - split_and!; lia.
  - split_and!; [lia.. | exact Hor].
Qed.

(** ** Quorums *)

(** Quorums under the configuration [resetConfig] computes. *)
Lemma config_overlap `{Crypto} `{MapOrder} {Tx Rcpt Ctx : Type} (E : Env Tx Rcpt Ctx) (s s' : PBFTEngine Tx Rcpt Ctx)
    (A B : gset NodeID) :
  resetConfig E s = (s', Ok tt) -> NoDup (eng_sealerList s') -> lenZ (eng_sealerList s') < 2 ^ 16 ->
  A ⊆ list_to_set (eng_sealerList s') -> B ⊆ list_to_set (eng_sealerList s') ->
  minValidNodes s' <= Z.of_nat (size A) -> minValidNodes s' <= Z.of_nat (size B) ->
  m_f s' < Z.of_nat (size (A ∩ B)).
Proof.
  intros Hr Hnd Hlt HA HB Ha Hb. destruct (resetConfig_ok E s s' Hr) as (_ & Hn & H1 & Hf).
  pose proof (lenZ_nonneg (eng_sealerList s')). rewrite wrap_small in Hn by lia.
  assert (minValidNodes s' = m_nodeNum s' - m_f s') as Hm.
  { unfold minValidNodes. apply wrap_small. rewrite Hf, Z.quot_div_nonneg by lia.
    pose proof (Z.div_pos (m_nodeNum s' - 1) 3 ltac:(lia) ltac:(lia)).
    pose proof (Z.div_le_upper_bound (m_nodeNum s' - 1) 3 (m_nodeNum s') ltac:(lia) ltac:(lia)). lia. }
  apply (quorum_overlap (list_to_set (eng_sealerList s')) A B (m_nodeNum s') (m_f s')); try lia; try done.
  rewrite size_list_to_set by done. rewrite Hn. unfold lenZ. lia.
Qed.

(** With the configuration [resetConfig] computes, any two sets of sealers
    as large as [minValidNodes] share more than [m_f] sealers. *)
Theorem quorums_intersect `{Crypto} `{MapOrder} {Tx Rcpt Ctx : Type} (E : Env Tx Rcpt Ctx) (s s' : PBFTEngine Tx Rcpt Ctx)
    (A B : gset NodeID) :
  resetConfig E s = (s', Ok tt) -> NoDup (eng_sealerList s') -> lenZ (eng_sealerList s') < 2 ^ 16 ->
  A ⊆ list_to_set (eng_sealerList s') -> B ⊆ list_to_set (eng_sealerList s') ->
  minValidNodes s' <= Z.of_nat (size A) -> minValidNodes s' <= Z.of_nat (size B) ->
  m_f s' < Z.of_nat (size (A ∩ B)).
Proof. apply config_overlap. Qed.

(** ** A single sealer agreeing with itself, for the witnesses *)
Definition sample_id : NodeID := replicate 64 1.
Definition sample_keys : KeyPair := {| secret := replicate 32 1; pub := sample_id |}.

Definition sample_block (number : Z) (txs : list unit) : Block unit unit :=
  setTransactions txs (with_header
    (setSealerList [sample_id] (setTimestamp 7 (setSealer 0 (setNumber number emptyHeader)))) emptyBlock).

Definition sample_env : Env unit unit unit :=
  {| now := 1000; sessions := [];
     blockChain := {| bc_number := 0; bc_numberHash := fun _ => h256_0;
       bc_getBlockByHash := fun _ => Some emptyBlock; bc_getBlockByNumber := fun _ => Some emptyBlock;
       bc_commitBlock := fun _ _ => true; bc_sealerList := [sample_id]; bc_observerList := [];
       bc_txCountLimit := Ok 1000 |};
     blockSync := {| sync_isSyncing := false; sync_knownHighestNumber := 0 |};
     txPool := {| tp_setSenders := fun b => Ok b; tp_txHash := fun _ => h256_0 |};
     blockVerifier := {| bv_executeBlock := fun b _ => Ok (b, Some tt) |};
     codec := {| bl_encode := fun _ => Ok [1]; bl_decode := fun _ => Ok emptyBlock |}; backupOk := true |}.

Definition new_engine : PBFTEngine unit unit unit :=
  mkEngine 0 0 false false (Some ∅) ∅ emptyReqCache (mkTime 3000 0 0 0 1000 500 0) [] false MAXTTL ∅ 0
    1000 0 emptyHeader 0 0 ObserverAccount 0 [] None 0 false
    (mkConfig sample_keys true true false false false false) [].

Definition sample_s1 : PBFTEngine unit unit unit :=
  @run toy_crypto canonical_order _ _ _ sample_env (InReport (sample_block 0 [])) new_engine.

Definition sample_s2 : PBFTEngine unit unit unit :=
  @run toy_crypto canonical_order _ _ _ sample_env (InGenerate (sample_block 1 [tt])) sample_s1.

Definition sample_hash : h256 := @headerHash unit unit toy_crypto (sample_block 1 [tt]).

Example sample_run_commits :
  locks sample_s2 = [(1, sample_hash)] /\ lenZ (commits sample_s2) = 1.
Proof. vm_compute. split; reflexivity. Qed.

Lemma sample_reach : @reach toy_crypto canonical_order _ _ _ new_engine sample_s2.
Proof.
  apply (@reach_step toy_crypto canonical_order _ _ _ new_engine sample_s1 sample_env
           (InGenerate (sample_block 1 [tt]))); [| vm_compute; reflexivity | done].
  apply (@reach_step toy_crypto canonical_order _ _ _ new_engine new_engine sample_env
           (InReport (sample_block 0 []))); [constructor | vm_compute; reflexivity | vm_compute; reflexivity].
Qed.

Lemma sample_reach1 : @reach toy_crypto canonical_order _ _ _ new_engine sample_s1.
Proof.
  apply (@reach_step toy_crypto canonical_order _ _ _ new_engine new_engine sample_env
           (InReport (sample_block 0 []))); [constructor | vm_compute; reflexivity | vm_compute; reflexivity].
Qed.

Lemma new_engine_inv : @inv toy_crypto _ _ _ [] new_engine.
Proof. apply (@new_inv toy_crypto). by split_and!. Qed.

Lemma sample_locked : (1, sample_hash) ∈ taken [] sample_s2.
Proof. vm_compute. constructor. Qed.

Lemma one_lock_per_height_witness : sample_hash = sample_hash.
Proof.
  apply (@one_lock_per_height toy_crypto canonical_order _ _ _ [] new_engine sample_s2 1 sample_hash sample_hash).
  - apply new_engine_inv.
  - apply sample_reach.
  - apply sample_locked.
  - apply sample_locked.
Defined.

Lemma lock_agreement_witness : sample_hash = sample_hash.
Proof.
  apply (@lock_agreement toy_crypto canonical_order unit unit unit {[sample_id]} ∅ {[sample_id]}
    {[sample_id]} (fun _ => []) (fun _ => new_engine) (fun _ => sample_s2) 1 0 1 sample_hash sample_hash);
    try (intros i _ _; apply sample_locked).
  - rewrite size_singleton. reflexivity.
  - reflexivity || lia.
  - reflexivity.
  - rewrite size_empty. lia.
  - done.
  - done.
  - rewrite size_singleton. lia.
  - rewrite size_singleton. lia.
  - intros i _ _. split; [apply new_engine_inv | apply sample_reach].
Defined.


(** A single sealer changes its view alone. *)
Definition late_env : Env unit unit unit :=
  {| now := 1000000; sessions := []; blockChain := blockChain sample_env; blockSync := blockSync sample_env;
     txPool := txPool sample_env; blockVerifier := blockVerifier sample_env; codec := codec sample_env;
     backupOk := true |}.

Lemma views_grow_by_quorum_witness :
  let s' := @run toy_crypto canonical_order _ _ _ late_env InTimeout sample_s1 in
  m_view sample_s1 <= m_view s' <= m_toView s' /\ m_toView sample_s1 <= m_toView s' /\
  (m_view s' = m_view sample_s1 \/
   exists q, @view_quorum toy_crypto _ _ _ (@received unit unit InTimeout) sample_s1 (m_view s') q).
Proof.
  apply (@views_grow_by_quorum toy_crypto canonical_order _ _ _ [] new_engine sample_s1 late_env InTimeout).
  - apply new_engine_inv.
  - apply sample_reach1.
  - vm_compute. reflexivity.
  - reflexivity.
Defined.

Lemma quorums_intersect_witness :
  let s' := fst (resetConfig (Tx := unit) (Rcpt := unit) (Ctx := unit) sample_env new_engine) in
  m_f s' < Z.of_nat (size ({[sample_id]} ∩ {[sample_id]} : gset NodeID)).
Proof.
  intros s'. apply (@quorums_intersect toy_crypto canonical_order unit unit unit sample_env new_engine s'
    {[sample_id]} {[sample_id]}).
  - vm_compute. reflexivity.
  - vm_compute. apply NoDup_singleton.
  - vm_compute. reflexivity.
  - vm_compute. set_solver.
  - vm_compute. set_solver.
  - vm_compute. discriminate.
  - vm_compute. discriminate.
Defined.
