(* ===== verification/PBFTChecks.v ===== *)
(** * Leaders, prepares, synchronised blocks and recovery

    Properties of single operations of [PBFTEngine]: leader rotation, the
    order of the sealers, the acceptance of prepares and of blocks received by
    synchronisation, the restoration of the lock after a restart, forwarding
    and timeouts. *)

From stdpp Require Import sorting.
From S2P Require Import Prelude CommonData RLP PBFTMsg BlockHeader Block.
From S2P Require Import PBFTMsgCache PBFTReqCache PBFTState PBFTEngine PBFTSafety PBFTProps.

(** ** The order of the sealers *)
Definition ble (a b : bytes) : Prop := bytes_le a b = true.

Lemma ble_total a b : ble a b \/ ble b a.
Proof.
  unfold ble. revert b. induction a as [|x a IH]; intros [|y b]; cbn; try (by left); try (by right).
  destruct (IH b) as [Hab|Hba]; destruct (Z.lt_total x y) as [Hlt|[->|Hlt]];
    rewrite ?Z.ltb_irrefl, ?Z.eqb_refl, ?Hab, ?Hba, ?(proj2 (Z.ltb_lt _ _) Hlt); cbn; auto.
Qed.

Lemma ble_trans a b c : ble a b -> ble b c -> ble a c.
Proof.
  unfold ble. revert b c. induction a as [|x a IH]; intros [|y b] [|z c]; cbn; try done.
  intros Hab Hbc. apply orb_true_iff in Hab, Hbc. rewrite andb_true_iff in Hab, Hbc.
  rewrite !Z.ltb_lt, !Z.eqb_eq in *. apply orb_true_iff. rewrite andb_true_iff, Z.ltb_lt, Z.eqb_eq.
  destruct Hab as [?|[-> Hab]], Hbc as [?|[-> Hbc]]; try (left; lia). right. eauto.
Qed.

Lemma ble_antisymm a b : ble a b -> ble b a -> a = b.
Proof.
  unfold ble. revert b. induction a as [|x a IH]; intros [|y b]; cbn; try done.
  intros Hab Hba. apply orb_true_iff in Hab, Hba. rewrite andb_true_iff in Hab, Hba.
  rewrite !Z.ltb_lt, !Z.eqb_eq in *.
  destruct Hab as [?|[-> Hab]], Hba as [?|[? Hba]]; try lia. by rewrite (IH b).
Qed.

Lemma insert_sorted_perm x l : insert_sorted x l ≡ₚ x :: l.
Proof.
  induction l as [|y l IH]; cbn; [done |]. case_step; [done |]. rewrite IH. apply Permutation_swap.
Qed.

Lemma insert_sorted_sorted x l : StronglySorted ble l -> StronglySorted ble (insert_sorted x l).
Proof.
  induction 1 as [|y l Hl IH Hy]; cbn; [repeat constructor |]. case_step.
  - constructor; [by constructor |]. constructor; [done |].
    eapply Forall_impl; [exact Hy |]. intros z Hz. by apply (ble_trans x y z).
  - constructor; [done |]. rewrite insert_sorted_perm. constructor; [| done].
    destruct (ble_total x y) as [Hxy|]; [| done]. unfold ble in Hxy. congruence.
Qed.

Lemma sort_ids_perm l : sort_ids l ≡ₚ l.
Proof. induction l as [|x l IH]; cbn; [done |]. by rewrite insert_sorted_perm, IH. Qed.

Lemma sort_ids_sorted l : StronglySorted ble (sort_ids l).
Proof. induction l as [|x l IH]; cbn; [constructor |]. by apply insert_sorted_sorted. Qed.

Lemma sort_ids_unique l k : l ≡ₚ k -> sort_ids l = sort_ids k.
Proof.
  intros Hp. apply (StronglySorted_unique_strong ble); [| apply sort_ids_sorted.. |].
  - intros x y _ _. apply ble_antisymm.
  - by rewrite !sort_ids_perm.
Qed.

(** ** Leaders *)
Section Leaders.
Context {Tx Rcpt Ctx : Type}.
Implicit Types s : PBFTEngine Tx Rcpt Ctx.

Lemma leader_value s l : getLeader s = (true, l) -> 0 < m_nodeNum s < 2 ^ 16 ->
  0 <= m_view s + m_number (m_highestBlock s) ->
  l = (m_view s + m_number (m_highestBlock s)) mod m_nodeNum s.
Proof.
  unfold getLeader. case_step; [done |]. intros [= <-] Hn Hp.
  rewrite Z.rem_mod_nonneg by lia. apply wrap_small.
  pose proof (Z.mod_pos_bound (m_view s + m_number (m_highestBlock s)) (m_nodeNum s) ltac:(lia)). lia.
Qed.

Lemma leader_set_view s v : fst (getLeader (set_view v s)) = fst (getLeader s).
Proof.
  unfold getLeader. change (m_cfgErr (set_view v s)) with (m_cfgErr s).
  change (m_leaderFailed (set_view v s)) with (m_leaderFailed s).
  change (m_highestBlock (set_view v s)) with (m_highestBlock s).
  change (m_nodeNum (set_view v s)) with (m_nodeNum s). by case_step.
Qed.

Lemma leader_after s l k : getLeader s = (true, l) -> 0 < m_nodeNum s < 2 ^ 16 ->
  0 <= m_view s + m_number (m_highestBlock s) -> 0 <= k ->
  getLeader (set_view (m_view s + k) s) = (true, (l + k) mod m_nodeNum s).
Proof.
  intros Hl Hn Hp Hk. pose proof (leader_set_view s (m_view s + k)) as Hf. rewrite Hl in Hf.
  destruct (getLeader (set_view (m_view s + k) s)) as [ok l'] eqn:E. cbn in Hf. subst ok. f_equal.
  rewrite (leader_value _ _ E); [| done | cbn; lia]. rewrite (leader_value s l Hl) by done.
  cbn [m_view m_highestBlock m_nodeNum set_view]. rewrite Zplus_mod_idemp_l. f_equal. lia.
Qed.
End Leaders.

(** Nodes whose chains hold the same sealers, in whatever order, compute the
    same sealer indices, the same fault bound and the same quorum size, and
    elect the same leader when they are in the same view on the same block. *)
Theorem nodes_agree_on_leader `{Crypto} `{MapOrder} {Tx Rcpt Ctx : Type} (E1 E2 : Env Tx Rcpt Ctx)
    (s1 s2 t1 t2 : PBFTEngine Tx Rcpt Ctx) l1 l2 :
  bc_sealerList (blockChain E1) ≡ₚ bc_sealerList (blockChain E2) ->
  resetConfig E1 s1 = (t1, Ok tt) -> resetConfig E2 s2 = (t2, Ok tt) ->
  m_view t1 = m_view t2 -> m_highestBlock t1 = m_highestBlock t2 ->
  getLeader t1 = (true, l1) -> getLeader t2 = (true, l2) ->
  eng_sealerList t1 = eng_sealerList t2 /\ m_f t1 = m_f t2 /\ minValidNodes t1 = minValidNodes t2 /\
  l1 = l2.
Proof.
  intros Hp H1 H2 Hv Hh L1 L2.
  destruct (resetConfig_ok E1 s1 t1 H1) as (S1 & N1 & _ & F1).
  destruct (resetConfig_ok E2 s2 t2 H2) as (S2 & N2 & _ & F2).
  assert (eng_sealerList t1 = eng_sealerList t2) as Es by (rewrite S1, S2; by apply sort_ids_unique).
  assert (m_nodeNum t1 = m_nodeNum t2) as En by (by rewrite N1, N2, Es).
  assert (m_f t1 = m_f t2) as Ef by (by rewrite F1, F2, En).
  split_and!; [done | done | unfold minValidNodes; by rewrite En, Ef |].
  unfold getLeader in L1, L2. rewrite Hv, Hh, En in L1.
  destruct (_ || _) in L1; [done |]. destruct (_ || _) in L2; [done |]. congruence.
Qed.

(** Leadership rotates: from a state with a leader, among the next
    [m_nodeNum] views every sealer index leads in exactly one. *)
Theorem leader_rotation {Tx Rcpt Ctx : Type} (s : PBFTEngine Tx Rcpt Ctx) l i :
  getLeader s = (true, l) -> 0 < m_nodeNum s < 2 ^ 16 ->
  0 <= m_view s + m_number (m_highestBlock s) -> 0 <= i < m_nodeNum s ->
  exists k, 0 <= k < m_nodeNum s /\ getLeader (set_view (m_view s + k) s) = (true, i) /\
    forall k', 0 <= k' < m_nodeNum s -> getLeader (set_view (m_view s + k') s) = (true, i) -> k' = k.
Proof.
  intros Hl Hn Hp Hi. set (n := m_nodeNum s) in *.
  assert (forall k, 0 <= k -> getLeader (set_view (m_view s + k) s) = (true, (l + k) mod n)) as Hk.
  { intros k Hk. by apply leader_after. }
  exists ((i - l) mod n). pose proof (Z.mod_pos_bound (i - l) n ltac:(lia)).
  split; [done |]. split.
  - rewrite Hk by lia. rewrite Zplus_mod_idemp_r. replace (l + (i - l)) with i by lia.
    by rewrite Z.mod_small.
  - intros k' Hk'. rewrite Hk by lia. intros [= <-].
    rewrite Zminus_mod_idemp_l. replace (l + k' - l) with k' by lia. by rewrite Z.mod_small.
Qed.

(** ** Prepares *)

(** Both signatures of a request, on its block hash and on its other fields,
    verify under the key of the sealer it names. *)
Definition signed_by `{Crypto} {Tx Rcpt Ctx : Type} (s : PBFTEngine Tx Rcpt Ctx) (m : PBFTMsg) : Prop :=
  exists id f, eng_sealerList s !! Z.to_nat (idx m) = Some id /\ id <> h512_0 /\
    verify id (sig m) (block_hash m) = true /\
    fieldsWithoutBlock (height m) (view m) (idx m) (timestamp m) = Ok f /\ verify id (sig2 m) f = true.

Lemma getSealer_lookup {Tx Rcpt Ctx : Type} (s : PBFTEngine Tx Rcpt Ctx) i : 0 <= i ->
  getSealerByIndex i s = default h512_0 (eng_sealerList s !! Z.to_nat i).
Proof.
  intros Hi. unfold getSealerByIndex. destruct (Z.ltb_spec i (lenZ (eng_sealerList s))) as [Hl|Hl].
  - destruct (lookup_lt_is_Some_2 (eng_sealerList s) (Z.to_nat i)) as [x Hx]; [unfold lenZ in Hl; lia |].
    rewrite Hx. by rewrite (nth_lookup_Some _ _ _ _ Hx).
  - by rewrite lookup_ge_None_2 by (unfold lenZ in Hl; lia).
Qed.

Lemma checkSign_iff `{Crypto} {Tx Rcpt Ctx : Type} (s : PBFTEngine Tx Rcpt Ctx) m : 0 <= idx m ->
  checkSign m s = Ok true <-> signed_by s m.
Proof.
  intros Hi. unfold checkSign, getNodeIDByIndex, signed_by. rewrite getSealer_lookup by done.
  destruct (eng_sealerList s !! Z.to_nat (idx m)) as [id|].
  - change (default h512_0 (Some id)) with id. destruct (bool_decide_reflect (id = h512_0)) as [->|Hne].
    { split; [done |]. by intros (id & f & [= <-] & ? & _). }
    destruct (verify id (sig m) (block_hash m)) eqn:E1.
    + unfold msg_fieldsWithoutBlock. destruct (fieldsWithoutBlock _ _ _ _) as [f|] eqn:Ef; cbn [mbind result_bind].
      * split; [intros [= Hv]; by exists id, f |].
        intros (id' & f' & [= <-] & _ & _ & [= <-] & Hv). by rewrite Hv.
      * split; [done |]. by intros (? & ? & _ & _ & _ & ? & _).
    + split; [done |]. intros (id' & f' & [= <-] & _ & Hv & _). congruence.
  - change (default h512_0 (@None NodeID)) with h512_0. rewrite bool_decide_true by done.
    split; [done |]. by intros (? & ? & ? & _).
Qed.

Lemma leader_nonneg {Tx Rcpt Ctx : Type} (s : PBFTEngine Tx Rcpt Ctx) l : getLeader s = (true, l) -> 0 <= l.
Proof. unfold getLeader. case_step; [done |]. intros [= <-]. by apply wrap_range. Qed.

(** C7: a prepare request is [VALID] exactly when its hash is not that of the raw
    prepare at hand, its height is not being synchronised, it is at the height
    and in the view being agreed on, from that view's leader, with the locked
    hash if the node is locked at that height, and the signature on its block
    hash and the one on its height, view, index and timestamp both verify under
    the leader's key; deciding so does not change the state. *)
Theorem valid_prepare_iff `{Crypto} `{MapOrder} {Tx Rcpt Ctx : Type} (E : Env Tx Rcpt Ctx)
    (s : PBFTEngine Tx Rcpt Ctx) req :
  let m := p_msg req in
  isValidPrepare E req s = (s, Ok VALID) <->
  block_hash (raw (m_reqCache s)) <> block_hash m /\
  (sync_isSyncing (blockSync E) = true -> sync_knownHighestNumber (blockSync E) < height m) /\
  height m = m_consensusBlockNumber s /\ view m = m_view s /\ getLeader s = (true, idx m) /\
  (height m = height (lock (m_reqCache s)) -> block_hash m = block_hash (lock (m_reqCache s))) /\
  signed_by s m.
Proof.
  cbv zeta. split.
  - intros Hr. destruct (isValidPrepare_valid E req s s VALID Hr eq_refl) as (_ & Hh & Hv & Hl & Hk & Hc).
    unfold isValidPrepare, mbind, M_bind, get, mret, M_ret in Hr.
    destruct (isExistPrepare _ _) eqn:Ee; [done |]. destruct (isSyncingHigherBlock _ _) eqn:Es; [done |].
    unfold isExistPrepare in Ee. unfold isSyncingHigherBlock in Es. bool_to_prop.
    split_and!; try done; [| by apply checkSign_iff; [eapply leader_nonneg |]].
    intros Hy. rewrite Hy in Es. cbn [andb] in Es. by bool_to_prop.
  - intros (He & Hs & Hh & Hv & Hl & Hk & Hc). apply checkSign_iff in Hc; [| by eapply leader_nonneg].
    unfold isValidPrepare, mbind, M_bind, get, mret, M_ret, lift.
    unfold isExistPrepare. rewrite bool_decide_false by done.
    assert (isSyncingHigherBlock E (p_msg req) = false) as ->.
    { unfold isSyncingHigherBlock. destruct (sync_isSyncing _); [| done]. cbn [andb].
      specialize (Hs eq_refl). apply Z.leb_gt. lia. }
    unfold hasConsensused, isFuturePrepare, isValidLeader, isHashSavedAfterCommit.
    fold (lock (m_reqCache s)). rewrite Hh, Hv, Hl, Z.ltb_irrefl, Z.eqb_refl, Hc. cbn [fst snd].
    rewrite Z.ltb_irrefl, Z.eqb_refl. cbn [orb andb negb].
    destruct (Z.eqb_spec (m_consensusBlockNumber s) (height (lock (m_reqCache s)))) as [El|]; [| done].
    rewrite bool_decide_true by (apply Hk; congruence). done.
Qed.

(** The block that a prepare carries is not compared with the hash it announces: a
    request stays [VALID] whatever block is put in its place. *)
Theorem announced_hash_unchecked `{Crypto} `{MapOrder} {Tx Rcpt Ctx : Type} (E : Env Tx Rcpt Ctx)
    (s : PBFTEngine Tx Rcpt Ctx) req (other : bytes) :
  isValidPrepare E req s = (s, Ok VALID) -> isValidPrepare E (put_block other req) s = (s, Ok VALID).
Proof.
  unfold isValidPrepare, mbind, M_bind, get, mret, M_ret, lift. unfold isExistPrepare. cbn [p_msg put_block].
  destruct (bool_decide _); [done |]. destruct (isSyncingHigherBlock _ _); [done |].
  destruct (hasConsensused _ _); [done |]. by destruct (isFuturePrepare _ _).
Qed.

(** ** Blocks received by synchronisation *)
Section CheckBlock.
Context `{Crypto} {Tx Rcpt Ctx : Type}.
Implicit Types (s : PBFTEngine Tx Rcpt Ctx) (b : Block Tx Rcpt).

(** [(i, sg)] is a signature of the sealer with index [i] on [hash]. *)
Definition sig_ok (sealers : list h512) (hash : h256) (p : Z * Signature) : Prop :=
  p.1 < lenZ sealers /\ verify (nth (Z.to_nat p.1) sealers h512_0) p.2 hash = true.

Lemma checkSigs_iff sigs sealers hash :
  checkSigs sigs sealers hash = true <-> Forall (sig_ok sealers hash) sigs.
Proof.
  induction sigs as [|[i sg] sigs IH]; [done |]. cbn [checkSigs]. rewrite Forall_cons. unfold sig_ok at 1.
  cbn [fst snd]. rewrite <- IH. destruct (Z.leb_spec (lenZ sealers) i).
  - split; [done | lia].
  - destruct (verify _ _ _); cbn [negb]; [| split; [done | by intros [[_ ?] _]]].
    tauto.
Qed.

Lemma checkBlock_sigs (conv : Z -> Z) b s : checkBlock conv b s = true -> m_number (b_header b) <> 0 ->
  minValidNodes s <= lenZ (b_sigList b) /\ Forall (sig_ok (eng_sealerList s) (headerHash b)) (b_sigList b).
Proof.
  unfold checkBlock. cbv zeta. intros Hc Hn. case_hyp Hc; bool_to_prop; [done |]. case_hyp Hc; [done |].
  case_hyp Hc; [done |]. case_hyp Hc; [done |]. destruct (checkSigs _ _ _) eqn:Es; [| done].
  bool_to_prop. split; [lia | by apply checkSigs_iff].
Qed.

(** The sealers whose signatures a list holds. *)
Definition signers (sealers : list h512) (sigs : list (Z * Signature)) : gset NodeID :=
  list_to_set (map (fun p => nth (Z.to_nat p.1) sealers h512_0) sigs).

Lemma nth_NoDup_inj (l : list h512) i j : NoDup l -> 0 <= i < lenZ l -> 0 <= j < lenZ l ->
  nth (Z.to_nat i) l h512_0 = nth (Z.to_nat j) l h512_0 -> i = j.
Proof.
  unfold lenZ. intros Hnd Hi Hj E.
  assert (Z.to_nat i = Z.to_nat j); [| lia].
  apply (proj1 (NoDup_nth l h512_0) (proj1 (NoDup_ListNoDup l) Hnd)); [lia | lia | exact E].
Qed.

Lemma signers_size sealers hash sigs : NoDup sealers -> NoDup (map fst sigs) ->
  Forall (fun p => 0 <= p.1) sigs -> Forall (sig_ok sealers hash) sigs ->
  Z.of_nat (size (signers sealers sigs)) = lenZ sigs.
Proof.
  intros Hs Hnd Hp Hok. unfold signers. rewrite size_list_to_set; [by rewrite length_map |].
  induction sigs as [|[i sg] sigs IH]; [constructor |]. cbn [map fst] in *.
  apply NoDup_cons in Hnd as [Hi Hnd]. apply Forall_cons in Hp as [Hp1 Hp], Hok as [[Hok1 _] Hok].
  apply NoDup_cons. split; [| by apply IH]. intros Hin. apply Hi.
  apply list_elem_of_In, in_map_iff in Hin as ([j sg'] & E & Hin). cbn [fst] in *.
  pose proof (proj1 (List.Forall_forall _ _) Hp _ Hin) as Hpj.
  destruct (proj1 (List.Forall_forall _ _) Hok _ Hin) as [Hokj _]. cbn [fst] in *.
  apply (nth_NoDup_inj sealers j i Hs) in E; [| lia | lia]. subst j.
  apply list_elem_of_In, in_map_iff. by exists (i, sg').
Qed.

Lemma signers_subset sealers hash sigs :
  Forall (fun p => 0 <= p.1) sigs -> Forall (sig_ok sealers hash) sigs ->
  signers sealers sigs ⊆ list_to_set sealers.
Proof.
  intros Hp Hok x Hx. unfold signers in Hx.
  apply elem_of_list_to_set, list_elem_of_In, in_map_iff in Hx as (p & <- & Hin).
  apply elem_of_list_to_set, list_elem_of_In, nth_In.
  pose proof (proj1 (List.Forall_forall _ _) Hp _ Hin) as Hpj. cbn beta in Hpj.
  destruct (proj1 (List.Forall_forall _ _) Hok _ Hin) as [Hokj _]. unfold lenZ in Hokj. lia.
Qed.

Lemma signers_signed sealers hash sigs x : Forall (sig_ok sealers hash) sigs ->
  x ∈ signers sealers sigs -> exists sg, verify x sg hash = true.
Proof.
  intros Hok Hx. unfold signers in Hx.
  apply elem_of_list_to_set, list_elem_of_In, in_map_iff in Hx as (p & <- & Hin).
  destruct (proj1 (List.Forall_forall _ _) Hok _ Hin) as [_ Hv]. by exists p.2.
Qed.

(** The signature lists of received blocks hold unsigned 256-bit indices. *)
Definition distinct_signers b : Prop :=
  NoDup (map fst (b_sigList b)) /\ Forall (fun p => 0 <= p.1) (b_sigList b).
End CheckBlock.

(** C6: two synchronised blocks that pass [checkBlock] with distinct signer
    indices were both signed by more than [m_f] common sealers: with at most
    [m_f] faulty sealers a correct one signed both. *)
Theorem checked_blocks_share_signers `{Crypto} `{MapOrder} {Tx Rcpt Ctx : Type} (conv : Z -> Z)
    (E : Env Tx Rcpt Ctx) (s s' : PBFTEngine Tx Rcpt Ctx) (b1 b2 : Block Tx Rcpt) :
  resetConfig E s = (s', Ok tt) -> NoDup (eng_sealerList s') -> lenZ (eng_sealerList s') < 2 ^ 16 ->
  checkBlock conv b1 s' = true -> checkBlock conv b2 s' = true ->
  m_number (b_header b1) <> 0 -> m_number (b_header b2) <> 0 ->
  distinct_signers b1 -> distinct_signers b2 ->
  exists X : gset NodeID, m_f s' < Z.of_nat (size X) /\ X ⊆ list_to_set (eng_sealerList s') /\
    forall id, id ∈ X -> (exists sg, verify id sg (headerHash b1) = true) /\
                         (exists sg, verify id sg (headerHash b2) = true).
Proof.
  intros Hr Hnd Hlt C1 C2 N1 N2 [D1 P1] [D2 P2].
  destruct (checkBlock_sigs conv b1 s' C1 N1) as [L1 S1].
  destruct (checkBlock_sigs conv b2 s' C2 N2) as [L2 S2].
  set (A := signers (eng_sealerList s') (b_sigList b1)). set (B := signers (eng_sealerList s') (b_sigList b2)).
  assert (A ⊆ list_to_set (eng_sealerList s')) as HA by (by eapply signers_subset).
  assert (B ⊆ list_to_set (eng_sealerList s')) as HB by (by eapply signers_subset).
  exists (A ∩ B). split_and!.
  - apply (config_overlap E s s' A B); try done; unfold A, B; erewrite signers_size; eauto.
  - intros x [Hx _]%elem_of_intersection; by apply HA.
  - intros id [Ha Hb]%elem_of_intersection. split; by eapply signers_signed.
Qed.

(** [checkBlock] does not ask for distinct signers: one sealer's signature,
    repeated [minValidNodes] times, is a sufficient signature list. *)
Theorem repeated_signature_accepted `{Crypto} {Tx Rcpt Ctx : Type} (conv : Z -> Z)
    (s : PBFTEngine Tx Rcpt Ctx) (b : Block Tx Rcpt) i sg :
  eng_sealerList s = m_sealerList (b_header b) ->
  getSealerByIndex (conv (m_sealer (b_header b))) s <> h512_0 ->
  sig_ok (eng_sealerList s) (headerHash b) (i, sg) -> 0 <= minValidNodes s ->
  lenZ (b_transactions b) <= m_maxBlockTransactions s ->
  checkBlock conv (setSigList (replicate (Z.to_nat (minValidNodes s)) (i, sg)) b) s = true.
Proof.
  intros Es Hs Hi Hm Ht. unfold checkBlock. cbn [b_header setSigList b_sigList b_transactions].
  case_step; [done |]. rewrite bool_decide_true by done. cbn [negb].
  rewrite bool_decide_false by done. unfold lenZ at 1. rewrite length_replicate, Z2Nat.id by done.
  rewrite Z.ltb_irrefl.
  assert (checkSigs (replicate (Z.to_nat (minValidNodes s)) (i, sg)) (eng_sealerList s)
    (headerHash b) = true) as Hc.
  { apply checkSigs_iff. by apply Forall_replicate. }
  unfold headerHash in *. cbn [b_header setSigList]. rewrite Hc. cbn [negb].
  destruct (Z.ltb_spec (m_maxBlockTransactions s) (lenZ (b_transactions b))); [lia | done].
Qed.

(** ** Recovery of the lock *)
Section Recovery.
Context `{Crypto} `{MapOrder} {Tx Rcpt Ctx : Type}.
Implicit Types s : PBFTEngine Tx Rcpt Ctx.

Abbreviation keeps_db := (frame_of (m_backupDB (Tx := Tx) (Rcpt := Rcpt) (Ctx := Ctx))).

Lemma selectPeers_db ids t key filter : keeps_db (selectPeers ids t key filter).
Proof.
  assert (forall id, keeps_db (broadcastMark id t key)) as Hm.
  { intros id s. cbn. by destruct (keyExists _ _ _ _). }
  induction ids as [|id ids IH]; cbn [selectPeers]; frame_tac.
Qed.

Lemma broadcastCommitReq_db E req : keeps_db (broadcastCommitReq E req).
Proof.
  pose proof selectPeers_db. unfold broadcastCommitReq, broadcastMsg, transDataToMessage. frame_tac.
Qed.

Lemma checkAndSave_db E : keeps_db (checkAndSave E).
Proof. unfold checkAndSave. frame_tac. Qed.

Lemma backupMsg_value E key p s db bs : backupOk E = true ->
  m_backupDB s = Some db -> prepare_encode p = Ok bs ->
  backupMsg E key p s = (set_backupDB (Some (<[key := toHex [] bs]> db)) s, Ok tt).
Proof.
  intros Hok Hdb He. unfold backupMsg, mbind, M_bind, get, lift. rewrite Hdb, He, Hok. reflexivity.
Qed.

(** What is written to disk when a lock is taken. *)
Lemma checkAndCommit_db E s db :
  let prep := m_prepareCache (m_reqCache s) in
  let raw := m_rawPrepareCache (m_reqCache s) in
  getSigCacheSize (block_hash (p_msg prep)) (m_reqCache s) = minValidNodes s ->
  view (p_msg prep) = m_view s -> backupOk E = true -> m_backupDB s = Some db ->
  forall bs, prepare_encode raw = Ok bs ->
  m_backupDB (fst (checkAndCommit E s)) = Some (<[c_backupKeyCommitted := toHex [] bs]> db).
Proof.
  intros prep raw Hq Hv Hok Hdb bs He. unfold checkAndCommit.
  unfold mbind at 1, M_bind at 1, get at 1. cbv beta iota zeta. fold prep. rewrite Hq, Hv, !Z.eqb_refl. cbn [negb].
  set (rest := fun _ : unit => broadcastCommitReq E prep ≫= _).
  assert (forall u, keeps_db (rest u)) as Hrest.
  { intros u. unfold rest. pose proof (broadcastCommitReq_db E prep). pose proof (checkAndSave_db E).
    frame_tac. }
  unfold mbind, M_bind, get, emit, modifyCache, modify, updateCommittedPrepare.
  cbn [m_reqCache set_reqCache upd_committed m_committedPrepareCache]. fold raw.
  rewrite (backupMsg_value E _ raw _ db bs) by done. rewrite (Hrest tt). reflexivity.
Qed.

(** What is read back: the lock, and nothing else of the caches. *)
Lemma reload_value s (disk : gmap string chars) bs p :
  m_backupDB s = Some disk -> disk !! c_backupKeyCommitted = Some (toHex [] bs) ->
  bytes_ok bs -> 0 < lenZ bs ->
  prepare_decode (Block := Block Tx Rcpt) (ExecContext := Ctx) bs = Ok p ->
  exists q, reloadMsg c_backupKeyCommitted s = (set_reqCache (upd_committed q (m_reqCache s)) s, Ok tt) /\
    p_msg q = p_msg p /\ PBFTMsg.block q = PBFTMsg.block p.
Proof.
  intros Hdb Hd Hb Hp Hdec. unfold reloadMsg, mbind, M_bind, get. rewrite Hdb, Hd.
  cbn [default from_option id]. rewrite fromHex_toHex by done.
  destruct (Z.eqb_spec (lenZ bs) 0); [lia |]. unfold prepare_decode in Hdec.
  destruct (RLP_ bs VeryStrict) as [r|]; [| done]. cbn [mbind result_bind] in Hdec |- *.
  destruct (index 0 r) as [[e r']|]; [| done]. cbn [mbind result_bind] in Hdec.
  destruct (populate_into_ok (m_committedPrepareCache (m_reqCache s)) e p Hdec) as [r1 ->].
  eexists. split; [reflexivity |]. done.
Qed.

Lemma start_reloads E s s' (disk : gmap string chars) bs p :
  resetConfig E s = (s', Ok tt) -> disk !! c_backupKeyCommitted = Some (toHex [] bs) ->
  bytes_ok bs -> 0 < lenZ bs ->
  prepare_decode (Block := Block Tx Rcpt) (ExecContext := Ctx) bs = Ok p ->
  exists s3 q, start E disk true s = (s3, Ok tt) /\ m_reqCache s3 = upd_committed q (m_reqCache s) /\
    p_msg q = p_msg p /\ PBFTMsg.block q = PBFTMsg.block p /\
    m_view s3 = 0 /\ m_toView s3 = 0 /\ m_consensusBlockNumber s3 = 0 /\ locks s3 = locks s.
Proof.
  intros Hr Hd Hb Hp Hdec. pose proof (resetConfig_kern E s) as Hk. rewrite Hr in Hk. cbn [fst] in Hk.
  injection Hk as _ _ _ Hc Hl _.
  unfold start, initPBFTEnv, initBackupDB, mbind, M_bind, get. rewrite Hr. unfold modify.
  set (s1 := set_backupDB (Some disk) _).
  destruct (reload_value s1 disk bs p eq_refl Hd Hb Hp Hdec) as (q & -> & Hm & Hk).
  eexists _, q. split; [reflexivity |]. unfold modifyTime, modify. unfold locks in *. cbn.
  rewrite Hc. split_and!; done.
Qed.

(** A new engine started on the database of a process that was locked on [q],
    once the height agreed on has reached that of the lock. *)
Lemma restarted_inv s (q : PrepareReq (Block Tx Rcpt) Ctx) :
  m_reqCache s = upd_committed q emptyReqCache -> m_view s = 0 -> m_toView s = 0 -> locks s = [] ->
  0 <= height (p_msg q) <= m_consensusBlockNumber s ->
  inv [(height (p_msg q), block_hash (p_msg q))] s.
Proof.
  intros Hc Hv Ht Hl Hn. split; [| lia]. unfold taken. rewrite Hc, Hl. cbn [app]. split.
  - pose proof (@emptyReqCache_wf Tx Rcpt Ctx) as []. by split.
  - change (lock (upd_committed q emptyReqCache)) with (p_msg q). lia.
  - by left.
  - by left.
  - intros h x [= -> ->]%list_elem_of_singleton. by right.
  - intros h x y [= -> ->]%list_elem_of_singleton [= ->]%list_elem_of_singleton. done.
Qed.

(** The report of the head of the chain to a restarted engine. *)
Lemma report_restarted E b s s' (q : PrepareReq (Block Tx Rcpt) Ctx) :
  m_reqCache s = upd_committed q emptyReqCache -> m_view s = 0 -> m_toView s = 0 ->
  m_consensusBlockNumber s = 0 -> locks s = [] -> 0 <= height (p_msg q) ->
  height (p_msg q) - 1 <= m_number (b_header b) < INT64_MAX -> 0 <= m_number (b_header b) ->
  bc_number (blockChain E) = 0 \/ m_number (m_highestBlock s) < m_number (b_header b) ->
  reportBlock E b s = (s', Ok tt) ->
  m_consensusBlockNumber s' = m_number (b_header b) + 1 /\
  inv [(height (p_msg q), block_hash (p_msg q))] s'.
Proof.
  intros Hc Hv Ht Hn Hl Hq Hb Hb0 Hg. unfold reportBlock, mbind at 1, M_bind at 1, get at 1. cbv beta iota zeta.
  assert ((bc_number (blockChain E) =? 0) || (m_number (m_highestBlock s) <? m_number (b_header b)) = true) as ->.
  { apply orb_true_iff. rewrite Z.eqb_eq, Z.ltb_lt. done. }
  rewrite Hn, (proj2 (Z.leb_le 0 _)) by done. cbn [when].
  unfold mbind, M_bind, modifyCache, modifyTime, modify.
  destruct (when _ _ s) as [s1 [u|e]] eqn:E1; [| done].
  assert (m_reqCache s1 = m_reqCache s /\ locks s1 = locks s) as [Hc1 Hl1].
  { destruct (has_onCommitBlock _); cbn in E1; by injection E1 as <- _. }
  set (s2 := set_reqCache (delInvalidViewChange _ _) _).
  pose proof (resetConfig_kern E s2) as Hk. destruct (resetConfig E s2) as [s3 [v|]]; [| done].
  cbn [fst] in Hk. injection Hk as Kv Kt Kn Kc Kl _. intros [= <-].
  assert (m_consensusBlockNumber s3 = m_number (b_header b) + 1) as En.
  { rewrite Kn. change (m_consensusBlockNumber s2) with (swrap 64 (m_number (b_header b) + 1)).
    apply swrap_small; unfold INT64_MAX in *; cbn; lia. }
  split; [exact En |].
  assert (m_reqCache s2 = upd_committed q emptyReqCache) as Hc2.
  { unfold s2. cbn [m_reqCache set_reqCache set_consensusBlockNumber set_timeManager set_leaderFailed
      set_view set_toView set_highestBlock]. rewrite Hc1, Hc. reflexivity. }
  assert (inv [(height (p_msg q), block_hash (p_msg q))] s3) as Hi.
  { apply restarted_inv; [rewrite Kc; exact Hc2 | by rewrite Kv | by rewrite Kt | | rewrite En; lia].
    rewrite Kl. unfold s2, locks in *. cbn. congruence. }
  destruct Hi as [Hci Hvi]. split; [by apply cinv_delCache | done].
Qed.
End Recovery.

(** C5: a lock survives a crash.  When [checkAndCommit] locks on a prepared block,
    a new process started on the database it leaves has the same lock; and once
    the head of its chain, at the locked height less one or higher, has been
    reported to it, as the start of the sealer does, it accepts in no state it
    reaches a prepare of that height with another announced hash, nor locks on
    one.  The database is there and takes the insertion, the fields of the
    prepare are of their sizes, and its height and view are below [2^32], which
    is what the backup format keeps of them. *)
Theorem lock_survives_restart `{Crypto} `{MapOrder} {Tx Rcpt Ctx : Type} (E : Env Tx Rcpt Ctx)
    (s : PBFTEngine Tx Rcpt Ctx) db :
  let prep := m_prepareCache (m_reqCache s) in
  let raw := m_rawPrepareCache (m_reqCache s) in
  let h := height (p_msg raw) in
  getSigCacheSize (block_hash (p_msg prep)) (m_reqCache s) = minValidNodes s ->
  view (p_msg prep) = m_view s -> backupOk E = true -> m_backupDB s = Some db ->
  msg_wf (p_msg raw) -> bytes_ok (PBFTMsg.block raw) -> lenZ (PBFTMsg.block raw) < 2 ^ 63 ->
  0 <= h < 2 ^ 32 -> 0 <= view (p_msg raw) < 2 ^ 32 ->
  exists disk, m_backupDB (fst (checkAndCommit E s)) = Some disk /\
    forall (E2 : Env Tx Rcpt Ctx) (s2 s2' : PBFTEngine Tx Rcpt Ctx),
    is_new s2 -> resetConfig E2 s2 = (s2', Ok tt) ->
    exists s3, start E2 disk true s2 = (s3, Ok tt) /\
      p_msg (m_committedPrepareCache (m_reqCache s3)) = p_msg raw /\
      PBFTMsg.block (m_committedPrepareCache (m_reqCache s3)) = PBFTMsg.block raw /\
      forall (E3 : Env Tx Rcpt Ctx) b s4,
      h - 1 <= m_number (b_header b) < INT64_MAX -> 0 <= m_number (b_header b) ->
      bc_number (blockChain E3) = 0 \/ m_number (m_highestBlock s3) < m_number (b_header b) ->
      reportBlock E3 b s3 = (s4, Ok tt) ->
      m_consensusBlockNumber s4 = m_number (b_header b) + 1 /\
      forall s5, reach s4 s5 ->
        (forall E5 req t, isValidPrepare E5 req s5 = (t, Ok VALID) ->
           height (p_msg req) = h -> block_hash (p_msg req) = block_hash (p_msg raw)) /\
        (forall x, (h, x) ∈ locks s5 -> x = block_hash (p_msg raw)).
Proof.
  intros prep raw h Hq Hv Hok Hdb Hm Hb Hl Hh Hw.
  destruct (prepare_codec raw Hm Hb Hl) as (bs & He & Hbs & Hpos & Hdec).
  assert (trunc32 (p_msg raw) = p_msg raw) as Et.
  { unfold trunc32. rewrite !wrap_small by done. by destruct (p_msg raw). }
  rewrite Et in Hdec. exists (<[c_backupKeyCommitted := toHex [] bs]> db). split; [by apply checkAndCommit_db |].
  intros E2 s2 s2' (Nc & Nv & Nt & Nn & Ntr) Hr.
  destruct (start_reloads E2 s2 s2' (<[c_backupKeyCommitted := toHex [] bs]> db) bs _ Hr
    (lookup_insert_eq db _ _) Hbs Hpos Hdec) as (s3 & q & Hs & Hc & Hmsg & Hblk & V3 & T3 & N3 & L3).
  cbn [p_msg PBFTMsg.block] in Hmsg, Hblk.
  exists s3. rewrite Hc. split_and!; [done | done | done |]. intros E3 b s4 Hn Hn0 Hg Hrep.
  rewrite Nc in Hc. assert (locks s3 = []) as L0 by (rewrite L3; unfold locks; by rewrite Ntr).
  destruct (report_restarted E3 b s3 s4 q Hc V3 T3 N3 L0) as [En Hi]; try done; [rewrite Hmsg; fold h; lia.. |].
  split; [done |]. intros s5 Hreach. rewrite Hmsg in Hi. fold h in Hi.
  destruct (reach_inv _ s4 s5 Hi Hreach) as [Hci _]. split.
  - intros E5 req t Hval Heq.
    destruct (isValidPrepare_valid E5 req s5 t VALID Hval eq_refl) as (_ & Hrh & _ & _ & Hlock & _).
    destruct (ci_locks _ _ _ Hci h (block_hash (p_msg raw))) as [Hlt|[Hlh ->]].
    + unfold taken. apply elem_of_app. right. by apply list_elem_of_singleton.
    + destruct (ci_cn _ _ _ Hci). lia.
    + apply Hlock. congruence.
  - intros x Hx. apply (ci_once _ _ _ Hci h); unfold taken; apply elem_of_app; [by left |].
    right. by apply list_elem_of_singleton.
Qed.

(** ** Forwarding *)
Section Forwarding.
Context {Tx Rcpt Ctx : Type}.
Implicit Types s : PBFTEngine Tx Rcpt Ctx.

Lemma index_of_elem id l i : 0 <= i -> 0 <= index_of id l i -> id ∈ l.
Proof.
  revert i. induction l as [|x l IH]; cbn [index_of]; intros i Hi Hr; [lia |].
  destruct (bool_decide_reflect (x = id)) as [->|]; [by constructor |].
  constructor. apply (IH (i + 1)); [lia | done].
Qed.

(** A peer a message may go to: a sealer that is not filtered out. *)
Definition send_to (filter : gset h512) s (id : NodeID) : Prop :=
  id ∈ eng_sealerList s /\ id ∉ filter.

Lemma broadcastMark_value id t key s : exists c, broadcastMark id t key s = (set_broadCastCache c s, Ok tt).
Proof.
  unfold broadcastMark, modify. destruct (keyExists _ _ _ _); [| by eexists].
  exists (m_broadCastCache s). by destruct s.
Qed.

Lemma selectPeers_value ids t key filter s :
  exists c l, selectPeers ids t key filter s = (set_broadCastCache c s, Ok l) /\
    forall id, id ∈ l -> id ∈ ids /\ send_to filter s id.
Proof.
  revert s. induction ids as [|x ids IH]; intros s; cbn [selectPeers].
  { exists (m_broadCastCache s), []. split; [by destruct s |]. by intros id Hid%not_elem_of_nil. }
  unfold mbind, M_bind, get. destruct (Z.ltb_spec (getIndexBySealer x s) 0).
  { destruct (IH s) as (c & l & E & Hl). exists c, l. split; [done |]. intros id Hid.
    destruct (Hl id Hid). split; [by constructor | done]. }
  destruct (bool_decide_reflect (x ∈ filter)) as [Hf|Hf].
  { destruct (broadcastMark_value x t key s) as [c1 E1]. rewrite E1.
    destruct (IH (set_broadCastCache c1 s)) as (c & l & E & Hl). exists c, l. split; [exact E |].
    intros id Hid. destruct (Hl id Hid). split; [by constructor | done]. }
  destruct (broadcastFilter _ _ _ _).
  { destruct (IH s) as (c & l & E & Hl). exists c, l. split; [done |]. intros id Hid.
    destruct (Hl id Hid). split; [by constructor | done]. }
  destruct (broadcastMark_value x t key s) as [c1 E1]. rewrite E1.
  destruct (IH (set_broadCastCache c1 s)) as (c & l & E & Hl). exists c, (x :: l).
  split; [by rewrite E |]. intros id [->|Hid]%elem_of_cons.
  - split; [by constructor |]. split; [| done].
    by apply (index_of_elem x (eng_sealerList s) 0).
  - destruct (Hl id Hid). split; [by constructor | done].
Qed.
End Forwarding.

(** An accepted packet that arrived with a time to live [t] other than 1 is
    sent on with [t - 1] (with 255 when [t] is 0), unchanged otherwise, and
    only to connected sealers other than its sender and the node that
    generated the message. *)
Theorem forwarded_packet `{Crypto} `{MapOrder} {Tx Rcpt Ctx : Type} (E : Env Tx Rcpt Ctx)
    (s : PBFTEngine Tx Rcpt Ctx) p m q :
  0 <= packet_id p < 2 ^ 8 -> 0 <= PBFTMsg.ttl p < 2 ^ 8 -> PBFTMsg.ttl p <> 1 ->
  bytes_ok (PBFTMsg.data p) -> lenZ (PBFTMsg.data p) < 2 ^ 63 ->
  0 < lenZ (uniqueKey m) -> m_number (m_highestBlock s) - height m < 10 ->
  exists s' ids bs, forwardMsg E p (true, Some m) s = (s', Ok tt) /\
    m_trace s' = EvMulticast ids bs :: m_trace s /\
    packet_decode q bs = Ok {| node_idx := node_idx q; node_id := node_id q;
      packet_id := packet_id p; PBFTMsg.ttl := if PBFTMsg.ttl p =? 0 then 255 else PBFTMsg.ttl p - 1;
      PBFTMsg.data := PBFTMsg.data p; pk_timestamp := pk_timestamp q; endpoint := endpoint q |} /\
    forall id, id ∈ ids -> id ∈ sessions E /\ id ∈ eng_sealerList s /\ id <> node_id p /\
      (id <> h512_0 -> id <> getSealerByIndex (idx m) s).
Proof.
  intros Hi Ht H1 Hb Hl Hk Hh. unfold forwardMsg.
  destruct (Z.eqb_spec (PBFTMsg.ttl p) 1) as [|_]; [done |].
  unfold mbind at 1, M_bind at 1, get at 1. cbv beta iota zeta.
  rewrite (proj2 (Z.ltb_lt _ _) Hk), (proj2 (Z.ltb_lt _ _) Hh), orb_true_r. cbn [andb].
  set (filter := _ ∪ _). set (t := wrap 32 (PBFTMsg.ttl p - 1)).
  unfold broadcastMsg, mbind, M_bind, modify. set (s1 := set_connectedNode _ s).
  destruct (selectPeers_value (sessions E) (packet_id p) (uniqueKey m) filter s1) as (c & ids & Es & Hids).
  rewrite Es. unfold transDataToMessage, mbind, M_bind, get, lift.
  set (pk := {| node_idx := 0; node_id := h512_0; packet_id := packet_id p; ttl := _; data := _;
                pk_timestamp := _; endpoint := _ |}).
  assert (PBFTMsg.ttl pk = if PBFTMsg.ttl p =? 0 then 255 else PBFTMsg.ttl p - 1) as Ettl.
  { cbn [pk PBFTMsg.ttl]. unfold t. destruct (Z.eqb_spec (PBFTMsg.ttl p) 0) as [->|]; [done |].
    rewrite (wrap_small 32) by lia. destruct (Z.eqb_spec (PBFTMsg.ttl p - 1) 0); [lia |].
    apply wrap_small. lia. }
  destruct (packet_codec pk q) as (bs & Ee & Ed); try done.
  { rewrite Ettl. destruct (Z.eqb_spec (PBFTMsg.ttl p) 0); lia. }
  rewrite Ee. do 3 eexists. split; [reflexivity |]. split; [reflexivity |].
  split; [rewrite Ed, Ettl; reflexivity |].
  intros id Hid. destruct (Hids id Hid) as [Hin [Hseal Hnf]]. unfold filter in Hnf.
  split_and!; [done | done | |].
  - intros ->. apply Hnf. by apply elem_of_union_l, elem_of_singleton.
  - intros Hnz Heq. apply Hnf. rewrite bool_decide_false by congruence.
    by apply elem_of_union_r, elem_of_singleton.
Qed.

(** ** Timeouts *)
Lemma interval_step v c : 0 <= v -> 0 <= c -> v * 3 ^ c / 2 ^ c <= v * 3 ^ (c + 1) / 2 ^ (c + 1).
Proof.
  intros Hv Hc. rewrite !Z.pow_add_r, !Z.pow_1_r by lia.
  pose proof (Z.pow_pos_nonneg 2 c ltac:(lia) Hc). pose proof (Z.pow_pos_nonneg 3 c ltac:(lia) Hc).
  rewrite <- (Z.div_mul_cancel_r (v * 3 ^ c) (2 ^ c) 2) by lia.
  apply Z.div_le_mono; nia.
Qed.

Lemma interval_mono v a b : 0 <= v -> 0 <= a <= b -> v * 3 ^ a / 2 ^ a <= v * 3 ^ b / 2 ^ b.
Proof.
  intros Hv Hab. replace b with (a + Z.of_nat (Z.to_nat (b - a))) by lia.
  induction (Z.to_nat (b - a)) as [|n IH]; [by rewrite Z.add_0_r |].
  etransitivity; [exact IH |]. rewrite Nat2Z.inj_succ. unfold Z.succ. rewrite Z.add_assoc.
  apply interval_step; lia.
Qed.

Lemma changeCycle_iter k t : 0 <= m_changeCycle t <= kMaxChangeCycle ->
  m_changeCycle (Nat.iter k updateChangeCycle t) = Z.min (m_changeCycle t + Z.of_nat k) kMaxChangeCycle /\
  m_viewTimeout (Nat.iter k updateChangeCycle t) = m_viewTimeout t.
Proof.
  intros Hc. induction k as [|k [IH1 IH2]]; [cbn; split; [lia | done] |].
  change (Nat.iter (S k) updateChangeCycle t) with (updateChangeCycle (Nat.iter k updateChangeCycle t)).
  unfold updateChangeCycle at 1 3. cbn [set_changeCycle m_changeCycle m_viewTimeout].
  rewrite IH1, IH2. split; [lia | done].
Qed.

(** Consecutive timeouts back off: the waiting interval never shrinks, is
    [1.5^k] times the view timeout after [k] timeouts, and stops growing at
    the twentieth. *)
Theorem timeout_backoff t j k : 0 <= m_viewTimeout t -> m_changeCycle t = 0 -> (j <= k)%nat ->
  let after n := Nat.iter n updateChangeCycle t in
  interval (after j) <= interval (after k) /\
  interval (after k) <= m_viewTimeout t * 3 ^ 20 / 2 ^ 20 /\
  (Z.of_nat k <= 20 -> interval (after k) = m_viewTimeout t * 3 ^ Z.of_nat k / 2 ^ Z.of_nat k).
Proof.
  intros Hv Hc Hjk after. unfold after, interval.
  destruct (changeCycle_iter j t ltac:(rewrite Hc; done)) as [-> ->].
  destruct (changeCycle_iter k t ltac:(rewrite Hc; done)) as [-> ->]. rewrite Hc. unfold kMaxChangeCycle.
  split_and!; [apply interval_mono; lia | apply interval_mono; lia |].
  intros Hk. rewrite Z.add_0_l, Z.min_l by done. done.
Qed.

(** ** Witnesses *)
Definition sample_id2 : NodeID := replicate 64 2.

(** Chains that list the sealers in a given order. *)
Definition sealers_env (l : list NodeID) : Env unit unit unit :=
  let c := blockChain sample_env in
  {| now := 1000; sessions := [sample_id2];
     blockChain := {| bc_number := 0; bc_numberHash := bc_numberHash c;
       bc_getBlockByHash := bc_getBlockByHash c; bc_getBlockByNumber := bc_getBlockByNumber c;
       bc_commitBlock := bc_commitBlock c; bc_sealerList := l; bc_observerList := [];
       bc_txCountLimit := Ok 1000 |};
     blockSync := blockSync sample_env; txPool := txPool sample_env;
     blockVerifier := blockVerifier sample_env; codec := codec sample_env; backupOk := true |}.

Definition env_ab : Env unit unit unit := sealers_env [sample_id; sample_id2].
Definition env_ba : Env unit unit unit := sealers_env [sample_id2; sample_id].

Definition cfg_of (E : Env unit unit unit) : PBFTEngine unit unit unit := fst (resetConfig E sample_s1).

Lemma cfg_ab_ok : resetConfig env_ab sample_s1 = (cfg_of env_ab, Ok tt).
Proof. vm_compute. reflexivity. Qed.
Lemma cfg_ba_ok : resetConfig env_ba sample_s1 = (cfg_of env_ba, Ok tt).
Proof. vm_compute. reflexivity. Qed.
Lemma leader_ab : getLeader (cfg_of env_ab) = (true, 0).
Proof. vm_compute. reflexivity. Qed.
Lemma leader_ba : getLeader (cfg_of env_ba) = (true, 0).
Proof. vm_compute. reflexivity. Qed.

Lemma nodes_agree_on_leader_witness :
  eng_sealerList (cfg_of env_ab) = eng_sealerList (cfg_of env_ba) /\
  m_f (cfg_of env_ab) = m_f (cfg_of env_ba) /\
  minValidNodes (cfg_of env_ab) = minValidNodes (cfg_of env_ba) /\ 0 = 0.
Proof.
  apply (@nodes_agree_on_leader toy_crypto canonical_order unit unit unit env_ab env_ba
    sample_s1 sample_s1 (cfg_of env_ab) (cfg_of env_ba) 0 0).
  - apply Permutation_swap.
  - apply cfg_ab_ok.
  - apply cfg_ba_ok.
  - vm_compute. reflexivity.
  - vm_compute. reflexivity.
  - apply leader_ab.
  - apply leader_ba.
Defined.

Lemma leader_rotation_witness :
  exists k, 0 <= k < m_nodeNum (cfg_of env_ab) /\
    getLeader (set_view (m_view (cfg_of env_ab) + k) (cfg_of env_ab)) = (true, 1) /\
    forall k', 0 <= k' < m_nodeNum (cfg_of env_ab) ->
      getLeader (set_view (m_view (cfg_of env_ab) + k') (cfg_of env_ab)) = (true, 1) -> k' = k.
Proof.
  apply (leader_rotation (cfg_of env_ab) 0 1).
  - apply leader_ab.
  - vm_compute. split; reflexivity.
  - vm_compute. discriminate.
  - vm_compute. split; [discriminate | reflexivity].
Defined.

(** A block signed by the sealers with the given indices. *)
Definition toy_sign (id : NodeID) (hash : h256) : Signature := take 65 (take 32 id ++ hash ++ zeros 65).

Definition ab_block (number : Z) : Block unit unit :=
  with_header (setSealerList [sample_id; sample_id2] (setSealer 1 (setNumber number emptyHeader))) emptyBlock.

Definition ab_signed (number : Z) : Block unit unit :=
  let h := @headerHash unit unit toy_crypto (ab_block number) in
  setSigList [(0, toy_sign sample_id h); (1, toy_sign sample_id2 h)] (ab_block number).

Lemma checked_blocks_share_signers_witness :
  exists X : gset NodeID, m_f (cfg_of env_ab) < Z.of_nat (size X) /\
    X ⊆ list_to_set (eng_sealerList (cfg_of env_ab)) /\
    forall id, id ∈ X ->
      (exists sg, @verify toy_crypto id sg (@headerHash _ _ toy_crypto (ab_signed 1)) = true) /\
      (exists sg, @verify toy_crypto id sg (@headerHash _ _ toy_crypto (ab_signed 2)) = true).
Proof.
  apply (@checked_blocks_share_signers toy_crypto canonical_order unit unit unit (fun x => x) env_ab sample_s1
    (cfg_of env_ab) (ab_signed 1) (ab_signed 2)).
  - apply cfg_ab_ok.
  - apply (bool_decide_unpack _). vm_compute. exact Logic.I.
  - vm_compute. reflexivity.
  - vm_compute. reflexivity.
  - vm_compute. reflexivity.
  - discriminate.
  - discriminate.
  - split; [apply (bool_decide_unpack _) | repeat constructor]; vm_compute; [exact Logic.I | discriminate..].
  - split; [apply (bool_decide_unpack _) | repeat constructor]; vm_compute; [exact Logic.I | discriminate..].
Defined.

Lemma repeated_signature_accepted_witness :
  let h := @headerHash unit unit toy_crypto (ab_block 1) in
  @checkBlock toy_crypto unit unit unit (fun x => x)
    (setSigList (replicate (Z.to_nat (minValidNodes (cfg_of env_ab))) (0, toy_sign sample_id h)) (ab_block 1))
    (cfg_of env_ab) = true.
Proof.
  intros h. apply (@repeated_signature_accepted toy_crypto unit unit unit (fun x => x) (cfg_of env_ab)
    (ab_block 1) 0 (toy_sign sample_id h)).
  - vm_compute. reflexivity.
  - vm_compute. discriminate.
  - split; vm_compute; reflexivity.
  - vm_compute. discriminate.
  - vm_compute. discriminate.
Defined.

(** A single sealer about to lock on block 1. *)
Definition lock_msg : PBFTMsg :=
  {| height := 1; view := 0; idx := 0; timestamp := 1000; block_hash := replicate 32 9;
     sig := replicate 65 1; sig2 := replicate 65 2 |}.
Definition lock_prepare : PrepareReq (Block unit unit) unit :=
  {| p_msg := lock_msg; PBFTMsg.block := [1; 2; 3]; pBlock := Some (sample_block 1 [tt]);
     p_execContext := None |}.
Definition lock_state : PBFTEngine unit unit unit :=
  set_reqCache (addSignReq lock_msg (addPrepareReq lock_prepare (addRawPrepare lock_prepare emptyReqCache)))
    sample_s1.

Lemma lock_survives_restart_witness :
  exists disk, m_backupDB (fst (@checkAndCommit toy_crypto canonical_order _ _ _ sample_env lock_state)) =
      Some disk /\
    forall (E2 : Env unit unit unit) (s2 s2' : PBFTEngine unit unit unit),
    is_new s2 -> resetConfig E2 s2 = (s2', Ok tt) ->
    exists s3, start E2 disk true s2 = (s3, Ok tt) /\
      p_msg (m_committedPrepareCache (m_reqCache s3)) = lock_msg /\
      PBFTMsg.block (m_committedPrepareCache (m_reqCache s3)) = [1; 2; 3] /\
      forall (E3 : Env unit unit unit) b s4,
      1 - 1 <= m_number (b_header b) < INT64_MAX -> 0 <= m_number (b_header b) ->
      bc_number (blockChain E3) = 0 \/ m_number (m_highestBlock s3) < m_number (b_header b) ->
      @reportBlock toy_crypto _ _ _ E3 b s3 = (s4, Ok tt) ->
      m_consensusBlockNumber s4 = m_number (b_header b) + 1 /\
      forall s5, @reach toy_crypto canonical_order _ _ _ s4 s5 ->
        (forall E5 req t, @isValidPrepare toy_crypto _ _ _ E5 req s5 = (t, Ok VALID) ->
           height (p_msg req) = 1 -> block_hash (p_msg req) = block_hash lock_msg) /\
        (forall x, (1, x) ∈ locks s5 -> x = block_hash lock_msg).
Proof.
  apply (@lock_survives_restart toy_crypto canonical_order unit unit unit sample_env lock_state ∅).
  - vm_compute. reflexivity.
  - vm_compute. reflexivity.
  - reflexivity.
  - vm_compute. reflexivity.
  - vm_compute. intuition (try congruence). all: repeat constructor; intros; discriminate.
  - vm_compute. repeat constructor; intros; discriminate.
  - vm_compute. reflexivity.
  - vm_compute. intuition congruence.
  - vm_compute. intuition congruence.
Defined.

(** The new process of the witness: after the start and the report of the head it
    agrees on the locked height. *)
Definition lock_disk : gmap string chars :=
  default ∅ (m_backupDB (fst (@checkAndCommit toy_crypto canonical_order _ _ _ sample_env lock_state))).
Definition restarted : PBFTEngine unit unit unit := fst (start sample_env lock_disk true new_engine).

Example restarted_at_lock :
  is_new new_engine /\
  snd (start sample_env lock_disk true new_engine) = Ok tt /\
  snd (@reportBlock toy_crypto _ _ _ sample_env (sample_block 0 []) restarted) = Ok tt /\
  m_consensusBlockNumber (fst (@reportBlock toy_crypto _ _ _ sample_env (sample_block 0 []) restarted)) = height lock_msg.
Proof. split; [by split_and! |]. vm_compute. done. Qed.

Definition ttl_packet (t : Z) : PBFTMsgPacket :=
  {| node_idx := 1; node_id := sample_id; packet_id := SignReqPacket; PBFTMsg.ttl := t;
     PBFTMsg.data := [7]; pk_timestamp := 5; endpoint := [] |}.

Lemma forwarded_packet_witness :
  exists s' ids bs, forwardMsg env_ab (ttl_packet 0) (true, Some lock_msg) (cfg_of env_ab) = (s', Ok tt) /\
    m_trace s' = EvMulticast ids bs :: m_trace (cfg_of env_ab) /\
    packet_decode (newPacket 9) bs = Ok {| node_idx := 0; node_id := h512_0;
      packet_id := SignReqPacket; PBFTMsg.ttl := 255; PBFTMsg.data := [7]; pk_timestamp := 9;
      endpoint := [] |} /\
    forall id, id ∈ ids -> id ∈ sessions env_ab /\ id ∈ eng_sealerList (cfg_of env_ab) /\ id <> sample_id /\
      (id <> h512_0 -> id <> getSealerByIndex (idx lock_msg) (cfg_of env_ab)).
Proof.
  apply (@forwarded_packet toy_crypto canonical_order unit unit unit env_ab (cfg_of env_ab) (ttl_packet 0)
    lock_msg (newPacket 9)).
  - split; [discriminate | reflexivity].
  - split; [discriminate | reflexivity].
  - discriminate.
  - repeat constructor; discriminate.
  - reflexivity.
  - vm_compute. reflexivity.
  - vm_compute. reflexivity.
Defined.

Lemma timeout_backoff_witness :
  let t := mkTime 3000 0 0 0 1000 500 0 in
  let after n := Nat.iter n updateChangeCycle t in
  interval (after 1%nat) <= interval (after 12%nat) /\
  interval (after 12%nat) <= m_viewTimeout t * 3 ^ 20 / 2 ^ 20 /\
  (Z.of_nat 12 <= 20 -> interval (after 12%nat) = m_viewTimeout t * 3 ^ Z.of_nat 12 / 2 ^ Z.of_nat 12).
Proof.
  intros t. apply (timeout_backoff t 1 12); [discriminate | reflexivity |]. repeat constructor.
Defined.
