(* ===== verification/DAG.v ===== *)
(** * The transaction DAG and its workers

    [libblockverifier/DAG.h] and [DAG.cpp]: vertices with atomic in-degrees, the
    queue of vertices that are ready, and the concurrent consumers of
    [TxDAG::executeUnit].  A worker is a small state machine whose steps are the
    atomic operations of the code (a pop, an execution, one [fetch_sub] of
    [consume]); a run is any interleaving of the steps of any number of
    workers.  Vertices are numbered by naturals; [INVALID_ID] is [None]. *)

From S2P Require Import Prelude.

Abbreviation ID := nat (only parsing).

(** ** The graph *)
Record Vertex := mkVertex { inDegree : Z; outEdge : list ID }.

Record DAG := mkDAG {
  m_vtxs : list Vertex;
  m_topLevel : list ID;
  m_totalVtxs : Z;
  m_totalConsume : Z
}.

Definition emptyDAG : DAG := mkDAG [] [] 0 0.

Definition set_vtxs (l : list Vertex) (d : DAG) : DAG :=
  mkDAG l (m_topLevel d) (m_totalVtxs d) (m_totalConsume d).
Definition set_topLevel (q : list ID) (d : DAG) : DAG :=
  mkDAG (m_vtxs d) q (m_totalVtxs d) (m_totalConsume d).

(** [init]: [clear] empties the vertices and leaves the queue as it is. *)
Definition dag_init (maxSize : nat) (d : DAG) : DAG :=
  mkDAG (replicate maxSize (mkVertex 0 [])) (m_topLevel d) (Z.of_nat maxSize) 0.

(** [addEdge]: returns only when both ends are out of range; one end out of
    range is an out-of-bounds access. *)
Definition addEdge (f t : ID) (d : DAG) : result DAG :=
  if (length (m_vtxs d) <=? f)%nat && (length (m_vtxs d) <=? t)%nat then Ok d
  else
    match m_vtxs d !! f with
    | None => Throw UndefinedBehaviour
    | Some vf =>
        let l := <[f := mkVertex (inDegree vf) (outEdge vf ++ [t])]> (m_vtxs d) in
        match l !! t with
        | None => Throw UndefinedBehaviour
        | Some vt => Ok (set_vtxs (<[t := mkVertex (wrap 32 (inDegree vt + 1)) (outEdge vt)]> l) d)
        end
    end.

Definition isTop (d : DAG) (id : ID) : bool :=
  match m_vtxs d !! id with Some v => inDegree v =? 0 | None => false end.

Definition generate (d : DAG) : DAG :=
  set_topLevel (m_topLevel d ++ List.filter (isTop d) (seq 0 (length (m_vtxs d)))) d.

(** [waitPop], when it does not time out: the head of the queue. *)
Definition waitPop (d : DAG) : option ID * DAG :=
  match m_topLevel d with
  | [] => (None, d)
  | id :: q => (Some id, set_topLevel q d)
  end.

(** One round of the loop of [consume]: the first vertex that becomes ready is
    kept in [nextId], the others are queued. *)
Definition consume_edge (nextId : option ID) (id : ID) (d : DAG) : option (option ID * DAG) :=
  vtx ← m_vtxs d !! id;
  let lastDegree := inDegree vtx in
  let d' := set_vtxs (<[id := mkVertex (wrap 32 (lastDegree - 1)) (outEdge vtx)]> (m_vtxs d)) d in
  Some (if lastDegree =? 1 then
          match nextId with
          | None => (Some id, d')
          | Some _ => (nextId, set_topLevel (m_topLevel d' ++ [id]) d')
          end
        else (nextId, d')).

Definition consume_end (d : DAG) : DAG :=
  mkDAG (m_vtxs d) (m_topLevel d) (m_totalVtxs d) (wrap 32 (m_totalConsume d + 1)).

Fixpoint consume_loop (ids : list ID) (nextId : option ID) (d : DAG) : option (option ID * DAG) :=
  match ids with
  | [] => Some (nextId, consume_end d)
  | id :: ids' => '(nextId', d') ← consume_edge nextId id d; consume_loop ids' nextId' d'
  end.

(** [consume]; [None] is an out-of-bounds access. *)
Definition consume (id : ID) (d : DAG) : option (option ID * DAG) :=
  vtx ← m_vtxs d !! id; consume_loop (outEdge vtx) None d.

(** ** Workers *)
Inductive event : Type := Start (id : ID) | End (id : ID).

#[export] Instance event_eq_dec : EqDecision event.
Proof. solve_decision. Defined.

Inductive worker : Type :=
  | Idle
  | Executing (id : ID)
  | Consuming (id : ID) (rest : list ID) (nextId : option ID).

(** The shared DAG, the count of executions begun, the workers, the executions
    so far (latest first) and, for the proofs, the vertices consumed. *)
Record state := mkState {
  st_dag : DAG;
  m_exeCnt : Z;
  st_workers : list worker;
  st_trace : list event;
  st_done : list ID
}.

(** [executeUnit] takes a vertex: from the queue or from [consume]. *)
Definition begin_exec (w : nat) (id : ID) (st : state) : state :=
  mkState (st_dag st) (wrap 32 (m_exeCnt st + 1)) (<[w := Executing id]> (st_workers st))
    (Start id :: st_trace st) (st_done st).

Definition with_dag (d : DAG) (st : state) : state :=
  mkState d (m_exeCnt st) (st_workers st) (st_trace st) (st_done st).
Definition with_worker (w : nat) (x : worker) (st : state) : state :=
  mkState (st_dag st) (m_exeCnt st) (<[w := x]> (st_workers st)) (st_trace st) (st_done st).

(** One atomic step of worker [w]; [None] when it has nothing to do. *)
Definition step (w : nat) (st : state) : option state :=
  match st_workers st !! w with
  | None => None
  | Some Idle =>
      match waitPop (st_dag st) with
      | (None, _) => None
      | (Some id, d) => Some (begin_exec w id (with_dag d st))
      end
  | Some (Executing id) =>
      vtx ← m_vtxs (st_dag st) !! id;
      Some (mkState (st_dag st) (m_exeCnt st) (<[w := Consuming id (outEdge vtx) None]> (st_workers st))
              (End id :: st_trace st) (st_done st))
  | Some (Consuming id (e :: rest) nextId) =>
      '(nextId', d) ← consume_edge nextId e (st_dag st);
      Some (with_worker w (Consuming id rest nextId') (with_dag d st))
  | Some (Consuming id [] nextId) =>
      let st1 := mkState (consume_end (st_dag st)) (m_exeCnt st) (st_workers st) (st_trace st)
                   (id :: st_done st) in
      Some (match nextId with
            | Some next => begin_exec w next st1
            | None => with_worker w Idle st1
            end)
  end.

(** A schedule names the worker that moves next; a worker with nothing to do
    leaves the state as it is. *)
Definition run_schedule (sched : list nat) (st : state) : state :=
  foldl (fun st w => default st (step w st)) st sched.

Definition start_workers (n : nat) (d : DAG) : state := mkState d 0 (replicate n Idle) [] [].

(** [hasFinished]. *)
Definition hasFinished (total : Z) (st : state) : bool := total <=? m_exeCnt st.

(** What was executed, in the order the executions ended. *)
Definition end_of (e : event) : option ID := match e with End id => Some id | _ => None end.
Definition start_of (e : event) : option ID := match e with Start id => Some id | _ => None end.
Definition executed (st : state) : list ID := reverse (omap end_of (st_trace st)).

(** A worker left alone does what [consume] does, in as many steps as there are
    edges and one more. *)
Lemma consume_steps w id edges : forall next st next' d',
  st_workers st !! w = Some (Consuming id edges next) ->
  consume_loop edges next (st_dag st) = Some (next', d') ->
  let st' := run_schedule (replicate (S (length edges)) w) st in
  st_dag st' = d' /\
  st_workers st' !! w = Some (match next' with Some v => Executing v | None => Idle end).
Proof.
  induction edges as [|e edges IH]; intros next st next' d' Hw Hc.
  - cbn in Hc. injection Hc as <- <-. unfold run_schedule, step. cbn. rewrite Hw. cbn.
    assert (w < length (st_workers st))%nat by (by eapply lookup_lt_Some).
    destruct next; cbn; rewrite list_lookup_insert_eq by done; done.
  - cbn in Hc. destruct (consume_edge next e (st_dag st)) as [[n1 d1]|] eqn:E; [| done].
    assert (step w st = Some (with_worker w (Consuming id edges n1) (with_dag d1 st))) as Es.
    { unfold step. rewrite Hw. cbn [mbind option_bind]. by rewrite E. }
    change (run_schedule (replicate (S (length (e :: edges))) w) st)
      with (run_schedule (replicate (S (length edges)) w) (default st (step w st))).
    rewrite Es. apply (IH n1 _ next' d'); [| exact Hc].
    apply list_lookup_insert_eq. by eapply lookup_lt_Some.
Qed.

(** ** In-degrees as sums over the remaining edges *)
Definition indeg (n : nat) (rem : ID -> list ID) (v : ID) : nat :=
  sum_list_with (fun u => count_occ Nat.eq_dec (rem u) v) (seq 0 n).

Lemma sum_list_with_ext {A} (f g : A -> nat) l :
  (forall x, x ∈ l -> f x = g x) -> sum_list_with f l = sum_list_with g l.
Proof.
  induction l as [|x l IH]; cbn; intros Hfg; [done |].
  rewrite (Hfg x) by (by constructor). f_equal. apply IH. intros y Hy. apply Hfg. by constructor.
Qed.

Lemma sum_list_with_change (f g : nat -> nat) l u k :
  NoDup l -> u ∈ l -> f u = (k + g u)%nat -> (forall x, x <> u -> f x = g x) ->
  sum_list_with f l = (k + sum_list_with g l)%nat.
Proof.
  intros Hnd Hu Hk Hne. induction Hnd as [|x l Hx Hnd IH]; [by apply not_elem_of_nil in Hu |].
  cbn. apply elem_of_cons in Hu as [->|Hu].
  - rewrite Hk, (sum_list_with_ext f g l); [lia |]. intros y Hy. apply Hne. by intros ->.
  - rewrite IH, (Hne x) by (done || by intros ->). lia.
Qed.

Lemma indeg_zero n rem v : indeg n rem v = 0%nat <-> forall u, (u < n)%nat -> v ∉ rem u.
Proof.
  unfold indeg. split.
  - intros Hz u Hu Hin. apply list_elem_of_In, (count_occ_In Nat.eq_dec) in Hin.
    assert (count_occ Nat.eq_dec (rem u) v <= sum_list_with (fun u => count_occ Nat.eq_dec (rem u) v) (seq 0 n))%nat
      as Hle; [| lia].
    assert (u ∈ seq 0 n) as Hs by (apply elem_of_seq; lia). clear -Hs.
    induction (seq 0 n) as [|x l IH]; [by apply not_elem_of_nil in Hs |]. cbn.
    apply elem_of_cons in Hs as [->|Hs]; [lia |]. specialize (IH Hs). lia.
  - intros Hno. rewrite (sum_list_with_ext _ (fun _ => 0%nat)).
    + induction (seq 0 n); cbn; [done | lia].
    + intros u Hu. apply elem_of_seq in Hu. apply count_occ_not_In. rewrite <- list_elem_of_In.
      apply Hno. lia.
Qed.

(** Replacing what remains of [u]. *)
Definition upd (rem : ID -> list ID) (u : ID) (l : list ID) : ID -> list ID :=
  fun x => if decide (x = u) then l else rem x.

Lemma upd_eq rem u l : upd rem u l u = l.
Proof. unfold upd. by rewrite decide_True. Qed.
Lemma upd_ne rem u l x : x <> u -> upd rem u l x = rem x.
Proof. intros Hx. unfold upd. by rewrite decide_False. Qed.

Lemma indeg_upd n rem u l l' v : (u < n)%nat -> rem u = l' ->
  forall k, count_occ Nat.eq_dec l v = (k + count_occ Nat.eq_dec l' v)%nat ->
  indeg n (upd rem u l) v = (k + indeg n rem v)%nat.
Proof.
  intros Hu Hl k Hk. unfold indeg.
  apply (sum_list_with_change _ (fun u => count_occ Nat.eq_dec (rem u) v) (seq 0 n) u k).
  - apply NoDup_seq.
  - apply elem_of_seq. lia.
  - by rewrite upd_eq, Hk, Hl.
  - intros x Hx. by rewrite upd_ne.
Qed.

(** ** Building the graph *)
Section Building.

Definition outs (d : DAG) (u : ID) : list ID := default [] (outEdge <$> m_vtxs d !! u).

Definition total_edges (d : DAG) : nat := sum_list_with (fun v => length (outEdge v)) (m_vtxs d).

(** The in-degrees are those of the edges, which go from smaller to larger
    numbers. *)
Record built (n : nat) (d : DAG) : Prop := {
  bu_len : length (m_vtxs d) = n;
  bu_deg : forall v vtx, m_vtxs d !! v = Some vtx -> inDegree vtx = Z.of_nat (indeg n (outs d) v);
  bu_edge : forall u v, v ∈ outs d u -> (u < v < n)%nat;
  bu_total : Z.of_nat (total_edges d) < 2 ^ 32
}.

Lemma outs_init n d u : outs (dag_init n d) u = [].
Proof.
  unfold outs, dag_init. cbn [m_vtxs]. destruct (replicate n _ !! u) as [v|] eqn:E; [| done].
  apply lookup_replicate in E as [-> _]. done.
Qed.

Lemma dag_init_built n d : built n (dag_init n d).
Proof.
  split.
  - cbn. by rewrite length_replicate.
  - intros v vtx Hv. cbn in Hv. apply lookup_replicate in Hv as [-> _]. cbn.
    assert (indeg n (outs (dag_init n d)) v = 0%nat) as ->; [| done].
    apply indeg_zero. intros u _. rewrite outs_init. apply not_elem_of_nil.
  - intros u v Hin. rewrite outs_init in Hin. by apply not_elem_of_nil in Hin.
  - unfold total_edges. cbn [m_vtxs dag_init].
    assert (sum_list_with (fun v => length (outEdge v)) (replicate n (mkVertex 0 [])) = 0%nat) as ->; [| done].
    induction n; cbn; done.
Qed.

(** The total as a sum over vertex numbers bounds every in-degree. *)
Lemma indeg_le_total n d v : length (m_vtxs d) = n -> (indeg n (outs d) v <= total_edges d)%nat.
Proof.
  intros <-. unfold indeg, total_edges, outs. induction (m_vtxs d) as [|x l IH] using rev_ind; [done |].
  rewrite length_app, seq_app, !sum_list_with_app. cbn.
  rewrite (sum_list_with_ext _ (fun u => count_occ Nat.eq_dec (default [] (outEdge <$> l !! u)) v) (seq 0 (length l))).
  - rewrite lookup_app_r, Nat.sub_diag by lia. cbn.
    pose proof (count_occ_bound Nat.eq_dec v (outEdge x)). lia.
  - intros u Hu. apply elem_of_seq in Hu. rewrite lookup_app_l by lia. done.
Qed.

Lemma addEdge_vtxs f t d vf vt : m_vtxs d !! f = Some vf -> m_vtxs d !! t = Some vt -> f <> t ->
  addEdge f t d = Ok (set_vtxs (<[t := mkVertex (wrap 32 (inDegree vt + 1)) (outEdge vt)]>
    (<[f := mkVertex (inDegree vf) (outEdge vf ++ [t])]> (m_vtxs d))) d).
Proof.
  intros Hf Ht Hne. unfold addEdge. rewrite Hf, list_lookup_insert_ne, Ht by done.
  apply lookup_lt_Some in Hf. rewrite (proj2 (Nat.leb_gt _ _) Hf). done.
Qed.

Lemma total_insert l i v v' : l !! i = Some v ->
  (sum_list_with (fun v => length (outEdge v)) (<[i := v']> l) + length (outEdge v) =
   sum_list_with (fun v => length (outEdge v)) l + length (outEdge v'))%nat.
Proof.
  revert i. induction l as [|x l IH]; intros [|i] Hi; cbn in *; [done.. | |].
  - injection Hi as ->. lia.
  - specialize (IH i Hi). rewrite <- !Nat.add_assoc. f_equal. exact IH.
Qed.

(** [addEdge] on a well-built graph. *)
Lemma addEdge_built n d f t : built n d -> (f < t < n)%nat -> Z.of_nat (total_edges d) + 1 < 2 ^ 32 ->
  exists d', addEdge f t d = Ok d' /\ built n d' /\ m_topLevel d' = m_topLevel d /\
    m_totalVtxs d' = m_totalVtxs d /\ m_totalConsume d' = m_totalConsume d /\
    (forall u, outs d' u = upd (outs d) f (outs d f ++ [t]) u) /\ total_edges d' = S (total_edges d).
Proof.
  intros [Hlen Hdeg Hedge Htot] Hft Hlt.
  destruct (lookup_lt_is_Some_2 (m_vtxs d) f ltac:(lia)) as [vf Hf].
  destruct (lookup_lt_is_Some_2 (m_vtxs d) t ltac:(lia)) as [vt Ht].
  eexists. split; [by apply (addEdge_vtxs f t d vf vt); [done | done | lia] |].
  set (d' := set_vtxs _ d).
  assert (forall u, outs d' u = upd (outs d) f (outs d f ++ [t]) u) as Ho.
  { intros u. unfold outs, upd, d'. cbn [m_vtxs set_vtxs]. destruct (decide (u = f)) as [->|Hu].
    - rewrite list_lookup_insert_ne, list_lookup_insert_eq, Hf by lia. done.
    - destruct (decide (u = t)) as [->|Hu'].
      + rewrite list_lookup_insert_eq, Ht by (rewrite length_insert; lia). done.
      + rewrite !list_lookup_insert_ne by done. done. }
  assert (total_edges d' = S (total_edges d)) as Et.
  { unfold total_edges, d'. cbn [m_vtxs set_vtxs].
    assert ((<[f := mkVertex (inDegree vf) (outEdge vf ++ [t])]> (m_vtxs d)) !! t = Some vt) as Ht'
      by (rewrite list_lookup_insert_ne by lia; done).
    pose proof (total_insert _ _ _ (mkVertex (wrap 32 (inDegree vt + 1)) (outEdge vt)) Ht') as H1.
    pose proof (total_insert _ _ _ (mkVertex (inDegree vf) (outEdge vf ++ [t])) Hf) as H2.
    cbn [outEdge] in *. rewrite length_app in H2. cbn in H2. lia. }
  assert (forall v, indeg n (outs d') v = ((if decide (v = t) then 1 else 0) + indeg n (outs d) v)%nat) as Hin.
  { intros v. unfold indeg at 1. rewrite (sum_list_with_ext _
      (fun u => count_occ Nat.eq_dec (upd (outs d) f (outs d f ++ [t]) u) v)) by (intros; by rewrite Ho).
    apply (indeg_upd n (outs d) f _ (outs d f)); [lia | done |].
    rewrite count_occ_app. cbn. destruct (Nat.eq_dec t v), (decide (v = t)); subst; try done; lia. }
  split; [| done]. split.
  - unfold d'. cbn. by rewrite !length_insert.
  - intros v vtx Hv. rewrite Hin. unfold d' in Hv. cbn [m_vtxs set_vtxs] in Hv.
    pose proof (indeg_le_total n d v Hlen). destruct (decide (v = t)) as [->|Hne].
    + rewrite list_lookup_insert_eq in Hv by (rewrite length_insert; lia). injection Hv as <-.
      cbn [inDegree]. rewrite (Hdeg t vt Ht), wrap_small by lia. lia.
    + rewrite list_lookup_insert_ne in Hv by done. destruct (decide (v = f)) as [->|Hne'].
      * rewrite list_lookup_insert_eq in Hv by lia. injection Hv as <-. by rewrite (Hdeg f vf Hf).
      * rewrite list_lookup_insert_ne in Hv by done. by rewrite (Hdeg v vtx Hv).
  - intros u v Hv. rewrite Ho in Hv. destruct (decide (u = f)) as [->|Hu].
    + rewrite upd_eq in Hv. apply elem_of_app in Hv as [Hv|Hv]; [by apply Hedge |].
      apply list_elem_of_singleton in Hv as ->. lia.
    + rewrite upd_ne in Hv by done. by apply Hedge.
  - rewrite Et. lia.
Qed.
End Building.

(** ** The invariant of a run *)
Definition wtok (w : worker) : list ID :=
  match w with
  | Idle => []
  | Executing v => [v]
  | Consuming u _ next => u :: option_list next
  end.
Definition wstart (w : worker) : list ID :=
  match w with Idle => [] | Executing v => [v] | Consuming u _ _ => [u] end.
Definition wend (w : worker) : list ID :=
  match w with Consuming u _ _ => [u] | _ => [] end.
Definition wheld (w : worker) : list ID :=
  match w with Idle => [] | Executing v => [v] | Consuming _ _ next => option_list next end.
Definition wkept (w : worker) : list ID :=
  match w with Consuming _ _ next => option_list next | _ => [] end.

(** Where the vertices that were made ready are: queued, held by a worker, or
    consumed. *)
Definition tokens (st : state) : list ID :=
  m_topLevel (st_dag st) ++ (st_workers st ≫= wtok) ++ st_done st.
Definition started (st : state) : list ID := (st_workers st ≫= wstart) ++ st_done st.
Definition ended (st : state) : list ID := (st_workers st ≫= wend) ++ st_done st.

Lemma worker_swap (f : worker -> list ID) ws w x : ws !! w = Some x ->
  exists R, ws ≫= f ≡ₚ f x ++ R /\ forall y, <[w := y]> ws ≫= f ≡ₚ f y ++ R.
Proof.
  intros Hw. apply list_elem_of_split_length in Hw as (l1 & l2 & -> & ->).
  exists ((l1 ++ l2) ≫= f). split.
  - rewrite !bind_app, bind_cons. solve_Permutation.
  - intros y. rewrite insert_app_r_alt, Nat.sub_diag by done. cbn [insert list_insert].
    rewrite !bind_app, bind_cons. solve_Permutation.
Qed.

(** An execution starts after the end of the executions it depends on. *)
Inductive ordered (out : ID -> list ID) : list event -> Prop :=
  | ord_nil : ordered out []
  | ord_start v t : ordered out t -> (forall u, v ∈ out u -> End u ∈ t) -> ordered out (Start v :: t)
  | ord_end v t : ordered out t -> Start v ∈ t -> ordered out (End v :: t).

Section Run.
Context (n : nat) (out : ID -> list ID).

(** [rem u]: the edges of [u] not processed yet. *)
Record dinv (rem : ID -> list ID) (st : state) : Prop := {
  di_len : length (m_vtxs (st_dag st)) = n;
  di_out : forall u vtx, m_vtxs (st_dag st) !! u = Some vtx -> outEdge vtx = out u;
  di_deg : forall v vtx, m_vtxs (st_dag st) !! v = Some vtx -> inDegree vtx = Z.of_nat (indeg n rem v);
  di_small : forall v, Z.of_nat (indeg n rem v) < 2 ^ 32;
  di_edge : forall u v, v ∈ out u -> (u < v < n)%nat;
  di_sub : forall u v, v ∈ rem u -> v ∈ out u;
  di_nodup : NoDup (tokens st);
  di_ready : forall v, v ∈ tokens st <-> (v < n)%nat /\ indeg n rem v = 0%nat;
  di_busy : forall w u rest next, st_workers st !! w = Some (Consuming u rest next) -> rem u = rest;
  di_done : forall u, u ∈ st_done st -> rem u = [];
  di_fresh : forall u, u ∉ ended st -> rem u = out u;
  di_starts : omap start_of (st_trace st) ≡ₚ started st;
  di_ends : omap end_of (st_trace st) ≡ₚ ended st;
  di_ordered : ordered out (st_trace st)
}.

Lemma ended_tokens st v : v ∈ ended st -> v ∈ tokens st.
Proof.
  unfold ended, tokens. rewrite !elem_of_app. intros [Hv|Hv]; [| by do 2 right].
  right. left. apply list_elem_of_bind in Hv as (w & Hv & Hw). apply list_elem_of_bind.
  exists w. split; [| done]. destruct w; cbn in *; try by apply not_elem_of_nil in Hv.
  apply list_elem_of_singleton in Hv as ->. by constructor.
Qed.

Lemma end_in_trace rem st u : dinv rem st -> u ∈ ended st -> End u ∈ st_trace st.
Proof.
  intros Hi Hu. rewrite <- (di_ends _ _ Hi) in Hu. apply list_elem_of_omap in Hu as (e & He & Hs).
  destruct e; [done |]. by injection Hs as ->.
Qed.

(** A vertex that was made ready: what it depends on has ended. *)
Lemma ready_deps rem st v u : dinv rem st -> v ∈ tokens st -> v ∈ out u -> End u ∈ st_trace st.
Proof.
  intros Hi Hv Hu. apply (end_in_trace rem st u Hi).
  destruct (decide (u ∈ ended st)) as [|Hne]; [done |]. exfalso.
  apply (di_ready _ _ Hi) in Hv as [_ Hz]. pose proof (di_edge _ _ Hi u v Hu).
  apply (proj1 (indeg_zero n rem v) Hz u); [lia |]. by rewrite (di_fresh _ _ Hi u Hne).
Qed.

(** A worker takes a ready vertex: the tokens are only moved. *)
Lemma pop_inv rem st w id q : dinv rem st -> st_workers st !! w = Some Idle ->
  m_topLevel (st_dag st) = id :: q ->
  dinv rem (begin_exec w id (with_dag (set_topLevel q (st_dag st)) st)).
Proof.
  intros Hi Hw Hq. set (st' := begin_exec _ _ _).
  destruct (worker_swap wtok _ _ _ Hw) as (R & E1 & E2).
  destruct (worker_swap wstart _ _ _ Hw) as (S & S1 & S2).
  destruct (worker_swap wend _ _ _ Hw) as (N & N1 & N2).
  assert (tokens st' ≡ₚ tokens st) as Et.
  { unfold tokens. cbn. rewrite E1, E2, Hq. cbn. solve_Permutation. }
  assert (ended st' ≡ₚ ended st) as En.
  { unfold ended. cbn. rewrite N1, N2. done. }
  assert (id ∈ tokens st) as Hid by (unfold tokens; rewrite Hq; by constructor).
  destruct Hi as [? ? ? ? ? ? Hnd Hr Hb ? Hf Hs He Ho]. split; try done.
  - by rewrite Et.
  - intros v. by rewrite Et.
  - intros w' u rest next Hl. cbn in Hl. destruct (decide (w' = w)) as [->|Hne].
    + rewrite list_lookup_insert_eq in Hl by (by eapply lookup_lt_Some). done.
    + rewrite list_lookup_insert_ne in Hl by done. eauto.
  - intros u. rewrite En. apply Hf.
  - unfold started. cbn. rewrite S2, Hs. unfold started. rewrite S1. done.
  - change (omap end_of (st_trace st')) with (omap end_of (st_trace st)). by rewrite En, He.
  - constructor; [done |]. intros u Hu. eapply (ready_deps rem st id u); [by split | done | done].
Qed.

(** The tokens that are not ended executions. *)
Lemma tokens_split st : tokens st ≡ₚ ended st ++ m_topLevel (st_dag st) ++ (st_workers st ≫= wheld).
Proof.
  unfold tokens, ended.
  assert (st_workers st ≫= wtok ≡ₚ (st_workers st ≫= wend) ++ (st_workers st ≫= wheld)) as ->.
  { induction (st_workers st) as [|x ws IH]; [done |]. rewrite !bind_cons, IH. destruct x; cbn; solve_Permutation. }
  solve_Permutation.
Qed.

Lemma held_not_ended st w x id : NoDup (tokens st) -> st_workers st !! w = Some x -> id ∈ wheld x ->
  id ∉ ended st.
Proof.
  intros Hnd Hw Hid Hin. rewrite tokens_split in Hnd. apply NoDup_app in Hnd as (_ & Hdis & _).
  apply (Hdis id Hin), elem_of_app. right. apply list_elem_of_bind. exists x. split; [done |].
  by eapply list_elem_of_lookup_2.
Qed.

Lemma bind_owner {A} (f : A -> list ID) l i j a b x : NoDup (l ≫= f) ->
  l !! i = Some a -> l !! j = Some b -> x ∈ f a -> x ∈ f b -> i = j.
Proof.
  revert i j. induction l as [|y l IH]; intros [|i] [|j] Hnd Ha Hb Hxa Hxb; cbn in Ha, Hb; try done;
    rewrite bind_cons in Hnd; apply NoDup_app in Hnd as (_ & Hdis & Hnd).
  - injection Ha as ->. destruct (Hdis x Hxa). apply list_elem_of_bind. eauto using list_elem_of_lookup_2.
  - injection Hb as ->. destruct (Hdis x Hxb). apply list_elem_of_bind. eauto using list_elem_of_lookup_2.
  - f_equal. eauto.
Qed.

(** A vertex is consumed by one worker, once. *)
Lemma consuming_unique st w u rest next : NoDup (tokens st) ->
  st_workers st !! w = Some (Consuming u rest next) ->
  (u ∉ st_done st) /\
  forall w' rest' next', st_workers st !! w' = Some (Consuming u rest' next') -> w' = w.
Proof.
  intros Hnd Hw. rewrite tokens_split in Hnd. apply NoDup_app in Hnd as (Hnd & _ & _).
  apply NoDup_app in Hnd as (Hnd & Hdis & _).
  assert (u ∈ (st_workers st ≫= wend)) as Hu.
  { apply list_elem_of_bind. exists (Consuming u rest next).
    split; [by constructor | by eapply list_elem_of_lookup_2]. }
  split; [by apply Hdis |]. intros w' rest' next' Hw'.
  eapply (bind_owner wend); [done | exact Hw' | exact Hw | by constructor..].
Qed.

(** An execution ends: [consume] starts on all its edges. *)
Lemma end_inv rem st w id : dinv rem st -> st_workers st !! w = Some (Executing id) ->
  dinv rem (mkState (st_dag st) (m_exeCnt st) (<[w := Consuming id (out id) None]> (st_workers st))
              (End id :: st_trace st) (st_done st)).
Proof.
  intros Hi Hw. set (st' := mkState _ _ _ _ _).
  destruct (worker_swap wtok _ _ _ Hw) as (R & E1 & E2).
  destruct (worker_swap wstart _ _ _ Hw) as (S & S1 & S2).
  destruct (worker_swap wend _ _ _ Hw) as (N & N1 & N2).
  assert (tokens st' ≡ₚ tokens st) as Et.
  { unfold tokens. cbn. rewrite E1, E2. done. }
  assert (ended st' ≡ₚ id :: ended st) as En.
  { unfold ended. cbn. rewrite N1, N2. done. }
  destruct Hi as [? ? ? ? ? ? Hnd Hr Hb ? Hf Hs He Ho]. split; try done.
  - by rewrite Et.
  - intros v. by rewrite Et.
  - intros w' u rest next Hl. cbn in Hl. destruct (decide (w' = w)) as [->|Hne].
    + rewrite list_lookup_insert_eq in Hl by (by eapply lookup_lt_Some). injection Hl as <- <- <-.
      apply Hf. eapply held_not_ended; [done | exact Hw | by constructor].
    + rewrite list_lookup_insert_ne in Hl by done. eauto.
  - intros u. rewrite En, not_elem_of_cons. intros [_ Hu]. by apply Hf.
  - unfold started. cbn. rewrite S2, Hs. unfold started. rewrite S1. done.
  - change (omap end_of (st_trace st')) with (id :: omap end_of (st_trace st)). by rewrite En, He.
  - constructor; [done |].
    assert (id ∈ omap start_of (st_trace st)) as Hin.
    { rewrite Hs. unfold started. rewrite S1. by constructor. }
    apply list_elem_of_omap in Hin as ([] & Hin & [= ->]). done.
Qed.

Lemma indeg_pop rem id e rest v : (id < n)%nat -> rem id = e :: rest ->
  indeg n rem v = ((if decide (v = e) then 1 else 0) + indeg n (upd rem id rest) v)%nat.
Proof.
  intros Hid Hr. unfold indeg. apply (sum_list_with_change _ _ (seq 0 n) id).
  - apply NoDup_seq.
  - apply elem_of_seq. lia.
  - rewrite upd_eq, Hr. cbn. destruct (Nat.eq_dec e v), (decide (v = e)); congruence || done.
  - intros x Hx. by rewrite upd_ne.
Qed.

(** The value of one round of [consume]. *)
Lemma edge_value rem st e next next' d' : dinv rem st -> (e < n)%nat ->
  consume_edge next e (st_dag st) = Some (next', d') ->
  exists vtx, m_vtxs (st_dag st) !! e = Some vtx /\
  m_vtxs d' = <[e := mkVertex (wrap 32 (inDegree vtx - 1)) (outEdge vtx)]> (m_vtxs (st_dag st)) /\
  m_topLevel d' ++ option_list next' ≡ₚ
    (if decide (indeg n rem e = 1%nat) then [e] else []) ++ m_topLevel (st_dag st) ++ option_list next.
Proof.
  intros Hi He. unfold consume_edge. destruct (m_vtxs (st_dag st) !! e) as [vtx|] eqn:Ev; [| done].
  cbn [mbind option_bind]. intros [= Hr]. exists vtx. split; [done |].
  pose proof (di_deg _ _ Hi e vtx Ev) as Hdeg.
  destruct (Z.eqb_spec (inDegree vtx) 1), (decide (indeg n rem e = 1%nat)); try lia.
  - destruct next as [x|]; injection Hr as <- <-; cbn; split; try done; solve_Permutation.
  - injection Hr as <- <-. done.
Qed.

Lemma edge_inv rem st w id e rest next next' d' : dinv rem st ->
  st_workers st !! w = Some (Consuming id (e :: rest) next) ->
  consume_edge next e (st_dag st) = Some (next', d') ->
  dinv (upd rem id rest) (with_worker w (Consuming id rest next') (with_dag d' st)).
Proof.
  intros Hi Hw Hc. set (st' := with_worker _ _ _).
  pose proof (di_busy _ _ Hi w id _ _ Hw) as Hrem.
  assert (id ∈ ended st) as Hend.
  { apply elem_of_app. left. apply list_elem_of_bind. exists (Consuming id (e :: rest) next).
    split; [by constructor | by eapply list_elem_of_lookup_2]. }
  assert ((id < n)%nat) as Hid by (by apply (di_ready _ _ Hi), ended_tokens).
  assert (e ∈ out id) as Hout by (apply (di_sub _ _ Hi); rewrite Hrem; by constructor).
  destruct (di_edge _ _ Hi id e Hout) as [_ He].
  destruct (edge_value rem st e next next' d' Hi He Hc) as (vtx & Ev & Evs & Etop).
  pose proof (fun v => indeg_pop rem id e rest v Hid Hrem) as Hpop.
  destruct (worker_swap wtok _ _ _ Hw) as (R & E1 & E2).
  destruct (worker_swap wstart _ _ _ Hw) as (S & S1 & S2).
  destruct (worker_swap wend _ _ _ Hw) as (N & N1 & N2).
  assert (tokens st' ≡ₚ (if decide (indeg n rem e = 1%nat) then [e] else []) ++ tokens st) as Et.
  { unfold tokens. cbn [st_workers st_dag st_done st' with_worker with_dag]. rewrite E1, E2. cbn [wtok].
    trans ((m_topLevel d' ++ option_list next') ++ id :: R ++ st_done st); [solve_Permutation |].
    rewrite Etop. solve_Permutation. }
  assert (ended st' ≡ₚ ended st) as En by (unfold ended; cbn; by rewrite N1, N2).
  assert (started st' ≡ₚ started st) as Es by (unfold started; cbn; by rewrite S1, S2).
  assert (e ∉ tokens st) as Hfresh.
  { intros Hin. apply (di_ready _ _ Hi) in Hin as [_ Hz]. rewrite Hpop, decide_True in Hz by done. lia. }
  destruct (consuming_unique st w id _ _ (di_nodup _ _ Hi) Hw) as [Hnd' Huniq].
  destruct Hi as [Hlen Ho Hdeg Hsm Hed Hsub Hnd Hr Hb Hd Hf Hs Hee Hord]. split; try done.
  - cbn [st_dag st' with_worker with_dag]. by rewrite Evs, length_insert.
  - intros u x Hx. cbn [st_dag st' with_worker with_dag] in Hx. rewrite Evs in Hx.
    destruct (decide (u = e)) as [->|Hne].
    + rewrite list_lookup_insert_eq in Hx by lia. injection Hx as <-. exact (Ho e vtx Ev).
    + rewrite list_lookup_insert_ne in Hx by done. by apply Ho.
  - intros v x Hx. cbn [st_dag st' with_worker with_dag] in Hx. rewrite Evs in Hx.
    specialize (Hpop v). destruct (decide (v = e)) as [->|Hne].
    + rewrite list_lookup_insert_eq in Hx by lia. injection Hx as <-. cbn [inDegree].
      rewrite (Hdeg e vtx Ev). specialize (Hsm e). rewrite wrap_small by lia. lia.
    + rewrite list_lookup_insert_ne in Hx by done. rewrite (Hdeg v x Hx). lia.
  - intros v. specialize (Hpop v). specialize (Hsm v). lia.
  - intros u v Hv. destruct (decide (u = id)) as [->|Hne].
    + rewrite upd_eq in Hv. apply Hsub. rewrite Hrem. by constructor.
    + rewrite upd_ne in Hv by done. by apply Hsub.
  - rewrite Et. case_decide; cbn; [by apply NoDup_cons | done].
  - intros v. rewrite Et, elem_of_app, Hr. pose proof (Hpop v) as Hv. pose proof (Hpop e) as Hve.
    rewrite decide_True in Hve by done. destruct (decide (indeg n rem e = 1%nat)) as [Hone|Hone].
    + rewrite list_elem_of_singleton. destruct (decide (v = e)) as [->|Hne]; [lia |].
      split; [intros [|]; [done | lia] | right; lia].
    + rewrite elem_of_nil. destruct (decide (v = e)) as [->|Hne]; lia.
  - intros w' u rst nxt Hl. cbn in Hl. destruct (decide (w' = w)) as [->|Hne].
    + rewrite list_lookup_insert_eq in Hl by (by eapply lookup_lt_Some). injection Hl as <- <- <-.
      apply upd_eq.
    + rewrite list_lookup_insert_ne in Hl by done. rewrite upd_ne; [by apply (Hb w' u rst nxt) |].
      intros ->. apply Hne. by eapply Huniq.
  - intros u Hu. rewrite upd_ne; [by apply Hd | by intros ->].
  - intros u. rewrite En. intros Hu. rewrite upd_ne; [by apply Hf |]. by intros ->.
  - by rewrite Es.
  - by rewrite En.
Qed.

(** [consume] ends: its vertex is done, and the worker goes on with the vertex
    it kept, if any. *)
Lemma done_inv rem st w id next cnt : dinv rem st ->
  st_workers st !! w = Some (Consuming id [] next) ->
  let ws := match next with Some v => Executing v | None => Idle end in
  let tr := match next with Some v => Start v :: st_trace st | None => st_trace st end in
  dinv rem (mkState (consume_end (st_dag st)) cnt (<[w := ws]> (st_workers st)) tr (id :: st_done st)).
Proof.
  intros Hi Hw ws tr. set (st' := mkState _ _ _ _ _).
  destruct (worker_swap wtok _ _ _ Hw) as (R & E1 & E2).
  destruct (worker_swap wstart _ _ _ Hw) as (S & S1 & S2).
  destruct (worker_swap wend _ _ _ Hw) as (N & N1 & N2).
  assert (tokens st' ≡ₚ tokens st) as Et.
  { unfold tokens. cbn. rewrite E1, E2. destruct next; cbn; solve_Permutation. }
  assert (ended st' ≡ₚ ended st) as En.
  { unfold ended. cbn. rewrite N1, N2. destruct next; cbn; solve_Permutation. }
  pose proof (di_busy _ _ Hi w id _ _ Hw) as Hrem.
  assert (forall v, next = Some v -> v ∈ tokens st) as Hnext.
  { intros v ->. unfold tokens. rewrite E1. cbn. set_solver. }
  pose proof (ready_deps rem st) as Hdeps. pose proof Hi as Hi'.
  destruct Hi as [Hlen Ho Hdeg Hsm Hed Hsub Hnd Hr Hb Hd Hf Hs Hee Hord]. split; try done.
  - by rewrite Et.
  - intros v. by rewrite Et.
  - intros w' u rst nxt Hl. cbn in Hl. destruct (decide (w' = w)) as [->|Hne].
    + rewrite list_lookup_insert_eq in Hl by (by eapply lookup_lt_Some). by destruct next.
    + rewrite list_lookup_insert_ne in Hl by done. by apply (Hb w' u rst nxt).
  - intros u. cbn. rewrite elem_of_cons. intros [->|Hu]; [done | by apply Hd].
  - intros u. rewrite En. apply Hf.
  - unfold started. cbn [st_workers st_done st']. rewrite S2. unfold started in Hs. rewrite S1 in Hs.
    cbn [wstart app] in Hs. unfold st', tr, ws. destruct next as [v|].
    + change (v :: omap start_of (st_trace st) ≡ₚ (v :: S) ++ id :: st_done st). rewrite Hs. solve_Permutation.
    + change (omap start_of (st_trace st) ≡ₚ S ++ id :: st_done st). rewrite Hs. solve_Permutation.
  - assert (omap end_of (st_trace st') = omap end_of (st_trace st)) as -> by (cbn; unfold tr; by destruct next).
    by rewrite En.
  - cbn. unfold tr. destruct next as [v|]; [| done]. constructor; [done |].
    intros u Hu. apply (Hdeps v u Hi'); auto.
Qed.

(** What has been done so far, and the edges left. *)
Definition work_done (st : state) : nat :=
  length (omap start_of (st_trace st)) + length (omap end_of (st_trace st)) + length (st_done st).
Definition edges_left (rem : ID -> list ID) : nat := sum_list_with (fun u => length (rem u)) (seq 0 n).

Lemma left_pop rem id e rest : (id < n)%nat -> rem id = e :: rest -> edges_left rem = S (edges_left (upd rem id rest)).
Proof.
  intros Hid Hr. unfold edges_left. change (S ?x) with (1 + x)%nat.
  apply (sum_list_with_change _ _ (seq 0 n) id).
  - apply NoDup_seq.
  - apply elem_of_seq. lia.
  - by rewrite upd_eq, Hr.
  - intros x Hx. by rewrite upd_ne.
Qed.

Lemma step_inv rem st w st' : dinv rem st -> step w st = Some st' ->
  exists rem', dinv rem' st' /\ (S (edges_left rem' + work_done st) <= edges_left rem + work_done st')%nat.
Proof.
  intros Hi. unfold step. destruct (st_workers st !! w) as [[|id|id [|e rest] next]|] eqn:Hw; [..| done].
  - unfold waitPop. destruct (m_topLevel (st_dag st)) as [|id q] eqn:Hq; [done |]. intros [= <-].
    exists rem. split; [by apply pop_inv | unfold work_done; cbn; lia].
  - destruct (m_vtxs (st_dag st) !! id) as [vtx|] eqn:Hv; [| done]. intros [= <-].
    exists rem. rewrite (di_out _ _ Hi id vtx Hv).
    split; [by apply end_inv | unfold work_done; cbn; lia].
  - intros [= <-]. exists rem.
    split; [destruct next as [v|]; by apply (done_inv rem st w id _ _ Hi Hw) |].
    unfold work_done. destruct next; cbn; lia.
  - destruct (consume_edge next e (st_dag st)) as [[next' d']|] eqn:Hc; [| done]. intros [= <-].
    exists (upd rem id rest). split; [by apply (edge_inv rem st w id e rest next next' d') |].
    rewrite (left_pop rem id e rest).
    + unfold work_done. cbn. lia.
    + apply (di_ready _ _ Hi), ended_tokens, elem_of_app. left. apply list_elem_of_bind.
      eexists. split; [| by eapply list_elem_of_lookup_2]. by constructor.
    + by apply (di_busy _ _ Hi w id (e :: rest) next).
Qed.

Lemma run_inv_dag sched rem st : dinv rem st -> exists rem', dinv rem' (run_schedule sched st).
Proof.
  unfold run_schedule. revert rem st. induction sched as [|w sched IH]; cbn; intros rem st Hi; [eauto |].
  destruct (step w st) as [st'|] eqn:Hs; cbn; [| eauto].
  destruct (step_inv rem st w st' Hi Hs) as (rem' & Hi' & _). eauto.
Qed.

Lemma started_tokens st : exists X, tokens st ≡ₚ started st ++ X.
Proof.
  exists (m_topLevel (st_dag st) ++ (st_workers st ≫= wkept)). unfold tokens, started.
  assert (st_workers st ≫= wtok ≡ₚ (st_workers st ≫= wstart) ++ (st_workers st ≫= wkept)) as ->.
  { induction (st_workers st) as [|x ws IH]; [done |]. rewrite !bind_cons, IH.
    destruct x; cbn; solve_Permutation. }
  solve_Permutation.
Qed.

Lemma started_nodup rem st : dinv rem st -> NoDup (started st).
Proof.
  intros Hi. pose proof (di_nodup _ _ Hi) as Hnd. destruct (started_tokens st) as [X EX].
  rewrite EX in Hnd. by apply NoDup_app in Hnd as (? & _ & _).
Qed.

Lemma progress_bound rem st : dinv rem st -> (work_done st <= 3 * n)%nat.
Proof.
  intros Hi. assert (forall l, NoDup l -> (forall v, v ∈ l -> v ∈ tokens st) -> (length l <= n)%nat) as Hb.
  { intros l Hnd Hl. rewrite <- (length_seq n 0). apply submseteq_length, NoDup_submseteq; [done |].
    intros v Hv. apply elem_of_seq. apply Hl, (di_ready _ _ Hi) in Hv as [? _]. lia. }
  pose proof (di_nodup _ _ Hi) as Hnd. rewrite tokens_split in Hnd.
  apply NoDup_app in Hnd as (Hende & _ & _). destruct (started_tokens st) as [X EX].
  assert (forall v, v ∈ started st -> v ∈ tokens st) as Hst'.
  { intros v Hv. rewrite EX. apply elem_of_app. by left. }
  pose proof (started_nodup rem st Hi) as Hst.
  unfold work_done. rewrite (Permutation_length (di_starts _ _ Hi)), (Permutation_length (di_ends _ _ Hi)).
  pose proof (Hb (started st) Hst Hst'). pose proof (Hb (ended st) Hende (ended_tokens st)).
  assert (length (st_done st) <= length (ended st))%nat by (unfold ended; rewrite length_app; lia). lia.
Qed.

(** A schedule in which every scheduled worker moves. *)
Fixpoint effective (sched : list nat) (st : state) : Prop :=
  match sched with
  | [] => True
  | w :: sched' => exists st', step w st = Some st' /\ effective sched' st'
  end.

Lemma effective_bound sched rem st : dinv rem st -> effective sched st ->
  (length sched + work_done st <= edges_left rem + 3 * n)%nat.
Proof.
  revert rem st. induction sched as [|w sched IH]; cbn [effective length]; intros rem st Hi.
  { intros _. pose proof (progress_bound rem st Hi). lia. }
  intros (st' & Hs & He). destruct (step_inv rem st w st' Hi Hs) as (rem' & Hi' & Hp).
  specialize (IH rem' st' Hi' He). lia.
Qed.

(** When no worker can move, everything was executed. *)
Lemma stuck_idle rem st : dinv rem st -> (forall w, step w st = None) ->
  forall w x, st_workers st !! w = Some x -> x = Idle.
Proof.
  intros Hi Hst w x Hw. specialize (Hst w). unfold step in Hst. rewrite Hw in Hst.
  assert (forall v, v ∈ tokens st -> is_Some (m_vtxs (st_dag st) !! v)) as Hin.
  { intros v Hv. apply lookup_lt_is_Some_2. apply (di_ready _ _ Hi) in Hv as [? _].
    by rewrite (di_len _ _ Hi). }
  assert (forall v, v ∈ wtok x -> v ∈ tokens st) as Htok.
  { intros v Hv. apply elem_of_app. right. apply elem_of_app. left. apply list_elem_of_bind.
    eauto using list_elem_of_lookup_2. }
  destruct x as [|id|id [|e rest] next]; [done | | by destruct next |].
  - destruct (Hin id) as [vtx Hv]; [apply Htok; by constructor |]. by rewrite Hv in Hst.
  - assert (e ∈ out id) as He.
    { apply (di_sub _ _ Hi). rewrite (di_busy _ _ Hi _ _ _ _ Hw). by constructor. }
    apply (di_edge _ _ Hi) in He as [_ He].
    destruct (lookup_lt_is_Some_2 (m_vtxs (st_dag st)) e) as [vtx Hv]; [by rewrite (di_len _ _ Hi) |].
    unfold consume_edge in Hst. rewrite Hv in Hst. cbn [mbind option_bind] in Hst.
    destruct (_ =? _) in Hst; [destruct next |]; done.
Qed.

Lemma stuck_done rem st : dinv rem st -> st_workers st <> [] -> (forall w, step w st = None) ->
  executed st ≡ₚ seq 0 n.
Proof.
  intros Hi Hne Hst. pose proof (stuck_idle rem st Hi Hst) as Hidle.
  assert (m_topLevel (st_dag st) = []) as Htop.
  { specialize (Hst 0%nat). unfold step in Hst.
    destruct (st_workers st !! 0%nat) as [x|] eqn:Ew; [| by destruct (st_workers st)].
    rewrite (Hidle 0%nat x Ew) in Hst. unfold waitPop in Hst. by destruct (m_topLevel (st_dag st)). }
  assert (forall f : worker -> list ID, f Idle = [] -> st_workers st ≫= f = []) as Hbind.
  { intros f Hf. clear -Hidle Hf. induction (st_workers st) as [|x ws IH]; [done |]. rewrite bind_cons.
    rewrite (Hidle 0%nat x eq_refl), Hf. apply IH. intros w y Hy. apply (Hidle (S w) y Hy). }
  assert (tokens st = st_done st) as Htok by (unfold tokens; rewrite Htop, Hbind; done).
  assert (forall v, (v < n)%nat -> v ∈ st_done st) as Hall.
  { intros v. induction (lt_wf v) as [v _ IH]. intros Hv. rewrite <- Htok. apply (di_ready _ _ Hi).
    split; [done |]. apply indeg_zero. intros u Hu Hin.
    pose proof (di_edge _ _ Hi u v (di_sub _ _ Hi u v Hin)).
    rewrite (di_done _ _ Hi u) in Hin by (apply IH; lia). by apply not_elem_of_nil in Hin. }
  unfold executed. rewrite reverse_Permutation, (di_ends _ _ Hi). unfold ended. rewrite Hbind by done.
  cbn [app]. apply NoDup_Permutation.
  - rewrite <- Htok. apply (di_nodup _ _ Hi).
  - apply NoDup_seq.
  - intros v. rewrite elem_of_seq. split; [| intros; apply Hall; lia].
    intros Hv. rewrite <- Htok in Hv. apply (di_ready _ _ Hi) in Hv. lia.
Qed.
End Run.

Lemma idle_bind (f : worker -> list ID) k : f Idle = [] -> replicate k Idle ≫= f = [].
Proof. intros Hf. induction k as [|k IH]; [done |]. cbn. rewrite Hf. exact IH. Qed.

Lemma generate_top d v : v ∈ List.filter (isTop d) (seq 0 (length (m_vtxs d))) <->
  exists vtx, m_vtxs d !! v = Some vtx /\ inDegree vtx = 0.
Proof.
  rewrite list_elem_of_In, filter_In, <- list_elem_of_In, elem_of_seq. unfold isTop. split.
  - intros [_ Ht]. destruct (m_vtxs d !! v) as [vtx|]; [| done]. exists vtx. split; [done | lia].
  - intros (vtx & Hv & Hz). split; [apply lookup_lt_Some in Hv; lia |]. rewrite Hv, Hz. done.
Qed.

(** The workers start on a generated graph. *)
Lemma start_inv n d k : built n d -> m_topLevel d = [] ->
  dinv n (outs d) (outs d) (start_workers k (generate d)).
Proof.
  intros [Hlen Hdeg Hedge Htot] Hq. set (st := start_workers _ _).
  assert (tokens st = List.filter (isTop d) (seq 0 (length (m_vtxs d)))) as Et.
  { unfold tokens. cbn. rewrite Hq, idle_bind by done. by rewrite app_nil_r. }
  split.
  - done.
  - intros u vtx Hu. cbn in Hu. unfold outs. by rewrite Hu.
  - intros v vtx Hv. by apply Hdeg.
  - intros v. pose proof (indeg_le_total n d v Hlen). lia.
  - done.
  - done.
  - rewrite Et. apply NoDup_ListNoDup, List.NoDup_filter, NoDup_ListNoDup, NoDup_seq.
  - intros v. rewrite Et, generate_top. split.
    + intros (vtx & Hv & Hz). split; [apply lookup_lt_Some in Hv; lia |].
      rewrite (Hdeg v vtx Hv) in Hz. lia.
    + intros [Hv Hz]. destruct (lookup_lt_is_Some_2 (m_vtxs d) v ltac:(lia)) as [vtx Hl].
      exists vtx. split; [done |]. rewrite (Hdeg v vtx Hl), Hz. done.
  - intros w u rest next Hw. cbn in Hw. by apply lookup_replicate in Hw as [? _].
  - intros u Hu. by apply not_elem_of_nil in Hu.
  - done.
  - unfold started. cbn. by rewrite idle_bind.
  - unfold ended. cbn. by rewrite idle_bind.
  - constructor.
Qed.

Lemma left_total n d : length (m_vtxs d) = n -> edges_left n (outs d) = total_edges d.
Proof.
  intros <-. unfold edges_left, total_edges, outs. induction (m_vtxs d) as [|x l IH] using rev_ind; [done |].
  rewrite length_app, seq_app, !sum_list_with_app. cbn.
  rewrite (sum_list_with_ext _ (fun u => length (default [] (outEdge <$> l !! u))) (seq 0 (length l))).
  - rewrite IH, lookup_app_r, Nat.sub_diag by lia. done.
  - intros u Hu. apply elem_of_seq in Hu. by rewrite lookup_app_l by lia.
Qed.

(** ** Order of executions *)
Section Order.
Context (out : ID -> list ID).

Definition depends (i j : ID) : Prop := tc (fun u v => v ∈ out u) i j.

Lemma ordered_app t2 t1 : ordered out (t2 ++ t1) -> ordered out t1.
Proof. induction t2 as [|e t2 IH]; cbn; [done |]. intros Ho. apply IH. by inversion Ho. Qed.

Lemma ordered_started t v : ordered out t -> End v ∈ t -> Start v ∈ t.
Proof.
  induction 1 as [|u t Ho IH Hd|u t Ho IH Hs]; intros Hin; [by apply not_elem_of_nil in Hin | |].
  - apply elem_of_cons in Hin as [|]; [done |]. constructor. auto.
  - constructor. apply elem_of_cons in Hin as [[= ->]|]; auto.
Qed.

Lemma ordered_edge t u v : ordered out t -> Start v ∈ t -> v ∈ out u -> End u ∈ t.
Proof.
  induction 1 as [|x t Ho IH Hd|x t Ho IH Hs]; intros Hin Hu; [by apply not_elem_of_nil in Hin | |].
  - constructor. apply elem_of_cons in Hin as [[= ->]|]; auto.
  - constructor. apply elem_of_cons in Hin as [|]; [done | auto].
Qed.

Lemma ordered_depends t i j : ordered out t -> depends i j -> Start j ∈ t -> End i ∈ t.
Proof.
  intros Ho Hd. induction Hd as [i j Hij|i k j Hik Hkj IH]; intros Hj; [by apply (ordered_edge t i j) |].
  apply (ordered_edge t i k); [done | | done]. apply ordered_started; auto.
Qed.

(** The same, for an execution about to start. *)
Lemma ordered_before t i j : ordered out t -> (forall u, j ∈ out u -> End u ∈ t) -> depends i j -> End i ∈ t.
Proof.
  intros Ho Hj Hd. induction Hd as [i j Hij|i k j Hik Hkj IH]; [by apply Hj |].
  apply (ordered_edge t i k); [done | | done]. apply ordered_started; auto.
Qed.

Lemma omap_split {A B} (f : A -> option B) l a y b : omap f l = a ++ y :: b ->
  exists l2 x l1, l = l2 ++ x :: l1 /\ f x = Some y /\ omap f l1 = b.
Proof.
  revert a. induction l as [|x l IH]; intros a E; cbn in E; [by destruct a |].
  destruct (f x) as [z|] eqn:Ef.
  - destruct a as [|z' a].
    + injection E as -> E. by exists [], x, l.
    + injection E as _ E. destruct (IH a E) as (l2 & x' & l1 & -> & ? & ?). by exists (x :: l2), x', l1.
  - destruct (IH a E) as (l2 & x' & l1 & -> & ? & ?). by exists (x :: l2), x', l1.
Qed.

(** Dependencies end first. *)
Lemma executed_order st l1 j l2 i : ordered out (st_trace st) -> executed st = l1 ++ j :: l2 ->
  depends i j -> i ∈ l1.
Proof.
  intros Ho He Hd. unfold executed in He. apply (f_equal reverse) in He.
  rewrite reverse_involutive, reverse_app, reverse_cons, <- app_assoc in He.
  apply omap_split in He as (t2 & x & t1 & Et & Hx & Hb). destruct x as [|v]; [done |].
  injection Hx as ->. rewrite Et in Ho. apply ordered_app in Ho. inversion Ho as [| |? ? Ho' Hs]; subst.
  apply elem_of_reverse. rewrite <- Hb. apply list_elem_of_omap. exists (End i).
  split; [| done]. by apply (ordered_depends t1 i j).
Qed.
End Order.
