(* ===== verification/TxDAG.v ===== *)
(** * Parallel execution of the transactions of a block

    [libblockverifier/TxDAG.h] and [TxDAG.cpp]: the dependency graph built from
    the critical fields of the transactions, and its execution by the workers
    of [DAG.v] on behalf of [BlockVerifier::parallelExecuteBlock].  What
    [getTxCriticals] answers for each transaction is an input: [None] for a
    transaction that may not run in parallel, otherwise its fields. *)

From S2P Require Import Prelude DAG.

(** ** [CriticalField<string>] *)
Record CriticalField := mkCritical {
  m_criticals : gmap string ID;
  m_criticalAll : option ID
}.

Definition emptyCritical : CriticalField := mkCritical ∅ None.

Definition critical_get (c : string) (cf : CriticalField) : option ID :=
  match m_criticals cf !! c with Some id => Some id | None => m_criticalAll cf end.

Definition critical_update (id : ID) (cf : CriticalField) (c : string) : CriticalField :=
  mkCritical (<[c := id]> (m_criticals cf)) (m_criticalAll cf).

(** The identifiers [foreachField] visits.  They are all given an edge to the
    same vertex, so the order of the visits does not change the graph. *)
Definition foreachField (cf : CriticalField) : list ID :=
  (map_to_list (m_criticals cf)).*2 ++ option_list (m_criticalAll cf).

Definition setCriticalAll (id : ID) (cf : CriticalField) : CriticalField := mkCritical ∅ (Some id).

(** ** [TxDAG::init] *)
Fixpoint addEdges (ps : list ID) (id : ID) (d : DAG) : result DAG :=
  match ps with
  | [] => Ok d
  | p :: ps' => d' ← addEdge p id d; addEdges ps' id d'
  end.

(** One round of the loop of [init]: transaction [id] with its fields. *)
Definition addTx (id : ID) (criticals : option (list string)) (cf : CriticalField) (d : DAG)
    : result (CriticalField * DAG) :=
  match criticals with
  | Some cs =>
      d' ← addEdges (omap (fun c => critical_get c cf) cs) id d;
      Ok (foldl (critical_update id) cf cs, d')
  | None =>
      d' ← addEdges (foreachField cf) id d;
      Ok (setCriticalAll id cf, d')
  end.

Fixpoint addTxs (id : ID) (txs : list (option (list string))) (cf : CriticalField) (d : DAG)
    : result DAG :=
  match txs with
  | [] => Ok d
  | cs :: txs' => '(cf', d') ← addTx id cs cf d; addTxs (S id) txs' cf' d'
  end.

Definition txdag_init (txs : list (option (list string))) : result DAG :=
  d ← addTxs 0 txs emptyCritical (dag_init (length txs) emptyDAG);
  Ok (generate d).

(** ** Conflicts *)

(** Transaction [i] uses field [c]; one that may not run in parallel uses all. *)
Definition touches (txs : list (option (list string))) (i : ID) (c : string) : Prop :=
  match txs !! i with
  | Some (Some cs) => c ∈ cs
  | Some None => True
  | None => False
  end.

Definition conflict (txs : list (option (list string))) (i j : ID) : Prop :=
  exists c, touches txs i c /\ touches txs j c.

(** The edges [init] may add, at most. *)
Definition weight (cs : option (list string)) : nat :=
  match cs with Some l => 2 * length l | None => 1 end.

(** ** The graph covers the conflicts *)
Definition reaches (d : DAG) (i j : ID) : Prop := i = j \/ depends (outs d) i j.

Lemma depends_mono (o o' : ID -> list ID) i j :
  (forall u v, v ∈ o u -> v ∈ o' u) -> depends o i j -> depends o' i j.
Proof. intros Hm. induction 1; [apply tc_once; auto | eapply tc_l; eauto]. Qed.

Lemma addEdges_built n ps id d : built n d -> (id < n)%nat -> (forall p, p ∈ ps -> (p < id)%nat) ->
  Z.of_nat (total_edges d + length ps) < 2 ^ 32 ->
  exists d', addEdges ps id d = Ok d' /\ built n d' /\ m_topLevel d' = m_topLevel d /\
    total_edges d' = (total_edges d + length ps)%nat /\
    (forall u v, v ∈ outs d u -> v ∈ outs d' u) /\ (forall p, p ∈ ps -> id ∈ outs d' p).
Proof.
  revert d. induction ps as [|p ps IH]; intros d Hb Hid Hps Hl; cbn [addEdges length] in *.
  { exists d. split_and!; try done; try lia; by intros p ?%not_elem_of_nil. }
  assert (p < id)%nat as Hp by (apply Hps; by constructor).
  destruct (addEdge_built n d p id Hb) as (d1 & E1 & Hb1 & Hq1 & _ & _ & Ho1 & Ht1); [lia | lia |].
  rewrite E1. cbn [mbind result_bind].
  destruct (IH d1 Hb1 Hid) as (d2 & E2 & Hb2 & Hq2 & Ht2 & Hm2 & He2).
  { intros q Hq. apply Hps. by constructor. }
  { lia. }
  assert (forall u v, v ∈ outs d u -> v ∈ outs d1 u) as Hm1.
  { intros u v Hv. rewrite Ho1. unfold upd. case_decide; [subst; apply elem_of_app; by left | done]. }
  exists d2. split_and!; [done | done | congruence | lia | eauto |].
  intros q [->|Hq]%elem_of_cons; [| by apply He2].
  apply Hm2. rewrite Ho1, upd_eq. apply elem_of_app. right. by constructor.
Qed.

Lemma omap_length_le {A B} (f : A -> option B) l : (length (omap f l) <= length l)%nat.
Proof. induction l as [|x l IH]; cbn; [lia |]. destruct (f x); cbn; lia. Qed.

Section Conflicts.
Context (txs : list (option (list string))).

(** After the first [k] transactions. *)
Record tinv (k : nat) (cf : CriticalField) (d : DAG) : Prop := {
  ti_built : built (length txs) d;
  ti_top : m_topLevel d = [];
  ti_small : forall p, p ∈ foreachField cf -> (p < k)%nat;
  ti_cover : forall c i, (i < k)%nat -> touches txs i c ->
    exists p, critical_get c cf = Some p /\ reaches d i p;
  ti_conflict : forall i j, (i < j < k)%nat -> conflict txs i j -> depends (outs d) i j;
  ti_total : (total_edges d + size (m_criticals cf) <= sum_list_with weight (take k txs))%nat
}.

Lemma get_foreach c cf p : critical_get c cf = Some p -> p ∈ foreachField cf.
Proof.
  unfold critical_get, foreachField. rewrite elem_of_app. destruct (m_criticals cf !! c) as [q|] eqn:E.
  - intros [= ->]. left. apply list_elem_of_fmap. exists (c, p). split; [done |].
    by apply elem_of_map_to_list.
  - intros ->. right. by constructor.
Qed.

Lemma fold_update id cs cf :
  m_criticalAll (foldl (critical_update id) cf cs) = m_criticalAll cf /\
  forall c, m_criticals (foldl (critical_update id) cf cs) !! c =
    if decide (c ∈ cs) then Some id else m_criticals cf !! c.
Proof.
  revert cf. induction cs as [|x cs IH]; intros cf; cbn [foldl].
  { split; [done |]. intros c. rewrite decide_False; [done | apply not_elem_of_nil]. }
  destruct (IH (critical_update id cf x)) as [Ha Hc]. split; [by rewrite Ha |].
  intros c. rewrite Hc. cbn [m_criticals critical_update]. destruct (decide (c ∈ cs)) as [Hin|Hin].
  - rewrite decide_True; [done | by constructor].
  - destruct (decide (c = x)) as [->|Hne].
    + rewrite lookup_insert_eq, decide_True; [done | by constructor].
    + rewrite lookup_insert_ne by done. rewrite decide_False; [done |]. by intros [?|?]%elem_of_cons.
Qed.

Lemma fold_update_size id cs cf :
  (size (m_criticals (foldl (critical_update id) cf cs)) <= size (m_criticals cf) + length cs)%nat.
Proof.
  revert cf. induction cs as [|x cs IH]; intros cf; cbn [foldl length]; [lia |].
  etransitivity; [apply IH |]. cbn [m_criticals critical_update]. rewrite map_size_insert.
  destruct (m_criticals cf !! x); unfold Datatypes.id; lia.
Qed.

Lemma foreach_length cf : (length (foreachField cf) <= size (m_criticals cf) + 1)%nat.
Proof.
  unfold foreachField. rewrite length_app, length_fmap, length_map_to_list.
  destruct (m_criticalAll cf); cbn; lia.
Qed.

Lemma touches_some k cs c : txs !! k = Some (Some cs) -> touches txs k c <-> c ∈ cs.
Proof. intros Hk. unfold touches. by rewrite Hk. Qed.

Lemma touches_dec k c : touches txs k c \/ ~ touches txs k c.
Proof.
  unfold touches. destruct (txs !! k) as [[l|]|]; [| tauto | tauto].
  destruct (decide (c ∈ l)); [by left | by right].
Qed.

(** The fields after transaction [k]: only [k] is new. *)
Lemma foreach_add k cs cf p :
  p ∈ foreachField (match cs with Some l => foldl (critical_update k) cf l | None => setCriticalAll k cf end) ->
  p <> k -> p ∈ foreachField cf.
Proof.
  intros Hp Hne. unfold foreachField in *. rewrite elem_of_app in *. destruct cs as [l|].
  - destruct (fold_update k l cf) as [Ha Hm]. rewrite Ha in Hp. destruct Hp as [Hp|Hp]; [| by right].
    left. apply list_elem_of_fmap in Hp as ([c q] & -> & Hp). apply elem_of_map_to_list in Hp.
    rewrite Hm in Hp. cbn [snd] in *. destruct (decide (c ∈ l)); [by injection Hp as -> |].
    apply list_elem_of_fmap. exists (c, q). split; [done |]. by apply elem_of_map_to_list.
  - cbn in Hp. rewrite map_to_list_empty in Hp. cbn in Hp.
    destruct Hp as [Hp|Hp]; [by apply not_elem_of_nil in Hp |]. by apply list_elem_of_singleton in Hp.
Qed.

Lemma addTx_inv k cs cf d : tinv k cf d -> txs !! k = Some cs ->
  Z.of_nat (sum_list_with weight (take (S k) txs)) < 2 ^ 32 ->
  exists cf' d', addTx k cs cf d = Ok (cf', d') /\ tinv (S k) cf' d'.
Proof.
  intros [Hb Hq Hs Hc Hx Ht] Hk Hw.
  assert (k < length txs)%nat as Hlt by (by eapply lookup_lt_Some).
  rewrite (take_S_r txs k cs Hk), sum_list_with_app in Hw. cbn in Hw. rewrite Nat.add_0_r in Hw.
  pose proof (foreach_length cf) as Hfl. unfold addTx.
  set (ps := match cs with Some l => omap (fun c => critical_get c cf) l | None => foreachField cf end).
  set (cf' := match cs with Some l => foldl (critical_update k) cf l | None => setCriticalAll k cf end).
  assert (forall p, p ∈ ps -> (p < k)%nat) as Hps.
  { intros p Hp. apply Hs. unfold ps in Hp. destruct cs as [l|]; [| done].
    apply list_elem_of_omap in Hp as (c & _ & Hg). by eapply get_foreach. }
  assert (length ps + size (m_criticals cf') <= weight cs + size (m_criticals cf))%nat as Hlen.
  { unfold ps, cf'. destruct cs as [l|]; cbn [weight].
    - pose proof (fold_update_size k l cf). pose proof (omap_length_le (fun c => critical_get c cf) l). lia.
    - cbn. rewrite map_size_empty. lia. }
  destruct (addEdges_built (length txs) ps k d Hb Hlt Hps) as (d' & E & Hb' & Hq' & Ht' & Hm & He); [lia |].
  exists cf', d'. split.
  { unfold ps, cf' in *. destruct cs as [l|]; by rewrite E. }
  (* every earlier user of a field of [k] is before [k] *)
  assert (forall c i, (i < k)%nat -> touches txs i c -> touches txs k c -> depends (outs d') i k) as Hbefore.
  { intros c i Hi Hti Htk. destruct (Hc c i Hi Hti) as (p & Hg & Hr).
    assert (depends (outs d') p k) as Hpk.
    { apply tc_once, He. unfold ps. unfold touches in Htk. rewrite Hk in Htk. destruct cs as [l|].
      - apply list_elem_of_omap. by exists c.
      - by eapply get_foreach. }
    destruct Hr as [->|Hr]; [done |]. eapply tc_transitive; [| exact Hpk]. by eapply depends_mono. }
  assert (forall c, touches txs k c -> critical_get c cf' = Some k) as Hnew.
  { intros c Htk. unfold touches in Htk. rewrite Hk in Htk. unfold cf', critical_get. destruct cs as [l|].
    - destruct (fold_update k l cf) as [_ ->]. by rewrite decide_True.
    - cbn. by rewrite lookup_empty. }
  assert (forall c, ~ touches txs k c -> critical_get c cf' = critical_get c cf) as Hold.
  { intros c Htk. unfold touches in Htk. rewrite Hk in Htk. unfold cf', critical_get. destruct cs as [l|].
    - destruct (fold_update k l cf) as [-> ->]. by rewrite decide_False.
    - by destruct Htk. }
  split; try done.
  - congruence.
  - intros p Hp. destruct (decide (p = k)) as [->|Hne]; [lia |].
    assert (p ∈ foreachField cf) as Hin; [| specialize (Hs p Hin); lia].
    by apply (foreach_add k cs cf p).
  - intros c i Hi Hti. destruct (decide (i = k)) as [->|Hne].
    + exists k. split; [by apply Hnew | by left].
    + destruct (touches_dec k c) as [Htk|Htk].
      * exists k. split; [by apply Hnew |]. right. apply (Hbefore c); [lia | done | done].
      * destruct (Hc c i ltac:(lia) Hti) as (p & Hg & Hr). exists p. split; [by rewrite Hold |].
        destruct Hr as [->|Hr]; [by left | right; by eapply depends_mono].
  - intros i j Hij (c & Hti & Htj). destruct (decide (j = k)) as [->|Hne].
    + apply (Hbefore c); [lia | done | done].
    + apply (depends_mono (outs d)); [done |]. apply Hx; [lia | by exists c].
  - rewrite (take_S_r txs k cs Hk), sum_list_with_app. cbn. lia.
Qed.

Lemma addTxs_inv rest k cf d : tinv k cf d -> (k <= length txs)%nat -> drop k txs = rest ->
  Z.of_nat (sum_list_with weight txs) < 2 ^ 32 ->
  exists cf' d', addTxs k rest cf d = Ok d' /\ tinv (length txs) cf' d'.
Proof.
  revert k cf d. induction rest as [|cs rest IH]; intros k cf d Hi Hk Hd Hw; cbn [addTxs].
  - assert (k = length txs) as -> by (apply (f_equal length) in Hd; rewrite length_drop in Hd; cbn in Hd; lia).
    by exists cf, d.
  - assert (txs !! k = Some cs) as Hcs by (rewrite <- (Nat.add_0_r k), <- lookup_drop, Hd; done).
    assert (drop (S k) txs = rest) as Hd' by (rewrite (drop_S _ _ _ Hcs) in Hd; by injection Hd).
    destruct (addTx_inv k cs cf d Hi Hcs) as (cf' & d' & E & Hi').
    { rewrite <- (take_drop (S k) txs), sum_list_with_app in Hw. lia. }
    rewrite E. cbn [mbind result_bind]. apply IH; try done. by apply lookup_lt_Some in Hcs.
Qed.

Lemma tinv_start : tinv 0 emptyCritical (dag_init (length txs) emptyDAG).
Proof.
  split; try (intros; lia).
  - apply dag_init_built.
  - done.
  - intros p Hp. unfold foreachField in Hp. cbn in Hp. rewrite map_to_list_empty in Hp.
    by apply not_elem_of_nil in Hp.
  - cbn [m_criticals emptyCritical]. rewrite map_size_empty. unfold total_edges. cbn [m_vtxs dag_init].
    induction (length txs); cbn; lia.
Qed.

(** What [init] builds. *)
Lemma txdag_init_ok : Z.of_nat (sum_list_with weight txs) < 2 ^ 32 ->
  exists d, txdag_init txs = Ok (generate d) /\ built (length txs) d /\ m_topLevel d = [] /\
    (total_edges d <= sum_list_with weight txs)%nat /\
    forall i j, (i < j)%nat -> conflict txs i j -> depends (outs d) i j.
Proof.
  intros Hw. destruct (addTxs_inv txs 0 _ _ tinv_start ltac:(lia) eq_refl Hw) as (cf & d & E & Hi).
  exists d. unfold txdag_init. rewrite E. split; [done |]. destruct Hi as [Hb Hq _ _ Hx Ht].
  rewrite firstn_all in Ht. split_and!; [done | done | lia |].
  intros i j Hij Hc. apply Hx; [| done]. split; [done |]. destruct Hc as (c & _ & Hj).
  unfold touches in Hj. destruct (txs !! j) eqn:El; [| done]. by eapply lookup_lt_Some.
Qed.
End Conflicts.

(** ** Serial and parallel execution *)
Section Serial.
Context {St : Type} (exec : ID -> St -> St).

Definition exec_all (order : list ID) (s : St) : St := foldl (fun s i => exec i s) s order.

Lemma exec_front l i s : (forall x, x ∈ l -> forall s, exec i (exec x s) = exec x (exec i s)) ->
  exec_all (l ++ [i]) s = exec_all (i :: l) s.
Proof.
  unfold exec_all. revert s. induction l as [|x l IH]; intros s Hc; [done |]. cbn.
  rewrite IH by (intros; apply Hc; by constructor). cbn. rewrite Hc by (by constructor). done.
Qed.

(** Any order of [a, .., a + n - 1] that keeps the order of the conflicting ones
    has the effect of the serial order. *)
Lemma reorder (confl : ID -> ID -> Prop) n : forall a order s,
  order ≡ₚ seq a n ->
  (forall l1 j l2 i, order = l1 ++ j :: l2 -> (a <= i < j)%nat -> confl i j -> i ∈ l1) ->
  (forall i j, (i < j)%nat -> ~ confl i j -> forall s, exec i (exec j s) = exec j (exec i s)) ->
  exec_all order s = exec_all (seq a n) s.
Proof.
  induction n as [|n IH]; intros a order s Hp Ho Hc.
  { apply Permutation_nil_r in Hp as ->. done. }
  assert (a ∈ order) as Ha by (rewrite Hp; by constructor).
  apply list_elem_of_split in Ha as (l1 & l2 & ->).
  assert (NoDup (l1 ++ a :: l2)) as Hnd by (rewrite Hp; apply NoDup_seq).
  assert (forall x, x ∈ l1 -> (a < x)%nat) as Hgt.
  { intros x Hx. assert (x ∈ seq a (S n)) as Hin by (rewrite <- Hp; apply elem_of_app; by left).
    apply elem_of_seq in Hin. apply NoDup_app in Hnd as (_ & Hd & _). specialize (Hd x Hx).
    rewrite not_elem_of_cons in Hd. lia. }
  assert (exec_all (l1 ++ a :: l2) s = exec_all (l1 ++ l2) (exec a s)) as ->.
  { change (a :: l2) with ([a] ++ l2). rewrite app_assoc. unfold exec_all. rewrite foldl_app.
    change (foldl (fun s i => exec i s) s (l1 ++ [a])) with (exec_all (l1 ++ [a]) s).
    rewrite exec_front; [unfold exec_all; cbn; by rewrite foldl_app |].
    intros x Hx. apply Hc; [by apply Hgt |]. intros Hconf.
    apply list_elem_of_split in Hx as (k1 & k2 & ->).
    assert (a ∈ k1) as Hin.
    { apply (Ho k1 x (k2 ++ a :: l2) a); [by rewrite <- app_assoc | | done].
      split; [done | apply Hgt, elem_of_app; right; by constructor]. }
    specialize (Hgt a). rewrite elem_of_app in Hgt. specialize (Hgt (or_introl Hin)). lia. }
  change (exec_all (seq a (S n)) s) with (exec_all (seq (S a) n) (exec a s)).
  apply IH; [| | done].
  - apply (Permutation_cons_inv (a := a)). rewrite <- Permutation_middle in Hp. exact Hp.
  - intros k1 j k2 i E Hij Hconf. destruct (app_eq_inv _ _ _ _ E) as [(k & -> & Ek)|(k & -> & Ek)].
    + destruct k as [|y k]; cbn in Ek.
      * rewrite app_nil_r in *. assert (i ∈ k1 ++ [a]) as Hin.
        { apply (Ho (k1 ++ [a]) j k2 i); [by rewrite <- app_assoc, <- Ek | lia | done]. }
        apply elem_of_app in Hin as [|Hin]; [done |]. apply list_elem_of_singleton in Hin. lia.
      * injection Ek as -> ->. apply (Ho k1 y (k ++ a :: l2) i); [by rewrite <- app_assoc | lia | done].
    + assert (i ∈ l1 ++ a :: k) as Hin.
      { apply (Ho (l1 ++ a :: k) j k2 i); [by rewrite <- app_assoc, Ek | lia | done]. }
      rewrite elem_of_app, elem_of_cons in Hin. rewrite elem_of_app. destruct Hin as [|[->|]]; [by left | lia | by right].
Qed.
End Serial.

(** ** Runs of the workers on the graph of a block *)
Section Runs.
Context (txs : list (option (list string))).

Lemma run_reach d k sched : built (length txs) d -> m_topLevel d = [] ->
  exists rem, dinv (length txs) (outs d) rem (run_schedule sched (start_workers k (generate d))).
Proof. intros Hb Hq. eapply run_inv_dag. by apply start_inv. Qed.

Lemma run_workers sched st : length (st_workers (run_schedule sched st)) = length (st_workers st).
Proof.
  revert st. induction sched as [|w sched IH]; intros st; [done |]. cbn.
  change (length (st_workers (run_schedule sched (default st (step w st)))) = length (st_workers st)).
  rewrite IH. unfold step.
  destruct (st_workers st !! w) as [[|id|id [|e rest] next]|]; cbn; [..| done].
  - destruct (waitPop (st_dag st)) as [[id|] d]; cbn; [by rewrite length_insert | done].
  - destruct (m_vtxs (st_dag st) !! id); cbn; [by rewrite length_insert | done].
  - destruct next; cbn; by rewrite length_insert.
  - destruct (consume_edge next e (st_dag st)) as [[? ?]|]; cbn; [by rewrite length_insert | done].
Qed.

Lemma run_nonempty sched k d : (0 < k)%nat -> st_workers (run_schedule sched (start_workers k d)) <> [].
Proof.
  intros Hk Hnil. pose proof (run_workers sched (start_workers k d)) as Hl.
  rewrite Hnil in Hl. cbn in Hl. rewrite length_replicate in Hl. lia.
Qed.
End Runs.

(** ** Properties *)

(** C9: [init] stays within its vertices, and whatever the interleaving of any
    number of workers no transaction is started twice, and one starts only
    after the executions of all the earlier transactions it conflicts with
    have ended. *)
Theorem conflicting_never_overlap txs :
  Z.of_nat (sum_list_with weight txs) < 2 ^ 32 ->
  exists d, txdag_init txs = Ok d /\
    forall k sched, let st := run_schedule sched (start_workers k d) in
    NoDup (omap start_of (st_trace st)) /\
    forall t2 t1 i j, st_trace st = t2 ++ Start j :: t1 -> (i < j)%nat -> conflict txs i j -> End i ∈ t1.
Proof.
  intros Hw. destruct (txdag_init_ok txs Hw) as (d & E & Hb & Hq & _ & Hc).
  exists (generate d). split; [done |]. intros k sched st.
  destruct (run_reach txs d k sched Hb Hq) as [rem Hi]. fold st in Hi. split.
  - rewrite (di_starts _ _ _ _ Hi). apply (started_nodup _ _ _ _ Hi).
  - intros t2 t1 i j Et Hij Hconf. pose proof (di_ordered _ _ _ _ Hi) as Ho. rewrite Et in Ho.
    apply ordered_app in Ho. inversion Ho as [|? ? Ho' Hd|]; subst.
    apply (ordered_before (outs d) t1 i j); auto.
Qed.

(** C10: the workers finish: a run has at most three steps per transaction and
    one per edge, and when no worker can move every transaction was executed,
    exactly once. *)
Theorem parallel_run_completes txs k :
  Z.of_nat (sum_list_with weight txs) < 2 ^ 32 -> (0 < k)%nat ->
  exists d, txdag_init txs = Ok d /\
    (forall sched, effective sched (start_workers k d) ->
       (length sched <= 3 * length txs + sum_list_with weight txs)%nat) /\
    (forall sched, let st := run_schedule sched (start_workers k d) in
       (forall w, step w st = None) -> executed st ≡ₚ seq 0 (length txs)).
Proof.
  intros Hw Hk. destruct (txdag_init_ok txs Hw) as (d & E & Hb & Hq & Ht & _).
  exists (generate d). split_and!; [done | |].
  - intros sched He. pose proof (effective_bound _ _ sched _ _ (start_inv _ d k Hb Hq) He) as Hl.
    rewrite (left_total _ d (bu_len _ _ Hb)) in Hl. lia.
  - intros sched st Hst. destruct (run_reach txs d k sched Hb Hq) as [rem Hi].
    apply (stuck_done (length txs) (outs d) rem); [done | by apply run_nonempty | done].
Qed.

(** C8: parallel execution has the effect of serial execution: if transactions
    that share no critical field commute, the final state of any complete run
    is that of executing the transactions one by one in block order. *)
Theorem parallel_equals_serial {St : Type} (exec : ID -> St -> St) txs k sched s0 :
  Z.of_nat (sum_list_with weight txs) < 2 ^ 32 -> (0 < k)%nat ->
  (forall i j, (i < j)%nat -> ~ conflict txs i j -> forall s, exec i (exec j s) = exec j (exec i s)) ->
  exists d, txdag_init txs = Ok d /\
    let st := run_schedule sched (start_workers k d) in
    (forall w, step w st = None) ->
    exec_all exec (executed st) s0 = exec_all exec (seq 0 (length txs)) s0.
Proof.
  intros Hw Hk Hcomm. destruct (txdag_init_ok txs Hw) as (d & E & Hb & Hq & _ & Hc).
  exists (generate d). split; [done |]. intros st Hst.
  destruct (run_reach txs d k sched Hb Hq) as [rem Hi]. fold st in Hi.
  apply (reorder exec (conflict txs)); [| | done].
  - apply (stuck_done (length txs) (outs d) rem); [done | by apply run_nonempty | done].
  - intros l1 j l2 i El Hij Hconf. apply (executed_order (outs d) st l1 j l2 i).
    + apply (di_ordered _ _ _ _ Hi).
    + done.
    + apply Hc; [lia | done].
Qed.

(** A transaction whose list of critical fields is empty is ordered with
    nothing, not even with a transaction that may not run in parallel: with
    two workers both can be executing at the same time. *)
Theorem empty_criticals_unordered :
  exists d sched, txdag_init [None; Some []] = Ok d /\
    st_workers (run_schedule sched (start_workers 2 d)) = [Executing 0%nat; Executing 1%nat].
Proof. eexists _, [0%nat; 1%nat]. split; reflexivity. Qed.

(** ** A block of four transactions *)
Definition sample_txs : list (option (list string)) :=
  [Some ["a"%string]; Some ["b"%string]; Some ["a"%string; "b"%string]; None].

Definition sample_exec (i : ID) (s : Z * Z) : Z * Z :=
  let '(a, b) := s in
  match i with
  | 0%nat => (2 * a, b) | 1%nat => (a, b + 3) | 2%nat => (a + b, a * b) | 3%nat => (b, a) | _ => (a, b)
  end.

Definition sample_sched : list nat := [0; 1; 1; 1; 1; 0; 0; 0; 0; 0; 0; 0; 0; 0; 0; 0; 0; 0]%nat.

(** The second transaction overtakes the first, the others wait. *)
Example sample_parallel :
  match txdag_init sample_txs with
  | Ok d => executed (run_schedule sample_sched (start_workers 2 d)) = [1; 0; 2; 3]%nat
  | Throw _ => False
  end.
Proof. vm_compute. reflexivity. Qed.

Lemma sample_commutes i j : (i < j)%nat -> ~ conflict sample_txs i j ->
  forall s, sample_exec i (sample_exec j s) = sample_exec j (sample_exec i s).
Proof.
  intros Hij Hc [a b]. unfold sample_exec.
  destruct i as [|[|[|[|i]]]], j as [|[|[|[|j]]]]; try lia; try reflexivity; destruct Hc.
  - exists "a"%string. unfold touches. cbn. split; [by constructor | by constructor].
  - exists "a"%string. unfold touches. cbn. split; [by constructor | done].
  - exists "b"%string. unfold touches. cbn. split; [by constructor |]. by do 2 constructor.
  - exists "b"%string. unfold touches. cbn. split; [by constructor | done].
  - exists "a"%string. unfold touches. cbn. split; [by constructor | done].
Qed.

Lemma conflicting_never_overlap_witness :
  exists d, txdag_init sample_txs = Ok d /\
    forall k sched, let st := run_schedule sched (start_workers k d) in
    NoDup (omap start_of (st_trace st)) /\
    forall t2 t1 i j, st_trace st = t2 ++ Start j :: t1 -> (i < j)%nat -> conflict sample_txs i j -> End i ∈ t1.
Proof. apply (conflicting_never_overlap sample_txs). vm_compute. reflexivity. Defined.

Lemma parallel_run_completes_witness :
  exists d, txdag_init sample_txs = Ok d /\
    (forall sched, effective sched (start_workers 2 d) ->
       (length sched <= 3 * length sample_txs + sum_list_with weight sample_txs)%nat) /\
    (forall sched, let st := run_schedule sched (start_workers 2 d) in
       (forall w, step w st = None) -> executed st ≡ₚ seq 0 (length sample_txs)).
Proof. apply (parallel_run_completes sample_txs 2); [vm_compute; reflexivity | lia]. Defined.

Lemma parallel_equals_serial_witness :
  exists d, txdag_init sample_txs = Ok d /\
    let st := run_schedule sample_sched (start_workers 2 d) in
    (forall w, step w st = None) ->
    exec_all sample_exec (executed st) (5, 7) = exec_all sample_exec (seq 0 (length sample_txs)) (5, 7).
Proof.
  apply (parallel_equals_serial sample_exec sample_txs 2 sample_sched (5, 7)).
  - vm_compute. reflexivity.
  - lia.
  - apply sample_commutes.
Defined.
