(* ===== verification/Transaction.v ===== *)
(** * Transactions

    [libethcore/Transaction.h], [Transaction.cpp] and the [SignatureStruct] of
    [libdevcrypto/Common.h] (the build without [FISCO_GM]): the fields, the
    memoised hash and sender with the operations that reset them, and the two
    RLP forms chosen by the protocol version.  Public-key recovery is the
    parameter [Recover]. *)

From S2P Require Import Prelude CommonData RLP PBFTMsg BlockHeader.

Abbreviation Address := bytes (only parsing).
Definition ZeroAddress : Address := zeros 20.

(** [VERSION] of [libconfig/GlobalConfigure.h]. *)
Definition RC1_VERSION : Z := 1.
Definition RC2_VERSION : Z := 2.
Definition RC3_VERSION : Z := 3.

(** ** Signatures *)
Record SignatureStruct := mkSig { sig_r : h256; sig_s : h256; sig_v : Z }.

(** [SignatureStruct()]. *)
Definition emptySig : SignatureStruct := {| sig_r := h256_0; sig_s := h256_0; sig_v := 0 |}.

Definition VBase : Z := 27.

(** [SignatureStruct(u256, u256, byte)]. *)
Definition sig_of_ints (r s v : Z) : SignatureStruct :=
  {| sig_r := toBigEndian 32 r; sig_s := toBigEndian 32 s; sig_v := v |}.

(** [operator u256] of a hash. *)
Definition hash_int (h : h256) : Z := fromBigEndian (wrap 256) h.

(** [SignatureStruct::encode]; [VType] is [byte], streamed as [unsigned]. *)
Definition sig_ops (g : SignatureStruct) : list (RLPStream -> result RLPStream) :=
  [append_unsigned (wrap 8 (sig_v g + VBase)); append_u256 (hash_int (sig_r g));
   append_u256 (hash_int (sig_s g))].

(** [FixedHash::operator<]. *)
Fixpoint hash_lt (a b : bytes) : bool :=
  match a, b with
  | x :: a', y :: b' => (x <? y) || (negb (y <? x) && hash_lt a' b')
  | _, _ => false
  end.

Definition secp256k1_max : h256 :=
  toBigEndian 32 0xfffffffffffffffffffffffffffffffebaaedce6af48a03bbfd25e8cd0364141.

Definition hash_gt (a b : bytes) : bool := negb (bool_decide (a = b) || hash_lt a b).

Definition sig_isValid (g : SignatureStruct) : bool :=
  (sig_v g <=? 1) && hash_gt (sig_r g) h256_0 && hash_gt (sig_s g) h256_0
  && hash_lt (sig_r g) secp256k1_max && hash_lt (sig_s g) secp256k1_max.

(** [operator Signature]: the struct's bytes. *)
Definition sig_bytes (g : SignatureStruct) : Signature := sig_r g ++ sig_s g ++ [sig_v g].

(** [dev::recover], a wrapper of libsecp256k1: the zero key when recovery fails. *)
Class Recover := { recover : Signature -> h256 -> NodeID }.

(** ** The transaction *)
Inductive TxType : Set := NullTransaction | ContractCreation | MessageCall.
Inductive IncludeSignature : Set := WithoutSignature | WithSignature.
Inductive CheckTransaction : Set := CheckNone | CheckCheap | CheckAll.

#[export] Instance TxType_eq_dec : EqDecision TxType.
Proof. solve_decision. Defined.

Definition c_fieldCountRC1WithOutSig : Z := 7.
Definition c_fieldCountRC2WithOutSig : Z := 10.
Definition c_sigCount : Z := 3.

(** A callback is represented by a number. *)
Record Transaction := mkTx {
  tx_type : TxType;
  tx_nonce : Z;
  tx_value : Z;
  tx_receiveAddress : Address;
  tx_gasPrice : Z;
  tx_gas : Z;
  tx_data : bytes;
  tx_vrs : option SignatureStruct;
  tx_hashWith : h256;
  tx_sender : Address;
  tx_blockLimit : Z;
  tx_importTime : Z;
  tx_rpcCallback : option Z;
  tx_rlpBuffer : bytes;
  tx_chainId : Z;
  tx_groupId : Z;
  tx_extraData : bytes
}.

(** [Transaction()]. *)
Definition emptyTx : Transaction :=
  {| tx_type := NullTransaction; tx_nonce := 0; tx_value := 0; tx_receiveAddress := ZeroAddress;
     tx_gasPrice := 0; tx_gas := 0; tx_data := []; tx_vrs := None; tx_hashWith := h256_0;
     tx_sender := ZeroAddress; tx_blockLimit := 0; tx_importTime := 0; tx_rpcCallback := None;
     tx_rlpBuffer := []; tx_chainId := 0; tx_groupId := 0; tx_extraData := [] |}.

(** The constructors of unsigned message calls and contract creations. *)
Definition messageCall (value gasPrice gas : Z) (dest : Address) (data : bytes)
    (nonce chainId groupId : Z) : Transaction :=
  {| tx_type := MessageCall; tx_nonce := nonce; tx_value := value; tx_receiveAddress := dest;
     tx_gasPrice := gasPrice; tx_gas := gas; tx_data := data; tx_vrs := None;
     tx_hashWith := h256_0; tx_sender := ZeroAddress; tx_blockLimit := 0; tx_importTime := 0;
     tx_rpcCallback := None; tx_rlpBuffer := []; tx_chainId := chainId; tx_groupId := groupId;
     tx_extraData := [] |}.

Definition contractCreation (value gasPrice gas : Z) (data : bytes) (nonce chainId groupId : Z)
    : Transaction :=
  {| tx_type := ContractCreation; tx_nonce := nonce; tx_value := value;
     tx_receiveAddress := ZeroAddress; tx_gasPrice := gasPrice; tx_gas := gas; tx_data := data;
     tx_vrs := None; tx_hashWith := h256_0; tx_sender := ZeroAddress; tx_blockLimit := 0;
     tx_importTime := 0; tx_rpcCallback := None; tx_rlpBuffer := []; tx_chainId := chainId;
     tx_groupId := groupId; tx_extraData := [] |}.

(** [operator==]. *)
Definition tx_eqb (t c : Transaction) : bool :=
  bool_decide (tx_type t = tx_type c)
  && (bool_decide (tx_type t = ContractCreation)
      || bool_decide (tx_receiveAddress t = tx_receiveAddress c))
  && (tx_value t =? tx_value c) && bool_decide (tx_data t = tx_data c).

(** The caches: hash, sender, RLP buffer and signature. *)
Definition with_caches (vrs : option SignatureStruct) (h : h256) (a : Address) (buf : bytes)
    (t : Transaction) : Transaction :=
  {| tx_type := tx_type t; tx_nonce := tx_nonce t; tx_value := tx_value t;
     tx_receiveAddress := tx_receiveAddress t; tx_gasPrice := tx_gasPrice t; tx_gas := tx_gas t;
     tx_data := tx_data t; tx_vrs := vrs; tx_hashWith := h; tx_sender := a;
     tx_blockLimit := tx_blockLimit t; tx_importTime := tx_importTime t;
     tx_rpcCallback := tx_rpcCallback t; tx_rlpBuffer := buf; tx_chainId := tx_chainId t;
     tx_groupId := tx_groupId t; tx_extraData := tx_extraData t |}.

Definition set_hashWith (h : h256) (t : Transaction) : Transaction :=
  with_caches (tx_vrs t) h (tx_sender t) (tx_rlpBuffer t) t.
Definition forceSender (a : Address) (t : Transaction) : Transaction :=
  with_caches (tx_vrs t) (tx_hashWith t) a (tx_rlpBuffer t) t.

(** [clearSignature] installs a default signature, it does not unset it. *)
Definition clearSignature (t : Transaction) : Transaction :=
  with_caches (Some emptySig) (tx_hashWith t) ZeroAddress (tx_rlpBuffer t) t.

Definition updateSignature (g : option SignatureStruct) (t : Transaction) : Transaction :=
  with_caches g h256_0 ZeroAddress [] t.

Definition updateTransactionHashWithSig (h : h256) (t : Transaction) : Transaction :=
  set_hashWith h t.

Definition tx_setNonce (n : Z) (t0 : Transaction) : Transaction :=
  let t := clearSignature t0 in
  {| tx_type := tx_type t; tx_nonce := n; tx_value := tx_value t;
     tx_receiveAddress := tx_receiveAddress t; tx_gasPrice := tx_gasPrice t; tx_gas := tx_gas t;
     tx_data := tx_data t; tx_vrs := tx_vrs t; tx_hashWith := h256_0; tx_sender := tx_sender t;
     tx_blockLimit := tx_blockLimit t; tx_importTime := tx_importTime t;
     tx_rpcCallback := tx_rpcCallback t; tx_rlpBuffer := []; tx_chainId := tx_chainId t;
     tx_groupId := tx_groupId t; tx_extraData := tx_extraData t |}.

Definition setBlockLimit (l : Z) (t0 : Transaction) : Transaction :=
  let t := clearSignature t0 in
  {| tx_type := tx_type t; tx_nonce := tx_nonce t; tx_value := tx_value t;
     tx_receiveAddress := tx_receiveAddress t; tx_gasPrice := tx_gasPrice t; tx_gas := tx_gas t;
     tx_data := tx_data t; tx_vrs := tx_vrs t; tx_hashWith := h256_0; tx_sender := tx_sender t;
     tx_blockLimit := l; tx_importTime := tx_importTime t;
     tx_rpcCallback := tx_rpcCallback t; tx_rlpBuffer := []; tx_chainId := tx_chainId t;
     tx_groupId := tx_groupId t; tx_extraData := tx_extraData t |}.

Definition setImportTime (x : Z) (t : Transaction) : Transaction :=
  {| tx_type := tx_type t; tx_nonce := tx_nonce t; tx_value := tx_value t;
     tx_receiveAddress := tx_receiveAddress t; tx_gasPrice := tx_gasPrice t; tx_gas := tx_gas t;
     tx_data := tx_data t; tx_vrs := tx_vrs t; tx_hashWith := tx_hashWith t;
     tx_sender := tx_sender t; tx_blockLimit := tx_blockLimit t; tx_importTime := x;
     tx_rpcCallback := tx_rpcCallback t; tx_rlpBuffer := tx_rlpBuffer t;
     tx_chainId := tx_chainId t; tx_groupId := tx_groupId t; tx_extraData := tx_extraData t |}.

(** ** RLP form *)
Definition address_op (t : Transaction) : RLPStream -> result RLPStream :=
  match tx_type t with
  | MessageCall => append_data (tx_receiveAddress t) false
  | _ => append_data [] false
  end.

Definition rc1_ops (t : Transaction) : list (RLPStream -> result RLPStream) :=
  [append_u256 (tx_nonce t); append_u256 (tx_gasPrice t); append_u256 (tx_gas t);
   append_u256 (tx_blockLimit t); address_op t; append_u256 (tx_value t);
   append_data (tx_data t) false].

Definition rc2_ops (t : Transaction) : list (RLPStream -> result RLPStream) :=
  rc1_ops t ++ [append_u256 (tx_chainId t); append_u256 (tx_groupId t);
                append_data (tx_extraData t) false].

(** The common body of [encodeRC1] and [encodeRC2]; a null transaction leaves
    the target as it was. *)
Definition encode_form (count : Z) (ops : list (RLPStream -> result RLPStream)) (trans : bytes)
    (g : IncludeSignature) (t : Transaction) : result bytes :=
  match tx_type t with
  | NullTransaction => Ok trans
  | _ =>
      s ← appendList ((match g with WithSignature => c_sigCount | WithoutSignature => 0 end) + count)
            emptyStream;
      s ← streamAll ops s;
      s ← match g with
          | WithoutSignature => Ok s
          | WithSignature =>
              match tx_vrs t with
              | None => Throw TransactionIsUnsigned
              | Some vrs => streamAll (sig_ops vrs) s
              end
          end;
      out s
  end.

Definition encodeRC1 (trans : bytes) (g : IncludeSignature) (t : Transaction) : result bytes :=
  encode_form c_fieldCountRC1WithOutSig (rc1_ops t) trans g t.
Definition encodeRC2 (trans : bytes) (g : IncludeSignature) (t : Transaction) : result bytes :=
  encode_form c_fieldCountRC2WithOutSig (rc2_ops t) trans g t.

(** Protocol version and hashes. *)
Section Version.
Context `{Crypto} `{Recover} (version : Z).

Definition tx_encode (trans : bytes) (g : IncludeSignature) (t : Transaction) : result bytes :=
  if RC2_VERSION <=? version then encodeRC2 trans g t else encodeRC1 trans g t.

(** [rlp]: the buffer when there is one, whatever the signature asked for. *)
Definition tx_rlp (g : IncludeSignature) (t : Transaction) : result bytes :=
  if bool_decide (tx_rlpBuffer t = []) then tx_encode [] g t else Ok (tx_rlpBuffer t).

(** [sha3]: memoised with the signature, recomputed without. *)
Definition tx_sha3 (g : IncludeSignature) (t : Transaction) : result (h256 * Transaction) :=
  match g with
  | WithSignature =>
      if bool_decide (tx_hashWith t = h256_0) then
        s ← tx_encode [] g t; Ok (sha3 s, set_hashWith (sha3 s) t)
      else Ok (tx_hashWith t, t)
  | WithoutSignature => s ← tx_encode [] g t; Ok (sha3 s, t)
  end.

(** [right160]: the last 20 bytes. *)
Definition right160 (h : h256) : Address := drop 12 h.

Definition sender (t : Transaction) : result (Address * Transaction) :=
  if bool_decide (tx_sender t = ZeroAddress) then
    match tx_vrs t with
    | None => Throw TransactionIsUnsigned
    | Some vrs =>
        '(h, t) ← tx_sha3 WithoutSignature t;
        let p := recover (sig_bytes vrs) h in
        if bool_decide (p = h512_0) then Throw InvalidSignature
        else let a := right160 (sha3 p) in Ok (a, forceSender a t)
    end
  else Ok (tx_sender t, t).

Definition safeSender (t : Transaction) : Address * Transaction :=
  match sender t with Ok at_ => at_ | Throw _ => (ZeroAddress, t) end.

Definition tx_signature (t : Transaction) : result SignatureStruct :=
  match tx_vrs t with None => Throw TransactionIsUnsigned | Some g => Ok g end.

Definition checkChainIdAndGroupId (chainId groupId : Z) (t : Transaction) : bool :=
  if RC2_VERSION <=? version then (chainId =? tx_chainId t) && (groupId =? tx_groupId t) else true.

(** ** Reading *)

(** The end of both decoders: the signature and the checks asked for. *)
Definition decode_sig (i : nat) (check : CheckTransaction) (t : Transaction) (r : RLP)
    : result Transaction :=
  '(v, r) ← field i (toInt U8 Strict) r;
  '(gr, r) ← field (S i) (toInt U256 Strict) r;
  '(gs, r) ← field (S (S i)) (toInt U256 Strict) r;
  let g := sig_of_ints gr gs (wrap 8 (v - VBase)) in
  let t := with_caches (Some g) (tx_hashWith t) (tx_sender t) (tx_rlpBuffer t) t in
  match check with
  | CheckNone => Ok t
  | CheckCheap => if sig_isValid g then Ok t else Throw InvalidSignature
  | CheckAll =>
      if sig_isValid g then '(a, t) ← sender t; Ok (forceSender a t) else Throw InvalidSignature
  end.

(** [rlp[4]] is read three times: for the type, for the choice, for the hash. *)
Definition decode_address (r : RLP) : result (TxType * Address * RLP) :=
  '(e, r) ← field 4 (fun e => Ok (isEmpty (m_data e))) r;
  '(e', r) ← field 4 (fun e => Ok (isEmpty (m_data e))) r;
  let ty := if e : bool then ContractCreation else MessageCall in
  if e' : bool then Ok (ty, ZeroAddress, r)
  else '(a, r) ← field 4 (toHash 20 VeryStrict) r; Ok (ty, a, r).

Definition decodeRC1 (check : CheckTransaction) (t : Transaction) (r : RLP) : result Transaction :=
  if negb (isList (m_data r)) then Throw InvalidTransactionFormat
  else
    '(nonce, r) ← field 0 (toInt U256 Strict) r;
    '(gasPrice, r) ← field 1 (toInt U256 Strict) r;
    '(gas, r) ← field 2 (toInt U256 Strict) r;
    '(blockLimit, r) ← field 3 (toInt U256 Strict) r;
    '(ty, addr, r) ← decode_address r;
    '(value, r) ← field 5 (toInt U256 Strict) r;
    '(isd, r) ← field 6 (fun e => Ok (isData (m_data e))) r;
    if negb isd then Throw InvalidTransactionFormat
    else
      '(data, r) ← field 6 (toBytes LaissezFaire) r;
      decode_sig 7 check
        {| tx_type := ty; tx_nonce := nonce; tx_value := value; tx_receiveAddress := addr;
           tx_gasPrice := gasPrice; tx_gas := gas; tx_data := data; tx_vrs := tx_vrs t;
           tx_hashWith := tx_hashWith t; tx_sender := tx_sender t; tx_blockLimit := blockLimit;
           tx_importTime := tx_importTime t; tx_rpcCallback := tx_rpcCallback t;
           tx_rlpBuffer := tx_rlpBuffer t; tx_chainId := tx_chainId t; tx_groupId := tx_groupId t;
           tx_extraData := tx_extraData t |} r.

Definition decodeRC2 (check : CheckTransaction) (t : Transaction) (r : RLP) : result Transaction :=
  if negb (isList (m_data r)) then Throw InvalidTransactionFormat
  else
    '(nonce, r) ← field 0 (toInt U256 Strict) r;
    '(gasPrice, r) ← field 1 (toInt U256 Strict) r;
    '(gas, r) ← field 2 (toInt U256 Strict) r;
    '(blockLimit, r) ← field 3 (toInt U256 Strict) r;
    '(ty, addr, r) ← decode_address r;
    '(value, r) ← field 5 (toInt U256 Strict) r;
    '(isd, r) ← field 6 (fun e => Ok (isData (m_data e))) r;
    if negb isd then Throw InvalidTransactionFormat
    else
      '(data, r) ← field 6 (toBytes LaissezFaire) r;
      '(chainId, r) ← field 7 (toInt U256 Strict) r;
      '(groupId, r) ← field 8 (toInt U256 Strict) r;
      '(extra, r) ← field 9 (toBytes LaissezFaire) r;
      decode_sig 10 check
        {| tx_type := ty; tx_nonce := nonce; tx_value := value; tx_receiveAddress := addr;
           tx_gasPrice := gasPrice; tx_gas := gas; tx_data := data; tx_vrs := tx_vrs t;
           tx_hashWith := tx_hashWith t; tx_sender := tx_sender t; tx_blockLimit := blockLimit;
           tx_importTime := tx_importTime t; tx_rpcCallback := tx_rpcCallback t;
           tx_rlpBuffer := tx_rlpBuffer t; tx_chainId := chainId; tx_groupId := groupId;
           tx_extraData := extra |} r.

Definition tx_decode_rlp (check : CheckTransaction) (t : Transaction) (r : RLP)
    : result Transaction :=
  if RC2_VERSION <=? version then decodeRC2 check t r else decodeRC1 check t r.

(** [decode(bytesConstRef, check)]: the bytes are kept in the buffer. *)
Definition tx_decode (check : CheckTransaction) (t : Transaction) (bs : bytes)
    : result Transaction :=
  let t := with_caches (tx_vrs t) (tx_hashWith t) (tx_sender t) bs t in
  r ← RLP_ bs VeryStrict; tx_decode_rlp check t r.

(** [Transaction(bytesConstRef, check)]. *)
Definition tx_of_bytes (bs : bytes) (check : CheckTransaction) : result Transaction :=
  tx_decode check emptyTx bs.
End Version.

(** ** Facts *)

Definition u256_ok (x : Z) : Prop := 0 <= x < 2 ^ 256.
Definition hash_ok (n : Z) (h : bytes) : Prop := bytes_ok h /\ lenZ h = n.

(** A signed transaction with field values within their C++ types. *)
Definition tx_wf (t : Transaction) : Prop :=
  tx_type t <> NullTransaction /\
  Forall u256_ok [tx_nonce t; tx_gasPrice t; tx_gas t; tx_blockLimit t; tx_value t;
                  tx_chainId t; tx_groupId t] /\
  hash_ok 20 (tx_receiveAddress t) /\
  (bytes_ok (tx_data t) /\ lenZ (tx_data t) < 2 ^ 59) /\
  (bytes_ok (tx_extraData t) /\ lenZ (tx_extraData t) < 2 ^ 59) /\
  exists g, tx_vrs t = Some g /\ hash_ok 32 (sig_r g) /\ hash_ok 32 (sig_s g) /\ 0 <= sig_v g < 256.

Definition address_enc (t : Transaction) : bytes :=
  match tx_type t with MessageCall => enc_data (tx_receiveAddress t) | _ => enc_data [] end.

Definition rc1_encs (t : Transaction) : list bytes :=
  [enc_int (tx_nonce t); enc_int (tx_gasPrice t); enc_int (tx_gas t); enc_int (tx_blockLimit t);
   address_enc t; enc_int (tx_value t); enc_data (tx_data t)].

Definition rc2_encs (t : Transaction) : list bytes :=
  rc1_encs t ++ [enc_int (tx_chainId t); enc_int (tx_groupId t); enc_data (tx_extraData t)].

Definition sig_encs (g : SignatureStruct) : list bytes :=
  [enc_int (wrap 8 (sig_v g + VBase)); enc_int (hash_int (sig_r g)); enc_int (hash_int (sig_s g))].

Lemma foldM_stream_app {A} (f : A -> RLPStream -> result RLPStream) l1 l2 s :
  foldM_stream f (l1 ++ l2) s = s' ← foldM_stream f l1 s; foldM_stream f l2 s'.
Proof. revert s. induction l1 as [|x l1 IH]; intros s; cbn; [done |]. destruct (f x s); cbn; auto. Qed.

Lemma hash_int_val h : hash_ok 32 h -> hash_int h = be_val h /\ u256_ok (hash_int h).
Proof.
  intros [Hb Hl]. pose proof (be_val_bound h Hb) as Hv. rewrite Hl in Hv.
  assert (hash_int h = be_val h) as ->.
  { apply fromBigEndian_exact; [done |]. intros x Hx. apply wrap_small. lia. }
  split; [done | unfold u256_ok; lia].
Qed.

Lemma hash_int_back h : hash_ok 32 h -> toBigEndian 32 (hash_int h) = h.
Proof.
  intros Hh. destruct (hash_int_val h Hh) as [-> _]. destruct Hh as [Hb Hl].
  assert (length h = 32%nat) as <- by (unfold lenZ in Hl; lia). by apply toBigEndian_be_val.
Qed.

Lemma sig_back g : hash_ok 32 (sig_r g) -> hash_ok 32 (sig_s g) -> 0 <= sig_v g < 256 ->
  sig_of_ints (hash_int (sig_r g)) (hash_int (sig_s g)) (wrap 8 (wrap 8 (sig_v g + VBase) - VBase)) = g.
Proof.
  intros Hr Hs Hv. unfold sig_of_ints. rewrite !hash_int_back by done.
  assert (wrap 8 (wrap 8 (sig_v g + VBase) - VBase) = sig_v g) as ->; [| by destruct g].
  unfold wrap. rewrite Zminus_mod_idemp_l, Z.add_simpl_r. apply Z.mod_small. lia.
Qed.

Definition ops_encs (ops : list (RLPStream -> result RLPStream)) (es : list bytes) : Prop :=
  Forall2 (fun op e => forall s, op s = appendRaw e 1 s) ops es /\
  Forall valid_item es /\ Forall (fun e => lenZ e <= 2 ^ 59 + 9) es.

Lemma ops_encs_app o1 o2 e1 e2 : ops_encs o1 e1 -> ops_encs o2 e2 -> ops_encs (o1 ++ o2) (e1 ++ e2).
Proof.
  intros (?&?&?) (?&?&?). split_and!; [by apply Forall2_app | by apply Forall_app | by apply Forall_app].
Qed.

Lemma ops_encs_nil : ops_encs [] [].
Proof. split_and!; constructor. Qed.

Lemma ops_encs_int x ops es : u256_ok x -> ops_encs ops es ->
  ops_encs (append_u256 x :: ops) (enc_int x :: es).
Proof.
  intros Hx (?&?&?). pose proof (enc_int_len x Hx).
  split_and!; constructor; try done; [intros s; by apply append_bigint_ref | by apply valid_enc_int |].
  lia.
Qed.

Lemma ops_encs_data b ops es : bytes_ok b -> lenZ b < 2 ^ 59 -> ops_encs ops es ->
  ops_encs (append_data b false :: ops) (enc_data b :: es).
Proof.
  intros Hb Hl (?&?&?). pose proof (enc_data_len b ltac:(lia)).
  split_and!; constructor; try done; [intros s; apply append_data_ref; lia | | lia].
  apply valid_enc_data; [done | unfold size_ok, SIZE_MAX; lia].
Qed.

Create HintDb txenc.
#[export] Hint Resolve ops_encs_nil ops_encs_int ops_encs_data ops_encs_app : txenc.

Lemma sig_encs_ok g : hash_ok 32 (sig_r g) -> hash_ok 32 (sig_s g) ->
  ops_encs (sig_ops g) (sig_encs g).
Proof.
  intros Hr%hash_int_val Hs%hash_int_val. destruct Hr as [_ Hr], Hs as [_ Hs].
  pose proof (wrap_range 8 (sig_v g + VBase) ltac:(lia)).
  change (sig_ops g) with ([append_unsigned (wrap 8 (sig_v g + VBase))] ++
    [append_u256 (hash_int (sig_r g)); append_u256 (hash_int (sig_s g))]).
  change (sig_encs g) with ([enc_int (wrap 8 (sig_v g + VBase))] ++
    [enc_int (hash_int (sig_r g)); enc_int (hash_int (sig_s g))]).
  apply ops_encs_app; [| by auto with txenc]. unfold append_unsigned.
  rewrite (wrap_small 32 (wrap 8 _)) by lia. apply ops_encs_int; [unfold u256_ok; lia | constructor; by repeat constructor].
Qed.

Lemma tx_encs_ok t : tx_wf t -> ops_encs (rc1_ops t) (rc1_encs t) /\ ops_encs (rc2_ops t) (rc2_encs t).
Proof.
  intros (Ht & Hu & [Ha Hal] & [Hd Hdl] & [He Hel] & _).
  repeat (apply Forall_cons in Hu as [? Hu]).
  assert (ops_encs (rc1_ops t) (rc1_encs t)) as Hrc1; [| split; [done | unfold rc2_ops, rc2_encs; auto 8 with txenc]].
  unfold rc1_ops, rc1_encs, address_op, address_enc.
  destruct (tx_type t); [done | |]; do 4 (apply ops_encs_int; [done |]);
    (apply ops_encs_data; [try done | first [lia | done] | by auto with txenc]). constructor.
Qed.

Lemma concat_bound es : Forall (fun e => lenZ e <= 2 ^ 59 + 9) es ->
  lenZ (concat es : bytes) <= lenZ es * (2 ^ 59 + 9).
Proof.
  induction 1 as [|e es He _ IH]; cbn [concat]; [done |]. rewrite lenZ_app, lenZ_cons. lia.
Qed.

(** What both encoders produce. *)
Lemma encode_form_ref ops es t g trans :
  tx_type t <> NullTransaction -> tx_vrs t = Some g -> ops_encs (ops ++ sig_ops g) es -> lenZ es <= 13 ->
  encode_form (lenZ ops) ops trans WithSignature t = Ok (enc_list (concat es)).
Proof.
  intros Hn Hg (Ho & _ & Hl) Hc. pose proof (concat_bound es Hl). unfold encode_form, c_sigCount.
  destruct (tx_type t) eqn:Et; [done | |]; rewrite Hg; unfold appendList, streamAll.
  all: pose proof (lenZ_nonneg ops); rewrite (proj2 (Z.eqb_neq _ _)) by lia;
    cbn [negb mbind result_bind m_out m_listStack emptyStream].
  all: pose proof (fold_open (fun op => op) (ops ++ sig_ops g) es [] [] [] ltac:(by destruct ops) Ho
         ltac:(cbn [app]; lia)) as E; rewrite foldM_stream_app, lenZ_app in E;
    change (lenZ (sig_ops g)) with 3 in E; rewrite (Z.add_comm 3).
  all: change (lenZ []) with 0 in E; destruct (foldM_stream _ ops _) as [s'|]; [| done];
    cbn [mbind result_bind] in *; rewrite E; by cbn.
Qed.

(** Every field but the ones that are not sent; RC1 does not send the last three. *)
Definition received (version : Z) (t t0 : Transaction) (bs : bytes) : Transaction :=
  let rc2 := RC2_VERSION <=? version in
  {| tx_type := tx_type t; tx_nonce := tx_nonce t; tx_value := tx_value t;
     tx_receiveAddress := match tx_type t with MessageCall => tx_receiveAddress t | _ => ZeroAddress end;
     tx_gasPrice := tx_gasPrice t; tx_gas := tx_gas t; tx_data := tx_data t; tx_vrs := tx_vrs t;
     tx_hashWith := tx_hashWith t0; tx_sender := tx_sender t0; tx_blockLimit := tx_blockLimit t;
     tx_importTime := tx_importTime t0; tx_rpcCallback := tx_rpcCallback t0; tx_rlpBuffer := bs;
     tx_chainId := if rc2 then tx_chainId t else tx_chainId t0;
     tx_groupId := if rc2 then tx_groupId t else tx_groupId t0;
     tx_extraData := if rc2 then tx_extraData t else tx_extraData t0 |}.

Definition tx_encs (version : Z) (t : Transaction) (g : SignatureStruct) : list bytes :=
  (if RC2_VERSION <=? version then rc2_encs t else rc1_encs t) ++ sig_encs g.

Lemma tx_encs_facts version t : tx_wf t -> exists g, tx_vrs t = Some g /\
  Forall valid_item (tx_encs version t g) /\ lenZ (concat (tx_encs version t g)) < 2 ^ 63 /\
  forall trans, tx_encode version trans WithSignature t = Ok (enc_list (concat (tx_encs version t g))).
Proof.
  intros Hw. destruct (tx_encs_ok t Hw) as [H1 H2].
  destruct Hw as (Ht & _ & _ & _ & _ & g & Hg & Hr & Hs & Hv). exists g.
  pose proof (sig_encs_ok g Hr Hs) as Hse. unfold tx_encode, tx_encs, encodeRC1, encodeRC2.
  assert (forall ops es, ops_encs ops es -> lenZ es <= 13 ->
    Forall valid_item es /\ lenZ (concat es) < 2 ^ 63) as Hf.
  { intros ops es (_ & Hval & Hl) Hc. split; [done |]. pose proof (concat_bound es Hl).
    pose proof (lenZ_nonneg es). nia. }
  split; [done |]. destruct (RC2_VERSION <=? version).
  - pose proof (ops_encs_app _ _ _ _ H2 Hse) as Ho. destruct (Hf _ _ Ho ltac:(done)).
    split_and!; try done. intros trans. by apply (encode_form_ref (rc2_ops t) _ t g).
  - pose proof (ops_encs_app _ _ _ _ H1 Hse) as Ho. destruct (Hf _ _ Ho ltac:(done)).
    split_and!; try done. intros trans. by apply (encode_form_ref (rc1_ops t) _ t g).
Qed.

(** A node read for one of its properties only. *)
Lemma decode_address_ref es t r : tx_wf t -> Forall valid_item es -> Z.of_nat (length es) < SIZE_MAX ->
  cache_ok es r -> es !! 4%nat = Some (address_enc t) ->
  exists r', cache_ok es r' /\ decode_address r =
    Ok (tx_type t, match tx_type t with MessageCall => tx_receiveAddress t | _ => ZeroAddress end, r').
Proof.
  intros (Ht & _ & [Ha Hal] & _) Hv Hl Hc H4. unfold decode_address, address_enc in *.
  set (e := match tx_type t with ContractCreation => true | _ => false end).
  assert (isEmpty (match tx_type t with MessageCall => enc_data (tx_receiveAddress t)
                   | _ => enc_data [] end) = e) as He.
  { unfold e. destruct (tx_type t); [done | done |]. unfold enc_data. rewrite Hal. done. }
  do 2 (edestruct (field_ref es r 4 (fun e => Ok (isEmpty (m_data e))) _ e Hv Hl Hc H4)
    as (r' & E & Hc'); [cbn [node m_data]; by rewrite He |]; rewrite E; clear E Hc;
    rename Hc' into Hc; clear r; rename r' into r; cbn [mbind result_bind]).
  unfold e. destruct (tx_type t) eqn:Et; [done | by exists r |].
  edestruct (field_ref es r 4 (toHash 20 VeryStrict) _ (tx_receiveAddress t) Hv Hl Hc H4)
    as (r' & E & Hc').
  { apply toHash_enc; [done | unfold size_ok, SIZE_MAX; lia | done]. }
  rewrite E. by exists r'.
Qed.

Lemma decode_sig_ref `{Crypto} `{Recover} version es i g t r :
  Forall valid_item es -> Z.of_nat (length es) < SIZE_MAX -> cache_ok es r ->
  take 3 (drop i es) = sig_encs g ->
  hash_ok 32 (sig_r g) -> hash_ok 32 (sig_s g) -> 0 <= sig_v g < 256 ->
  decode_sig version i CheckNone t r =
  Ok (with_caches (Some g) (tx_hashWith t) (tx_sender t) (tx_rlpBuffer t) t).
Proof.
  intros Hv Hl Hc Hd Hr Hs Hgv. unfold decode_sig.
  pose proof (wrap_range 8 (sig_v g + VBase) ltac:(lia)).
  assert (forall k, (k < 3)%nat -> es !! (i + k)%nat = sig_encs g !! k) as Hk.
  { intros k Hk. rewrite <- Hd, lookup_take_lt, lookup_drop by done. done. }
  pose proof (Hk 0%nat ltac:(lia)) as H0'. pose proof (Hk 1%nat ltac:(lia)) as H1'.
  pose proof (Hk 2%nat ltac:(lia)) as H2'.
  replace (i + 0)%nat with i in H0' by lia. replace (i + 1)%nat with (S i) in H1' by lia.
  replace (i + 2)%nat with (S (S i)) in H2' by lia. cbn [sig_encs lookup list_lookup] in *.
  destruct (field_ref es r i (toInt U8 Strict) _ _ Hv Hl Hc H0' (toInt_U8_enc (wrap 8 (sig_v g + VBase)) Strict ltac:(lia)))
    as (r1 & -> & Hc1). cbn [mbind result_bind].
  destruct (field_ref es r1 (S i) (toInt U256 Strict) _ _ Hv Hl Hc1 H1'
    (toInt_U256_enc _ _ (proj2 (hash_int_val _ Hr)))) as (r2 & -> & Hc2). cbn [mbind result_bind].
  destruct (field_ref es r2 (S (S i)) (toInt U256 Strict) _ _ Hv Hl Hc2 H2'
    (toInt_U256_enc _ _ (proj2 (hash_int_val _ Hs)))) as (r3 & -> & Hc3). cbn [mbind result_bind].
  by rewrite sig_back.
Qed.

(** A field read as data. *)
Lemma isData_enc b : bytes_ok b -> size_ok b -> isData (enc_data b) = true.
Proof.
  intros Hb Hs. pose proof (view_enc_data b [] Hb Hs) as V. rewrite app_nil_r in V.
  pose proof (view_list _ _ _ _ V) as Hl. pose proof (view_null _ _ _ _ V) as Hn.
  unfold isData, isList in *. rewrite Hn in *. cbn in *. apply Z.leb_gt in Hl. by apply Z.ltb_lt.
Qed.

Ltac data_field := first [done | unfold size_ok, SIZE_MAX; lia].

Lemma tx_decode_ref `{Crypto} `{Recover} version t t0 bs g r :
  tx_wf t -> tx_vrs t = Some g -> isList (m_data r) = true ->
  Forall valid_item (tx_encs version t g) -> cache_ok (tx_encs version t g) r ->
  tx_decode_rlp version CheckNone
    (with_caches (tx_vrs t0) (tx_hashWith t0) (tx_sender t0) bs t0) r =
  Ok (received version t t0 bs).
Proof.
  intros Hw Hg Hr Hv Hc. pose proof Hw as (Ht & Hu & _ & [Hd Hdl] & [He Hel] & g' & Hg' & Hgr & Hgs & Hgv).
  rewrite Hg in Hg'. injection Hg' as <-. repeat (apply Forall_cons in Hu as [? Hu]).
  unfold tx_decode_rlp, received, tx_encs in *.
  destruct (RC2_VERSION <=? version); unfold decodeRC2, decodeRC1; rewrite Hr; cbn [negb].
  all: do 4 (read_field Hv Hc ltac:(by apply toInt_U256_enc)).
  all: edestruct (decode_address_ref _ t _ Hw Hv ltac:(done) Hc ltac:(reflexivity)) as (ra & Hca & ->);
    cbn [mbind result_bind]; clear Hc.
  all: read_field Hv Hca ltac:(by apply toInt_U256_enc).
  all: read_field Hv Hca ltac:(cbn [node m_data]; rewrite isData_enc by data_field; reflexivity);
    cbn [negb].
  all: read_field Hv Hca ltac:(apply toBytes_enc; data_field).
  - do 2 (read_field Hv Hca ltac:(by apply toInt_U256_enc)).
    read_field Hv Hca ltac:(apply toBytes_enc; data_field).
    erewrite (decode_sig_ref version _ 10 g); [| exact Hv | done | exact Hca | done ..].
    unfold with_caches. cbn. by rewrite Hg.
  - erewrite (decode_sig_ref version _ 7 g); [| exact Hv | done | exact Hca | done ..].
    unfold with_caches. cbn. by rewrite Hg.
Qed.

(** What is encoded does not depend on the members that are not sent. *)
Lemma encode_received version t t0 bs g trans :
  tx_encode version trans g (received version t t0 bs) = tx_encode version trans g t.
Proof.
  unfold tx_encode, encodeRC1, encodeRC2, encode_form, received, rc2_ops, rc1_ops, address_op. cbn.
  destruct (RC2_VERSION <=? version); by destruct (tx_type t), g.
Qed.

(** A signed transaction survives the wire in both formats: every field that
    is sent arrives unchanged, the hash the receiver computes is the hash of
    the bytes received, which is what [TxPool::import] checks, and the sender
    it recovers is the one the sender of the transaction computes. *)
Theorem tx_wire `{Crypto} `{Recover} version t t0 :
  tx_wf t ->
  exists bs, tx_encode version [] WithSignature t = Ok bs /\
    tx_decode version CheckNone t0 bs = Ok (received version t t0 bs) /\
    (tx_hashWith t0 = h256_0 ->
     fst <$> tx_sha3 version WithSignature (received version t t0 bs) = Ok (sha3 bs)) /\
    (tx_sender t = ZeroAddress -> tx_sender t0 = ZeroAddress ->
     fst <$> sender version (received version t t0 bs) = fst <$> sender version t).
Proof.
  intros Hw. destruct (tx_encs_facts version t Hw) as (g & Hg & Hv & Hl & He).
  assert (size_ok (concat (tx_encs version t g))) as Hs by (unfold size_ok, SIZE_MAX; lia).
  exists (enc_list (concat (tx_encs version t g))). split_and!; [done | | |].
  - unfold tx_decode. rewrite valid_RLP_strict by (by apply valid_enc_list). cbn [mbind result_bind].
    apply (tx_decode_ref version t t0 _ g); [done | done | | done | by apply cache_fresh, payload_enc_list].
    pose proof (view_enc_list (concat (tx_encs version t g)) [] Hs) as V. rewrite app_nil_r in V.
    apply (view_list _ _ _ _ V).
  - intros Hh. unfold tx_sha3. cbn [received tx_hashWith].
    rewrite bool_decide_true, encode_received, He by done. done.
  - intros Hst Hs0. unfold sender, tx_sha3. rewrite encode_received. cbn [received tx_sender tx_vrs].
    rewrite !bool_decide_true, Hg by done. destruct (tx_encode _ _ _ _); [| done].
    cbn [mbind result_bind]. by destruct (bool_decide _).
Qed.

(** ** A sample *)
Definition toy_recover : Recover := {| recover := fun s h => take 32 s ++ h |}.

Definition sample_tx : Transaction :=
  updateSignature (Some {| sig_r := zeros 31 ++ [9]; sig_s := zeros 31 ++ [7]; sig_v := 1 |})
    (setBlockLimit 500 (messageCall 10 1 3000000 (replicate 20 5) [1; 2; 3] 4660 1 1)).

Lemma sample_tx_wf : tx_wf sample_tx.
Proof.
  assert (forall n, bytes_ok (zeros n)) as Hz by (intros n; apply Forall_replicate; unfold is_byte; lia).
  split_and!; try done.
  - repeat constructor; cbn; lia.
  - by repeat constructor.
  - by repeat constructor.
  - constructor.
  - eexists. split; [reflexivity |]. cbn [sig_r sig_s sig_v]. split_and!; try done.
    all: split; [apply Forall_app; split; [apply Hz | by repeat constructor] | done].
Qed.

Lemma tx_wire_witness : tx_wf sample_tx /\
  exists bs, tx_encode RC2_VERSION [] WithSignature sample_tx = Ok bs /\
    @tx_decode toy_crypto toy_recover RC2_VERSION CheckNone emptyTx bs =
    Ok (received RC2_VERSION sample_tx emptyTx bs).
Proof.
  split; [apply sample_tx_wf |].
  destruct (@tx_wire toy_crypto toy_recover RC2_VERSION sample_tx emptyTx sample_tx_wf)
    as (bs & E & D & _). by exists bs.
Defined.
