(* ===== verification/NonceCheck.v ===== *)
(** * Nonce checks

    [libtxpool/CommonTransactionNonceCheck.*] (the set of nonces of the pool) and
    [libtxpool/TransactionNonceCheck.*] (the nonces of the recent blocks and the
    block limit), against an abstract specification: the nonces of the last
    [m_maxBlockLimit] blocks.  The block chain is an interface whose promise
    is [serves]. *)

From Stdlib Require Import Sorting.Sorted.
From S2P Require Import Prelude CommonData PBFTMsg Transaction.

(** ** [CommonTransactionNonceCheck] *)
Definition generateKey (t : Transaction) : Z := tx_nonce t.

Section Common.
Implicit Types cache : gset Z.

Definition isNonceOk (t : Transaction) (needInsert : bool) cache : bool * gset Z :=
  if decide (generateKey t ∈ cache) then (false, cache)
  else (true, if needInsert then {[generateKey t]} ∪ cache else cache).

Definition delCache_key (key : Z) cache : gset Z :=
  if decide (key ∈ cache) then cache ∖ {[key]} else cache.

(** The keys found are collected first and erased afterwards. *)
Definition delCache_txs (txs : list Transaction) cache : gset Z :=
  let delList := filter (fun key => key ∈ cache) (map generateKey txs) in
  foldl (fun c key => c ∖ {[key]}) cache delList.

Definition insertCache (t : Transaction) cache : gset Z := {[generateKey t]} ∪ cache.

Lemma elem_delCache_key x key cache : x ∈ delCache_key key cache <-> x ∈ cache /\ x <> key.
Proof. unfold delCache_key. case_decide; set_solver. Qed.

Lemma elem_delCache_txs x txs cache :
  x ∈ delCache_txs txs cache <-> x ∈ cache /\ x ∉ map generateKey txs.
Proof.
  unfold delCache_txs.
  assert (forall l c, x ∈ foldl (fun (c : gset Z) key => c ∖ {[key]}) c l <-> x ∈ c /\ x ∉ l) as Hf.
  { induction l as [|k l IH]; intros c; cbn; [set_solver |]. rewrite IH. set_solver. }
  rewrite Hf, list_elem_of_filter. naive_solver.
Qed.
End Common.

(** ** [TransactionNonceCheck] *)

(** What the checker asks of the block chain. *)
Record NonceChain := mkNonceChain {
  nc_number : Z;
  nc_getBlockByNumber : Z -> option (list Transaction);
  nc_getNonces : Z -> list Z
}.

(** [Block::getAllNonces]. *)
Definition getAllNonces (txs : list Transaction) : list Z := map tx_nonce txs.

Record NonceCheck := mkNonceCheck {
  m_cache : gset Z;
  m_blockNonceCache : gmap Z (list Z);
  m_startblk : Z;
  m_endblk : Z;
  m_maxBlockLimit : Z;
  m_blockNumber : Z
}.

Definition with_cache (c : gset Z) (s : NonceCheck) : NonceCheck :=
  {| m_cache := c; m_blockNonceCache := m_blockNonceCache s; m_startblk := m_startblk s;
     m_endblk := m_endblk s; m_maxBlockLimit := m_maxBlockLimit s; m_blockNumber := m_blockNumber s |}.

Definition with_blocks (b : gmap Z (list Z)) (s : NonceCheck) : NonceCheck :=
  {| m_cache := m_cache s; m_blockNonceCache := b; m_startblk := m_startblk s;
     m_endblk := m_endblk s; m_maxBlockLimit := m_maxBlockLimit s; m_blockNumber := m_blockNumber s |}.

(** [setBlockLimit]: the window follows at the next update. *)
Definition nonce_setBlockLimit (l : Z) (s : NonceCheck) : NonceCheck :=
  {| m_cache := m_cache s; m_blockNonceCache := m_blockNonceCache s; m_startblk := m_startblk s;
     m_endblk := m_endblk s; m_maxBlockLimit := l; m_blockNumber := m_blockNumber s |}.

Definition isBlockLimitOk (t : Transaction) (s : NonceCheck) : bool :=
  negb ((tx_blockLimit t =? Invalid256) || (tx_blockLimit t <=? m_blockNumber s)
        || (m_blockNumber s + m_maxBlockLimit s <? tx_blockLimit t)).

Definition nonce_ok (t : Transaction) (needinsert : bool) (s : NonceCheck) : bool * NonceCheck :=
  if negb (isBlockLimitOk t s) then (false, s)
  else let '(b, c) := isNonceOk t needinsert (m_cache s) in (b, with_cache c s).

Definition getNonceAndUpdateCache (c : NonceChain) (i : Z) (update : bool) (s : NonceCheck)
    : list Z * NonceCheck :=
  let nonceVec :=
    match m_blockNonceCache s !! i with
    | Some v => v
    | None =>
        if nc_number c =? i then
          match nc_getBlockByNumber c i with Some b => getAllNonces b | None => [] end
        else nc_getNonces c i
    end in
  (nonceVec,
   if update && (Z.of_nat (size (m_blockNonceCache s)) <? m_maxBlockLimit s)
   then with_blocks (<[i := nonceVec]> (m_blockNonceCache s)) s else s).

(** The bodies of the two loops of [updateCache]. *)
Definition expire (c : NonceChain) (s : NonceCheck) (i : Z) : NonceCheck :=
  let '(v, s) := getNonceAndUpdateCache c i false s in
  let s := with_cache (foldl (fun m x => m ∖ {[x]}) (m_cache s) v) s in
  if decide (is_Some (m_blockNonceCache s !! i))
  then with_blocks (delete i (m_blockNonceCache s)) s else s.

Definition record_block (c : NonceChain) (s : NonceCheck) (i : Z) : NonceCheck :=
  let '(v, s) := getNonceAndUpdateCache c i true s in
  with_cache (foldl (fun m x => {[x]} ∪ m) (m_cache s) v) s.

Definition updateCache (c : NonceChain) (rebuild : bool) (s0 : NonceCheck) : NonceCheck :=
  let lastnumber := nc_number c in
  let prestartblk := m_startblk s0 in
  let preendblk := m_endblk s0 in
  let s := {| m_cache := m_cache s0; m_blockNonceCache := m_blockNonceCache s0;
              m_startblk := if m_maxBlockLimit s0 <? lastnumber
                            then lastnumber - m_maxBlockLimit s0 else 0;
              m_endblk := lastnumber; m_maxBlockLimit := m_maxBlockLimit s0;
              m_blockNumber := lastnumber |} in
  let '(s, preendblk) :=
    if rebuild then (with_cache ∅ s, 0)
    else (foldl (expire c) s (seqZ prestartblk (m_startblk s - prestartblk)), preendblk) in
  let first := Z.max (preendblk + 1) (m_startblk s) in
  foldl (record_block c) s (seqZ first (m_endblk s + 1 - first)).

(** The constructor: [init] on a fresh object. *)
Definition nonce_init (c : NonceChain) (s : NonceCheck) : NonceCheck :=
  updateCache c true
    {| m_cache := m_cache s; m_blockNonceCache := m_blockNonceCache s; m_startblk := 0;
       m_endblk := 0; m_maxBlockLimit := m_maxBlockLimit s; m_blockNumber := m_blockNumber s |}.

Definition newNonceCheck (c : NonceChain) : NonceCheck :=
  nonce_init c {| m_cache := ∅; m_blockNonceCache := ∅; m_startblk := 0; m_endblk := 0;
                  m_maxBlockLimit := 1000; m_blockNumber := 0 |}.

(** A checker with the limit [limit], following the chain to each height in turn. *)
Definition follow (chain : Z -> NonceChain) (limit first : Z) (heights : list Z) : NonceCheck :=
  foldl (fun s n => updateCache (chain n) false s)
    (nonce_init (chain first) {| m_cache := ∅; m_blockNonceCache := ∅; m_startblk := 0;
       m_endblk := 0; m_maxBlockLimit := limit; m_blockNumber := 0 |}) heights.

(** ** Specification *)

(** The chain cut at height [n] of the blocks [blocks]. *)
Definition serves (blocks : Z -> list Transaction) (n : Z) (c : NonceChain) : Prop :=
  nc_number c = n /\ nc_getBlockByNumber c n = Some (blocks n) /\
  forall i, 0 <= i < n -> nc_getNonces c i = map tx_nonce (blocks i).

Definition in_block (blocks : Z -> list Transaction) (x i : Z) : Prop := x ∈ map tx_nonce (blocks i).
#[export] Instance in_block_dec blocks x i : Decision (in_block blocks x i).
Proof. unfold in_block. apply _. Defined.

(** Block [i] uses the nonce, and none of the [limit] blocks before it does. *)
Definition first_use (blocks : Z -> list Transaction) (limit x i : Z) : Prop :=
  in_block blocks x i /\ forall j, 0 <= j < i -> i - limit <= j -> ~ in_block blocks x j.

(** A block of the window at height [n]. *)
Definition in_window (limit n i : Z) : Prop := 1 <= i <= n /\ n - limit <= i.
Definition recent (blocks : Z -> list Transaction) (limit n x : Z) : Prop := exists i, in_window limit n i /\ in_block blocks x i.

(** Up to height [h] the nonce is never used twice within [limit] blocks. *)
Definition spaced (blocks : Z -> list Transaction) (limit h x : Z) : Prop :=
  forall i j, 0 <= i < j -> j <= h -> in_block blocks x i -> in_block blocks x j -> i + limit < j.

Section Window.
Context (blocks : Z -> list Transaction) (limit : Z) (limit_pos : 0 <= limit).

Definition cached_ok (s : NonceCheck) : Prop :=
  forall i v, m_blockNonceCache s !! i = Some v -> v = map tx_nonce (blocks i).

Definition start_of_window (n : Z) : Z := if limit <? n then n - limit else 0.

Lemma start_max n : start_of_window n = Z.max 0 (n - limit).
Proof. unfold start_of_window. destruct (Z.ltb_spec limit n); lia. Qed.

Record nc_inv (n x : Z) (s : NonceCheck) : Prop := {
  nc_limit : m_maxBlockLimit s = limit;
  nc_num : m_blockNumber s = n;
  nc_end : m_endblk s = n;
  nc_start : m_startblk s = start_of_window n;
  nc_cached : cached_ok s;
  nc_sound : x ∈ m_cache s -> recent blocks limit n x;
  nc_complete : forall i, in_window limit n i -> first_use blocks limit x i -> x ∈ m_cache s
}.

Lemma getNonce_ref c n i update s : serves blocks n c -> cached_ok s -> 0 <= i <= n ->
  exists s', getNonceAndUpdateCache c i update s = (map tx_nonce (blocks i), s') /\ cached_ok s' /\
    m_cache s' = m_cache s /\ m_startblk s' = m_startblk s /\ m_endblk s' = m_endblk s /\
    m_maxBlockLimit s' = m_maxBlockLimit s /\ m_blockNumber s' = m_blockNumber s.
Proof.
  intros (Hn & Hb & Hg) Hc Hi. unfold getNonceAndUpdateCache.
  assert (match m_blockNonceCache s !! i with
    | Some v => v
    | None => if nc_number c =? i then
        match nc_getBlockByNumber c i with Some b => getAllNonces b | None => [] end
        else nc_getNonces c i end = map tx_nonce (blocks i)) as ->.
  { destruct (m_blockNonceCache s !! i) eqn:E; [by apply Hc |].
    rewrite Hn. destruct (Z.eqb_spec n i) as [->|]; [by rewrite Hb | apply Hg; lia]. }
  destruct (update && _); eexists; split_and!; try done.
  intros j v. cbn. destruct (decide (i = j)) as [->|].
  - rewrite lookup_insert_eq. congruence.
  - rewrite lookup_insert_ne by done. apply Hc.
Qed.

Definition same_frame (s s' : NonceCheck) : Prop :=
  m_startblk s' = m_startblk s /\ m_endblk s' = m_endblk s /\
  m_maxBlockLimit s' = m_maxBlockLimit s /\ m_blockNumber s' = m_blockNumber s.

Lemma elem_erase (v : list Z) (m : gset Z) x :
  x ∈ foldl (fun m x => m ∖ {[x]}) m v <-> x ∈ m /\ x ∉ v.
Proof. revert m. induction v as [|y v IH]; intros m; cbn; [set_solver |]. rewrite IH. set_solver. Qed.

Lemma elem_add (v : list Z) (m : gset Z) x :
  x ∈ foldl (fun m x => {[x]} ∪ m) m v <-> x ∈ m \/ x ∈ v.
Proof. revert m. induction v as [|y v IH]; intros m; cbn; [set_solver |]. rewrite IH. set_solver. Qed.

Lemma expire_all c n l s x : serves blocks n c -> cached_ok s -> Forall (fun i => 0 <= i <= n) l ->
  let s' := foldl (expire c) s l in
  cached_ok s' /\ same_frame s s' /\
  (x ∈ m_cache s' <-> x ∈ m_cache s /\ forall i, i ∈ l -> ~ in_block blocks x i).
Proof.
  intros Hs Hc Hl. revert s Hc. induction Hl as [|i l Hi _ IH]; intros s Hc; cbn [foldl].
  { split_and!; [done | done | set_solver]. }
  assert (cached_ok (expire c s i) /\ same_frame s (expire c s i) /\
    (x ∈ m_cache (expire c s i) <-> x ∈ m_cache s /\ ~ in_block blocks x i)) as (Hc1 & Hf1 & He1).
  { unfold expire. destruct (getNonce_ref c n i false s Hs Hc Hi) as (s1 & -> & Hc1 & E & ? & ? & ? & ?).
    case_decide; (split_and!; [| done | cbn; rewrite elem_erase, E; done]); [| done].
    intros j v. cbn. rewrite lookup_delete_Some. intros [_ Hv]. by apply Hc1. }
  destruct (IH _ Hc1) as (Hc2 & Hf2 & He2). unfold same_frame in *.
  split_and!; [done | intuition congruence .. |]. rewrite He2, He1. set_solver.
Qed.

Lemma record_all c n l s x : serves blocks n c -> cached_ok s -> Forall (fun i => 0 <= i <= n) l ->
  let s' := foldl (record_block c) s l in
  cached_ok s' /\ same_frame s s' /\
  (x ∈ m_cache s' <-> x ∈ m_cache s \/ exists i, i ∈ l /\ in_block blocks x i).
Proof.
  intros Hs Hc Hl. revert s Hc. induction Hl as [|i l Hi _ IH]; intros s Hc; cbn [foldl].
  { split_and!; [done | done | set_solver]. }
  assert (cached_ok (record_block c s i) /\ same_frame s (record_block c s i) /\
    (x ∈ m_cache (record_block c s i) <-> x ∈ m_cache s \/ in_block blocks x i)) as (Hc1 & Hf1 & He1).
  { unfold record_block. destruct (getNonce_ref c n i true s Hs Hc Hi) as (s1 & -> & Hc1 & E & ? & ? & ? & ?).
    split_and!; [done | done |]. cbn. by rewrite elem_add, E. }
  destruct (IH _ Hc1) as (Hc2 & Hf2 & He2). unfold same_frame in *.
  split_and!; [done | intuition congruence .. |]. rewrite He2, He1. set_solver.
Qed.

Lemma seqZ_range m k n : 0 <= m -> m + k - 1 <= n -> Forall (fun i => 0 <= i <= n) (seqZ m k).
Proof. intros. apply Forall_forall. intros i Hi%elem_of_seqZ. lia. Qed.

Lemma update_inv c n n' x s : 0 <= n <= n' -> serves blocks n' c ->
  nc_inv n x s -> nc_inv n' x (updateCache c false s).
Proof.
  intros Hn Hs [Hl Hnum He Hst Hc Hin Hout]. unfold updateCache. rewrite Hl, He, Hst.
  replace (nc_number c) with n' by (symmetry; apply Hs). cbn [m_startblk].
  set (s1 := {| m_cache := m_cache s; m_blockNonceCache := _ |}).
  assert (start_of_window n <= start_of_window n') as Hm.
  { rewrite !start_max. lia. }
  assert (0 <= start_of_window n /\ start_of_window n' <= n') as [H0 H1].
  { rewrite !start_max. lia. }
  change (if limit <? n' then n' - limit else 0) with (start_of_window n').
  destruct (expire_all c n' (seqZ (start_of_window n) (start_of_window n' - start_of_window n)) s1 x
    Hs Hc (seqZ_range (start_of_window n) (start_of_window n' - start_of_window n) n' H0 ltac:(lia))) as (Hc2 & (Hf1 & Hf2 & Hf3 & Hf4) & Hx2).
  cbn [s1 m_cache m_startblk m_endblk m_maxBlockLimit m_blockNumber] in *.
  set (s2 := foldl (expire c) _ _) in *. rewrite Hf1, Hf2.
  set (a := Z.max (n + 1) _).
  assert (a = Z.max (n + 1) (start_of_window n')) as Ha by done.
  destruct (record_all c n' (seqZ a (n' + 1 - a)) s2 x Hs Hc2
    (seqZ_range a (n' + 1 - a) n' ltac:(lia) ltac:(lia)))
    as (Hc3 & (Hg1 & Hg2 & Hg3 & Hg4) & Hx3).
  split; try congruence; [by rewrite Hg1, Hf1 | done | |]; clear Hs Hc Hc2 Hc3.
  - rewrite Hx3, Hx2. intros [[[i [[Hi Hw] Hb]]%Hin Hno] | (i & Hi%elem_of_seqZ & Hb)]; exists i.
    + destruct (Z.lt_ge_cases i (start_of_window n')); [| rewrite !start_max in *; split; [split; lia | done]].
      destruct (Hno i); [| done]. apply elem_of_seqZ. rewrite !start_max in *. lia.
    + split; [| done]. rewrite !start_max in *. split; lia.
  - intros i [Hi Hw] Hu. rewrite Hx3, Hx2. destruct (Z.le_gt_cases (n + 1) i).
    + right. exists i. split; [| apply Hu]. apply elem_of_seqZ. rewrite !start_max in *. lia.
    + left. split; [apply (Hout i); [split; lia | done] |]. intros k Hk%elem_of_seqZ.
      rewrite !start_max in *. apply Hu; lia.
Qed.

Lemma init_inv c n x s : 0 <= n -> m_maxBlockLimit s = limit -> cached_ok s -> serves blocks n c ->
  nc_inv n x (nonce_init c s).
Proof.
  intros Hn Hl Hc Hs. unfold nonce_init, updateCache. cbn [m_maxBlockLimit m_startblk].
  replace (nc_number c) with n by (symmetry; apply Hs). rewrite Hl.
  change (if limit <? n then n - limit else 0) with (start_of_window n).
  set (s1 := with_cache ∅ _).
  assert (0 <= start_of_window n <= n) as H0.
  { rewrite !start_max. lia. }
  set (a := Z.max _ _). assert (a = Z.max 1 (start_of_window n)) as Ha by done.
  destruct (record_all c n (seqZ a (n + 1 - a)) s1 x Hs Hc
    (seqZ_range a (n + 1 - a) n ltac:(lia) ltac:(lia)))
    as (Hc3 & (Hg1 & Hg2 & Hg3 & Hg4) & Hx3).
  cbn [s1 with_cache m_cache m_startblk m_endblk m_maxBlockLimit m_blockNumber] in *.
  split; try done.
  - rewrite Hx3. intros [?|(i & Hi%elem_of_seqZ & Hb)]; [set_solver |]. exists i.
    rewrite !start_max in *. split; [split; lia | done].
  - intros i [Hi Hw] [Hb _]. rewrite Hx3. right. exists i. split; [| done]. apply elem_of_seqZ.
    rewrite !start_max in *. lia.
Qed.

Lemma last_after n (l : list Z) first : List.last (n :: l) first = List.last l n.
Proof. revert n first. induction l as [|m l IH]; intros n first; [done |]. cbn in *. destruct l; auto. Qed.
Lemma last_nonneg first l : 0 <= first -> StronglySorted Z.le (first :: l) -> 0 <= List.last l first.
Proof.
  revert first. induction l as [|n l IH]; intros first Hf Hso; [done |]. rewrite last_after. inversion_clear Hso as [|? ? Hso' Hle].
  apply Forall_cons in Hle as [Hle _]. apply IH; [lia | done].
Qed.
Lemma follow_inv chain first heights x : 0 <= first ->
  (forall n, serves blocks n (chain n)) -> StronglySorted Z.le (first :: heights) ->
  nc_inv (List.last heights first) x (follow chain limit first heights).
Proof.
  intros Hf Hs Hso. unfold follow.
  assert (nc_inv first x (nonce_init (chain first) {| m_cache := ∅; m_blockNonceCache := ∅;
    m_startblk := 0; m_endblk := 0; m_maxBlockLimit := limit; m_blockNumber := 0 |})) as Hi.
  { by apply init_inv. }
  set (s := nonce_init _ _) in *. clearbody s.
  revert first s Hf Hso Hi. induction heights as [|n l IH]; intros first s Hf Hso Hi; [done |].
  cbn [foldl]. inversion_clear Hso as [|? ? Hso' Hle]. apply Forall_cons in Hle as [Hle Hle'].
  rewrite last_after. apply IH; [lia | done |]. by apply (update_inv _ first).
Qed.
End Window.

(** C28: the nonce cache is a sliding window over the chain, however the heights at
    which it is updated follow each other.  A transaction whose block limit is ahead
    of the current block by at most [m_maxBlockLimit], and whose nonce no block of
    the window uses, passes; one that passes has such a limit, and its nonce has no
    first use in the window: every block of the window that uses it comes within
    [m_maxBlockLimit] blocks after another use ([first_use]).  For a nonce that the
    chain does not repeat within the limit the two conditions are one; for one that
    it repeats the code forgets the later use with the earlier ([repeated_nonce_replayed]). *)
Theorem nonce_window blocks limit chain first heights t :
  0 <= limit -> 0 <= first -> StronglySorted Z.le (first :: heights) -> (forall n, serves blocks n (chain n)) ->
  let n := List.last heights first in
  let limit_ok := tx_blockLimit t <> Invalid256 /\ n < tx_blockLimit t <= n + limit in
  let passes := fst (nonce_ok t false (follow chain limit first heights)) = true in
  (limit_ok -> ~ recent blocks limit n (tx_nonce t) -> passes) /\
  (passes -> limit_ok /\ forall i, in_window limit n i -> ~ first_use blocks limit (tx_nonce t) i).
Proof.
  intros Hl Hf Hso Hs n.
  pose proof (follow_inv blocks limit Hl chain first heights (tx_nonce t) Hf Hs Hso) as [L1 L2 _ _ _ Hin Hout].
  fold n in L2, Hin, Hout. unfold nonce_ok, isBlockLimitOk, isNonceOk, generateKey. rewrite L1, L2.
  destruct (Z.eqb_spec (tx_blockLimit t) Invalid256), (Z.leb_spec (tx_blockLimit t) n),
    (Z.ltb_spec (n + limit) (tx_blockLimit t)); cbn; try (split; [lia | done]).
  case_decide as Hd; cbn; split; try done; [naive_solver |]. intros _. split; [lia |]. intros i Hi Hu. by apply Hd, (Hout i).
Qed.

(** The first block after [h] that uses the nonce. *)
Lemma earliest_use blocks x h i : h < i -> in_block blocks x i ->
  exists k, h < k <= i /\ in_block blocks x k /\ forall j, h < j < k -> ~ in_block blocks x j.
Proof.
  intros Hi Hb. assert (forall d, (d <= Z.to_nat (i - h))%nat -> (forall j, h < j <= h + Z.of_nat d -> ~ in_block blocks x j) \/
    exists k, h < k <= i /\ in_block blocks x k /\ forall j, h < j < k -> ~ in_block blocks x j) as Hd.
  { induction d as [|d IH]; intros Hle; [left; lia |]. destruct IH as [IH|IH]; [lia | | by right].
    destruct (decide (in_block blocks x (h + Z.of_nat (S d)))) as [Hk|Hk].
    - right. exists (h + Z.of_nat (S d)). split; [lia |]. split; [done |]. intros j Hj. apply IH. lia.
    - left. intros j Hj. destruct (Z.eq_dec j (h + Z.of_nat (S d))) as [-> |]; [done |]. apply IH. lia. }
  destruct (Hd (Z.to_nat (i - h)) ltac:(lia)) as [Hn|]; [| done]. destruct (Hn i); [lia | done].
Qed.

(** C27: no replay.  When a checker that follows the chain accepts a transaction at
    height [h], and a later block holds it, no checker that follows the chain from
    then on accepts it again, at any height.  The blocks up to [h] do not repeat the
    nonce within the limit ([spaced]), and the first block has no transactions; the
    blocks after [h] may repeat it.  Without [spaced]
    a transaction is replayed ([repeated_nonce_replayed]), and an honest sealer can
    break it ([sealed_nonce_not_rechecked]). *)
Theorem no_replay blocks limit chain first heights first' heights' t i :
  let h := List.last heights first in
  0 <= limit -> (forall n, serves blocks n (chain n)) -> blocks 0 = [] ->
  0 <= first -> StronglySorted Z.le (first :: heights) -> 0 <= first' -> StronglySorted Z.le (first' :: heights') ->
  spaced blocks limit h (tx_nonce t) ->
  fst (nonce_ok t false (follow chain limit first heights)) = true ->
  h < i -> t ∈ blocks i -> i <= List.last heights' first' ->
  fst (nonce_ok t false (follow chain limit first' heights')) = false.
Proof.
  intros h Hl Hs H0 Hf Hso Hf' Hso' Hsp Hok Hhi Ht Hi. set (n := List.last heights' first') in *.
  pose proof (follow_inv blocks limit Hl chain first heights (tx_nonce t) Hf Hs Hso) as [K1 K2 _ _ _ _ Hseen].
  pose proof (follow_inv blocks limit Hl chain first' heights' (tx_nonce t) Hf' Hs Hso') as [L1 L2 _ _ _ _ Hout].
  fold h in K2, Hseen. fold n in L2, Hout. assert (in_block blocks (tx_nonce t) i) as Hb by (unfold in_block; by apply list_elem_of_fmap_2).
  unfold nonce_ok in *. destruct (isBlockLimitOk t (follow chain limit first heights)) eqn:E; [| done].
  unfold isBlockLimitOk, isNonceOk, generateKey in *. rewrite L1, L2. rewrite K1, K2 in E. cbn [negb] in Hok.
  destruct (decide (tx_nonce t ∈ m_cache (follow chain limit first heights))) as [|Hnew]; [done |]. clear Hok. bool_to_prop.
  destruct (Z.leb_spec (tx_blockLimit t) n); [by rewrite orb_true_r |].
  case_match; [done |]. cbn. rewrite decide_True; [done |].
  destruct (earliest_use blocks (tx_nonce t) h i Hhi Hb) as (k & Hk & Hkb & Hno).
  pose proof (last_nonneg first heights Hf Hso) as Hh. fold h in Hh.
  apply (Hout k); [split; lia |]. split; [done |]. intros j Hj Hjk Hjb. destruct (Z.lt_ge_cases h j); [by apply (Hno j); [lia |] |].
  apply Hnew, (Hseen j); [split; [| lia] | split; [done |]; intros j' Hj' Hjl Hb'; pose proof (Hsp j' j ltac:(lia) ltac:(lia) Hb' Hjb); lia].
  destruct (Z.eq_dec j 0) as [->|]; [| lia]. unfold in_block in Hjb. rewrite H0 in Hjb. by apply not_elem_of_nil in Hjb.
Qed.

(** ** A chain with one transaction in its second block *)
Definition replay_tx : Transaction := setBlockLimit 4 sample_tx.
Definition sample_blocks (i : Z) : list Transaction := if i =? 2 then [replay_tx] else [].
Definition sample_chain (n : Z) : NonceChain :=
  {| nc_number := n; nc_getBlockByNumber := fun i => Some (sample_blocks i);
     nc_getNonces := fun i => map tx_nonce (sample_blocks i) |}.

Lemma sample_serves n : serves sample_blocks n (sample_chain n).
Proof. split_and!; done. Qed.

Lemma sample_spaced limit h x : spaced sample_blocks limit h x.
Proof.
  intros i j Hij _ Hi Hj. unfold in_block, sample_blocks in *.
  destruct (Z.eqb_spec i 2), (Z.eqb_spec j 2); [lia | set_solver ..].
Qed.

(** Accepted before block 2, refused from then on. *)
Example replay_verdicts :
  map (fun l => fst (nonce_ok replay_tx false (follow sample_chain 3 1 l))) [[]; [2]; [2; 3]; [2; 3; 7]]
  = [true; false; false; false].
Proof. vm_compute. reflexivity. Qed.

Lemma nonce_window_witness :
  fst (nonce_ok replay_tx false (follow sample_chain 3 1 [])) = true /\
  (fst (nonce_ok replay_tx false (follow sample_chain 3 1 [2; 2; 3])) = true ->
   forall i, in_window 3 3 i -> ~ first_use sample_blocks 3 (tx_nonce replay_tx) i).
Proof.
  split.
  - apply (nonce_window sample_blocks 3 sample_chain 1 [] replay_tx); [lia | lia | repeat constructor; lia | apply sample_serves | split; [done | cbn; lia] |].
    intros (i & [Hi _] & Hb). cbn in Hi. assert (i = 1) as -> by lia. by apply not_elem_of_nil in Hb.
  - apply (nonce_window sample_blocks 3 sample_chain 1 [2; 2; 3] replay_tx);
      [lia | lia | repeat constructor; lia | apply sample_serves].
Defined.

Lemma no_replay_witness :
  fst (nonce_ok replay_tx false (follow sample_chain 3 1 [])) = true /\
  fst (nonce_ok replay_tx false (follow sample_chain 3 1 [2; 3])) = false.
Proof.
  split; [vm_compute; reflexivity |].
  apply (no_replay sample_blocks 3 sample_chain 1 [] 1 [2; 3] replay_tx 2);
    [lia | apply sample_serves | done | lia | repeat constructor; lia | lia | repeat constructor; lia | apply sample_spaced
    | vm_compute; reflexivity | cbn; lia | apply list_elem_of_here | cbn; lia].
Defined.

(** ** A nonce that the chain repeats *)
(** Blocks 1 and 3 use the nonce of a transaction that block 6 holds: when block 1
    leaves the window the nonce is forgotten although block 3 is in it, and again
    when block 3 leaves.  The transaction is accepted at height 5, is in block 6,
    and is accepted again at height 7. *)
Definition late_tx : Transaction := setBlockLimit 8 sample_tx.
Definition repeated_blocks (i : Z) : list Transaction :=
  if (i =? 1) || (i =? 3) then [replay_tx] else if i =? 6 then [late_tx] else [].
Definition repeated_chain (n : Z) : NonceChain :=
  {| nc_number := n; nc_getBlockByNumber := fun i => Some (repeated_blocks i);
     nc_getNonces := fun i => map tx_nonce (repeated_blocks i) |}.
Theorem repeated_nonce_replayed :
  fst (nonce_ok late_tx false (follow repeated_chain 3 1 [2; 3; 4; 5])) = true /\ late_tx ∈ repeated_blocks 6 /\
  fst (nonce_ok late_tx false (follow repeated_chain 3 1 [2; 3; 4; 5; 6; 7])) = true.
Proof. split_and!; [vm_compute; reflexivity | apply list_elem_of_here | vm_compute; reflexivity]. Qed.
