(* ===== verification/TxPool.v ===== *)
(** * The transaction pool

    [libtxpool/TxPool.h] and [TxPool.cpp]: the queue of pending transactions,
    the index of its iterators by hash, the two nonce checks, the dropped and
    the known transactions.  The queue is a [std::set]: its nodes are numbered
    when they are created, an iterator is the number of its node, and using an
    iterator whose node was erased is [UndefinedBehaviour]. *)

From stdpp Require Import sorting.
From S2P Require Import Prelude CommonData RLP PBFTMsg BlockHeader Block Transaction NonceCheck.

Inductive ImportResult : Set :=
  | Success | UnknownParent | FutureTimeKnown | FutureTimeUnknown | AlreadyInChain | AlreadyKnown
  | Malformed | BadChain | ZeroSignature | TransactionNonceCheckFail | TxPoolNonceCheckFail
  | TransactionPoolIsFull | InvalidChainIdOrGroupId.

#[export] Instance ImportResult_eq_dec : EqDecision ImportResult.
Proof. solve_decision. Defined.

Inductive IfDropped : Set := Ignore | Retry.

(** [LocalisedTransactionReceipt]: the receipt with its place in the chain, or
    only the status [TxPoolIsFull]. *)
Inductive LocalisedReceipt (Rcpt : Type) : Type :=
  | Localised (r : Rcpt) (hash blockHash : h256) (number : Z) (from to : Address) (index : Z)
  | TxPoolIsFull.
Arguments Localised {Rcpt} _ _ _ _ _ _ _.
Arguments TxPoolIsFull {Rcpt}.

Section TxPool.
Context `{Crypto} `{Recover} {Rcpt : Type} (version : Z).

Record TxPool := mkPool {
  m_txNonceCheck : NonceCheck;
  m_commonNonceCheck : gset Z;
  m_limit : Z;
  m_chainId : Z;
  m_groupId : Z;
  m_txsQueue : list (nat * Transaction);
  m_txsHash : gmap h256 nat;
  m_dropped : gset h256;
  m_transactionKnownBy : gmap h256 (gset h512);
  (** the number of the next node *)
  m_nextNode : nat;
  (** what was enqueued on [m_callbackPool], and the calls of [m_onReady] *)
  m_callbacks : list (Z * LocalisedReceipt Rcpt);
  m_ready : nat
}.

Definition newPool (c : NonceChain) (limit chainId groupId : Z) : TxPool :=
  {| m_txNonceCheck := newNonceCheck c; m_commonNonceCheck := ∅; m_limit := limit;
     m_chainId := chainId; m_groupId := groupId; m_txsQueue := []; m_txsHash := ∅; m_dropped := ∅;
     m_transactionKnownBy := ∅; m_nextNode := 0; m_callbacks := []; m_ready := 0 |}.

Definition set_checks (n : NonceCheck) (c : gset Z) (p : TxPool) : TxPool :=
  {| m_txNonceCheck := n; m_commonNonceCheck := c; m_limit := m_limit p;
     m_chainId := m_chainId p; m_groupId := m_groupId p; m_txsQueue := m_txsQueue p;
     m_txsHash := m_txsHash p; m_dropped := m_dropped p;
     m_transactionKnownBy := m_transactionKnownBy p; m_nextNode := m_nextNode p;
     m_callbacks := m_callbacks p; m_ready := m_ready p |}.

Definition set_queue (q : list (nat * Transaction)) (hs : gmap h256 nat) (next : nat) (p : TxPool)
    : TxPool :=
  {| m_txNonceCheck := m_txNonceCheck p; m_commonNonceCheck := m_commonNonceCheck p;
     m_limit := m_limit p; m_chainId := m_chainId p; m_groupId := m_groupId p; m_txsQueue := q;
     m_txsHash := hs; m_dropped := m_dropped p;
     m_transactionKnownBy := m_transactionKnownBy p; m_nextNode := next;
     m_callbacks := m_callbacks p; m_ready := m_ready p |}.

Definition set_dropped (d : gset h256) (p : TxPool) : TxPool :=
  {| m_txNonceCheck := m_txNonceCheck p; m_commonNonceCheck := m_commonNonceCheck p;
     m_limit := m_limit p; m_chainId := m_chainId p; m_groupId := m_groupId p;
     m_txsQueue := m_txsQueue p; m_txsHash := m_txsHash p; m_dropped := d;
     m_transactionKnownBy := m_transactionKnownBy p; m_nextNode := m_nextNode p;
     m_callbacks := m_callbacks p; m_ready := m_ready p |}.

Definition set_known (k : gmap h256 (gset h512)) (p : TxPool) : TxPool :=
  {| m_txNonceCheck := m_txNonceCheck p; m_commonNonceCheck := m_commonNonceCheck p;
     m_limit := m_limit p; m_chainId := m_chainId p; m_groupId := m_groupId p;
     m_txsQueue := m_txsQueue p; m_txsHash := m_txsHash p; m_dropped := m_dropped p;
     m_transactionKnownBy := k; m_nextNode := m_nextNode p; m_callbacks := m_callbacks p;
     m_ready := m_ready p |}.

Definition set_events (cb : list (Z * LocalisedReceipt Rcpt)) (ready : nat) (p : TxPool) : TxPool :=
  {| m_txNonceCheck := m_txNonceCheck p; m_commonNonceCheck := m_commonNonceCheck p;
     m_limit := m_limit p; m_chainId := m_chainId p; m_groupId := m_groupId p;
     m_txsQueue := m_txsQueue p; m_txsHash := m_txsHash p; m_dropped := m_dropped p;
     m_transactionKnownBy := m_transactionKnownBy p; m_nextNode := m_nextNode p;
     m_callbacks := cb; m_ready := ready |}.

Definition call_back (cb : option Z) (r : LocalisedReceipt Rcpt) (p : TxPool) : TxPool :=
  match cb with
  | Some f => set_events (m_callbacks p ++ [(f, r)]) (m_ready p) p
  | None => p
  end.

(** [sha3()] of a transaction that is only read: its memo is not observable. *)
Definition txHash (t : Transaction) : h256 :=
  from_ok h256_0 (fst <$> tx_sha3 version WithSignature t).

(** ** The queue *)

(** [emplace] of a [std::set] ordered by [importTime <= importTime]: the node goes
    before the first one that is not earlier, so that no two nodes are ever
    taken for equal. *)
Fixpoint emplace (x : nat * Transaction) (q : list (nat * Transaction)) : list (nat * Transaction) :=
  match q with
  | [] => [x]
  | y :: q' => if tx_importTime x.2 <=? tx_importTime y.2 then x :: q else y :: emplace x q'
  end.

(** The node of an iterator; [erase] of an iterator. *)
Fixpoint node_at (n : nat) (q : list (nat * Transaction)) : option Transaction :=
  match q with
  | [] => None
  | y :: q' => if Nat.eqb y.1 n then Some y.2 else node_at n q'
  end.

Definition erase (n : nat) (q : list (nat * Transaction)) : list (nat * Transaction) :=
  filter (fun y => y.1 <> n) q.

Definition known (h : h256) (p : TxPool) : bool := bool_decide (is_Some (m_txsHash p !! h)).

Definition pool_insert (t : Transaction) (p : TxPool) : bool * TxPool :=
  let tx_hash := txHash t in
  if known tx_hash p then (false, p)
  else (true, set_queue (emplace (m_nextNode p, t) (m_txsQueue p))
                (<[tx_hash := m_nextNode p]> (m_txsHash p)) (S (m_nextNode p)) p).

(** [removeTrans(hash, needTriggerCallback, receipt)]. *)
Definition removeTrans (h : h256) (trigger : bool) (receipt : option (LocalisedReceipt Rcpt))
    (p : TxPool) : result (bool * TxPool) :=
  match m_txsHash p !! h with
  | None => Ok (false, p)
  | Some n =>
      match node_at n (m_txsQueue p) with
      | None => Throw UndefinedBehaviour
      | Some t =>
          let p := match trigger, receipt with
                   | true, Some r => call_back (tx_rpcCallback t) r p
                   | _, _ => p
                   end in
          Ok (true, set_queue (erase n (m_txsQueue p)) (delete h (m_txsHash p)) (m_nextNode p) p)
      end
  end.

(** ** Checks *)
Definition isBlockLimitOrNonceOk (t : Transaction) (needInsert : bool) (p : TxPool) : bool * TxPool :=
  if tx_nonce t =? Invalid256 then (false, p)
  else let '(b, n) := nonce_ok t needInsert (m_txNonceCheck p) in
       (b, set_checks n (m_commonNonceCheck p) p).

Definition txPoolNonceCheck (t : Transaction) (p : TxPool) : bool * TxPool :=
  let '(b, c) := isNonceOk t true (m_commonNonceCheck p) in (b, set_checks (m_txNonceCheck p) c p).

(** [verify]: the transaction comes back with its hash and sender memoised. *)
Definition pool_verify (t : Transaction) (policy : IfDropped) (needinsert : bool) (p : TxPool)
    : result (ImportResult * Transaction * TxPool) :=
  '(tx_hash, t) ← tx_sha3 version WithSignature t;
  if known tx_hash p then Ok (AlreadyKnown, t, p)
  else if bool_decide (tx_hash ∈ m_dropped p)
          && (match policy with Ignore => true | Retry => false end) then Ok (AlreadyInChain, t, p)
  else
    let '(b, p) := isBlockLimitOrNonceOk t needinsert p in
    if negb b then Ok (TransactionNonceCheckFail, t, p)
    else
      match sender version t with
      | Throw _ => Ok (Malformed, t, p)
      | Ok (_, t) =>
          let '(b, p) := txPoolNonceCheck t p in
          if negb b then Ok (TxPoolNonceCheckFail, t, p)
          else if negb (checkChainIdAndGroupId version (m_chainId p) (m_groupId p) t)
          then Ok (InvalidChainIdOrGroupId, t, p)
          else Ok (Success, t, p)
      end.

(** ** Importing *)

(** [import(Transaction&, IfDropped)]; the policy is not used. *)
Definition pool_import (now : Z) (t : Transaction) (p : TxPool)
    : result (ImportResult * Transaction * TxPool) :=
  let t := setImportTime now t in
  if m_limit p <=? lenZ (m_txsQueue p)
  then Ok (TransactionPoolIsFull, t, call_back (tx_rpcCallback t) TxPoolIsFull p)
  else
    '(r, t, p) ← pool_verify t Ignore false p;
    if bool_decide (r = Success) then
      let '(b, p) := pool_insert t p in
      if b : bool then
        let p := set_checks (m_txNonceCheck p) (insertCache t (m_commonNonceCheck p)) p in
        Ok (r, t, set_events (m_callbacks p) (S (m_ready p)) p)
      else Ok (r, t, p)
    else Ok (r, t, p).

(** [import(bytesConstRef, IfDropped)]. *)
Definition pool_import_bytes (now : Z) (bs : bytes) (p : TxPool) : result (ImportResult * TxPool) :=
  match (t ← tx_decode version CheckNone emptyTx bs; tx_sha3 version WithSignature t) with
  | Throw UndefinedBehaviour => Throw UndefinedBehaviour
  | Throw _ => Ok (Malformed, p)
  | Ok (h, t) =>
      if negb (bool_decide (sha3 bs = h)) then Ok (Malformed, p)
      else '(r, _, p) ← pool_import now t p; Ok (r, p)
  end.

(** [toAddress(from, nonce)] of [libdevcrypto/Common.cpp]. *)
Definition toAddress (from : Address) (nonce : Z) : result Address :=
  s ← appendList 2 emptyStream;
  s ← streamAll [append_data from false; append_u256 nonce] s;
  bs ← out s; Ok (right160 (sha3 bs)).

Definition submit (now : Z) (t : Transaction) (p : TxPool) : result (h256 * Address) * TxPool :=
  match pool_import now t p with
  | Throw e => (Throw e, p)
  | Ok (r, t, p) =>
      (if bool_decide (r = Success) then
         '(h, t) ← tx_sha3 version WithSignature t;
         a ← toAddress (fst (safeSender version t)) (tx_nonce t); Ok (h, a)
       else Throw TransactionRefused, p)
  end.

(** ** Known transactions *)
Definition removeTransactionKnowBy (h : h256) (p : TxPool) : TxPool :=
  set_known (delete h (m_transactionKnownBy p)) p.

Definition setTransactionIsKnownBy (id : h512) (p : TxPool) (h : h256) : TxPool :=
  set_known (<[h := {[id]} ∪ default ∅ (m_transactionKnownBy p !! h)]> (m_transactionKnownBy p)) p.

Definition setTransactionsAreKnownBy (hs : list h256) (id : h512) (p : TxPool) : TxPool :=
  foldl (setTransactionIsKnownBy id) p hs.

Definition isTransactionKnownBy (h : h256) (id : h512) (p : TxPool) : bool :=
  match m_transactionKnownBy p !! h with Some s => bool_decide (id ∈ s) | None => false end.

Definition isTransactionKnownBySomeone (h : h256) (p : TxPool) : bool :=
  match m_transactionKnownBy p !! h with
  | Some s => negb (bool_decide (s = ∅))
  | None => false
  end.

(** ** Dropping *)
Definition pool_drop (h : h256) (p : TxPool) : result (bool * TxPool) :=
  if negb (known h p) then Ok (false, p)
  else
    let p := set_dropped (if Z.of_nat (size (m_dropped p)) <? m_limit p
                          then {[h]} ∪ m_dropped p else ∅) p in
    '(succ, p) ← removeTrans h false None p;
    Ok (succ, removeTransactionKnowBy h p).

Abbreviation PoolBlock := (Block Transaction Rcpt).

Definition constructTransactionReceipt (t : Transaction) (r : Rcpt) (b : PoolBlock) (index : Z)
    : LocalisedReceipt Rcpt :=
  Localised r (txHash t) (headerHash b) (m_number (b_header b)) (fst (safeSender version t))
    (tx_receiveAddress t) index.

Definition removeBlockKnowTrans (b : PoolBlock) (p : TxPool) : TxPool :=
  foldl (fun p t => removeTransactionKnowBy (txHash t) p) p (b_transactions b).

(** The loop of [dropTransactions] from index [i] on. *)
Fixpoint dropLoop (b : PoolBlock) (i : nat) (txs : list Transaction) (succ : bool) (p : TxPool)
    : result (bool * TxPool) :=
  match txs with
  | [] => Ok (succ, p)
  | t :: txs' =>
      let receipt := (fun r => constructTransactionReceipt t r b (Z.of_nat i)) <$> b_receipts b !! i in
      '(removed, p) ← removeTrans (txHash t) true receipt p;
      dropLoop b (S i) txs' (succ && removed) p
  end.

Definition dropTransactions (b : PoolBlock) (p : TxPool) : result (bool * TxPool) :=
  if getTransactionSize b =? 0 then Ok (true, p) else dropLoop b 0 (b_transactions b) true p.

Definition handleBadBlock (b : PoolBlock) (p : TxPool) : bool * TxPool := (true, p).

Definition dropBlockTrans (c : NonceChain) (b : PoolBlock) (p : TxPool) : result (bool * TxPool) :=
  let p := set_checks (updateCache c false (m_txNonceCheck p)) (m_commonNonceCheck p) p in
  '(ret, p) ← dropTransactions b p;
  let p := removeBlockKnowTrans b p in
  Ok (ret, set_checks (m_txNonceCheck p) (delCache_txs (b_transactions b) (m_commonNonceCheck p)) p).

(** ** Reading the queue *)

(** The scan of [topTransactions]: the transactions returned, the expired ones
    met on the way, and the updated [_avoid]. *)
Fixpoint topScan (n : NonceCheck) (limit : Z) (updateAvoid : bool) (q : list (nat * Transaction))
    (txCnt : Z) (avoid : gset h256) : list Transaction * list Transaction * gset h256 :=
  match q with
  | [] => ([], [], avoid)
  | (_, t) :: q' =>
      if negb (txCnt <? limit) then ([], [], avoid)
      else if negb (isBlockLimitOk t n) then
        let '(ret, invalid, avoid) := topScan n limit updateAvoid q' txCnt avoid in
        (ret, t :: invalid, avoid)
      else if bool_decide (txHash t ∈ avoid) then topScan n limit updateAvoid q' txCnt avoid
      else
        let avoid := if updateAvoid then {[txHash t]} ∪ avoid else avoid in
        let '(ret, invalid, avoid) := topScan n limit updateAvoid q' (txCnt + 1) avoid in
        (t :: ret, invalid, avoid)
  end.

(** The expired transactions leave the queue for [m_dropped]. *)
Fixpoint dropInvalid (hs : list h256) (p : TxPool) : result TxPool :=
  match hs with
  | [] => Ok p
  | h :: hs' =>
      '(_, p) ← removeTrans h false None p;
      dropInvalid hs' (set_dropped ({[h]} ∪ m_dropped p) p)
  end.

Definition topTransactions (limit0 : Z) (avoid : gset h256) (updateAvoid : bool) (p : TxPool)
    : result (list Transaction * gset h256 * TxPool) :=
  let limit := Z.min (m_limit p) limit0 in
  let '(ret, invalid, avoid) := topScan (m_txNonceCheck p) limit updateAvoid (m_txsQueue p) 0 avoid in
  p ← dropInvalid (map txHash invalid) p;
  let p := set_checks (m_txNonceCheck p)
             (foldl (fun c key => delCache_key key c) (m_commonNonceCheck p) (map generateKey invalid)) p in
  Ok (ret, avoid, foldl (fun p h => removeTransactionKnowBy h p) p (map txHash invalid)).

(** [topTransactions(limit)]. *)
Definition topTransactions_all (limit : Z) (p : TxPool) : result (list Transaction * TxPool) :=
  '(ret, _, p) ← topTransactions limit ∅ false p; Ok (ret, p).

Fixpoint conditionScan (limit : Z) (id : h512) (p : TxPool) (q : list (nat * Transaction)) (txCnt : Z)
    : list Transaction :=
  match q with
  | [] => []
  | (_, t) :: q' =>
      if negb (txCnt <? limit) then []
      else if negb (isTransactionKnownBy (txHash t) id p)
      then t :: conditionScan limit id p q' (txCnt + 1)
      else conditionScan limit id p q' txCnt
  end.

Definition topTransactionsCondition (limit0 : Z) (id : h512) (p : TxPool) : list Transaction :=
  conditionScan (Z.min (m_limit p) limit0) id p (m_txsQueue p) 0.

Definition pendingList (p : TxPool) : list Transaction := map snd (m_txsQueue p).
Definition pendingSize (p : TxPool) : Z := lenZ (m_txsQueue p).
Definition isFull (p : TxPool) : bool := m_limit p <=? lenZ (m_txsQueue p).

(** [status]: the numbers of pending and of dropped transactions. *)
Definition pool_status (p : TxPool) : Z * Z :=
  (lenZ (m_txsQueue p), Z.of_nat (size (m_dropped p))).

Definition txExists (h : h256) (p : TxPool) : bool := isFull p || known h p.

(** [Block::setSenderForTransaction] on one transaction. *)
Definition setSenderForTransaction (a : Address) (t : Transaction) : result Transaction :=
  if bool_decide (a = ZeroAddress) then snd <$> sender version t else Ok (forceSender a t).

(** [verifyAndSetSenderForBlock]: the iterations are independent. *)
Definition verifySender (p : TxPool) (t : Transaction) : result Transaction :=
  match m_txsHash p !! txHash t with
  | Some n =>
      match node_at n (m_txsQueue p) with
      | None => Throw UndefinedBehaviour
      | Some t' => '(a, _) ← sender version t'; setSenderForTransaction a t
      end
  | None => setSenderForTransaction ZeroAddress t
  end.

Definition verifyAndSetSenderForBlock (b : PoolBlock) (p : TxPool) : result PoolBlock :=
  txs ← mapM_result (verifySender p) (b_transactions b); Ok (with_transactions txs b).

(** [clear]: the nonces of the pool stay. *)
Definition pool_clear (p : TxPool) : TxPool :=
  set_known ∅ (set_dropped ∅ (set_queue [] ∅ (m_nextNode p) p)).

Definition setTxPoolLimit (l : Z) (p : TxPool) : TxPool :=
  {| m_txNonceCheck := m_txNonceCheck p; m_commonNonceCheck := m_commonNonceCheck p; m_limit := l;
     m_chainId := m_chainId p; m_groupId := m_groupId p; m_txsQueue := m_txsQueue p;
     m_txsHash := m_txsHash p; m_dropped := m_dropped p;
     m_transactionKnownBy := m_transactionKnownBy p; m_nextNode := m_nextNode p;
     m_callbacks := m_callbacks p; m_ready := m_ready p |}.

Definition setMaxBlockLimit (l : Z) (p : TxPool) : TxPool :=
  set_checks (nonce_setBlockLimit l (m_txNonceCheck p)) (m_commonNonceCheck p) p.

(** ** Runs *)
Inductive pool_op : Type :=
  | PImport (now : Z) (t : Transaction)
  | PImportBytes (now : Z) (bs : bytes)
  | PDrop (h : h256)
  | PBlock (c : NonceChain) (b : PoolBlock)
  | PTop (limit : Z) (avoid : gset h256) (updateAvoid : bool)
  | PKnown (hs : list h256) (id : h512)
  | PClear.

Definition pool_step (o : pool_op) (p : TxPool) : result TxPool :=
  match o with
  | PImport now t => '(_, _, p) ← pool_import now t p; Ok p
  | PImportBytes now bs => snd <$> pool_import_bytes now bs p
  | PDrop h => snd <$> pool_drop h p
  | PBlock c b => snd <$> dropBlockTrans c b p
  | PTop limit avoid u => snd <$> topTransactions limit avoid u p
  | PKnown hs id => Ok (setTransactionsAreKnownBy hs id p)
  | PClear => Ok (pool_clear p)
  end.

(** An exception leaves the pool unchanged: [sha3] of an unsigned transaction is
    the only source of one in [import], before any change. *)
Fixpoint pool_run (os : list pool_op) (p : TxPool) : TxPool :=
  match os with
  | [] => p
  | o :: os' => pool_run os' (from_ok p (pool_step o p))
  end.

(** ** Invariant *)
Definition earlier (x y : nat * Transaction) : Prop := tx_importTime x.2 <= tx_importTime y.2.

Record pool_wf (p : TxPool) : Prop := {
  (** every iterator of the index designates a node of the queue with its hash *)
  pw_index : forall h n, m_txsHash p !! h = Some n <->
    exists t, (n, t) ∈ m_txsQueue p /\ txHash t = h;
  pw_nodes : NoDup (map fst (m_txsQueue p));
  pw_fresh : forall n t, (n, t) ∈ m_txsQueue p -> (n < m_nextNode p)%nat;
  pw_sorted : StronglySorted earlier (m_txsQueue p);
  pw_limit : lenZ (m_txsQueue p) <= Z.max 0 (m_limit p)
}.

(** ** The queue *)
Section Queue.
Implicit Types q : list (nat * Transaction).

Lemma node_at_elem q n t : NoDup (map fst q) -> (n, t) ∈ q <-> node_at n q = Some t.
Proof.
  induction q as [|[m u] q IH]; cbn; [set_solver |]. intros [Hm Hnd]%NoDup_cons.
  rewrite elem_of_cons. destruct (Nat.eqb_spec m n) as [->|Hne].
  - split; [| naive_solver]. intros [?|Hin]; [by simplify_eq |]. destruct Hm.
    apply list_elem_of_fmap. by exists (n, t).
  - rewrite <- IH by done. naive_solver.
Qed.

Lemma emplace_perm x q : emplace x q ≡ₚ x :: q.
Proof.
  induction q as [|y q IH]; cbn; [done |]. destruct (_ <=? _); [done |]. rewrite IH. constructor.
Qed.

Lemma emplace_sorted x q : StronglySorted earlier q -> StronglySorted earlier (emplace x q).
Proof.
  induction 1 as [|y q Hs IH Hy]; cbn; [by repeat constructor |].
  destruct (Z.leb_spec (tx_importTime x.2) (tx_importTime y.2)).
  - constructor; [by constructor |]. constructor; [done |]. eapply Forall_impl; [exact Hy |].
    unfold earlier. lia.
  - constructor; [done |]. rewrite emplace_perm. constructor; [unfold earlier; lia | done].
Qed.

Lemma sorted_filter (P : nat * Transaction -> Prop) `{forall x, Decision (P x)} q :
  StronglySorted earlier q -> StronglySorted earlier (filter P q).
Proof.
  induction 1 as [|y q Hs IH Hy]; [constructor |]. rewrite filter_cons. case_decide; [| done].
  constructor; [done |]. apply Forall_forall. intros z [_ Hz]%list_elem_of_filter.
  rewrite Forall_forall in Hy. by apply Hy.
Qed.

Lemma filter_ext_in {A} (P Q : A -> Prop) `{forall x, Decision (P x), forall x, Decision (Q x)}
    (l : list A) : (forall x, x ∈ l -> P x <-> Q x) -> filter P l = filter Q l.
Proof.
  induction l as [|x l IH]; intros Hl; [done |]. rewrite !filter_cons.
  pose proof (Hl x ltac:(set_solver)). rewrite IH by (intros; apply Hl; set_solver).
  repeat case_decide; naive_solver.
Qed.

Lemma filter_all {A} (P : A -> Prop) `{forall x, Decision (P x)} (l : list A) :
  (forall x, x ∈ l -> P x) -> filter P l = l.
Proof.
  induction l as [|x l IH]; intros Hl; [done |]. rewrite filter_cons, decide_True, IH; [done | |];
    intros; apply Hl; set_solver.
Qed.

Lemma map_filter_fst n q : map fst (erase n q) = filter (fun m => m <> n) (map fst q).
Proof.
  unfold erase. induction q as [|y q IH]; [done |]. cbn [map]. rewrite !filter_cons.
  destruct (decide (y.1 <> n)); cbn [map]; [by rewrite IH | done].
Qed.
End Queue.

(** ** The operations keep the invariant *)

(** The components the invariant reads. *)
Definition same_queue (p p' : TxPool) : Prop :=
  m_txsQueue p' = m_txsQueue p /\ m_txsHash p' = m_txsHash p /\ m_nextNode p' = m_nextNode p /\
  m_limit p' = m_limit p.

Lemma wf_same p p' : same_queue p p' -> pool_wf p -> pool_wf p'.
Proof. intros (E1 & E2 & E3 & E4) [? ? ? ? ?]. split; rewrite ?E1, ?E2, ?E3, ?E4; done. Qed.

Lemma new_wf c limit chainId groupId : pool_wf (newPool c limit chainId groupId).
Proof.
  split; cbn; [| constructor | set_solver | constructor | unfold lenZ; cbn; lia].
  intros h n. rewrite lookup_empty. set_solver.
Qed.

Lemma same_hash p n n' t t' : pool_wf p -> (n, t) ∈ m_txsQueue p -> (n', t') ∈ m_txsQueue p ->
  txHash t = txHash t' -> n = n' /\ t = t'.
Proof.
  intros Hw Hn Hn' Eh.
  pose proof (proj2 (pw_index p Hw (txHash t) n) (ex_intro _ t (conj Hn eq_refl))) as E1.
  pose proof (proj2 (pw_index p Hw (txHash t) n') (ex_intro _ t' (conj Hn' (eq_sym Eh)))) as E2.
  rewrite E1 in E2. simplify_eq. split; [done |].
  apply (node_at_elem _ _ _ (pw_nodes p Hw)) in Hn, Hn'. congruence.
Qed.

Lemma call_back_same cb r p : same_queue p (call_back cb r p).
Proof. by destruct cb. Qed.

Lemma wf_index_node p h n : pool_wf p -> m_txsHash p !! h = Some n ->
  exists t, node_at n (m_txsQueue p) = Some t /\ txHash t = h /\ (n, t) ∈ m_txsQueue p.
Proof.
  intros Hw Hh. destruct (proj1 (pw_index p Hw h n) Hh) as (t & Hin & Et). exists t.
  split_and!; [| done | done]. by apply node_at_elem, Hin; apply pw_nodes.
Qed.

(** Erasing the node that the index holds for [h]. *)
Lemma erase_wf p h n : pool_wf p -> m_txsHash p !! h = Some n ->
  pool_wf (set_queue (erase n (m_txsQueue p)) (delete h (m_txsHash p)) (m_nextNode p) p).
Proof.
  intros Hw Hh. destruct (wf_index_node p h n Hw Hh) as (t & _ & Et & Hin).
  destruct Hw as [Hi Hn Hf Hs Hl] eqn:Ew. split; cbn.
  - intros h' n'. rewrite lookup_delete_Some, Hi. unfold erase. split.
    + intros (Hne & t' & Hin' & Et'). exists t'. split; [| done]. apply list_elem_of_filter.
      split; [| done]. cbn. intros ->. destruct Hne.
      apply (node_at_elem _ _ _ Hn) in Hin, Hin'. congruence.
    + intros (t' & [Hne Hin']%list_elem_of_filter & Et'). cbn in Hne. split; [| by exists t'].
      intros ->. destruct (same_hash p n n' t t' Hw Hin Hin' ltac:(congruence)) as [-> _]. done.
  - rewrite map_filter_fst. by apply NoDup_filter.
  - intros n' t' [_ Hin']%list_elem_of_filter. by apply (Hf n' t').
  - by apply sorted_filter.
  - unfold erase, lenZ in *. pose proof (length_filter (fun y : nat * Transaction => y.1 <> n) (m_txsQueue p)). lia.
Qed.

Lemma removeTrans_wf h tr r p : pool_wf p ->
  exists b p', removeTrans h tr r p = Ok (b, p') /\ pool_wf p' /\
    m_dropped p' = m_dropped p /\ m_txNonceCheck p' = m_txNonceCheck p /\
    m_commonNonceCheck p' = m_commonNonceCheck p /\ m_limit p' = m_limit p /\
    pendingList p' = filter (fun t => txHash t <> h) (pendingList p).
Proof.
  intros Hw. unfold removeTrans. destruct (m_txsHash p !! h) as [n|] eqn:Eh.
  - destruct (wf_index_node p h n Hw Eh) as (t & -> & Et & Hin).
    set (p1 := match tr with true => _ | false => _ end).
    assert (same_queue p p1 /\ m_dropped p1 = m_dropped p /\ m_txNonceCheck p1 = m_txNonceCheck p /\
      m_commonNonceCheck p1 = m_commonNonceCheck p) as (Hsq & ? & ? & ?).
    { unfold p1. destruct tr, r; try done. unfold call_back. by destruct (tx_rpcCallback t). }
    pose proof (wf_same _ _ Hsq Hw) as Hw1. destruct Hsq as (Eq & Ehs & _ & El).
    eexists _, _. split_and!; [done | apply erase_wf; [done | by rewrite Ehs] | done .. |].
    unfold pendingList, erase. cbn. rewrite Eq. clear -Hw Hin Et.
    assert (forall l, l ⊆ m_txsQueue p -> map snd (filter (fun y => y.1 <> n) l)
      = filter (fun t => txHash t <> h) (map snd l)) as Hf; [| by apply Hf].
    induction l as [|[m u] l IH]; intros Hsub; [done |]. cbn [map]. rewrite !filter_cons. cbn [fst snd].
    rewrite <- IH by set_solver.
    assert (m <> n <-> txHash u <> h) as Hiff; [| by repeat case_decide; naive_solver].
    assert ((m, u) ∈ m_txsQueue p) as Hm by set_solver. split; intros Hne E; apply Hne.
    + by apply (same_hash p m n u t Hw Hm Hin); rewrite Et.
    + subst m. apply (node_at_elem _ _ _ (pw_nodes p Hw)) in Hin, Hm. congruence.
  - exists false, p. split_and!; try done. unfold pendingList.
    symmetry. apply filter_all. intros t [[n u] [-> Hin]]%list_elem_of_fmap E.
    assert (m_txsHash p !! h = Some n); [| congruence]. apply (pw_index p Hw). by exists u.
Qed.

Lemma insert_wf t p : pool_wf p -> lenZ (m_txsQueue p) < m_limit p -> pool_wf (snd (pool_insert t p)).
Proof.
  intros Hw Hlt. unfold pool_insert, known. case_bool_decide as Hk; [done |]. cbn [snd].
  rewrite <- eq_None_not_Some in Hk. destruct Hw as [Hi Hn Hf Hs Hl]. split; cbn.
  - intros h n. rewrite lookup_insert_Some, Hi. setoid_rewrite emplace_perm.
    setoid_rewrite elem_of_cons. split.
    + intros [[<- <-]|(Hne & t' & Hin & E)]; [exists t; naive_solver | exists t'; naive_solver].
    + intros (t' & [?|Hin] & <-); [left; by simplify_eq |].
      right. split; [| by exists t']. intros E.
      assert (m_txsHash p !! txHash t = Some n); [| congruence]. apply Hi. by exists t'.
  - rewrite emplace_perm. cbn. constructor; [| done].
    intros [[n t'] [E Hin]]%list_elem_of_fmap. cbn in E. subst n. apply Hf in Hin. lia.
  - intros n t'. rewrite emplace_perm, elem_of_cons. intros [?|Hin%Hf]; [simplify_eq; lia | lia].
  - by apply emplace_sorted.
  - unfold lenZ in *. rewrite emplace_perm. cbn. lia.
Qed.

Lemma same_refl p : same_queue p p.
Proof. done. Qed.

Lemma limit_check_same t ins p : same_queue p (snd (isBlockLimitOrNonceOk t ins p)).
Proof. unfold isBlockLimitOrNonceOk. destruct (_ =? _); [done |]. by destruct (nonce_ok _ _ _). Qed.

Lemma pool_check_same t p : same_queue p (snd (txPoolNonceCheck t p)).
Proof. unfold txPoolNonceCheck. by destruct (isNonceOk _ _ _). Qed.

Lemma same_trans p q r : same_queue p q -> same_queue q r -> same_queue p r.
Proof. intros (E1 & E2 & E3 & E4) (F1 & F2 & F3 & F4). split_and!; congruence. Qed.

Lemma verify_same t pol ins p r t' p' : pool_verify t pol ins p = Ok (r, t', p') -> same_queue p p'.
Proof.
  unfold pool_verify. destruct (tx_sha3 _ _ _) as [[h t1]|]; [| done]. cbn [mbind result_bind].
  destruct (known h p); [by intros [= <- <- <-] |]. destruct (_ && _); [by intros [= <- <- <-] |].
  pose proof (limit_check_same t1 ins p) as H1. destruct (isBlockLimitOrNonceOk t1 ins p) as [b1 p1].
  cbn in H1. destruct (negb b1); [by intros [= <- <- <-] |].
  destruct (sender version t1) as [[a t2]|]; [| by intros [= <- <- <-]].
  pose proof (same_trans _ _ _ H1 (pool_check_same t2 p1)) as H2.
  destruct (txPoolNonceCheck t2 p1) as [b2 p2]. cbn in H2.
  destruct (negb b2); [by intros [= <- <- <-] |]. destruct (negb _); by intros [= <- <- <-].
Qed.

Lemma import_wf now t p r t' p' : pool_wf p -> pool_import now t p = Ok (r, t', p') -> pool_wf p'.
Proof.
  intros Hw. unfold pool_import. destruct (Z.leb_spec (m_limit p) (lenZ (m_txsQueue p))) as [|Hlt].
  { intros E. simplify_eq. by apply (wf_same p); [apply call_back_same |]. }
  destruct (pool_verify _ _ _ p) as [[[r1 t1] p1]|] eqn:Ev; [| done]. cbn [mbind result_bind].
  apply verify_same in Ev as Hsq. pose proof (wf_same _ _ Hsq Hw) as Hw1.
  case_bool_decide; [| by intros [= <- <- <-]].
  assert (lenZ (m_txsQueue p1) < m_limit p1) as Hlt1 by (destruct Hsq as (-> & _ & _ & ->); done).
  pose proof (insert_wf t1 p1 Hw1 Hlt1) as Hw2.
  destruct (pool_insert t1 p1) as [b p2]. cbn in Hw2. destruct b; intros [= <- <- <-]; [| done].
  by apply (wf_same p2).
Qed.

Lemma dropLoop_wf b txs i succ p : pool_wf p ->
  exists s p', dropLoop b i txs succ p = Ok (s, p') /\ pool_wf p'.
Proof.
  revert i succ p. induction txs as [|t txs IH]; intros i succ p Hw; cbn [dropLoop]; [eauto |].
  destruct (removeTrans_wf (txHash t) true ((fun r => constructTransactionReceipt t r b (Z.of_nat i))
    <$> b_receipts b !! i) p Hw) as (s & p' & -> & Hw' & _). cbn [mbind result_bind]. by apply IH.
Qed.

Lemma known_fold {A} (f : A -> h256) l p :
  same_queue p (foldl (fun p t => removeTransactionKnowBy (f t) p) p l).
Proof. revert p. induction l as [|t l IH]; intros p; [done |]. apply (IH (removeTransactionKnowBy (f t) p)). Qed.

Lemma dropInvalid_spec hs p : pool_wf p -> exists p', dropInvalid hs p = Ok p' /\ pool_wf p' /\
  pendingList p' = filter (fun t => txHash t ∉ hs) (pendingList p) /\
  m_dropped p' = list_to_set hs ∪ m_dropped p /\ m_commonNonceCheck p' = m_commonNonceCheck p /\
  m_txNonceCheck p' = m_txNonceCheck p /\ m_limit p' = m_limit p.
Proof.
  revert p. induction hs as [|h hs IH]; intros p Hw; cbn [dropInvalid].
  { exists p. split_and!; try done; [| set_solver]. symmetry. apply filter_all. set_solver. }
  destruct (removeTrans_wf h false None p Hw) as (b & p1 & -> & Hw1 & Ed & En & Ec & El & Ep).
  cbn [mbind result_bind]. set (p2 := set_dropped _ p1).
  destruct (IH p2) as (p' & -> & Hw' & Hp & Hd & Hc & Hn & Hli).
  { apply (wf_same p1); done. }
  exists p'. split_and!; [done | done | | | by rewrite Hc | by rewrite Hn | by rewrite Hli].
  - rewrite Hp. change (pendingList p2) with (pendingList p1). rewrite Ep, list_filter_filter.
    apply list_filter_iff. set_solver.
  - rewrite Hd. cbn [p2 set_dropped m_dropped list_to_set]. rewrite Ed. set_solver.
Qed.

Lemma known_by_same hs id p : same_queue p (setTransactionsAreKnownBy hs id p).
Proof. revert p. induction hs as [|h hs IH]; intros p; [done |]. apply (IH (setTransactionIsKnownBy id p h)). Qed.

Lemma top_run limit0 avoid u p : pool_wf p ->
  exists p', topTransactions limit0 avoid u p =
    (let '(ret, invalid, avoid') :=
       topScan (m_txNonceCheck p) (Z.min (m_limit p) limit0) u (m_txsQueue p) 0 avoid in
     Ok (ret, avoid', p')) /\ pool_wf p' /\
    (let '(_, invalid, _) :=
       topScan (m_txNonceCheck p) (Z.min (m_limit p) limit0) u (m_txsQueue p) 0 avoid in
     pendingList p' = filter (fun t => txHash t ∉ map txHash invalid) (pendingList p) /\
     m_dropped p' = list_to_set (map txHash invalid) ∪ m_dropped p /\
     m_commonNonceCheck p' =
       foldl (fun c key => delCache_key key c) (m_commonNonceCheck p) (map generateKey invalid)).
Proof.
  intros Hw. unfold topTransactions. destruct (topScan _ _ _ _ _ _) as [[ret invalid] avoid'].
  destruct (dropInvalid_spec (map txHash invalid) p Hw) as (p1 & -> & Hw1 & Hp & Hd & Hc & Hn & Hl).
  cbn [mbind result_bind]. set (p2 := set_checks _ _ p1).
  pose proof (known_fold (fun h => h) (map txHash invalid) p2) as Hk. cbn beta in Hk.
  set (p3 := foldl _ p2 _) in *. exists p3.
  assert (m_dropped p3 = m_dropped p2 /\ m_commonNonceCheck p3 = m_commonNonceCheck p2) as [Ed3 Ec3].
  { unfold p3. clearbody p2. clear. revert p2. induction (map txHash invalid) as [|h hs IH]; intros p2; [done |].
    apply (IH (removeTransactionKnowBy h p2)). }
  split_and!; [done | by apply (wf_same p2), (wf_same p1) | | by rewrite Ed3 |].
  - rewrite <- Hp. unfold pendingList. by destruct Hk as (-> & _).
  - rewrite Ec3. cbn [p2 set_checks m_commonNonceCheck]. by rewrite Hc.
Qed.

Lemma step_wf o p p' : pool_wf p -> pool_step o p = Ok p' -> pool_wf p'.
Proof.
  intros Hw. destruct o as [now t|now bs|h|c b|limit avoid u|hs id|]; cbn [pool_step].
  - destruct (pool_import now t p) as [[[r t'] p1]|] eqn:E; [| done]. intros [= <-].
    by apply (import_wf now t p r t').
  - unfold pool_import_bytes. destruct (_ ≫= _) as [[h t]|[]]; try done; try (by intros [= <-]).
    destruct (negb _); [by intros [= <-] |].
    destruct (pool_import now t p) as [[[r t'] p1]|] eqn:E; [| done]. intros [= <-].
    by apply (import_wf now t p r t').
  - unfold pool_drop. destruct (negb _); [by intros [= <-] |]. set (p1 := set_dropped _ p).
    destruct (removeTrans_wf h false None p1) as (s & p2 & -> & Hw2 & _); [by apply (wf_same p) |].
    intros [= <-]. by apply (wf_same p2).
  - unfold dropBlockTrans, dropTransactions. set (p1 := set_checks _ _ p).
    assert (pool_wf p1) as Hw1 by (by apply (wf_same p)).
    assert (exists s p2, (if getTransactionSize b =? 0 then Ok (true, p1)
      else dropLoop b 0 (b_transactions b) true p1) = Ok (s, p2) /\ pool_wf p2) as (s & p2 & -> & Hw2).
    { destruct (_ =? _); [eauto | by apply dropLoop_wf]. }
    intros [= <-]. apply (wf_same p2); [| done]. apply (known_fold txHash).
  - destruct (top_run limit avoid u p Hw) as (p1 & -> & Hw1 & _).
    destruct (topScan _ _ _ _ _ _) as [[ret inv] av]. by intros [= <-].
  - intros [= <-]. apply (wf_same p); [apply known_by_same | done].
  - intros [= <-]. split; cbn; [| constructor | set_solver | constructor | unfold lenZ; cbn; lia].
    intros h n. rewrite lookup_empty. set_solver.
Qed.

Lemma run_wf os p : pool_wf p -> pool_wf (pool_run os p).
Proof.
  revert p. induction os as [|o os IH]; intros p Hw; cbn; [done |]. apply IH.
  destruct (pool_step o p) eqn:E; [by apply (step_wf o p) | done].
Qed.

(** ** The scan of the queue *)
Definition eligible (n : NonceCheck) (avoid : gset h256) (t : Transaction) : Prop :=
  isBlockLimitOk t n = true /\ txHash t ∉ avoid.

#[global] Instance eligible_dec n avoid t : Decision (eligible n avoid t).
Proof. unfold eligible. apply _. Defined.

Lemma wf_hashes p : pool_wf p -> NoDup (map txHash (pendingList p)).
Proof.
  intros Hw. pose proof (pw_nodes p Hw) as Hn. unfold pendingList. rewrite map_map.
  apply NoDup_alt. intros i j x Hi Hj. apply list_lookup_fmap_Some in Hi as ([n t] & -> & Hi).
  apply list_lookup_fmap_Some in Hj as ([n' t'] & E & Hj). cbn in E.
  destruct (same_hash p n n' t t' Hw) as [-> ->]; [by eapply list_elem_of_lookup_2 .. | done |].
  apply (f_equal (fmap fst)) in Hi, Hj. rewrite <- list_lookup_fmap in Hi, Hj.
  by apply (NoDup_lookup _ i j n' Hn).
Qed.

Lemma topScan_ref n limit u q cnt avoid : NoDup (map txHash (map snd q)) ->
  let '(ret, invalid, avoid') := topScan n limit u q cnt avoid in
  ret = take (Z.to_nat (limit - cnt)) (filter (eligible n avoid) (map snd q)) /\
  (forall t, t ∈ invalid -> t ∈ map snd q /\ isBlockLimitOk t n = false) /\
  avoid' = if u then list_to_set (map txHash ret) ∪ avoid else avoid.
Proof.
  revert cnt avoid. induction q as [|[m t] q IH]; intros cnt avoid Hnd; cbn [topScan].
  { cbn. split_and!; [by rewrite take_nil | set_solver | destruct u; set_solver]. }
  cbn [map snd] in *. apply NoDup_cons in Hnd as [Hh Hnd]. rewrite filter_cons.
  destruct (Z.ltb_spec cnt limit); cbn [negb]; cycle 1.
  { replace (Z.to_nat (limit - cnt)) with 0%nat by lia. cbn. split_and!; [done | set_solver | destruct u; set_solver]. }
  destruct (isBlockLimitOk t n) eqn:Eb; cbn [negb]; cycle 1.
  { specialize (IH cnt avoid Hnd). destruct (topScan _ _ _ q _ _) as [[ret inv] av].
    destruct IH as (-> & Hi & Ha). rewrite decide_False by (unfold eligible; intros [? ?]; congruence || done).
    split_and!; [done | | done]. intros t' [->|?]%elem_of_cons; [by split; [left |] |].
    destruct (Hi t'); [done |]. split; [by right | done]. }
  case_bool_decide as Hav.
  { specialize (IH cnt avoid Hnd). destruct (topScan _ _ _ q _ _) as [[ret inv] av].
    rewrite decide_False by (unfold eligible; intros [? ?]; congruence || done). destruct IH as (-> & Hi & Ha).
    split_and!; [done | | done]. intros t' Ht'. destruct (Hi t'); [done |]. split; [by right | done]. }
  set (avoid1 := if u then _ else avoid). specialize (IH (cnt + 1) avoid1 Hnd).
  destruct (topScan _ _ _ q _ _) as [[ret inv] av]. destruct IH as (Hr & Hi & Ha).
  rewrite decide_True by done. replace (Z.to_nat (limit - cnt)) with (S (Z.to_nat (limit - (cnt + 1)))) by lia.
  cbn [take]. split_and!.
  - f_equal. rewrite Hr. f_equal. apply filter_ext_in. intros t' Ht'. unfold eligible, avoid1.
    assert (txHash t' <> txHash t) by (intros E; apply Hh; rewrite <- E; by apply list_elem_of_fmap_2).
    destruct u; set_solver.
  - intros t' Ht'. destruct (Hi t'); [done |]. split; [by right | done].
  - rewrite Ha. unfold avoid1. destruct u; [| done]. cbn. set_solver.
Qed.

(** ** Transactions through the checks *)

(** The members that only the owner of a transaction sets. *)
Definition same_tx (t t' : Transaction) : Prop :=
  tx_nonce t' = tx_nonce t /\ tx_blockLimit t' = tx_blockLimit t /\ tx_chainId t' = tx_chainId t /\
  tx_groupId t' = tx_groupId t /\ tx_importTime t' = tx_importTime t.

Lemma encode_hashWith h trans g t : tx_encode version trans g (set_hashWith h t) = tx_encode version trans g t.
Proof. done. Qed.

Lemma txHash_sender a t : txHash (forceSender a t) = txHash t.
Proof.
  unfold txHash, tx_sha3. change (tx_hashWith (forceSender a t)) with (tx_hashWith t).
  change (tx_encode version [] WithSignature (forceSender a t)) with (tx_encode version [] WithSignature t).
  destruct (bool_decide _); [| done]. by destruct (tx_encode _ _ _ _).
Qed.

Lemma sha3_result t h t1 : tx_sha3 version WithSignature t = Ok (h, t1) -> same_tx t t1 /\ txHash t1 = h.
Proof.
  unfold txHash, tx_sha3. case_bool_decide as Hz.
  - destruct (tx_encode _ _ _ _) as [s|] eqn:E; [| done]. intros [= <- <-]. split; [done |].
    case_bool_decide as Hz'; [| done]. rewrite encode_hashWith, E. done.
  - intros [= <- <-]. split; [done |]. by rewrite bool_decide_false.
Qed.

Lemma sender_result t a t1 : sender version t = Ok (a, t1) -> same_tx t t1 /\ txHash t1 = txHash t.
Proof.
  unfold sender. case_bool_decide; [| by intros [= <- <-]]. destruct (tx_vrs t); [| done].
  unfold tx_sha3. destruct (tx_encode _ _ _ _); [| done]. cbn [mbind result_bind].
  case_bool_decide; [done |]. intros [= <- <-]. split; [done | apply txHash_sender].
Qed.

(** The conditions under which a transaction enters the pool. *)
Record acceptable (t : Transaction) (h : h256) (p : TxPool) : Prop := {
  ac_room : lenZ (m_txsQueue p) < m_limit p;
  ac_new : m_txsHash p !! h = None;
  ac_kept : h ∉ m_dropped p;
  ac_nonce : tx_nonce t <> Invalid256;
  ac_chain : fst (nonce_ok t false (m_txNonceCheck p)) = true;
  ac_signed : is_ok (sender version t) = true;
  ac_pool : tx_nonce t ∉ m_commonNonceCheck p;
  ac_ids : checkChainIdAndGroupId version (m_chainId p) (m_groupId p) t = true
}.

Lemma nonce_ok_same t n : snd (nonce_ok t false n) = n.
Proof.
  unfold nonce_ok, isNonceOk. destruct (negb _); [done |]. destruct n.
  case_decide; cbn; unfold with_cache; done.
Qed.

Lemma verify_success t h t1 p : tx_sha3 version WithSignature t = Ok (h, t1) ->
  lenZ (m_txsQueue p) < m_limit p ->
  exists r t' p', pool_verify t Ignore false p = Ok (r, t', p') /\ same_tx t t' /\ txHash t' = h /\
    (r = Success <-> acceptable t1 h p) /\
    (r = Success -> m_commonNonceCheck p' = {[tx_nonce t]} ∪ m_commonNonceCheck p).
Proof.
  intros Hs Hroom. pose proof (sha3_result t h t1 Hs) as [Ht1 Hh1]. unfold pool_verify. rewrite Hs.
  cbn [mbind result_bind]. unfold known.
  case_bool_decide as Hk; [eexists _, _, _; split_and!; try done; split; [done |]; intros [];
    by rewrite ac_new0 in Hk; destruct Hk |].
  rewrite <- eq_None_not_Some in Hk.
  case_bool_decide as Hd; cbn [andb]; [by eexists _, _, _; split_and!; try done; split; [done |]; intros [] |].
  unfold isBlockLimitOrNonceOk. destruct (Z.eqb_spec (tx_nonce t1) Invalid256) as [Hi|Hi].
  { cbn [negb]. by eexists _, _, _; split_and!; try done; split; [done |]; intros []. }
  destruct (nonce_ok t1 false (m_txNonceCheck p)) as [b n] eqn:En.
  assert (n = m_txNonceCheck p) as -> by (by rewrite <- (nonce_ok_same t1 (m_txNonceCheck p)), En).
  destruct b; cbn [negb]; cycle 1.
  { eexists _, _, _; split_and!; try done; split; [done |]; intros []. by rewrite En in ac_chain0. }
  destruct (sender version t1) as [[a t2]|] eqn:Ese; cycle 1.
  { eexists _, _, _; split_and!; try done; split; [done |]; intros []. by rewrite Ese in ac_signed0. }
  destruct (sender_result _ _ _ Ese) as [Ht2 Hh2].
  assert (same_tx t t2) as Ht by (unfold same_tx in *; intuition congruence).
  destruct Ht1 as (N1 & B1 & C1 & G1 & _), Ht2 as (N2 & B2 & C2 & G2 & _).
  unfold txPoolNonceCheck, isNonceOk, generateKey. cbn [set_checks m_commonNonceCheck].
  rewrite N2. case_decide as Hc; cbn [negb].
  { eexists _, _, _; split_and!; try done; [by rewrite Hh2 |]. split; [done |]. by intros []. }
  unfold checkChainIdAndGroupId. cbn [set_checks m_chainId m_groupId]. rewrite C2, G2.
  destruct (if RC2_VERSION <=? version then _ else _) eqn:Eid; cbn [negb].
  - eexists _, _, _; split_and!; try done; [by rewrite Hh2 | | by rewrite <- N1].
    split; [| done]. intros _. split; rewrite ?En, ?Ese; try done.
  - eexists _, _, _; split_and!; try done; [by rewrite Hh2 |]. split; [done |]. intros [].
    unfold checkChainIdAndGroupId in *. congruence.
Qed.

(** C29: the queue and its index agree, whatever the operations: after any
    sequence of imports, drops, committed blocks, sealing requests and clears,
    every iterator kept in [m_txsHash] designates a live node of the queue with
    that hash, the queue is ordered by import time and within its limit, and
    dropping, committing and sealing never use an iterator whose node is gone. *)
Theorem pool_safe c limit chainId groupId os :
  let p := pool_run os (newPool c limit chainId groupId) in
  pool_wf p /\
  (forall h, is_ok (pool_drop h p) = true) /\
  (forall c' b, is_ok (dropBlockTrans c' b p) = true) /\
  (forall l a u, is_ok (topTransactions l a u p) = true) /\
  (forall t n, m_txsHash p !! txHash t = Some n ->
     exists t', node_at n (m_txsQueue p) = Some t' /\ txHash t' = txHash t).
Proof.
  intros p. assert (pool_wf p) as Hw by apply run_wf, new_wf. split_and!; [done | | | |].
  - intros h. unfold pool_drop. destruct (negb _); [done |].
    destruct (removeTrans_wf h false None (set_dropped (if Z.of_nat (size (m_dropped p)) <? m_limit p
      then {[h]} ∪ m_dropped p else ∅) p)) as (s & p2 & -> & _); [by apply (wf_same p) | done].
  - intros c' b. unfold dropBlockTrans, dropTransactions. destruct (_ =? 0); [done |].
    edestruct (dropLoop_wf b (b_transactions b) 0 true) as (s & p2 & -> & _); [by apply (wf_same p) | done].
  - intros l a u. destruct (top_run l a u p Hw) as (p1 & -> & _).
    by destruct (topScan _ _ _ _ _ _) as [[ret inv] av].
  - intros t n Hn. destruct (wf_index_node p _ n Hw Hn) as (t' & ? & ? & _). by exists t'.
Qed.

(** Sealing takes the oldest eligible transactions: [topTransactions] returns,
    in import order, the first transactions that have not expired and are not
    to be avoided, up to the limit; it removes only expired ones, which are
    remembered as dropped and whose nonces are free again. *)
Theorem top_transactions_spec limit0 avoid u p :
  pool_wf p ->
  exists avoid' p', topTransactions limit0 avoid u p =
    Ok (take (Z.to_nat (Z.min (m_limit p) limit0))
          (filter (eligible (m_txNonceCheck p) avoid) (pendingList p)), avoid', p') /\
    filter (fun t => isBlockLimitOk t (m_txNonceCheck p) = true) (pendingList p') =
      filter (fun t => isBlockLimitOk t (m_txNonceCheck p) = true) (pendingList p) /\
    forall t, t ∈ pendingList p -> t ∉ pendingList p' ->
      isBlockLimitOk t (m_txNonceCheck p) = false /\ txHash t ∈ m_dropped p' /\
      tx_nonce t ∉ m_commonNonceCheck p'.
Proof.
  intros Hw. destruct (top_run limit0 avoid u p Hw) as (p' & E & Hw' & Hp).
  pose proof (topScan_ref (m_txNonceCheck p) (Z.min (m_limit p) limit0) u (m_txsQueue p) 0 avoid
    (wf_hashes p Hw)) as Hs.
  destruct (topScan _ _ _ _ _ _) as [[ret inv] av]. destruct Hs as (-> & Hi & _), Hp as (Hp & Hd & Hc).
  rewrite Z.sub_0_r in E. exists av, p'. split; [exact E |].
  assert (forall t, t ∈ pendingList p -> txHash t ∈ map txHash inv -> t ∈ inv) as Hmem.
  { intros t [[n t1] [-> Hn]]%list_elem_of_fmap (t' & Eh & Ht')%list_elem_of_fmap.
    destruct (Hi t' Ht') as [[[n' t2] [-> Hn']]%list_elem_of_fmap _].
    by destruct (same_hash p n n' t1 t2 Hw Hn Hn' Eh) as [_ ->]. }
  split.
  - rewrite Hp, list_filter_filter. apply filter_ext_in. intros t Ht. split; [by intros [? _] |].
    intros Hok. split; [done |]. intros Hin%(Hmem t Ht). destruct (Hi t Hin). congruence.
  - intros t Ht Hnot. destruct (decide (txHash t ∈ map txHash inv)) as [Hin|Hnin].
    + pose proof (Hmem t Ht Hin) as Hti. destruct (Hi t Hti) as [_ ->].
      rewrite Hd, Hc. split_and!; [done | set_solver |].
      assert (forall l m x, x ∈ foldl (fun c key => delCache_key key c) m l <-> x ∈ m /\ x ∉ l) as Hf.
      { clear. induction l as [|k l IH]; intros m x; cbn; [set_solver |].
        rewrite IH, elem_delCache_key. set_solver. }
      rewrite Hf. intros [_ Hn]. apply Hn. by apply list_elem_of_fmap_2.
    + destruct Hnot. rewrite Hp. by apply list_elem_of_filter.
Qed.

(** C30: a transaction is accepted exactly when the pool has room, it is neither
    known nor dropped, its nonce is valid, unused in the recent blocks and in
    the pool, its block limit is in range, its sender can be recovered and its
    chain and group are the node's; then it joins the queue and its nonce is
    taken, otherwise the queue is unchanged. *)
Theorem import_accepts_iff now t h t1 p :
  pool_wf p -> tx_sha3 version WithSignature (setImportTime now t) = Ok (h, t1) ->
  exists r t' p', pool_import now t p = Ok (r, t', p') /\
    (r = Success <-> acceptable t1 h p) /\
    (r = Success -> pendingList p' ≡ₚ t' :: pendingList p /\ tx_nonce t ∈ m_commonNonceCheck p' /\
       same_tx (setImportTime now t) t') /\
    (r <> Success -> pendingList p' = pendingList p).
Proof.
  intros Hw Hs. unfold pool_import.
  destruct (Z.leb_spec (m_limit p) (lenZ (m_txsQueue p))) as [Hfull|Hroom].
  { eexists _, _, _. split_and!; [done | | done |].
    - split; [done |]. intros []. lia.
    - intros _. unfold pendingList. by destruct (call_back_same (tx_rpcCallback (setImportTime now t)) TxPoolIsFull p) as (-> & _). }
  destruct (verify_success _ h t1 p Hs Hroom) as (r & t' & p' & Ev & Ht & Hh & Hiff & Hn).
  rewrite Ev. cbn [mbind result_bind]. destruct (verify_same _ _ _ _ _ _ _ Ev) as (Eq & Ehs & _ & _).
  case_bool_decide as Hr; cycle 1.
  { eexists _, _, _. split_and!; [done | done | done |]. intros _. unfold pendingList. by rewrite Eq. }
  pose proof (proj1 Hiff Hr) as Hac. unfold pool_insert, known. rewrite Hh, Ehs, (ac_new _ _ _ Hac).
  rewrite bool_decide_false by (intros [? ?]; done).
  eexists _, _, _. split_and!; [done | done | | done]. intros _. cbn.
  unfold pendingList, insertCache, generateKey. cbn [m_txsQueue].
  split_and!; [| rewrite Hn by done; destruct Ht as (-> & _); cbn; set_solver | done].
  cbn. rewrite Eq. change (t' :: map snd (m_txsQueue p)) with (map snd ((m_nextNode p', t') :: m_txsQueue p)).
  by rewrite emplace_perm.
Qed.
End TxPool.

(** ** A sample pool *)
Section Sample.
#[local] Existing Instances toy_crypto toy_recover.

Definition tx_of (gasPrice nonce groupId : Z) : Transaction :=
  updateSignature (Some {| sig_r := zeros 31 ++ [9]; sig_s := zeros 31 ++ [7]; sig_v := 1 |})
    (setBlockLimit 500 (messageCall 10 gasPrice 3000000 (replicate 20 5) [1; 2; 3] nonce 1 groupId)).

Definition chain_of (blocks : Z -> list Transaction) (n : Z) : NonceChain :=
  {| nc_number := n; nc_getBlockByNumber := fun i => Some (blocks i);
     nc_getNonces := fun i => map tx_nonce (blocks i) |}.

Definition sample_pool : TxPool (Rcpt := Z) :=
  pool_run RC3_VERSION [PImport 30 (tx_of 1 7 1); PImport 10 (tx_of 2 8 1); PImport 20 (tx_of 3 9 1)]
    (newPool (chain_of (fun _ => []) 0) 100 1 1).

(** Three transactions, ordered by import time. *)
Example sample_queue : map tx_nonce (pendingList sample_pool) = [8; 9; 7].
Proof. vm_compute. reflexivity. Qed.

Definition block_with (t : Transaction) : Block Transaction Z := with_transactions [t] emptyBlock.

Definition committed_tx : Transaction := tx_of 5 8 1.
Definition chain_after : NonceChain := chain_of (fun i => if i =? 1 then [committed_tx] else []) 1.
Definition pool_after : result (bool * TxPool) :=
  dropBlockTrans RC3_VERSION chain_after (block_with committed_tx) sample_pool.

(** Sealing does not check nonces again: a transaction whose nonce was used by
    another one in a committed block is still returned by [topTransactions],
    although the nonce check refuses it. *)
Theorem sealed_nonce_not_rechecked :
  let A := nth 0 (pendingList sample_pool) emptyTx in
  let p := from_ok sample_pool (snd <$> pool_after) in
  tx_nonce A = tx_nonce committed_tx /\ is_ok pool_after = true /\
  fst (nonce_ok A false (m_txNonceCheck p)) = false /\
  (fun r => r.1.1) <$> topTransactions RC3_VERSION 1 ∅ false p = Ok [A].
Proof. split_and!; vm_compute; reflexivity. Qed.

(** A transaction for another group is refused after its nonce was recorded, and
    the nonce stays taken: the sender's transaction for this group is refused. *)
Theorem wrong_group_takes_nonce :
  let verdict (r : result (ImportResult * Transaction * TxPool (Rcpt := Z))) := (fun x => x.1.1) <$> r in
  let foreign := pool_import RC3_VERSION 40 (tx_of 1 11 9) sample_pool in
  let p := from_ok sample_pool (snd <$> foreign) in
  verdict foreign = Ok InvalidChainIdOrGroupId /\ pendingList p = pendingList sample_pool /\
  verdict (pool_import RC3_VERSION 50 (tx_of 1 11 1) p) = Ok TxPoolNonceCheckFail /\
  verdict (pool_import RC3_VERSION 50 (tx_of 1 11 1) sample_pool) = Ok Success.
Proof. split_and!; vm_compute; reflexivity. Qed.

Lemma sample_pool_wf : pool_wf RC3_VERSION sample_pool.
Proof. apply run_wf, new_wf. Qed.

Lemma top_transactions_spec_witness :
  exists avoid' p', topTransactions RC3_VERSION 2 ∅ true sample_pool =
    Ok (take (Z.to_nat (Z.min (m_limit sample_pool) 2))
          (filter (eligible RC3_VERSION (m_txNonceCheck sample_pool) ∅) (pendingList sample_pool)),
        avoid', p').
Proof.
  destruct (top_transactions_spec RC3_VERSION 2 ∅ true sample_pool sample_pool_wf) as (a & p & E & _).
  exists a, p. exact E.
Defined.

Definition new_tx : Transaction := tx_of 1 11 1.
Definition new_tx_hashed : h256 * Transaction :=
  from_ok (h256_0, emptyTx) (tx_sha3 RC3_VERSION WithSignature (setImportTime 40 new_tx)).

Lemma import_accepts_iff_witness :
  exists r t' p', pool_import RC3_VERSION 40 new_tx sample_pool = Ok (r, t', p') /\
    (r = Success <-> acceptable RC3_VERSION new_tx_hashed.2 new_tx_hashed.1 sample_pool).
Proof.
  destruct (import_accepts_iff RC3_VERSION 40 new_tx new_tx_hashed.1 new_tx_hashed.2 sample_pool
    sample_pool_wf ltac:(vm_compute; reflexivity)) as (r & t' & p' & E & Hiff & _).
  exists r, t', p'. exact (conj E Hiff).
Defined.

Example new_tx_accepted : (fun x => x.1.1) <$> pool_import RC3_VERSION 40 new_tx sample_pool = Ok Success.
Proof. vm_compute. reflexivity. Qed.
End Sample.
