(* ===== verification/Receipt.v ===== *)
(** * Log entries and transaction receipts

    [libethcore/LogEntry.*] and [TransactionReceipt.*] with the bloom filters of
    [libdevcore/FixedHash.h]: construction, RLP form and the filter of a
    receipt. *)

From S2P Require Import Prelude CommonData RLP PBFTMsg BlockHeader Transaction.

(** ** Bloom filters *)

(** [operator|=] and [contains] of [FixedHash]. *)
Definition hash_or (a b : bytes) : bytes := zip_with Z.lor a b.
Definition hash_and (a b : bytes) : bytes := zip_with Z.land a b.
Definition hash_contains (a c : bytes) : bool := bool_decide (hash_and a c = c).

(** [bloomPart<3, 256>] of a 32-byte hash: three 11-bit indices, each from two
    bytes. *)
Definition bloomIndex (h : h256) (i : nat) : Z :=
  Z.land (Z.lor (Z.shiftl (nth (2 * i) h 0) 8) (nth (2 * i + 1) h 0)) 2047.

Definition setBit (ret : bytes) (index : Z) : bytes :=
  let pos := Z.to_nat (255 - index / 8) in
  alter (fun b => Z.lor b (Z.shiftl 1 (index mod 8))) pos ret.

Definition bloomPart (h : h256) : bytes :=
  foldl setBit LogBloom_0 (map (bloomIndex h) [0; 1; 2]%nat).

Definition shiftBloom (b : bytes) (h : h256) : bytes := hash_or b (bloomPart h).
Definition containsBloom (b : bytes) (h : h256) : bool := hash_contains b (bloomPart h).

(** ** Log entries *)
Record LogEntry := mkLog { log_address : Address; log_topics : list h256; log_data : bytes }.

Definition emptyLog : LogEntry := mkLog ZeroAddress [] [].

Definition log_ops (l : LogEntry) : list (RLPStream -> result RLPStream) :=
  [append_data (log_address l) false; appendVector (fun t => append_data t false) (log_topics l);
   append_data (log_data l) false].

Definition log_streamRLP (l : LogEntry) (s : RLPStream) : result RLPStream :=
  s ← appendList 3 s; streamAll (log_ops l) s.

(** [LogEntry(RLP)]; its [assert] is not compiled in release builds. *)
Definition log_of_rlp (r : RLP) : result LogEntry :=
  '(a, r) ← field 0 (toHash 20 Strict) r;
  '(t, r) ← field 1 (toVector (toHash 32) LaissezFaire) r;
  '(d, _) ← field 2 (toBytes LaissezFaire) r;
  Ok (mkLog a t d).

(** ** Receipts *)
Record TransactionReceipt := mkReceipt {
  rc_stateRoot : h256;
  rc_gasUsed : Z;
  rc_contractAddress : Address;
  rc_bloom : bytes;
  (** [TransactionException], a [uint32_t] *)
  rc_status : Z;
  rc_outputBytes : bytes;
  rc_log : list LogEntry
}.

Definition emptyReceipt : TransactionReceipt :=
  mkReceipt h256_0 0 ZeroAddress LogBloom_0 0 [] [].

Definition setReceiptStateRoot (x : h256) (r : TransactionReceipt) : TransactionReceipt :=
  mkReceipt x (rc_gasUsed r) (rc_contractAddress r) (rc_bloom r) (rc_status r) (rc_outputBytes r)
    (rc_log r).
Definition setReceiptGasUsed (x : Z) (r : TransactionReceipt) : TransactionReceipt :=
  mkReceipt (rc_stateRoot r) x (rc_contractAddress r) (rc_bloom r) (rc_status r) (rc_outputBytes r)
    (rc_log r).

Definition receipt_ops (r : TransactionReceipt) : list (RLPStream -> result RLPStream) :=
  [append_data (rc_stateRoot r) false; append_u256 (rc_gasUsed r);
   append_data (rc_contractAddress r) false; append_data (rc_bloom r) false;
   append_u256 (rc_status r); append_data (rc_outputBytes r) false;
   appendVector log_streamRLP (rc_log r)].

Definition receipt_streamRLP (r : TransactionReceipt) (s : RLPStream) : result RLPStream :=
  s ← appendList 7 s; streamAll (receipt_ops r) s.

Definition receipt_encode (r : TransactionReceipt) : result bytes :=
  s ← receipt_streamRLP r emptyStream; out s.

(** [decode(RLP)]: the output is kept when the field is a list, and the logs
    are added to those the receipt has. *)
Definition receipt_decode_rlp (t : TransactionReceipt) (r : RLP) : result TransactionReceipt :=
  if negb (isList (m_data r)) then Throw InvalidTransactionFormat
  else
    '(root, r) ← field 0 (toHash 32 Strict) r;
    '(gas, r) ← field 1 (toInt U256 Strict) r;
    '(addr, r) ← field 2 (toHash 20 Strict) r;
    '(bloom, r) ← field 3 (toHash 256 Strict) r;
    '(status, r) ← field 4 (toInt U32 Strict) r;
    '(isd, r) ← field 5 (fun e => Ok (isData (m_data e))) r;
    '(output, r) ← (if isd : bool then field 5 (toBytes LaissezFaire) r
                    else Ok (rc_outputBytes t, r));
    '(items, _) ← field 6 (toList 0) r;
    logs ← mapM_result log_of_rlp items;
    Ok (mkReceipt root gas addr bloom status output (rc_log t ++ logs)).

Definition receipt_decode (t : TransactionReceipt) (bs : bytes) : result TransactionReceipt :=
  r ← RLP_ bs VeryStrict; receipt_decode_rlp t r.

(** [TransactionReceipt(bytesConstRef)]. *)
Definition receipt_of_bytes (bs : bytes) : result TransactionReceipt :=
  r ← RLP_ bs VeryStrict;
  '(root, r) ← field 0 (toHash 32 Strict) r;
  '(gas, r) ← field 1 (toInt U256 Strict) r;
  '(addr, r) ← field 2 (toHash 20 Strict) r;
  '(bloom, r) ← field 3 (toHash 256 Strict) r;
  '(status, r) ← field 4 (toInt U32 Strict) r;
  '(output, r) ← field 5 (toBytes LaissezFaire) r;
  '(items, _) ← field 6 (toList 0) r;
  logs ← mapM_result log_of_rlp items;
  Ok (mkReceipt root gas addr bloom status output logs).

Section Bloom.
Context `{Crypto}.

Definition log_bloom (l : LogEntry) : bytes :=
  foldl (fun ret t => shiftBloom ret (sha3 t)) (shiftBloom LogBloom_0 (sha3 (log_address l)))
    (log_topics l).

(** [bloom(LogEntries)]. *)
Definition logs_bloom (ls : list LogEntry) : bytes :=
  foldl (fun ret l => hash_or ret (log_bloom l)) LogBloom_0 ls.

(** [TransactionReceipt(root, gasUsed, log, status, bytes, contractAddress)]. *)
Definition newReceipt (root : h256) (gasUsed : Z) (ls : list LogEntry) (status : Z) (output : bytes)
    (addr : Address) : TransactionReceipt :=
  mkReceipt root gasUsed addr (logs_bloom ls) status output ls.
End Bloom.

(** ** The RLP form *)
Definition log_encs (l : LogEntry) : list bytes :=
  [enc_data (log_address l); enc_list (concat (map enc_data (log_topics l))); enc_data (log_data l)].
Definition log_enc (l : LogEntry) : bytes := enc_list (concat (log_encs l)).

Definition receipt_encs (r : TransactionReceipt) : list bytes :=
  [enc_data (rc_stateRoot r); enc_int (rc_gasUsed r); enc_data (rc_contractAddress r);
   enc_data (rc_bloom r); enc_int (rc_status r); enc_data (rc_outputBytes r);
   enc_list (concat (map log_enc (rc_log r)))].
Definition receipt_enc (r : TransactionReceipt) : bytes := enc_list (concat (receipt_encs r)).

(** Values within their C++ types, of sizes that can be addressed. *)
Definition log_wf (l : LogEntry) : Prop :=
  hash_ok 20 (log_address l) /\ hashes_ok 32 (log_topics l) /\
  lenZ (concat (map enc_data (log_topics l))) < 2 ^ 57 /\
  bytes_ok (log_data l) /\ lenZ (log_data l) < 2 ^ 57.

Definition receipt_wf (r : TransactionReceipt) : Prop :=
  hash_ok 32 (rc_stateRoot r) /\ u256_ok (rc_gasUsed r) /\ hash_ok 20 (rc_contractAddress r) /\
  hash_ok 256 (rc_bloom r) /\ 0 <= rc_status r < 2 ^ 32 /\
  (bytes_ok (rc_outputBytes r) /\ lenZ (rc_outputBytes r) < 2 ^ 57) /\
  Forall log_wf (rc_log r) /\ lenZ (concat (map log_enc (rc_log r))) < 2 ^ 57.

(** A list of fields streamed after its [appendList]. *)
Lemma record_ref ops es s : ops_encs ops es -> lenZ es <= 31 ->
  (s ← appendList (lenZ ops) s; streamAll ops s) = appendRaw (enc_list (concat es)) 1 s.
Proof.
  intros (Ho & _ & Hl) Hc. pose proof (concat_bound es Hl).
  apply (appendVector_ref2 (fun op => op)); [done | lia].
Qed.

Lemma ops_encs_list (op : RLPStream -> result RLPStream) pl ops es :
  (forall s, op s = appendRaw (enc_list pl) 1 s) -> lenZ pl < 2 ^ 59 -> ops_encs ops es ->
  ops_encs (op :: ops) (enc_list pl :: es).
Proof.
  intros Ho Hl (?&?&?). pose proof (enc_list_len pl ltac:(lia)).
  split_and!; constructor; try done; [| lia]. apply valid_enc_list. unfold size_ok, SIZE_MAX. lia.
Qed.

Lemma log_ops_ok l : log_wf l ->
  ops_encs (log_ops l) (log_encs l).
Proof.
  intros ([Ha Hal] & Ht & Htl & Hd & Hdl). apply ops_encs_data; [done | lia |].
  apply ops_encs_list; [intros s; apply appendVector_data; lia | lia |].
  apply ops_encs_data; [done | lia | apply ops_encs_nil].
Qed.

Lemma log_len l : log_wf l -> lenZ (concat (log_encs l)) < 2 ^ 59.
Proof.
  intros ([Ha Hal] & Ht & Htl & Hd & Hdl). unfold log_encs. cbn [concat]. len_simpl.
  pose proof (enc_data_len (log_address l) ltac:(lia)). pose proof (enc_data_len (log_data l) ltac:(lia)).
  pose proof (enc_list_len (concat (map enc_data (log_topics l))) ltac:(lia)). lia.
Qed.

Lemma log_stream_ref l s : log_wf l -> log_streamRLP l s = appendRaw (log_enc l) 1 s.
Proof. intros Hw. by apply (record_ref (log_ops l) (log_encs l)); [apply log_ops_ok |]. Qed.

Lemma log_valid l : log_wf l -> valid_item (log_enc l).
Proof. intros Hw. apply valid_enc_list. pose proof (log_len l Hw). unfold size_ok, SIZE_MAX. lia. Qed.

Lemma log_read l : log_wf l -> log_of_rlp (node (log_enc l)) = Ok l.
Proof.
  intros Hw. pose proof (log_len l Hw) as Hl. destruct (log_ops_ok l Hw) as (_ & Hv & _).
  assert (cache_ok (log_encs l) (node (log_enc l))) as Hc.
  { apply cache_fresh, payload_enc_list. unfold size_ok, SIZE_MAX. lia. }
  destruct Hw as ([Ha Hal] & Ht & Htl & Hd & Hdl). unfold log_of_rlp.
  read_field Hv Hc ltac:(hash_field).
  read_field Hv Hc ltac:(apply toVector_hash; [done | lia]).
  read_field Hv Hc ltac:(apply toBytes_enc; data_field). by destruct l.
Qed.

Lemma toInt_U32_enc n flags : 0 <= n < 2 ^ 32 -> toInt U32 flags (node (enc_int n)) = Ok n.
Proof.
  intros Hn. apply toInt_enc; [lia | apply compact_le; cbn; lia |].
  intros x Hx. apply wrap_small. lia.
Qed.

Lemma receipt_ops_ok r : receipt_wf r ->
  ops_encs (receipt_ops r) (receipt_encs r).
Proof.
  intros ([? ?] & Hg & [? ?] & [? ?] & Hs & [? ?] & Hl & Hll).
  apply ops_encs_data; [done | lia |]. apply ops_encs_int; [done |].
  do 2 (apply ops_encs_data; [done | lia |]). apply ops_encs_int; [unfold u256_ok; lia |].
  apply ops_encs_data; [done | lia |]. apply ops_encs_list; [| lia | apply ops_encs_nil].
  intros s. apply appendVector_ref; [| lia].
  eapply Forall_impl; [exact Hl |]. intros l Hwl s'. by apply log_stream_ref.
Qed.

Lemma receipt_len r : receipt_wf r -> lenZ (concat (receipt_encs r)) < 2 ^ 59.
Proof.
  intros ([? ?] & Hg & [? ?] & [? ?] & Hs & [? ?] & Hl & Hll). unfold receipt_encs. cbn [concat]. len_simpl.
  pose proof (enc_data_len (rc_stateRoot r) ltac:(lia)). pose proof (enc_data_len (rc_contractAddress r) ltac:(lia)).
  pose proof (enc_data_len (rc_bloom r) ltac:(lia)). pose proof (enc_data_len (rc_outputBytes r) ltac:(lia)).
  pose proof (enc_int_len _ Hg). pose proof (enc_int_len (rc_status r) ltac:(lia)).
  pose proof (enc_list_len (concat (map log_enc (rc_log r))) ltac:(lia)). lia.
Qed.

Lemma receipt_stream_ref r s : receipt_wf r -> receipt_streamRLP r s = appendRaw (receipt_enc r) 1 s.
Proof. intros Hw. by apply (record_ref (receipt_ops r) (receipt_encs r)); [apply receipt_ops_ok |]. Qed.

Lemma receipt_valid r : receipt_wf r -> valid_item (receipt_enc r).
Proof. intros Hw. apply valid_enc_list. pose proof (receipt_len r Hw). unfold size_ok, SIZE_MAX. lia. Qed.

Lemma receipt_encode_ref r : receipt_wf r -> receipt_encode r = Ok (receipt_enc r).
Proof.
  intros Hw. unfold receipt_encode. rewrite receipt_stream_ref by done. done.
Qed.

Definition add_logs (t r : TransactionReceipt) : TransactionReceipt :=
  mkReceipt (rc_stateRoot r) (rc_gasUsed r) (rc_contractAddress r) (rc_bloom r) (rc_status r)
    (rc_outputBytes r) (rc_log t ++ rc_log r).

Lemma logs_read ls : Forall log_wf ls -> lenZ (concat (map log_enc ls)) < 2 ^ 57 ->
  toList 0 (node (enc_list (concat (map log_enc ls)))) = Ok (map node (map log_enc ls)) /\
  mapM_result log_of_rlp (map node (map log_enc ls)) = Ok ls.
Proof.
  intros Hw Hl. split.
  - apply toList_ref; [| unfold size_ok, SIZE_MAX; lia]. rewrite Forall_map.
    eapply Forall_impl; [exact Hw | apply log_valid].
  - rewrite map_map, (mapM_result_map _ _ id), map_id; [done |].
    eapply Forall_impl; [exact Hw | apply log_read].
Qed.

Lemma receipt_read t r : receipt_wf r -> receipt_decode_rlp t (node (receipt_enc r)) = Ok (add_logs t r).
Proof.
  intros Hw. pose proof (receipt_len r Hw) as Hlen. destruct (receipt_ops_ok r Hw) as (_ & Hv & _).
  assert (size_ok (concat (receipt_encs r))) as Hs by (unfold size_ok, SIZE_MAX; lia).
  assert (cache_ok (receipt_encs r) (node (receipt_enc r))) as Hc by (by apply cache_fresh, payload_enc_list).
  destruct Hw as ([? ?] & Hg & [? ?] & [? ?] & Hst & [? ?] & Hl & Hll).
  destruct (logs_read _ Hl Hll) as [Hl1 Hl2]. unfold receipt_decode_rlp.
  pose proof (view_enc_list _ [] Hs) as V. rewrite app_nil_r in V. cbn [node m_data].
  rewrite (view_list _ _ _ _ V : isList (receipt_enc r) = true). cbn [negb].
  read_field Hv Hc ltac:(hash_field). read_field Hv Hc ltac:(by apply toInt_U256_enc).
  do 2 (read_field Hv Hc ltac:(hash_field)). read_field Hv Hc ltac:(by apply toInt_U32_enc).
  read_field Hv Hc ltac:(cbn [node m_data]; rewrite isData_enc by data_field; reflexivity).
  read_field Hv Hc ltac:(apply toBytes_enc; data_field).
  read_field Hv Hc ltac:(exact Hl1). by rewrite Hl2.
Qed.

(** A receipt survives its encoding; decoding into a receipt that has logs keeps
    them in front. *)
Theorem receipt_wire r t : receipt_wf r ->
  exists bs, receipt_encode r = Ok bs /\ receipt_decode t bs = Ok (add_logs t r).
Proof.
  intros Hw. exists (receipt_enc r). split; [by apply receipt_encode_ref |]. unfold receipt_decode.
  rewrite valid_RLP_strict by (by apply receipt_valid). by apply receipt_read.
Qed.

(** ** The filter has no false negatives *)
Definition covers (a c : bytes) : Prop := hash_and a c = c.

Lemma zip_length (f : Z -> Z -> Z) (a b : bytes) : length a = length b -> length (zip_with f a b) = length a.
Proof. intros. rewrite length_zip_with. lia. Qed.

Lemma land_lor_r x y : Z.land (Z.lor x y) y = y.
Proof. apply Z.bits_inj'. intros n Hn. rewrite Z.land_spec, Z.lor_spec. by destruct (Z.testbit x n), (Z.testbit y n). Qed.

Lemma land_lor_keep x y z : Z.land x z = z -> Z.land (Z.lor x y) z = z.
Proof.
  intros E. apply Z.bits_inj'. intros n Hn. rewrite Z.land_spec, Z.lor_spec, <- E, Z.land_spec.
  by destruct (Z.testbit x n), (Z.testbit y n), (Z.testbit z n).
Qed.

Lemma covers_new a b : length a = length b -> covers (hash_or a b) b.
Proof.
  unfold covers, hash_and, hash_or. revert b. induction a as [|x a IH]; intros [|y b] Hl; [done..|].
  cbn in *. rewrite land_lor_r, IH by lia. done.
Qed.

Lemma covers_keep a b c : length a = length b -> covers a c -> covers (hash_or a b) c.
Proof.
  unfold covers, hash_and, hash_or. revert b c.
  induction a as [|x a IH]; intros [|y b] [|z c] Hl Hc; cbn in *; try done.
  injection Hc as Hz Hc. rewrite land_lor_keep, IH by (done || lia). done.
Qed.

Lemma bloomPart_length h : length (bloomPart h) = 256%nat.
Proof. unfold bloomPart. cbn [map foldl]. unfold setBit. by rewrite !length_alter. Qed.

Section BloomFacts.
Context `{Crypto}.

Lemma shift_length b h : length b = 256%nat -> length (shiftBloom b h) = 256%nat.
Proof. intros Hb. unfold shiftBloom, hash_or. rewrite zip_length; [done | by rewrite bloomPart_length]. Qed.

Lemma shift_fold ts b : length b = 256%nat ->
  let r := foldl (fun ret t => shiftBloom ret (sha3 t)) b ts in
  length r = 256%nat /\ (forall c, covers b c -> covers r c) /\
  (forall t, t ∈ ts -> covers r (bloomPart (sha3 t))).
Proof.
  revert b. induction ts as [|t ts IH]; intros b Hb; cbn [foldl]; [split_and!; [done | done | set_solver] |].
  destruct (IH (shiftBloom b (sha3 t)) (shift_length _ _ Hb)) as (Hl & Hk & Hn).
  pose proof (bloomPart_length (sha3 t)) as Hp.
  split_and!; [done | intros c Hc; apply Hk, covers_keep; [lia | done] |].
  intros t' [->|Ht']%elem_of_cons; [apply Hk, covers_new; lia | by apply Hn].
Qed.

Lemma log_bloom_covers l : length (log_bloom l) = 256%nat /\
  covers (log_bloom l) (bloomPart (sha3 (log_address l))) /\
  forall t, t ∈ log_topics l -> covers (log_bloom l) (bloomPart (sha3 t)).
Proof.
  unfold log_bloom. set (b := shiftBloom LogBloom_0 _).
  destruct (shift_fold (log_topics l) b) as (Hl & Hk & Hn); [by apply shift_length |].
  split_and!; [done | apply Hk | done]. apply covers_new. by rewrite bloomPart_length.
Qed.

Lemma logs_fold ls b : length b = 256%nat ->
  let r := foldl (fun ret l => hash_or ret (log_bloom l)) b ls in
  length r = 256%nat /\ (forall c, covers b c -> covers r c) /\
  (forall l c, l ∈ ls -> covers (log_bloom l) c -> covers r c).
Proof.
  revert b. induction ls as [|l ls IH]; intros b Hb; cbn [foldl]; [split_and!; [done | done | set_solver] |].
  destruct (log_bloom_covers l) as (Hlb & _).
  destruct (IH (hash_or b (log_bloom l))) as (Hl & Hk & Hn).
  { unfold hash_or. rewrite zip_length; lia. }
  split_and!; [done | intros c Hc; apply Hk, covers_keep; [lia | done] |].
  intros l' c [->|Hin]%elem_of_cons Hc; [| by eapply Hn].
  apply Hk. unfold covers, hash_and, hash_or in *. clear -Hc Hb Hlb.
  assert (length b = length (log_bloom l)) as E by lia. clear Hb Hlb. revert b c Hc E.
  induction (log_bloom l) as [|y m IH]; intros [|x b] [|z c] Hc E; cbn in *; try done.
  injection Hc as Hz Hc. rewrite (Z.lor_comm x), land_lor_keep, IH by (done || lia). done.
Qed.

(** The bloom filter of a receipt has no false negatives: it answers yes for
    the address and for every topic of every log of the receipt. *)
Theorem receipt_bloom_complete root gas ls status output addr l :
  l ∈ ls ->
  let r := newReceipt root gas ls status output addr in
  containsBloom (rc_bloom r) (sha3 (log_address l)) = true /\
  forall t, t ∈ log_topics l -> containsBloom (rc_bloom r) (sha3 t) = true.
Proof.
  intros Hin r. destruct (logs_fold ls LogBloom_0 ltac:(done)) as (_ & _ & Hn).
  destruct (log_bloom_covers l) as (_ & Ha & Ht). unfold containsBloom, hash_contains.
  split; [| intros t Htt]; apply bool_decide_eq_true; apply (Hn l); auto.
Qed.
End BloomFacts.

Definition sample_log : LogEntry := mkLog (replicate 20 3) [replicate 32 7; replicate 32 9] [1; 2].

Definition sample_receipt : TransactionReceipt :=
  @newReceipt toy_crypto h256_0 21000 [sample_log] 0 [5; 6] ZeroAddress.

Lemma bytes_okb l : forallb (fun b => (0 <=? b) && (b <? 256)) l = true -> bytes_ok l.
Proof.
  intros Hl. apply Forall_forall. intros x Hx%list_elem_of_In. rewrite forallb_forall in Hl.
  specialize (Hl x Hx). apply andb_true_iff in Hl as [? ?]. bool_to_prop. unfold is_byte. lia.
Qed.

Lemma hash_okb n l : forallb (fun b => (0 <=? b) && (b <? 256)) l = true -> lenZ l = n -> hash_ok n l.
Proof. intros Hl Hn. split; [by apply bytes_okb | done]. Qed.

Lemma sample_receipt_wf : receipt_wf sample_receipt.
Proof.
  assert (log_wf sample_log) as Hl.
  { split; [apply hash_okb; vm_compute; reflexivity |].
    split; [repeat (apply Forall_cons; split; [apply hash_okb; vm_compute; reflexivity |]); constructor |].
    split; [vm_compute; reflexivity |]. split; [apply bytes_okb; vm_compute; reflexivity | vm_compute; reflexivity]. }
  split; [apply hash_okb; vm_compute; reflexivity |]. split; [unfold u256_ok; cbn; lia |].
  split; [apply hash_okb; vm_compute; reflexivity |]. split; [apply hash_okb; vm_compute; reflexivity |].
  split; [cbn; lia |]. split; [split; [apply bytes_okb; vm_compute; reflexivity | vm_compute; reflexivity] |].
  split; [by constructor | vm_compute; reflexivity].
Qed.

Lemma receipt_wire_witness :
  exists bs, receipt_encode sample_receipt = Ok bs /\ receipt_decode emptyReceipt bs = Ok sample_receipt.
Proof.
  destruct (receipt_wire sample_receipt emptyReceipt sample_receipt_wf) as (bs & He & Hd).
  exists bs. split; [exact He | exact Hd].
Defined.

Lemma receipt_bloom_complete_witness :
  @containsBloom (rc_bloom sample_receipt) (@sha3 toy_crypto (log_address sample_log)) = true.
Proof.
  destruct (@receipt_bloom_complete toy_crypto h256_0 21000 [sample_log] 0 [5; 6] ZeroAddress sample_log
    (list_elem_of_here _ _)) as [E _].
  exact E.
Defined.
