(* ===== verification/TxsParser.v ===== *)
(** * The parallel transaction codec

    [libethcore/TxsParallelParser.*]: the transactions of a block as a count, a
    table of offsets and the concatenated bytes, so that they can be decoded in
    parallel.  Integers are [uint32_t] in the byte order of the host
    (little-endian).  The iterations of a [tbb::parallel_for] touch distinct
    elements; they are run in index order.  Reads outside of the input are
    [UndefinedBehaviour]. *)

From S2P Require Import Prelude CommonData RLP PBFTMsg BlockHeader Transaction.

(** [toBytes] and [fromBytes]. *)
Definition toBytes32 (n : Z) : bytes :=
  [n mod 256; n / 2 ^ 8 mod 256; n / 2 ^ 16 mod 256; n / 2 ^ 24 mod 256].

Definition fromBytes32 (bs : bytes) : result Z :=
  match bs with
  | a :: b :: c :: d :: _ => Ok (a + b * 2 ^ 8 + c * 2 ^ 16 + d * 2 ^ 24)
  | _ => Throw UndefinedBehaviour
  end.

(** [offsets[i]] of the table that starts after the count. *)
Definition offsetAt (bs : bytes) (i : nat) : result Z := fromBytes32 (drop (4 * i) (cropped1 4 bs)).

(** [std::vector::resize]. *)
Definition resize_txs (n : nat) (txs : list Transaction) : list Transaction :=
  take n txs ++ replicate (n - length txs) emptyTx.

(** [offsets[i + 1] += offsets[i]] over the recorded sizes. *)
Fixpoint running_sums (prev : Z) (sizes : list Z) : list Z :=
  prev :: match sizes with
          | [] => []
          | x :: r => running_sums (wrap 32 (x + prev)) r
          end.

(** The loop of the second encoder: the offset of each transaction, then the end. *)
Fixpoint offsets_loop (offset : Z) (txs : list bytes) : list Z :=
  match txs with
  | [] => [offset]
  | t :: r => offset :: offsets_loop (wrap 32 (offset + lenZ t)) r
  end.

(** [txNum + 1] offsets are allocated: none when the sum wraps. *)
Definition write_frame (txNum : Z) (offsets : list Z) (txBytes : bytes) : result bytes :=
  if wrap 32 (txNum + 1) =? 0 then Throw UndefinedBehaviour
  else Ok (toBytes32 txNum ++ concat (map toBytes32 offsets) ++ txBytes).

Definition txs_encode_bytes (txs : list bytes) : result bytes :=
  let txNum := wrap 32 (lenZ txs) in
  if txNum =? 0 then Ok []
  else
    let txs := take (Z.to_nat txNum) txs in
    write_frame txNum (offsets_loop 0 txs) (concat txs).

Section Parser.
Context `{Crypto} `{Recover} (version : Z).

Definition txs_encode (txs : list Transaction) : result bytes :=
  let txNum := wrap 32 (lenZ txs) in
  if txNum =? 0 then Ok []
  else
    txRLPs ← mapM_result (tx_rlp version WithSignature) (take (Z.to_nat txNum) txs);
    write_frame txNum (running_sums 0 (map (fun b => wrap 32 (lenZ b)) txRLPs)) (concat txRLPs).

(** One iteration of the decoding loop. *)
Definition decode_at (check : CheckTransaction) (withHash : bool) (bs txBytes : bytes)
    (maxOffset : Z) (i : nat) (tx : Transaction) : result Transaction :=
  offset ← offsetAt bs i;
  next ← offsetAt bs (S i);
  let size := wrap 32 (next - offset) in
  if maxOffset <? offset then Throw InvalidBlockFormat
  else
    tx ← tx_decode version check tx (cropped2 offset size txBytes);
    Ok (if withHash then updateTransactionHashWithSig (sha3 (cropped2 offset size txBytes)) tx
        else tx).

Fixpoint decode_loop (dec : nat -> Transaction -> result Transaction) (i : nat)
    (txs : list Transaction) : result (list Transaction) :=
  match txs with
  | [] => Ok []
  | t :: r => t' ← dec i t; r' ← decode_loop dec (S i) r; Ok (t' :: r')
  end.

(** [catch (Exception& e)]. *)
Definition as_invalid_format {A} (r : result A) : result A :=
  match r with
  | Ok a => Ok a
  | Throw UndefinedBehaviour => Throw UndefinedBehaviour
  | Throw _ => Throw InvalidBlockFormat
  end.

Definition txs_decode_body (txs : list Transaction) (bs : bytes) (check : CheckTransaction)
    (withHash : bool) : result (list Transaction) :=
  if lenZ bs =? 0 then Ok txs
  else
    txNum ← fromBytes32 (cropped1 0 bs);
    let objectStart := 4 * wrap 32 (txNum + 2) in
    if lenZ bs <=? objectStart then Throw InvalidBlockFormat
    else
      let txs := resize_txs (Z.to_nat txNum) txs in
      let txBytes := cropped1 objectStart bs in
      if (wrap 32 (txNum + 1) =? 0) || (lenZ txBytes =? 0) then Throw InvalidBlockFormat
      else
        let maxOffset := lenZ bs - objectStart - 1 in
        decode_loop (decode_at check withHash bs txBytes maxOffset) 0 txs.

Definition txs_decode (txs : list Transaction) (bs : bytes) (check : CheckTransaction)
    (withHash : bool) : result (list Transaction) :=
  as_invalid_format (txs_decode_body txs bs check withHash).
End Parser.

(** ** Words *)
Lemma toBytes32_inv n rest : 0 <= n < 2 ^ 32 -> fromBytes32 (toBytes32 n ++ rest) = Ok n.
Proof.
  intros Hn. unfold toBytes32, fromBytes32. cbn [app]. f_equal.
  Z.div_mod_to_equations. lia.
Qed.

Lemma words_drop ws i rest : (i <= length ws)%nat ->
  drop (4 * i) (concat (map toBytes32 ws) ++ rest) = concat (map toBytes32 (drop i ws)) ++ rest.
Proof.
  revert i. induction ws as [|w ws IH]; intros i Hi; cbn [length] in Hi.
  - assert (i = 0)%nat as -> by lia. done.
  - destruct i as [|i]; [done |]. replace (4 * S i)%nat with (S (S (S (S (4 * i)))))%nat by lia.
    cbn [map concat toBytes32 app drop]. apply IH. lia.
Qed.

Lemma words_length ws : lenZ (concat (map toBytes32 ws)) = 4 * lenZ ws.
Proof. induction ws as [|w ws IH]; [done |]. cbn [map concat]. len_simpl. rewrite IH. change (lenZ (toBytes32 w)) with 4. lia. Qed.

Lemma word_read ws i w rest : Forall (fun x => 0 <= x < 2 ^ 32) ws -> ws !! i = Some w ->
  fromBytes32 (drop (4 * i) (concat (map toBytes32 ws) ++ rest)) = Ok w.
Proof.
  intros Hw Hi. pose proof (lookup_lt_Some _ _ _ Hi). rewrite words_drop by lia.
  rewrite (drop_S _ _ _ Hi). cbn [map concat]. rewrite <- app_assoc.
  apply toBytes32_inv. exact (Forall_lookup_1 _ _ _ _ Hw Hi).
Qed.

(** ** Offsets *)
Lemma running_sums_loop es prev :
  running_sums prev (map (fun b => wrap 32 (lenZ b)) es) = offsets_loop prev es.
Proof.
  revert prev. induction es as [|e es IH]; intros prev; [done |]. cbn [map running_sums offsets_loop].
  f_equal. rewrite IH. f_equal. unfold wrap. rewrite Zplus_mod_idemp_l. f_equal. lia.
Qed.

Lemma offsets_length es o : length (offsets_loop o es) = S (length es).
Proof. revert o. induction es as [|e es IH]; intros o; cbn; [done | by rewrite IH]. Qed.

Lemma offsets_lenZ es o : lenZ (offsets_loop o es) = lenZ es + 1.
Proof. unfold lenZ. rewrite offsets_length. lia. Qed.

Lemma offsets_spec es o i : 0 <= o -> o + lenZ (concat es) < 2 ^ 32 -> (i <= length es)%nat ->
  offsets_loop o es !! i = Some (o + lenZ (concat (take i es))).
Proof.
  revert o i. induction es as [|e es IH]; intros o i Ho Hs Hi; cbn [length concat] in *.
  - assert (i = 0)%nat as -> by lia. cbn [offsets_loop lookup list_lookup take concat].
    rewrite lenZ_nil. f_equal. lia.
  - len_simpl. pose proof (lenZ_nonneg e). pose proof (lenZ_nonneg (concat es)).
    destruct i as [|i]; cbn [offsets_loop lookup list_lookup take concat];
      [rewrite lenZ_nil; f_equal; lia |].
    rewrite (wrap_small 32) by lia. rewrite IH by lia. len_simpl. f_equal. lia.
Qed.

Lemma offsets_range es o : 0 <= o < 2 ^ 32 -> Forall (fun x => 0 <= x < 2 ^ 32) (offsets_loop o es).
Proof.
  revert o. induction es as [|e es IH]; intros o Ho; cbn [offsets_loop];
    apply Forall_cons; (split; [done |]); [constructor |]. apply IH. apply wrap_range. lia.
Qed.

(** ** The frame *)
Section Frame.
Context (es : list bytes).
Context (Hne : Forall (fun e => e <> []) es) (H0 : es <> []).
Context (Hcount : lenZ es < 2 ^ 32 - 2) (Hsize : lenZ (concat es) < 2 ^ 32).

Definition frame : bytes :=
  toBytes32 (lenZ es) ++ concat (map toBytes32 (offsets_loop 0 es)) ++ concat es.

Lemma frame_count : 0 < lenZ es.
Proof. destruct es as [|e l]; [done |]. rewrite lenZ_cons. pose proof (lenZ_nonneg l). lia. Qed.

Lemma frame_first : fromBytes32 (cropped1 0 frame) = Ok (lenZ es).
Proof.
  unfold cropped1. rewrite (proj2 (Z.leb_le _ _)) by auto with bcos. apply toBytes32_inv.
  pose proof frame_count. lia.
Qed.

Lemma frame_encode : txs_encode_bytes es = Ok frame.
Proof.
  pose proof frame_count. unfold txs_encode_bytes, write_frame.
  rewrite (wrap_small 32 (lenZ es)) by lia. rewrite (wrap_small 32) by lia.
  rewrite !(proj2 (Z.eqb_neq _ _)) by lia.
  rewrite take_ge by (unfold lenZ; lia). done.
Qed.

Lemma frame_len : lenZ frame = 4 * (lenZ es + 2) + lenZ (concat es).
Proof.
  unfold frame. len_simpl. rewrite words_length. rewrite offsets_lenZ.
  change (lenZ (toBytes32 (lenZ es))) with 4. lia.
Qed.

Lemma frame_offset i : (i <= length es)%nat -> offsetAt frame i = Ok (lenZ (concat (take i es))).
Proof.
  intros Hi. unfold offsetAt, frame. rewrite (cropped1_app (toBytes32 (lenZ es))).
  apply word_read; [by apply offsets_range |]. rewrite offsets_spec; [done | lia | lia | done].
Qed.

Lemma frame_objects : cropped1 (4 * (lenZ es + 2)) frame = concat es.
Proof.
  unfold frame. rewrite app_assoc.
  replace (4 * (lenZ es + 2)) with (lenZ (toBytes32 (lenZ es) ++ concat (map toBytes32 (offsets_loop 0 es))));
    [apply cropped1_app |].
  len_simpl. rewrite words_length. rewrite offsets_lenZ.
  change (lenZ (toBytes32 (lenZ es))) with 4. lia.
Qed.

Lemma frame_split i e : es !! i = Some e ->
  concat es = concat (take i es) ++ e ++ concat (drop (S i) es) /\
  concat (take (S i) es) = concat (take i es) ++ e /\ 0 < lenZ e.
Proof.
  intros Hi. rewrite <- (take_drop_middle es i e Hi) at 1. rewrite concat_app. split_and!; [done | |].
  - rewrite (take_S_r _ _ _ Hi), concat_app. cbn. by rewrite app_nil_r.
  - apply (Forall_lookup_1 _ _ _ _ Hne) in Hi. destruct e; [done | len_simpl; pose proof (lenZ_nonneg e); lia].
Qed.

Lemma frame_decode_at `{Crypto} `{Recover} version check withHash i e t :
  es !! i = Some e ->
  decode_at version check withHash frame (concat es) (lenZ (concat es) - 1) i t =
  (tx ← tx_decode version check t e;
   Ok (if withHash then updateTransactionHashWithSig (sha3 e) tx else tx)).
Proof.
  intros Hi. destruct (frame_split i e Hi) as (Hall & Hnext & Hpos).
  pose proof (lookup_lt_Some _ _ _ Hi). unfold decode_at.
  rewrite !frame_offset by lia. cbn [mbind result_bind]. rewrite Hnext. len_simpl.
  assert (lenZ (concat es) = lenZ (concat (take i es)) + lenZ e + lenZ (concat (drop (S i) es))) as Hl
    by (rewrite Hall; len_simpl; lia).
  pose proof (lenZ_nonneg (concat (take i es))). pose proof (lenZ_nonneg (concat (drop (S i) es))).
  rewrite (wrap_small 32) by lia. rewrite (proj2 (Z.ltb_ge _ _)) by lia.
  replace (lenZ (concat (take i es)) + lenZ e - lenZ (concat (take i es))) with (lenZ e) by lia.
  assert (cropped2 (lenZ (concat (take i es))) (lenZ e) (concat es) = e) as ->; [| done].
  rewrite Hall. apply cropped2_app.
Qed.

Lemma decode_loop_zip dec (f : bytes -> Transaction -> Transaction) k ts : length ts = length (drop k es) ->
  (forall i e t, es !! i = Some e -> dec i t = Ok (f e t)) ->
  decode_loop dec k ts = Ok (zip_with f (drop k es) ts).
Proof.
  intros Hl Hd. revert k Hl. induction ts as [|t ts IH]; intros k Hl; cbn [length decode_loop] in *.
  - destruct (drop k es); done.
  - destruct (es !! k) as [e|] eqn:Ek.
    + rewrite (drop_S _ _ _ Ek) in *. cbn [length zip_with] in *.
      rewrite (Hd k e t Ek). cbn [mbind result_bind]. by rewrite (IH (S k)) by lia.
    + apply lookup_ge_None in Ek. rewrite length_drop in Hl. lia.
Qed.

Lemma resize_length n (ts : list Transaction) : length (resize_txs n ts) = n.
Proof. unfold resize_txs. rewrite length_app, length_take, length_replicate. lia. Qed.

Lemma frame_decode `{Crypto} `{Recover} version check withHash txs0 (f : bytes -> Transaction -> Transaction) :
  (forall e t, e ∈ es -> tx_decode version check t e = Ok (f e t)) ->
  txs_decode version txs0 frame check withHash =
  Ok (zip_with (fun e t => if withHash then updateTransactionHashWithSig (sha3 e) (f e t) else f e t)
        es (resize_txs (length es) txs0)).
Proof.
  intros Hf. pose proof frame_count. pose proof frame_len as Hl.
  assert (0 < lenZ (concat es)) as Hc.
  { destruct (lookup_lt_is_Some_2 es 0) as [e He]; [unfold lenZ in *; lia |].
    destruct (frame_split 0 e He) as (-> & _ & ?). len_simpl.
    pose proof (lenZ_nonneg (concat (drop 1 es))). pose proof (lenZ_nonneg (concat (take 0 es))). lia. }
  unfold txs_decode, txs_decode_body. rewrite (proj2 (Z.eqb_neq _ _)) by lia.
  rewrite frame_first. cbn [mbind result_bind].
  rewrite (wrap_small 32 (_ + 2)), (wrap_small 32 (_ + 1)) by lia. rewrite frame_objects, Hl.
  rewrite (proj2 (Z.leb_gt _ _)), !(proj2 (Z.eqb_neq _ _)) by lia. cbn [orb].
  replace (4 * (lenZ es + 2) + lenZ (concat es) - 4 * (lenZ es + 2) - 1) with (lenZ (concat es) - 1) by lia.
  rewrite (decode_loop_zip _ (fun e t => if withHash then updateTransactionHashWithSig (sha3 e) (f e t) else f e t)).
  - unfold lenZ. rewrite Nat2Z.id. done.
  - rewrite resize_length. unfold lenZ. rewrite Nat2Z.id. done.
  - intros i e t Hi. rewrite (frame_decode_at _ _ _ _ _ _ Hi).
    rewrite (Hf e t) by (by eapply list_elem_of_lookup_2). by destruct withHash.
Qed.
End Frame.

(** ** Theorems *)
Lemma mapM_result_take {A B} (f : A -> result B) l r n :
  mapM_result f l = Ok r -> mapM_result f (take n l) = Ok (take n r).
Proof.
  revert r n. induction l as [|x l IH]; intros r n Hr; cbn [mapM_result] in Hr.
  - injection Hr as <-. by rewrite !take_nil.
  - apply bind_ok in Hr as (y & Hy & Hr). apply bind_ok in Hr as (ys & Hys & [= <-]).
    destruct n as [|n]; [done |]. cbn [take mapM_result]. by rewrite Hy, (IH ys n Hys).
Qed.

Lemma mapM_result_len {A B} (f : A -> result B) l r : mapM_result f l = Ok r -> length r = length l.
Proof.
  revert r. induction l as [|x l IH]; intros r Hr; cbn [mapM_result] in Hr; [by injection Hr as <- |].
  apply bind_ok in Hr as (y & Hy & Hr). apply bind_ok in Hr as (ys & Hys & [= <-]). cbn. by rewrite (IH ys).
Qed.

Lemma zip_with_map_ext {A B C D} (F : B -> C -> D) (G : A -> C -> D) (g : A -> B) l ts :
  Forall (fun x => forall t, F (g x) t = G x t) l -> zip_with F (map g l) ts = zip_with G l ts.
Proof. intros Hl. revert ts. induction Hl as [|x l Hx _ IH]; intros [|t ts]; cbn; [done.. |]. by rewrite Hx, IH. Qed.

(** The encoder that computes the sizes in parallel and then their running
    sums writes the bytes of the sequential one. *)
Theorem txs_encoders_agree `{Crypto} `{Recover} version txs es :
  mapM_result (tx_rlp version WithSignature) txs = Ok es ->
  txs_encode version txs = txs_encode_bytes es.
Proof.
  intros He. pose proof (mapM_result_len _ _ _ He) as Hl.
  unfold txs_encode, txs_encode_bytes. replace (lenZ es) with (lenZ txs) by (unfold lenZ; lia).
  destruct (_ =? 0); [done |]. rewrite (mapM_result_take _ _ es) by done.
  cbn [mbind result_bind]. by rewrite running_sums_loop.
Qed.

(** A transaction whose buffer, when it has one, is its encoding. *)
Definition buffer_ok (version : Z) (t : Transaction) : Prop :=
  tx_rlpBuffer t = [] \/ tx_encode version [] WithSignature t = Ok (tx_rlpBuffer t).

Definition tx_wire_bytes (version : Z) (t : Transaction) : bytes :=
  from_ok [] (tx_encode version [] WithSignature t).

(** The transaction read into [t0]. *)
Definition arrived `{Crypto} (version : Z) (withHash : bool) (t t0 : Transaction) : Transaction :=
  let bs := tx_wire_bytes version t in
  let r := received version t t0 bs in
  if withHash then updateTransactionHashWithSig (sha3 bs) r else r.

Lemma wire_bytes_facts `{Crypto} `{Recover} version t : tx_wf t ->
  tx_wire_bytes version t <> [] /\
  (buffer_ok version t -> tx_rlp version WithSignature t = Ok (tx_wire_bytes version t)) /\
  (forall t0, tx_decode version CheckNone t0 (tx_wire_bytes version t) =
     Ok (received version t t0 (tx_wire_bytes version t))).
Proof.
  intros Hw. destruct (tx_encs_facts version t Hw) as (g & Hg & Hv & Hl & He).
  assert (size_ok (concat (tx_encs version t g))) as Hs by (unfold size_ok, SIZE_MAX; lia).
  unfold tx_wire_bytes. rewrite He. cbn [from_ok]. split_and!.
  - unfold enc_list. intros [Hh _]%app_eq_nil. by apply hdr_nonempty in Hh.
  - intros Hb. unfold tx_rlp. case_bool_decide as Hn; [apply He |].
    destruct Hb as [Hb|Hb]; [done |]. by rewrite He in Hb.
  - intros t0. unfold tx_decode. rewrite valid_RLP_strict by (by apply valid_enc_list). cbn [mbind result_bind].
    apply (tx_decode_ref version t t0 _ g); [done | done | | done | by apply cache_fresh, payload_enc_list].
    pose proof (view_enc_list (concat (tx_encs version t g)) [] Hs) as V. rewrite app_nil_r in V.
    apply (view_list _ _ _ _ V).
Qed.

(** What a block's transactions must satisfy to be framed: 32-bit offsets. *)
Definition txs_wf (version : Z) (txs : list Transaction) : Prop :=
  Forall (fun t => tx_wf t /\ buffer_ok version t) txs /\
  lenZ txs < 2 ^ 32 - 2 /\ lenZ (concat (map (tx_wire_bytes version) txs)) < 2 ^ 32.

Lemma txs_encode_frame `{Crypto} `{Recover} version txs : txs_wf version txs -> txs <> [] ->
  let es := map (tx_wire_bytes version) txs in
  txs_encode version txs = Ok (frame es) /\ Forall (fun e => e <> []) es /\ es <> [] /\
  lenZ es < 2 ^ 32 - 2 /\ lenZ (concat es) < 2 ^ 32.
Proof.
  intros (Hw & Hc & Hs) Hn es.
  assert (Forall (fun e => e <> []) es) as Hne.
  { unfold es. rewrite Forall_map. eapply Forall_impl; [exact Hw |]. intros t [Ht _]. by apply wire_bytes_facts. }
  assert (es <> []) as Hn' by (unfold es; by destruct txs).
  assert (lenZ es < 2 ^ 32 - 2) as Hc' by (unfold es, lenZ in *; by rewrite length_map).
  split_and!; try done. rewrite (txs_encoders_agree version txs es); [by apply frame_encode |].
  rewrite <- (map_id txs) at 1. unfold es. apply mapM_result_map.
  eapply Forall_impl; [exact Hw |]. intros t [Ht Hb]. by apply wire_bytes_facts.
Qed.

Lemma frame_decode_txs `{Crypto} `{Recover} version txs txs0 withHash : txs_wf version txs -> txs <> [] ->
  txs_decode version txs0 (frame (map (tx_wire_bytes version) txs)) CheckNone withHash =
  Ok (zip_with (arrived version withHash) txs (resize_txs (length txs) txs0)).
Proof.
  intros Hw Hn. destruct (txs_encode_frame version txs Hw Hn) as (_ & Hne & Hn' & Hc & Hs).
  destruct Hw as (Hw & _).
  rewrite (frame_decode _ Hne Hn' Hc Hs version CheckNone withHash txs0
    (fun e t0 => from_ok t0 (tx_decode version CheckNone t0 e))).
  - rewrite length_map. f_equal. apply zip_with_map_ext. eapply Forall_impl; [exact Hw |].
    intros t [Ht _] t0. destruct (wire_bytes_facts version t Ht) as (_ & _ & Hd). rewrite Hd. done.
  - intros e t0 He. apply list_elem_of_In, in_map_iff in He as (t & <- & Hin%list_elem_of_In).
    apply (proj1 (Forall_forall _ _) Hw) in Hin as [Ht _].
    destruct (wire_bytes_facts version t Ht) as (_ & _ & Hd). by rewrite Hd.
Qed.

(** The transactions of a block survive their parallel encoding: each one is
    decoded from exactly its own bytes, into whatever the vector held before,
    and carries the hash of these bytes when it is asked for. *)
Theorem txs_wire `{Crypto} `{Recover} version txs txs0 withHash :
  txs_wf version txs ->
  exists bs, txs_encode version txs = Ok bs /\
    txs_decode version txs0 bs CheckNone withHash =
    Ok (if bool_decide (txs = []) then txs0
        else zip_with (arrived version withHash) txs (resize_txs (length txs) txs0)).
Proof.
  intros Hw. case_bool_decide as Hn.
  - subst txs. by exists [].
  - destruct (txs_encode_frame version txs Hw Hn) as (He & _).
    eexists. split; [exact He |]. by apply frame_decode_txs.
Qed.

Lemma fromBytes32_ok l : is_ok (fromBytes32 l) = true <-> 4 <= lenZ l.
Proof.
  destruct l as [|a [|b [|c [|d l]]]]; cbn [fromBytes32 is_ok]; len_simpl; pose proof (@lenZ_nonneg Z);
    (split; [intros; try done | intros; try done; try lia]).
  specialize (H l). lia.
Qed.

Lemma cropped1_ok b l : bytes_ok l -> bytes_ok (cropped1 b l).
Proof. intros Hl. unfold cropped1. destruct (_ <=? _); [by apply Forall_drop | constructor]. Qed.

Lemma fromBytes32_range l n : bytes_ok l -> fromBytes32 l = Ok n -> 0 <= n < 2 ^ 32.
Proof.
  destruct l as [|a [|b [|c [|d l]]]]; intros Hl Hn; try done. injection Hn as <-.
  repeat (apply Forall_cons in Hl as [? Hl]). unfold is_byte in *. lia.
Qed.

Lemma offsetAt_ok bs i : 4 <= lenZ bs -> is_ok (offsetAt bs i) = true <-> 4 * (Z.of_nat i + 2) <= lenZ bs.
Proof.
  intros Hl. unfold offsetAt. rewrite fromBytes32_ok. unfold cropped1. rewrite (proj2 (Z.leb_le _ _)) by lia.
  unfold lenZ in *. rewrite !length_drop. lia.
Qed.

(** What the size check of the decoder guarantees: on an input that passes it
    every offset of the table lies inside of the input exactly when the count
    is less than [2^32 - 2]; [txNum + 2] is computed in 32 bits. *)
Theorem txs_table_bounds bs n :
  bytes_ok bs -> fromBytes32 (cropped1 0 bs) = Ok n ->
  4 * wrap 32 (n + 2) < lenZ bs < 2 ^ 34 - 4 ->
  (forall i, Z.of_nat i <= n -> is_ok (offsetAt bs i) = true) <-> n < 2 ^ 32 - 2.
Proof.
  intros Hb Hn Hl. pose proof (fromBytes32_range _ n (cropped1_ok 0 bs Hb) Hn) as Hr.
  pose proof (wrap_range 32 (n + 2) ltac:(lia)) as Hwr.
  assert (4 <= lenZ bs) as H4.
  { apply fromBytes32_ok. unfold cropped1 in Hn. rewrite (proj2 (Z.leb_le _ _)) in Hn by lia.
    change (drop (Z.to_nat 0) bs) with bs in Hn. by rewrite Hn. }
  pose proof (fun i => offsetAt_ok bs i H4) as Ho. split.
  - intros Hall. destruct (decide (n < 2 ^ 32 - 2)); [done |].
    pose proof (proj1 (Ho _) (Hall (Z.to_nat (2 ^ 32 - 2)) ltac:(lia))). lia.
  - intros Hsmall i Hi. apply Ho. rewrite (wrap_small 32) in Hl by lia. lia.
Qed.

(** Two malformed inputs a peer can send are read out of bounds: one of fewer
    than four bytes, and a bare count of [2^32 - 2], for which the size check
    is against zero. *)
Theorem txs_decode_overread `{Crypto} `{Recover} version txs bs check withHash :
  0 < lenZ bs < 4 \/ bs = [254; 255; 255; 255] ->
  txs_decode version txs bs check withHash = Throw UndefinedBehaviour.
Proof.
  unfold txs_decode, txs_decode_body. intros [Hl | ->].
  - rewrite (proj2 (Z.eqb_neq _ _)) by lia. unfold cropped1. rewrite (proj2 (Z.leb_le _ _)) by lia.
    destruct bs as [|a [|b [|c [|d bs]]]]; try done. len_simpl. pose proof (lenZ_nonneg bs). lia.
  - change (fromBytes32 (cropped1 0 [254; 255; 255; 255])) with (Ok (2 ^ 32 - 2)).
    change (lenZ [254; 255; 255; 255]) with 4. cbn [mbind result_bind].
    pose proof (resize_length (Z.to_nat (2 ^ 32 - 2)) txs) as Hlen.
    destruct (resize_txs (Z.to_nat (2 ^ 32 - 2)) txs) as [|t ts]; cbn [length] in Hlen; [lia |].
    reflexivity.
Qed.

(** The frame is made of bytes. *)
Lemma concat_bytes es : Forall bytes_ok es -> bytes_ok (concat es).
Proof. induction 1; cbn [concat]; [constructor | by apply Forall_app]. Qed.

Lemma tx_bytes_ok version t : tx_wf t -> bytes_ok (tx_wire_bytes version t).
Proof.
  intros Hw. destruct (tx_encs_facts version t Hw) as (g & Hg & _ & Hl & He).
  destruct Hw as (_ & Hu & [Ha Hal] & [Hd Hdl] & [Hx Hxl] & g' & Hg' & Hr & Hs & Hv).
  rewrite Hg in Hg'. injection Hg' as <-. repeat (apply Forall_cons in Hu as [? Hu]).
  unfold tx_wire_bytes. rewrite He. cbn [from_ok]. apply enc_list_bytes; [apply concat_bytes | lia].
  pose proof (wrap_range 8 (sig_v g + VBase) ltac:(lia)).
  destruct (hash_int_val _ Hr) as [_ ?], (hash_int_val _ Hs) as [_ ?].
  assert (bytes_ok (address_enc t)) as Hae.
  { unfold address_enc. destruct (tx_type t); apply enc_data_bytes; (done || lia || constructor). }
  assert (Forall bytes_ok (sig_encs g)) as Hsig.
  { repeat (apply Forall_cons; split; [apply enc_int_bytes; (done || unfold u256_ok; lia) |]). constructor. }
  assert (Forall bytes_ok (rc1_encs t)) as Hrc1.
  { do 4 (apply Forall_cons; split; [by apply enc_int_bytes |]). apply Forall_cons; split; [done |].
    apply Forall_cons; split; [by apply enc_int_bytes |].
    apply Forall_cons; split; [apply enc_data_bytes; (done || lia) | constructor]. }
  unfold tx_encs, rc2_encs. destruct (RC2_VERSION <=? version); repeat (apply Forall_app; split); try done.
  do 2 (apply Forall_cons; split; [by apply enc_int_bytes |]).
  apply Forall_cons; split; [apply enc_data_bytes; (done || lia) | constructor].
Qed.

Lemma frame_bytes es : Forall bytes_ok es -> bytes_ok (frame es).
Proof.
  intros He. assert (forall n, bytes_ok (toBytes32 n)) as Hw.
  { intros n. unfold toBytes32. repeat (apply Forall_cons; split; [apply Z.mod_pos_bound; lia |]). constructor. }
  unfold frame. apply Forall_app; split; [apply Hw |]. apply Forall_app; split; [| by apply concat_bytes].
  apply concat_bytes. rewrite Forall_map. by apply Forall_forall.
Qed.

(** What a block puts on the wire for its transactions. *)
Lemma txs_wire_ok `{Crypto} `{Recover} version txs : txs_wf version txs ->
  exists c, txs_encode version txs = Ok c /\ bytes_ok c /\ lenZ c < 2 ^ 59 /\
    forall withHash, txs_decode version [] c CheckNone withHash =
      Ok (map (fun t => arrived version withHash t emptyTx) txs).
Proof.
  intros Hw. destruct (decide (txs = [])) as [->|Hn].
  - exists []. split_and!; try done. constructor.
  - destruct (txs_encode_frame version txs Hw Hn) as (He & Hne & Hn' & Hc & Hs). eexists. split; [exact He |].
    split; [| split].
    + apply frame_bytes. rewrite Forall_map. eapply Forall_impl; [exact (proj1 Hw) |]. intros t [Ht _].
      by apply tx_bytes_ok.
    + rewrite frame_len. lia.
    + intros withHash. rewrite (frame_decode_txs version txs [] withHash Hw Hn). f_equal.
      unfold resize_txs. rewrite take_nil. cbn [length app]. rewrite Nat.sub_0_r.
      clear. induction txs as [|t txs IH]; [done |]. cbn. by rewrite IH.
Qed.

(** ** Witnesses *)
Lemma sample_txs_wf : txs_wf RC2_VERSION [sample_tx; sample_tx].
Proof.
  split_and!; [| done | vm_compute; reflexivity].
  do 2 (apply Forall_cons; split; [split; [apply sample_tx_wf | by left] |]). constructor.
Qed.

Lemma txs_encoders_agree_witness :
  exists es, txs_encode RC2_VERSION [sample_tx; sample_tx] = txs_encode_bytes es.
Proof.
  eexists. apply (@txs_encoders_agree toy_crypto toy_recover RC2_VERSION [sample_tx; sample_tx]).
  vm_compute. reflexivity.
Defined.

Lemma txs_wire_witness : exists bs, txs_encode RC2_VERSION [sample_tx; sample_tx] = Ok bs /\
  is_ok (@txs_decode toy_crypto toy_recover RC2_VERSION [] bs CheckNone true) = true.
Proof.
  destruct (@txs_wire toy_crypto toy_recover RC2_VERSION [sample_tx; sample_tx] [] true sample_txs_wf)
    as (bs & He & Hd).
  exists bs. split; [exact He | rewrite Hd; reflexivity].
Defined.

Lemma txs_table_bounds_witness :
  is_ok (offsetAt [1; 0; 0; 0; 0; 0; 0; 0; 1; 0; 0; 0; 7] 1) = true.
Proof.
  apply (proj2 (txs_table_bounds [1; 0; 0; 0; 0; 0; 0; 0; 1; 0; 0; 0; 7] 1
    ltac:(repeat constructor; unfold is_byte; lia) ltac:(reflexivity) ltac:(vm_compute; split; reflexivity))); lia.
Defined.

Lemma txs_decode_overread_witness :
  @txs_decode toy_crypto toy_recover RC2_VERSION [] [1] CheckNone false = Throw UndefinedBehaviour.
Proof. apply (@txs_decode_overread toy_crypto toy_recover). left. vm_compute. split; reflexivity. Defined.
