(* ===== verification/TrieHash.v ===== *)
(** * Patricia roots of key-value maps

    [libdevcore/TrieHash.cpp] and [hexPrefixEncode] of [TrieCommon.cpp]: the root of
    a map as the RC1 block format computes it over its transactions and
    receipts.  A [std::map] is the list of its entries in key order.  The
    recursion is proved to compute the Patricia tree of the map, which is
    defined here without reference to the order of the entries. *)

From S2P Require Import Prelude CommonData RLP PBFTMsg BlockHeader Transaction.
From Stdlib Require Import Sorted.

(** ** Ordered maps of byte strings *)
Fixpoint bytes_lt (a b : bytes) : bool :=
  match a, b with
  | _, [] => false
  | [], _ :: _ => true
  | x :: a', y :: b' => (x <? y) || ((x =? y) && bytes_lt a' b')
  end.

Abbreviation BytesMap := (list (bytes * bytes)) (only parsing).

(** [m[k] = v]. *)
Fixpoint map_set (k v : bytes) (m : BytesMap) : BytesMap :=
  match m with
  | [] => [(k, v)]
  | (k', v') :: r =>
      if bytes_lt k k' then (k, v) :: m
      else if bytes_lt k' k then (k', v') :: map_set k v r else (k, v) :: r
  end.

(** [m.insert(k, v)]: an entry that is there stays. *)
Fixpoint map_insert (k v : bytes) (m : BytesMap) : BytesMap :=
  match m with
  | [] => [(k, v)]
  | (k', v') :: r =>
      if bytes_lt k k' then (k, v) :: m
      else if bytes_lt k' k then (k', v') :: map_insert k v r else m
  end.

(** ** Hex prefixes *)
Fixpoint pack_nibbles (l : bytes) : bytes :=
  match l with
  | a :: b :: r => (a * 16 + b) :: pack_nibbles r
  | _ => []
  end.

(** [hexPrefixEncode(_hexVector, _leaf, _begin, _end)]; a negative end counts from
    the back. *)
Definition hexPrefixEncode (hexVector : bytes) (leaf : bool) (bg : nat) (ed : Z) : bytes :=
  let en := if ed <? 0 then lenZ hexVector + 1 + ed else ed in
  let odd := negb ((en - Z.of_nat bg) mod 2 =? 0) in
  let flags := Z.lor (if leaf then 2 else 0) (if odd then 1 else 0) * 16 in
  let sel := take (Z.to_nat (en - Z.of_nat bg)) (drop bg hexVector) in
  match odd, sel with
  | true, n :: rest => Z.lor flags n :: pack_nibbles rest
  | _, _ => flags :: pack_nibbles sel
  end.

(** ** The recursion *)

(** The nibbles two keys share, counted from [preLen] and at most [x]. *)
Definition shared_with (preLen x : nat) (a b : bytes) : nat :=
  (preLen + Z.to_nat (commonPrefix (drop preLen (take x a)) (drop preLen (take x b))))%nat.

(** The loop over the successors of [_begin]; [None] is [(unsigned)-1]. *)
Fixpoint shared_loop (first : bytes) (preLen : nat) (sharedPre : option nat) (rest : BytesMap)
    : option nat :=
  match rest with
  | [] => sharedPre
  | (k, _) :: rest' =>
      if bool_decide (sharedPre = Some 0%nat) then sharedPre
      else
        let m := Nat.min (length first) (length k) in
        let x := match sharedPre with Some p => Nat.min p m | None => m end in
        let shared := shared_with preLen x first k in
        shared_loop first preLen
          (Some (match sharedPre with Some p => Nat.min shared p | None => shared end)) rest'
  end.

(** The entries up to the first whose nibble differs, and the others. *)
Fixpoint span_nibble (preLen : nat) (i : Z) (b : BytesMap) : BytesMap * BytesMap :=
  match b with
  | (k, v) :: r =>
      if bool_decide (k !! preLen = Some i) then
        let '(l, n) := span_nibble preLen i r in ((k, v) :: l, n)
      else ([], b)
  | [] => ([], [])
  end.

Definition nibbles16 : list Z := map Z.of_nat (seq 0 16).

Section Hash.
Context `{Crypto}.

(** [hash256aux]: short nodes are included, others are hashed. *)
Definition hash256aux_of (node : result RLPStream) (rlp : RLPStream) : result RLPStream :=
  r ← node; o ← out r;
  if lenZ o <? 32 then appendRaw o 1 rlp else append_data (sha3 o) false rlp.

Section Branch.
Context (rec : BytesMap -> nat -> RLPStream -> result RLPStream) (preLen : nat).

(** The loop over the sixteen nibbles. *)
Fixpoint branch_ops (nibs : list Z) (b : BytesMap) : list (RLPStream -> result RLPStream) :=
  match nibs with
  | [] => []
  | i :: nibs' =>
      let '(l, n) := span_nibble preLen i b in
      (if bool_decide (l = []) then append_data [] false
       else hash256aux_of (rec l (S preLen) emptyStream)) :: branch_ops nibs' n
  end.
End Branch.

Fixpoint hash256rlp (fuel : nat) (s : BytesMap) (preLen : nat) (rlp : RLPStream)
    : result RLPStream :=
  match fuel with
  | O => Throw UndefinedBehaviour
  | S fuel' =>
      match s with
      | [] => append_data [] false rlp
      | [(k, v)] =>
          rlp ← appendList 2 rlp;
          streamAll [append_data (hexPrefixEncode k true preLen (-1)) false; append_data v false] rlp
      | (k, v) :: rest =>
          let sharedPre := default 0%nat (shared_loop k preLen None rest) in
          if (preLen <? sharedPre)%nat then
            rlp ← appendList 2 rlp;
            streamAll [append_data (hexPrefixEncode k false preLen (Z.of_nat sharedPre)) false;
                       hash256aux_of (hash256rlp fuel' s sharedPre emptyStream)] rlp
          else
            let ends := bool_decide (preLen = length k) in
            let b := if ends then rest else s in
            rlp ← appendList 17 rlp;
            streamAll (branch_ops (hash256rlp fuel') preLen nibbles16 b ++
                       [append_data (if ends then v else []) false]) rlp
      end
  end.

(** Enough for every key: the prefix grows with each call. *)
Definition trie_fuel (s : BytesMap) : nat :=
  S (fold_right (fun kv n => Nat.max (length (fst kv)) n) 0%nat s).

Definition rlp256 (s : BytesMap) : result bytes :=
  match s with
  | [] => Ok (enc_data [])
  | _ =>
      let hexMap := fold_right (fun kv m => map_set (asNibbles (fst kv)) (snd kv) m) [] s in
      r ← hash256rlp (trie_fuel hexMap) hexMap 0 emptyStream; out r
  end.

Definition hash256 (s : BytesMap) : result h256 := sha3 <$> rlp256 s.

(** [orderedTrieRoot]: the keys are the encoded positions. *)
Fixpoint ordered_map (j : Z) (data : list bytes) (m : BytesMap) : BytesMap :=
  match data with
  | [] => m
  | d :: r => ordered_map (j + 1) r (map_set (enc_int (wrap 32 j)) d m)
  end.

Definition orderedTrieRoot (data : list bytes) : result h256 := hash256 (ordered_map 0 data []).

(** ** The tree of a map *)

(** The common prefix of all keys. *)
Definition lcp (k0 : bytes) (J : BytesMap) : nat :=
  fold_right (fun kv n => Nat.min (Z.to_nat (commonPrefix k0 (fst kv))) n) (length k0) J.

Definition node_ref (e : bytes) : bytes := if lenZ e <? 32 then e else enc_data (sha3 e).

Definition at_nibble (i : nat) (b : Z) (kv : bytes * bytes) : bool := bool_decide (fst kv !! i = Some b).
Definition ends_at (i : nat) (kv : bytes * bytes) : bool := bool_decide (length (fst kv) = i).

Fixpoint trie_enc (fuel : nat) (J : BytesMap) (i : nat) : bytes :=
  match fuel with
  | O => []
  | S fuel' =>
      match J with
      | [] => enc_data []
      | [(k, v)] => enc_list (enc_data (hexPrefixEncode k true i (-1)) ++ enc_data v)
      | (k, _) :: _ =>
          let j := lcp k J in
          if (i <? j)%nat then
            enc_list (enc_data (hexPrefixEncode k false i (Z.of_nat j)) ++ node_ref (trie_enc fuel' J j))
          else
            enc_list (concat (map (fun b =>
                match List.filter (at_nibble i b) J with
                | [] => enc_data []
                | Jb => node_ref (trie_enc fuel' Jb (S i))
                end) nibbles16)
              ++ enc_data (match List.filter (ends_at i) J with (_, v) :: _ => v | [] => [] end))
      end
  end.
End Hash.

(** ** Facts on order and prefixes *)

(** Nibble keys in strict order, which agree on their first [i] nibbles. *)
Definition entry_lt (a b : bytes * bytes) : Prop := bytes_lt (fst a) (fst b) = true.
Definition share (i : nat) (J : BytesMap) : Prop :=
  forall a b, a ∈ J -> b ∈ J -> take i (fst a) = take i (fst b) /\ (i <= length (fst a))%nat.
Definition nibble (x : Z) : Prop := 0 <= x < 16.
Definition keys_ok (J : BytesMap) : Prop :=
  Forall (fun kv => Forall nibble (fst kv) /\ lenZ (fst kv) < 2 ^ 58 /\ lenZ (snd kv) < 2 ^ 58) J.

Lemma bytes_lt_app p a b : bytes_lt (p ++ a) (p ++ b) = bytes_lt a b.
Proof. induction p as [|x p IH]; cbn; [done |]. by rewrite Z.ltb_irrefl, Z.eqb_refl. Qed.

Lemma lt_after i a b : take i a = take i b -> bytes_lt a b = true ->
  bytes_lt (drop i a) (drop i b) = true.
Proof.
  intros Ht. rewrite <- (take_drop i a), <- (take_drop i b) at 1. rewrite Ht. by rewrite bytes_lt_app.
Qed.

(** In order, with a common prefix: only the first key can end there, and the
    next nibbles do not decrease. *)
Lemma lt_longer i a b : take i a = take i b -> bytes_lt a b = true -> (i < length b)%nat.
Proof.
  intros Ht Hlt%(lt_after i) ; [| done]. destruct (drop i b) as [|y l] eqn:E; [by destruct (drop i a) |].
  pose proof (length_drop b i) as Hl. rewrite E in Hl. cbn in Hl. lia.
Qed.

Lemma lt_nibble i a b x y : take i a = take i b -> bytes_lt a b = true ->
  a !! i = Some x -> b !! i = Some y -> x <= y.
Proof.
  intros Ht Hlt%(lt_after i) Hx Hy; [| done].
  rewrite (drop_S _ _ _ Hx), (drop_S _ _ _ Hy) in Hlt. cbn in Hlt.
  apply orb_true_iff in Hlt as [?|[? _]%andb_true_iff]; bool_to_prop; lia.
Qed.

Lemma commonPrefix_spec a b n : (Z.of_nat n <= commonPrefix a b) <->
  take n a = take n b /\ (n <= length a)%nat /\ (n <= length b)%nat.
Proof.
  revert b n. induction a as [|x a IH]; intros [|y b] [|n]; cbn [commonPrefix take length];
    try (split; [intros; split_and!; (done || lia) | intros; lia]);
    try (split; [lia | intros (? & ? & ?); lia]).
  - destruct (x =? y); [| split; [intros; split_and!; (done || lia) | lia]].
    pose proof (proj2 (IH b 0%nat)) as H0. rewrite !take_0 in H0.
    split; [intros; split_and!; (done || lia) |]. intros _. specialize (H0 ltac:(split_and!; (done || lia))). lia.
  - destruct (x =? y) eqn:E; bool_to_prop.
    + subst y. specialize (IH b n). split.
      * intros Hn. destruct IH as [IH _]. destruct IH as (Ht & ? & ?); [lia |].
        split_and!; [by rewrite Ht | lia | lia].
      * intros (Ht & ? & ?). injection Ht as Ht. destruct IH as [_ IH].
        specialize (IH ltac:(split_and!; (done || lia))). lia.
    + split; [lia |]. intros ([= ? _] & _). done.
Qed.

Definition cpn (a b : bytes) : nat := Z.to_nat (commonPrefix a b).

Lemma commonPrefix_nonneg a b : 0 <= commonPrefix a b.
Proof. revert b. induction a as [|x a IH]; intros [|y b]; cbn; try lia. specialize (IH b). destruct (x =? y); lia. Qed.

Lemma cpn_spec a b n : (n <= cpn a b)%nat <-> take n a = take n b /\ (n <= length a)%nat /\ (n <= length b)%nat.
Proof. unfold cpn. rewrite <- commonPrefix_spec. pose proof (commonPrefix_nonneg a b). lia. Qed.

Lemma nat_eq_by_le m n : (forall k, (k <= m)%nat <-> (k <= n)%nat) -> m = n.
Proof. intros Hk. apply Nat.le_antisymm; apply Hk; lia. Qed.

Lemma take_drop_eq i n (a b : bytes) : take i a = take i b ->
  take n (drop i a) = take n (drop i b) <-> take (i + n) a = take (i + n) b.
Proof.
  intros Hi. rewrite <- !take_take_drop, Hi. split; [by intros -> | apply app_inv_head].
Qed.

Lemma shared_with_spec i x a b : take i a = take i b -> (i <= x)%nat ->
  (x <= length a)%nat -> (x <= length b)%nat -> shared_with i x a b = Nat.min x (cpn a b).
Proof.
  intros Hi Hx Ha Hb. apply nat_eq_by_le. intros n. rewrite Nat.min_glb_iff, cpn_spec. unfold shared_with.
  destruct (decide (n <= i)%nat) as [Hn|Hn].
  - split; [intros _ | lia]. split_and!; [lia | | lia | lia].
    apply (f_equal (take n)) in Hi. rewrite !take_take in Hi. by replace (n `min` i)%nat with n in Hi by lia.
  - replace n with (i + (n - i))%nat by lia. set (m := (n - i)%nat). fold (cpn (drop i (take x a)) (drop i (take x b))).
    rewrite <- Nat.add_le_mono_l, cpn_spec, !length_drop, !length_take.
    rewrite take_drop_eq by (rewrite !take_take; by replace (i `min` x)%nat with i by lia).
    rewrite !take_take. split.
    + intros (Ht & ? & ?). rewrite Nat.min_l in Ht by lia. split_and!; (done || lia).
    + intros (? & Ht & ? & ?). rewrite Nat.min_l by lia. split_and!; (done || lia).
Qed.

Definition lcp_from (base : nat) (k0 : bytes) (J : BytesMap) : nat :=
  fold_right (fun kv n => Nat.min (cpn k0 (fst kv)) n) base J.

Lemma lcp_from_min p q k0 J : lcp_from (Nat.min p q) k0 J = Nat.min p (lcp_from q k0 J).
Proof. induction J as [|kv J IH]; cbn; [done |]. unfold lcp_from in IH. rewrite IH. lia. Qed.

Lemma lcp_from_le p k0 J : (lcp_from p k0 J <= p)%nat.
Proof. induction J as [|kv J IH]; cbn; [done |]. unfold lcp_from in IH. lia. Qed.

Lemma shared_loop_some i k p J : (i <= p <= length k)%nat -> (forall b, b ∈ J -> take i k = take i (fst b) /\ (i <= length (fst b))%nat) ->
  shared_loop k i (Some p) J = Some (lcp_from p k J).
Proof.
  revert p. induction J as [|[k' v] J IH]; intros p Hp Hs; cbn [shared_loop]; [done |].
  case_bool_decide as Hz.
  { injection Hz as ->. pose proof (lcp_from_le 0 k ((k', v) :: J)). f_equal. lia. }
  destruct (Hs (k', v) ltac:(apply list_elem_of_here)) as [Ht Hl]. cbn [fst] in *.
  rewrite (shared_with_spec i) by (done || lia). pose proof (proj2 (cpn_spec k k' i)) as Hc.
  assert (cpn k k' <= Nat.min (length k) (length k'))%nat as Hcl.
  { destruct (proj1 (cpn_spec k k' (cpn k k')) ltac:(done)) as (_ & ? & ?). lia. }
  rewrite IH; [| specialize (Hc ltac:(split_and!; (done || lia))); lia | intros b Hb; apply Hs; by apply list_elem_of_further].
  f_equal. cbn [lcp_from fold_right fst]. fold (lcp_from p k J). rewrite <- lcp_from_min. f_equal. lia.
Qed.

(** What the loop computes is the common prefix of all keys. *)
Lemma shared_loop_lcp i k v kv J : share i ((k, v) :: kv :: J) ->
  default 0%nat (shared_loop k i None (kv :: J)) = lcp k ((k, v) :: kv :: J).
Proof.
  intros Hs. assert (forall b, b ∈ kv :: J -> take i k = take i (fst b) /\ (i <= length (fst b))%nat) as Hb.
  { intros b Hb. destruct (Hs (k, v) b) as [? ?]; [apply list_elem_of_here | by apply list_elem_of_further |].
    destruct (Hs b (k, v)) as [? ?]; [by apply list_elem_of_further | apply list_elem_of_here |]. done. }
  destruct (Hs (k, v) (k, v)) as [_ Hk]; [apply list_elem_of_here.. |]. cbn [fst] in Hk.
  destruct kv as [k' v']. destruct (Hb (k', v') ltac:(apply list_elem_of_here)) as [Ht Hl]. cbn [fst] in *.
  cbn [shared_loop]. rewrite bool_decide_false by done. rewrite (shared_with_spec i) by (done || lia).
  assert (cpn k k' <= Nat.min (length k) (length k'))%nat as Hcl.
  { destruct (proj1 (cpn_spec k k' (cpn k k')) ltac:(done)) as (_ & ? & ?). lia. }
  pose proof (proj2 (cpn_spec k k' i) ltac:(done)).
  rewrite shared_loop_some; [| lia | intros b Hb'; apply Hb; by apply list_elem_of_further]. cbn [default].
  change (lcp k ((k, v) :: (k', v') :: J)) with (Nat.min (cpn k k) (Nat.min (cpn k k') (lcp_from (length k) k J))).
  assert (cpn k k = length k) as -> by (apply nat_eq_by_le; intros n; rewrite cpn_spec; naive_solver lia).
  replace (Nat.min (Nat.min (length k) (length k')) (cpn k k')) with (Nat.min (cpn k k') (length k)) by lia.
  unfold id. rewrite lcp_from_min. pose proof (lcp_from_le (length k) k J). lia.
Qed.

(** ** Grouping by a nibble *)

(** Entries longer than [i] whose nibbles at [i] do not decrease. *)
Definition graded (i : nat) (lo : Z) (b : BytesMap) : Prop :=
  StronglySorted (fun a c => forall x y, fst a !! i = Some x -> fst c !! i = Some y -> x <= y) b /\
  Forall (fun a => exists x, fst a !! i = Some x /\ lo <= x) b.

Lemma span_filter i n b : graded i n b ->
  span_nibble i n b = (List.filter (at_nibble i n) b, List.filter (fun kv => negb (at_nibble i n kv)) b) /\
  graded i (n + 1) (List.filter (fun kv => negb (at_nibble i n kv)) b).
Proof.
  intros [Hs Hf]. induction b as [|[k v] b IH]; [by repeat constructor |].
  apply StronglySorted_inv in Hs as [Hs Hh]. apply Forall_cons in Hf as [(x & Hx & Hlo) Hf].
  cbn [span_nibble List.filter fst] in *.
  change (at_nibble i n (k, v)) with (bool_decide (k !! i = Some n)). rewrite Hx.
  case_bool_decide as E; cbn [negb].
  - destruct (IH Hs Hf) as [-> ?]. done.
  - assert (n < x) as Hnx by (destruct (decide (x = n)); [congruence | lia]).
    assert (Forall (fun a => exists y, fst a !! i = Some y /\ n + 1 <= y) b) as Hb.
    { rewrite Forall_forall in *. intros a Ha. destruct (Hf a Ha) as (y & Hy & _). exists y.
      split; [done |]. specialize (Hh a Ha x y Hx Hy). lia. }
    assert (List.filter (at_nibble i n) b = [] /\ List.filter (fun kv => negb (at_nibble i n kv)) b = b) as [-> ->].
    { clear -Hb. induction Hb as [|a b (y & Hy & Hny) _ IH]; [done |]. cbn [List.filter].
      change (at_nibble i n a) with (bool_decide (fst a !! i = Some n)). rewrite Hy.
      rewrite bool_decide_false by (intros [= ->]; lia). cbn [negb]. destruct IH as [-> ->]. done. }
    split; [done |]. split; [by constructor |]. apply Forall_cons. split; [| done]. exists x. split; [done | lia].
Qed.

Lemma filter_filter_other i n m b : m <> n ->
  List.filter (at_nibble i m) (List.filter (fun kv => negb (at_nibble i n kv)) b) =
  List.filter (at_nibble i m) b.
Proof.
  intros Hn. induction b as [|kv b IH]; [done |]. cbn [List.filter].
  change (at_nibble i n kv) with (bool_decide (fst kv !! i = Some n)).
  change (at_nibble i m kv) with (bool_decide (fst kv !! i = Some m)).
  case_bool_decide as E; cbn [negb List.filter].
  - rewrite bool_decide_false by congruence. done.
  - change (at_nibble i m kv) with (bool_decide (fst kv !! i = Some m)). by rewrite IH.
Qed.

(** Every operation of the loop acts on the entries with its nibble. *)
Lemma branch_ops_filter `{Crypto} rec i cnt : forall n b, graded i (Z.of_nat n) b ->
  branch_ops rec i (map Z.of_nat (seq n cnt)) b =
  map (fun m => let l := List.filter (at_nibble i m) b in
                if bool_decide (l = []) then append_data [] false
                else hash256aux_of (rec l (S i) emptyStream)) (map Z.of_nat (seq n cnt)).
Proof.
  induction cnt as [|cnt IH]; intros n b Hg; [done |]. cbn [seq map branch_ops].
  destruct (span_filter i _ b Hg) as [-> Hg'].
  replace (Z.of_nat n + 1) with (Z.of_nat (S n)) in Hg' by lia. rewrite (IH (S n) _ Hg'). f_equal.
  rewrite !map_map. apply map_ext_in. intros m Hm%in_seq. cbn zeta. by rewrite !filter_filter_other by lia.
Qed.

Lemma in_filter {A} (f : A -> bool) l x : x ∈ List.filter f l <-> x ∈ l /\ f x = true.
Proof. rewrite !list_elem_of_In. apply filter_In. Qed.

Lemma entries_sorted_filter {A} (R : A -> A -> Prop) f l : StronglySorted R l -> StronglySorted R (List.filter f l).
Proof.
  induction 1 as [|a l Hs IH Hf]; cbn; [constructor |]. destruct (f a); [| done]. constructor; [done |].
  rewrite Forall_forall in *. intros x [Hx _]%in_filter. by apply Hf.
Qed.

(** What a call of the recursion is given. *)
Record trie_arg (fuel i : nat) (J : BytesMap) : Prop := {
  ta_sorted : StronglySorted entry_lt J;
  ta_share : share i J;
  ta_keys : keys_ok J;
  ta_fuel : forall kv, kv ∈ J -> (length (fst kv) < fuel + i)%nat
}.

Lemma share_nibble i m J : share i J -> share (S i) (List.filter (at_nibble i m) J).
Proof.
  intros Hs a b [Ha Hna]%in_filter [Hb Hnb]%in_filter. destruct (Hs a b Ha Hb) as [Ht _].
  unfold at_nibble in *. bool_to_prop. rewrite (take_S_r _ _ _ Hna), (take_S_r _ _ _ Hnb), Ht.
  split; [done |]. apply lookup_lt_Some in Hna. lia.
Qed.

Lemma lcp_below k J kv : kv ∈ J -> (lcp k J <= cpn k (fst kv))%nat.
Proof. induction 1 as [kv J|kv x J _ IH]; cbn; fold (cpn k (fst kv)); [lia |]. unfold lcp in IH. lia. Qed.

Lemma share_lcp k J : share (lcp k J) J.
Proof.
  intros a b Ha Hb. destruct (proj1 (cpn_spec _ _ _) (lcp_below k J a Ha)) as (Ea & _ & ?).
  destruct (proj1 (cpn_spec _ _ _) (lcp_below k J b Hb)) as (Eb & _ & _). split; [congruence | done].
Qed.

Lemma arg_nibble fuel i m J : trie_arg (S fuel) i J -> trie_arg fuel (S i) (List.filter (at_nibble i m) J).
Proof.
  intros [Hs Hsh Hk Hf]. split; [by apply entries_sorted_filter | by apply share_nibble | |].
  - unfold keys_ok in *. rewrite Forall_forall in *. intros x [Hx _]%in_filter. by apply Hk.
  - intros kv [Hx _]%in_filter. specialize (Hf kv Hx). lia.
Qed.

Lemma arg_lcp fuel i k J : trie_arg (S fuel) i J -> (i < lcp k J)%nat -> trie_arg fuel (lcp k J) J.
Proof.
  intros [Hs Hsh Hk Hf] Hi. split; [done | apply share_lcp | done |]. intros kv Hx. specialize (Hf kv Hx). lia.
Qed.

Lemma share_sub i J K : share i J -> (forall x, x ∈ K -> x ∈ J) -> share i K.
Proof. intros Hs Hin a b Ha Hb. apply Hs; by apply Hin. Qed.

(** Entries longer than the prefix are graded. *)
Lemma graded_arg i J : StronglySorted entry_lt J -> share i J -> keys_ok J ->
  (forall kv, kv ∈ J -> (i < length (fst kv))%nat) -> graded i 0 J.
Proof.
  intros Hs Hsh Hk Hl. split.
  - induction Hs as [|a J Hs IH Hf]; [constructor |]. apply Forall_cons in Hk as [_ Hk]. constructor.
    + apply IH; [eapply share_sub; [exact Hsh |] | done |]; intros; [| apply Hl]; by apply list_elem_of_further.
    + rewrite Forall_forall in *. intros c Hc x y Hx Hy. apply (lt_nibble i (fst a) (fst c)); [| by apply Hf | done..].
      apply Hsh; [apply list_elem_of_here | by apply list_elem_of_further].
  - unfold keys_ok in Hk. rewrite Forall_forall in *. intros a Ha. specialize (Hl a Ha). destruct (Hk a Ha) as [Hn _].
    destruct (lookup_lt_is_Some_2 _ _ Hl) as [x Hx]. exists x. split; [done |].
    apply (Forall_lookup_1 _ _ _ _ Hn) in Hx. unfold nibble in Hx. lia.
Qed.

Lemma pack_length l : (length (pack_nibbles l) <= length l)%nat.
Proof.
  cut (forall n l, (length l <= n)%nat -> (length (pack_nibbles l) <= length l)%nat); [intros Hc; by apply (Hc (length l)) |].
  clear l. induction n as [|n IH]; intros [|a [|b l]] Hl; cbn [pack_nibbles length] in *; try lia.
  specialize (IH l ltac:(lia)). lia.
Qed.

Lemma hexPrefix_len k leaf bg ed : lenZ (hexPrefixEncode k leaf bg ed) <= lenZ k + 1.
Proof.
  unfold hexPrefixEncode, lenZ. set (sel := take _ _).
  assert (length sel <= length k)%nat as Hl by (unfold sel; rewrite length_take, length_drop; lia).
  pose proof (pack_length sel). clearbody sel. destruct (negb _), sel as [|n rest]; cbn [length] in *; try lia.
  pose proof (pack_length rest). lia.
Qed.

(** ** The recursion computes the tree *)
Section Tree.
Context `{Crypto} (sha3_len : forall b, lenZ (sha3 b) = 32).

Lemma asNibbles_cons b bs : asNibbles (b :: bs) = b / 16 :: b mod 16 :: asNibbles bs.
Proof. reflexivity. Qed.

(** The encoded prefix, read as nibbles: the flags, a padding nibble where the number of
    nibbles is even, and the nibbles themselves. *)
Lemma asNibbles_pack l : Forall nibble l -> forall n, length l = (2 * n)%nat -> asNibbles (pack_nibbles l) = l.
Proof.
  intros Hl n. revert l Hl. induction n as [|n IH]; intros l Hl Hn; [by destruct l |].
  destruct l as [|a [|b l]]; cbn in Hn; try lia. apply Forall_cons in Hl as [Ha Hl]. apply Forall_cons in Hl as [Hb Hl]. unfold nibble in *.
  cbn [pack_nibbles]. rewrite asNibbles_cons.
  rewrite (IH l Hl ltac:(lia)), Z.div_add_l, Z.div_small, Z.add_0_r by lia. do 2 f_equal. rewrite Z.add_comm, Z_mod_plus_full. by apply Z.mod_small.
Qed.
Lemma hexPrefix_nibbles k (leaf : bool) bg en : Forall nibble k -> Z.of_nat bg <= en <= lenZ k ->
  let sel := take (Z.to_nat (en - Z.of_nat bg)) (drop bg k) in let flag := if leaf then 2 else 0 in
  asNibbles (hexPrefixEncode k leaf bg en) = (if Z.odd (lenZ sel) then [flag + 1] else [flag; 0]) ++ sel.
Proof.
  intros Hk Hen sel flag. unfold hexPrefixEncode. rewrite (proj2 (Z.ltb_ge en 0)) by lia. fold sel.
  assert (Hlen : lenZ sel = en - Z.of_nat bg). { unfold sel, lenZ in *. rewrite length_take, length_drop. lia. }
  assert (Hs : Forall nibble sel) by by apply Forall_take, Forall_drop.
  rewrite Hlen, Zmod_odd. rewrite <- Hlen. destruct (Z.odd (lenZ sel)) eqn:Eo; cbn [Z.eqb negb].
  - destruct sel as [|n rest]; [done |]. apply Forall_cons in Hs as [Hn Hs].
    assert (Hf : Z.lor (Z.lor (if leaf then 2 else 0) 1 * 16) n = (flag + 1) * 16 + n).
    { assert (Hall : forallb (fun x => Z.lor (Z.lor (if leaf then 2 else 0) 1 * 16) x =? (flag + 1) * 16 + x) (seqZ 0 16) = true) by (by destruct leaf; vm_compute).
      rewrite forallb_forall in Hall. apply Z.eqb_eq, Hall, list_elem_of_In, elem_of_seqZ. unfold nibble in Hn. lia. }
    rewrite Hf. rewrite asNibbles_cons.
    rewrite lenZ_cons, Z.odd_add, xorb_true_l in Eo. apply negb_true_iff in Eo. rewrite <- Z.negb_even in Eo. apply negb_false_iff, Z.even_spec in Eo as [m Em].
    rewrite (asNibbles_pack rest Hs (Z.to_nat m)) by (unfold lenZ in Em; lia). unfold nibble in Hn.
    rewrite Z.div_add_l, Z.div_small, Z.add_0_r by lia. cbn. do 2 f_equal. rewrite Z.add_comm, Z_mod_plus_full. by apply Z.mod_small.
  - rewrite <- Z.negb_even in Eo. apply negb_false_iff, Z.even_spec in Eo as [m Em].
    rewrite Z.lor_0_r. rewrite asNibbles_cons.
    rewrite (asNibbles_pack sel Hs (Z.to_nat m)) by (unfold lenZ in Em; lia). unfold flag. by destruct leaf.
Qed.

Lemma node_ref_len e : lenZ (node_ref e) <= 41.
Proof.
  unfold node_ref. destruct (lenZ e <? 32) eqn:E; bool_to_prop; [lia |].
  pose proof (enc_data_len (sha3 e)) as Hl. rewrite sha3_len in Hl. lia.
Qed.

Definition computes (op : RLPStream -> result RLPStream) (e : bytes) : Prop :=
  forall s, op s = appendRaw e 1 s.

Lemma aux_computes op e : computes op e -> computes (hash256aux_of (op emptyStream)) (node_ref e).
Proof.
  intros Ho s. unfold hash256aux_of, node_ref. rewrite Ho. cbn.
  destruct (lenZ e <? 32); [done |]. apply append_data_ref. rewrite sha3_len. lia.
Qed.

Lemma list_computes ops es : Forall2 computes ops es -> lenZ (concat es) < 2 ^ 64 ->
  computes (fun s => s ← appendList (lenZ ops) s; streamAll ops s) (enc_list (concat es)).
Proof. intros Ho Hl s. by apply (appendVector_ref2 (fun op => op)). Qed.

Lemma data_computes b : lenZ b < 2 ^ 64 -> computes (append_data b false) (enc_data b).
Proof. intros Hb s. by apply append_data_ref. Qed.

Lemma concat_small (es : list bytes) c : Forall (fun e => lenZ e <= c) es -> lenZ (concat es) <= c * lenZ es.
Proof. induction 1 as [|e es He _ IH]; cbn [concat]; len_simpl; lia. Qed.

Section Step.
Context (fuel : nat).
Context (IH : forall J i, J <> [] -> trie_arg fuel i J ->
  computes (hash256rlp fuel J i) (trie_enc fuel J i)).

Lemma leaf_computes i k v : keys_ok [(k, v)] ->
  computes (hash256rlp (S fuel) [(k, v)] i) (trie_enc (S fuel) [(k, v)] i).
Proof.
  intros [(_ & Hk & Hv) _]%Forall_cons. cbn [fst snd] in *. pose proof (hexPrefix_len k true i (-1)) as Hp.
  assert (trie_enc (S fuel) [(k, v)] i = enc_list (concat [enc_data (hexPrefixEncode k true i (-1)); enc_data v]))
    as -> by (cbn [concat]; by rewrite app_nil_r).
  apply list_computes.
  - repeat constructor; apply data_computes; lia.
  - cbn [concat]. len_simpl. pose proof (enc_data_len (hexPrefixEncode k true i (-1)) ltac:(lia)).
    pose proof (enc_data_len v ltac:(lia)). lia.
Qed.

Lemma ext_computes i k v kv J : let s := (k, v) :: kv :: J in
  trie_arg (S fuel) i s -> (i < lcp k s)%nat ->
  computes (hash256rlp (S fuel) s i) (trie_enc (S fuel) s i).
Proof.
  intros s Ha Hi. pose proof (IH s _ ltac:(done) (arg_lcp _ _ _ _ Ha Hi)) as Hc.
  destruct Ha as [_ Hsh [(_ & Hk & _) _]%Forall_cons _]. cbn [fst] in Hk.
  set (hp := hexPrefixEncode k false i (Z.of_nat (lcp k s))).
  pose proof (hexPrefix_len k false i (Z.of_nat (lcp k s))) as Hp. fold hp in Hp.
  assert (trie_enc (S fuel) s i = enc_list (concat [enc_data hp; node_ref (trie_enc fuel s (lcp k s))])) as ->.
  { unfold s at 1. cbn [trie_enc concat]. fold s. rewrite (proj2 (Nat.ltb_lt _ _)) by done. by rewrite app_nil_r. }
  intros rlp. unfold s at 1. cbn [hash256rlp]. rewrite (shared_loop_lcp i k v kv J Hsh). fold s.
  rewrite (proj2 (Nat.ltb_lt _ _)) by done. revert rlp. apply list_computes.
  - repeat constructor; [apply data_computes; lia | by apply aux_computes].
  - cbn [concat]. len_simpl. pose proof (enc_data_len hp ltac:(lia)).
    pose proof (node_ref_len (trie_enc fuel s (lcp k s))). lia.
Qed.

(** The sixteen children. *)
Definition child_enc (i : nat) (J : BytesMap) (m : Z) : bytes :=
  match List.filter (at_nibble i m) J with [] => enc_data [] | Jb => node_ref (trie_enc fuel Jb (S i)) end.

Lemma children_compute i J b : trie_arg (S fuel) i J -> graded i 0 b ->
  (forall m, List.filter (at_nibble i m) b = List.filter (at_nibble i m) J) ->
  Forall2 computes (branch_ops (hash256rlp fuel) i nibbles16 b) (map (child_enc i J) nibbles16).
Proof.
  intros Ha Hg Hb. unfold nibbles16. rewrite (branch_ops_filter _ i 16 0) by done.
  apply Forall2_fmap. apply Forall_Forall2_diag. apply Forall_forall. intros m _. cbn zeta. rewrite Hb.
  unfold child_enc. pose proof (arg_nibble fuel i m J Ha) as Hm.
  destruct (List.filter (at_nibble i m) J) as [|kv l]; [apply data_computes; rewrite lenZ_nil; lia |].
  rewrite bool_decide_false by done. apply aux_computes. by apply IH.
Qed.

Lemma child_len i J m : lenZ (child_enc i J m) <= 41.
Proof. unfold child_enc. destruct (List.filter _ _); [vm_compute; discriminate | apply node_ref_len]. Qed.

(** Only the first entry can end at the prefix. *)
Lemma split_ends i k v J : StronglySorted entry_lt ((k, v) :: J) -> share i ((k, v) :: J) ->
  (forall kv, kv ∈ J -> (i < length (fst kv))%nat) /\
  List.filter (ends_at i) ((k, v) :: J) = (if bool_decide (i = length k) then [(k, v)] else []) /\
  (i = length k -> forall m, List.filter (at_nibble i m) J = List.filter (at_nibble i m) ((k, v) :: J)).
Proof.
  intros [Hs Hf]%StronglySorted_inv Hsh. rewrite Forall_forall in Hf.
  assert (forall kv, kv ∈ J -> (i < length (fst kv))%nat) as Hl.
  { intros kv Hkv. apply (lt_longer i k (fst kv)); [| by apply (Hf kv)].
    apply (Hsh (k, v) kv); [apply list_elem_of_here | by apply list_elem_of_further]. }
  split_and!; [done | |].
  - cbn [List.filter]. change (ends_at i (k, v)) with (bool_decide (length k = i)).
    assert (List.filter (ends_at i) J = []) as ->.
    { clear -Hl. induction J as [|kv J IH]; [done |]. cbn [List.filter].
      rewrite IH by (intros; apply Hl; by apply list_elem_of_further).
      unfold ends_at. specialize (Hl kv ltac:(apply list_elem_of_here)). by rewrite bool_decide_false by lia. }
    repeat case_bool_decide; congruence.
  - intros -> m. cbn [List.filter]. unfold at_nibble at 2. cbn [fst].
    by rewrite lookup_ge_None_2, bool_decide_false by done.
Qed.

Lemma branch_computes i k v kv J : let s := (k, v) :: kv :: J in
  trie_arg (S fuel) i s -> ~ (i < lcp k s)%nat ->
  computes (hash256rlp (S fuel) s i) (trie_enc (S fuel) s i).
Proof.
  intros s Ha Hi. pose proof Ha as [Hs Hsh Hk _].
  destruct (split_ends i k v (kv :: J) Hs Hsh) as (Hl & He & Hsame).
  set (value := if bool_decide (i = length k) then v else []).
  assert (trie_enc (S fuel) s i = enc_list (concat (map (child_enc i s) nibbles16 ++ [enc_data value]))) as ->.
  { unfold s at 1. cbn [trie_enc]. fold s. rewrite (proj2 (Nat.ltb_ge _ _)) by lia. unfold s in *. rewrite He.
    rewrite concat_app. cbn [concat]. rewrite app_nil_r. unfold value. by case_bool_decide. }
  intros rlp. unfold s at 1. cbn [hash256rlp]. rewrite (shared_loop_lcp i k v kv J Hsh). fold s.
  rewrite (proj2 (Nat.ltb_ge _ _)) by lia. fold value.
  set (b := if bool_decide (i = length k) then kv :: J else s).
  assert (Forall2 computes (branch_ops (hash256rlp fuel) i nibbles16 b) (map (child_enc i s) nibbles16)) as Hc.
  { apply children_compute; [done | |].
    - apply StronglySorted_inv in Hs as Hs'. pose proof Hk as Hk'. apply Forall_cons in Hk' as [_ Hk'].
      destruct (Hsh (k, v) (k, v)) as [_ Hki]; [apply list_elem_of_here.. |]. cbn [fst] in Hki.
      unfold b. case_bool_decide as E; apply graded_arg; try done; try apply Hs'.
      + eapply share_sub; [exact Hsh |]. intros. by apply list_elem_of_further.
      + intros x [->|Hx]%elem_of_cons; [cbn; lia | by apply Hl].
    - intros m. unfold b. case_bool_decide; [by apply Hsame | done]. }
  apply Forall_cons in Hk as [(_ & _ & Hv) _]. cbn [snd] in Hv.
  assert (lenZ value < 2 ^ 58) as Hv' by (unfold value; case_bool_decide; [done | rewrite lenZ_nil; lia]).
  assert (Forall2 computes (branch_ops (hash256rlp fuel) i nibbles16 b ++ [append_data value false])
    (map (child_enc i s) nibbles16 ++ [enc_data value])) as Hops.
  { apply Forall2_app; [done |]. repeat constructor. apply data_computes. lia. }
  pose proof (Forall2_length _ _ _ Hops) as Hn.
  replace 17 with (lenZ (branch_ops (hash256rlp fuel) i nibbles16 b ++ [append_data value false]))
    by (unfold lenZ; rewrite Hn; done).
  apply list_computes; [done |]. rewrite concat_app, lenZ_app. cbn [concat]. rewrite app_nil_r.
  pose proof (enc_data_len value ltac:(lia)).
  pose proof (concat_small (map (child_enc i s) nibbles16) 41 ltac:(rewrite Forall_map; apply Forall_forall; intros; apply child_len)).
  change (lenZ (map (child_enc i s) nibbles16)) with 16 in *. lia.
Qed.
End Step.

Lemma tree_computes fuel : forall J i, J <> [] -> trie_arg fuel i J ->
  computes (hash256rlp fuel J i) (trie_enc fuel J i).
Proof.
  induction fuel as [|fuel IH]; intros J i Hne Ha.
  - destruct J as [|kv J]; [done |]. exfalso. destruct Ha as [_ Hsh _ Hf].
    specialize (Hf kv ltac:(apply list_elem_of_here)).
    destruct (Hsh kv kv) as [_ ?]; [apply list_elem_of_here.. |]. lia.
  - destruct J as [|[k v] [|kv J]]; [done | by apply leaf_computes, (ta_keys _ _ _ Ha) |].
    destruct (decide (i < lcp k ((k, v) :: kv :: J))%nat); [by apply ext_computes | by apply branch_computes].
Qed.
End Tree.

(** ** Roots *)
Definition nibble_entry (kv : bytes * bytes) : bytes * bytes := (asNibbles (fst kv), snd kv).

Definition entries_ok (m : BytesMap) : Prop :=
  Forall (fun kv => bytes_ok (fst kv) /\ lenZ (fst kv) < 2 ^ 57 /\ lenZ (snd kv) < 2 ^ 58) m.

Lemma asNibbles_lt a b : bytes_ok a -> bytes_ok b -> bytes_lt (asNibbles a) (asNibbles b) = bytes_lt a b.
Proof.
  intros Ha. revert b. induction Ha as [|x a Hx _ IH]; intros b Hb.
  - destruct Hb; [done |]. by rewrite asNibbles_cons.
  - destruct Hb as [|y b Hy Hb]; [by rewrite asNibbles_cons |]. rewrite !asNibbles_cons. cbn [bytes_lt].
    rewrite (IH b Hb). unfold is_byte in *.
    pose proof (Z.div_mod x 16 ltac:(lia)). pose proof (Z.div_mod y 16 ltac:(lia)).
    pose proof (Z.mod_pos_bound x 16 ltac:(lia)). pose proof (Z.mod_pos_bound y 16 ltac:(lia)).
    destruct (bytes_lt a b), (Z.ltb_spec (x / 16) (y / 16)), (Z.eqb_spec (x / 16) (y / 16)),
      (Z.ltb_spec (x mod 16) (y mod 16)), (Z.eqb_spec (x mod 16) (y mod 16)), (Z.ltb_spec x y), (Z.eqb_spec x y);
      cbn; try done; lia.
Qed.

Lemma asNibbles_ok a : bytes_ok a -> Forall nibble (asNibbles a) /\ lenZ (asNibbles a) = 2 * lenZ a.
Proof.
  induction 1 as [|x a Hx _ [IH1 IH2]]; [by split |]. rewrite asNibbles_cons. len_simpl.
  pose proof (Z.mod_pos_bound x 16 ltac:(lia)). unfold is_byte in Hx.
  pose proof (Z.div_pos x 16 ltac:(lia) ltac:(lia)). pose proof (Z.div_lt_upper_bound x 16 16 ltac:(lia) ltac:(lia)).
  split; [| lia]. apply Forall_cons. split; [unfold nibble; lia |]. apply Forall_cons. split; [unfold nibble; lia | done].
Qed.

Lemma hexMap_ref m : StronglySorted entry_lt m -> entries_ok m ->
  fold_right (fun kv m => map_set (asNibbles (fst kv)) (snd kv) m) [] m = map nibble_entry m.
Proof.
  induction 1 as [|kv m Hs IH Hf]; intros Hk; [done |]. apply Forall_cons in Hk as [(Hkv & _) Hk].
  cbn [fold_right map]. rewrite IH by done. destruct m as [|kv' m]; [done |]. cbn [map map_set nibble_entry].
  apply Forall_cons in Hf as [Hlt _]. apply Forall_cons in Hk as [(Hkv' & _) _].
  unfold nibble_entry at 1. by rewrite asNibbles_lt, Hlt by done.
Qed.

Lemma bytes_lt_trans a b c : bytes_lt a b = true -> bytes_lt b c = true -> bytes_lt a c = true.
Proof.
  revert b c. induction a as [|x a IH]; intros [|y b] [|z c]; cbn; try done. intros H1 H2.
  apply orb_true_iff in H1, H2. apply orb_true_iff.
  destruct H1 as [H1|[H1 H1']%andb_true_iff], H2 as [H2|[H2 H2']%andb_true_iff]; bool_to_prop.
  1-3: left; apply Z.ltb_lt; lia.
  right. subst. rewrite Z.eqb_refl. by apply (IH b).
Qed.

Lemma map_insert_elem k v m x : x ∈ map_insert k v m -> x = (k, v) \/ x ∈ m.
Proof.
  induction m as [|[k' v'] m IH]; cbn [map_insert]; [set_solver |].
  destruct (bytes_lt k k'); [| destruct (bytes_lt k' k)]; set_solver.
Qed.

Lemma map_insert_sorted k v m : StronglySorted entry_lt m -> StronglySorted entry_lt (map_insert k v m).
Proof.
  induction 1 as [|[k' v'] m Hs IH Hf]; cbn [map_insert]; [by repeat constructor |].
  destruct (bytes_lt k k') eqn:E1; [| destruct (bytes_lt k' k) eqn:E2]; [| | by constructor].
  - constructor; [by constructor |]. apply Forall_cons. split; [done |]. eapply Forall_impl; [exact Hf |].
    intros x Hx. unfold entry_lt in *. cbn [fst] in *. by apply (bytes_lt_trans k k').
  - constructor; [done |]. apply Forall_forall. intros x Hx. apply map_insert_elem in Hx as [->|Hx]; [done |].
    rewrite Forall_forall in Hf. by apply Hf.
Qed.

Lemma fuel_enough kv J : kv ∈ J -> (length (fst kv) < trie_fuel J)%nat.
Proof. unfold trie_fuel. induction 1 as [kv J|kv x J _ IH]; cbn in *; lia. Qed.

Lemma hex_arg m : StronglySorted entry_lt m -> entries_ok m ->
  trie_arg (trie_fuel (map nibble_entry m)) 0 (map nibble_entry m).
Proof.
  intros Hs Hk. split.
  - induction Hs as [|kv m Hs IH Hf]; [constructor |]. apply Forall_cons in Hk as [(Hkv & _) Hk]. cbn [map].
    constructor; [by apply IH |]. apply Forall_map. unfold entries_ok in Hk. rewrite Forall_forall in *. intros x Hx. destruct (Hk x Hx) as (? & _).
    unfold entry_lt. cbn [nibble_entry fst]. rewrite asNibbles_lt by done. by apply Hf.
  - intros a b _ _. split; [by rewrite !take_0 | lia].
  - unfold keys_ok. rewrite Forall_map. eapply Forall_impl; [exact Hk |]. intros kv (Hb & Hl & Hv). cbn [nibble_entry fst snd].
    destruct (asNibbles_ok _ Hb) as [? ->]. split_and!; [done | lia | done].
  - intros kv Hkv. pose proof (fuel_enough _ _ Hkv). lia.
Qed.

Lemma rlp256_ref `{Crypto} m : (forall b, lenZ (sha3 b) = 32) -> m <> [] -> StronglySorted entry_lt m -> entries_ok m ->
  let J := map nibble_entry m in rlp256 m = Ok (trie_enc (trie_fuel J) J 0).
Proof.
  intros Hsha Hne Hs Hk J. unfold rlp256. destruct m as [|kv m']; [done |]. rewrite (hexMap_ref (kv :: m')) by done. fold J.
  rewrite (tree_computes Hsha (trie_fuel J) J 0); [done | done | by apply hex_arg].
Qed.
Lemma hash256_total `{Crypto} m : (forall b, lenZ (sha3 b) = 32) -> StronglySorted entry_lt m -> entries_ok m -> exists r, hash256 m = Ok r.
Proof.
  intros Hsha Hs Hk. unfold hash256. destruct m as [|kv m]; [by eexists |]. rewrite rlp256_ref by done. by eexists.
Qed.

(** C23: the root of a map is the hash of its Patricia tree, and the recursion
    that computes it terminates: the entries of each branch are found by one
    scan of the map in key order, which gives exactly the entries that have
    the nibble. *)
Theorem trie_root_spec `{Crypto} m :
  (forall b, lenZ (sha3 b) = 32) -> m <> [] ->
  StronglySorted entry_lt m -> entries_ok m ->
  let J := map nibble_entry m in
  rlp256 m = Ok (trie_enc (trie_fuel J) J 0) /\ hash256 m = Ok (sha3 (trie_enc (trie_fuel J) J 0)).
Proof.
  intros Hsha Hne Hs Hk J. pose proof (rlp256_ref m Hsha Hne Hs Hk) as E. split; [done |]. unfold hash256. by rewrite E.
Qed.

Lemma toy_sha3_len b : lenZ (@sha3 toy_crypto b) = 32.
Proof.
  cbn [toy_crypto sha3]. unfold fixedHash.
  assert (lenZ (take 32 (1 :: b ++ zeros 32)) = 32) as E; [| by rewrite E].
  unfold lenZ. rewrite length_take. cbn [length]. rewrite length_app. unfold zeros. rewrite length_replicate. lia.
Qed.

Definition sample_map : BytesMap := [([0x12; 0x34], [1]); ([0x12; 0x35], [2]); ([0x12; 0x35; 0x01], [3]); ([0x90], [4])].

Lemma trie_root_spec_witness :
  let J := map nibble_entry sample_map in
  @rlp256 toy_crypto sample_map = Ok (@trie_enc toy_crypto (trie_fuel J) J 0).
Proof.
  destruct (@trie_root_spec toy_crypto sample_map toy_sha3_len ltac:(done)) as [E _]; [| | exact E].
  - repeat constructor.
  - repeat constructor; unfold is_byte; cbn; lia.
Defined.
