(* ===== verification/BlockCodec.v ===== *)
(** * Whole blocks on the wire

    [libethcore/Block.cpp] and the rest of [Block.h]: the encodings of a block under
    both protocol versions, the caches they fill, and the operations on its
    receipts.  A [const] member that fills a mutable cache returns the block it
    leaves. *)

From Stdlib Require Import Sorted.
From S2P Require Import Prelude CommonData RLP PBFTMsg BlockHeader Block Transaction Receipt TxsParser TrieHash PBFTState.

Abbreviation EthBlock := (Block Transaction TransactionReceipt) (only parsing).

Definition set_txsCache (c : bytes) (root : h256) (b : EthBlock) : EthBlock :=
  mkBlock (b_header b) (b_transactions b) (b_receipts b) (b_sigList b) c (b_tReceiptsCache b) root
    (b_receiptRootCache b).
Definition set_receiptsCache (c : bytes) (root : h256) (b : EthBlock) : EthBlock :=
  mkBlock (b_header b) (b_transactions b) (b_receipts b) (b_sigList b) (b_txsCache b) c
    (b_transRootCache b) root.

(** ** Receipts and senders *)
Definition appendTransaction (t : Transaction) (b : EthBlock) : EthBlock :=
  noteChange (with_transactions (b_transactions b ++ [t]) b).
Definition appendTransactionReceipt (r : TransactionReceipt) (b : EthBlock) : EthBlock :=
  noteReceiptChange (with_receipts (b_receipts b ++ [r]) b).
Definition resizeTransactionReceipt (n : nat) (b : EthBlock) : EthBlock :=
  noteReceiptChange (with_receipts (take n (b_receipts b) ++
    replicate (n - length (b_receipts b)) emptyReceipt) b).

(** [m_transactionReceipts[_receiptId] = _tran], unchecked. *)
Definition setTransactionReceipt (i : nat) (r : TransactionReceipt) (b : EthBlock) : result EthBlock :=
  if (i <? length (b_receipts b))%nat then
    Ok (noteReceiptChange (with_receipts (<[i := r]> (b_receipts b)) b))
  else Throw UndefinedBehaviour.

(** The running total is a [u256]; the cache is not reset. *)
Fixpoint sequence_gas (total : Z) (rs : list TransactionReceipt) : list TransactionReceipt :=
  match rs with
  | [] => []
  | r :: rs' => let total := wrap 256 (total + rc_gasUsed r) in
                setReceiptGasUsed total r :: sequence_gas total rs'
  end.

Definition updateSequenceReceiptGas (b : EthBlock) : EthBlock :=
  with_receipts (sequence_gas 0 (b_receipts b)) b.
Definition setStateRootToAllReceipt (x : h256) (b : EthBlock) : EthBlock :=
  noteReceiptChange (with_receipts (map (setReceiptStateRoot x) (b_receipts b)) b).
Definition clearAllReceipts (b : EthBlock) : EthBlock := noteReceiptChange (with_receipts [] b).

Definition getAllNonces (b : EthBlock) : list Z := map tx_nonce (b_transactions b).

(** [operator==] of vectors of transactions. *)
Fixpoint txs_eqb (a b : list Transaction) : bool :=
  match a, b with
  | [], [] => true
  | x :: a', y :: b' => tx_eqb x y && txs_eqb a' b'
  | _, _ => false
  end.

(** [Block(Block const&)] and [operator=]: copying the header computes its hash. *)
Definition block_copy `{Crypto} (b : EthBlock) : result (EthBlock * EthBlock) :=
  '(h, h0) ← header_copy (b_header b); Ok (with_header h b, with_header h0 b).

Section Codec.
Context `{Crypto} `{Recover} (version : Z).

Definition setSenderForTransaction (i : nat) (a : Address) (b : EthBlock) : result EthBlock :=
  match b_transactions b !! i with
  | None => Throw UndefinedBehaviour
  | Some t =>
      t' ← (if bool_decide (a = ZeroAddress) then snd <$> sender version t else Ok (forceSender a t));
      Ok (with_transactions (<[i := t']> (b_transactions b)) b)
  end.

(** ** Roots *)

(** The loop of the RC1 roots over encoded elements: the list for the wire and
    the map of the trie, keyed by the encoded position. *)
Fixpoint root_loop {A} (enc : A -> result bytes) (i : Z) (l : list A) (s : RLPStream) (m : BytesMap)
    : result (RLPStream * BytesMap) :=
  match l with
  | [] => Ok (s, m)
  | x :: l' =>
      k ← append_unsigned i emptyStream;
      data ← enc x;
      s ← appendRaw data 1 s;
      key ← out k;
      root_loop enc (i + 1) l' s (map_insert key data m)
  end.

Definition root_of {A} (enc : A -> result bytes) (l : list A) : result (bytes * h256) :=
  s ← appendList (lenZ l) emptyStream;
  '(s, m) ← root_loop enc 0 l s [];
  c ← out s;
  root ← hash256 m;
  Ok (c, root).

Definition calTransactionRootRC2 (update : bool) (b : EthBlock) : result EthBlock :=
  b ← (if bool_decide (b_txsCache b = []) then
         c ← txs_encode version (b_transactions b); Ok (set_txsCache c (sha3 c) b)
       else Ok b);
  Ok (if update then with_header (setTransactionsRoot (b_transRootCache b) (b_header b)) b else b).

Definition calTransactionRoot (update : bool) (b : EthBlock) : result EthBlock :=
  if RC2_VERSION <=? version then calTransactionRootRC2 update b
  else
    b ← (if bool_decide (b_txsCache b = []) then
           '(c, root) ← root_of (tx_encode version [] WithSignature) (b_transactions b);
           Ok (set_txsCache c root b)
         else Ok b);
    Ok (if update then with_header (setTransactionsRoot (b_transRootCache b) (b_header b)) b else b).

(** The encoded receipts of the RC2 format. *)
Definition receipts_rlp (l : list TransactionReceipt) : result bytes :=
  rlps ← mapM_result receipt_encode l;
  s ← appendList (lenZ l) emptyStream;
  s ← foldM_stream (fun e => appendRaw e 1) rlps s;
  out s.

Definition calReceiptRootRC2 (update : bool) (b : EthBlock) : result EthBlock :=
  b ← (if bool_decide (b_tReceiptsCache b = []) then
         c ← receipts_rlp (b_receipts b); Ok (set_receiptsCache c (sha3 c) b)
       else Ok b);
  Ok (if update then with_header (setReceiptsRoot (b_receiptRootCache b) (b_header b)) b else b).

Definition calReceiptRoot (update : bool) (b : EthBlock) : result EthBlock :=
  if RC2_VERSION <=? version then calReceiptRootRC2 update b
  else
    b ← (if bool_decide (b_tReceiptsCache b = []) then
           '(c, root) ← root_of receipt_encode (b_receipts b);
           Ok (set_receiptsCache c root b)
         else Ok b);
    Ok (if update then with_header (setReceiptsRoot (b_receiptRootCache b) (b_header b)) b else b).

(** ** Encoding *)
Definition sigList_op (l : list (Z * Signature)) : RLPStream -> result RLPStream :=
  appendVector (appendPair append_u256 (fun g => append_data g false)) l.

(** The common start of both encoders: checks, caches, header and its hash. *)
Definition encode_parts (b : EthBlock) : result (bytes * h256 * EthBlock) :=
  _ ← header_verify CheckEverything emptyHeader (b_header b);
  b ← calTransactionRoot false b;
  b ← calReceiptRoot false b;
  headerData ← header_encode (b_header b);
  '(hash, h) ← header_hash (b_header b);
  Ok (headerData, hash, with_header h b).

Definition block_ops_rc1 (headerData : bytes) (hash : h256) (b : EthBlock)
    : list (RLPStream -> result RLPStream) :=
  [appendRaw headerData 1; appendRaw (b_txsCache b) 1; appendRaw (b_tReceiptsCache b) 1;
   append_data hash false; sigList_op (b_sigList b)].

Definition block_ops_rc2 (headerData : bytes) (hash : h256) (b : EthBlock)
    : list (RLPStream -> result RLPStream) :=
  [appendRaw headerData 1; append_data (b_txsCache b) false; append_data hash false;
   sigList_op (b_sigList b); appendRaw (b_tReceiptsCache b) 1].

Definition block_encodeRC2 (b : EthBlock) : result (bytes * EthBlock) :=
  '(headerData, hash, b) ← encode_parts b;
  s ← appendList 5 emptyStream;
  s ← streamAll (block_ops_rc2 headerData hash b) s;
  o ← out s; Ok (o, b).

Definition block_encode (b : EthBlock) : result (bytes * EthBlock) :=
  if RC2_VERSION <=? version then block_encodeRC2 b
  else
    '(headerData, hash, b) ← encode_parts b;
    s ← appendList 5 emptyStream;
    s ← streamAll (block_ops_rc1 headerData hash b) s;
    o ← out s; Ok (o, b).

(** ** Decoding *)

(** [l.resize(rlp.itemCount())] and the loop that decodes each element. *)
Fixpoint decode_items {A} (dec : A -> RLP -> result A) (i : nat) (xs : list A) (r : RLP)
    : result (list A) :=
  match xs with
  | [] => Ok []
  | x :: xs' => '(x', r) ← field i (dec x) r; rest ← decode_items dec (S i) xs' r; Ok (x' :: rest)
  end.

Definition resize {A} (d : A) (n : nat) (l : list A) : list A := take n l ++ replicate (n - length l) d.

Definition decode_list {A} (dec : A -> RLP -> result A) (d : A) (old : list A) (r : RLP)
    : result (list A) :=
  n ← itemCount r; decode_items dec 0 (resize d (Z.to_nat n) old) r.

Definition toSigList (r : RLP) : result (list (Z * Signature)) :=
  toVector (toPair (0, zeros 65) (toInt U256) (toHash 65)) LaissezFaire r.

(** The hash of the block must be that of its header. *)
Definition check_hash (hash : h256) (h : BlockHeader) : result BlockHeader :=
  '(hh, h') ← header_hash h;
  if bool_decide (hash = hh) then Ok h' else Throw ErrorBlockHash.

Definition block_decodeRC2 (b : EthBlock) (bs : bytes) (option : CheckTransaction)
    (withReceipt withTxHash : bool) : result EthBlock :=
  r ← extractBlock bs;
  '(h, r) ← field 0 (fun e => header_populate e (b_header b)) r;
  '(txsCache, r) ← field 1 (toBytes LaissezFaire) r;
  txs ← txs_decode version (b_transactions b) txsCache option withTxHash;
  '(hash, r) ← field 2 (toHash 32 Strict) r;
  h ← check_hash hash h;
  '(sigs, r) ← field 3 toSigList r;
  rcs ← (if withReceipt : bool then
           '(l, _) ← field 4 (decode_list receipt_decode_rlp emptyReceipt (b_receipts b)) r; Ok l
         else Ok (b_receipts b));
  Ok (mkBlock h txs rcs sigs txsCache (b_tReceiptsCache b) (b_transRootCache b) (b_receiptRootCache b)).

Definition block_decode (b : EthBlock) (bs : bytes) (option : CheckTransaction)
    (withReceipt withTxHash : bool) : result EthBlock :=
  if RC2_VERSION <=? version then block_decodeRC2 b bs option withReceipt withTxHash
  else
    r ← extractBlock bs;
    '(h, r) ← field 0 (fun e => header_populate e (b_header b)) r;
    '(txs, txsCache, r) ← field 1 (fun e =>
        l ← decode_list (tx_decode_rlp version option) emptyTx (b_transactions b) e;
        Ok (l, m_data e)) r;
    '(rcs, r) ← field 2 (decode_list receipt_decode_rlp emptyReceipt (b_receipts b)) r;
    '(hash, r) ← field 3 (toHash 32 Strict) r;
    h ← check_hash hash h;
    '(sigs, _) ← field 4 toSigList r;
    Ok (mkBlock h txs rcs sigs txsCache (b_tReceiptsCache b) (b_transRootCache b)
          (b_receiptRootCache b)).

(** [Block(_data, _option, _withReceipt, _withTxHash)]. *)
Definition block_of_bytes (bs : bytes) (option : CheckTransaction) (withReceipt withTxHash : bool)
    : result EthBlock := block_decode emptyBlock bs option withReceipt withTxHash.

(** [operator==] of two headers compares their hashes. *)
Definition equalHeader (a b : EthBlock) : bool := bool_decide (headerHash a = headerHash b).
Definition equalWithoutSig (a b : EthBlock) : bool :=
  equalHeader a b && txs_eqb (b_transactions a) (b_transactions b).
Definition equalAll (a b : EthBlock) : bool :=
  equalWithoutSig a b && bool_decide (b_sigList a = b_sigList b).
End Codec.

(** The encoding of the transactions and of the receipts with their roots, computed
    from the lists alone: the hash of the encoding from RC2 on, the root of the trie
    of the encoded elements before. *)
Definition txs_root `{Crypto} (version : Z) (l : list Transaction) : result (bytes * h256) :=
  if RC2_VERSION <=? version then c ← txs_encode version l; Ok (c, sha3 c) else root_of (tx_encode version [] WithSignature) l.
Definition rcs_root `{Crypto} (version : Z) (l : list TransactionReceipt) : result (bytes * h256) :=
  if RC2_VERSION <=? version then c ← receipts_rlp l; Ok (c, sha3 c) else root_of receipt_encode l.

(** ** Reading lists back *)
Lemma items_loop_ref es fuel : Forall valid_item es -> (length (concat es) <= fuel)%nat ->
  items_loop fuel (concat es) = Ok (lenZ es).
Proof.
  revert fuel. induction es as [|e es IH]; intros fuel Hv Hf; [by destruct fuel |].
  apply Forall_cons in Hv as [He Hv]. cbn [concat] in *. pose proof He as [Hne _].
  rewrite length_app in Hf. destruct e as [|x e]; [done |].
  destruct fuel as [|fuel]; [simpl in Hf; lia |]. cbn [items_loop].
  rewrite (proj2 (Z.eqb_neq _ _)).
  2:{ rewrite lenZ_app, lenZ_cons. pose proof (lenZ_nonneg (concat es)). pose proof (lenZ_nonneg e). lia. }
  rewrite valid_size by done. cbn [mbind result_bind]. rewrite cropped1_app, IH; [| done | simpl in Hf; lia].
  cbn [mbind result_bind]. by rewrite lenZ_cons.
Qed.

Lemma itemCount_ref es : Forall valid_item es -> size_ok (concat es) ->
  itemCount (node (enc_list (concat es))) = Ok (lenZ es).
Proof.
  intros Hv Hs. unfold itemCount. cbn [m_data node]. pose proof (view_enc_list _ [] Hs) as V.
  rewrite app_nil_r in V. rewrite (view_list _ _ _ _ V), payload_enc_list by done. cbn [mbind result_bind].
  by apply items_loop_ref.
Qed.

Lemma decode_items_ref {A} (dec : A -> RLP -> result A) (enc : A -> bytes) (g : A -> A -> A) ys :
  Forall (fun y => valid_item (enc y)) ys -> Z.of_nat (length ys) < SIZE_MAX ->
  Forall (fun y => forall x, dec x (node (enc y)) = Ok (g y x)) ys ->
  forall xs k r, cache_ok (map enc ys) r -> length xs = length (drop k ys) ->
  decode_items dec k xs r = Ok (zip_with g (drop k ys) xs).
Proof.
  intros Hv Hl Hd xs. induction xs as [|x xs IH]; intros k r Hc Hlen; cbn [decode_items length] in *.
  - destruct (drop k ys); done.
  - destruct (ys !! k) as [y|] eqn:Ek.
    2:{ apply lookup_ge_None in Ek. rewrite length_drop in Hlen. lia. }
    rewrite (drop_S _ _ _ Ek) in *. cbn [length zip_with] in *.
    assert (map enc ys !! k = Some (enc y)) as Hk by (rewrite list_lookup_fmap, Ek; done).
    destruct (field_ref (map enc ys) r k (dec x) (enc y) (g y x)) as (r' & -> & Hc'); try done.
    + by rewrite Forall_map.
    + by rewrite length_map.
    + exact (Forall_lookup_1 _ _ _ _ Hd Ek x).
    + cbn [mbind result_bind]. by rewrite (IH (S k) r' Hc') by lia.
Qed.

Lemma decode_list_ref {A} (dec : A -> RLP -> result A) (enc : A -> bytes) (g : A -> A -> A) d old ys :
  Forall (fun y => valid_item (enc y)) ys -> size_ok (concat (map enc ys)) -> Z.of_nat (length ys) < SIZE_MAX ->
  Forall (fun y => forall x, dec x (node (enc y)) = Ok (g y x)) ys ->
  decode_list dec d old (node (enc_list (concat (map enc ys)))) = Ok (zip_with g ys (resize d (length ys) old)).
Proof.
  intros Hv Hs Hl Hd. unfold decode_list. rewrite itemCount_ref by (rewrite ?Forall_map; done).
  cbn [mbind result_bind]. unfold lenZ. rewrite length_map, Nat2Z.id.
  rewrite (decode_items_ref dec enc g ys Hv Hl Hd); [done | by apply cache_fresh, payload_enc_list |].
  unfold resize. rewrite length_app, length_take, length_replicate, drop_0. lia.
Qed.

(** Items are not empty, so there are no more of them than bytes. *)
Lemma valid_count {A} (enc : A -> bytes) ys : Forall (fun y => valid_item (enc y)) ys ->
  Z.of_nat (length ys) <= lenZ (concat (map enc ys)).
Proof.
  induction 1 as [|y ys [Hy _] _ IH]; [done |]. cbn [map concat length]. rewrite lenZ_app.
  destruct (enc y) as [|b e]; [done |]. rewrite lenZ_cons. pose proof (lenZ_nonneg e). lia.
Qed.

(** ** Signatures *)
Definition sig_ok (p : Z * Signature) : Prop := u256_ok (fst p) /\ hash_ok 65 (snd p).
Definition sigpair_encs (p : Z * Signature) : list bytes := [enc_int (fst p); enc_data (snd p)].
Definition sigpair_enc (p : Z * Signature) : bytes := enc_list (concat (sigpair_encs p)).

Lemma sigpair_ops p : sig_ok p ->
  ops_encs [append_u256 (fst p); append_data (snd p) false] (sigpair_encs p).
Proof. intros [Hi [Hb Hl]]. apply ops_encs_int; [done |]. apply ops_encs_data; [done | lia | apply ops_encs_nil]. Qed.

Lemma sigpair_len p : sig_ok p -> lenZ (concat (sigpair_encs p)) < 2 ^ 59.
Proof.
  intros [Hi [Hb Hl]]. unfold sigpair_encs. cbn [concat]. len_simpl.
  pose proof (enc_int_len _ Hi). pose proof (enc_data_len (snd p) ltac:(lia)). lia.
Qed.

Lemma sigpair_valid p : sig_ok p -> valid_item (sigpair_enc p).
Proof. intros Hp. apply valid_enc_list. pose proof (sigpair_len p Hp). unfold size_ok, SIZE_MAX. lia. Qed.

Lemma sigpair_stream p s : sig_ok p ->
  appendPair append_u256 (fun g => append_data g false) p s = appendRaw (sigpair_enc p) 1 s.
Proof.
  intros Hp. pose proof (record_ref _ _ s (sigpair_ops p Hp) ltac:(done)) as E.
  change (lenZ [_; _]) with 2 in E. unfold sigpair_enc. rewrite <- E. unfold appendPair, streamAll.
  destruct (appendList 2 s) as [s1|]; [| done]. cbn [mbind result_bind foldM_stream].
  destruct (append_u256 (fst p) s1) as [s2|]; [| done]. cbn [mbind result_bind].
  by destruct (append_data (snd p) false s2).
Qed.

Lemma sigpair_read p : sig_ok p ->
  toPair (0, zeros 65) (toInt U256) (toHash 65) LaissezFaire (node (sigpair_enc p)) = Ok p.
Proof.
  intros Hp. pose proof (sigpair_len p Hp) as Hlen. destruct (sigpair_ops p Hp) as (_ & Hv & _).
  assert (size_ok (concat (sigpair_encs p))) as Hs by (unfold size_ok, SIZE_MAX; lia).
  assert (cache_ok (sigpair_encs p) (node (sigpair_enc p))) as Hc by (by apply cache_fresh, payload_enc_list).
  destruct Hp as [Hi [Hb Hl]]. unfold toPair. pose proof (view_enc_list _ [] Hs) as V. rewrite app_nil_r in V.
  cbn [node m_data]. rewrite (view_list _ _ _ _ V : isList (sigpair_enc p) = true). cbn [negb].
  rewrite (itemCount_ref (sigpair_encs p) Hv Hs : itemCount (node (sigpair_enc p)) = _). cbn [mbind result_bind].
  change (lenZ (sigpair_encs p)) with 2. cbn [Z.eqb Pos.eqb negb].
  destruct (index_ref (sigpair_encs p) (node (sigpair_enc p)) 0 (enc_int (fst p)) Hv Hc ltac:(done) ltac:(done))
    as (r1 & E1 & Hc1 & _). change 0 with (Z.of_nat 0). cbn [node] in E1. rewrite E1. cbn [mbind result_bind].
  rewrite toInt_U256_enc by done. cbn [mbind result_bind].
  destruct (index_ref (sigpair_encs p) r1 1 (enc_data (snd p)) Hv Hc1 ltac:(done) ltac:(done)) as (r2 & E2 & _).
  change 1 with (Z.of_nat 1). rewrite E2. cbn [mbind result_bind].
  rewrite toHash_enc; [by destruct p | done | unfold size_ok, SIZE_MAX; lia | done].
Qed.

(** ** A block survives the wire *)
Definition receipts_enc (l : list TransactionReceipt) : bytes := enc_list (concat (map receipt_enc l)).
Definition sigs_enc (l : list (Z * Signature)) : bytes := enc_list (concat (map sigpair_enc l)).
Definition header_enc (h : BlockHeader) : bytes := enc_list (concat (header_encs h)).

Section Wire.
Context `{Crypto} `{Recover} (version : Z).
Context (sha3_ok : forall b, hash_ok 32 (sha3 b)).

(** A block that [encode] accepts, with field values within their C++ types; a
    cache that is filled holds what it should. *)
Record block_wf (b : EthBlock) : Prop := {
  bw_header : header_wf (b_header b) /\ memo_ok (b_header b) /\
    lenZ (concat (header_encs (b_header b))) < 2 ^ 59;
  bw_number : m_number (b_header b) < MaxBlockNumber;
  bw_gas : m_gasUsed (b_header b) <= m_gasLimit (b_header b);
  bw_receipts : Forall receipt_wf (b_receipts b) /\
    lenZ (concat (map receipt_enc (b_receipts b))) < 2 ^ 57;
  bw_sigs : Forall sig_ok (b_sigList b) /\ lenZ (concat (map sigpair_enc (b_sigList b))) < 2 ^ 57;
  bw_receiptsCache : b_tReceiptsCache b = [] \/ b_tReceiptsCache b = receipts_enc (b_receipts b)
}.

Lemma header_verify_ok b : block_wf b -> header_verify CheckEverything emptyHeader (b_header b) = Ok tt.
Proof.
  intros [((_ & _ & Hn & _) & _) Hm Hg _ _ _]. unfold header_verify.
  rewrite (proj2 (Z.leb_gt MaxBlockNumber _)), (proj2 (Z.ltb_ge (m_number (b_header b)) 0)),
    (proj2 (Z.ltb_ge (m_gasLimit (b_header b)) _)) by lia.
  done.
Qed.

Lemma header_facts b : block_wf b ->
  let h := b_header b in
  header_encode h = Ok (header_enc h) /\
  header_hash h = Ok (sha3 (header_enc h), set_hash (sha3 (header_enc h)) h) /\
  size_ok (concat (header_encs h)) /\ Forall valid_item (header_encs h).
Proof.
  intros [(Hw & Hm & Hl) _ _ _ _ _] h. subst h. pose proof (header_encode_ref _ Hw) as He.
  split_and!; [done | by apply header_hash_spec | unfold size_ok, SIZE_MAX; lia | by apply header_encs_valid].
Qed.

Lemma receipts_facts b : block_wf b ->
  let l := b_receipts b in
  Forall (fun r => valid_item (receipt_enc r)) l /\ size_ok (concat (map receipt_enc l)) /\
  Z.of_nat (length l) < SIZE_MAX /\ mapM_result receipt_encode l = Ok (map receipt_enc l).
Proof.
  intros [_ _ _ (Hw & Hl) _ _] l.
  assert (Forall (fun r => valid_item (receipt_enc r)) l) as Hv
    by (eapply Forall_impl; [exact Hw | apply receipt_valid]).
  pose proof (valid_count receipt_enc l Hv). unfold l in *.
  split_and!; [done | unfold size_ok, SIZE_MAX; lia | unfold SIZE_MAX; lia |].
  rewrite <- (map_id (b_receipts b)) at 1. apply mapM_result_map. eapply Forall_impl; [exact Hw | apply receipt_encode_ref].
Qed.

(** The receipts root of the RC2 format fills the cache with the receipts. *)
Lemma receipt_root_rc2 b : block_wf b -> exists root,
  calReceiptRootRC2 false b = Ok (set_receiptsCache (receipts_enc (b_receipts b)) root b).
Proof.
  intros Hw. destruct (receipts_facts b Hw) as (Hv & Hs & Hl & He). unfold calReceiptRootRC2, receipts_rlp.
  case_bool_decide as Hc.
  - exists (sha3 (receipts_enc (b_receipts b))). rewrite He. cbn [mbind result_bind].
    replace (lenZ (b_receipts b)) with (lenZ (map receipt_enc (b_receipts b)))
      by (unfold lenZ; by rewrite length_map).
    pose proof (appendVector_ref (fun e => appendRaw e 1) id (map receipt_enc (b_receipts b)) emptyStream) as E.
    rewrite map_id in E. unfold appendVector in E. destruct (appendList _ _) as [s|]; cbn [mbind result_bind] in *.
    + rewrite E; [done | apply Forall_forall; done | unfold size_ok, SIZE_MAX in Hs; lia].
    + exfalso. by specialize (E ltac:(by apply Forall_forall) ltac:(unfold size_ok, SIZE_MAX in Hs; lia)).
  - destruct (bw_receiptsCache b Hw) as [|<-]; [done |]. exists (b_receiptRootCache b). by destruct b.
Qed.

(** The root of the format before RC2: the list of the encoded elements, and a trie. *)
Section RootOf.
Context {A : Type} (enc : A -> result bytes) (e : A -> bytes).
Lemma root_loop_stream l i s s' m : Forall (fun x => enc x = Ok (e x) /\ lenZ (e x) < 2 ^ 58) l ->
  foldM_stream (fun b => appendRaw b 1) (map e l) s = Ok s' -> StronglySorted entry_lt m -> entries_ok m ->
  exists m', root_loop enc i l s m = Ok (s', m') /\ StronglySorted entry_lt m' /\ entries_ok m'.
Proof.
  intros Hl. revert i s m. induction Hl as [|x l [Hx Hlen] Hl IH]; intros i s m Hf Hs Hm; cbn [map foldM_stream root_loop] in *.
  { injection Hf as ->. by exists m. }
  pose proof (wrap_range 32 i ltac:(lia)) as Hi. assert (u256_ok (wrap 32 i)) as Hu by (unfold u256_ok; lia).
  unfold append_unsigned. rewrite append_bigint_ref by exact Hu. cbn [appendRaw noteAppended mbind result_bind]. rewrite Hx. cbn [mbind result_bind].
  destruct (appendRaw (e x) 1 s) as [s1|] eqn:E; [| done]. cbn [mbind result_bind] in *. cbn.
  apply (IH _ s1); [done | by apply map_insert_sorted |]. apply Forall_forall. intros kv [-> | Hin]%map_insert_elem; [| by apply (proj1 (Forall_forall _ _) Hm)].
  cbn [fst snd]. pose proof (enc_int_len _ Hu). split_and!; [by apply enc_int_bytes | lia | done].
Qed.
Lemma root_of_ok l : Forall (fun x => enc x = Ok (e x) /\ lenZ (e x) < 2 ^ 58) l -> lenZ (concat (map e l)) < 2 ^ 59 ->
  exists root, root_of enc l = Ok (enc_list (concat (map e l)), root).
Proof.
  intros Hl Hc. unfold root_of. pose proof (appendVector_ref (fun b => appendRaw b 1) id (map e l) emptyStream) as E. rewrite map_id in E.
  specialize (E ltac:(by apply Forall_forall) ltac:(lia)). unfold appendVector in E.
  replace (lenZ (map e l)) with (lenZ l) in E by (unfold lenZ; by rewrite length_map). destruct (appendList (lenZ l) emptyStream) as [s|]; [| done]. cbn [mbind result_bind] in *.
  destruct (root_loop_stream l 0 s _ [] Hl E) as (m & -> & Hs & Hm); [constructor | constructor |]. cbn [mbind result_bind].
  destruct (hash256_total m) as [root Hr]; [intros x; apply (sha3_ok x) | done | done |].
  exists root. cbn. by rewrite Hr.
Qed.
End RootOf.

Definition txs_enc (l : list Transaction) : bytes := enc_list (concat (map (tx_wire_bytes version) l)).
Lemma txs_facts l : txs_wf version l -> Forall (fun t => tx_encode version [] WithSignature t = Ok (tx_wire_bytes version t) /\ lenZ (tx_wire_bytes version t) < 2 ^ 58) l /\
  Forall (fun t => valid_item (tx_wire_bytes version t)) l.
Proof.
  intros (Hw & _ & Hs). rewrite !Forall_forall in *. split; intros t Ht; destruct (Hw t Ht) as [Hwf _];
    destruct (tx_encs_facts version t Hwf) as (g & Hg & Hv & Hl & He); unfold tx_wire_bytes; rewrite He; cbn [from_ok].
  - split; [done |]. assert (lenZ (tx_wire_bytes version t) <= lenZ (concat (map (tx_wire_bytes version) l))) as Hle.
    { clear -Ht. induction l as [|x l IH]; [by apply not_elem_of_nil in Ht |]. cbn [map concat]. rewrite lenZ_app. pose proof (lenZ_nonneg (concat (map (tx_wire_bytes version) l))).
      pose proof (lenZ_nonneg (tx_wire_bytes version x)). apply elem_of_cons in Ht as [-> | Ht]; [lia | specialize (IH Ht); lia]. }
    unfold tx_wire_bytes in Hle at 1. rewrite He in Hle. cbn [from_ok] in Hle. lia.
  - apply valid_enc_list. unfold size_ok, SIZE_MAX. lia.
Qed.
Lemma txs_root_rc1 l : txs_wf version l -> version < RC2_VERSION -> exists root, txs_root version l = Ok (txs_enc l, root).
Proof.
  intros Hw Hv. unfold txs_root. rewrite (proj2 (Z.leb_gt _ _)) by done. apply root_of_ok; [by apply txs_facts |]. destruct Hw as (_ & _ & ?). lia.
Qed.
(** The transactions that arrive have no buffer. *)
Lemma txs_read l : txs_wf version l ->
  decode_list (tx_decode_rlp version CheckNone) emptyTx [] (node (txs_enc l)) = Ok (map (fun t => received version t emptyTx []) l).
Proof.
  intros Hw. destruct (txs_facts l Hw) as [_ Hv]. destruct Hw as (Hw & Hn & Hs). pose proof (valid_count _ l Hv) as Hc. unfold txs_enc.
  rewrite (decode_list_ref _ (tx_wire_bytes version) (fun t t0 => received version t t0 (tx_rlpBuffer t0))); [| done | unfold size_ok, SIZE_MAX; lia | unfold SIZE_MAX; lia |].
  - f_equal. unfold resize. rewrite take_nil. cbn [length app]. rewrite Nat.sub_0_r. clear. induction l as [|t l IH]; [done |]. cbn. by rewrite IH.
  - eapply Forall_impl; [exact Hw |]. intros t [Hwf _] t0. destruct (tx_encs_facts version t Hwf) as (g & Hg & Hve & Hl & He).
    assert (size_ok (concat (tx_encs version t g))) as Hsz by (unfold size_ok, SIZE_MAX; lia).
    unfold tx_wire_bytes. rewrite He. cbn [from_ok]. pose proof (view_enc_list (concat (tx_encs version t g)) [] Hsz) as V. rewrite app_nil_r in V.
    rewrite <- (tx_decode_ref version t t0 (tx_rlpBuffer t0) g (node (enc_list (concat (tx_encs version t g))))); [by destruct t0 | done | done | apply (view_list _ _ _ _ V) | done | by apply cache_fresh, payload_enc_list].
Qed.

Definition block_encs_rc1 (b : EthBlock) : list bytes :=
  [header_enc (b_header b); txs_enc (b_transactions b); receipts_enc (b_receipts b); enc_data (sha3 (header_enc (b_header b))); sigs_enc (b_sigList b)].
Definition block_encs_rc2 (b : EthBlock) (c : bytes) : list bytes :=
  [header_enc (b_header b); enc_data c; enc_data (sha3 (header_enc (b_header b))); sigs_enc (b_sigList b);
   receipts_enc (b_receipts b)].

Lemma sigs_stream b s : block_wf b -> sigList_op (b_sigList b) s = appendRaw (sigs_enc (b_sigList b)) 1 s.
Proof.
  intros [_ _ _ _ (Hw & Hl) _]. apply appendVector_ref; [| lia].
  eapply Forall_impl; [exact Hw |]. intros p Hp s'. by apply sigpair_stream.
Qed.

Lemma block_ops_rc2_ok b c b' : block_wf b -> bytes_ok c -> lenZ c < 2 ^ 59 ->
  b_txsCache b' = c -> b_sigList b' = b_sigList b -> b_tReceiptsCache b' = receipts_enc (b_receipts b) ->
  ops_encs (block_ops_rc2 (header_enc (b_header b)) (sha3 (header_enc (b_header b))) b') (block_encs_rc2 b c).
Proof.
  intros Hw Hc Hl Ec Es Er. unfold block_ops_rc2, block_encs_rc2. rewrite Ec, Es, Er.
  destruct (sha3_ok (header_enc (b_header b))). pose proof (bw_header b Hw) as (_ & _ & Hhl).
  pose proof (bw_receipts b Hw) as (_ & Hrl). pose proof (bw_sigs b Hw) as (_ & Hsl).
  apply ops_encs_list; [done | lia |]. apply ops_encs_data; [done.. |].
  apply ops_encs_data; [done | lia |].
  apply ops_encs_list; [intros s; by apply sigs_stream | lia |].
  apply ops_encs_list; [done | lia | apply ops_encs_nil].
Qed.

Lemma block_ops_rc1_ok b b' : block_wf b -> txs_wf version (b_transactions b) ->
  b_txsCache b' = txs_enc (b_transactions b) -> b_sigList b' = b_sigList b -> b_tReceiptsCache b' = receipts_enc (b_receipts b) ->
  ops_encs (block_ops_rc1 (header_enc (b_header b)) (sha3 (header_enc (b_header b))) b') (block_encs_rc1 b).
Proof.
  intros Hw (_ & _ & Htl) Ec Es Er. unfold block_ops_rc1, block_encs_rc1. rewrite Ec, Es, Er.
  destruct (sha3_ok (header_enc (b_header b))). pose proof (bw_header b Hw) as (_ & _ & Hhl).
  pose proof (bw_receipts b Hw) as (_ & Hrl). pose proof (bw_sigs b Hw) as (_ & Hsl).
  apply ops_encs_list; [done | lia |]. apply ops_encs_list; [done | lia |]. apply ops_encs_list; [done | lia |].
  apply ops_encs_data; [done | lia |].
  apply ops_encs_list; [intros s; by apply sigs_stream | lia | apply ops_encs_nil].
Qed.

Lemma block_open es : Forall valid_item es -> size_ok (concat es) -> Z.of_nat (length es) < SIZE_MAX ->
  (exists h rest, es = enc_list h :: rest /\ size_ok h) ->
  exists r, extractBlock (enc_list (concat es)) = Ok r /\ cache_ok es r.
Proof.
  intros Hv Hs Hl (h & rest & Ees & Hh). unfold extractBlock.
  rewrite valid_RLP_strict by (by apply valid_enc_list). cbn [mbind result_bind node m_data].
  pose proof (view_enc_list _ [] Hs) as V. rewrite app_nil_r in V. rewrite (view_list _ _ _ _ V). cbn [negb].
  destruct (index_ref es (node (enc_list (concat es))) 0 (enc_list h)) as (r & E & Hc & _); try done.
  - by apply cache_fresh, payload_enc_list.
  - by rewrite Ees.
  - change 0 with (Z.of_nat 0). cbn [node] in E. rewrite E. cbn [mbind result_bind node m_data].
    pose proof (view_enc_list _ [] Hh) as Vh. rewrite app_nil_r in Vh. rewrite (view_list _ _ _ _ Vh). cbn [negb].
    by exists r.
Qed.

Lemma check_hash_ok b : block_wf b ->
  check_hash (sha3 (header_enc (b_header b))) (set_hash h256_0 (b_header b)) =
  Ok (set_hash (sha3 (header_enc (b_header b))) (b_header b)).
Proof.
  intros Hw. destruct (header_facts b Hw) as (He & _). unfold check_hash, header_hash.
  rewrite bool_decide_true by done. rewrite encode_memo, He. cbn [mbind result_bind].
  by rewrite bool_decide_true.
Qed.

Lemma receipts_read b : block_wf b ->
  decode_list receipt_decode_rlp emptyReceipt [] (node (receipts_enc (b_receipts b))) = Ok (b_receipts b).
Proof.
  intros Hw. destruct (receipts_facts b Hw) as (Hv & Hs & Hl & _).
  unfold receipts_enc. rewrite (decode_list_ref _ receipt_enc (fun r t => add_logs t r)); try done.
  - f_equal. unfold resize. rewrite take_nil. cbn [length app]. rewrite Nat.sub_0_r.
    generalize (b_receipts b). intros l. induction l as [|r l IH]; [done |]. cbn. rewrite IH. by destruct r.
  - eapply Forall_impl; [exact (proj1 (bw_receipts b Hw)) |]. intros r Hr t. by apply receipt_read.
Qed.

Lemma sigs_read b : block_wf b -> toSigList (node (sigs_enc (b_sigList b))) = Ok (b_sigList b).
Proof.
  intros [_ _ _ _ (Hw & Hl) _]. apply toVector_ref; [| unfold size_ok, SIZE_MAX; lia |];
    (eapply Forall_impl; [exact Hw |]); [apply sigpair_valid | apply sigpair_read].
Qed.

(** The block that arrives.  From RC2 on the transactions keep their encoding and,
    when asked for, their hash; before, they are decoded without, the receipts
    always, and a transaction has no chain, group and extra data ([received]). *)
Definition block_received (withReceipt withTxHash : bool) (b : EthBlock) (c : bytes) : EthBlock :=
  let rc2 := RC2_VERSION <=? version in
  mkBlock (set_hash (sha3 (header_enc (b_header b))) (b_header b))
    (if rc2 then map (fun t => arrived version withTxHash t emptyTx) (b_transactions b) else map (fun t => received version t emptyTx []) (b_transactions b))
    (if withReceipt || negb rc2 then b_receipts b else []) (b_sigList b) c [] h256_0 h256_0.

(** The encoding of the transactions, and what a filled cache holds. *)
Definition txs_kept (b : EthBlock) (c : bytes) : Prop := fst <$> txs_root version (b_transactions b) = Ok c /\ (b_txsCache b = [] \/ b_txsCache b = c).
Lemma tx_root_fills b c : txs_kept b c -> exists root, calTransactionRoot version false b = Ok (set_txsCache c root b).
Proof.
  intros [He Hc]. unfold calTransactionRoot, calTransactionRootRC2. unfold txs_root in He. destruct (RC2_VERSION <=? version).
  - case_bool_decide; [| destruct Hc as [|<-]; [done |]; exists (b_transRootCache b); by destruct b].
    destruct (txs_encode version (b_transactions b)) as [c'|]; [| done]. cbn in He. injection He as <-. by eexists.
  - case_bool_decide; [| destruct Hc as [|<-]; [done |]; exists (b_transRootCache b); by destruct b].
    destruct (root_of _ (b_transactions b)) as [[c' root]|]; [| done]. cbn in He. injection He as <-. by eexists.
Qed.
Lemma receipt_root_fills b : block_wf b -> exists root, calReceiptRoot version false b = Ok (set_receiptsCache (receipts_enc (b_receipts b)) root b).
Proof.
  intros Hw. unfold calReceiptRoot. destruct (RC2_VERSION <=? version); [by apply receipt_root_rc2 |]. case_bool_decide.
  - destruct (root_of_ok receipt_encode receipt_enc (b_receipts b)) as [root ->]; [| pose proof (bw_receipts b Hw); lia | by exists root].
    destruct (bw_receipts b Hw) as [Hr Hl]. apply Forall_forall. intros r Hin. split; [by apply receipt_encode_ref, (proj1 (Forall_forall _ _) Hr) |].
    apply list_elem_of_split in Hin as (l1 & l2 & E). rewrite E, map_app, concat_app, lenZ_app in Hl. cbn [map concat] in Hl. rewrite lenZ_app in Hl.
    pose proof (lenZ_nonneg (concat (map receipt_enc l1))). pose proof (lenZ_nonneg (concat (map receipt_enc l2))). lia.
  - destruct (bw_receiptsCache b Hw) as [|<-]; [done |]. exists (b_receiptRootCache b). by destruct b.
Qed.

Lemma encode_parts_ok b c : block_wf b -> txs_kept b c ->
  exists b', encode_parts version b = Ok (header_enc (b_header b), sha3 (header_enc (b_header b)), b') /\
    b_txsCache b' = c /\ b_sigList b' = b_sigList b /\ b_tReceiptsCache b' = receipts_enc (b_receipts b).
Proof.
  intros Hw Hc. destruct (header_facts b Hw) as (He & Hh & _). unfold encode_parts.
  rewrite (header_verify_ok b Hw). cbn [mbind result_bind]. destruct (tx_root_fills b c Hc) as (r1 & ->). cbn [mbind result_bind].
  destruct (receipt_root_fills (set_txsCache c r1 b)) as (r2 & ->); [by destruct Hw |].
  cbn [mbind result_bind set_receiptsCache set_txsCache b_header]. rewrite He. cbn [mbind result_bind].
  rewrite Hh. cbn [mbind result_bind]. eexists. split; [reflexivity |]. done.
Qed.

Ltac block_size Ho Hb := pose proof (concat_bound _ (proj2 (proj2 Ho))) as Hb.
Lemma wire_rc2 b c withReceipt withTxHash : RC2_VERSION <= version -> block_wf b -> txs_wf version (b_transactions b) -> txs_kept b c ->
  exists bs b', block_encode version b = Ok (bs, b') /\ block_of_bytes version bs CheckNone withReceipt withTxHash = Ok (block_received withReceipt withTxHash b c).
Proof.
  intros Hver Hw Ht Hk. destruct (txs_wire_ok version _ Ht) as (c' & Hc & Hcb & Hcl & Hdec).
  assert (c' = c) as ->. { destruct Hk as [Hk _]. unfold txs_root in Hk. rewrite (proj2 (Z.leb_le _ _)), Hc in Hk by done. by injection Hk. }
  destruct (encode_parts_ok b c Hw Hk) as (b' & Hp & E1 & E2 & E3).
  pose proof (block_ops_rc2_ok b c b' Hw Hcb Hcl E1 E2 E3) as Ho. block_size Ho Hb. change (lenZ (block_encs_rc2 b c)) with 5 in Hb.
  pose proof (record_ref _ _ emptyStream Ho ltac:(done)) as Hs. change (lenZ (block_ops_rc2 _ _ _)) with 5 in Hs.
  destruct (header_facts b Hw) as (_ & _ & Hhs & Hhv). destruct Ho as (_ & Hv & _).
  assert (size_ok (concat (block_encs_rc2 b c))) as Hsz by (unfold size_ok, SIZE_MAX; lia).
  exists (enc_list (concat (block_encs_rc2 b c))), b'. split.
  - unfold block_encode, block_encodeRC2. rewrite (proj2 (Z.leb_le _ _)), Hp by done. cbn [mbind result_bind].
    destruct (appendList 5 emptyStream) as [s|]; [| done]. cbn [mbind result_bind] in *. by rewrite Hs.
  - unfold block_received, block_of_bytes, block_decode, block_decodeRC2. rewrite (proj2 (Z.leb_le _ _)) by done.
    destruct (block_open _ Hv Hsz ltac:(done)) as (r & -> & Hcr); [by eexists _, _ |]. cbn [mbind result_bind].
    read_field Hv Hcr ltac:(apply header_populate_ref; [apply (bw_header b Hw) | by apply cache_fresh, payload_enc_list]).
    read_field Hv Hcr ltac:(apply toBytes_enc; data_field). cbn [b_transactions emptyBlock]. rewrite Hdec. cbn [mbind result_bind].
    destruct (sha3_ok (header_enc (b_header b))).
    read_field Hv Hcr ltac:(hash_field). cbn [m_hash emptyHeader b_header emptyBlock]. rewrite check_hash_ok by done.
    cbn [mbind result_bind]. read_field Hv Hcr ltac:(by apply sigs_read).
    destruct withReceipt; [| done]. read_field Hv Hcr ltac:(by apply receipts_read). done.
Qed.
Lemma wire_rc1 b c withReceipt withTxHash : version < RC2_VERSION -> block_wf b -> txs_wf version (b_transactions b) -> txs_kept b c ->
  exists bs b', block_encode version b = Ok (bs, b') /\ block_of_bytes version bs CheckNone withReceipt withTxHash = Ok (block_received withReceipt withTxHash b c).
Proof.
  intros Hver Hw Ht Hk. destruct (txs_root_rc1 _ Ht Hver) as [root Hroot].
  assert (c = txs_enc (b_transactions b)) as ->. { destruct Hk as [Hk _]. rewrite Hroot in Hk. by injection Hk. }
  destruct (encode_parts_ok b _ Hw Hk) as (b' & Hp & E1 & E2 & E3).
  pose proof (block_ops_rc1_ok b b' Hw Ht E1 E2 E3) as Ho. block_size Ho Hb. change (lenZ (block_encs_rc1 b)) with 5 in Hb.
  pose proof (record_ref _ _ emptyStream Ho ltac:(done)) as Hs. change (lenZ (block_ops_rc1 _ _ _)) with 5 in Hs.
  destruct (header_facts b Hw) as (_ & _ & Hhs & Hhv). destruct Ho as (_ & Hv & _).
  assert (size_ok (concat (block_encs_rc1 b))) as Hsz by (unfold size_ok, SIZE_MAX; lia).
  exists (enc_list (concat (block_encs_rc1 b))), b'. split.
  - unfold block_encode. rewrite (proj2 (Z.leb_gt _ _)), Hp by done. cbn [mbind result_bind].
    destruct (appendList 5 emptyStream) as [s|]; [| done]. cbn [mbind result_bind] in *. by rewrite Hs.
  - unfold block_received, block_of_bytes, block_decode. rewrite (proj2 (Z.leb_gt _ _)) by done. rewrite orb_true_r.
    destruct (block_open _ Hv Hsz ltac:(done)) as (r & -> & Hcr); [by eexists _, _ |]. cbn [mbind result_bind].
    read_field Hv Hcr ltac:(apply header_populate_ref; [apply (bw_header b Hw) | by apply cache_fresh, payload_enc_list]).
    read_field Hv Hcr ltac:(cbn [b_transactions emptyBlock]; rewrite txs_read by done; reflexivity).
    read_field Hv Hcr ltac:(by apply receipts_read).
    destruct (sha3_ok (header_enc (b_header b))).
    read_field Hv Hcr ltac:(hash_field). cbn [m_hash emptyHeader b_header emptyBlock]. rewrite check_hash_ok by done.
    cbn [mbind result_bind]. read_field Hv Hcr ltac:(by apply sigs_read). done.
Qed.
End Wire.

(** C21: a block survives the wire in both formats: header and signatures arrive
    unchanged, the receiver's header hash is the hash the block carries and the
    encoding of the transactions is kept in the cache.  From RC2 on the transactions
    arrive with all their fields, and the receipts when they are asked for; before
    RC2 chain id, group id and extra data of a transaction are not sent and the
    receipts are always read ([block_received]).  The fields of the block are in the
    range of their types, its sizes below 2^32 bytes of transactions and 2^57 of
    receipts and signatures, and its caches, if filled, hold its contents. *)
Theorem block_wire `{Crypto} `{Recover} version b withReceipt withTxHash :
  (forall x, hash_ok 32 (sha3 x)) ->
  block_wf b -> txs_wf version (b_transactions b) ->
  (b_txsCache b = [] \/ fst <$> txs_root version (b_transactions b) = Ok (b_txsCache b)) ->
  exists bs b' c, block_encode version b = Ok (bs, b') /\
    fst <$> txs_root version (b_transactions b) = Ok c /\
    block_of_bytes version bs CheckNone withReceipt withTxHash =
    Ok (block_received version withReceipt withTxHash b c).
Proof.
  intros Hsha Hw Ht Hcache.
  assert (exists c, fst <$> txs_root version (b_transactions b) = Ok c) as [c Hc].
  { destruct (Z.lt_ge_cases version RC2_VERSION) as [Hv|Hv].
    - destruct (txs_root_rc1 version Hsha _ Ht Hv) as [root ->]. by eexists.
    - destruct (txs_wire_ok version _ Ht) as (c & Hc & _). unfold txs_root. rewrite (proj2 (Z.leb_le _ _)), Hc by done. by eexists. }
  assert (txs_kept version b c) as Hk by (split; [done |]; destruct Hcache; [by left | right; congruence]).
  destruct (Z.lt_ge_cases version RC2_VERSION) as [Hv|Hv];
    [destruct (wire_rc1 version Hsha b c withReceipt withTxHash Hv Hw Ht Hk) as (bs & b' & E1 & E2)
    |destruct (wire_rc2 version Hsha b c withReceipt withTxHash Hv Hw Ht Hk) as (bs & b' & E1 & E2)]; by exists bs, b', c.
Qed.

(** ** Roots and caches *)

(** The operations of a block other than decoding. *)
Inductive block_op : Type :=
  | BSetTransactions (l : list Transaction) | BAppendTransaction (t : Transaction)
  | BAppendTransactions (l : list Transaction) | BSetReceipts (l : list TransactionReceipt)
  | BAppendReceipt (r : TransactionReceipt) | BResizeReceipts (n : nat)
  | BSetReceipt (i : nat) (r : TransactionReceipt) | BSetStateRoots (x : h256) | BClearReceipts
  | BSetSigList (l : list (Z * Signature)) | BSetHeader (h : BlockHeader)
  | BReset (parent : BlockHeader) | BSetEmpty (ts : Z) | BSetSender (i : nat) (a : Address)
  | BTransactionRoot (update : bool) | BReceiptRoot (update : bool) | BEncode.

Section Caches.
Context `{Crypto} `{Recover} (version : Z).

Definition block_step (o : block_op) (b : EthBlock) : result EthBlock :=
  match o with
  | BSetTransactions l => Ok (setTransactions l b)
  | BAppendTransaction t => Ok (appendTransaction t b)
  | BAppendTransactions l => Ok (appendTransactions l b)
  | BSetReceipts l => Ok (setTransactionReceipts l b)
  | BAppendReceipt r => Ok (appendTransactionReceipt r b)
  | BResizeReceipts n => Ok (resizeTransactionReceipt n b)
  | BSetReceipt i r => setTransactionReceipt i r b
  | BSetStateRoots x => Ok (setStateRootToAllReceipt x b)
  | BClearReceipts => Ok (clearAllReceipts b)
  | BSetSigList l => Ok (setSigList l b)
  | BSetHeader h => Ok (with_header h b)
  | BReset parent => resetCurrentBlock parent b
  | BSetEmpty ts => Ok (setEmptyBlock ts b)
  | BSetSender i a => setSenderForTransaction version i a b
  | BTransactionRoot u => calTransactionRoot version u b
  | BReceiptRoot u => calReceiptRoot version u b
  | BEncode => snd <$> block_encode version b
  end.

Fixpoint block_run (os : list block_op) (b : EthBlock) : result EthBlock :=
  match os with
  | [] => Ok b
  | o :: os' => b' ← block_step o b; block_run os' b'
  end.

(** A cache that is filled holds the encoding of the members, and its root. *)
Definition tx_cache_ok (b : EthBlock) : Prop :=
  b_txsCache b = [] \/ txs_root version (b_transactions b) = Ok (b_txsCache b, b_transRootCache b).
Definition receipt_cache_ok (b : EthBlock) : Prop :=
  b_tReceiptsCache b = [] \/ rcs_root version (b_receipts b) = Ok (b_tReceiptsCache b, b_receiptRootCache b).
Definition caches_ok (b : EthBlock) : Prop := tx_cache_ok b /\ receipt_cache_ok b.

(** Both formats compute the root when the cache is empty. *)
Lemma tx_root_cases u b : calTransactionRoot version u b =
  (b ← (if bool_decide (b_txsCache b = []) then '(c, root) ← txs_root version (b_transactions b); Ok (set_txsCache c root b) else Ok b);
   Ok (if u then with_header (setTransactionsRoot (b_transRootCache b) (b_header b)) b else b)).
Proof.
  unfold calTransactionRoot, calTransactionRootRC2, txs_root. destruct (RC2_VERSION <=? version); [| done].
  case_bool_decide; [| done]. by destruct (txs_encode version (b_transactions b)).
Qed.
Lemma receipt_root_cases u b : calReceiptRoot version u b =
  (b ← (if bool_decide (b_tReceiptsCache b = []) then '(c, root) ← rcs_root version (b_receipts b); Ok (set_receiptsCache c root b) else Ok b);
   Ok (if u then with_header (setReceiptsRoot (b_receiptRootCache b) (b_header b)) b else b)).
Proof.
  unfold calReceiptRoot, calReceiptRootRC2, rcs_root. destruct (RC2_VERSION <=? version); [| done].
  case_bool_decide; [| done]. by destruct (receipts_rlp (b_receipts b)).
Qed.

Lemma tx_root_step u b b' : caches_ok b -> calTransactionRoot version u b = Ok b' ->
  caches_ok b' /\ b_transactions b' = b_transactions b /\
  (u = true -> exists c, txs_root version (b_transactions b) = Ok (c, m_transactionsRoot (b_header b'))).
Proof.
  intros [Ht Hr]. rewrite tx_root_cases. case_bool_decide as Hc.
  - destruct (txs_root version (b_transactions b)) as [[c root]|] eqn:E; [| done]. cbn [mbind result_bind].
    intros [= <-]. destruct u; (split; [split; [right; exact E | exact Hr] | split; [done |]]); [| done].
    intros _. by exists c.
  - destruct Ht as [|E]; [done |]. cbn [mbind result_bind]. intros [= <-].
    destruct u; (split; [split; [by right | exact Hr] | split; [done |]]); [| done].
    intros _. by exists (b_txsCache b).
Qed.

Lemma receipt_root_step u b b' : caches_ok b -> calReceiptRoot version u b = Ok b' ->
  caches_ok b' /\ b_receipts b' = b_receipts b /\ b_transactions b' = b_transactions b /\
  m_transactionsRoot (b_header b') = m_transactionsRoot (b_header b) /\
  (u = true -> exists c, rcs_root version (b_receipts b) = Ok (c, m_receiptsRoot (b_header b'))).
Proof.
  intros [Ht Hr]. rewrite receipt_root_cases. case_bool_decide as Hc.
  - destruct (rcs_root version (b_receipts b)) as [[c root]|] eqn:E; [| done]. cbn [mbind result_bind].
    intros [= <-]. destruct u; (split; [split; [exact Ht | right; exact E] | split_and!; [done.. |]]); [| done].
    intros _. by exists c.
  - destruct Hr as [|E]; [done |]. cbn [mbind result_bind]. intros [= <-].
    destruct u; (split; [split; [exact Ht | by right] | split_and!; [done.. |]]); [| done].
    intros _. by exists (b_tReceiptsCache b).
Qed.

Lemma mapM_result_pointwise {A B} (f : A -> result B) l l' : map f l = map f l' ->
  mapM_result f l = mapM_result f l'.
Proof.
  revert l'. induction l as [|x l IH]; intros [|y l'] E; try done. cbn in *. injection E as -> E. by rewrite (IH l' E).
Qed.

Lemma sender_rlp t t' g : snd <$> sender version t = Ok t' -> tx_rlp version g t' = tx_rlp version g t /\ tx_encode version [] g t' = tx_encode version [] g t.
Proof.
  unfold sender. case_bool_decide; [| by intros [= <-]]. destruct (tx_vrs t) as [vrs|] eqn:Ev; [| done].
  destruct (tx_sha3 version WithoutSignature t) as [[h t1]|] eqn:Es; [| done]. cbn [mbind result_bind].
  unfold tx_sha3 in Es. destruct (tx_encode version [] WithoutSignature t); [| done]. injection Es as <- <-.
  case_bool_decide; [done |]. intros [= <-]. done.
Qed.

Lemma root_loop_pointwise {A} (enc : A -> result bytes) l l' : map enc l = map enc l' ->
  forall i s m, root_loop enc i l s m = root_loop enc i l' s m.
Proof.
  revert l'. induction l as [|x l IH]; intros [|y l'] E; try done. cbn in E. injection E as E1 E2. intros i s m. cbn.
  rewrite E1. destruct (append_unsigned i emptyStream) as [k|]; [| done]. destruct (enc y) as [d|]; [| done]. cbn [mbind result_bind].
  destruct (noteAppended_loop (m_listStack s) 1 (m_out s ++ d)) as [s'|]; [| done]. destruct (out k); [| done]. by apply IH.
Qed.
Lemma root_of_pointwise {A} (enc : A -> result bytes) l l' : map enc l = map enc l' -> root_of enc l = root_of enc l'.
Proof.
  intros E. unfold root_of, lenZ. rewrite <- (length_map enc l), E, length_map. destruct (appendList _ _); [| done]. cbn [mbind result_bind].
  by rewrite (root_loop_pointwise enc l l' E).
Qed.

(** Recovering or setting a sender leaves the encoding as it is. *)
Lemma map_insert_same {A B} (g : A -> B) (l : list A) i x y : l !! i = Some x -> g y = g x -> map g (<[i := y]> l) = map g l.
Proof. intros Hi E. rewrite (list_fmap_insert g l i y : map _ _ = _), E. apply list_insert_id. by rewrite list_lookup_fmap, Hi. Qed.
Lemma set_sender_encode i a b b' : setSenderForTransaction version i a b = Ok b' ->
  txs_root version (b_transactions b') = txs_root version (b_transactions b) /\
  b_txsCache b' = b_txsCache b /\ b_transRootCache b' = b_transRootCache b /\
  b_receipts b' = b_receipts b /\ b_tReceiptsCache b' = b_tReceiptsCache b /\
  b_receiptRootCache b' = b_receiptRootCache b.
Proof.
  unfold setSenderForTransaction. destruct (b_transactions b !! i) as [t|] eqn:Ei; [| done].
  intros Hb. apply bind_ok in Hb as (t' & Ht & [= <-]). cbn [with_transactions b_transactions].
  assert (tx_rlp version WithSignature t' = tx_rlp version WithSignature t /\ tx_encode version [] WithSignature t' = tx_encode version [] WithSignature t) as [Hr He].
  { destruct (bool_decide (a = ZeroAddress)); [by apply sender_rlp | by injection Ht as <-]. }
  split; [| done]. unfold txs_root. destruct (RC2_VERSION <=? version); [| by apply root_of_pointwise, (map_insert_same _ _ _ t)].
  unfold txs_encode. replace (lenZ (<[i:=t']> (b_transactions b))) with (lenZ (b_transactions b)) by (unfold lenZ; by rewrite length_insert).
  destruct (_ =? 0); [done |]. f_equal. f_equal. apply mapM_result_pointwise.
  rewrite <- !firstn_map. f_equal. by apply (map_insert_same _ _ _ t).
Qed.

Lemma encode_step b b' : caches_ok b -> snd <$> block_encode version b = Ok b' -> caches_ok b'.
Proof.
  intros Hb He. unfold block_encode, block_encodeRC2 in He.
  destruct (encode_parts version b) as [[[hd hh] b1]|] eqn:Ep; [| by destruct (_ <=? _)]. cbn [mbind result_bind] in He.
  assert (b' = b1) as ->.
  { destruct (appendList 5 emptyStream); [| by destruct (_ <=? _)]. cbn [mbind result_bind] in He.
    destruct (_ <=? _); (destruct (streamAll _ _); [| done]); cbn [mbind result_bind] in He; (destruct (out _); [| done]); by injection He. }
  unfold encode_parts in Ep. apply bind_ok in Ep as (_ & _ & Ep). apply bind_ok in Ep as (b2 & E2 & Ep).
  apply bind_ok in Ep as (b3 & E3 & Ep). apply bind_ok in Ep as (hb & _ & Ep). apply bind_ok in Ep as ([x h] & _ & [= _ _ <-]).
  destruct (tx_root_step _ _ _ Hb E2) as (Hb2 & _). destruct (receipt_root_step _ _ _ Hb2 E3) as (Hb3 & _). exact Hb3.
Qed.

Lemma block_step_caches o b b' : caches_ok b -> block_step o b = Ok b' -> caches_ok b'.
Proof.
  intros Hb Hs. pose proof Hb as [Ht Hr]. destruct o; cbn [block_step] in Hs;
    try (injection Hs as <-; split; first [by left | exact Ht | exact Hr]).
  - unfold setTransactionReceipt in Hs. destruct (_ <? _)%nat; [| done]. injection Hs as <-. split; [exact Ht | by left].
  - unfold resetCurrentBlock in Hs. apply bind_ok in Hs as (h & _ & [= <-]). split; by left.
  - destruct (set_sender_encode _ _ _ _ Hs) as (E & E1 & E2 & E3 & E4 & E5). unfold caches_ok, tx_cache_ok, receipt_cache_ok.
    by rewrite E, E1, E2, E3, E4, E5.
  - by apply (tx_root_step _ _ _ Hb Hs).
  - by apply (receipt_root_step _ _ _ Hb Hs).
  - by apply (encode_step b).
Qed.

Lemma block_run_caches os b b' : caches_ok b -> block_run os b = Ok b' -> caches_ok b'.
Proof.
  revert b. induction os as [|o os IH]; intros b Hb Hr; cbn [block_run] in Hr; [by injection Hr as <- |].
  apply bind_ok in Hr as (b1 & H1 & Hr). apply (IH b1); [by apply (block_step_caches o b) | done].
Qed.
End Caches.

(** C22: whatever operations other than decoding built a block, [updateSequenceReceiptGas]
    aside, its roots commit to its contents, in every version: the transactions root
    and the receipts root computed for the header are the roots of the transactions
    and receipts it holds now, never of a stale cache ([txs_root] and [rcs_root]
    compute them from the lists alone: the hash of the encoding from RC2 on, the
    root of the trie before). *)
Theorem block_roots_fresh `{Crypto} `{Recover} version os b b1 b2 :
  block_run version os emptyBlock = Ok b ->
  calTransactionRoot version true b = Ok b1 -> calReceiptRoot version true b1 = Ok b2 ->
  exists ct cr, txs_root version (b_transactions b2) = Ok (ct, m_transactionsRoot (b_header b2)) /\
    rcs_root version (b_receipts b2) = Ok (cr, m_receiptsRoot (b_header b2)).
Proof.
  intros Hr H1 H2. pose proof (block_run_caches version os emptyBlock b ltac:(split; by left) Hr) as Hb.
  destruct (tx_root_step version _ _ _ Hb H1) as (Hb1 & Et & Ht).
  destruct (receipt_root_step version _ _ _ Hb1 H2) as (Hb2 & Er & Et2 & Eroot & Hr2).
  destruct (Ht eq_refl) as (ct & Hct). destruct (Hr2 eq_refl) as (cr & Hcr).
  exists ct, cr. by rewrite Et2, Et, Er, Eroot.
Qed.

(** The encoding the PBFT engine sends and the decoding it receives with. *)
Definition eth_codec `{Crypto} `{Recover} (version : Z) : @BlockCodec Transaction TransactionReceipt :=
  {| bl_encode := fun b => fst <$> block_encode version b;
     bl_decode := fun bs => block_of_bytes version bs CheckNone false true |}.

(** ** Witnesses *)
Definition toy_hash : Crypto :=
  {| sha3 := fun b => toBigEndian 32 (be_val b + 1); sign := fun k h => take 65 (k ++ h ++ zeros 65);
     verify := fun _ _ _ => true |}.

Lemma toy_hash_ok x : hash_ok 32 (@sha3 toy_hash x).
Proof.
  cbn [toy_hash sha3]. split; [apply toBigEndian_bytes | unfold lenZ; by rewrite toBigEndian_length].
Qed.

Definition sample_block : EthBlock :=
  mkBlock sample_header [sample_tx; sample_tx] [sample_receipt] [(0, replicate 65 1)] [] [] h256_0 h256_0.

Lemma sample_block_wf : @block_wf toy_hash sample_block.
Proof.
  split; cbn [sample_block b_header b_receipts b_sigList b_tReceiptsCache].
  - split; [apply sample_header_wf |]. split; [by left | vm_compute; reflexivity].
  - vm_compute. reflexivity.
  - vm_compute. discriminate.
  - split; [| vm_compute; reflexivity]. apply Forall_cons. split; [apply sample_receipt_wf | constructor].
  - split; [| vm_compute; reflexivity]. apply Forall_cons. split; [| constructor].
    split; [unfold u256_ok; cbn; lia | apply hash_okb; vm_compute; reflexivity].
  - by left.
Qed.

Lemma block_wire_witness :
  (exists bs b' c, @block_encode toy_hash RC2_VERSION sample_block = Ok (bs, b') /\
    @block_of_bytes toy_hash toy_recover RC2_VERSION bs CheckNone true true =
    Ok (@block_received toy_hash RC2_VERSION true true sample_block c)) /\
  (exists bs b' c, @block_encode toy_hash 1 sample_block = Ok (bs, b') /\
    @block_of_bytes toy_hash toy_recover 1 bs CheckNone false true =
    Ok (@block_received toy_hash 1 false true sample_block c)).
Proof.
  split.
  - destruct (@block_wire toy_hash toy_recover RC2_VERSION sample_block true true toy_hash_ok
      sample_block_wf sample_txs_wf ltac:(by left)) as (bs & b' & c & E & _ & D).
    exists bs, b', c. split; [exact E | exact D].
  - destruct (@block_wire toy_hash toy_recover 1 sample_block false true toy_hash_ok
      sample_block_wf) as (bs & b' & c & E & _ & D).
    + split; [| vm_compute; done]. repeat (apply Forall_cons_2; [split; [apply sample_tx_wf | by left] |]). by apply Forall_nil_2.
    + by left.
    + exists bs, b', c. split; [exact E | exact D].
Defined.

Definition sample_block_ops : list block_op :=
  [BSetEmpty 5; BAppendTransaction sample_tx; BEncode; BAppendTransaction sample_tx;
   BAppendReceipt sample_receipt; BReceiptRoot false; BSetStateRoots (replicate 32 3)].

(** in the format before RC2 *)
Definition sample_built : EthBlock :=
  from_ok emptyBlock (@block_run toy_hash toy_recover 1 sample_block_ops emptyBlock).
Definition sample_built1 : EthBlock := from_ok emptyBlock (@calTransactionRoot toy_hash 1 true sample_built).
Definition sample_built2 : EthBlock := from_ok emptyBlock (@calReceiptRoot toy_hash 1 true sample_built1).

Lemma block_roots_fresh_witness :
  exists cr, @rcs_root toy_hash 1 (b_receipts sample_built2) = Ok (cr, m_receiptsRoot (b_header sample_built2)).
Proof.
  destruct (@block_roots_fresh toy_hash toy_recover 1 sample_block_ops sample_built sample_built1 sample_built2)
    as (ct & cr & _ & Hr).
  - vm_compute. reflexivity.
  - vm_compute. reflexivity.
  - vm_compute. reflexivity.
  - exists cr. exact Hr.
Defined.
