(* ===== verification/Sealer.v ===== *)
(** * Sealing blocks for PBFT

    [libconsensus/Sealer.*] and [libconsensus/pbft/PBFTSealer.*]: the worker that
    takes transactions from the pool, builds the next block and hands it to the
    engine, and the adaptation of the block size to timeouts.  The sealer runs
    with the engine and the pool of this library; the engine calls it back
    through its events.  A pass of the worker is one step; its waits are not
    modelled. *)

From S2P Require Import Prelude CommonData RLP PBFTMsg BlockHeader Block PBFTMsgCache PBFTReqCache PBFTState PBFTEngine.
From S2P Require Import Transaction NonceCheck TxPool Receipt TxsParser BlockCodec.

(** ** The size of a block *)

(** Members of the sealer for the dynamic block size.  The ratio is kept in
    halves: the values it can take are 0, 1/2 and 1, for which the [float]
    arithmetic is exact below [2^23] transactions. *)
Record DynamicSize := mkDyn {
  m_maxBlockCanSeal : Z;
  m_lastTimeoutTx : Z;
  m_maxNoTimeoutTx : Z;
  m_timeoutCount : Z;
  m_lastBlockNumber : Z;
  m_blockSizeIncreaseRatio2 : Z
}.

Definition initialDyn : DynamicSize := mkDyn 1000 0 0 0 0 1.

Definition set_maxBlockCanSeal (x : Z) (d : DynamicSize) : DynamicSize :=
  mkDyn x (m_lastTimeoutTx d) (m_maxNoTimeoutTx d) (m_timeoutCount d) (m_lastBlockNumber d)
    (m_blockSizeIncreaseRatio2 d).
Definition set_lastTimeoutTx (x : Z) (d : DynamicSize) : DynamicSize :=
  mkDyn (m_maxBlockCanSeal d) x (m_maxNoTimeoutTx d) (m_timeoutCount d) (m_lastBlockNumber d)
    (m_blockSizeIncreaseRatio2 d).
Definition set_maxNoTimeoutTx (x : Z) (d : DynamicSize) : DynamicSize :=
  mkDyn (m_maxBlockCanSeal d) (m_lastTimeoutTx d) x (m_timeoutCount d) (m_lastBlockNumber d)
    (m_blockSizeIncreaseRatio2 d).
Definition set_timeoutCount (x : Z) (d : DynamicSize) : DynamicSize :=
  mkDyn (m_maxBlockCanSeal d) (m_lastTimeoutTx d) (m_maxNoTimeoutTx d) x (m_lastBlockNumber d)
    (m_blockSizeIncreaseRatio2 d).
Definition set_lastBlockNumber (x : Z) (d : DynamicSize) : DynamicSize :=
  mkDyn (m_maxBlockCanSeal d) (m_lastTimeoutTx d) (m_maxNoTimeoutTx d) (m_timeoutCount d) x
    (m_blockSizeIncreaseRatio2 d).

(** The parameter is a [bool]: the configured [float] converts to true unless it
    is zero. *)
Definition setBlockSizeIncreaseRatio (r : bool) (d : DynamicSize) : DynamicSize :=
  mkDyn (m_maxBlockCanSeal d) (m_lastTimeoutTx d) (m_maxNoTimeoutTx d) (m_timeoutCount d)
    (m_lastBlockNumber d) (if r then 2 else 0).

(** [m_maxNoTimeoutTx * 0.1 > 1] holds from 11 on; [m_maxNoTimeoutTx * (1 + 0.1)]
    truncates to the quotient below [2^50]. *)
Definition attempIncreaseTimeoutTx (limit : Z) (d : DynamicSize) : DynamicSize :=
  if limit <=? m_lastTimeoutTx d then d
  else if m_maxNoTimeoutTx d =? limit then set_lastTimeoutTx (m_maxNoTimeoutTx d) d
  else
    let d := if 10 <? m_maxNoTimeoutTx d then set_lastTimeoutTx (m_maxNoTimeoutTx d * 11 / 10) d
             else set_lastTimeoutTx (wrap 64 (m_lastTimeoutTx d * 2)) d in
    if limit <=? m_lastTimeoutTx d then set_lastTimeoutTx limit d else d.

Definition onTimeout (sync : SyncInterface) (limit : Z) (sealingTxNumber : Z) (d : DynamicSize) : DynamicSize :=
  let d := if sync_isSyncing sync then set_lastBlockNumber (wrap 64 (sync_knownHighestNumber sync)) d else d in
  let d := set_timeoutCount (m_timeoutCount d + 1) d in
  let d :=
    if (0 <? sealingTxNumber) && ((m_lastTimeoutTx d =? 0) ||
         ((sealingTxNumber <? m_lastTimeoutTx d) && (m_maxNoTimeoutTx d <? sealingTxNumber)))
    then set_lastTimeoutTx sealingTxNumber d else attempIncreaseTimeoutTx limit d in
  if 2 <? m_maxBlockCanSeal d then set_maxBlockCanSeal (m_maxBlockCanSeal d / 2) d else d.

Definition increaseMaxTxsCanSeal (limit : Z) (d : DynamicSize) : DynamicSize :=
  let m := m_maxBlockCanSeal d in
  let d := if 2 <? m_blockSizeIncreaseRatio2 d * m
           then set_maxBlockCanSeal ((2 * m + m_blockSizeIncreaseRatio2 d * m) / 2) d
           else set_maxBlockCanSeal (m + 1) d in
  let d := if m_lastTimeoutTx d <=? m_maxNoTimeoutTx d then attempIncreaseTimeoutTx limit d else d in
  let d := if (0 <? m_lastTimeoutTx d) && (m_lastTimeoutTx d <? m_maxBlockCanSeal d)
           then set_maxBlockCanSeal (m_lastTimeoutTx d) d else d in
  let d := if (0 <? m_maxNoTimeoutTx d) && (m_maxBlockCanSeal d <? m_maxNoTimeoutTx d)
           then set_maxBlockCanSeal (m_maxNoTimeoutTx d) d else d in
  if limit <? m_maxBlockCanSeal d then set_maxBlockCanSeal limit d else d.

(** [onCommitBlock]; [number] is that of the chain. *)
Definition onCommitBlock (sync : SyncInterface) (number limit : Z) (blockNumber sealingTxNumber changeCycle : Z)
    (d : DynamicSize) : DynamicSize :=
  if sync_isSyncing sync || (0 <? changeCycle) then
    set_lastBlockNumber (wrap 64 (sync_knownHighestNumber sync)) d
  else if blockNumber <=? m_lastBlockNumber d then d
  else
    let d := set_lastBlockNumber (wrap 64 number) d in
    if 0 <? m_timeoutCount d then set_timeoutCount (m_timeoutCount d - 1) d
    else
      let d := if (0 <? sealingTxNumber) &&
                  ((m_maxNoTimeoutTx d =? 0) || (m_maxNoTimeoutTx d <? sealingTxNumber))
               then set_maxNoTimeoutTx sealingTxNumber d else d in
      if limit <=? m_maxBlockCanSeal d then d
      else if negb (m_lastTimeoutTx d =? 0) && (m_lastTimeoutTx d <=? m_maxBlockCanSeal d) then d
      else increaseMaxTxsCanSeal limit d.

(** ** The sealer *)
Section Sealer.
Context `{Crypto} `{Recover} `{MapOrder} {Ctx : Type} (version : Z).

Abbreviation Env' := (Env Transaction TransactionReceipt Ctx).
Abbreviation Engine' := (PBFTEngine Transaction TransactionReceipt Ctx).
Abbreviation Pool' := (@TxPool TransactionReceipt).

(** [struct Sealing]. *)
Record Sealing := mkSealing {
  sg_block : EthBlock;
  sg_transactionSet : gset h256;
  sg_execContext : option Ctx
}.

Record SealerState := mkSealer {
  m_sealing : Sealing;
  sl_extraData : list bytes;
  m_syncTxPool : bool;
  m_syncBlock : bool;
  m_startConsensus : bool;
  m_enableDynamicBlockSize : bool;
  m_dyn : DynamicSize;
  (** the components it runs with *)
  m_pbftEngine : Engine';
  m_txPool : Pool';
  (** calls of [noteSealingBlockNumber] on the synchroniser, newest first *)
  m_noted : list Z
}.

Implicit Types s : SealerState.

Definition set_sealing (x : Sealing) s : SealerState :=
  mkSealer x (sl_extraData s) (m_syncTxPool s) (m_syncBlock s) (m_startConsensus s)
    (m_enableDynamicBlockSize s) (m_dyn s) (m_pbftEngine s) (m_txPool s) (m_noted s).
Definition set_flags (tx blk start : bool) s : SealerState :=
  mkSealer (m_sealing s) (sl_extraData s) tx blk start (m_enableDynamicBlockSize s) (m_dyn s)
    (m_pbftEngine s) (m_txPool s) (m_noted s).
Definition set_dyn (x : DynamicSize) s : SealerState :=
  mkSealer (m_sealing s) (sl_extraData s) (m_syncTxPool s) (m_syncBlock s) (m_startConsensus s)
    (m_enableDynamicBlockSize s) x (m_pbftEngine s) (m_txPool s) (m_noted s).
Definition set_engine (x : Engine') s : SealerState :=
  mkSealer (m_sealing s) (sl_extraData s) (m_syncTxPool s) (m_syncBlock s) (m_startConsensus s)
    (m_enableDynamicBlockSize s) (m_dyn s) x (m_txPool s) (m_noted s).
Definition set_pool (x : Pool') s : SealerState :=
  mkSealer (m_sealing s) (sl_extraData s) (m_syncTxPool s) (m_syncBlock s) (m_startConsensus s)
    (m_enableDynamicBlockSize s) (m_dyn s) (m_pbftEngine s) x (m_noted s).
Definition set_noted (x : list Z) s : SealerState :=
  mkSealer (m_sealing s) (sl_extraData s) (m_syncTxPool s) (m_syncBlock s) (m_startConsensus s)
    (m_enableDynamicBlockSize s) (m_dyn s) (m_pbftEngine s) (m_txPool s) x.

Definition set_block (b : EthBlock) s : SealerState :=
  set_sealing (mkSealing b (sg_transactionSet (m_sealing s)) (sg_execContext (m_sealing s))) s.

Definition block s : EthBlock := sg_block (m_sealing s).

(** [onTransactionQueueReady] and [onBlockChanged]. *)
Definition onTransactionQueueReady s : SealerState := set_flags true (m_syncBlock s) (m_startConsensus s) s.
Definition onBlockChanged s : SealerState := set_flags (m_syncTxPool s) true (m_startConsensus s) s.

(** The handlers: state, then a result. *)
Definition SM (A : Type) : Type := SealerState -> SealerState * result A.
#[local] Instance SM_ret : MRet SM := fun A a s => (s, Ok a).
#[local] Instance SM_bind : MBind SM := fun A B f m s =>
  match m s with
  | (s', Ok a) => f a s'
  | (s', Throw e) => (s', Throw e)
  end.
Definition sget : SM SealerState := fun s => (s, Ok s).
Definition smodify (f : SealerState -> SealerState) : SM unit := fun s => (f s, Ok tt).
Definition slift {A} (r : result A) : SM A := fun s => (s, r).
Definition swhen (b : bool) (m : SM unit) : SM unit := if b then m else mret tt.

Section Run.
Context (E : Env').

Definition chainNumber : Z := bc_number (blockChain E).
Definition highestBlock : option EthBlock := bc_getBlockByNumber (blockChain E) chainNumber.

(** [resetBlock]; a missing highest block ends the process. *)
Definition resetBlock (resetNextLeader : bool) (b : EthBlock) : result EthBlock :=
  if resetNextLeader then
    b ← resetCurrentBlock emptyHeader b;
    Ok (with_header (setNumber (swrap 64 (chainNumber + 2)) (b_header b)) b)
  else
    match highestBlock with
    | None => Throw InvalidArgument
    | Some p => resetCurrentBlock (b_header p) b
    end.

Definition resetSealingBlock (filter : gset h256) (resetNextLeader : bool) : SM unit :=
  smodify (fun s => set_noted (chainNumber :: m_noted s) s);;
  s ← sget;
  b ← slift (resetBlock resetNextLeader (block s));
  smodify (set_sealing (mkSealing b filter None)).

(** [shouldHandleBlock] of [PBFTSealer]. *)
Definition shouldHandleBlock s : bool :=
  (m_number (b_header (block s)) =? swrap 64 (chainNumber + 1))
  && fst (getLeader (m_pbftEngine s)) && (snd (getLeader (m_pbftEngine s)) =? nodeIdx (m_pbftEngine s)).

Definition shouldResetSealing s : bool :=
  (isSealed (block s) || (m_number (b_header (block s)) <=? chainNumber))
  && (snd (getLeader (m_pbftEngine s)) =? nodeIdx (m_pbftEngine s)).

(** ** Callbacks *)
Definition resetBlockForViewChange : SM unit :=
  s ← sget;
  if isSealed (block s) && shouldHandleBlock s then mret tt else resetSealingBlock ∅ false.

Definition resetBlockForNextLeader (filter : gset h256) : SM unit := resetSealingBlock filter true.

Definition modify_dyn (f : DynamicSize -> DynamicSize) : SM unit := smodify (fun s => set_dyn (f (m_dyn s)) s).

(** [limit] is [maxBlockTransactions] when the engine calls: [reportBlock] calls
    before it reads the new limit. *)
Definition callback (limit : Z) (e : Event Transaction TransactionReceipt Ctx) : SM unit :=
  match e with
  | EvOnTimeout n => modify_dyn (onTimeout (blockSync E) limit n)
  | EvOnCommitBlock number txs cycle =>
      modify_dyn (onCommitBlock (blockSync E) chainNumber limit (wrap 64 number) txs cycle)
  | EvOnViewChange => resetBlockForViewChange
  | EvNextLeaderReset filter => resetBlockForNextLeader (list_to_set filter)
  | EvNoteSealing n => smodify (fun s => set_noted (n :: m_noted s) s)
  | _ => mret tt
  end.

Fixpoint callbacks (limit : Z) (es : list (Event Transaction TransactionReceipt Ctx)) : SM unit :=
  match es with [] => mret tt | e :: es' => callback limit e;; callbacks limit es' end.

(** A call of the engine: its handler, and the callbacks it made. *)
Definition runEngine {A} (m : M Transaction TransactionReceipt Ctx A) : SM A := fun s =>
  let e := m_pbftEngine s in
  let '(e', r) := m e in
  let fresh := rev (take (length (m_trace e') - length (m_trace e)) (m_trace e')) in
  match callbacks (m_maxBlockTransactions e) fresh (set_engine e' s) with
  | (s', Ok _) => (s', r)
  | (s', Throw x) => (s', Throw x)
  end.

(** ** Building the block *)
Definition resetCurrentTime (b : EthBlock) : result EthBlock :=
  match highestBlock with
  | None => Throw UndefinedBehaviour
  | Some p =>
      Ok (with_header (setTimestamp (Z.max (wrap 64 (m_timestamp (b_header p) + 1)) (now E)) (b_header b)) b)
  end.

Definition resetSealingHeader (extra : list bytes) (e : Engine') (b : EthBlock) : result EthBlock :=
  b ← resetCurrentTime b;
  let h := b_header b in
  let h := setSealerList (eng_sealerList e) h in
  let h := setSealer (nodeIdx e) h in
  let h := setLogBloom LogBloom_0 h in
  let h := setGasUsed 0 h in
  Ok (with_header (setExtraDataAll extra h) b).

Definition setBlock (extra : list bytes) (e : Engine') (b : EthBlock) : result EthBlock :=
  match highestBlock with
  | None => Throw UndefinedBehaviour
  | Some p =>
      '(h, _) ← populateFromParent (b_header p) (b_header b);
      b ← resetSealingHeader extra e (with_header h b);
      calTransactionRoot version true b
  end.

Definition handleBlock : SM unit :=
  s ← sget;
  if m_maxBlockTransactions (m_pbftEngine s) <? getTransactionSize (block s) then resetSealingBlock ∅ false
  else
    b ← slift (setBlock (sl_extraData s) (m_pbftEngine s) (block s));
    smodify (set_block b);;
    runEngine (generatePrepare E b);;
    s ← sget;
    swhen (needOmit (block s) (m_pbftEngine s)) (resetSealingBlock ∅ false).

Definition loadTransactions (transToFetch : Z) : SM unit :=
  s ← sget;
  '(txs, avoid, p) ← slift (topTransactions version transToFetch (sg_transactionSet (m_sealing s)) true (m_txPool s));
  smodify (fun s => set_pool p
    (set_sealing (mkSealing (appendTransactions txs (block s)) avoid (sg_execContext (m_sealing s))) s)).

(** ** The worker *)
Definition reachBlockIntervalTime' s : bool :=
  reachBlockIntervalTime E (m_pbftEngine s)
  || ((0 <? getTransactionSize (block s)) && reachMinBlockGenTime E (m_pbftEngine s)).

Definition checkTxsEnough (maxTxs : Z) s : bool :=
  canHandleBlockForNextLeader (m_pbftEngine s)
  && ((maxTxs <=? getTransactionSize (block s)) || reachBlockIntervalTime' s).

Definition reportNewBlock : SM unit :=
  s ← sget;
  if m_syncBlock s then
    smodify (fun s => set_flags (m_syncTxPool s) false (m_startConsensus s) s);;
    match highestBlock with
    | None => mret tt
    | Some p =>
        runEngine (reportBlock E p);;
        s ← sget;
        swhen (shouldResetSealing s) (resetSealingBlock ∅ false)
    end
  else mret tt.

Definition sealer_shouldSeal : SM bool :=
  s ← sget;
  let base := negb (isSealed (block s)) && m_startConsensus s
              && (match m_accountType (m_pbftEngine s) with SealerAccount => true | _ => false end)
              && negb (sync_isSyncing (blockSync E)) in
  if base then runEngine (shouldSeal E) else mret false.

Definition doWork : SM unit :=
  reportNewBlock;;
  ok ← sealer_shouldSeal;
  if ok : bool then
    s ← sget;
    let tx_num := getTransactionSize (block s) in
    let syncTx := negb (fst (pool_status (m_txPool s)) =? 0) in
    smodify (set_flags syncTx (m_syncBlock s) (m_startConsensus s));;
    let maxTxs := m_maxBlockCanSeal (m_dyn s) in
    swhen ((tx_num <? maxTxs) && syncTx && negb (reachBlockIntervalTime' s)) (loadTransactions (maxTxs - tx_num));;
    s ← sget;
    if negb (checkTxsEnough maxTxs s) then mret tt
    else swhen (shouldHandleBlock s) handleBlock
  else mret tt.

(** [start] of the sealer and of its base; the engine is started by the node. *)
Definition sealer_start : SM unit :=
  s ← sget;
  swhen (m_enableDynamicBlockSize s) (modify_dyn (set_lastBlockNumber (wrap 64 chainNumber)));;
  if m_startConsensus s then mret tt
  else
    resetSealingBlock ∅ false;;
    match highestBlock with
    | None => slift (Throw UndefinedBehaviour)
    | Some p =>
        runEngine (reportBlock E p);;
        smodify (fun s => set_dyn (set_maxBlockCanSeal (m_maxBlockTransactions (m_pbftEngine s)) (m_dyn s)) s);;
        smodify (fun s => set_flags (m_syncTxPool s) false true s)
    end.

Definition sealer_stop s : SealerState := set_flags (m_syncTxPool s) (m_syncBlock s) false s.
End Run.
End Sealer.

(** ** The size of a block stays in range *)
Inductive dyn_event : Type :=
  | DTimeout (sync : SyncInterface) (txs : Z)
  | DCommit (sync : SyncInterface) (number blockNumber txs cycle : Z).

Definition dyn_step (limit : Z) (d : DynamicSize) (e : dyn_event) : DynamicSize :=
  match e with
  | DTimeout sync n => onTimeout sync limit n d
  | DCommit sync number bn n cycle => onCommitBlock sync number limit bn n cycle d
  end.

Definition dyn_run (limit : Z) (es : list dyn_event) (d : DynamicSize) : DynamicSize :=
  foldl (dyn_step limit) d es.

Definition dyn_ok (limit : Z) (d : DynamicSize) : Prop := 1 <= m_maxBlockCanSeal d <= limit.

Lemma attemp_keeps limit d :
  m_maxBlockCanSeal (attempIncreaseTimeoutTx limit d) = m_maxBlockCanSeal d /\
  m_blockSizeIncreaseRatio2 (attempIncreaseTimeoutTx limit d) = m_blockSizeIncreaseRatio2 d /\
  m_maxNoTimeoutTx (attempIncreaseTimeoutTx limit d) = m_maxNoTimeoutTx d.
Proof. unfold attempIncreaseTimeoutTx. repeat case_step; done. Qed.

Lemma timeout_ok sync limit n d : dyn_ok limit d -> dyn_ok limit (onTimeout sync limit n d).
Proof.
  unfold dyn_ok. intros Hd. unfold onTimeout.
  set (d1 := if sync_isSyncing sync then _ else d).
  assert (m_maxBlockCanSeal d1 = m_maxBlockCanSeal d) as E1 by (unfold d1; by case_step).
  set (d2 := if _ && _ then _ else _).
  assert (m_maxBlockCanSeal d2 = m_maxBlockCanSeal d) as E2.
  { unfold d2. case_step; [done |]. by rewrite (proj1 (attemp_keeps _ _)). }
  destruct (2 <? m_maxBlockCanSeal d2) eqn:E; bool_to_prop; [| lia]. cbn [m_maxBlockCanSeal set_maxBlockCanSeal].
  rewrite E2 in *. Z.div_mod_to_equations. lia.
Qed.

Lemma increase_ok limit d : 1 <= limit -> 1 <= m_maxBlockCanSeal d -> 0 <= m_blockSizeIncreaseRatio2 d ->
  dyn_ok limit (increaseMaxTxsCanSeal limit d).
Proof.
  intros Hl Hd Hr. unfold increaseMaxTxsCanSeal, dyn_ok.
  set (d1 := if 2 <? _ then _ else _).
  assert (1 <= m_maxBlockCanSeal d1) as H1.
  { unfold d1. case_step; cbn [m_maxBlockCanSeal set_maxBlockCanSeal]; [| lia]. apply Z.div_le_lower_bound; nia. }
  clearbody d1. set (d2 := if m_lastTimeoutTx d1 <=? _ then _ else _).
  assert (1 <= m_maxBlockCanSeal d2) as H2.
  { unfold d2. case_step; [by rewrite (proj1 (attemp_keeps _ _)) | done]. }
  clearbody d2. set (d3 := if _ && _ then _ else d2).
  assert (1 <= m_maxBlockCanSeal d3) as H3.
  { unfold d3. case_step; bool_to_prop; [cbn [m_maxBlockCanSeal set_maxBlockCanSeal]; lia | done]. }
  clearbody d3. set (d4 := if _ && _ then _ else d3).
  assert (1 <= m_maxBlockCanSeal d4) as H4.
  { unfold d4. case_step; bool_to_prop; [cbn [m_maxBlockCanSeal set_maxBlockCanSeal]; lia | done]. }
  clearbody d4. case_step; bool_to_prop; cbn [m_maxBlockCanSeal set_maxBlockCanSeal]; lia.
Qed.

Lemma commit_ok sync number limit bn n cycle d : 0 <= m_blockSizeIncreaseRatio2 d -> dyn_ok limit d ->
  dyn_ok limit (onCommitBlock sync number limit bn n cycle d).
Proof.
  intros Hr Hd. unfold onCommitBlock. case_step; [exact Hd |]. case_step; [exact Hd |].
  case_step; [exact Hd |]. set (d1 := if _ && _ then _ else _).
  assert (m_maxBlockCanSeal d1 = m_maxBlockCanSeal d /\ m_blockSizeIncreaseRatio2 d1 = m_blockSizeIncreaseRatio2 d)
    as [Em Er] by (unfold d1; by case_step).
  unfold dyn_ok in *. case_step; [lia |]. case_step; [lia |]. apply increase_ok; lia.
Qed.

Lemma ratio_if (b : bool) x y r : m_blockSizeIncreaseRatio2 x = r -> m_blockSizeIncreaseRatio2 y = r ->
  m_blockSizeIncreaseRatio2 (if b then x else y) = r.
Proof. by destruct b. Qed.

Lemma ratio_kept limit d e : m_blockSizeIncreaseRatio2 (dyn_step limit d e) = m_blockSizeIncreaseRatio2 d.
Proof.
  assert (forall x d', m_blockSizeIncreaseRatio2 d' = m_blockSizeIncreaseRatio2 d ->
    m_blockSizeIncreaseRatio2 (attempIncreaseTimeoutTx x d') = m_blockSizeIncreaseRatio2 d) as Ha.
  { intros x d' <-. apply attemp_keeps. }
  destruct e; cbn [dyn_step]; unfold onTimeout, onCommitBlock, increaseMaxTxsCanSeal; cbn zeta.
  all: repeat (first [reflexivity | apply ratio_if | apply Ha | progress cbn [m_blockSizeIncreaseRatio2 set_maxBlockCanSeal
    set_lastTimeoutTx set_maxNoTimeoutTx set_timeoutCount set_lastBlockNumber]]).
Qed.

(** The number of transactions a block may hold adapts to timeouts and commits
    but never leaves its range: it is at least one, so that sealing goes on,
    and at most the limit of the chain. *)
Theorem block_size_bounds limit es d :
  1 <= limit -> 0 <= m_blockSizeIncreaseRatio2 d -> dyn_ok limit d -> dyn_ok limit (dyn_run limit es d).
Proof.
  intros Hl. revert d. induction es as [|e es IH]; intros d Hr Hd; [done |]. cbn [dyn_run foldl].
  apply IH; [by rewrite ratio_kept |]. destruct e; [by apply timeout_ok | by apply commit_ok].
Qed.

Lemma attemp_fresh limit d : 1 <= limit -> m_lastTimeoutTx d = 0 -> m_maxNoTimeoutTx d = 0 ->
  m_lastTimeoutTx (attempIncreaseTimeoutTx limit d) = 0 /\ m_maxNoTimeoutTx (attempIncreaseTimeoutTx limit d) = 0.
Proof.
  intros Hl E1 E2. split; [| by rewrite (proj2 (proj2 (attemp_keeps _ _)))]. unfold attempIncreaseTimeoutTx.
  rewrite E1, E2, (proj2 (Z.leb_gt limit 0)), (proj2 (Z.eqb_neq 0 limit)) by lia.
  change (10 <? 0) with false. cbn [set_lastTimeoutTx m_lastTimeoutTx]. change (wrap 64 (0 * 2)) with 0.
  by rewrite (proj2 (Z.leb_gt limit 0)) by lia.
Qed.

(** The configured ratio of growth is passed as a [bool]: any ratio
    [num / den] but zero doubles the block size. *)
Theorem growth_ratio_ignored limit d num den :
  num <> 0 -> 0 < den -> 1 <= limit -> 2 <= m_maxBlockCanSeal d -> m_lastTimeoutTx d = 0 -> m_maxNoTimeoutTx d = 0 ->
  m_maxBlockCanSeal (increaseMaxTxsCanSeal limit (setBlockSizeIncreaseRatio (negb (num =? 0)) d)) =
  Z.min limit (2 * m_maxBlockCanSeal d).
Proof.
  intros Hn _ Hl Hd Ht Hm. rewrite (proj2 (Z.eqb_neq _ _)) by done. unfold increaseMaxTxsCanSeal.
  set (d1 := if 2 <? _ then _ else _).
  assert (m_maxBlockCanSeal d1 = 2 * m_maxBlockCanSeal d /\ m_lastTimeoutTx d1 = 0 /\ m_maxNoTimeoutTx d1 = 0)
    as (E1 & E2 & E3).
  { unfold d1. cbn [negb setBlockSizeIncreaseRatio m_blockSizeIncreaseRatio2 m_maxBlockCanSeal].
    rewrite (proj2 (Z.ltb_lt _ _)) by lia. split_and!; [cbn [m_maxBlockCanSeal set_maxBlockCanSeal] | done | done].
    Z.div_mod_to_equations. lia. }
  clearbody d1. rewrite E2, E3. change (0 <=? 0) with true. cbn iota.
  set (d2 := attempIncreaseTimeoutTx limit d1). destruct (attemp_fresh limit d1 Hl E2 E3) as [F1 F2]. fold d2 in F1, F2.
  assert (m_maxBlockCanSeal d2 = 2 * m_maxBlockCanSeal d) as F3 by (unfold d2; by rewrite (proj1 (attemp_keeps _ _))).
  clearbody d2. rewrite F1. change (0 <? 0) with false. cbn [andb]. rewrite F2. change (0 <? 0) with false. cbn [andb].
  rewrite F3. destruct (limit <? _) eqn:E; bool_to_prop; [cbn [m_maxBlockCanSeal set_maxBlockCanSeal]; lia | lia].
Qed.

(** ** The block that is sealed *)
Section Sealed.
Context `{Crypto} `{Recover} `{MapOrder} {Ctx : Type} (version : Z).
Implicit Types E : Env Transaction TransactionReceipt Ctx.
Implicit Types e : PBFTEngine Transaction TransactionReceipt Ctx.

Lemma tx_root_fields b b' : calTransactionRoot version true b = Ok b' ->
  (exists root, b_header b' = setTransactionsRoot root (b_header b)) /\ b_transactions b' = b_transactions b.
Proof.
  unfold calTransactionRoot, calTransactionRootRC2. intros Hb. case_hyp Hb.
  all: apply bind_ok in Hb as (b1 & Hb1 & [= <-]); split; [eexists; cbn [with_header b_header] |].
  all: case_hyp Hb1; [| injection Hb1 as <-; done].
  1, 2: apply bind_ok in Hb1 as (c & _ & [= <-]); done.
  all: apply bind_ok in Hb1 as ([c root] & _ & [= <-]); done.
Qed.

(** The header a sealer gives its block. *)
Lemma setBlock_header E extra e b b' p : setBlock version E extra e b = Ok b' -> highestBlock E = Some p ->
  let h := b_header b' in
  m_parentHash h = hashOf (b_header p) /\ m_number h = swrap 64 (m_number (b_header p) + 1) /\
  m_timestamp h = Z.max (wrap 64 (m_timestamp (b_header p) + 1)) (now E) /\
  m_sealerList h = eng_sealerList e /\ m_sealer h = nodeIdx e /\ m_gasUsed h = 0 /\
  m_gasLimit h = m_gasLimit (b_header p) /\ b_transactions b' = b_transactions b.
Proof.
  unfold setBlock, resetSealingHeader, resetCurrentTime. intros Hb Hp. rewrite Hp in Hb.
  apply bind_ok in Hb as ([h p'] & Hh & Hb). cbn [mbind result_bind] in Hb.
  apply tx_root_fields in Hb as ((root & Eh) & Et). unfold populateFromParent in Hh.
  apply bind_ok in Hh as ([ph p1] & Hph & [= <- <-]).
  assert (hashOf (b_header p) = ph) as Ehash by (unfold hashOf; by rewrite Hph).
  rewrite Eh, Et, Ehash. done.
Qed.

(** C24: a node that has the same chain and sealers as the sealer of a block passes
    the block through the checks of a prepare exactly when it holds no more
    transactions than that node's limit, and its time is not ahead of that node's
    clock or the node allows future blocks: the sealer makes the other checks hold
    (height, parent, sealers), and the header verifies against its parent.  The
    number and the time of the parent are at least two and one below their
    maximum. *)
Theorem sealed_block_valid E extra e b b' p E2 e2 q :
  setBlock version E extra e b = Ok b' -> highestBlock E = Some p ->
  0 <= m_number (b_header p) < INT64_MAX - 1 -> 0 <= m_timestamp (b_header p) < UINT64_MAX ->
  0 <= m_gasLimit (b_header p) ->
  bc_number (blockChain E2) = m_number (b_header p) ->
  bc_getBlockByHash (blockChain E2) (hashOf (b_header p)) = Some q ->
  bc_numberHash (blockChain E2) (m_number (b_header p)) = hashOf (b_header p) ->
  eng_sealerList e2 = eng_sealerList e ->
  (checkBlockValid E2 b' e2 = (e2, Ok tt) <->
   lenZ (b_transactions b) <= m_maxBlockTransactions e2 /\
   (m_timestamp (b_header b') <= now E2 \/ m_allowFutureBlocks (m_cfg e2) = true)) /\
  header_verify CheckEverything (b_header p) (b_header b') = Ok tt.
Proof.
  intros Hb Hp Hn Ht Hg Hn2 Hq Hnh Hsl.
  destruct (setBlock_header E extra e b b' p Hb Hp) as (Eph & Enum & Ets & Esl & Eidx & Egu & Egl & Etx).
  rewrite swrap_small in Enum by (unfold INT64_MAX in *; cbn; lia).
  rewrite wrap_small in Ets by (unfold UINT64_MAX in *; cbn; lia). split.
  - unfold checkBlockValid, get, lift, throw, mbind, M_bind. cbn beta iota zeta.
    unfold getTransactionSize. rewrite Etx, Enum, Eph, Esl, Hsl, Hn2, Hq.
    rewrite (proj2 (Z.leb_gt _ _)) by lia. rewrite Z.add_simpl_r, Hnh.
    rewrite !bool_decide_true by done. cbn [negb]. rewrite andb_false_r.
    destruct (Z.ltb_spec (m_maxBlockTransactions e2) (lenZ (b_transactions b))); [split; [done | lia] |].
    destruct (Z.ltb_spec (now E2) (m_timestamp (b_header b'))), (m_allowFutureBlocks (m_cfg e2)); cbn; split; try done; intros; try (split; [lia |]); try tauto; try (by left; lia); lia.
  - unfold header_verify, MaxBlockNumber. rewrite Enum, Egu, Egl, Ets, Eph.
    rewrite (proj2 (Z.leb_gt INT64_MAX _)), (proj2 (Z.ltb_ge (_ + 1) 0)), (proj2 (Z.ltb_ge _ 0)) by lia.
    cbn [orb andb]. destruct (header_bool (b_header p)); [| done].
    assert ((if bool_decide (hashOf (b_header p) = h256_0) then Ok false
      else '(ph, _) ← header_hash (b_header p); Ok (negb (bool_decide (ph = hashOf (b_header p))))) = Ok false) as ->.
    { unfold hashOf. case_bool_decide as Hz; [done |]. destruct (header_hash (b_header p)) as [[ph h']|]; [| done].
      cbn. by rewrite bool_decide_true. }
    cbn [mbind result_bind]. by rewrite (proj2 (Z.leb_gt _ _)), Z.eqb_refl by lia.
Qed.
End Sealed.

(** When the limit of the chain is lowered below the size the sealer fills its
    blocks to, the block it builds is thrown away, nothing is proposed, and
    the size is not corrected: not by dropping the block, and not by any later
    commit, so the sealer drops the same transactions again. *)
Theorem lowered_limit_drops_blocks `{Crypto} `{Recover} `{MapOrder} {Ctx} version
    (E : Env Transaction TransactionReceipt Ctx) (s : SealerState) p :
  m_maxBlockTransactions (m_pbftEngine s) < getTransactionSize (block s) ->
  m_maxBlockTransactions (m_pbftEngine s) <= m_maxBlockCanSeal (m_dyn s) ->
  highestBlock E = Some p -> is_ok (header_hash (b_header p)) = true ->
  exists s', handleBlock version E s = (s', Ok tt) /\ b_transactions (block s') = [] /\
    m_pbftEngine s' = m_pbftEngine s /\ m_txPool s' = m_txPool s /\ m_dyn s' = m_dyn s /\
    forall sync number blockNumber txs cycle,
      m_maxBlockCanSeal (onCommitBlock sync number (m_maxBlockTransactions (m_pbftEngine s))
        blockNumber txs cycle (m_dyn s)) = m_maxBlockCanSeal (m_dyn s).
Proof.
  intros Hsize Hlim Hp Hh.
  assert (forall b, exists b', resetBlock E false b = Ok b' /\ b_transactions b' = []) as Hreset.
  { intros b. unfold resetBlock, resetCurrentBlock, populateFromParent. rewrite Hp.
    destruct (header_hash (b_header p)) as [[x h]|]; [| done]. case_step; by eexists. }
  unfold handleBlock, resetSealingBlock, sget, smodify, slift, mbind, SM_bind. cbn beta iota.
  rewrite (proj2 (Z.ltb_lt _ _)) by done. cbn beta iota.
  destruct (Hreset (block (set_noted (chainNumber E :: m_noted s) s))) as (b' & -> & Hb'). cbn beta iota.
  eexists. split; [reflexivity |]. split_and!; try done.
  intros sync number bn txs cycle. unfold onCommitBlock. case_step; [done |]. case_step; [done |]. case_step; [done |].
  set (d1 := if _ && _ then _ else _).
  assert (m_maxBlockCanSeal d1 = m_maxBlockCanSeal (m_dyn s)) as Ed by (unfold d1; by case_step).
  rewrite Ed, (proj2 (Z.leb_le _ _)) by done. done.
Qed.

(** ** Witnesses *)
Lemma block_size_bounds_witness :
  dyn_ok 1000 (dyn_run 1000 [DTimeout (mkSync false 0) 700; DCommit (mkSync false 0) 3 3 500 0;
    DCommit (mkSync false 0) 4 4 500 0] (mkDyn 1000 0 0 0 0 2)).
Proof. apply (block_size_bounds 1000); unfold dyn_ok; cbn; lia. Defined.

Lemma growth_ratio_ignored_witness :
  m_maxBlockCanSeal (increaseMaxTxsCanSeal 1000 (setBlockSizeIncreaseRatio (negb (1 =? 0)) (mkDyn 100 0 0 0 0 1))) = 200.
Proof. apply (growth_ratio_ignored 1000 (mkDyn 100 0 0 0 0 1) 1 2); cbn; lia. Defined.

Definition seal_parent : EthBlock := with_header sample_header emptyBlock.

Definition seal_env : Env Transaction TransactionReceipt unit :=
  {| now := 5000; sessions := [];
     blockChain := {| bc_number := 41; bc_numberHash := fun _ => @hashOf toy_hash sample_header;
       bc_getBlockByHash := fun _ => Some seal_parent; bc_getBlockByNumber := fun _ => Some seal_parent;
       bc_commitBlock := fun _ _ => true; bc_sealerList := [replicate 64 1]; bc_observerList := [];
       bc_txCountLimit := Ok 1 |};
     blockSync := {| sync_isSyncing := false; sync_knownHighestNumber := 0 |};
     txPool := {| tp_setSenders := fun b => Ok b; tp_txHash := fun _ => h256_0 |};
     blockVerifier := {| bv_executeBlock := fun b _ => Ok (b, Some tt) |};
     codec := @eth_codec toy_hash toy_recover RC2_VERSION; backupOk := true |}.

Definition seal_engine (limit : Z) : PBFTEngine Transaction TransactionReceipt unit :=
  mkEngine 0 0 false false (Some ∅) ∅ emptyReqCache (mkTime 3000 0 0 0 1000 500 0) [] false MAXTTL ∅ 0
    limit 42 sample_header 1 0 SealerAccount 0 [replicate 64 1] None 0 false
    (mkConfig {| secret := replicate 32 1; pub := replicate 64 1 |} true true false false false false) [].

Definition seal_block : EthBlock := appendTransactions [sample_tx; sample_tx] emptyBlock.
Definition sealed_sample : EthBlock :=
  from_ok emptyBlock (@setBlock toy_hash unit RC2_VERSION seal_env [] (seal_engine 10) seal_block).

Lemma sealed_block_valid_witness :
  checkBlockValid seal_env sealed_sample (seal_engine 10) = (seal_engine 10, Ok tt).
Proof.
  apply (@sealed_block_valid toy_hash unit RC2_VERSION seal_env [] (seal_engine 10) seal_block sealed_sample
    seal_parent seal_env (seal_engine 10) seal_parent); try (vm_compute; reflexivity).
  - vm_compute. split; [discriminate | reflexivity].
  - vm_compute. split; [discriminate | reflexivity].
  - vm_compute. discriminate.
  - split; [vm_compute; discriminate |]. left. vm_compute. discriminate.
Defined.

Definition seal_pool : @TxPool TransactionReceipt :=
  mkPool (mkNonceCheck ∅ ∅ 0 0 1000 41) ∅ 100 1 1 [] ∅ ∅ ∅ 0 [] 0.

Definition seal_state : @SealerState unit :=
  mkSealer (mkSealing seal_block ∅ None) [] false false true true (mkDyn 2 0 0 0 0 2) (seal_engine 1) seal_pool [].

Lemma lowered_limit_drops_blocks_witness :
  exists s', @handleBlock toy_hash canonical_order unit RC2_VERSION seal_env seal_state = (s', Ok tt) /\
    b_transactions (block s') = [].
Proof.
  destruct (@lowered_limit_drops_blocks toy_hash toy_recover canonical_order unit RC2_VERSION seal_env seal_state seal_parent)
    as (s' & Es & Eb & _); try (vm_compute; reflexivity).
  - vm_compute. discriminate.
  - exists s'. split; [exact Es | exact Eb].
Defined.
