(* ===== verification/RaftMsg.v ===== *)
(** * Raft messages

    [libconsensus/raft/Common.h]: packets, vote requests and responses,
    heartbeats and their responses, with their RLP forms.  Built-in integers are
    streamed through [append(unsigned)]. *)

From S2P Require Import Prelude CommonData RLP PBFTMsg BlockHeader Transaction Receipt TxsParser.

Inductive RaftPacketType : Set :=
  | RaftVoteReqPacket | RaftVoteRespPacket | RaftHeartBeatPacket | RaftHeartBeatRespPacket.
Inductive RaftRole : Set := EN_STATE_LEADER | EN_STATE_FOLLOWER | EN_STATE_CANDIDATE.

#[export] Instance RaftPacketType_eq_dec : EqDecision RaftPacketType.
Proof. solve_decision. Defined.
#[export] Instance RaftRole_eq_dec : EqDecision RaftRole.
Proof. solve_decision. Defined.

(** [VoteRespFlag]: a byte. *)
Definition VOTE_RESP_REJECT : Z := 0.
Definition VOTE_RESP_LEADER_REJECT : Z := 1.
Definition VOTE_RESP_LASTTERM_ERROR : Z := 2.
Definition VOTE_RESP_OUTDATED : Z := 3.
Definition VOTE_RESP_FIRST_VOTE : Z := 4.
Definition VOTE_RESP_DISCARD : Z := 5.
Definition VOTE_RESP_GRANTED : Z := 6.

Inductive HandleVoteResult : Set := TO_LEADER | TO_FOLLOWER | NONE.

Definition packet_code (t : RaftPacketType) : Z :=
  match t with
  | RaftVoteReqPacket => 0 | RaftVoteRespPacket => 1
  | RaftHeartBeatPacket => 2 | RaftHeartBeatRespPacket => 3
  end.

(** A type below [RaftPacketCount]. *)
Definition packet_of_code (c : Z) : option RaftPacketType :=
  if c =? 0 then Some RaftVoteReqPacket else if c =? 1 then Some RaftVoteRespPacket
  else if c =? 2 then Some RaftHeartBeatPacket else if c =? 3 then Some RaftHeartBeatRespPacket
  else None.

(** ** Packets *)
Record RaftMsgPacket := mkRaftPacket {
  rp_nodeIdx : IDXTYPE;
  rp_nodeId : NodeID;
  (** the byte received *)
  rp_packetType : Z;
  rp_data : bytes;
  rp_timestamp : Z;
  rp_endpoint : chars
}.

Definition newRaftPacket (now : Z) : RaftMsgPacket := mkRaftPacket 0 h512_0 0 [] now [].

Definition raftpacket_encode (p : RaftMsgPacket) : result bytes :=
  s ← streamAll [append_unsigned (rp_packetType p); append_data (rp_data p) false] emptyStream; out s.

(** The type is one byte, whatever it encodes; the cast to the enumeration keeps
    its low byte. *)
Definition raftpacket_decode (p : RaftMsgPacket) (bs : bytes) : result RaftMsgPacket :=
  r ← RLP_ (cropped2 0 1 bs) VeryStrict;
  ty ← toInt U32 ThrowOnFail r;
  r2 ← RLP_ (cropped1 1 bs) VeryStrict;
  d ← toBytes LaissezFaire r2;
  Ok (mkRaftPacket (rp_nodeIdx p) (rp_nodeId p) (wrap 8 ty) d (rp_timestamp p) (rp_endpoint p)).

Definition raftpacket_setOtherField (idx : Z) (id : NodeID) (ep : chars) (now : Z) (p : RaftMsgPacket)
    : RaftMsgPacket := mkRaftPacket (wrap 16 idx) id (rp_packetType p) (rp_data p) now ep.

(** [transDataToMessage]. *)
Definition transDataToMessage (fields : RLPStream -> result RLPStream) (ty : RaftPacketType) (now : Z)
    : result bytes :=
  d ← wrap_list1 fields;
  raftpacket_encode (mkRaftPacket 0 h512_0 (packet_code ty) d now []).

(** ** Messages *)
Record RaftMsg := mkRaftMsg { rm_idx : IDXTYPE; rm_term : Z; rm_height : Z; rm_blockHash : h256 }.

Record RaftVoteReq := mkVoteReq {
  vq_msg : RaftMsg; vq_candidate : IDXTYPE; vq_lastLeaderTerm : Z; vq_lastBlockNumber : Z
}.
Record RaftVoteResp := mkVoteResp { vr_msg : RaftMsg; vr_voteFlag : Z; vr_lastLeaderTerm : Z }.
Record RaftHeartBeat := mkHeartBeat {
  hb_msg : RaftMsg; hb_leader : IDXTYPE; hb_uncommitedBlock : bytes; hb_uncommitedBlockNumber : Z
}.
Record RaftHeartBeatResp := mkHeartBeatResp { hr_msg : RaftMsg; hr_uncommitedBlockHash : h256 }.

Definition hasData (hb : RaftHeartBeat) : bool := negb (lenZ (hb_uncommitedBlock hb) =? 0).

Definition raftmsg_ops (m : RaftMsg) : list (RLPStream -> result RLPStream) :=
  [append_unsigned (rm_idx m); append_unsigned (rm_term m); append_unsigned (rm_height m);
   append_data (rm_blockHash m) false].
Definition votereq_ops (q : RaftVoteReq) : list (RLPStream -> result RLPStream) :=
  raftmsg_ops (vq_msg q) ++ [append_unsigned (vq_candidate q); append_unsigned (vq_lastLeaderTerm q);
    append_unsigned (vq_lastBlockNumber q)].
Definition voteresp_ops (q : RaftVoteResp) : list (RLPStream -> result RLPStream) :=
  raftmsg_ops (vr_msg q) ++ [append_unsigned (vr_voteFlag q); append_unsigned (vr_lastLeaderTerm q)].
Definition heartbeat_ops (q : RaftHeartBeat) : list (RLPStream -> result RLPStream) :=
  raftmsg_ops (hb_msg q) ++ [append_unsigned (hb_leader q); append_data (hb_uncommitedBlock q) false;
    append_unsigned (hb_uncommitedBlockNumber q)].
Definition heartbeatresp_ops (q : RaftHeartBeatResp) : list (RLPStream -> result RLPStream) :=
  raftmsg_ops (hr_msg q) ++ [append_data (hr_uncommitedBlockHash q) false].

Definition raftmsg_populate (r : RLP) : result (RaftMsg * RLP) :=
  '(i, r) ← field 0 (toInt U16 Strict) r;
  '(t, r) ← field 1 (toInt U64 Strict) r;
  '(h, r) ← field 2 (toInt I64 Strict) r;
  '(bh, r) ← field 3 (toHash 32 VeryStrict) r;
  Ok (mkRaftMsg i t h bh, r).

Definition votereq_populate (r : RLP) : result RaftVoteReq :=
  '(m, r) ← raftmsg_populate r;
  '(c, r) ← field 4 (toInt U16 Strict) r;
  '(l, r) ← field 5 (toInt U64 Strict) r;
  '(n, _) ← field 6 (toInt I64 Strict) r;
  Ok (mkVoteReq m c l n).

Definition voteresp_populate (r : RLP) : result RaftVoteResp :=
  '(m, r) ← raftmsg_populate r;
  '(f, r) ← field 4 (toInt U8 Strict) r;
  '(l, _) ← field 5 (toInt U64 Strict) r;
  Ok (mkVoteResp m f l).

Definition heartbeat_populate (r : RLP) : result RaftHeartBeat :=
  '(m, r) ← raftmsg_populate r;
  '(l, r) ← field 4 (toInt U16 Strict) r;
  '(b, r) ← field 5 (toBytes LaissezFaire) r;
  '(n, _) ← field 6 (toInt I64 Strict) r;
  Ok (mkHeartBeat m l b n).

Definition heartbeatresp_populate (r : RLP) : result RaftHeartBeatResp :=
  '(m, r) ← raftmsg_populate r;
  '(h, _) ← field 4 (toHash 32 Strict) r;
  Ok (mkHeartBeatResp m h).

(** [req.populate(RLP(ref(data))[0])]. *)
Definition populate_data {A} (populate : RLP -> result A) (data : bytes) : result A :=
  r ← RLP_ data VeryStrict; '(e, _) ← index 0 r; populate e.

(** ** Votes *)
Record VoteState := mkVoteState {
  vs_vote : Z; vs_unVote : Z; vs_lastTermErr : Z; vs_firstVote : Z; vs_discardedVote : Z; vs_outdated : Z
}.

Definition emptyVoteState : VoteState := mkVoteState 0 0 0 0 0 0.

Definition totalVoteCount (v : VoteState) : Z :=
  wrap 64 (vs_vote v + vs_unVote v + vs_lastTermErr v + vs_firstVote v + vs_discardedVote v + vs_outdated v).

(** ** The codec *)
Definition small (x : Z) : Prop := 0 <= x < 2 ^ 32.
Definition idx_ok (x : Z) : Prop := 0 <= x < 2 ^ 16.

Definition raftmsg_wf (m : RaftMsg) : Prop :=
  idx_ok (rm_idx m) /\ small (rm_term m) /\ small (rm_height m) /\ hash_ok 32 (rm_blockHash m).

Definition raftmsg_encs (m : RaftMsg) : list bytes :=
  [enc_int (rm_idx m); enc_int (rm_term m); enc_int (rm_height m); enc_data (rm_blockHash m)].

Lemma ops_encs_unsigned x ops es : small x -> ops_encs ops es ->
  ops_encs (append_unsigned x :: ops) (enc_int x :: es).
Proof.
  intros Hx Ho. unfold append_unsigned. rewrite wrap_small by done. apply ops_encs_int; [| done].
  unfold u256_ok, small in *. lia.
Qed.

Lemma raftmsg_ops_ok m : raftmsg_wf m -> ops_encs (raftmsg_ops m) (raftmsg_encs m).
Proof.
  intros (Hi & Ht & Hh & [Hb Hl]). unfold idx_ok in Hi.
  apply ops_encs_unsigned; [unfold small; lia |]. do 2 (apply ops_encs_unsigned; [done |]).
  apply ops_encs_data; [done | lia | apply ops_encs_nil].
Qed.

(** A message sent is received: the frame of the packet and of the data. *)
Lemma raft_frame {A} ops es (populate : RLP -> result A) a ty now p0 :
  ops_encs ops es -> Forall bytes_ok es -> lenZ (concat es) < 2 ^ 60 ->
  (forall r, cache_ok es r -> populate r = Ok a) ->
  exists bs p, transDataToMessage (streamAll ops) ty now = Ok bs /\ raftpacket_decode p0 bs = Ok p /\
    packet_of_code (rp_packetType p) = Some ty /\ populate_data populate (rp_data p) = Ok a.
Proof.
  intros (Ho & Hv & _) Hb Hl Hp. pose proof (concat_bytes es Hb) as Hcb.
  assert (size_ok (concat es)) as Hs by (unfold size_ok, SIZE_MAX; lia).
  pose proof (enc_data_len (concat es) ltac:(lia)) as Hdl.
  assert (size_ok (enc_data (concat es))) as Hs2 by (unfold size_ok, SIZE_MAX; lia).
  set (d := enc_list (enc_data (concat es))).
  assert (bytes_ok d /\ lenZ d < 2 ^ 61) as [Hdb Hd61].
  { split; [apply enc_list_bytes; [apply enc_data_bytes; [done | lia] | lia] |].
    pose proof (enc_list_len (enc_data (concat es)) ltac:(lia)). unfold d. lia. }
  assert (wrap_list1 (streamAll ops) = Ok d) as Hw.
  { apply wrap_list1_ref; [| done]. unfold streamAll, emptyStream. by rewrite (fold_flat _ _ es). }
  assert (small (packet_code ty)) as Hsm by (destruct ty; unfold small; cbn; lia).
  set (c := packet_code ty) in *. assert (lenZ (enc_int c) = 1) as H1 by (unfold c; by destruct ty).
  exists (enc_int c ++ enc_data d), (mkRaftPacket (rp_nodeIdx p0) (rp_nodeId p0) c d (rp_timestamp p0) (rp_endpoint p0)).
  split_and!.
  - unfold transDataToMessage. rewrite Hw. cbn [mbind result_bind]. unfold raftpacket_encode, streamAll, emptyStream.
    cbn [rp_packetType rp_data]. rewrite (fold_flat _ _ [enc_int c; enc_data d]).
    + cbn [mbind result_bind concat]. by rewrite app_nil_r.
    + constructor; [intros s; rewrite append_unsigned_ref; by rewrite wrap_small |].
      constructor; [intros s; apply append_data_ref; lia | constructor].
  - assert (valid_item (enc_int c)) by (apply valid_enc_int; unfold small in Hsm; lia).
    assert (size_ok d) as Hsd by (unfold size_ok, SIZE_MAX; lia).
    unfold raftpacket_decode. rewrite <- H1, cropped2_front, (valid_RLP_strict (enc_int c)) by done. cbn [mbind result_bind].
    rewrite toInt_U32_enc by done. cbn [mbind result_bind].
    rewrite cropped1_app, valid_RLP_strict by (by apply valid_enc_data). cbn [mbind result_bind].
    rewrite toBytes_enc by done. cbn [mbind result_bind]. rewrite wrap_small by (unfold c; destruct ty; cbn; lia). done.
  - unfold c. by destruct ty.
  - cbn [rp_data]. unfold populate_data. destruct (index_wrapped (concat es) Hcb Hs Hs2) as (r & r' & E1 & E2).
    fold d in E1. rewrite E1. cbn [mbind result_bind]. rewrite E2. cbn [mbind result_bind].
    apply Hp. by apply cache_fresh, payload_enc_data.
Qed.

Definition votereq_wf (q : RaftVoteReq) : Prop :=
  raftmsg_wf (vq_msg q) /\ idx_ok (vq_candidate q) /\ small (vq_lastLeaderTerm q) /\ small (vq_lastBlockNumber q).
Definition voteresp_wf (q : RaftVoteResp) : Prop :=
  raftmsg_wf (vr_msg q) /\ 0 <= vr_voteFlag q < 256 /\ small (vr_lastLeaderTerm q).
Definition heartbeat_wf (q : RaftHeartBeat) : Prop :=
  raftmsg_wf (hb_msg q) /\ idx_ok (hb_leader q) /\ small (hb_uncommitedBlockNumber q) /\
  bytes_ok (hb_uncommitedBlock q) /\ lenZ (hb_uncommitedBlock q) < 2 ^ 59.
Definition heartbeatresp_wf (q : RaftHeartBeatResp) : Prop :=
  raftmsg_wf (hr_msg q) /\ hash_ok 32 (hr_uncommitedBlockHash q).

Lemma small_u256 x : small x -> u256_ok x.
Proof. unfold small, u256_ok. lia. Qed.
Lemma idx_small x : idx_ok x -> small x.
Proof. unfold small, idx_ok. lia. Qed.

Lemma enc_small_bytes x : small x -> bytes_ok (enc_int x) /\ lenZ (enc_int x) <= 41.
Proof. intros Hx%small_u256. split; [by apply enc_int_bytes | by apply enc_int_len]. Qed.

Lemma U64_small x flags : small x -> toInt U64 flags (node (enc_int x)) = Ok x.
Proof. unfold small. intros. apply toInt_U64_enc. lia. Qed.
Lemma I64_small x flags : small x -> toInt I64 flags (node (enc_int x)) = Ok x.
Proof. unfold small. intros. apply toInt_I64_enc. lia. Qed.

Lemma raftmsg_read m es r : raftmsg_wf m -> Forall valid_item es -> Z.of_nat (length es) < SIZE_MAX ->
  take 4 es = raftmsg_encs m -> cache_ok es r ->
  exists r', raftmsg_populate r = Ok (m, r') /\ cache_ok es r'.
Proof.
  intros (Hi & Ht & Hh & [Hb Hl]) Hv Hlen He Hc. unfold raftmsg_populate.
  assert (forall k, (k < 4)%nat -> es !! k = raftmsg_encs m !! k) as Hk
    by (intros k Hk; by rewrite <- He, lookup_take_lt).
  destruct (field_ref es r 0 (toInt U16 Strict) _ _ Hv Hlen Hc (Hk 0%nat ltac:(lia)) (toInt_U16_enc _ Strict Hi))
    as (r0 & -> & Hc0). cbn [mbind result_bind].
  destruct (field_ref es r0 1 (toInt U64 Strict) _ _ Hv Hlen Hc0 (Hk 1%nat ltac:(lia))
    (U64_small _ Strict Ht)) as (r1 & -> & Hc1). cbn [mbind result_bind].
  destruct (field_ref es r1 2 (toInt I64 Strict) _ _ Hv Hlen Hc1 (Hk 2%nat ltac:(lia))
    (I64_small _ Strict Hh)) as (r2 & -> & Hc2). cbn [mbind result_bind].
  destruct (field_ref es r2 3 (toHash 32 VeryStrict) _ (rm_blockHash m) Hv Hlen Hc2 (Hk 3%nat ltac:(lia)))
    as (r3 & -> & Hc3); [hash_field |]. cbn [mbind result_bind]. exists r3. by destruct m.
Qed.

Lemma raftmsg_bytes m : raftmsg_wf m -> Forall bytes_ok (raftmsg_encs m) /\ lenZ (concat (raftmsg_encs m)) <= 200.
Proof.
  intros (Hi%idx_small & Ht & Hh & [Hb Hl]).
  destruct (enc_small_bytes _ Hi), (enc_small_bytes _ Ht), (enc_small_bytes _ Hh).
  pose proof (enc_data_len (rm_blockHash m) ltac:(lia)).
  split; [| unfold raftmsg_encs; cbn [concat]; len_simpl; lia].
  do 3 (apply Forall_cons; split; [done |]). apply Forall_cons; split; [apply enc_data_bytes; [done | lia] | constructor].
Qed.

(** The end of a message: integers that fit, then read back. *)
Ltac tail_ops := repeat first
  [ apply ops_encs_nil | apply ops_encs_unsigned; [first [done | by apply idx_small | unfold small; lia] |]
  | apply ops_encs_data; [done | lia |] ].
Ltac tail_bytes := repeat first
  [ apply Forall_nil_2 | apply Forall_cons; split; [first [apply enc_int_bytes; unfold small, idx_ok in *; lia
      | apply enc_data_bytes; [done | lia]] |] ].

Lemma votereq_codec q ty now p0 : votereq_wf q ->
  exists bs p, transDataToMessage (streamAll (votereq_ops q)) ty now = Ok bs /\ raftpacket_decode p0 bs = Ok p /\
    packet_of_code (rp_packetType p) = Some ty /\ populate_data votereq_populate (rp_data p) = Ok q.
Proof.
  intros (Hm & Hc & Hl & Hn). destruct (raftmsg_bytes _ Hm) as [Hb Hlen].
  set (es := raftmsg_encs (vq_msg q) ++
    [enc_int (vq_candidate q); enc_int (vq_lastLeaderTerm q); enc_int (vq_lastBlockNumber q)]).
  assert (ops_encs (votereq_ops q) es) as Ho by (apply ops_encs_app; [by apply raftmsg_ops_ok | tail_ops]).
  apply (raft_frame (votereq_ops q) es); [done | apply Forall_app; split; [done | tail_bytes] | |].
  - unfold es. rewrite concat_app. cbn [concat]. len_simpl. apply idx_small in Hc.
    destruct (enc_small_bytes _ Hc), (enc_small_bytes _ Hl), (enc_small_bytes _ Hn). lia.
  - intros r Hr. destruct Ho as (_ & Hv & _). unfold votereq_populate.
    destruct (raftmsg_read _ es r Hm Hv ltac:(done) ltac:(done) Hr) as (r' & -> & Hr'). cbn [mbind result_bind].
    read_field Hv Hr' ltac:(by apply toInt_U16_enc).
    read_field Hv Hr' ltac:(by apply U64_small).
    read_field Hv Hr' ltac:(by apply I64_small). by destruct q.
Qed.

Lemma voteresp_codec q ty now p0 : voteresp_wf q ->
  exists bs p, transDataToMessage (streamAll (voteresp_ops q)) ty now = Ok bs /\ raftpacket_decode p0 bs = Ok p /\
    packet_of_code (rp_packetType p) = Some ty /\ populate_data voteresp_populate (rp_data p) = Ok q.
Proof.
  intros (Hm & Hf & Hl). destruct (raftmsg_bytes _ Hm) as [Hb Hlen].
  set (es := raftmsg_encs (vr_msg q) ++ [enc_int (vr_voteFlag q); enc_int (vr_lastLeaderTerm q)]).
  assert (ops_encs (voteresp_ops q) es) as Ho by (apply ops_encs_app; [by apply raftmsg_ops_ok | tail_ops]).
  apply (raft_frame (voteresp_ops q) es); [done | apply Forall_app; split; [done | tail_bytes] | |].
  - unfold es. rewrite concat_app. cbn [concat]. len_simpl.
    destruct (enc_small_bytes (vr_voteFlag q)), (enc_small_bytes _ Hl); [unfold small; lia |]. lia.
  - intros r Hr. destruct Ho as (_ & Hv & _). unfold voteresp_populate.
    destruct (raftmsg_read _ es r Hm Hv ltac:(done) ltac:(done) Hr) as (r' & -> & Hr'). cbn [mbind result_bind].
    read_field Hv Hr' ltac:(by apply toInt_U8_enc). read_field Hv Hr' ltac:(by apply U64_small). by destruct q.
Qed.

Lemma heartbeat_codec q ty now p0 : heartbeat_wf q ->
  exists bs p, transDataToMessage (streamAll (heartbeat_ops q)) ty now = Ok bs /\ raftpacket_decode p0 bs = Ok p /\
    packet_of_code (rp_packetType p) = Some ty /\ populate_data heartbeat_populate (rp_data p) = Ok q.
Proof.
  intros (Hm & Hi & Hn & Hd & Hdl). destruct (raftmsg_bytes _ Hm) as [Hb Hlen].
  set (es := raftmsg_encs (hb_msg q) ++
    [enc_int (hb_leader q); enc_data (hb_uncommitedBlock q); enc_int (hb_uncommitedBlockNumber q)]).
  assert (ops_encs (heartbeat_ops q) es) as Ho by (apply ops_encs_app; [by apply raftmsg_ops_ok | tail_ops]).
  apply (raft_frame (heartbeat_ops q) es); [done | apply Forall_app; split; [done | tail_bytes] | |].
  - unfold es. rewrite concat_app. cbn [concat]. len_simpl. apply idx_small in Hi.
    destruct (enc_small_bytes _ Hi), (enc_small_bytes _ Hn).
    pose proof (enc_data_len (hb_uncommitedBlock q) ltac:(lia)). lia.
  - intros r Hr. destruct Ho as (_ & Hv & _). unfold heartbeat_populate.
    destruct (raftmsg_read _ es r Hm Hv ltac:(done) ltac:(done) Hr) as (r' & -> & Hr'). cbn [mbind result_bind].
    read_field Hv Hr' ltac:(by apply toInt_U16_enc). read_field Hv Hr' ltac:(apply toBytes_enc; data_field).
    read_field Hv Hr' ltac:(by apply I64_small). by destruct q.
Qed.

Lemma heartbeatresp_codec q ty now p0 : heartbeatresp_wf q ->
  exists bs p, transDataToMessage (streamAll (heartbeatresp_ops q)) ty now = Ok bs /\ raftpacket_decode p0 bs = Ok p /\
    packet_of_code (rp_packetType p) = Some ty /\ populate_data heartbeatresp_populate (rp_data p) = Ok q.
Proof.
  intros (Hm & [Hd Hdl]). destruct (raftmsg_bytes _ Hm) as [Hb Hlen].
  set (es := raftmsg_encs (hr_msg q) ++ [enc_data (hr_uncommitedBlockHash q)]).
  assert (ops_encs (heartbeatresp_ops q) es) as Ho by (apply ops_encs_app; [by apply raftmsg_ops_ok | tail_ops]).
  apply (raft_frame (heartbeatresp_ops q) es); [done | apply Forall_app; split; [done | tail_bytes] | |].
  - unfold es. rewrite concat_app. cbn [concat]. len_simpl.
    pose proof (enc_data_len (hr_uncommitedBlockHash q) ltac:(lia)). lia.
  - intros r Hr. destruct Ho as (_ & Hv & _). unfold heartbeatresp_populate.
    destruct (raftmsg_read _ es r Hm Hv ltac:(done) ltac:(done) Hr) as (r' & -> & Hr'). cbn [mbind result_bind].
    read_field Hv Hr' ltac:(hash_field). by destruct q.
Qed.

(** The four kinds of message. *)
Inductive raft_message : Type :=
  | MVoteReq (q : RaftVoteReq) | MVoteResp (q : RaftVoteResp)
  | MHeartBeat (q : RaftHeartBeat) | MHeartBeatResp (q : RaftHeartBeatResp).

Definition message_wf (m : raft_message) : Prop :=
  match m with
  | MVoteReq q => votereq_wf q | MVoteResp q => voteresp_wf q
  | MHeartBeat q => heartbeat_wf q | MHeartBeatResp q => heartbeatresp_wf q
  end.

Definition message_encode (m : raft_message) (now : Z) : result bytes :=
  match m with
  | MVoteReq q => transDataToMessage (streamAll (votereq_ops q)) RaftVoteReqPacket now
  | MVoteResp q => transDataToMessage (streamAll (voteresp_ops q)) RaftVoteRespPacket now
  | MHeartBeat q => transDataToMessage (streamAll (heartbeat_ops q)) RaftHeartBeatPacket now
  | MHeartBeatResp q => transDataToMessage (streamAll (heartbeatresp_ops q)) RaftHeartBeatRespPacket now
  end.

(** The [switch] on the packet type: each type has its message. *)
Definition message_decode (p : RaftMsgPacket) : result raft_message :=
  match packet_of_code (rp_packetType p) with
  | Some RaftVoteReqPacket => MVoteReq <$> populate_data votereq_populate (rp_data p)
  | Some RaftVoteRespPacket => MVoteResp <$> populate_data voteresp_populate (rp_data p)
  | Some RaftHeartBeatPacket => MHeartBeat <$> populate_data heartbeat_populate (rp_data p)
  | Some RaftHeartBeatRespPacket => MHeartBeatResp <$> populate_data heartbeatresp_populate (rp_data p)
  | None => Throw BadCast
  end.

(** Every Raft message survives the wire, as long as its integers fit 32 bits:
    what is put on the network decodes to a packet of the same type whose data
    populate the same message. *)
Theorem raft_wire m now p0 :
  message_wf m ->
  exists bs p, message_encode m now = Ok bs /\ raftpacket_decode p0 bs = Ok p /\ message_decode p = Ok m.
Proof.
  intros Hm. unfold message_decode.
  destruct m as [q|q|q|q]; cbn [message_wf message_encode] in *;
    [destruct (votereq_codec q RaftVoteReqPacket now p0 Hm) as (bs & p & He & Hd & Ht & Hp)
    |destruct (voteresp_codec q RaftVoteRespPacket now p0 Hm) as (bs & p & He & Hd & Ht & Hp)
    |destruct (heartbeat_codec q RaftHeartBeatPacket now p0 Hm) as (bs & p & He & Hd & Ht & Hp)
    |destruct (heartbeatresp_codec q RaftHeartBeatRespPacket now p0 Hm) as (bs & p & He & Hd & Ht & Hp)];
    exists bs, p; (split_and!; [done | done | by rewrite Ht, Hp]).
Qed.

Definition sample_hb : raft_message :=
  MHeartBeat (mkHeartBeat (mkRaftMsg 1 7 41 (replicate 32 9)) 1 [1; 2; 3] 42).

Lemma raft_wire_witness :
  exists bs p, message_encode sample_hb 5 = Ok bs /\ raftpacket_decode (newRaftPacket 6) bs = Ok p /\
    message_decode p = Ok sample_hb.
Proof.
  apply raft_wire. unfold sample_hb, message_wf, heartbeat_wf, raftmsg_wf, idx_ok, small, hash_ok. cbn -[Z.pow].
  split_and!; try lia; try reflexivity; try discriminate; apply bytes_okb; reflexivity.
Defined.
