(* ===== verification/RaftEngine.v ===== *)
(** * The Raft engine

    [libconsensus/raft/RaftEngine.*] and the parts of [ConsensusEngineBase] it
    inherits: elections, heartbeats, the commit of the leader's block.  Time is
    in milliseconds; [std::rand()] reads a list of numbers.  [commit] waits on a
    condition variable and is two steps.  A pass of the worker is one step; an
    exception that escapes it ends the worker. *)

From S2P Require Import Prelude CommonData RLP PBFTMsg BlockHeader Block PBFTMsgCache PBFTReqCache PBFTState PBFTEngine.
From S2P Require Import StateMonad Transaction Receipt TxsParser BlockCodec RaftMsg.

Definition InvalidIndex : IDXTYPE := 2 ^ 16 - 1.
Definition s_heartBeatIntervalRatio : Z := 4.
Definition c_intervalBlockTime : Z := 1000.

(** ** State *)

(** Elect and heartbeat timers: [unsigned] milliseconds. *)
Record RaftTimers := mkTimers {
  m_electTimeout : Z; m_minElectTimeout : Z; m_maxElectTimeout : Z;
  m_minElectTimeoutInit : Z; m_maxElectTimeoutInit : Z;
  m_minElectTimeoutBoundary : Z; m_maxElectTimeoutBoundary : Z;
  m_lastElectTime : Z;
  m_heartbeatTimeout : Z; m_heartbeatInterval : Z; m_heartbeatCount : Z;
  m_lastHeartbeatTime : Z; m_lastHeartbeatReset : Z;
  m_increaseTime : Z
}.

Record RaftVotes := mkVotes {
  m_state : RaftRole;
  m_firstVote : IDXTYPE;
  m_term : Z;
  m_lastLeaderTerm : Z;
  m_leader : IDXTYPE;
  m_vote : IDXTYPE
}.

Record RaftCommit := mkCommit {
  m_uncommittedBlock : EthBlock;
  m_uncommittedBlockNumber : Z;
  m_commitReady : bool;
  m_waitingForCommitting : bool;
  m_commitFingerPrint : gmap h256 (gset Z)
}.

(** Members of [ConsensusEngineBase]. *)
Record RaftBase := mkBase {
  rb_highestBlock : BlockHeader;
  rb_consensusBlockNumber : Z;
  rb_nodeNum : Z;
  rb_f : Z;
  rb_idx : IDXTYPE;
  rb_accountType : NodeAccountType;
  rb_sealerList : list h512;
  rb_lastNodeList : option (list bytes * list bytes);
  rb_cfgErr : bool;
  rb_maxBlockTransactions : Z;
  rb_connectedNode : Z;
  rb_allowFutureBlocks : bool;
  rb_keyPair : KeyPair
}.

(** Where the worker is: [workLoop], or one of the three loops it calls. *)
Inductive RaftCtl : Type :=
  | CTop | CLeader (log : gmap h512 Z) | CCandidate (v : VoteState) | CFollower | CStopped.

Inductive RaftEvent {Ctx : Type} : Type :=
  | RSend (id : NodeID) (msg : bytes)
  | RSetNodeList (ids : list NodeID)
  | RNoteSealing (n : Z)
  | RCommitBlock (b : EthBlock) (ctx : option Ctx)
  | RDropTrans (b : EthBlock)
  | RBadBlock (b : EthBlock)
  (** the node gave its vote: the term and the candidate *)
  | RVoted (term : Z) (candidate : IDXTYPE).
Arguments RaftEvent : clear implicits.

Record Raft {Ctx : Type} := mkRaft {
  r_timers : RaftTimers;
  r_votes : RaftVotes;
  r_commit : RaftCommit;
  r_base : RaftBase;
  m_memberBlock : gmap h512 (Z * h256);
  m_lastBlockTime : Z;
  r_msgQueue : list RaftMsgPacket;
  r_ctl : RaftCtl;
  r_rand : list Z;
  r_trace : list (RaftEvent Ctx)
}.
Arguments Raft : clear implicits.

Definition set_electTimeout (x now : Z) (t : RaftTimers) : RaftTimers :=
  mkTimers x (m_minElectTimeout t) (m_maxElectTimeout t) (m_minElectTimeoutInit t) (m_maxElectTimeoutInit t)
    (m_minElectTimeoutBoundary t) (m_maxElectTimeoutBoundary t) now (m_heartbeatTimeout t)
    (m_heartbeatInterval t) (m_heartbeatCount t) (m_lastHeartbeatTime t) (m_lastHeartbeatReset t) (m_increaseTime t).
Definition set_electRange (lo hi : Z) (t : RaftTimers) : RaftTimers :=
  mkTimers (m_electTimeout t) lo hi (m_minElectTimeoutInit t) (m_maxElectTimeoutInit t)
    (m_minElectTimeoutBoundary t) (m_maxElectTimeoutBoundary t) (m_lastElectTime t) (m_heartbeatTimeout t)
    (m_heartbeatInterval t) (m_heartbeatCount t) (m_lastHeartbeatTime t) (m_lastHeartbeatReset t) (m_increaseTime t).
Definition set_heartbeatCount (x : Z) (t : RaftTimers) : RaftTimers :=
  mkTimers (m_electTimeout t) (m_minElectTimeout t) (m_maxElectTimeout t) (m_minElectTimeoutInit t) (m_maxElectTimeoutInit t)
    (m_minElectTimeoutBoundary t) (m_maxElectTimeoutBoundary t) (m_lastElectTime t) (m_heartbeatTimeout t)
    (m_heartbeatInterval t) x (m_lastHeartbeatTime t) (m_lastHeartbeatReset t) (m_increaseTime t).
Definition set_heartbeatTimes (last reset : Z) (t : RaftTimers) : RaftTimers :=
  mkTimers (m_electTimeout t) (m_minElectTimeout t) (m_maxElectTimeout t) (m_minElectTimeoutInit t) (m_maxElectTimeoutInit t)
    (m_minElectTimeoutBoundary t) (m_maxElectTimeoutBoundary t) (m_lastElectTime t) (m_heartbeatTimeout t)
    (m_heartbeatInterval t) (m_heartbeatCount t) last reset (m_increaseTime t).

Definition set_state (x : RaftRole) (v : RaftVotes) : RaftVotes :=
  mkVotes x (m_firstVote v) (m_term v) (m_lastLeaderTerm v) (m_leader v) (m_vote v).
Definition set_firstVote (x : IDXTYPE) (v : RaftVotes) : RaftVotes :=
  mkVotes (m_state v) x (m_term v) (m_lastLeaderTerm v) (m_leader v) (m_vote v).
Definition set_term (x : Z) (v : RaftVotes) : RaftVotes :=
  mkVotes (m_state v) (m_firstVote v) x (m_lastLeaderTerm v) (m_leader v) (m_vote v).
Definition set_lastLeaderTerm (x : Z) (v : RaftVotes) : RaftVotes :=
  mkVotes (m_state v) (m_firstVote v) (m_term v) x (m_leader v) (m_vote v).
Definition set_leader (x : IDXTYPE) (v : RaftVotes) : RaftVotes :=
  mkVotes (m_state v) (m_firstVote v) (m_term v) (m_lastLeaderTerm v) x (m_vote v).
Definition set_vote (x : IDXTYPE) (v : RaftVotes) : RaftVotes :=
  mkVotes (m_state v) (m_firstVote v) (m_term v) (m_lastLeaderTerm v) (m_leader v) x.

Definition set_uncommitted (b : EthBlock) (n : Z) (c : RaftCommit) : RaftCommit :=
  mkCommit b n (m_commitReady c) (m_waitingForCommitting c) (m_commitFingerPrint c).
Definition set_commitFlags (ready waiting : bool) (c : RaftCommit) : RaftCommit :=
  mkCommit (m_uncommittedBlock c) (m_uncommittedBlockNumber c) ready waiting (m_commitFingerPrint c).
Definition set_fingerPrint (x : gmap h256 (gset Z)) (c : RaftCommit) : RaftCommit :=
  mkCommit (m_uncommittedBlock c) (m_uncommittedBlockNumber c) (m_commitReady c) (m_waitingForCommitting c) x.

Definition set_rb_highest (x : BlockHeader) (b : RaftBase) : RaftBase :=
  mkBase x (rb_consensusBlockNumber b) (rb_nodeNum b) (rb_f b) (rb_idx b) (rb_accountType b) (rb_sealerList b)
    (rb_lastNodeList b) (rb_cfgErr b) (rb_maxBlockTransactions b) (rb_connectedNode b) (rb_allowFutureBlocks b) (rb_keyPair b).
Definition set_rb_consensusNumber (x : Z) (b : RaftBase) : RaftBase :=
  mkBase (rb_highestBlock b) x (rb_nodeNum b) (rb_f b) (rb_idx b) (rb_accountType b) (rb_sealerList b)
    (rb_lastNodeList b) (rb_cfgErr b) (rb_maxBlockTransactions b) (rb_connectedNode b) (rb_allowFutureBlocks b) (rb_keyPair b).
Definition set_rb_node (nodeNum f idx : Z) (b : RaftBase) : RaftBase :=
  mkBase (rb_highestBlock b) (rb_consensusBlockNumber b) nodeNum f idx (rb_accountType b) (rb_sealerList b)
    (rb_lastNodeList b) (rb_cfgErr b) (rb_maxBlockTransactions b) (rb_connectedNode b) (rb_allowFutureBlocks b) (rb_keyPair b).
Definition set_rb_account (x : NodeAccountType) (b : RaftBase) : RaftBase :=
  mkBase (rb_highestBlock b) (rb_consensusBlockNumber b) (rb_nodeNum b) (rb_f b) (rb_idx b) x (rb_sealerList b)
    (rb_lastNodeList b) (rb_cfgErr b) (rb_maxBlockTransactions b) (rb_connectedNode b) (rb_allowFutureBlocks b) (rb_keyPair b).
Definition set_rb_sealers (x : list h512) (l : option (list bytes * list bytes)) (b : RaftBase) : RaftBase :=
  mkBase (rb_highestBlock b) (rb_consensusBlockNumber b) (rb_nodeNum b) (rb_f b) (rb_idx b) (rb_accountType b) x
    l (rb_cfgErr b) (rb_maxBlockTransactions b) (rb_connectedNode b) (rb_allowFutureBlocks b) (rb_keyPair b).
Definition set_rb_cfgErr (x : bool) (b : RaftBase) : RaftBase :=
  mkBase (rb_highestBlock b) (rb_consensusBlockNumber b) (rb_nodeNum b) (rb_f b) (rb_idx b) (rb_accountType b) (rb_sealerList b)
    (rb_lastNodeList b) x (rb_maxBlockTransactions b) (rb_connectedNode b) (rb_allowFutureBlocks b) (rb_keyPair b).
Definition set_rb_maxTxs (x : Z) (b : RaftBase) : RaftBase :=
  mkBase (rb_highestBlock b) (rb_consensusBlockNumber b) (rb_nodeNum b) (rb_f b) (rb_idx b) (rb_accountType b) (rb_sealerList b)
    (rb_lastNodeList b) (rb_cfgErr b) x (rb_connectedNode b) (rb_allowFutureBlocks b) (rb_keyPair b).
Definition set_rb_connected (x : Z) (b : RaftBase) : RaftBase :=
  mkBase (rb_highestBlock b) (rb_consensusBlockNumber b) (rb_nodeNum b) (rb_f b) (rb_idx b) (rb_accountType b) (rb_sealerList b)
    (rb_lastNodeList b) (rb_cfgErr b) (rb_maxBlockTransactions b) x (rb_allowFutureBlocks b) (rb_keyPair b).

Section Engine.
Context `{Crypto} `{Recover} {Ctx : Type} (version : Z).
Abbreviation R := (Raft Ctx).
Implicit Types s : R.

Definition upd_timers (f : RaftTimers -> RaftTimers) s : R :=
  mkRaft _ (f (r_timers s)) (r_votes s) (r_commit s) (r_base s) (m_memberBlock s) (m_lastBlockTime s) (r_msgQueue s)
    (r_ctl s) (r_rand s) (r_trace s).
Definition upd_votes (f : RaftVotes -> RaftVotes) s : R :=
  mkRaft _ (r_timers s) (f (r_votes s)) (r_commit s) (r_base s) (m_memberBlock s) (m_lastBlockTime s) (r_msgQueue s)
    (r_ctl s) (r_rand s) (r_trace s).
Definition upd_commit (f : RaftCommit -> RaftCommit) s : R :=
  mkRaft _ (r_timers s) (r_votes s) (f (r_commit s)) (r_base s) (m_memberBlock s) (m_lastBlockTime s) (r_msgQueue s)
    (r_ctl s) (r_rand s) (r_trace s).
Definition upd_base (f : RaftBase -> RaftBase) s : R :=
  mkRaft _ (r_timers s) (r_votes s) (r_commit s) (f (r_base s)) (m_memberBlock s) (m_lastBlockTime s) (r_msgQueue s)
    (r_ctl s) (r_rand s) (r_trace s).
Definition set_memberBlock (x : gmap h512 (Z * h256)) s : R :=
  mkRaft _ (r_timers s) (r_votes s) (r_commit s) (r_base s) x (m_lastBlockTime s) (r_msgQueue s)
    (r_ctl s) (r_rand s) (r_trace s).
Definition set_lastBlockTime (x : Z) s : R :=
  mkRaft _ (r_timers s) (r_votes s) (r_commit s) (r_base s) (m_memberBlock s) x (r_msgQueue s)
    (r_ctl s) (r_rand s) (r_trace s).
Definition set_rmsgQueue (x : list RaftMsgPacket) s : R :=
  mkRaft _ (r_timers s) (r_votes s) (r_commit s) (r_base s) (m_memberBlock s) (m_lastBlockTime s) x
    (r_ctl s) (r_rand s) (r_trace s).
Definition set_ctl (x : RaftCtl) s : R :=
  mkRaft _ (r_timers s) (r_votes s) (r_commit s) (r_base s) (m_memberBlock s) (m_lastBlockTime s) (r_msgQueue s)
    x (r_rand s) (r_trace s).
Definition set_rand (x : list Z) s : R :=
  mkRaft _ (r_timers s) (r_votes s) (r_commit s) (r_base s) (m_memberBlock s) (m_lastBlockTime s) (r_msgQueue s)
    (r_ctl s) x (r_trace s).
Definition set_rtrace (x : list (RaftEvent Ctx)) s : R :=
  mkRaft _ (r_timers s) (r_votes s) (r_commit s) (r_base s) (m_memberBlock s) (m_lastBlockTime s) (r_msgQueue s)
    (r_ctl s) (r_rand s) x.

(** The handlers. *)
Abbreviation RM := (SE R).
Abbreviation rget := (se_get (St := R)).
Abbreviation rmod := (se_mod (St := R)).
Abbreviation rlift := (se_lift (St := R)).
Abbreviation rwhen := (se_when (St := R)).
Definition remit (e : RaftEvent Ctx) : RM unit := rmod (fun s => set_rtrace (e :: r_trace s) s).
Definition rtry {A} (m : RM A) (h : Exn -> RM A) : RM A := fun s =>
  match m s with (s', Throw e) => h e s' | r => r end.

Section Handlers.
Context (E : Env Transaction TransactionReceipt Ctx).

Definition chain_number : Z := bc_number (blockChain E).

(** ** Timers *)

(** [std::rand() % 100 * (max - min) / 100] in [unsigned] arithmetic. *)
Definition electTimeout_of (rnd lo hi : Z) : Z :=
  wrap 32 (lo + wrap 32 (rnd mod 100 * wrap 32 (hi - lo)) / 100).

Definition resetElectTimeout : RM unit :=
  s ← rget;
  let t := r_timers s in
  let rnd := default 0 (head (r_rand s)) in
  rmod (set_rand (tail (r_rand s)));;
  rmod (upd_timers (set_electTimeout (electTimeout_of rnd (m_minElectTimeout t) (m_maxElectTimeout t)) (now E))).

Definition increaseElectTime : RM unit :=
  rmod (upd_timers (fun t =>
    if m_maxElectTimeoutBoundary t <? wrap 32 (m_maxElectTimeout t + m_increaseTime t)
    then set_electRange (m_minElectTimeout t) (m_maxElectTimeoutBoundary t) t
    else set_electRange (wrap 32 (m_minElectTimeout t + m_increaseTime t))
           (wrap 32 (m_maxElectTimeout t + m_increaseTime t)) t)).

Definition recoverElectTime : RM unit :=
  rmod (upd_timers (fun t => set_electRange (m_minElectTimeoutInit t) (m_maxElectTimeoutInit t) t)).

Definition checkElectTimeout s : bool :=
  m_electTimeout (r_timers s) <=? now E - m_lastElectTime (r_timers s).
Definition checkHeartbeatTimeout s : bool :=
  m_heartbeatTimeout (r_timers s) <=? now E - m_lastHeartbeatReset (r_timers s).

(** ** Roles *)

(** A waiting [commit] is woken up with no block. *)
Definition switchToFollower (leader : IDXTYPE) : RM unit :=
  rmod (upd_votes (fun v => set_state EN_STATE_FOLLOWER (set_leader leader v)));;
  rmod (upd_timers (set_heartbeatCount 0));;
  s ← rget;
  rwhen (m_waitingForCommitting (r_commit s))
    (rmod (upd_commit (fun c => set_commitFlags true (m_waitingForCommitting c) (set_uncommitted emptyBlock 0 c))));;
  resetElectTimeout.

Definition switchToLeader : RM unit :=
  s ← rget;
  rmod (upd_votes (fun v => set_state EN_STATE_LEADER (set_leader (rb_idx (r_base s)) v)));;
  recoverElectTime.

(** ** Configuration *)
Definition updateNodeList : RM unit :=
  n ← rlift (bc_txCountLimit (blockChain E));
  rmod (upd_base (set_rb_maxTxs n));;
  s ← rget;
  let sealers := sort_ids (bc_sealerList (blockChain E)) in
  let text := (map abridged sealers, map abridged (bc_observerList (blockChain E))) in
  rmod (upd_base (set_rb_sealers sealers (rb_lastNodeList (r_base s))));;
  rwhen (negb (bool_decide (rb_lastNodeList (r_base s) = Some text)))
    (remit (RSetNodeList (bc_sealerList (blockChain E) ++ bc_observerList (blockChain E)));;
     rmod (upd_base (set_rb_sealers sealers (Some text)))).

(** The position of a node in the list of sealers, or -1. *)
Definition sealerIndex (id : NodeID) s : Z := index_of id (rb_sealerList (r_base s)) 0.

Definition raft_resetConfig : RM unit :=
  updateNodeList;;
  s ← rget;
  let b := r_base s in
  let nodeNum := lenZ (rb_sealerList b) in
  if nodeNum =? 0 then rmod (upd_base (set_rb_cfgErr true))
  else
    let nodeIdx := sealerIndex (pub (rb_keyPair b)) s in
    if nodeIdx <? 0 then rmod (upd_base (fun b => set_rb_account ObserverAccount (set_rb_cfgErr true b)))
    else
      rmod (upd_base (set_rb_account SealerAccount));;
      let switch := negb (nodeNum =? rb_nodeNum b) || negb (nodeIdx =? rb_idx b) in
      rwhen switch (rmod (upd_base
        (set_rb_node (wrap 16 nodeNum) (wrap 16 (Z.quot (wrap 16 nodeNum - 1) 2)) (wrap 16 nodeIdx))));;
      rmod (upd_base (set_rb_cfgErr false));;
      rwhen switch (switchToFollower InvalidIndex;; resetElectTimeout).

Definition switchToCandidate : RM unit :=
  raft_resetConfig;;
  rmod (upd_votes (fun v => set_state EN_STATE_CANDIDATE (set_leader InvalidIndex (set_term (wrap 64 (m_term v + 1)) v))));;
  resetElectTimeout.

Definition initRaftEnv : RM unit :=
  raft_resetConfig;;
  rmod (upd_timers (fun t =>
    let lo := m_minElectTimeout t in let hi := m_maxElectTimeout t in
    mkTimers (m_electTimeout t) lo hi lo hi lo (wrap 32 (hi + wrap 32 (hi - lo) / 2)) (now E) lo
      (lo / s_heartBeatIntervalRatio) (m_heartbeatCount t) (now E) (m_lastHeartbeatReset t) (wrap 32 (hi - lo) / 4)));;
  resetElectTimeout.

(** ** Sending *)
Definition isSealerSession (id : NodeID) s : bool := 0 <=? sealerIndex id s.

Fixpoint send_all (ids : list NodeID) (msg : bytes) : RM unit :=
  match ids with
  | [] => mret tt
  | id :: r => s ← rget; rwhen (isSealerSession id s) (remit (RSend id msg));; send_all r msg
  end.

Definition raft_broadcastMsg (msg : bytes) : RM unit :=
  rmod (upd_base (set_rb_connected (wrap 16 (lenZ (sessions E)))));; send_all (sessions E) msg.

Definition sendResponse (node : NodeID) (m : raft_message) : RM unit :=
  s ← rget;
  msg ← rlift (message_encode m (now E));
  rwhen (bool_decide (node ∈ sessions E) && isSealerSession node s) (remit (RSend node msg)).

Definition base_msg s : RaftMsg :=
  mkRaftMsg (rb_idx (r_base s)) (m_term (r_votes s)) (m_number (rb_highestBlock (r_base s)))
    (hashOf (rb_highestBlock (r_base s))).

Definition hasUncommitted s : bool := header_bool (b_header (m_uncommittedBlock (r_commit s))).

Definition uncommittedHash s : h256 := headerHash (m_uncommittedBlock (r_commit s)).

Definition fingerPrint (h : h256) s : gset Z := default ∅ (m_commitFingerPrint (r_commit s) !! h).

Definition ackBlock (h : h256) (i : Z) : RM unit :=
  rmod (fun s => upd_commit (fun c => set_fingerPrint (<[h := {[i]} ∪ fingerPrint h s]> (m_commitFingerPrint c)) c) s).

Definition generateHeartbeat : RM bytes :=
  s ← rget;
  hb ← (if hasUncommitted s then
          enc ← rlift (block_encode version (m_uncommittedBlock (r_commit s)));
          ackBlock (uncommittedHash s) (rb_idx (r_base s));;
          mret (mkHeartBeat (base_msg s) (rb_idx (r_base s)) (fst enc) (rb_consensusBlockNumber (r_base s)))
        else mret (mkHeartBeat (base_msg s) (rb_idx (r_base s)) [] 0));
  rlift (message_encode (MHeartBeat hb) (now E)).

(** [m_firstVote != Invalid256] compares an index of 16 bits with [2^256 - 1]: it
    always holds. *)
Definition clearFirstVoteCache : RM unit :=
  rmod (upd_timers (fun t => set_heartbeatCount (wrap 32 (m_heartbeatCount t + 1)) t));;
  s ← rget;
  rwhen (2 * s_heartBeatIntervalRatio <=? m_heartbeatCount (r_timers s))
    (rmod (upd_timers (set_heartbeatCount 0));; rmod (upd_votes (set_firstVote InvalidIndex))).

Definition broadcastHeartbeat : RM unit :=
  s ← rget;
  rwhen (m_heartbeatInterval (r_timers s) <=? now E - m_lastHeartbeatTime (r_timers s))
    (rmod (upd_timers (fun t => set_heartbeatTimes (now E) (m_lastHeartbeatReset t) t));;
     msg ← generateHeartbeat;
     raft_broadcastMsg msg;;
     clearFirstVoteCache).

Definition broadcastVoteReq : RM unit :=
  s ← rget;
  let last := if hasUncommitted s then swrap 64 (chain_number + 1) else chain_number in
  msg ← rlift (message_encode (MVoteReq (mkVoteReq (base_msg s) (rb_idx (r_base s))
                 (m_lastLeaderTerm (r_votes s)) last)) (now E));
  raft_broadcastMsg msg.

(** ** Votes *)
Definition isMajorityVote (votes : Z) s : bool := rb_nodeNum (r_base s) - rb_f (r_base s) <=? votes.

(** [handleVoteRequest].  A leader that receives a request for its term or an
    earlier one only sets the flag of the answer. *)
Definition handleVoteRequest (node : NodeID) (req : RaftVoteReq) : RM bool :=
  s ← rget;
  let v := r_votes s in
  let respond flag := sendResponse node (MVoteResp (mkVoteResp (base_msg s) flag (m_lastLeaderTerm v))) in
  let term := rm_term (vq_msg req) in
  if (term <=? m_term v) && negb (bool_decide (m_state v = EN_STATE_LEADER)) then
    respond (if term =? m_term v then VOTE_RESP_DISCARD else VOTE_RESP_REJECT);; mret false
  else if vq_lastLeaderTerm req <? m_lastLeaderTerm v then respond VOTE_RESP_LASTTERM_ERROR;; mret false
  else
    let current := if hasUncommitted s then swrap 64 (chain_number + 1) else chain_number in
    if vq_lastBlockNumber req <? current then respond VOTE_RESP_OUTDATED;; mret false
    else if m_firstVote v =? InvalidIndex then
      rmod (upd_votes (set_firstVote (vq_candidate req)));;
      respond VOTE_RESP_FIRST_VOTE;; mret false
    else
      rmod (upd_votes (fun v => set_vote (vq_candidate req) (set_firstVote (vq_candidate req)
        (set_leader InvalidIndex (set_term term v)))));;
      s ← rget;
      sendResponse node (MVoteResp (mkVoteResp (base_msg s) VOTE_RESP_GRANTED (m_lastLeaderTerm v)));;
      resetElectTimeout;;
      remit (RVoted term (vq_candidate req));;
      mret true.

(** [handleVoteResponse]; [m_term - 1] wraps at zero. *)
Definition handleVoteResponse (resp : RaftVoteResp) (vs : VoteState) : RM (HandleVoteResult * VoteState) :=
  s ← rget;
  let flag := vr_voteFlag resp in
  if rm_term (vr_msg resp) <? wrap 64 (m_term (r_votes s) - 1) then mret (NONE, vs)
  else if flag =? VOTE_RESP_REJECT then
    let vs := mkVoteState (vs_vote vs) (vs_unVote vs + 1) (vs_lastTermErr vs) (vs_firstVote vs)
                (vs_discardedVote vs) (vs_outdated vs) in
    if isMajorityVote (vs_unVote vs) s then increaseElectTime;; mret (TO_FOLLOWER, vs) else mret (NONE, vs)
  else if flag =? VOTE_RESP_LEADER_REJECT then
    rmod (upd_votes (fun v => set_lastLeaderTerm (vr_lastLeaderTerm resp) (set_term (rm_term (vr_msg resp)) v)));;
    increaseElectTime;; mret (TO_FOLLOWER, vs)
  else if flag =? VOTE_RESP_LASTTERM_ERROR then
    let vs := mkVoteState (vs_vote vs) (vs_unVote vs) (vs_lastTermErr vs + 1) (vs_firstVote vs)
                (vs_discardedVote vs) (vs_outdated vs) in
    if isMajorityVote (vs_lastTermErr vs) s then increaseElectTime;; mret (TO_FOLLOWER, vs) else mret (NONE, vs)
  else if flag =? VOTE_RESP_FIRST_VOTE then
    let vs := mkVoteState (vs_vote vs) (vs_unVote vs) (vs_lastTermErr vs) (vs_firstVote vs + 1)
                (vs_discardedVote vs) (vs_outdated vs) in
    if isMajorityVote (vs_firstVote vs) s then
      rmod (upd_votes (fun v => set_term (wrap 64 (m_term v - 1)) v));; mret (TO_FOLLOWER, vs)
    else mret (NONE, vs)
  else if flag =? VOTE_RESP_DISCARD then
    mret (NONE, mkVoteState (vs_vote vs) (vs_unVote vs) (vs_lastTermErr vs) (vs_firstVote vs)
                  (vs_discardedVote vs + 1) (vs_outdated vs))
  else if flag =? VOTE_RESP_OUTDATED then
    mret (NONE, mkVoteState (vs_vote vs) (vs_unVote vs) (vs_lastTermErr vs) (vs_firstVote vs)
                  (vs_discardedVote vs) (vs_outdated vs + 1))
  else if flag =? VOTE_RESP_GRANTED then
    let vs := mkVoteState (vs_vote vs + 1) (vs_unVote vs) (vs_lastTermErr vs) (vs_firstVote vs)
                (vs_discardedVote vs) (vs_outdated vs) in
    mret (if isMajorityVote (vs_vote vs) s then TO_LEADER else NONE, vs)
  else mret (NONE, vs).

(** ** Heartbeats *)
Definition handleHeartbeat (node : NodeID) (hb : RaftHeartBeat) : RM bool :=
  s ← rget;
  let term := rm_term (hb_msg hb) in
  let v := r_votes s in
  if (term <? m_term v) && (term <=? m_lastLeaderTerm v) then mret false
  else
    ok ← (if hasData hb then
            if swrap 64 (hb_uncommitedBlockNumber hb - 1) =? m_number (rb_highestBlock (r_base s)) then
              b ← rlift (block_of_bytes version (hb_uncommitedBlock hb) CheckAll true false);
              rmod (upd_commit (set_uncommitted b (hb_uncommitedBlockNumber hb)));;
              mret (Some (headerHash b))
            else mret None
          else mret (Some h256_0));
    match ok with
    | None => mret false
    | Some hash =>
        sendResponse node (MHeartBeatResp (mkHeartBeatResp (base_msg s) hash));;
        let step1 := m_lastLeaderTerm v <? term in
        rwhen step1 (rmod (upd_votes (fun v => set_vote InvalidIndex (set_term term v))));;
        s ← rget;
        let step2 := m_term (r_votes s) <? term in
        rwhen step2 (rmod (upd_votes (fun v => set_vote InvalidIndex (set_term term v))));;
        s ← rget;
        let step3 := bool_decide (m_state (r_votes s) = EN_STATE_CANDIDATE) && (m_term (r_votes s) <=? term) in
        rwhen step3 (rmod (upd_votes (fun v => set_vote InvalidIndex (set_term term v))));;
        clearFirstVoteCache;;
        rmod (upd_votes (set_lastLeaderTerm term));;
        resetElectTimeout;;
        mret (step1 || step2 || step3)
    end.
(** ** Blocks *)
Definition raft_reportBlock (b : EthBlock) : RM unit :=
  s ← rget;
  if (chain_number =? 0) || (m_number (rb_highestBlock (r_base s)) <? m_number (b_header b)) then
    rmod (set_lastBlockTime (now E));;
    match bc_getBlockByNumber (blockChain E) chain_number with
    | None => rlift (Throw UndefinedBehaviour)
    | Some top =>
        rmod (upd_base (set_rb_highest (b_header top)));;
        rmod (fun s => upd_commit (fun c => set_uncommitted emptyBlock 0
          (set_fingerPrint (delete (uncommittedHash s) (m_commitFingerPrint c)) c)) s);;
        rwhen (rb_consensusBlockNumber (r_base s) <=? m_number (b_header top))
          (rmod (upd_base (set_rb_consensusNumber (swrap 64 (m_number (b_header top) + 1)))));;
        raft_resetConfig
    end
  else mret tt.

(** [ConsensusEngineBase::checkBlockValid], then [checkSealerList]. *)
Definition raft_checkBlockValid (b : EthBlock) s : result unit :=
  let hd := b_header b in
  if rb_maxBlockTransactions (r_base s) <? getTransactionSize b then Throw OverThresTransNum
  else if (now E <? m_timestamp hd) && negb (rb_allowFutureBlocks (r_base s)) then Throw DisabledFutureTime
  else if m_number hd <=? chain_number then Throw InvalidBlockHeight
  else if (match bc_getBlockByHash (blockChain E) (m_parentHash hd) with None => true | Some _ => false end)
  then Throw ParentNoneExist
  else if (1 <? m_number hd) && negb (bool_decide (bc_numberHash (blockChain E) (m_number hd - 1) = m_parentHash hd))
  then Throw WrongParentHash
  else if negb (bool_decide (rb_sealerList (r_base s) = m_sealerList hd)) then Throw BlockSealerListWrong
  else Ok tt.

Definition raft_execBlock (b : EthBlock) : RM (EthBlock * option Ctx) :=
  s ← rget;
  rlift (raft_checkBlockValid b s);;
  remit (RNoteSealing (m_number (b_header b)));;
  rlift (executeBlock E b).

Definition raft_checkAndSave (sealing : EthBlock * option Ctx) : RM unit :=
  if bc_commitBlock (blockChain E) (fst sealing) (snd sealing) then
    remit (RCommitBlock (fst sealing) (snd sealing));; remit (RDropTrans (fst sealing))
  else remit (RBadBlock (fst sealing)).

Definition checkAndExecute (b : EthBlock) : RM bool :=
  r ← rtry (x ← raft_execBlock b; mret (Some x)) (fun _ => mret None);
  match r with
  | None => mret false
  | Some sealing => raft_checkAndSave sealing;; mret true
  end.

(** ** Committing *)

(** Both ends of [tryCommitUncommitedBlock]: wake up the sealer that waits, or
    execute here. *)
Definition commitNow : RM unit :=
  s ← rget;
  if m_waitingForCommitting (r_commit s) then
    rmod (upd_commit (fun c => set_commitFlags true (m_waitingForCommitting c) c))
  else
    checkAndExecute (m_uncommittedBlock (r_commit s));;
    s ← rget;
    raft_reportBlock (m_uncommittedBlock (r_commit s)).

Definition tryCommitUncommitedBlock (resp : RaftHeartBeatResp) : RM unit :=
  s ← rget;
  if hasUncommitted s then
    let hash := uncommittedHash s in
    if m_uncommittedBlockNumber (r_commit s) =? rb_consensusBlockNumber (r_base s) then
      if negb (bool_decide (hr_uncommitedBlockHash resp = h256_0)) && bool_decide (hr_uncommitedBlockHash resp = hash) then
        ackBlock hash (rm_idx (hr_msg resp));;
        s ← rget;
        rwhen (rb_nodeNum (r_base s) - rb_f (r_base s) <=? Z.of_nat (size (fingerPrint hash s)) + 1) commitNow
      else if bool_decide (hr_uncommitedBlockHash resp = h256_0) then commitNow
      else mret tt
    else rmod (upd_commit (set_uncommitted emptyBlock 0))
  else mret tt.

(** [commit]: up to the wait, and from the wake-up. *)
Definition commit_begin (b : EthBlock) : RM unit :=
  rmod (fun s => upd_commit (fun c =>
    set_commitFlags false true (set_uncommitted b (rb_consensusBlockNumber (r_base s)) c)) s).

Definition commit_resume (b : EthBlock) : RM bool :=
  rmod (upd_commit (set_commitFlags false false));;
  s ← rget;
  if negb (hasUncommitted s) then mret false
  else
    rmod (upd_commit (set_uncommitted emptyBlock 0));;
    s ← rget;
    if negb (bool_decide (m_state (r_votes s) = EN_STATE_LEADER)) then mret false else checkAndExecute b.

(** [shouldSeal]; the scan of [m_memberBlock] stops at a member that is ahead. *)
Definition raft_shouldSeal s : bool :=
  let b := r_base s in
  let h := m_number (rb_highestBlock b) in
  let members := map snd (map_to_list (m_memberBlock s)) in
  bool_decide (m_state (r_votes s) = EN_STATE_LEADER) && negb (rb_cfgErr b)
  && (match rb_accountType b with SealerAccount => true | _ => false end)
  && forallb (fun m => fst m <=? h) members
  && (rb_nodeNum b - rb_f b <=?
      1 + lenZ (List.filter (fun m => (fst m =? h) && bool_decide (snd m = hashOf (rb_highestBlock b))) members))
  && negb (hasUncommitted s).

Definition raft_reachBlockIntervalTime s : bool := c_intervalBlockTime <=? wrap 64 (now E - m_lastBlockTime s).
Definition resetLastBlockTime : RM unit := rmod (set_lastBlockTime (now E)).

(** ** Receiving *)
Definition raft_isValidReq (buffer : bytes) (from : NodeID) s : option Z :=
  if lenZ buffer <=? 0 then None
  else
    let peer := sealerIndex from s in
    if peer <? 0 then None
    else
      let sealers := rb_sealerList (r_base s) in
      let me := if rb_idx (r_base s) <? lenZ sealers then nth (Z.to_nat (rb_idx (r_base s))) sealers h512_0 else h512_0 in
      if bool_decide (me = h512_0) || bool_decide (from = me) then None else Some peer.

Definition onRecvRaftMessage (buffer : bytes) (from : NodeID) (ep : chars) : RM unit :=
  s ← rget;
  match raft_isValidReq buffer from s with
  | None => mret tt
  | Some peer =>
      match raftpacket_decode (newRaftPacket (now E)) buffer with
      | Throw _ => mret tt
      | Ok p =>
          rwhen (match packet_of_code (rp_packetType p) with Some _ => true | None => false end)
            (rmod (fun s => set_rmsgQueue (r_msgQueue s ++ [raftpacket_setOtherField peer from ep (now E) p]) s))
      end
  end.

Definition tryPop : RM (option RaftMsgPacket) :=
  s ← rget;
  match r_msgQueue s with
  | [] => mret None
  | p :: q => rmod (set_rmsgQueue q);; mret (Some p)
  end.

(** ** The three roles: one round of each loop *)
Definition isRole (r : RaftRole) s : bool :=
  bool_decide (m_state (r_votes s) = r)
  && (match rb_accountType (r_base s) with SealerAccount => true | _ => false end).

(** A heartbeat answered: counted, and every majority restarts the timer. *)
Definition countHeartbeat (node : NodeID) (log : gmap h512 Z) : RM (gmap h512 Z) :=
  s ← rget;
  let log := <[node := default 0 (log !! node) + 1]> log in
  let count := lenZ (List.filter (fun kv => 0 <? snd kv) (map_to_list log)) in
  if rb_nodeNum (r_base s) - rb_f (r_base s) <=? count + 1 then
    rmod (upd_timers (fun t => set_heartbeatTimes (m_lastHeartbeatTime t) (now E) t));;
    mret ((fun n => if 0 <? n then n - 1 else n) <$> log)
  else mret log.

Definition runAsLeaderImp (log : gmap h512 Z) : RM (bool * gmap h512 Z) :=
  s ← rget;
  if negb (isRole EN_STATE_LEADER s) then mret (false, log)
  else if (1 <? rb_nodeNum (r_base s)) && checkHeartbeatTimeout s then switchToCandidate;; mret (false, log)
  else if 1 <? rb_nodeNum (r_base s) then
    broadcastHeartbeat;;
    p ← tryPop;
    match p with
    | None => mret (true, log)
    | Some p =>
        match packet_of_code (rp_packetType p) with
        | Some RaftVoteReqPacket =>
            req ← rlift (populate_data votereq_populate (rp_data p));
            granted ← handleVoteRequest (rp_nodeId p) req;
            if granted : bool then switchToFollower InvalidIndex;; mret (false, log) else mret (true, log)
        | Some RaftHeartBeatPacket =>
            hb ← rlift (populate_data heartbeat_populate (rp_data p));
            down ← handleHeartbeat (rp_nodeId p) hb;
            if down : bool then switchToFollower (hb_leader hb);; mret (false, log) else mret (true, log)
        | Some RaftHeartBeatRespPacket =>
            resp ← rlift (populate_data heartbeatresp_populate (rp_data p));
            s ← rget;
            if negb (rm_term (hr_msg resp) =? m_term (r_votes s)) then mret (true, log)
            else
              rmod (fun s => set_memberBlock (<[rp_nodeId p := (rm_height (hr_msg resp), rm_blockHash (hr_msg resp))]>
                                               (m_memberBlock s)) s);;
              log ← countHeartbeat (rp_nodeId p) log;
              tryCommitUncommitedBlock resp;;
              mret (true, log)
        | _ => mret (true, log)
        end
    end
  else
    tryCommitUncommitedBlock (mkHeartBeatResp (mkRaftMsg 0 0 0 h256_0) h256_0);; mret (true, log).

Definition runAsCandidateImp (vs : VoteState) : RM (bool * VoteState) :=
  s ← rget;
  if negb (isRole EN_STATE_CANDIDATE s) then mret (false, vs)
  else if checkElectTimeout s then
    (if isMajorityVote (totalVoteCount vs) s then switchToCandidate
     else
       increaseElectTime;;
       rmod (upd_votes (fun v => set_term (wrap 64 (m_term v - 1)) v));;
       switchToFollower InvalidIndex);;
    mret (false, vs)
  else
    p ← tryPop;
    match p with
    | None => mret (true, vs)
    | Some p =>
        match packet_of_code (rp_packetType p) with
        | Some RaftVoteReqPacket =>
            req ← rlift (populate_data votereq_populate (rp_data p));
            granted ← handleVoteRequest (rp_nodeId p) req;
            if granted : bool then switchToFollower InvalidIndex;; mret (false, vs) else mret (true, vs)
        | Some RaftVoteRespPacket =>
            resp ← rlift (populate_data voteresp_populate (rp_data p));
            '(res, vs) ← handleVoteResponse resp vs;
            match res with
            | TO_LEADER => switchToLeader;; mret (false, vs)
            | TO_FOLLOWER => switchToFollower InvalidIndex;; mret (false, vs)
            | NONE => mret (true, vs)
            end
        | Some RaftHeartBeatPacket =>
            hb ← rlift (populate_data heartbeat_populate (rp_data p));
            down ← handleHeartbeat (rp_nodeId p) hb;
            if down : bool then switchToFollower (hb_leader hb);; mret (false, vs) else mret (true, vs)
        | _ => mret (true, vs)
        end
    end.

(** [m_leader == Invalid256] never holds: a leader is only noted on a heartbeat
    that changes the term. *)
Definition runAsFollowerImp : RM bool :=
  s ← rget;
  if negb (isRole EN_STATE_FOLLOWER s) then mret false
  else if checkElectTimeout s then switchToCandidate;; mret false
  else
    p ← tryPop;
    match p with
    | None => mret true
    | Some p =>
        match packet_of_code (rp_packetType p) with
        | Some RaftVoteReqPacket =>
            req ← rlift (populate_data votereq_populate (rp_data p));
            granted ← handleVoteRequest (rp_nodeId p) req;
            mret (negb granted)
        | Some RaftHeartBeatPacket =>
            hb ← rlift (populate_data heartbeat_populate (rp_data p));
            down ← handleHeartbeat (rp_nodeId p) hb;
            rwhen down (rmod (upd_votes (set_leader (hb_leader hb))));; mret true
        | _ => mret true
        end
    end.

(** ** The worker *)

(** From [workLoop] into the loop of the current role. *)
Definition enterRole : RM unit :=
  s ← rget;
  match m_state (r_votes s) with
  | EN_STATE_LEADER =>
      rmod (upd_votes (fun v => set_lastLeaderTerm (m_term v) (set_firstVote InvalidIndex v)));;
      rmod (upd_timers (set_heartbeatTimes (now E) (now E)));;
      rmod (set_ctl (CLeader ∅))
  | EN_STATE_FOLLOWER => rmod (set_ctl CFollower)
  | EN_STATE_CANDIDATE =>
      broadcastVoteReq;;
      rmod (upd_votes (fun v => set_firstVote (rb_idx (r_base s)) (set_vote (rb_idx (r_base s)) v)));;
      remit (RVoted (m_term (r_votes s)) (rb_idx (r_base s)));;
      if isMajorityVote 1 s then switchToLeader else rmod (set_ctl (CCandidate (mkVoteState 1 0 0 0 0 0)))
  end.

Definition raft_work_body : RM unit :=
  s ← rget;
  match r_ctl s with
  | CStopped => mret tt
  | CTop =>
      if sync_isSyncing (blockSync E) then mret tt
      else
        raft_resetConfig;;
        s ← rget;
        if rb_cfgErr (r_base s) || (match rb_accountType (r_base s) with SealerAccount => false | _ => true end)
        then mret tt else enterRole
  | CLeader log =>
      if sync_isSyncing (blockSync E) then rmod (set_ctl CTop)
      else '(go, log) ← runAsLeaderImp log; rmod (set_ctl (if go : bool then CLeader log else CTop))
  | CCandidate vs =>
      if sync_isSyncing (blockSync E) then rmod (set_ctl CTop)
      else '(go, vs) ← runAsCandidateImp vs; rmod (set_ctl (if go : bool then CCandidate vs else CTop))
  | CFollower =>
      if sync_isSyncing (blockSync E) then rmod (set_ctl CTop)
      else go ← runAsFollowerImp; rmod (set_ctl (if go : bool then CFollower else CTop))
  end.

(** [Worker] catches what escapes [workLoop], and stops. *)
Definition raft_work : RM unit := rtry raft_work_body (fun _ => rmod (set_ctl CStopped)).

(** ** Everything that happens to an engine *)
Inductive raft_input : Type :=
  | IWork
  | IReceive (buffer : bytes) (from : NodeID) (ep : chars)
  | IReport (b : EthBlock)
  | ICommit (b : EthBlock)
  (** the wait of [commit] is over *)
  | IResume (b : EthBlock).

Definition raft_step (i : raft_input) s : R :=
  match i with
  | IWork => fst (raft_work s)
  | IReceive buffer from ep => fst (onRecvRaftMessage buffer from ep s)
  | IReport b => fst (raft_reportBlock b s)
  | ICommit b => fst (commit_begin b s)
  | IResume b => if m_commitReady (r_commit s) then fst (commit_resume b s) else s
  end.
End Handlers.
End Engine.
