(* ===== verification/RaftProps.v ===== *)
(** * Properties of the Raft engine

    Votes, terms, timers and commits of [RaftEngine], over every input the
    engine takes. *)

From S2P Require Import Prelude CommonData RLP PBFTMsg BlockHeader Block PBFTMsgCache PBFTReqCache PBFTState PBFTEngine.
From S2P Require Import StateMonad Transaction Receipt TxsParser BlockCodec RaftMsg RaftEngine.

Create HintDb raft.
#[export] Hint Resolve se_keeps_ret se_keeps_get se_keeps_lift : raft.

Lemma keeps_rtry {Ctx A} (Rl : Raft Ctx -> Raft Ctx -> Prop) `{!PreOrder Rl} (m : SE (Raft Ctx) A) h :
  se_keeps Rl m -> (forall e, se_keeps Rl (h e)) -> se_keeps Rl (rtry m h).
Proof.
  intros Hm Hh s. unfold rtry. specialize (Hm s). destruct (m s) as [s' [a|e]]; cbn in *; [done |].
  etransitivity; [exact Hm | apply Hh].
Qed.

Ltac keeps_step := first
  [ se_keeps_step
  | match goal with |- se_keeps _ (rtry _ _) => apply keeps_rtry; [typeclasses eauto | | intros] end ].
Ltac keeps_auto :=
  repeat first [solve [eauto with raft] | keeps_step]; try (apply se_keeps_mod; intros; solve [done]).

(** ** Votes *)
Section Votes.
Context `{Crypto} `{Recover} {Ctx : Type} (version : Z).
Abbreviation R := (Raft Ctx).
Implicit Types s : R.

(** The votes given so far, the last one first. *)
Fixpoint votes_of (l : list (RaftEvent Ctx)) : list (Z * IDXTYPE) :=
  match l with
  | [] => []
  | RVoted t c :: r => (t, c) :: votes_of r
  | _ :: r => votes_of r
  end.
Definition votes s : list (Z * IDXTYPE) := votes_of (r_trace s).
Definition term_of s : Z := m_term (r_votes s).
Definition role_of s : RaftRole := m_state (r_votes s).
Definition idx_of s : IDXTYPE := rb_idx (r_base s).

(** Nothing that matters to votes changes. *)
Definition steady s s' : Prop :=
  votes s' = votes s /\ term_of s' = term_of s /\ role_of s' = role_of s /\ idx_of s' = idx_of s /\
  r_msgQueue s' = r_msgQueue s.
#[export] Instance steady_pre : PreOrder steady.
Proof. split; [done |]. unfold steady. intros x y z (?&?&?&?&?) (?&?&?&?&?). split_and!; congruence. Qed.

(** No vote, and a candidate of the same term stays the same candidate. *)
Definition stays s s' : Prop :=
  votes s' = votes s /\
  (role_of s' = EN_STATE_CANDIDATE ->
   role_of s = EN_STATE_CANDIDATE /\ term_of s' = term_of s /\ idx_of s' = idx_of s).
#[export] Instance stays_pre : PreOrder stays.
Proof. split; [done |]. unfold stays. intros x y z [? Hxy] [? Hyz]. split; [congruence |]. naive_solver congruence. Qed.

Definition quietly s s' : Prop :=
  votes s' = votes s /\
  (role_of s' = EN_STATE_CANDIDATE ->
   (role_of s = EN_STATE_CANDIDATE /\ term_of s' = term_of s /\ idx_of s' = idx_of s) \/ term_of s' <> term_of s).

Lemma steady_is_stays s s' : steady s s' -> stays s s'.
Proof. intros (?&?&?&?&?). split; [done |]. intros. split_and!; congruence. Qed.
Lemma steady_stays {A} (m : (SE R) A) : se_keeps steady m -> se_keeps stays m.
Proof. intros Hm s. apply steady_is_stays, Hm. Qed.

Lemma steady_quietly s s' : steady s s' -> quietly s s'.
Proof. intros (?&?&?&?&?). split; [done |]. intros. left. split_and!; congruence. Qed.

Lemma stays_quietly s s' : stays s s' -> quietly s s'.
Proof. intros [? Hc]. split; [done |]. intros. left. by apply Hc. Qed.

Section Handlers.
Context (E : Env Transaction TransactionReceipt Ctx).

Lemma sendResponse_steady node m : se_keeps steady (sendResponse E node m).
Proof. unfold sendResponse, remit. keeps_auto. Qed.
Lemma resetElectTimeout_steady : se_keeps steady (resetElectTimeout E).
Proof. unfold resetElectTimeout. keeps_auto. Qed.
Lemma updateNodeList_steady : se_keeps steady (updateNodeList E).
Proof. unfold updateNodeList, remit. keeps_auto. Qed.
Lemma send_all_steady ids msg : se_keeps steady (send_all ids msg).
Proof. induction ids; cbn [send_all]; unfold remit; keeps_auto. Qed.
#[local] Hint Resolve sendResponse_steady resetElectTimeout_steady updateNodeList_steady send_all_steady : raft.
Lemma raft_broadcastMsg_steady msg : se_keeps steady (raft_broadcastMsg E msg).
Proof. unfold raft_broadcastMsg. keeps_auto. Qed.
Lemma clearFirstVoteCache_steady : se_keeps steady clearFirstVoteCache.
Proof. unfold clearFirstVoteCache. keeps_auto. Qed.
Lemma increaseElectTime_steady : se_keeps steady increaseElectTime.
Proof. unfold increaseElectTime. keeps_auto. Qed.
Lemma ackBlock_steady h i : se_keeps steady (ackBlock h i).
Proof. unfold ackBlock. keeps_auto. Qed.
#[local] Hint Resolve raft_broadcastMsg_steady clearFirstVoteCache_steady increaseElectTime_steady ackBlock_steady : raft.
Lemma generateHeartbeat_steady : se_keeps steady (generateHeartbeat version E).
Proof. unfold generateHeartbeat. keeps_auto. Qed.
#[local] Hint Resolve generateHeartbeat_steady : raft.
Lemma broadcastHeartbeat_steady : se_keeps steady (broadcastHeartbeat version E).
Proof. unfold broadcastHeartbeat. keeps_auto. Qed.
Lemma broadcastVoteReq_steady : se_keeps steady (broadcastVoteReq E).
Proof. unfold broadcastVoteReq. keeps_auto. Qed.
Lemma checkAndExecute_steady b : se_keeps steady (checkAndExecute E b).
Proof. unfold checkAndExecute, raft_execBlock, raft_checkAndSave, remit. keeps_auto. Qed.
Lemma countHeartbeat_steady node log : se_keeps steady (countHeartbeat (Ctx := Ctx) E node log).
Proof. unfold countHeartbeat. keeps_auto. Qed.
#[local] Hint Resolve broadcastHeartbeat_steady broadcastVoteReq_steady checkAndExecute_steady countHeartbeat_steady : raft.
#[local] Hint Resolve steady_stays : raft.

Lemma switchToFollower_stays i : se_keeps stays (switchToFollower E i).
Proof. unfold switchToFollower. keeps_auto. Qed.
#[local] Hint Resolve switchToFollower_stays : raft.
Lemma tryPop_stays : se_keeps stays (tryPop (Ctx := Ctx)).
Proof. unfold tryPop. keeps_auto. Qed.

(** Ends out of the candidates. *)
Lemma switchToFollower_role i s : snd (switchToFollower E i s) = Ok tt /\
  role_of (fst (switchToFollower E i s)) = EN_STATE_FOLLOWER.
Proof.
  unfold switchToFollower. rewrite !se_bind_mod, se_bind_get.
  set (s1 := upd_timers _ _). assert (role_of s1 = EN_STATE_FOLLOWER) as H1 by done. clearbody s1.
  unfold se_when. destruct (m_waitingForCommitting _); done.
Qed.

(** Once the role is not candidate, steady operations keep it so. *)
Lemma stays_out {A} (m : (SE R) A) s s0 :
  se_keeps steady m -> votes s = votes s0 -> role_of s <> EN_STATE_CANDIDATE -> stays s0 (fst (m s)).
Proof.
  intros Hm Hv Hr. destruct (Hm s) as (H1&H2&H3&H4&H5). split; [congruence |]. intros Hc. congruence.
Qed.

Lemma switchToFollower_out i s s0 : votes s = votes s0 -> stays s0 (fst (switchToFollower E i s)).
Proof.
  intros Hv. destruct (switchToFollower_stays i s) as [Hs _]. destruct (switchToFollower_role i s) as [_ Hr].
  split; [congruence |]. intros Hc. congruence.
Qed.

Lemma raft_resetConfig_stays : se_keeps stays (raft_resetConfig E).
Proof.
  unfold raft_resetConfig. apply se_keeps_bind; [typeclasses eauto | keeps_auto | intros []]. intros s0.
  rewrite se_bind_get. cbv zeta. destruct (_ =? 0); [done |]. destruct (_ <? 0); [done |].
  rewrite se_bind_mod. cbn [snd]. destruct (_ || _); [| done]. unfold se_when. rewrite !se_bind_mod.
  set (s1 := upd_base _ _). assert (votes s1 = votes s0) as Hv by done. clearbody s1.
  unfold mbind, SE_bind. destruct (switchToFollower_role InvalidIndex s1) as [Ho Hr].
  destruct (switchToFollower_stays InvalidIndex s1) as [Hs _].
  destruct (switchToFollower E InvalidIndex s1) as [s2 r]. cbn in Ho, Hr, Hs. subst r.
  apply stays_out; [keeps_auto | congruence | by rewrite Hr].
Qed.
#[local] Hint Resolve tryPop_stays raft_resetConfig_stays : raft.

Lemma raft_reportBlock_stays b : se_keeps stays (raft_reportBlock E b).
Proof. unfold raft_reportBlock. keeps_auto. Qed.
#[local] Hint Resolve raft_reportBlock_stays : raft.
Lemma tryCommit_stays r : se_keeps stays (tryCommitUncommitedBlock E r).
Proof. unfold tryCommitUncommitedBlock, commitNow. keeps_auto. Qed.
Lemma switchToLeader_stays : se_keeps stays (switchToLeader (Ctx := Ctx)).
Proof. unfold switchToLeader, recoverElectTime. keeps_auto. Qed.
#[local] Hint Resolve tryCommit_stays switchToLeader_stays : raft.

Definition same_term s s' : Prop := term_of s' = term_of s.
#[local] Instance same_term_pre : PreOrder same_term.
Proof. split; [done |]. unfold same_term. intros ???. congruence. Qed.
Lemma steady_term {A} (m : (SE R) A) : se_keeps steady m -> se_keeps same_term m.
Proof. intros Hm s. by destruct (Hm s) as (?&?&?&?&?). Qed.
#[local] Hint Resolve steady_term : raft.
Lemma raft_resetConfig_term : se_keeps same_term (raft_resetConfig E).
Proof. unfold raft_resetConfig, switchToFollower. keeps_auto. Qed.

Lemma switchToFollower_term i : se_keeps same_term (switchToFollower E i).
Proof. unfold switchToFollower. keeps_auto. Qed.

Definition same_votes s s' : Prop := votes s' = votes s.
#[local] Instance same_votes_pre : PreOrder same_votes.
Proof. split; [done |]. unfold same_votes. intros ???. congruence. Qed.
Lemma stays_votes {A} (m : (SE R) A) : se_keeps stays m -> se_keeps same_votes m.
Proof. intros Hm s. by destruct (Hm s). Qed.
#[local] Hint Resolve stays_votes : raft.

Lemma wrap_succ_neq x : wrap 64 (x + 1) <> x.
Proof.
  intros Hx. unfold wrap in Hx. pose proof (Z.mod_pos_bound (x + 1) (2 ^ 64) ltac:(lia)).
  rewrite Hx in *. destruct (decide (x + 1 < 2 ^ 64)); [rewrite Z.mod_small in Hx by lia; lia |].
  replace (x + 1) with (2 ^ 64) in Hx by lia. rewrite Z.mod_same in Hx; lia.
Qed.

Lemma switchToCandidate_quietly : se_keeps quietly (switchToCandidate E).
Proof.
  intros s. unfold switchToCandidate, mbind, SE_bind. pose proof (raft_resetConfig_stays s) as Hs.
  pose proof (raft_resetConfig_term s) as Ht.
  destruct (raft_resetConfig E s) as [s1 [[]|e]]; cbn [fst] in *; [| by apply stays_quietly].
  cbn [se_mod]. set (s2 := upd_votes _ s1). destruct Hs as [Hv _].
  destruct (resetElectTimeout_steady s2) as (Hv2 & Ht2 & _). split; [by rewrite Hv2 |]. intros _. right.
  rewrite Ht2. unfold same_term in Ht. rewrite <- Ht. apply wrap_succ_neq.
Qed.

Lemma handleVoteResponse_spec r vs s : exists s' res vs',
  handleVoteResponse r vs s = (s', Ok (res, vs')) /\ votes s' = votes s /\ (res = NONE -> steady s s').
Proof.
  unfold handleVoteResponse. rewrite se_bind_get. cbv zeta.
  repeat (match goal with |- context [if ?b then _ else _] => destruct b end);
    unfold mbind, SE_bind, increaseElectTime, se_mod, mret, SE_ret; by eexists _, _, _.
Qed.

(** A heartbeat that does not step the node down leaves its term alone. *)
Lemma heartbeat_tail term (b : bool) s :
  let m : (SE R) bool := clearFirstVoteCache;; se_mod (upd_votes (set_lastLeaderTerm term));; resetElectTimeout E;; (mret b : (SE R) bool) in
  snd (m s) = Ok b /\ steady s (fst (m s)).
Proof.
  cbv zeta. split; [| apply (se_keeps_all steady); keeps_auto].
  unfold clearFirstVoteCache, mbind, SE_bind. cbn -[Z.leb]. by destruct (_ <=? _).
Qed.

Lemma handleHeartbeat_votes node hb : se_keeps same_votes (handleHeartbeat version E node hb).
Proof. unfold handleHeartbeat. keeps_auto. Qed.

Lemma handleHeartbeat_steady node hb s :
  snd (handleHeartbeat version E node hb s) = Ok true \/ steady s (fst (handleHeartbeat version E node hb s)).
Proof.
  change (se_ends (fun x => snd x = Ok true \/ steady s (fst x)) (handleHeartbeat version E node hb) s).
  unfold handleHeartbeat. apply se_ends_bind; [| done]. intros s0 a0 [= <- <-]. cbv zeta.
  destruct (_ && _); [by right |].
  apply se_ends_bind; [| intros s1 e Hs; right; revert Hs; apply se_keeps_run; keeps_auto].
  intros s1 a Hs. apply (se_keeps_run steady) in Hs; [| keeps_auto]. destruct a as [hash|]; [| by right].
  apply se_ends_bind; intros s2 a Hs2; apply (se_keeps_run steady) in Hs2; keeps_auto;
    (assert (steady s s2) as H2 by (etransitivity; eassumption)); [| by right].
  clear Hs Hs2 s1 a. unfold se_ends.
  destruct (m_lastLeaderTerm _ <? _); cbn [se_when orb]; se_steps;
    (destruct (_ <? _); cbn [se_when orb]; se_steps); (destruct (_ && _); cbn [se_when orb]; se_steps);
    try (left; apply (heartbeat_tail (rm_term (hb_msg hb)) true)).
  right. etransitivity; [exact H2 |]. apply (heartbeat_tail (rm_term (hb_msg hb)) false).
Qed.

Definition same_role s s' : Prop := role_of s' = role_of s.
#[local] Instance same_role_pre : PreOrder same_role.
Proof. split; [done |]. unfold same_role. intros ???. congruence. Qed.
Lemma steady_role {A} (m : (SE R) A) : se_keeps steady m -> se_keeps same_role m.
Proof. intros Hm s. by destruct (Hm s) as (?&?&?&?&?). Qed.
#[local] Hint Resolve steady_role : raft.
Lemma handleHeartbeat_role node hb : se_keeps same_role (handleHeartbeat version E node hb).
Proof. unfold handleHeartbeat. keeps_auto. Qed.

(** What one request does. *)
Definition vote_outcome (req : RaftVoteReq) s (x : R * result bool) : Prop :=
  (snd x = Ok true /\ votes (fst x) = (rm_term (vq_msg req), vq_candidate req) :: votes s /\
   term_of (fst x) = rm_term (vq_msg req) /\ role_of (fst x) = role_of s /\
   (role_of s = EN_STATE_LEADER \/ term_of s < rm_term (vq_msg req))) \/
  (snd x <> Ok true /\ quietly s (fst x)).

Lemma refused req node m s s1 : steady s s1 ->
  se_ends (vote_outcome req s) (sendResponse E node m;; (mret false : (SE R) bool)) s1.
Proof.
  intros Hs. apply se_ends_bind; intros s2 a H2; apply (se_keeps_run steady) in H2; keeps_auto;
    (right; split; [done |]; apply steady_quietly; cbn; etransitivity; eassumption).
Qed.

Lemma handleVoteRequest_spec node req s : se_ends (vote_outcome req s) (handleVoteRequest E node req) s.
Proof.
  unfold handleVoteRequest. apply se_ends_bind; [| done]. intros s0 a0 [= <- <-]. cbv zeta.
  destruct (_ && _) eqn:Et; [by apply refused |].
  destruct (_ <? _); [by apply refused |]. destruct (vq_lastBlockNumber req <? _); [by apply refused |].
  destruct (_ =? _); [apply se_ends_bind; [| done]; intros s1 a1 [= <- <-]; by apply refused |].
  apply se_ends_bind; [| done]. intros s1 a1 [= <- <-]. set (s1 := upd_votes _ s).
  assert (votes s1 = votes s /\ term_of s1 = rm_term (vq_msg req) /\ role_of s1 = role_of s) as (Hv & Ht & Hr) by done.
  assert (role_of s = EN_STATE_LEADER \/ term_of s < rm_term (vq_msg req)) as Hl.
  { apply andb_false_iff in Et as [Et|Et]; bool_to_prop; [right; unfold term_of; lia | by left]. }
  clearbody s1. apply se_ends_bind; [| done]. intros s2 a2 [= <- <-].
  apply se_ends_bind; intros s2 a2 H2; apply (se_keeps_run steady) in H2; keeps_auto; destruct H2 as (Hv2 & Ht2 & Hr2 & _).
  - apply se_ends_bind; [| done]. intros s3 a3 H3. apply (se_keeps_run steady) in H3; keeps_auto.
    destruct H3 as (Hv3 & Ht3 & Hr3 & _). left. unfold remit, se_mod, mbind, SE_bind, mret, SE_ret. cbn [fst snd].
    split_and!; [done | | | | done].
    + change (votes (set_rtrace _ _)) with ((rm_term (vq_msg req), vq_candidate req) :: votes s3). congruence.
    + change (term_of (set_rtrace _ _)) with (term_of s3). congruence.
    + change (role_of (set_rtrace _ _)) with (role_of s3). congruence.
  - right. split; [done |]. cbn [fst]. split; [congruence |]. intros Hc. right.
    destruct Hl as [Hl|Hl]; [congruence | lia].
Qed.

(** A leader is about to handle a request for its own term or an earlier one. *)
Definition overruled s : bool :=
  bool_decide (role_of s = EN_STATE_LEADER) &&
  match r_msgQueue s with
  | [] => false
  | p :: _ =>
      match packet_of_code (rp_packetType p), populate_data votereq_populate (rp_data p) with
      | Some RaftVoteReqPacket, Ok req => rm_term (vq_msg req) <=? term_of s
      | _, _ => false
      end
  end.

(** One step: no vote, a vote for another node in a later term, or for itself. *)
Definition advance s s' : Prop :=
  quietly s s' \/
  (exists t c, votes s' = (t, c) :: votes s /\ term_of s < t /\ term_of s' = t /\ role_of s' <> EN_STATE_CANDIDATE) \/
  (votes s' = (term_of s, idx_of s) :: votes s /\ role_of s = EN_STATE_CANDIDATE /\ term_of s' = term_of s /\
   idx_of s' = idx_of s).

Abbreviation advances s := (fun x => advance s (fst x)).

Lemma advance_stays {A} s (m : (SE R) A) s1 : se_keeps stays m -> stays s s1 -> se_ends (advances s) m s1.
Proof. intros Hm Hs. left. apply stays_quietly. etransitivity; [exact Hs | apply Hm]. Qed.

Lemma advance_quietly {A} s (m : (SE R) A) : se_keeps quietly m -> se_ends (advances s) m s.
Proof. intros Hm. left. apply Hm. Qed.

Lemma quietly_then s s1 s2 : quietly s s1 -> stays s1 s2 -> quietly s s2.
Proof.
  intros [Hv Hc] [Hv2 Hc2]. split; [congruence |]. intros Hr. destruct (Hc2 Hr) as (Hr1 & Ht & Hi).
  destruct (Hc Hr1) as [(? & ? & ?)|?]; [left; split_and!; congruence | right; congruence].
Qed.

Lemma tryPop_run s s' p : tryPop s = (s', Ok p) ->
  votes s' = votes s /\ r_votes s' = r_votes s /\ r_base s' = r_base s /\ p = head (r_msgQueue s).
Proof. unfold tryPop. rewrite se_bind_get. by destruct (r_msgQueue s); intros [= <- <-]. Qed.

(** A request from the queue, handled in a round of one of the loops. *)
Lemma request_advances {A} s s1 node req (k : bool -> (SE R) A) :
  stays s s1 -> term_of s1 = term_of s -> (role_of s = EN_STATE_LEADER -> term_of s < rm_term (vq_msg req)) ->
  role_of s1 = role_of s -> (forall g, se_keeps stays (k g)) ->
  (forall x, role_of x = role_of s -> role_of (fst (k true x)) <> EN_STATE_CANDIDATE /\ term_of (fst (k true x)) = term_of x) ->
  se_ends (advances s) (handleVoteRequest E node req ≫= k) s1.
Proof.
  intros Hs Ht Hl Hr Hk Hkt. pose proof (handleVoteRequest_spec node req s1) as Ho. unfold se_ends in Ho.
  assert (quietly s s1) as Hq by (by apply stays_quietly). destruct Hs as [Hv Hc].
  assert (forall x, quietly s1 x -> quietly s x) as Hqq.
  { intros x [Hxv Hxc]. split; [congruence |]. intros Hx. destruct (Hxc Hx) as [(? & ? & ?)|?]; [| right; congruence].
    left. destruct (Hc ltac:(done)) as (? & ? & ?). split_and!; congruence. }
  apply se_ends_bind; intros s3 a Hs3; rewrite Hs3 in Ho; unfold vote_outcome in Ho; cbn [fst snd] in Ho; destruct Ho as [(Ha & Hv3 & Ht3 & Hr3 & Hlt)|[Ha Ho]];
    try discriminate Ha; cbn [fst].
  - injection Ha as ->. right; left. exists (rm_term (vq_msg req)), (vq_candidate req).
    destruct (Hk true s3) as [Hkv _]. destruct (Hkt s3) as [Hk1 Hk2]; [congruence |].
    split_and!; [congruence | destruct Hlt; [apply Hl; congruence | lia] | congruence | done].
  - left. apply (quietly_then _ s3); [by apply Hqq | apply Hk].
  - left. by apply Hqq.
Qed.

Lemma heartbeat_advances {A} s s1 node hb (k : bool -> (SE R) A) :
  stays s s1 -> (forall g, se_keeps stays (k g)) -> role_of s1 = role_of s ->
  (forall x, role_of x = role_of s -> role_of (fst (k true x)) <> EN_STATE_CANDIDATE) ->
  se_ends (advances s) (handleHeartbeat version E node hb ≫= k) s1.
Proof.
  intros Hs Hk Hr Hkt. pose proof (handleHeartbeat_steady node hb s1) as Ho.
  pose proof (handleHeartbeat_votes node hb s1) as Hv. pose proof (handleHeartbeat_role node hb s1) as Hro.
  apply se_ends_bind; intros s2 a Hs2; rewrite Hs2 in Ho, Hv, Hro; cbn [fst snd] in *; left;
    unfold same_votes, same_role in *; destruct Ho as [Ho|Ho]; try discriminate Ho.
  - injection Ho as ->. destruct (Hk true s2) as [Hkv _]. destruct Hs. split; [congruence |]. intros Hc.
    exfalso. apply (Hkt s2); [congruence | done].
  - apply stays_quietly. etransitivity; [exact Hs |]. etransitivity; [| apply Hk].
    by apply steady_is_stays.
  - apply stays_quietly. etransitivity; [exact Hs |].
    by apply steady_is_stays.
Qed.

Ltac quiet := apply advance_stays; [keeps_auto | done].
Ltac candidacy := apply se_ends_bind; intros s1 a Hs1; left; [apply (quietly_then _ s1); [| done] |];
      revert Hs1; apply se_keeps_run, switchToCandidate_quietly.

Lemma switchToFollower_out' i x : role_of (fst (switchToFollower E i x)) <> EN_STATE_CANDIDATE /\
  term_of (fst (switchToFollower E i x)) = term_of x.
Proof. destruct (switchToFollower_role i x) as [_ ->]. split; [done | apply switchToFollower_term]. Qed.

Lemma runAsFollower_advances s : se_ends (advances s) (runAsFollowerImp version E) s.
Proof.
  unfold runAsFollowerImp. apply se_ends_bind; [| done]. intros s0 a0 [= <- <-].
  destruct (negb _) eqn:Er; [quiet |]. unfold isRole in Er. bool_to_prop.
  destruct (checkElectTimeout _ _); [candidacy |].
  apply se_ends_bind; [| intros s1 e; unfold tryPop; rewrite se_bind_get; by destruct (r_msgQueue s)].
  intros s1 [p|] Hp; [| left; apply stays_quietly; revert Hp; apply se_keeps_run, tryPop_stays].
  pose proof (se_keeps_run _ _ _ _ _ tryPop_stays Hp) as Hst. apply tryPop_run in Hp as (Hv & Hvv & Hb & Hh).
  assert (role_of s = EN_STATE_FOLLOWER) as Hf by done. assert (role_of s1 = role_of s) as Hr1 by (unfold role_of; congruence).
  destruct (packet_of_code _) as [[]|]; try (apply advance_stays; [keeps_auto | done]; fail);
    (apply se_ends_lift; [intros msg _ | intros; left; by apply stays_quietly]).
  - apply request_advances; [done | unfold term_of; congruence | congruence | done | intros []; keeps_auto |]. intros x Hx.
    split; [change (role_of x <> EN_STATE_CANDIDATE); congruence | done].
  - apply heartbeat_advances; [done | intros []; keeps_auto | done |]. intros x Hx.
    change (role_of x <> EN_STATE_CANDIDATE). congruence.
Qed.

(** The branches of the candidate and of the leader that step down. *)
Lemma step_down {A} i (a : A) x :
  role_of (fst ((switchToFollower E i;; (mret a : (SE R) A)) x)) <> EN_STATE_CANDIDATE /\
  term_of (fst ((switchToFollower E i;; (mret a : (SE R) A)) x)) = term_of x.
Proof.
  unfold mbind, SE_bind. destruct (switchToFollower_out' i x) as [Hr Ht].
  by destruct (switchToFollower E i x) as [? []].
Qed.

Lemma runAsCandidate_advances vs s : se_ends (advances s) (runAsCandidateImp version E vs) s.
Proof.
  unfold runAsCandidateImp. apply se_ends_bind; [| done]. intros s0 a0 [= <- <-].
  destruct (negb _) eqn:Er; [quiet |]. unfold isRole in Er. bool_to_prop.
  assert (role_of s = EN_STATE_CANDIDATE) as Hf by done.
  destruct (checkElectTimeout _ _); [destruct (isMajorityVote _ _); [candidacy |] |].
  { left. split; [apply (se_keeps_all same_votes); keeps_auto |]. intros Hc. exfalso. revert Hc.
    rewrite !se_bind_assoc. unfold increaseElectTime. se_steps. rewrite se_bind_assoc. se_steps. by apply step_down. }
  apply se_ends_bind; [| intros s1 e; unfold tryPop; rewrite se_bind_get; by destruct (r_msgQueue s)].
  intros s1 [p|] Hp; [| left; apply stays_quietly; revert Hp; apply se_keeps_run, tryPop_stays].
  pose proof (se_keeps_run _ _ _ _ _ tryPop_stays Hp) as Hst. apply tryPop_run in Hp as (Hv & Hvv & Hb & Hh).
  assert (role_of s1 = role_of s) as Hr1 by (unfold role_of; congruence).
  destruct (packet_of_code _) as [[]|]; try (apply advance_stays; [keeps_auto | done]; fail);
    (apply se_ends_lift; [intros msg _ | intros; left; by apply stays_quietly]).
  - apply request_advances; [done | unfold term_of; congruence | congruence | done | intros []; keeps_auto |].
    intros x Hx. by apply step_down.
  - destruct (handleVoteResponse_spec msg vs s1) as (s2 & res & vs' & Hs2 & Hv2 & Hn).
    apply se_ends_bind; [| intros s3 e; by rewrite Hs2].
    intros s3 [res' vs3] Hs3. rewrite Hs2 in Hs3. injection Hs3 as <- <- <-.
    destruct res; left; (split; [transitivity (votes s2); [apply (se_keeps_all same_votes); keeps_auto | congruence] |]).
    + intros Hc. exfalso. revert Hc. done.
    + intros Hc. exfalso. revert Hc. by apply step_down.
    + intros _. left. destruct (Hn eq_refl) as (H1' & H2' & H3' & H4' & H5').
      change (role_of s = EN_STATE_CANDIDATE /\ term_of s2 = term_of s /\ idx_of s2 = idx_of s).
      unfold term_of, idx_of in *. split_and!; congruence.
  - apply heartbeat_advances; [done | intros []; keeps_auto | done |]. intros x Hx. by apply step_down.
Qed.

Lemma runAsLeader_advances log s : overruled s = false -> se_ends (advances s) (runAsLeaderImp version E log) s.
Proof.
  intros Ho. unfold runAsLeaderImp. apply se_ends_bind; [| done]. intros s0 a0 [= <- <-].
  destruct (negb _) eqn:Er; [quiet |]. unfold isRole in Er. bool_to_prop.
  assert (role_of s = EN_STATE_LEADER) as Hf by done.
  destruct (_ && _); [candidacy |]. destruct (1 <? _); [| quiet].
  apply se_ends_bind; intros s1 a Hs1; apply (se_keeps_run steady) in Hs1; keeps_auto;
    [| left; by apply steady_quietly]. destruct Hs1 as (Hv1 & Ht1 & Hr1 & Hi1 & Hq1).
  apply se_ends_bind; [| intros s2 e; unfold tryPop; rewrite se_bind_get; by destruct (r_msgQueue s1)].
  assert (stays s s1) as Hst1 by (by apply steady_is_stays).
  intros s2 [p|] Hp; [| left; apply stays_quietly; etransitivity; [exact Hst1 |]; revert Hp; apply se_keeps_run, tryPop_stays].
  assert (stays s s2) as Hst by (etransitivity; [exact Hst1 | exact (se_keeps_run _ _ _ _ _ tryPop_stays Hp)]).
  apply tryPop_run in Hp as (Hv & Hvv & Hb & Hh).
  assert (role_of s2 = role_of s) as Hr2 by (unfold role_of in *; congruence).
  assert (term_of s2 = term_of s) as Ht2 by (unfold term_of in *; congruence).
  destruct (packet_of_code _) as [[]|] eqn:Ep; try (apply advance_stays; [keeps_auto | done]; fail);
    (apply se_ends_lift; [intros msg Hm | intros; left; by apply stays_quietly]).
  - apply request_advances; [done | done | | done | intros []; keeps_auto | intros x Hx; by apply step_down].
    intros _. unfold overruled in Ho. rewrite (bool_decide_eq_true_2 _ Hf), <- Hq1 in Ho.
    destruct (r_msgQueue s1); [done |]. injection Hh as ->. rewrite Ep, Hm in Ho. cbn [andb] in Ho. lia.
  - apply heartbeat_advances; [done | intros []; keeps_auto | done |]. intros x Hx. by apply step_down.
Qed.

Lemma enterRole_advances s s1 : stays s s1 -> se_ends (advances s) (enterRole E) s1.
Proof.
  intros Hst. unfold enterRole. apply se_ends_bind; [| done]. intros s0 a0 [= <- <-].
  destruct (m_state (r_votes s1)) eqn:Er.
  1,2: apply advance_stays; [keeps_auto | done].
  apply se_ends_bind; intros s2 a Hs2; apply (se_keeps_run steady) in Hs2; keeps_auto;
    [| left; apply stays_quietly; etransitivity; [exact Hst | by apply steady_is_stays]].
  destruct Hs2 as (Hv2 & Ht2 & Hr2 & Hi2 & _). destruct Hst as [Hv Hc]. destruct (Hc Er) as (Hr & Ht & Hi).
  right; right. unfold remit. se_steps.
  destruct (isMajorityVote _ _);
    change ((term_of s1, idx_of s1) :: votes s2 = (term_of s, idx_of s) :: votes s /\
      role_of s = EN_STATE_CANDIDATE /\ term_of s2 = term_of s /\ idx_of s2 = idx_of s);
    split_and!; congruence.
Qed.

Lemma advance_post {A B} s (m : (SE R) A) (k : A -> (SE R) B) s1 :
  se_ends (advances s) m s1 -> (forall a, se_keeps steady (k a)) -> se_ends (advances s) (m ≫= k) s1.
Proof.
  intros Hm Hk. unfold se_ends in Hm. apply se_ends_bind; intros s2 a Hs; rewrite Hs in Hm; cbn [fst] in Hm; [| done].
  destruct (Hk a s2) as (Hv & Ht & Hr & Hi & _). unfold advance, quietly in *.
  unfold se_ends, advance, quietly. by rewrite Hv, Ht, Hr, Hi.
Qed.

Lemma raft_work_advances s : overruled s = false -> advance s (fst (raft_work version E s)).
Proof.
  intros Ho. unfold raft_work, rtry.
  assert (se_ends (advances s) (raft_work_body version E) s) as Hv.
  { unfold raft_work_body. apply se_ends_bind; [| done]. intros s0 a0 [= <- <-].
    destruct (r_ctl s); try destruct (sync_isSyncing _); try (quiet; fail).
    - apply se_ends_bind; intros s1 a Hs; apply (se_keeps_run stays) in Hs; keeps_auto; [| left; by apply stays_quietly].
      apply se_ends_bind; [| done]. intros s2 a2 [= <- <-].
      destruct (_ || _); [left; by apply stays_quietly | by apply enterRole_advances].
    - apply advance_post; [by apply runAsLeader_advances | intros []; keeps_auto].
    - apply advance_post; [apply runAsCandidate_advances | intros []; keeps_auto].
    - apply advance_post; [apply runAsFollower_advances | intros []; keeps_auto]. }
  unfold se_ends in Hv. destruct (raft_work_body version E s) as [s' [a|e]]; [done | exact Hv].
Qed.

Lemma raft_step_advances i s : overruled s = false -> advance s (raft_step version E i s).
Proof.
  intros Ho. destruct i; cbn [raft_step].
  - by apply raft_work_advances.
  - apply (advance_stays s (onRecvRaftMessage E buffer from ep)); [unfold onRecvRaftMessage; keeps_auto | done].
  - apply (advance_stays s (raft_reportBlock E b)); [keeps_auto | done].
  - apply (advance_stays s (commit_begin b)); [unfold commit_begin; keeps_auto | done].
  - destruct (m_commitReady _); [| left; by apply stays_quietly].
    apply (advance_stays s (commit_resume E b)); [unfold commit_resume; keeps_auto | done].
Qed.
End Handlers.

(** ** Runs *)
Abbreviation inputs := (list (Env Transaction TransactionReceipt Ctx * raft_input)).

Definition raft_run (l : inputs) s : R := fold_left (fun s i => raft_step version (fst i) (snd i) s) l s.

(** The term never falls, and no leader handles a request it has overtaken. *)
Fixpoint calm (l : inputs) s : bool :=
  match l with
  | [] => true
  | (E, i) :: r =>
      let s' := raft_step version E i s in negb (overruled s) && (term_of s <=? term_of s') && calm r s'
  end.

Record ballots_ok s : Prop := mkBallots {
  bo_past : forall v, v ∈ votes s -> fst v <= term_of s;
  bo_once : forall t c1 c2, (t, c1) ∈ votes s -> (t, c2) ∈ votes s -> c1 = c2;
  bo_self : role_of s = EN_STATE_CANDIDATE -> forall c, (term_of s, c) ∈ votes s -> c = idx_of s
}.

Lemma advance_ballots s s' : ballots_ok s -> advance s s' -> term_of s <= term_of s' -> ballots_ok s'.
Proof.
  intros [Hp Ho Hs] Ha Ht. destruct Ha as [[Hv Hc]|[(t & c & Hv & Hlt & Ht' & Hr)|(Hv & Hr & Ht' & Hi)]];
    constructor; rewrite ?Hv.
  - intros v Hin. specialize (Hp v Hin). lia.
  - done.
  - intros Hr c Hin. destruct (Hc Hr) as [(Hr0 & Ht0 & ->)|Hn]; [apply Hs; congruence |].
    specialize (Hp _ Hin). cbn in Hp. lia.
  - intros v [->|Hin]%elem_of_cons; [cbn; lia |]. specialize (Hp v Hin). lia.
  - intros u c1 c2 [Hu1|Hu1]%elem_of_cons [Hu2|Hu2]%elem_of_cons; simplify_eq; try done.
    + apply Hp in Hu2. cbn in Hu2. lia.
    + apply Hp in Hu1. cbn in Hu1. lia.
    + by apply (Ho u).
  - done.
  - intros v [->|Hin]%elem_of_cons; [cbn; lia |]. specialize (Hp v Hin). lia.
  - intros u c1 c2 [Hu1|Hu1]%elem_of_cons [Hu2|Hu2]%elem_of_cons; simplify_eq; try done.
    + symmetry. by apply Hs.
    + by apply Hs.
    + by apply (Ho u).
  - intros _ c [Hc|Hin]%elem_of_cons; [congruence |]. rewrite Hi. apply Hs; congruence.
Qed.

Lemma calm_ballots l s : ballots_ok s -> calm l s = true -> ballots_ok (raft_run l s).
Proof.
  revert s. induction l as [|[E i] l IH]; intros s Hb Hc; [done |]. cbn [calm] in Hc. cbv zeta in Hc. bool_to_prop.
  apply IH; [| done]. apply (advance_ballots s); [done | by apply raft_step_advances | done].
Qed.

Lemma no_votes_ok s : votes s = [] -> ballots_ok s.
Proof. intros Hv. constructor; rewrite Hv; set_solver. Qed.
End Votes.

(** ** Types and timers *)
Definition u16 (x : Z) : Prop := 0 <= x < 2 ^ 16.
Definition u64 (x : Z) : Prop := 0 <= x < 2 ^ 64.

(** The timers of an engine started with elect timeouts from [lo] to [hi]. *)
Definition timers_ok (lo hi : Z) (t : RaftTimers) : Prop :=
  m_minElectTimeoutInit t = lo /\ m_maxElectTimeoutInit t = hi /\
  m_maxElectTimeoutBoundary t = hi + (hi - lo) / 2 /\ m_increaseTime t = (hi - lo) / 4 /\
  lo <= m_minElectTimeout t <= m_maxElectTimeout t /\ m_maxElectTimeout t <= hi + (hi - lo) / 2 /\
  lo <= m_electTimeout t <= hi + (hi - lo) / 2.

Definition votes_typed (v : RaftVotes) : Prop :=
  u64 (m_term v) /\ u64 (m_lastLeaderTerm v) /\ u16 (m_firstVote v) /\ u16 (m_leader v) /\ u16 (m_vote v).

Lemma fromBigEndian_range wr lo hi bs :
  lo <= 0 < hi -> (forall x, lo <= wr x < hi) -> lo <= fromBigEndian wr bs < hi.
Proof.
  intros H0 Hw. unfold fromBigEndian.
  destruct bs as [|b bs _] using rev_ind; [done |]. rewrite foldl_app. apply Hw.
Qed.

Lemma toInt_range t flags r x lo hi :
  lo <= 0 < hi -> (forall x, lo <= conv_to t x < hi) -> toInt t flags r = Ok x -> lo <= x < hi.
Proof.
  intros H0 Hw Hx. unfold toInt in Hx. apply bind_ok in Hx as (? & _ & Hx). apply bind_ok in Hx as (? & _ & Hx).
  case_hyp Hx; [case_hyp Hx; simplify_eq; lia |]. apply bind_ok in Hx as (? & _ & Hx).
  case_hyp Hx; [case_hyp Hx; simplify_eq; lia |]. injection Hx as <-. by apply fromBigEndian_range.
Qed.

Lemma field_ok {A} i (conv : RLP -> result A) r x : field i conv r = Ok x -> exists e, conv e = Ok (fst x).
Proof.
  intros Hx. unfold field in Hx. apply bind_ok in Hx as ([e r'] & _ & Hx). apply bind_ok in Hx as (a & Ha & Hx).
  injection Hx as <-. by exists e.
Qed.

Lemma field_u16 i flags r x : field i (toInt U16 flags) r = Ok x -> u16 (fst x).
Proof.
  intros [e He]%field_ok. revert He. apply toInt_range; [lia |]. intros y. by apply wrap_range.
Qed.
Lemma field_u64 i flags r x : field i (toInt U64 flags) r = Ok x -> u64 (fst x).
Proof.
  intros [e He]%field_ok. revert He. apply toInt_range; [lia |]. intros y. by apply wrap_range.
Qed.

(** One field after the other. *)
Ltac next_field Hx := apply bind_ok in Hx as ([? ?] & ?Hf & Hx); cbn [fst snd] in *.

Lemma populate_ok {A} (f : RLP -> result A) d a : populate_data f d = Ok a -> exists r, f r = Ok a.
Proof.
  intros Hx. unfold populate_data in Hx. apply bind_ok in Hx as (r & _ & Hx). apply bind_ok in Hx as ([e r'] & _ & Hx).
  by exists e.
Qed.

Lemma raftmsg_typed r m : raftmsg_populate r = Ok m -> u64 (rm_term (fst m)).
Proof.
  intros Hx. unfold raftmsg_populate in Hx. do 4 next_field Hx. injection Hx as <-. by apply field_u64 in Hf0.
Qed.

Lemma votereq_typed d q : populate_data votereq_populate d = Ok q ->
  u64 (rm_term (vq_msg q)) /\ u16 (vq_candidate q).
Proof.
  intros [r Hx]%populate_ok. unfold votereq_populate in Hx. do 4 next_field Hx. injection Hx as <-.
  split; [by apply raftmsg_typed in Hf | by apply field_u16 in Hf0].
Qed.
Lemma voteresp_typed d q : populate_data voteresp_populate d = Ok q ->
  u64 (rm_term (vr_msg q)) /\ u64 (vr_lastLeaderTerm q).
Proof.
  intros [r Hx]%populate_ok. unfold voteresp_populate in Hx. do 3 next_field Hx. injection Hx as <-.
  split; [by apply raftmsg_typed in Hf | by apply field_u64 in Hf1].
Qed.
Lemma heartbeat_typed d q : populate_data heartbeat_populate d = Ok q ->
  u64 (rm_term (hb_msg q)) /\ u16 (hb_leader q).
Proof.
  intros [r Hx]%populate_ok. unfold heartbeat_populate in Hx. do 4 next_field Hx. injection Hx as <-.
  split; [by apply raftmsg_typed in Hf | by apply field_u16 in Hf0].
Qed.

Lemma electTimeout_range rnd lo hi : 0 <= lo <= hi -> hi < 2 ^ 25 -> lo <= electTimeout_of rnd lo hi <= hi.
Proof.
  intros Hl Hh. unfold electTimeout_of. pose proof (Z.mod_pos_bound rnd 100 ltac:(lia)).
  rewrite (wrap_small 32 (hi - lo)) by lia. rewrite (wrap_small 32 (rnd mod 100 * _)) by nia.
  assert (0 <= rnd mod 100 * (hi - lo) / 100 <= hi - lo).
  { split; [apply Z.div_pos; nia |]. apply Z.div_le_upper_bound; nia. }
  rewrite wrap_small; lia.
Qed.

Section Typed.
Context `{Crypto} `{Recover} {Ctx : Type} (version : Z) (lo hi : Z).
Abbreviation R := (Raft Ctx).
Implicit Types s : R.
Hypothesis (Hlo : 0 <= lo <= hi) (Hhi : hi < 2 ^ 24).

Definition raft_typed s : Prop :=
  timers_ok lo hi (r_timers s) /\ votes_typed (r_votes s) /\ u16 (rb_idx (r_base s)).

Definition typed s s' : Prop := raft_typed s -> raft_typed s'.
#[local] Instance typed_pre : PreOrder typed.
Proof. split; [by intros s Hs |]. unfold typed. intros x y z Hxy Hyz Hx. auto. Qed.

(** Updates of the state that keep the types. *)
Ltac typed_mod := apply se_keeps_mod; intros ? (? & (? & ? & ? & ? & ?) & ?);
  unfold raft_typed, votes_typed, u16, u64 in *; cbn -[Z.pow wrap] in *; split_and!; first [done | by apply wrap_range | lia].
Ltac typed_auto := keeps_auto; try typed_mod.

Section Handlers.
Context (E : Env Transaction TransactionReceipt Ctx).

Lemma boundary_small : hi + (hi - lo) / 2 < 2 ^ 25.
Proof. pose proof (Z.div_le_upper_bound (hi - lo) 2 hi ltac:(lia) ltac:(lia)). lia. Qed.

Lemma resetElectTimeout_typed : se_keeps typed (resetElectTimeout E).
Proof.
  intros s (Ht & Hv & Hi). split_and!; [| done | done]. destruct Ht as (? & ? & ? & ? & ? & ? & ?).
  unfold resetElectTimeout. se_steps.
  pose proof boundary_small. set (t := r_timers s) in *.
  pose proof (electTimeout_range (default 0 (head (r_rand s))) (m_minElectTimeout t) (m_maxElectTimeout t) ltac:(lia) ltac:(lia)).
  unfold timers_ok. cbn -[Z.pow electTimeout_of default head]. fold t. split_and!; try done; lia.
Qed.
Lemma increaseElectTime_typed : se_keeps typed (increaseElectTime (Ctx := Ctx)).
Proof.
  apply se_keeps_mod. intros s (Ht & Hv & Hi). split_and!; [| done | done].
  unfold timers_ok in *. destruct Ht as (? & ? & ? & ? & ? & ? & ?). pose proof boundary_small.
  assert (0 <= m_increaseTime (r_timers s) <= hi) by (pose proof (Z.div_pos (hi - lo) 4); pose proof (Z.div_le_upper_bound (hi - lo) 4 hi); lia).
  cbn -[Z.pow wrap]. rewrite !wrap_small by lia. destruct (_ <? _) eqn:Eb; bool_to_prop; cbn -[Z.pow]; split_and!; try done; lia.
Qed.
Lemma sendResponse_typed node m : se_keeps typed (sendResponse E node m).
Proof. unfold sendResponse, remit. typed_auto. Qed.
#[local] Hint Resolve resetElectTimeout_typed increaseElectTime_typed sendResponse_typed : raft.
Lemma switchToFollower_typed i : u16 i -> se_keeps typed (switchToFollower E i).
Proof. intros. unfold switchToFollower. typed_auto. Qed.
Lemma updateNodeList_typed : se_keeps typed (updateNodeList E).
Proof. unfold updateNodeList, remit. typed_auto. Qed.
Lemma send_all_typed ids msg : se_keeps typed (send_all ids msg).
Proof. induction ids; cbn [send_all]; unfold remit; typed_auto. Qed.
Lemma InvalidIndex_u16 : u16 InvalidIndex.
Proof. by unfold u16, InvalidIndex. Qed.
#[local] Hint Resolve switchToFollower_typed updateNodeList_typed send_all_typed InvalidIndex_u16 : raft.
Lemma raft_resetConfig_typed : se_keeps typed (raft_resetConfig E).
Proof. unfold raft_resetConfig. typed_auto. Qed.
#[local] Hint Resolve raft_resetConfig_typed : raft.
Lemma switchToCandidate_typed : se_keeps typed (switchToCandidate E).
Proof. unfold switchToCandidate. typed_auto. Qed.
Lemma switchToLeader_typed : se_keeps typed (switchToLeader (Ctx := Ctx)).
Proof.
  intros s (Ht & (? & ? & ? & ? & ?) & Hi). unfold switchToLeader, recoverElectTime. se_steps.
  split_and!; [| split_and!; done | done]. destruct Ht as (? & ? & ? & ? & ? & ? & ?).
  pose proof (Z.div_pos (hi - lo) 2). unfold timers_ok. cbn -[Z.pow]. split_and!; try done; lia.
Qed.
Lemma raft_broadcastMsg_typed msg : se_keeps typed (raft_broadcastMsg E msg).
Proof. unfold raft_broadcastMsg. typed_auto. Qed.
Lemma clearFirstVoteCache_typed : se_keeps typed (clearFirstVoteCache (Ctx := Ctx)).
Proof. unfold clearFirstVoteCache. typed_auto. Qed.
Lemma ackBlock_typed h i : se_keeps typed (ackBlock (Ctx := Ctx) h i).
Proof. unfold ackBlock. typed_auto. Qed.
#[local] Hint Resolve switchToCandidate_typed raft_broadcastMsg_typed clearFirstVoteCache_typed ackBlock_typed : raft.
Lemma generateHeartbeat_typed : se_keeps typed (generateHeartbeat version E).
Proof. unfold generateHeartbeat. typed_auto. Qed.
#[local] Hint Resolve generateHeartbeat_typed : raft.
Lemma broadcastHeartbeat_typed : se_keeps typed (broadcastHeartbeat version E).
Proof. unfold broadcastHeartbeat. typed_auto. Qed.
Lemma broadcastVoteReq_typed : se_keeps typed (broadcastVoteReq E).
Proof. unfold broadcastVoteReq. typed_auto. Qed.
Lemma checkAndExecute_typed b : se_keeps typed (checkAndExecute E b).
Proof. unfold checkAndExecute, raft_execBlock, raft_checkAndSave, remit. typed_auto. Qed.
Lemma raft_reportBlock_typed b : se_keeps typed (raft_reportBlock E b).
Proof. unfold raft_reportBlock. typed_auto. Qed.
#[local] Hint Resolve broadcastHeartbeat_typed broadcastVoteReq_typed checkAndExecute_typed raft_reportBlock_typed : raft.
Lemma tryCommit_typed r : se_keeps typed (tryCommitUncommitedBlock E r).
Proof. unfold tryCommitUncommitedBlock, commitNow. typed_auto. Qed.
Lemma tryPop_typed : se_keeps typed (tryPop (Ctx := Ctx)).
Proof. unfold tryPop. typed_auto. Qed.
Lemma countHeartbeat_typed node log : se_keeps typed (countHeartbeat (Ctx := Ctx) E node log).
Proof. unfold countHeartbeat. typed_auto. Qed.
#[local] Hint Resolve tryCommit_typed tryPop_typed countHeartbeat_typed : raft.
Lemma handleVoteRequest_typed node q : u64 (rm_term (vq_msg q)) -> u16 (vq_candidate q) ->
  se_keeps typed (handleVoteRequest E node q).
Proof. intros. unfold handleVoteRequest, remit. typed_auto. Qed.
Lemma handleVoteResponse_typed q vs : u64 (rm_term (vr_msg q)) -> u64 (vr_lastLeaderTerm q) ->
  se_keeps typed (handleVoteResponse (Ctx := Ctx) q vs).
Proof. intros. unfold handleVoteResponse. typed_auto. Qed.
Lemma handleHeartbeat_typed node q : u64 (rm_term (hb_msg q)) -> se_keeps typed (handleHeartbeat version E node q).
Proof. intros. unfold handleHeartbeat. typed_auto. Qed.
#[local] Hint Resolve switchToLeader_typed handleVoteRequest_typed handleVoteResponse_typed handleHeartbeat_typed : raft.

(** Decoded messages are typed. *)
Ltac decoded := repeat match goal with
  | H : populate_data votereq_populate _ = Ok _ |- _ => apply votereq_typed in H as [? ?]
  | H : populate_data voteresp_populate _ = Ok _ |- _ => apply voteresp_typed in H as [? ?]
  | H : populate_data heartbeat_populate _ = Ok _ |- _ => apply heartbeat_typed in H as [? ?]
  end.
Ltac role_auto := repeat first [solve [decoded; eauto with raft] | keeps_step]; try typed_mod.

Lemma runAsLeader_typed log : se_keeps typed (runAsLeaderImp version E log).
Proof. unfold runAsLeaderImp. role_auto. Qed.
Lemma runAsCandidate_typed vs : se_keeps typed (runAsCandidateImp version E vs).
Proof. unfold runAsCandidateImp. role_auto. Qed.
Lemma runAsFollower_typed : se_keeps typed (runAsFollowerImp version E).
Proof. unfold runAsFollowerImp. role_auto. decoded. typed_mod. Qed.
#[local] Hint Resolve runAsLeader_typed runAsCandidate_typed runAsFollower_typed : raft.

Lemma enterRole_typed : se_keeps typed (enterRole E).
Proof.
  intros s Hs. unfold enterRole. rewrite se_bind_get. destruct (m_state _).
  1,2: revert s Hs; apply (se_keeps_all typed); typed_auto.
  pose proof Hs as (_ & _ & Hi). revert Hs. apply (se_keeps_all typed). unfold remit. typed_auto.
Qed.
#[local] Hint Resolve enterRole_typed : raft.

Lemma raft_step_typed i s : typed s (raft_step version E i s).
Proof.
  destruct i; cbn [raft_step].
  - apply (se_keeps_all typed). unfold raft_work, raft_work_body. typed_auto.
  - apply (se_keeps_all typed). unfold onRecvRaftMessage. typed_auto.
  - apply (se_keeps_all typed). typed_auto.
  - apply (se_keeps_all typed). unfold commit_begin. typed_auto.
  - destruct (m_commitReady _); [| done]. apply (se_keeps_all typed). unfold commit_resume. typed_auto.
Qed.
End Handlers.

Lemma raft_run_typed l s : raft_typed s -> raft_typed (raft_run version l s).
Proof.
  revert s. induction l as [|[E i] l IH]; intros s Hs; [done |]. cbn. apply IH. by apply raft_step_typed.
Qed.
End Typed.

(** ** The start of an engine *)
Section Start.
Context `{Crypto} `{Recover} {Ctx : Type} (version : Z) (lo hi : Z).
Abbreviation R := (Raft Ctx).
Implicit Types s : R.
Hypothesis (Hlo : 0 <= lo <= hi) (Hhi : hi < 2 ^ 24).
Context (E : Env Transaction TransactionReceipt Ctx).

(** Constructed, not started: the other timers have no value yet. *)
Definition constructed s : Prop :=
  m_minElectTimeout (r_timers s) = lo /\ m_maxElectTimeout (r_timers s) = hi /\
  votes_typed (r_votes s) /\ u16 (rb_idx (r_base s)).

Definition prestart s s' : Prop := constructed s -> constructed s'.
#[local] Instance prestart_pre : PreOrder prestart.
Proof. split; [by intros s Hs |]. unfold prestart. intros x y z Hxy Hyz Hx. auto. Qed.

Lemma raft_resetConfig_prestart : se_keeps prestart (raft_resetConfig E).
Proof.
  unfold raft_resetConfig, updateNodeList, switchToFollower, resetElectTimeout, remit.
  keeps_auto; apply se_keeps_mod; intros ? (? & ? & (? & ? & ? & ? & ?) & ?);
    unfold constructed, votes_typed, u16, u64, InvalidIndex in *; cbn -[Z.pow wrap] in *; split_and!;
    first [done | by apply wrap_range | lia].
Qed.

Lemma initRaftEnv_typed s s' : constructed s -> initRaftEnv E s = (s', Ok tt) -> raft_typed lo hi s'.
Proof.
  intros Hc. unfold initRaftEnv. unfold mbind at 1, SE_bind at 1. pose proof (raft_resetConfig_prestart s Hc) as Hs.
  destruct (raft_resetConfig E s) as [s1 [[]|e]]; [| done]. cbn [fst] in Hs. intros Hi.
  destruct Hs as (H1 & H2 & Hv & Hx).
  assert ((hi - lo) / 2 <= hi) by (apply Z.div_le_upper_bound; lia).
  pose proof (Z.div_pos (hi - lo) 2 ltac:(lia) ltac:(lia)).
  pose proof (electTimeout_range (default 0 (head (r_rand s1))) lo hi Hlo ltac:(lia)) as Hr.
  revert Hi. se_steps. unfold resetElectTimeout. se_steps. intros [= <-].
  split_and!; [| done | done]. unfold timers_ok. cbn -[Z.pow electTimeout_of wrap default head].
  rewrite H1, H2, (wrap_small 32 (hi - lo)), (wrap_small 32 (hi + _)) by lia.
  split_and!; try done; lia.
Qed.
End Start.

(** ** Quorums *)
Section Quorum.
Context `{Crypto} `{Recover} {Ctx : Type} (version : Z).
Abbreviation R := (Raft Ctx).
Abbreviation inputs := (list (Env Transaction TransactionReceipt Ctx * raft_input)).

(** The nodes of a cluster that voted for [c] in term [t], each after its run. *)
Definition voters (t : Z) (c : IDXTYPE) (nodes : list (inputs * R)) : list (inputs * R) :=
  List.filter (fun n => bool_decide ((t, c) ∈ votes (raft_run version (fst n) (snd n)))) nodes.

(** What [resetConfig] computes for [n] sealers. *)
Definition configured (n : Z) (s : R) : Prop := rb_nodeNum (r_base s) = n /\ rb_f (r_base s) = Z.quot (n - 1) 2.

Lemma filter_overlap {A} (p q : A -> bool) l :
  lenZ l < lenZ (List.filter p l) + lenZ (List.filter q l) -> exists x, x ∈ l /\ p x = true /\ q x = true.
Proof.
  unfold lenZ. induction l as [|x l IH]; cbn -[Z.of_nat]; [lia |]. intros Hl.
  destruct (p x) eqn:Ep, (q x) eqn:Eq; cbn -[Z.of_nat] in Hl;
    [exists x; split_and!; [apply list_elem_of_here | done | done] |..];
    (destruct IH as (y & Hy & ?); [lia | exists y; split; [by apply list_elem_of_further | done]]).
Qed.

Lemma majorities_overlap n s1 s2 a b : 0 < n -> configured n s1 -> configured n s2 ->
  isMajorityVote a s1 = true -> isMajorityVote b s2 = true -> n < a + b.
Proof.
  intros Hn [H1 H2] [H3 H4]. unfold isMajorityVote. rewrite H1, H2, H3, H4. intros Ha%Z.leb_le Hb%Z.leb_le.
  rewrite Z.quot_div_nonneg in * by lia. pose proof (Z.mul_div_le (n - 1) 2 ltac:(lia)). lia.
Qed.

(** C11: election safety.  Take any cluster of nodes, each run from a state without
    votes over any inputs (messages, timeouts, blocks, configuration changes), such
    that along its run the node's term never falls and it does not, as a leader,
    handle a vote request for its own term or an earlier one.  If two candidates each
    have a majority of the nodes' votes in the same term, they are the same
    candidate. *)
Theorem election_safety (nodes : list (inputs * R)) t c1 c2 (s1 s2 : R) :
  Forall (fun n => votes (snd n) = [] /\ calm version (fst n) (snd n) = true) nodes ->
  nodes <> [] -> configured (lenZ nodes) s1 -> configured (lenZ nodes) s2 ->
  isMajorityVote (lenZ (voters t c1 nodes)) s1 = true -> isMajorityVote (lenZ (voters t c2 nodes)) s2 = true ->
  c1 = c2.
Proof.
  intros Hn Hne Hc1 Hc2 H1 H2.
  assert (0 < lenZ nodes) as Hpos by (destruct nodes; [done | unfold lenZ; cbn; lia]).
  pose proof (majorities_overlap _ _ _ _ _ Hpos Hc1 Hc2 H1 H2) as Hlt. 
  destruct (filter_overlap _ _ nodes Hlt) as ([l s] & Hin & Hv1 & Hv2). bool_to_prop.
  rewrite Forall_forall in Hn. destruct (Hn _ Hin) as [Hv Hcalm].
  by destruct (calm_ballots version l s (no_votes_ok s Hv) Hcalm) as [_ Ho _]; eapply Ho.
Qed.
End Quorum.

(** C25: the types of the state hold for ever.  An engine constructed with elect
    timeouts [lo <= hi] (below 2^24 milliseconds) and started successfully keeps its
    terms in 64 bits and its node indices in 16 bits, and its elect timeout between
    [lo] and [hi + (hi - lo) / 2], whatever it then receives: no unsigned arithmetic
    of the timers wraps.  The timeout may exceed the configured maximum [hi], by at
    most half of the configured range. *)
Theorem raft_state_typed `{Crypto} `{Recover} {Ctx : Type} version lo hi (E : Env Transaction TransactionReceipt Ctx) l s s' :
  0 <= lo <= hi -> hi < 2 ^ 24 -> constructed lo hi s -> initRaftEnv E s = (s', Ok tt) ->
  raft_typed lo hi (raft_run version l s').
Proof. intros Hlo Hhi Hc Hi. apply raft_run_typed; [done | done |]. by apply (initRaftEnv_typed lo hi Hlo Hhi E s). Qed.

(** ** Commits and failures *)
Section Commit.
Context `{Crypto} `{Recover} {Ctx : Type} (version : Z) (E : Env Transaction TransactionReceipt Ctx).
Abbreviation R := (Raft Ctx).
Implicit Types s : R.

(** Sending a heartbeat records the leader's own index. *)
Lemma generateHeartbeat_acks s s1 msg :
  hasUncommitted s = true -> generateHeartbeat version E s = (s1, Ok msg) ->
  s1 = fst (ackBlock (uncommittedHash s) (rb_idx (r_base s)) s).
Proof.
  intros Hu. unfold generateHeartbeat. rewrite se_bind_get, Hu, !se_bind_assoc.
  unfold mbind at 1, SE_bind at 1, se_lift at 1. destruct (block_encode _ _) as [enc|e]; [| done].
  rewrite se_bind_assoc. unfold ackBlock. se_steps. by intros [= <- _].
Qed.

Lemma fingerPrint_ack h i s : fingerPrint h (fst (ackBlock h i s)) = {[i]} ∪ fingerPrint h s.
Proof. unfold ackBlock, fingerPrint. cbn. by rewrite lookup_insert_eq. Qed.

(** The leader's own acknowledgement is counted twice.  In a group of five, a
    leader that has sent its block in one heartbeat and receives one answer to it
    releases the commit: the block is then held by two nodes of five, while a
    majority is three. *)
Theorem commit_counts_leader_twice s s1 msg r :
  configured 5 s -> hasUncommitted s = true -> m_waitingForCommitting (r_commit s) = true ->
  m_uncommittedBlockNumber (r_commit s) = rb_consensusBlockNumber (r_base s) ->
  fingerPrint (uncommittedHash s) s = ∅ ->
  generateHeartbeat version E s = (s1, Ok msg) ->
  uncommittedHash s <> h256_0 -> hr_uncommitedBlockHash r = uncommittedHash s -> rm_idx (hr_msg r) <> rb_idx (r_base s) ->
  exists s2, tryCommitUncommitedBlock E r s1 = (s2, Ok tt) /\ m_commitReady (r_commit s2) = true /\
    fingerPrint (uncommittedHash s) s2 = {[rm_idx (hr_msg r); rb_idx (r_base s)]} /\
    isMajorityVote (Z.of_nat (size (fingerPrint (uncommittedHash s) s2))) s = false.
Proof.
  intros [Hn Hf] Hu Hw Hnum Hfp Hg Hz Hr Hi. apply generateHeartbeat_acks in Hg as ->; [| done].
  set (me := rb_idx (r_base s)) in *. set (i := rm_idx (hr_msg r)) in *. set (h := uncommittedHash s) in *.
  set (s1 := fst (ackBlock h me s)). pose proof (fingerPrint_ack h me s) as H1. fold s1 in H1.
  pose proof (fingerPrint_ack h i s1) as H2. set (s2 := fst (ackBlock h i s1)) in *.
  assert (fingerPrint h s2 = {[i; me]}) as H3 by (rewrite H2, H1, Hfp; set_solver).
  assert (size (fingerPrint h s2) = 2%nat) as Hs
    by (rewrite H3, size_union, !size_singleton; [done | set_solver]).
  exists (upd_commit (fun c => set_commitFlags true (m_waitingForCommitting c) c) s2).
  split; [| split; [done |]; split; [exact H3 |]].
  - unfold tryCommitUncommitedBlock. rewrite se_bind_get. change (hasUncommitted s1) with (hasUncommitted s).
    change (uncommittedHash s1) with h. change (m_uncommittedBlockNumber (r_commit s1)) with (m_uncommittedBlockNumber (r_commit s)).
    change (rb_consensusBlockNumber (r_base s1)) with (rb_consensusBlockNumber (r_base s)).
    rewrite Hu, Hnum, Z.eqb_refl, Hr, (bool_decide_eq_false_2 _ Hz), (bool_decide_eq_true_2 (h = h) eq_refl). cbn [negb andb].
    change (ackBlock h (rm_idx (hr_msg r))) with (se_mod (fun s => upd_commit (fun c =>
      set_fingerPrint (<[h := {[i]} ∪ fingerPrint h s]> (m_commitFingerPrint c)) c) s)). se_steps.
    change (upd_commit _ s1) with s2. rewrite Hs. change (rb_nodeNum (r_base s2)) with (rb_nodeNum (r_base s)).
    change (rb_f (r_base s2)) with (rb_f (r_base s)). rewrite Hn, Hf.
    change (5 - Z.quot (5 - 1) 2 <=? Z.of_nat 2 + 1) with true. cbn [se_when]. unfold commitNow. se_steps.
    change (m_waitingForCommitting (r_commit s2)) with (m_waitingForCommitting (r_commit s)). by rewrite Hw.
  - change (fingerPrint h (upd_commit _ s2)) with (fingerPrint h s2). rewrite Hs. unfold isMajorityVote. by rewrite Hn, Hf.
Qed.

Definition same_ctl s s' : Prop := r_ctl s' = r_ctl s.
#[local] Instance same_ctl_pre : PreOrder same_ctl.
Proof. split; [done |]. unfold same_ctl. intros ???. congruence. Qed.

Lemma raft_resetConfig_ctl E' : se_keeps same_ctl (raft_resetConfig E').
Proof. unfold raft_resetConfig, updateNodeList, switchToFollower, resetElectTimeout, remit. keeps_auto. Qed.
#[local] Hint Resolve raft_resetConfig_ctl : raft.

Lemma stopped_step E' i s : r_ctl s = CStopped -> r_ctl (raft_step version E' i s) = CStopped.
Proof.
  intros Hs. rewrite <- Hs. destruct i; cbn [raft_step].
  - unfold raft_work, raft_work_body, rtry. rewrite se_bind_get, Hs. done.
  - apply (se_keeps_all same_ctl). unfold onRecvRaftMessage. keeps_auto.
  - apply (se_keeps_all same_ctl). unfold raft_reportBlock. keeps_auto.
  - apply (se_keeps_all same_ctl). unfold commit_begin. keeps_auto.
  - destruct (m_commitReady _); [| done]. apply (se_keeps_all same_ctl).
    unfold commit_resume, checkAndExecute, raft_execBlock, raft_checkAndSave, remit. keeps_auto.
Qed.

Lemma stopped_run l s : r_ctl s = CStopped -> r_ctl (raft_run version l s) = CStopped.
Proof. revert s. induction l as [|[E' i] l IH]; intros s Hs; [done |]. cbn. by apply IH, stopped_step. Qed.

(** One malformed message stops a follower for good.  A packet that a sealer sends
    is accepted when its type is legal, whatever its data; if the data are not those of
    a vote request, the exception leaves the worker, and no later input restarts it. *)
Theorem malformed_request_stops buffer from ep peer p e l s :
  r_ctl s = CFollower -> r_msgQueue s = [] -> isRole EN_STATE_FOLLOWER s = true ->
  checkElectTimeout E s = false -> sync_isSyncing (blockSync E) = false ->
  raft_isValidReq buffer from s = Some peer -> raftpacket_decode (newRaftPacket (now E)) buffer = Ok p ->
  packet_of_code (rp_packetType p) = Some RaftVoteReqPacket ->
  populate_data votereq_populate (rp_data p) = Throw e ->
  r_ctl (raft_run version ((E, IReceive buffer from ep) :: (E, IWork) :: l) s) = CStopped.
Proof.
  intros Hc Hq Hr Ht Hs Hv Hd Hp He. cbn. apply stopped_run.
  assert (fst (onRecvRaftMessage E buffer from ep s)
    = set_rmsgQueue [raftpacket_setOtherField peer from ep (now E) p] s) as ->.
  { unfold onRecvRaftMessage. rewrite se_bind_get, Hv, Hd, Hp. cbn. by rewrite Hq. }
  unfold raft_work, raft_work_body, rtry. rewrite se_bind_get.
  change (r_ctl (set_rmsgQueue _ s)) with (r_ctl s). rewrite Hc, Hs. unfold runAsFollowerImp. rewrite se_bind_assoc, se_bind_get.
  change (isRole EN_STATE_FOLLOWER (set_rmsgQueue _ s)) with (isRole EN_STATE_FOLLOWER s).
  change (checkElectTimeout E (set_rmsgQueue _ s)) with (checkElectTimeout E s). rewrite Hr, Ht. cbn [negb].
  rewrite se_bind_assoc. unfold tryPop. rewrite se_bind_assoc, se_bind_get. cbn [r_msgQueue set_rmsgQueue]. rewrite se_bind_assoc, se_bind_mod, se_bind_ret.
  cbn [rp_packetType rp_data raftpacket_setOtherField]. rewrite Hp, He. done.
Qed.
End Commit.

(** ** A concrete node *)
Section Sample.
#[local] Existing Instances toy_hash toy_recover.
Abbreviation inputs := (list (Env Transaction TransactionReceipt unit * raft_input)).

Definition node_id (i : Z) : NodeID := replicate 64 (i + 1).

Definition raft_env (n : nat) (t : Z) : Env Transaction TransactionReceipt unit :=
  {| now := t; sessions := map (fun i => node_id (Z.of_nat i)) (seq 0 n);
     blockChain := {| bc_number := 41; bc_numberHash := fun _ => h256_0;
       bc_getBlockByHash := fun _ => Some emptyBlock;
       bc_getBlockByNumber := fun _ => Some (with_header sample_header emptyBlock);
       bc_commitBlock := fun _ _ => true; bc_sealerList := map (fun i => node_id (Z.of_nat i)) (seq 0 n);
       bc_observerList := []; bc_txCountLimit := Ok 1000 |};
     blockSync := {| sync_isSyncing := false; sync_knownHighestNumber := 0 |};
     txPool := {| tp_setSenders := fun b => Ok b; tp_txHash := fun _ => h256_0 |};
     blockVerifier := {| bv_executeBlock := fun b _ => Ok (b, Some tt) |};
     codec := eth_codec RC2_VERSION; backupOk := true |}.

(** A follower in term [t] that saw a leader in term [l]. *)
Definition raft_node (n idx t l : Z) (b : EthBlock) : Raft unit :=
  mkRaft _ (mkTimers 1500 1000 2000 1000 2000 1000 2500 0 1000 250 0 0 0 250)
    (mkVotes EN_STATE_FOLLOWER 0 t l InvalidIndex InvalidIndex)
    (mkCommit b 42 false false ∅)
    (mkBase sample_header 42 n (Z.quot (n - 1) 2) idx SealerAccount
       (map (fun i => node_id (Z.of_nat i)) (seq 0 (Z.to_nat n))) None false 1000 0 true
       {| secret := replicate 32 1; pub := node_id idx |})
    ∅ 0 [] CFollower [] [].

Definition request (t c l : Z) : bytes :=
  from_ok [] (message_encode (MVoteReq (mkVoteReq (mkRaftMsg c t 41 h256_0) c l 42)) 0).
Definition heartbeat (t c : Z) : bytes :=
  from_ok [] (message_encode (MHeartBeat (mkHeartBeat (mkRaftMsg c t 41 h256_0) c [] 0)) 0).

Definition deliver (m : bytes) (from : Z) : inputs :=
  [(raft_env 3 100, IReceive m (node_id from) []); (raft_env 3 100, IWork); (raft_env 3 100, IWork)].

(** A node can vote for two candidates in one term.  A follower in term 5 grants
    candidate 1 in term 6; a heartbeat of term 5 from a leader it had not heard of sets
    its term back to 5; it then grants candidate 2 in term 6.  The node is never a
    leader, and in the cluster of three nodes both candidates reach a majority. *)
Theorem stale_heartbeat_revotes :
  exists (s : Raft unit) (l : inputs),
    votes s = [] /\ role_of s = EN_STATE_FOLLOWER /\ configured 3 s /\
    (6, 1) ∈ votes (raft_run RC2_VERSION l s) /\ (6, 2) ∈ votes (raft_run RC2_VERSION l s) /\
    isMajorityVote 2 s = true /\ calm RC2_VERSION l s = false.
Proof.
  exists (raft_node 3 0 5 3 emptyBlock), (deliver (request 6 1 3) 1 ++ deliver (heartbeat 5 1) 1 ++ deliver (request 6 2 5) 2).
  assert (votes (raft_run RC2_VERSION (deliver (request 6 1 3) 1 ++ deliver (heartbeat 5 1) 1 ++ deliver (request 6 2 5) 2)
    (raft_node 3 0 5 3 emptyBlock)) = [(6, 2); (6, 1)]) as -> by (vm_compute; reflexivity).
  split_and!; try (vm_compute; reflexivity); [done | set_solver | set_solver].
Qed.

(** Three nodes: node 1 becomes a candidate, asks, and nodes 0 and 2 answer. *)
Definition ask_all : inputs := deliver (request 6 1 3) 1.
Definition campaign : inputs := [(raft_env 3 9000, IWork); (raft_env 3 9000, IWork)].
Definition sample_cluster : list (inputs * Raft unit) :=
  [(ask_all, raft_node 3 0 5 3 emptyBlock); (campaign, raft_node 3 1 5 3 emptyBlock);
   (ask_all, raft_node 3 2 5 3 emptyBlock)].

Lemma election_safety_witness :
  length (voters RC2_VERSION 6 1 sample_cluster) = 3%nat /\ (1 : IDXTYPE) = 1.
Proof.
  split; [vm_compute; reflexivity |].
  apply (election_safety RC2_VERSION sample_cluster 6 1 1 (raft_node 3 0 5 3 emptyBlock) (raft_node 3 1 5 3 emptyBlock)).
  - repeat (apply Forall_cons; split; [split; vm_compute; reflexivity |]). apply Forall_nil_2.
  - discriminate.
  - split; reflexivity.
  - split; reflexivity.
  - vm_compute. reflexivity.
  - vm_compute. reflexivity.
Defined.

Definition unstarted : Raft unit := upd_timers (fun _ => mkTimers 0 1000 2000 0 0 0 0 0 0 0 0 0 0 0) (raft_node 3 0 0 0 emptyBlock).
Definition started : Raft unit := fst (initRaftEnv (raft_env 3 7) unstarted).

Lemma raft_state_typed_witness :
  raft_typed 1000 2000 (raft_run RC2_VERSION (ask_all ++ campaign) started).
Proof.
  apply (raft_state_typed RC2_VERSION 1000 2000 (raft_env 3 7) (ask_all ++ campaign) unstarted started); [lia | lia | |].
  - unfold constructed, votes_typed, u16, u64. cbn. unfold InvalidIndex. repeat split; lia.
  - vm_compute. reflexivity.
Defined.

Definition leader_block : EthBlock := with_header sample_header emptyBlock.
Definition waiting_leader : Raft unit :=
  upd_commit (fun c => set_commitFlags false true c) (raft_node 5 0 6 6 leader_block).
Definition leader_hb : Raft unit * result bytes := generateHeartbeat RC2_VERSION (raft_env 5 100) waiting_leader.

Lemma commit_counts_leader_twice_witness :
  exists s2, tryCommitUncommitedBlock (raft_env 5 100)
    (mkHeartBeatResp (mkRaftMsg 3 6 41 h256_0) (uncommittedHash waiting_leader)) (fst leader_hb) = (s2, Ok tt) /\
    m_commitReady (r_commit s2) = true.
Proof.
  destruct (commit_counts_leader_twice RC2_VERSION (raft_env 5 100) waiting_leader (fst leader_hb)
    (from_ok [] (snd leader_hb)) (mkHeartBeatResp (mkRaftMsg 3 6 41 h256_0) (uncommittedHash waiting_leader)))
    as (s2 & Hs & Hr & _);
    [split; reflexivity | vm_compute; reflexivity | reflexivity | reflexivity | vm_compute; reflexivity
    | vm_compute; reflexivity | vm_compute; discriminate | reflexivity | discriminate |].
  exists s2. split; [exact Hs | exact Hr].
Defined.

(** A vote request whose data are one empty string. *)
Definition bad_packet : RaftMsgPacket := mkRaftPacket 0 h512_0 0 [128] 0 [].
Definition bad_buffer : bytes := from_ok [] (raftpacket_encode bad_packet).

Lemma malformed_request_stops_witness :
  r_ctl (raft_run RC2_VERSION
    ((raft_env 3 100, IReceive bad_buffer (node_id 1) []) :: (raft_env 3 100, IWork) :: ask_all)
    (raft_node 3 0 5 3 emptyBlock)) = CStopped.
Proof.
  apply (malformed_request_stops RC2_VERSION (raft_env 3 100) bad_buffer (node_id 1) [] 1
    (mkRaftPacket 0 h512_0 0 [128] 100 []) BadRLP ask_all (raft_node 3 0 5 3 emptyBlock)); vm_compute; reflexivity.
Defined.
End Sample.
