(* ===== verification/SyncQueues.v ===== *)
(** * The queues and packets of block synchronisation

    [libsync]: the packets of [SyncMsgPacket.cpp], the batches of
    [DownloadBlocksContainer], the requests of a peer ([RspBlockReq.cpp]), the
    blocks being downloaded ([DownloadingBlockQueue.cpp]).  The order in which
    [std::priority_queue] returns equivalent elements is unspecified: the queue
    is a class with the laws the standard gives. *)

From S2P Require Import Prelude CommonData RLP PBFTMsg BlockHeader Block PBFTMsgCache PBFTReqCache PBFTState.
From S2P Require Import Transaction Receipt TxsParser BlockCodec.

Definition c_maxRequestBlocks : Z := 32.
Definition c_maxRequestShards : Z := 4.
Definition c_eachBlockDownloadingRequestTimeout : Z := 200.
Definition c_maxDownloadingBlockQueueSize : Z := c_maxRequestShards * c_maxRequestBlocks * 2.
Definition c_maxDownloadingBlockQueueBufferSize : Z := c_maxDownloadingBlockQueueSize.
Definition c_maxReceivedDownloadRequestPerPeer : Z := 8.
Definition c_respondDownloadRequestTimeout : Z := 200.
Definition c_syncPacketIDBase : Z := 1.
Definition c_maintainBlocksTimeout : Z := 5000.
Definition c_maxPayload : Z := 1024 * 1024 - 2048.

Inductive SyncPacketType : Set := StatusPacket | TransactionsPacket | BlocksPacket | ReqBlocskPacket.
Inductive SyncState : Set := Idle | Downloading.
#[export] Instance SyncState_eq_dec : EqDecision SyncState.
Proof. solve_decision. Defined.

Definition sync_code (t : SyncPacketType) : Z :=
  match t with StatusPacket => 0 | TransactionsPacket => 1 | BlocksPacket => 2 | ReqBlocskPacket => 3 end.
Definition sync_of_code (c : Z) : option SyncPacketType :=
  if c =? 0 then Some StatusPacket else if c =? 1 then Some TransactionsPacket
  else if c =? 2 then Some BlocksPacket else if c =? 3 then Some ReqBlocskPacket else None.

(** ** Packets *)
Definition prep (t : SyncPacketType) (args : Z) : list (RLPStream -> result RLPStream) :=
  [appendRaw [wrap 8 (sync_code t + c_syncPacketIDBase)] 1; appendList args].

Definition toMessage (ops : list (RLPStream -> result RLPStream)) : result bytes :=
  s ← streamAll ops emptyStream; out s.

Definition status_packet (number : Z) (genesis latest : h256) : result bytes :=
  toMessage (prep StatusPacket 3 ++ [append_unsigned number; append_data genesis false; append_data latest false]).

(** [SyncTransactionsPacket::encode]. *)
Definition transactions_packet (version : Z) (txRLPs : list bytes) : result bytes :=
  if RC2_VERSION <=? version then
    txsBytes ← txs_encode_bytes txRLPs;
    toMessage (prep TransactionsPacket 1 ++ [append_data txsBytes false])
  else
    let txsSize := wrap 32 (lenZ txRLPs) in
    toMessage (prep TransactionsPacket txsSize ++ [appendRaw (concat txRLPs) txsSize]).

(** [SyncBlocksPacket::encode]; [singleEncode] is the case of one block. *)
Definition blocks_packet (blockRLPs : list bytes) : result bytes :=
  toMessage (prep BlocksPacket (wrap 32 (lenZ blockRLPs)) ++ map (fun b => append_data b false) blockRLPs).

Definition reqblocks_packet (from size : Z) : result bytes :=
  toMessage (prep ReqBlocskPacket 2 ++ [append_unsigned from; append_unsigned size]).

Definition checkPacket (msg : bytes) : result bool :=
  if (lenZ msg <? 2) || (127 <? byteAt msg 0) then Ok false
  else
    r ← RLP_ (cropped1 1 msg) VeryStrict;
    a ← actualSize (m_data r);
    Ok (a + 1 =? lenZ msg).

(** [SyncMsgPacket::decode]: the type byte and the rest. *)
Definition syncpacket_decode (frame : bytes) : result (option (Z * RLP)) :=
  ok ← checkPacket frame;
  if negb ok then Ok None
  else
    t ← RLP_ (cropped2 0 1 frame) VeryStrict;
    ty ← toInt U32 Strict t;
    r ← RLP_ (cropped1 1 frame) VeryStrict;
    Ok (Some (wrap 8 (wrap 32 (ty - c_syncPacketIDBase)), r)).

(** ** [DownloadBlocksContainer] *)
Record Container := mkContainer { m_blockRLPsBatch : list bytes; m_currentBatchSize : Z }.
Definition emptyContainer : Container := mkContainer [] 0.

(** Each operation returns the batches it sends. *)
Definition clearBatchAndSend (c : Container) : Container * list (list bytes) :=
  match m_blockRLPsBatch c with
  | [] => (c, [])
  | batch => (emptyContainer, [batch])
  end.

Definition batchAndSend (blockRLP : bytes) (c : Container) : Container * list (list bytes) :=
  if c_maxPayload <? lenZ blockRLP then (c, [[blockRLP]])
  else
    let '(c, sent) := if c_maxPayload <? m_currentBatchSize c + lenZ blockRLP then clearBatchAndSend c else (c, []) in
    (mkContainer (m_blockRLPsBatch c ++ [blockRLP]) (m_currentBatchSize c + lenZ blockRLP), sent).

Fixpoint batchAll (rlps : list bytes) (c : Container) : Container * list (list bytes) :=
  match rlps with
  | [] => (c, [])
  | b :: r => let '(c, s1) := batchAndSend b c in let '(c, s2) := batchAll r c in (c, s1 ++ s2)
  end.

(** ** [std::priority_queue] *)
Class PriorityQueue {A : Type} (after : A -> A -> bool) := {
  pq_top : list A -> option A;
  pq_push : A -> list A -> list A;
  pq_pop : list A -> list A;
  pq_push_perm : forall x l, Permutation (pq_push x l) (x :: l);
  pq_top_none : forall l, pq_top l = None <-> l = [];
  pq_top_first : forall l x, pq_top l = Some x -> forall y, y ∈ l -> after x y = false;
  pq_pop_perm : forall l x, pq_top l = Some x -> Permutation l (x :: pq_pop l)
}.

(** ** [DownloadRequestQueue] *)
Record DownloadRequest := mkReq { rq_fromNumber : Z; rq_size : Z }.

Definition RequestQueueCmp (a b : DownloadRequest) : bool :=
  if rq_fromNumber a =? rq_fromNumber b then rq_size a <? rq_size b else rq_fromNumber b <? rq_fromNumber a.

(** The queue, and whether [x_canPush] is held. *)
Record DownloadRequestQueue := mkReqQueue { m_reqQueue : list DownloadRequest; rq_locked : bool }.
Definition emptyReqQueue : DownloadRequestQueue := mkReqQueue [] false.

Section Requests.
Context `{PQ : !PriorityQueue RequestQueueCmp}.

Definition reqQueue_push (fromNumber size : Z) (q : DownloadRequestQueue) : DownloadRequestQueue :=
  if rq_locked q then q
  else if c_maxReceivedDownloadRequestPerPeer <=? lenZ (m_reqQueue q) then q
  else mkReqQueue (pq_push (mkReq fromNumber size) (m_reqQueue q)) false.

Definition enablePush (q : DownloadRequestQueue) : DownloadRequestQueue := mkReqQueue (m_reqQueue q) false.
Definition disablePush (q : DownloadRequestQueue) : DownloadRequestQueue := mkReqQueue (m_reqQueue q) true.

(** The loop that merges the requests at the top; every round pops one. *)
Fixpoint merge_tops (fuel : nat) (fromNumber size : Z) (l : list DownloadRequest) : Z * list DownloadRequest :=
  match fuel, pq_top l with
  | S f, Some top =>
      if rq_fromNumber top <=? swrap 64 (fromNumber + size) then
        merge_tops f fromNumber (Z.max size (swrap 64 (rq_fromNumber top + rq_size top - fromNumber))) (pq_pop l)
      else (size, l)
  | _, _ => (size, l)
  end.

Definition topAndPop (q : DownloadRequestQueue) : DownloadRequest * DownloadRequestQueue :=
  match pq_top (m_reqQueue q) with
  | None => (mkReq 0 0, q)
  | Some top =>
      let '(size, l) := merge_tops (length (m_reqQueue q)) (rq_fromNumber top) 0 (m_reqQueue q) in
      (mkReq (rq_fromNumber top) size, mkReqQueue l (rq_locked q))
  end.
End Requests.

(** ** [DownloadingBlockQueue] *)
Definition blockNumber (b : EthBlock) : Z := m_number (b_header b).
Definition BlockQueueCmp (a b : EthBlock) : bool := blockNumber b <? blockNumber a.

Record DownloadingBlockQueue := mkBlockQueue { bq_blocks : list EthBlock; bq_buffer : list bytes }.
Definition emptyBlockQueue : DownloadingBlockQueue := mkBlockQueue [] [].

Section Blocks.
Context `{Crypto} `{Recover} `{PQ : !PriorityQueue BlockQueueCmp} (version : Z).

(** [push(RLP const&)]: the shard is kept as it came. *)
Definition bq_push (r : RLP) (q : DownloadingBlockQueue) : DownloadingBlockQueue :=
  if c_maxDownloadingBlockQueueBufferSize <=? lenZ (bq_buffer q) then q
  else mkBlockQueue (bq_blocks q) (bq_buffer q ++ [m_data r]).

(** [push(BlockPtrVec)]. *)
Definition bq_push_blocks (bs : list EthBlock) (q : DownloadingBlockQueue) : result DownloadingBlockQueue :=
  es ← mapM_result (fun b => fst <$> block_encode version b) bs;
  d ← toMessage (appendList (lenZ bs) :: map (fun e => append_data e false) es);
  r ← RLP_ d VeryStrict;
  Ok (bq_push r q).

Definition bq_empty (q : DownloadingBlockQueue) : bool :=
  match bq_blocks q, bq_buffer q with [], [] => true | _, _ => false end.
Definition bq_size (q : DownloadingBlockQueue) : Z := lenZ (bq_buffer q) + lenZ (bq_blocks q).

Definition bq_pop (q : DownloadingBlockQueue) : DownloadingBlockQueue :=
  match bq_blocks q with [] => q | _ => mkBlockQueue (pq_pop (bq_blocks q)) (bq_buffer q) end.
Definition bq_top (q : DownloadingBlockQueue) : option EthBlock := pq_top (bq_blocks q).
Definition clearQueue (q : DownloadingBlockQueue) : DownloadingBlockQueue := mkBlockQueue [] (bq_buffer q).
Definition bq_clear (q : DownloadingBlockQueue) : DownloadingBlockQueue := emptyBlockQueue.

Definition isNewerBlock (chainNumber : Z) (b : EthBlock) : bool := negb (blockNumber b <=? chainNumber).

(** The items of a shard from [i] on; [catch (std::exception&)] goes on with the
    next one. *)
Fixpoint flush_items (chainNumber : Z) (n : nat) (i : Z) (r : RLP) (blocks : list EthBlock) : result (list EthBlock) :=
  match n with
  | O => Ok blocks
  | S n' =>
      match index i r with
      | Throw UndefinedBehaviour => Throw UndefinedBehaviour
      | Throw _ => flush_items chainNumber n' (i + 1) r blocks
      | Ok (e, r) =>
          match (bs ← toBytes LaissezFaire e; block_of_bytes version bs CheckAll false false) with
          | Throw UndefinedBehaviour => Throw UndefinedBehaviour
          | Throw _ => flush_items chainNumber n' (i + 1) r blocks
          | Ok b =>
              flush_items chainNumber n' (i + 1) r
                (if isNewerBlock chainNumber b then pq_push b blocks else blocks)
          end
      end
  end.

(** Shards after the queue is full are dropped.  An exception of [itemCount] leaves
    the function. *)
Fixpoint flush_shards (chainNumber : Z) (shards : list bytes) (blocks : list EthBlock) : list EthBlock * result unit :=
  match shards with
  | [] => (blocks, Ok tt)
  | d :: rest =>
      if c_maxDownloadingBlockQueueSize <=? lenZ blocks then (blocks, Ok tt)
      else
        match (r ← RLP_ d VeryStrict; n ← itemCount r; flush_items chainNumber (Z.to_nat (wrap 32 n)) 0 r blocks) with
        | Throw e => (blocks, Throw e)
        | Ok blocks => flush_shards chainNumber rest blocks
        end
  end.

Definition flushBufferToQueue (chainNumber : Z) (q : DownloadingBlockQueue) : DownloadingBlockQueue * result unit :=
  let '(blocks, r) := flush_shards chainNumber (bq_buffer q) (bq_blocks q) in
  (mkBlockQueue blocks [], r).

Definition clearFullQueueIfNotHas (number : Z) (q : DownloadingBlockQueue) : DownloadingBlockQueue :=
  if (lenZ (bq_blocks q) =? c_maxDownloadingBlockQueueSize)
     && (match bq_top q with Some b => number <? blockNumber b | None => false end)
  then clearQueue q else q.
End Blocks.
