(* ===== verification/SyncMaster.v ===== *)
(** * Block synchronisation

    [libsync/SyncMaster.cpp], [SyncMsgEngine.cpp], [SyncStatus.cpp] and
    [DownloadingTxsQueue.cpp]: the peers and what they have, requests for the
    missing blocks, the blocks that arrive, the transactions that are passed
    on.  A round of [doWork] and the handling of one message are steps; the
    block chain, the verifier and the check of the consensus engine are a
    record of operations on an abstract chain.  [utcTime] and [rand] read lists
    of numbers.  An exception that escapes a round stops the worker. *)

From S2P Require Import Prelude CommonData RLP PBFTMsg BlockHeader Block PBFTMsgCache PBFTReqCache PBFTState PBFTEngine.
From S2P Require Import StateMonad Transaction NonceCheck TxPool Receipt TxsParser BlockCodec SyncQueues.

Definition c_maxSendTransactions : Z := 1000.

(** What the module reads and calls of the chain, the block verifier and the
    consensus engine.  A commit that succeeds changes the chain. *)
Record ChainOps {C Ctx : Type} := mkChainOps {
  ch_number : C -> Z;
  ch_numberHash : C -> Z -> h256;
  ch_getBlockByNumber : C -> Z -> option EthBlock;
  ch_getBlockRLPByNumber : C -> Z -> option bytes;
  ch_sealerList : C -> list h512;
  ch_observerList : C -> list h512;
  ch_nonces : C -> NonceChain;
  ch_executeBlock : C -> EthBlock -> BlockInfo -> result (EthBlock * Ctx);
  (** [None] when the result is not [CommitResult::OK] *)
  ch_commitBlock : C -> EthBlock -> Ctx -> option C;
  (** [fp_isConsensusOk] *)
  ch_isConsensusOk : C -> EthBlock -> bool
}.
Arguments ChainOps : clear implicits.

Record SyncPeerInfo := mkPeerInfo { pi_nodeId : NodeID; pi_number : Z; pi_genesisHash : h256; pi_latestHash : h256 }.

Record SyncPeerStatus := mkPeer {
  sp_number : Z;
  sp_genesisHash : h256;
  sp_latestHash : h256;
  sp_reqQueue : DownloadRequestQueue;
  sp_isSealer : bool
}.

Definition newPeer (i : SyncPeerInfo) : SyncPeerStatus :=
  mkPeer (pi_number i) (pi_genesisHash i) (pi_latestHash i) emptyReqQueue false.
Definition peer_update (i : SyncPeerInfo) (p : SyncPeerStatus) : SyncPeerStatus :=
  mkPeer (pi_number i) (pi_genesisHash i) (pi_latestHash i) (sp_reqQueue p) (sp_isSealer p).
Definition set_reqQueue (q : DownloadRequestQueue) (p : SyncPeerStatus) : SyncPeerStatus :=
  mkPeer (sp_number p) (sp_genesisHash p) (sp_latestHash p) q (sp_isSealer p).
Definition set_isSealer (b : bool) (p : SyncPeerStatus) : SyncPeerStatus :=
  mkPeer (sp_number p) (sp_genesisHash p) (sp_latestHash p) (sp_reqQueue p) b.

Section State.
Context {C : Type}.

Record SyncMaster := mkSyncMaster {
  sy_knownHighestNumber : Z;
  sy_knownLatestHash : h256;
  sy_state : SyncState;
  sy_peers : gmap h512 SyncPeerStatus;
  sy_bq : DownloadingBlockQueue;
  sy_txQueue : list (bytes * NodeID);
  sy_maxRequestNumber : Z;
  sy_lastDownloadingRequestTime : Z;
  sy_currentSealingNumber : Z;
  sy_newTransactions : bool;
  sy_newBlocks : bool;
  sy_maintainBlocksTimeout : Z;
  sy_needMaintainTransactions : bool;
  sy_needCheckPacketInGroup : bool;
  sy_txPool : @TxPool TransactionReceipt;
  sy_chain : C;
  sy_clock : list Z;
  sy_rand : list Z;
  sy_sent : list (NodeID * bytes);
  (** ghost: the chain, the block and the executed block of every commit *)
  sy_committed : list (C * EthBlock * EthBlock);
  sy_working : bool
}.

Definition set_sy_knownHighestNumber (x : Z) (s : SyncMaster) : SyncMaster :=
  mkSyncMaster x (sy_knownLatestHash s) (sy_state s) (sy_peers s) (sy_bq s) (sy_txQueue s) (sy_maxRequestNumber s)
    (sy_lastDownloadingRequestTime s) (sy_currentSealingNumber s) (sy_newTransactions s) (sy_newBlocks s)
    (sy_maintainBlocksTimeout s) (sy_needMaintainTransactions s) (sy_needCheckPacketInGroup s) (sy_txPool s)
    (sy_chain s) (sy_clock s) (sy_rand s) (sy_sent s) (sy_committed s) (sy_working s).
Definition set_sy_knownLatestHash (x : h256) (s : SyncMaster) : SyncMaster :=
  mkSyncMaster (sy_knownHighestNumber s) x (sy_state s) (sy_peers s) (sy_bq s) (sy_txQueue s) (sy_maxRequestNumber s)
    (sy_lastDownloadingRequestTime s) (sy_currentSealingNumber s) (sy_newTransactions s) (sy_newBlocks s)
    (sy_maintainBlocksTimeout s) (sy_needMaintainTransactions s) (sy_needCheckPacketInGroup s) (sy_txPool s)
    (sy_chain s) (sy_clock s) (sy_rand s) (sy_sent s) (sy_committed s) (sy_working s).
Definition set_sy_state (x : SyncState) (s : SyncMaster) : SyncMaster :=
  mkSyncMaster (sy_knownHighestNumber s) (sy_knownLatestHash s) x (sy_peers s) (sy_bq s) (sy_txQueue s)
    (sy_maxRequestNumber s) (sy_lastDownloadingRequestTime s) (sy_currentSealingNumber s) (sy_newTransactions s)
    (sy_newBlocks s) (sy_maintainBlocksTimeout s) (sy_needMaintainTransactions s) (sy_needCheckPacketInGroup s)
    (sy_txPool s) (sy_chain s) (sy_clock s) (sy_rand s) (sy_sent s) (sy_committed s) (sy_working s).
Definition set_sy_peers (x : gmap h512 SyncPeerStatus) (s : SyncMaster) : SyncMaster :=
  mkSyncMaster (sy_knownHighestNumber s) (sy_knownLatestHash s) (sy_state s) x (sy_bq s) (sy_txQueue s)
    (sy_maxRequestNumber s) (sy_lastDownloadingRequestTime s) (sy_currentSealingNumber s) (sy_newTransactions s)
    (sy_newBlocks s) (sy_maintainBlocksTimeout s) (sy_needMaintainTransactions s) (sy_needCheckPacketInGroup s)
    (sy_txPool s) (sy_chain s) (sy_clock s) (sy_rand s) (sy_sent s) (sy_committed s) (sy_working s).
Definition set_sy_bq (x : DownloadingBlockQueue) (s : SyncMaster) : SyncMaster :=
  mkSyncMaster (sy_knownHighestNumber s) (sy_knownLatestHash s) (sy_state s) (sy_peers s) x (sy_txQueue s)
    (sy_maxRequestNumber s) (sy_lastDownloadingRequestTime s) (sy_currentSealingNumber s) (sy_newTransactions s)
    (sy_newBlocks s) (sy_maintainBlocksTimeout s) (sy_needMaintainTransactions s) (sy_needCheckPacketInGroup s)
    (sy_txPool s) (sy_chain s) (sy_clock s) (sy_rand s) (sy_sent s) (sy_committed s) (sy_working s).
Definition set_sy_txQueue (x : list (bytes * NodeID)) (s : SyncMaster) : SyncMaster :=
  mkSyncMaster (sy_knownHighestNumber s) (sy_knownLatestHash s) (sy_state s) (sy_peers s) (sy_bq s) x
    (sy_maxRequestNumber s) (sy_lastDownloadingRequestTime s) (sy_currentSealingNumber s) (sy_newTransactions s)
    (sy_newBlocks s) (sy_maintainBlocksTimeout s) (sy_needMaintainTransactions s) (sy_needCheckPacketInGroup s)
    (sy_txPool s) (sy_chain s) (sy_clock s) (sy_rand s) (sy_sent s) (sy_committed s) (sy_working s).
Definition set_sy_maxRequestNumber (x : Z) (s : SyncMaster) : SyncMaster :=
  mkSyncMaster (sy_knownHighestNumber s) (sy_knownLatestHash s) (sy_state s) (sy_peers s) (sy_bq s) (sy_txQueue s) x
    (sy_lastDownloadingRequestTime s) (sy_currentSealingNumber s) (sy_newTransactions s) (sy_newBlocks s)
    (sy_maintainBlocksTimeout s) (sy_needMaintainTransactions s) (sy_needCheckPacketInGroup s) (sy_txPool s)
    (sy_chain s) (sy_clock s) (sy_rand s) (sy_sent s) (sy_committed s) (sy_working s).
Definition set_sy_lastDownloadingRequestTime (x : Z) (s : SyncMaster) : SyncMaster :=
  mkSyncMaster (sy_knownHighestNumber s) (sy_knownLatestHash s) (sy_state s) (sy_peers s) (sy_bq s) (sy_txQueue s)
    (sy_maxRequestNumber s) x (sy_currentSealingNumber s) (sy_newTransactions s) (sy_newBlocks s)
    (sy_maintainBlocksTimeout s) (sy_needMaintainTransactions s) (sy_needCheckPacketInGroup s) (sy_txPool s)
    (sy_chain s) (sy_clock s) (sy_rand s) (sy_sent s) (sy_committed s) (sy_working s).
Definition set_sy_currentSealingNumber (x : Z) (s : SyncMaster) : SyncMaster :=
  mkSyncMaster (sy_knownHighestNumber s) (sy_knownLatestHash s) (sy_state s) (sy_peers s) (sy_bq s) (sy_txQueue s)
    (sy_maxRequestNumber s) (sy_lastDownloadingRequestTime s) x (sy_newTransactions s) (sy_newBlocks s)
    (sy_maintainBlocksTimeout s) (sy_needMaintainTransactions s) (sy_needCheckPacketInGroup s) (sy_txPool s)
    (sy_chain s) (sy_clock s) (sy_rand s) (sy_sent s) (sy_committed s) (sy_working s).
Definition set_sy_newTransactions (x : bool) (s : SyncMaster) : SyncMaster :=
  mkSyncMaster (sy_knownHighestNumber s) (sy_knownLatestHash s) (sy_state s) (sy_peers s) (sy_bq s) (sy_txQueue s)
    (sy_maxRequestNumber s) (sy_lastDownloadingRequestTime s) (sy_currentSealingNumber s) x (sy_newBlocks s)
    (sy_maintainBlocksTimeout s) (sy_needMaintainTransactions s) (sy_needCheckPacketInGroup s) (sy_txPool s)
    (sy_chain s) (sy_clock s) (sy_rand s) (sy_sent s) (sy_committed s) (sy_working s).
Definition set_sy_newBlocks (x : bool) (s : SyncMaster) : SyncMaster :=
  mkSyncMaster (sy_knownHighestNumber s) (sy_knownLatestHash s) (sy_state s) (sy_peers s) (sy_bq s) (sy_txQueue s)
    (sy_maxRequestNumber s) (sy_lastDownloadingRequestTime s) (sy_currentSealingNumber s) (sy_newTransactions s) x
    (sy_maintainBlocksTimeout s) (sy_needMaintainTransactions s) (sy_needCheckPacketInGroup s) (sy_txPool s)
    (sy_chain s) (sy_clock s) (sy_rand s) (sy_sent s) (sy_committed s) (sy_working s).
Definition set_sy_maintainBlocksTimeout (x : Z) (s : SyncMaster) : SyncMaster :=
  mkSyncMaster (sy_knownHighestNumber s) (sy_knownLatestHash s) (sy_state s) (sy_peers s) (sy_bq s) (sy_txQueue s)
    (sy_maxRequestNumber s) (sy_lastDownloadingRequestTime s) (sy_currentSealingNumber s) (sy_newTransactions s)
    (sy_newBlocks s) x (sy_needMaintainTransactions s) (sy_needCheckPacketInGroup s) (sy_txPool s) (sy_chain s)
    (sy_clock s) (sy_rand s) (sy_sent s) (sy_committed s) (sy_working s).
Definition set_sy_needMaintainTransactions (x : bool) (s : SyncMaster) : SyncMaster :=
  mkSyncMaster (sy_knownHighestNumber s) (sy_knownLatestHash s) (sy_state s) (sy_peers s) (sy_bq s) (sy_txQueue s)
    (sy_maxRequestNumber s) (sy_lastDownloadingRequestTime s) (sy_currentSealingNumber s) (sy_newTransactions s)
    (sy_newBlocks s) (sy_maintainBlocksTimeout s) x (sy_needCheckPacketInGroup s) (sy_txPool s) (sy_chain s)
    (sy_clock s) (sy_rand s) (sy_sent s) (sy_committed s) (sy_working s).
Definition set_sy_needCheckPacketInGroup (x : bool) (s : SyncMaster) : SyncMaster :=
  mkSyncMaster (sy_knownHighestNumber s) (sy_knownLatestHash s) (sy_state s) (sy_peers s) (sy_bq s) (sy_txQueue s)
    (sy_maxRequestNumber s) (sy_lastDownloadingRequestTime s) (sy_currentSealingNumber s) (sy_newTransactions s)
    (sy_newBlocks s) (sy_maintainBlocksTimeout s) (sy_needMaintainTransactions s) x (sy_txPool s) (sy_chain s)
    (sy_clock s) (sy_rand s) (sy_sent s) (sy_committed s) (sy_working s).
Definition set_sy_txPool (x : @TxPool TransactionReceipt) (s : SyncMaster) : SyncMaster :=
  mkSyncMaster (sy_knownHighestNumber s) (sy_knownLatestHash s) (sy_state s) (sy_peers s) (sy_bq s) (sy_txQueue s)
    (sy_maxRequestNumber s) (sy_lastDownloadingRequestTime s) (sy_currentSealingNumber s) (sy_newTransactions s)
    (sy_newBlocks s) (sy_maintainBlocksTimeout s) (sy_needMaintainTransactions s) (sy_needCheckPacketInGroup s) x
    (sy_chain s) (sy_clock s) (sy_rand s) (sy_sent s) (sy_committed s) (sy_working s).
Definition set_sy_chain (x : C) (s : SyncMaster) : SyncMaster :=
  mkSyncMaster (sy_knownHighestNumber s) (sy_knownLatestHash s) (sy_state s) (sy_peers s) (sy_bq s) (sy_txQueue s)
    (sy_maxRequestNumber s) (sy_lastDownloadingRequestTime s) (sy_currentSealingNumber s) (sy_newTransactions s)
    (sy_newBlocks s) (sy_maintainBlocksTimeout s) (sy_needMaintainTransactions s) (sy_needCheckPacketInGroup s)
    (sy_txPool s) x (sy_clock s) (sy_rand s) (sy_sent s) (sy_committed s) (sy_working s).
Definition set_sy_clock (x : list Z) (s : SyncMaster) : SyncMaster :=
  mkSyncMaster (sy_knownHighestNumber s) (sy_knownLatestHash s) (sy_state s) (sy_peers s) (sy_bq s) (sy_txQueue s)
    (sy_maxRequestNumber s) (sy_lastDownloadingRequestTime s) (sy_currentSealingNumber s) (sy_newTransactions s)
    (sy_newBlocks s) (sy_maintainBlocksTimeout s) (sy_needMaintainTransactions s) (sy_needCheckPacketInGroup s)
    (sy_txPool s) (sy_chain s) x (sy_rand s) (sy_sent s) (sy_committed s) (sy_working s).
Definition set_sy_rand (x : list Z) (s : SyncMaster) : SyncMaster :=
  mkSyncMaster (sy_knownHighestNumber s) (sy_knownLatestHash s) (sy_state s) (sy_peers s) (sy_bq s) (sy_txQueue s)
    (sy_maxRequestNumber s) (sy_lastDownloadingRequestTime s) (sy_currentSealingNumber s) (sy_newTransactions s)
    (sy_newBlocks s) (sy_maintainBlocksTimeout s) (sy_needMaintainTransactions s) (sy_needCheckPacketInGroup s)
    (sy_txPool s) (sy_chain s) (sy_clock s) x (sy_sent s) (sy_committed s) (sy_working s).
Definition set_sy_sent (x : list (NodeID * bytes)) (s : SyncMaster) : SyncMaster :=
  mkSyncMaster (sy_knownHighestNumber s) (sy_knownLatestHash s) (sy_state s) (sy_peers s) (sy_bq s) (sy_txQueue s)
    (sy_maxRequestNumber s) (sy_lastDownloadingRequestTime s) (sy_currentSealingNumber s) (sy_newTransactions s)
    (sy_newBlocks s) (sy_maintainBlocksTimeout s) (sy_needMaintainTransactions s) (sy_needCheckPacketInGroup s)
    (sy_txPool s) (sy_chain s) (sy_clock s) (sy_rand s) x (sy_committed s) (sy_working s).
Definition set_sy_committed (x : list (C * EthBlock * EthBlock)) (s : SyncMaster) : SyncMaster :=
  mkSyncMaster (sy_knownHighestNumber s) (sy_knownLatestHash s) (sy_state s) (sy_peers s) (sy_bq s) (sy_txQueue s)
    (sy_maxRequestNumber s) (sy_lastDownloadingRequestTime s) (sy_currentSealingNumber s) (sy_newTransactions s)
    (sy_newBlocks s) (sy_maintainBlocksTimeout s) (sy_needMaintainTransactions s) (sy_needCheckPacketInGroup s)
    (sy_txPool s) (sy_chain s) (sy_clock s) (sy_rand s) (sy_sent s) x (sy_working s).
Definition set_sy_working (x : bool) (s : SyncMaster) : SyncMaster :=
  mkSyncMaster (sy_knownHighestNumber s) (sy_knownLatestHash s) (sy_state s) (sy_peers s) (sy_bq s) (sy_txQueue s)
    (sy_maxRequestNumber s) (sy_lastDownloadingRequestTime s) (sy_currentSealingNumber s) (sy_newTransactions s)
    (sy_newBlocks s) (sy_maintainBlocksTimeout s) (sy_needMaintainTransactions s) (sy_needCheckPacketInGroup s)
    (sy_txPool s) (sy_chain s) (sy_clock s) (sy_rand s) (sy_sent s) (sy_committed s) x.
End State.
Arguments SyncMaster : clear implicits.

Section Sync.
Context `{Crypto} `{Recover} `{PR : !PriorityQueue RequestQueueCmp} `{PB : !PriorityQueue BlockQueueCmp}.
Context {C Ctx : Type} (version : Z) (chain : ChainOps C Ctx) (nodeId : NodeID) (genesisHash : h256).
Abbreviation St := (SyncMaster C).
Implicit Types s : St.

(** ** Steps that may throw *)
Abbreviation SY := (SE St).
Abbreviation yget := (se_get (St := St)).
Abbreviation ymod := (se_mod (St := St)).
Abbreviation ylift := (se_lift (St := St)).
Abbreviation ywhen := (se_when (St := St)).
Abbreviation ytry := (se_try (St := St)).

(** The next reading; the last one is kept. *)
Definition utcTime : SY Z := fun s =>
  match sy_clock s with
  | [] => (s, Ok 0)
  | [t] => (s, Ok t)
  | t :: r => (set_sy_clock r s, Ok t)
  end.
Definition rand : SY Z := fun s => (set_sy_rand (tail (sy_rand s)) s, Ok (default 0 (head (sy_rand s)))).

Definition asyncSend (id : NodeID) (msg : result bytes) : SY unit :=
  m ← ylift msg; ymod (fun s => set_sy_sent ((id, m) :: sy_sent s) s).

(** ** [SyncMasterStatus] *)
Definition hasPeer (id : NodeID) s : bool := bool_decide (is_Some (sy_peers s !! id)).
(** In the order of the [std::map]. *)
Definition peers s : list NodeID := sort_ids (map fst (map_to_list (sy_peers s))).
Definition peerStatus (id : NodeID) s : option SyncPeerStatus := sy_peers s !! id.
Definition upd_peer (id : NodeID) (f : SyncPeerStatus -> SyncPeerStatus) s : St := set_sy_peers (alter f id (sy_peers s)) s.

Definition newSyncPeerStatus (i : SyncPeerInfo) : SY bool :=
  s ← yget;
  if hasPeer (pi_nodeId i) s then mret false
  else ymod (fun s => set_sy_peers (<[pi_nodeId i := newPeer i]> (sy_peers s)) s);; mret true.

Definition deletePeer (id : NodeID) s : St := set_sy_peers (delete id (sy_peers s)) s.

Definition foreachPeer s : list (NodeID * SyncPeerStatus) :=
  omap (fun id => (fun p => (id, p)) <$> sy_peers s !! id) (peers s).

(** [swap(nodeIds[i], nodeIds[select])]. *)
Definition swap_ids (i j : nat) (l : list NodeID) : list NodeID :=
  match l !! i, l !! j with Some x, Some y => <[j := x]> (<[i := y]> l) | _, _ => l end.

Fixpoint shuffle (i : nat) (l : list NodeID) : SY (list NodeID) :=
  match i with
  | O => mret l
  | S i' => r ← rand; shuffle i' (swap_ids i (Z.to_nat (r mod Z.of_nat (S i))) l)
  end.

(** The order in which [foreachPeerRandom] visits. *)
Definition random_order : SY (list NodeID) := s ← yget; shuffle (length (peers s) - 1) (peers s).

(** [rand() % allowed.size()], then moved from one list to the other. *)
Fixpoint choose (n : nat) (chosen allowed : list NodeID) : SY (list NodeID) :=
  match n with
  | O => mret chosen
  | S n' =>
      match allowed with
      | [] => mret chosen
      | _ =>
          r ← rand;
          let k := Z.to_nat (r mod lenZ allowed) in
          choose n' (chosen ++ [nth k allowed []]) (take k allowed ++ drop (S k) allowed)
      end
  end.

Definition randomSelection (percent : Z) (allow : NodeID -> SyncPeerStatus -> bool) : SY (list NodeID) :=
  s ← yget;
  let all := foreachPeer s in
  let allowed := map fst (List.filter (fun kp => allow (fst kp) (snd kp)) all) in
  choose (Z.to_nat ((lenZ all * percent + 99) / 100)) [] allowed.

Definition randomSelectionSize (maxChosen : Z) (allow : NodeID -> SyncPeerStatus -> bool) : SY (list NodeID) :=
  s ← yget;
  let allowed := map fst (List.filter (fun kp => allow (fst kp) (snd kp)) (foreachPeer s)) in
  choose (Z.to_nat maxChosen) [] allowed.

(** ** Notifications *)
Definition noteSealingBlockNumber (n : Z) s : St := set_sy_currentSealingNumber n s.
Definition noteNewTransactions s : St := set_sy_newTransactions true s.
Definition noteNewBlocks s : St := set_sy_newBlocks true s.
Definition isSyncing s : bool := bool_decide (sy_state s <> Idle).
Definition isFarSyncing s : bool := 10 <? sy_knownHighestNumber s - ch_number chain (sy_chain s).
Definition noteDownloadingBegin s : St := if bool_decide (sy_state s = Idle) then set_sy_state Downloading s else s.
Definition noteDownloadingFinish s : St := if bool_decide (sy_state s = Downloading) then set_sy_state Idle s else s.

(** ** Transactions *)
Definition number s : Z := ch_number chain (sy_chain s).

(** The peers a transaction is passed on to: sealers that are not known to have it. *)
Definition wants (h : h256) s (id : NodeID) (p : SyncPeerStatus) : bool :=
  sp_isSealer p && negb (isTransactionKnownBy h nodeId (sy_txPool s)) && negb (isTransactionKnownBy h id (sy_txPool s)).

Definition mark_known (h : h256) (id : NodeID) s : St := set_sy_txPool (setTransactionIsKnownBy id (sy_txPool s) h) s.

(** The loop over the transactions: the first one nobody wants ends
    [maintainTransactions]. *)
Fixpoint assign_txs (i : nat) (ts : list Transaction) (pt : gmap h512 (list nat)) : SY (option (gmap h512 (list nat))) :=
  match ts with
  | [] => mret (Some pt)
  | t :: ts' =>
      s ← yget;
      let h := txHash version t in
      let percent := if isTransactionKnownBySomeone h (sy_txPool s) then 25 else 100 in
      ps ← randomSelection percent (wants h s);
      match ps with
      | [] => mret None
      | _ =>
          ymod (mark_known h nodeId);;
          ymod (fun s => foldl (fun s p => mark_known h p s) s ps);;
          assign_txs (S i) ts' (foldl (fun m p => <[p := default [] (m !! p) ++ [i]]> m) pt ps)
      end
  end.

Fixpoint send_txs (ts : list Transaction) (pt : gmap h512 (list nat)) (ids : list NodeID) : SY unit :=
  match ids with
  | [] => mret tt
  | id :: ids' =>
      match default [] (pt !! id) with
      | [] => mret tt
      | ix =>
          rlps ← ylift (mapM_result (fun i => tx_rlp version WithSignature (nth i ts emptyTx)) ix);
          asyncSend id (transactions_packet version rlps)
      end;;
      send_txs ts pt ids'
  end.

Definition maintainTransactions : SY unit :=
  s ← yget;
  let ts := topTransactionsCondition version c_maxSendTransactions nodeId (sy_txPool s) in
  pt ← assign_txs 0 ts ∅;
  match pt with
  | None => mret tt
  | Some pt => ids ← random_order; send_txs ts pt ids
  end.

(** [DownloadingTxsQueue]: the transactions of one shard, decoded. *)
Definition decode_shard (txsBytes : bytes) : result (list Transaction) :=
  if RC2_VERSION <=? version then
    r ← RLP_ txsBytes VeryStrict;
    '(e, _) ← index 0 r;
    bs ← toBytesConstRef LaissezFaire e;
    txs_decode version [] bs CheckNone true
  else
    r ← RLP_ txsBytes VeryStrict;
    n ← itemCount r;
    decode_items (tx_decode_rlp version CheckAll) 0 (resize emptyTx (Z.to_nat (wrap 32 n)) []) r.

(** The senders are recovered before the import, in parallel. *)
Definition presend (p : @TxPool TransactionReceipt) (t : Transaction) : result Transaction :=
  '(h, t) ← tx_sha3 version WithSignature t;
  if txExists h p then Ok t else snd <$> sender version t.

(** A transaction that throws is skipped. *)
Definition import_one (t : Transaction) (knownTxHash : list h256) : SY (list h256) :=
  now ← utcTime;
  s ← yget;
  match pool_import version now t (sy_txPool s) with
  | Throw UndefinedBehaviour => ylift (Throw UndefinedBehaviour)
  | Throw _ => mret knownTxHash
  | Ok (r, t, p) =>
      ymod (set_sy_txPool p);;
      ywhen (bool_decide (r = Success)) (ymod noteNewTransactions);;
      mret (knownTxHash ++ [txHash version t])
  end.

Fixpoint import_txs (ts : list Transaction) (knownTxHash : list h256) : SY (list h256) :=
  match ts with
  | [] => mret knownTxHash
  | t :: ts' => k ← import_one t knownTxHash; import_txs ts' k
  end.

Fixpoint pop_shards (shards : list (bytes * NodeID)) : SY unit :=
  match shards with
  | [] => mret tt
  | (d, from) :: rest =>
      ts ← ylift (decode_shard d);
      s ← yget;
      ts ← ylift (mapM_result (presend (sy_txPool s)) ts);
      k ← import_txs ts [];
      ymod (fun s => set_sy_txPool (setTransactionsAreKnownBy k from (sy_txPool s)) s);;
      pop_shards rest
  end.

Definition pop2TxPool : SY unit :=
  s ← yget;
  ymod (set_sy_txQueue []);;
  if isFull (sy_txPool s) then mret tt else pop_shards (sy_txQueue s).

(** ** Status *)
Fixpoint send_status (n : Z) (hash : h256) (ids : list NodeID) : SY unit :=
  match ids with
  | [] => mret tt
  | id :: r => asyncSend id (status_packet n genesisHash hash);; send_status n hash r
  end.

Definition maintainBlocks : SY unit :=
  s ← yget;
  (* [||] reads the clock only when no block is new *)
  go ← (if sy_newBlocks s then mret true else t ← utcTime; mret (sy_maintainBlocksTimeout s <? t));
  ywhen go (
    ymod (set_sy_newBlocks false);;
    t ← utcTime;
    ymod (set_sy_maintainBlocksTimeout (t + c_maintainBlocksTimeout));;
    send_status (number s) (ch_numberHash chain (sy_chain s) (number s)) (map fst (foreachPeer s))).

(** The highest number a peer reports, and the hash of the first that reports it. *)
Definition best_peer (ps : list (NodeID * SyncPeerStatus)) : Z * h256 :=
  foldl (fun acc kp => if fst acc <? sp_number (snd kp) then (sp_number (snd kp), sp_latestHash (snd kp)) else acc)
    (0, h256_0) ps.

(** ** Requests *)

(** One pass of [foreachPeerRandom] over [ids]; [shard] counts the requests made. *)
Fixpoint request_peers (current maxReq shardNumber : Z) (ids : list NodeID) (shard : Z) (found : bool)
    : SY (Z * bool) :=
  match ids with
  | [] => mret (shard, found)
  | id :: r =>
      s ← yget;
      match sy_peers s !! id with
      | None => request_peers current maxReq shardNumber r shard found
      | Some p =>
          let from := current + 1 + shard * c_maxRequestBlocks in
          let to := Z.min (from + c_maxRequestBlocks - 1) maxReq in
          if (sy_knownHighestNumber s <=? 0) || negb (sp_number p =? sy_knownHighestNumber s) || (sp_number p <? to)
          then request_peers current maxReq shardNumber r shard found
          else
            asyncSend id (reqblocks_packet from (wrap 32 (to - from + 1)));;
            ymod (fun s => set_sy_maxRequestNumber (Z.max (sy_maxRequestNumber s) to) s);;
            let shard := shard + 1 in
            if (shard <? shardNumber) && (shard <? c_maxRequestShards)
            then request_peers current maxReq shardNumber r shard true
            else mret (shard, true)
      end
  end.

(** The [while] loop: every turn but the last adds a shard. *)
Fixpoint request_shards (fuel : nat) (current maxReq shardNumber : Z) (shard : Z) : SY unit :=
  match fuel with
  | O => mret tt
  | S f =>
      if (shard <? shardNumber) && (shard <? c_maxRequestShards) then
        ids ← random_order;
        '(shard, found) ← request_peers current maxReq shardNumber ids shard false;
        if found : bool then request_shards f current maxReq shardNumber shard else mret tt
      else mret tt
  end.

(** From where the download is known to be needed on. *)
Definition request_blocks (current maxPeer : Z) : SY unit :=
  t ← utcTime;
  s ← yget;
  if t - sy_lastDownloadingRequestTime s <? c_eachBlockDownloadingRequestTimeout * (sy_maxRequestNumber s - current)
  then mret tt
  else
    ymod (set_sy_lastDownloadingRequestTime t);;
    ymod noteDownloadingBegin;;
    let maxReq := match bq_top (sy_bq s) with Some b => Z.min maxPeer (blockNumber b - 1) | None => maxPeer end in
    if maxReq <=? current then mret tt
    else
      ymod (set_sy_maxRequestNumber 0);;
      request_shards (Z.to_nat c_maxRequestShards) current maxReq
        ((maxReq - current + c_maxRequestBlocks - 1) / c_maxRequestBlocks) 0.

Definition maintainPeersStatus : SY unit :=
  s ← yget;
  let current := number s in
  let '(maxPeer, latest) := best_peer (foreachPeer s) in
  if current <? maxPeer then
    ymod (fun s => set_sy_knownLatestHash latest (set_sy_knownHighestNumber maxPeer s));;
    if (maxPeer <=? sy_currentSealingNumber s) || (maxPeer =? current) then mret tt
    else request_blocks current maxPeer
  else
    ymod (fun s => set_sy_knownLatestHash (ch_numberHash chain (sy_chain s) current) (set_sy_knownHighestNumber current s)).

(** ** Downloaded blocks *)
(** [fp_isConsensusOk] is the handler that the constructors of the engines register,
    [checkBlock] of PBFT or the constant [true] of Raft; without a handler the code
    makes no check, which is the constant [true] too. *)
Definition isNewBlock (b : EthBlock) s : bool :=
  (number s + 1 =? blockNumber b)
  && bool_decide (ch_numberHash chain (sy_chain s) (number s) = m_parentHash (b_header b))
  && ch_isConsensusOk chain (sy_chain s) b.

(** Executes and commits the top block; a failed commit changes nothing. *)
Definition handle_top (b : EthBlock) : SY unit :=
  s ← yget;
  ywhen (isNewBlock b s) (
    match ch_getBlockByNumber chain (sy_chain s) (blockNumber b - 1) with
    | None => ylift (Throw UndefinedBehaviour)
    | Some parent =>
        '(b', ctx) ← ylift (ch_executeBlock chain (sy_chain s) b
           (mkBlockInfo (headerHash parent) (blockNumber parent) (m_stateRoot (b_header parent))));
        match ch_commitBlock chain (sy_chain s) b' ctx with
        | None => mret tt
        | Some c =>
            ymod (fun s => noteNewBlocks (set_sy_committed ((sy_chain s, b, b') :: sy_committed s) (set_sy_chain c s)));;
            s ← yget;
            '(_, p) ← ylift (dropBlockTrans version (ch_nonces chain c) b' (sy_txPool s));
            ymod (set_sy_txPool p)
        end
    end).

Fixpoint drain (fuel : nat) : SY unit :=
  match fuel with
  | O => mret tt
  | S f =>
      s ← yget;
      match bq_top (sy_bq s) with
      | None => mret tt
      | Some b =>
          if blockNumber b <=? number s + 1 then
            ytry (handle_top b);;
            ymod (fun s => set_sy_bq (bq_pop (sy_bq s)) s);;
            drain f
          else mret tt
      end
  end.

(** Returns whether the download has finished. *)
Definition maintainDownloadingQueue : SY bool :=
  s ← yget;
  if sy_knownHighestNumber s <=? number s then ymod (fun s => set_sy_bq (bq_clear (sy_bq s)) s);; mret true
  else
    drain (length (bq_blocks (sy_bq s)));;
    s ← yget;
    ywhen (sy_maxRequestNumber s <=? number s) (ymod (set_sy_lastDownloadingRequestTime 0));;
    if sy_knownHighestNumber s <=? number s then
      match ch_getBlockByNumber chain (sy_chain s) (sy_knownHighestNumber s) with
      | None => ylift (Throw UndefinedBehaviour)
      | Some _ => mret true
      end
    else mret false.

Definition flush_buffer : SY unit := fun s =>
  let '(q, r) := flushBufferToQueue version (number s) (sy_bq s) in (set_sy_bq q s, r).

Definition maintainDownloadingQueueBuffer : SY unit :=
  s ← yget;
  if bool_decide (sy_state s = Downloading) then
    ymod (fun s => set_sy_bq (clearFullQueueIfNotHas (number s + 1) (sy_bq s)) s);;
    flush_buffer
  else ymod (fun s => set_sy_bq (bq_clear (sy_bq s)) s).

(** ** Peers *)
Fixpoint add_peers (n : Z) (hash : h256) (members : list NodeID) : SY unit :=
  match members with
  | [] => mret tt
  | m :: r =>
      s ← yget;
      ywhen (negb (bool_decide (m = nodeId)) && negb (hasPeer m s))
        (_ ← newSyncPeerStatus (mkPeerInfo m 0 genesisHash genesisHash);
         asyncSend m (status_packet n genesisHash hash));;
      add_peers n hash r
  end.

(** [memberSet], in the order of the [std::set]. *)
Definition members (sessions : list NodeID) s : list NodeID :=
  sort_ids (elements (list_to_set (List.filter (fun m => bool_decide (m ∈ sessions) && negb (bool_decide (m = nodeId)))
    (ch_sealerList chain (sy_chain s) ++ ch_observerList chain (sy_chain s))) : gset h512)).

Definition maintainPeersConnection (sessions : list NodeID) : SY unit :=
  s ← yget;
  let sealers := ch_sealerList chain (sy_chain s) in
  let hasMyself := bool_decide (nodeId ∈ sealers ++ ch_observerList chain (sy_chain s)) in
  let memberSet := members sessions s in
  ywhen (negb (isSyncing s)) (ymod (set_sy_needCheckPacketInGroup (hasMyself && negb (number s =? 0))));;
  ymod (fun s =>
    if sy_needCheckPacketInGroup s
    then foldl (fun s id => if bool_decide (id ∈ memberSet) then s else deletePeer id s) s (peers s) else s);;
  add_peers (number s) (ch_numberHash chain (sy_chain s) (number s)) memberSet;;
  ymod (fun s => set_sy_peers (map_imap (fun id p => Some (set_isSealer (bool_decide (id ∈ sealers)) p)) (sy_peers s)) s);;
  ymod (set_sy_needMaintainTransactions hasMyself).

(** ** Answers to requests *)
Definition send_batches (id : NodeID) (batches : list (list bytes)) : SY unit :=
  foldr (fun b m => asyncSend id (blocks_packet b);; m) (mret tt) batches.

(** The blocks from [n] on; the loop ends at the limit, at the timeout, or at a
    block the chain does not have. *)
Fixpoint answer_blocks (fuel : nat) (id : NodeID) (timeout n limit : Z) (c : Container) : SY (Z * Container) :=
  match fuel with
  | O => mret (n, c)
  | S f =>
      if n <? limit then
        t ← utcTime;
        if t <=? timeout then
          s ← yget;
          match ch_getBlockRLPByNumber chain (sy_chain s) n with
          | None => mret (n, c)
          | Some rlp =>
              let '(c, sent) := batchAndSend rlp c in
              send_batches id sent;;
              answer_blocks f id timeout (n + 1) limit c
          end
        else mret (n, c)
      else mret (n, c)
  end.

(** The requests of one peer; [c] is sent when the function returns. *)
Fixpoint answer_requests (fuel : nat) (id : NodeID) (timeout : Z) (q : DownloadRequestQueue) (c : Container)
    : SY (DownloadRequestQueue * Container) :=
  match fuel with
  | O => mret (enablePush q, c)
  | S f =>
      match m_reqQueue q with
      | [] => mret (enablePush q, c)
      | _ =>
          t ← utcTime;
          if t <=? timeout then
            let '(req, q) := topAndPop q in
            let limit := swrap 64 (rq_fromNumber req + rq_size req) in
            '(n, c) ← answer_blocks (Z.to_nat (limit - rq_fromNumber req)) id timeout (rq_fromNumber req) limit c;
            if n <? limit then mret (reqQueue_push n (limit - n) (enablePush q), c)
            else answer_requests f id timeout q c
          else mret (enablePush q, c)
      end
  end.

(** The first peer in random order that has requests. *)
Fixpoint answer_first (timeout : Z) (ids : list NodeID) : SY unit :=
  match ids with
  | [] => mret tt
  | id :: r =>
      s ← yget;
      match sy_peers s !! id with
      | None => answer_first timeout r
      | Some p =>
          match m_reqQueue (sp_reqQueue p) with
          | [] => answer_first timeout r
          | l =>
              '(q, c) ← answer_requests (length l) id timeout (disablePush (sp_reqQueue p)) emptyContainer;
              ymod (upd_peer id (set_reqQueue q));;
              send_batches id (snd (clearBatchAndSend c))
          end
      end
  end.

Definition maintainBlockRequest : SY unit :=
  t ← utcTime; ids ← random_order; answer_first (t + c_respondDownloadRequestTimeout) ids.

(** ** A round *)
Definition doWork (sessions : list NodeID) : SY unit :=
  maintainPeersConnection sessions;;
  maintainDownloadingQueueBuffer;;
  maintainPeersStatus;;
  pop2TxPool;;
  maintainBlocks;;
  s ← yget;
  ywhen (negb (isSyncing s))
    (ywhen (sy_needMaintainTransactions s && sy_newTransactions s)
       (ymod (set_sy_newTransactions false);; maintainTransactions);;
     maintainBlockRequest);;
  s ← yget;
  ywhen (isSyncing s)
    (finished ← maintainDownloadingQueue; ywhen finished (ymod noteDownloadingFinish)).

(** [workLoop] under [Worker]: an exception ends it. *)
Definition sync_round (sessions : list NodeID) s : St :=
  if sy_working s then
    match doWork sessions s with (s', Ok _) => s' | (s', Throw _) => set_sy_working false s' end
  else s.

(** ** Messages *)
Definition checkSession (from : NodeID) s : bool :=
  negb (bool_decide (from = nodeId)) && negb (sy_needCheckPacketInGroup s && negb (hasPeer from s)).

Definition onPeerStatus (from : NodeID) (r : RLP) : SY unit :=
  n ← ylift (itemCount r);
  if negb (n =? 3) then mret tt
  else
    '(num, r) ← ylift (field 0 (toInt I64 Strict) r);
    '(gen, r) ← ylift (field 1 (toHash 32 Strict) r);
    '(lat, _) ← ylift (field 2 (toHash 32 Strict) r);
    if negb (bool_decide (gen = genesisHash)) then mret tt
    else
      s ← yget;
      let info := mkPeerInfo from num gen lat in
      match peerStatus from s with
      | None => _ ← newSyncPeerStatus info; mret tt
      | Some _ => ymod (upd_peer from (peer_update info))
      end.

Definition onPeerTransactions (from : NodeID) (r : RLP) : SY unit :=
  ymod (fun s => if bool_decide (sy_state s = Downloading) then s
                 else set_sy_txQueue (sy_txQueue s ++ [(m_data r, from)]) s).

Definition onPeerBlocks (r : RLP) : SY unit := ymod (fun s => set_sy_bq (bq_push r (sy_bq s)) s).

Definition onPeerRequestBlocks (from : NodeID) (r : RLP) : SY unit :=
  n ← ylift (itemCount r);
  if negb (n =? 2) then mret tt
  else
    '(fr, r) ← ylift (field 0 (toInt I64 Strict) r);
    '(size, _) ← ylift (field 1 (toInt U32 Strict) r);
    ymod (upd_peer from (fun p => set_reqQueue (reqQueue_push fr size (sp_reqQueue p)) p)).

Definition interpret (from : NodeID) (ty : Z) (r : RLP) : SY unit :=
  match sync_of_code ty with
  | Some StatusPacket => onPeerStatus from r
  | Some TransactionsPacket => onPeerTransactions from r
  | Some BlocksPacket => onPeerBlocks r
  | Some ReqBlocskPacket => onPeerRequestBlocks from r
  | None => mret tt
  end.

Definition messageHandler (from : NodeID) (buffer : bytes) : SY unit :=
  s ← yget;
  if negb (checkSession from s) then mret tt
  else
    ok ← ylift (checkPacket buffer);
    if negb ok then mret tt
    else
      p ← ylift (syncpacket_decode buffer);
      match p with
      | None => mret tt
      | Some (ty, r) => ytry (interpret from ty r)
      end.

(** ** Everything that happens to the module *)
Inductive sync_input : Type :=
  | SyRound (sessions : list NodeID) (clock rand : list Z)
  | SyMessage (from : NodeID) (buffer : bytes)
  | SyNewTransactions
  | SyNewBlocks
  | SySealing (n : Z)
  (** the consensus engine commits a block *)
  | SyChain (c : C).

Definition sync_step (i : sync_input) s : St :=
  match i with
  | SyRound sessions clock rand => sync_round sessions (set_sy_rand rand (set_sy_clock clock s))
  | SyMessage from buffer => fst (messageHandler from buffer s)
  | SyNewTransactions => noteNewTransactions s
  | SyNewBlocks => noteNewBlocks s
  | SySealing n => noteSealingBlockNumber n s
  | SyChain c => noteNewBlocks (set_sy_chain c s)
  end.

Definition sync_run (l : list sync_input) s : St := foldl (fun s i => sync_step i s) s l.
End Sync.
