(* ===== verification/SyncProps.v ===== *)
(** * What synchronisation guarantees

    The batches of blocks and the merged requests of [SyncQueues]; what a run of
    [SyncMaster] commits, how much it keeps, and how it can stop or stall. *)

From S2P Require Import Prelude CommonData RLP PBFTMsg BlockHeader Block PBFTMsgCache PBFTReqCache PBFTState PBFTEngine.
From S2P Require Import StateMonad Transaction NonceCheck TxPool Receipt TxsParser BlockCodec SyncQueues SyncMaster.
From Stdlib Require Import Sorted.

Create HintDb sync.

(** ** Batches *)
Definition batch_bytes (l : list bytes) : Z := foldr (fun b n => lenZ b + n) 0 l.
Lemma batch_bytes_snoc l b : batch_bytes (l ++ [b]) = batch_bytes l + lenZ b.
Proof. unfold batch_bytes. induction l as [|a l IH]; cbn [foldr app]; lia. Qed.

Definition batch_ok (l : list bytes) : Prop := l <> [] /\ (batch_bytes l <= c_maxPayload \/ exists b, l = [b]).
Definition container_ok (c : Container) : Prop :=
  m_currentBatchSize c = batch_bytes (m_blockRLPsBatch c) /\ m_currentBatchSize c <= c_maxPayload.
(** The batches a list of blocks is sent in: the destructor sends the last one. *)
Definition sent_batches (rlps : list bytes) : list (list bytes) :=
  let '(c, sent) := batchAll rlps emptyContainer in sent ++ snd (clearBatchAndSend c).

Lemma clear_batch_ok c : container_ok c ->
  container_ok (fst (clearBatchAndSend c)) /\ Forall batch_ok (snd (clearBatchAndSend c)) /\
  concat (snd (clearBatchAndSend c)) = m_blockRLPsBatch c /\ m_blockRLPsBatch (fst (clearBatchAndSend c)) = [].
Proof.
  intros [Hs Hm]. unfold clearBatchAndSend. destruct (m_blockRLPsBatch c) eqn:Hb; cbn.
  - rewrite Hb. repeat split; [by rewrite Hb | done | constructor].
  - rewrite app_nil_r. repeat split; [done | constructor; [| constructor]]. split; [done | left; lia].
Qed.

Lemma batchAndSend_ok b c : container_ok c ->
  container_ok (fst (batchAndSend b c)) /\ Forall batch_ok (snd (batchAndSend b c)) /\
  concat (snd (batchAndSend b c)) ++ m_blockRLPsBatch (fst (batchAndSend b c)) ≡ₚ b :: m_blockRLPsBatch c.
Proof.
  intros Hc. unfold batchAndSend. destruct (Z.ltb_spec c_maxPayload (lenZ b)) as [Hb|Hb].
  { split_and!; [done | constructor; [split; [done | right; eauto] | constructor] | done]. }
  destruct (Z.ltb_spec c_maxPayload (m_currentBatchSize c + lenZ b)) as [Hf|Hf]; cbn.
  - destruct (clear_batch_ok c Hc) as (Hc' & Ha & Hcat & He). destruct (clearBatchAndSend c) as [c' sent] eqn:E. cbn in *.
    destruct Hc' as [Hs _]. rewrite He in Hs. rewrite Hcat, He. split_and!; [| done | symmetry; apply Permutation_cons_append].
    split; cbn; rewrite ?He, Hs; cbn; lia.
  - destruct Hc as [Hs Hm]. split_and!; [| constructor | symmetry; apply Permutation_cons_append].
    split; cbn; [rewrite batch_bytes_snoc |]; lia.
Qed.

Lemma batchAll_ok l c : container_ok c ->
  container_ok (fst (batchAll l c)) /\ Forall batch_ok (snd (batchAll l c)) /\
  concat (snd (batchAll l c)) ++ m_blockRLPsBatch (fst (batchAll l c)) ≡ₚ l ++ m_blockRLPsBatch c.
Proof.
  revert c. induction l as [|b l IH]; intros c Hc; [done |]. cbn.
  destruct (batchAndSend_ok b c Hc) as (H1 & Ha1 & Hp1). destruct (batchAndSend b c) as [c1 s1].
  destruct (IH c1 H1) as (H2 & Ha2 & Hp2). destruct (batchAll l c1) as [c2 s2]. cbn in *.
  split_and!; [done | by apply Forall_app |].
  rewrite concat_app, <- app_assoc, Hp2, app_assoc, (Permutation_app_comm _ l), <- app_assoc, Hp1.
  symmetry. apply Permutation_middle.
Qed.

(** The answer to a request loses and duplicates no block, and every packet holds at
    most [c_maxPayload] bytes of blocks unless it holds a single block. *)
Theorem batches_complete rlps :
  concat (sent_batches rlps) ≡ₚ rlps /\ Forall batch_ok (sent_batches rlps).
Proof.
  unfold sent_batches. destruct (batchAll_ok rlps emptyContainer) as (Hc & Ha & Hp); [by split |].
  destruct (batchAll rlps emptyContainer) as [c sent]. cbn in *. destruct (clear_batch_ok c Hc) as (_ & Hl & Hcat & _).
  rewrite concat_app, Hcat, Hp, app_nil_r. split; [done | by apply Forall_app].
Qed.

(** ** Merged requests *)
Section Requests.
Context `{PQ : !PriorityQueue RequestQueueCmp}.

Definition req_ok (r : DownloadRequest) : Prop :=
  0 <= rq_fromNumber r /\ 0 <= rq_size r /\ rq_fromNumber r + rq_size r < 2 ^ 63.
Definition in_req (n : Z) (r : DownloadRequest) : Prop := rq_fromNumber r <= n < rq_fromNumber r + rq_size r.
Definition covered (l : list DownloadRequest) (n : Z) : Prop := Exists (in_req n) l.

Lemma covered_perm l l' n : l ≡ₚ l' -> covered l n <-> covered l' n.
Proof. unfold covered. intros E. by rewrite E. Qed.

Lemma covered_pop l r n : pq_top l = Some r -> covered l n <-> in_req n r \/ covered (pq_pop l) n.
Proof. intros E. rewrite (covered_perm _ _ n (pq_pop_perm _ _ E)). apply Exists_cons. Qed.

Lemma top_first l r : pq_top l = Some r -> Forall (fun r' => rq_fromNumber r <= rq_fromNumber r') l.
Proof.
  intros E. apply Forall_forall. intros r' Hr. pose proof (pq_top_first _ _ E _ Hr) as Hc.
  unfold RequestQueueCmp in Hc. destruct (Z.eqb_spec (rq_fromNumber r) (rq_fromNumber r')); bool_to_prop; lia.
Qed.

Lemma pop_length l r : pq_top l = Some r -> length l = S (length (pq_pop l)).
Proof. intros E. by rewrite (pq_pop_perm _ _ E) at 1. Qed.

Lemma merge_tops_spec fuel from size l size' l' :
  (length l <= fuel)%nat -> Forall req_ok l -> Forall (fun r => from <= rq_fromNumber r) l -> 0 <= size ->
  0 <= from -> from + size < 2 ^ 63 -> merge_tops fuel from size l = (size', l') ->
  size <= size' /\ from + size' < 2 ^ 63 /\ (length l' <= length l)%nat /\
  Forall (fun r => from + size' < rq_fromNumber r) l' /\ Forall req_ok l' /\
  (forall n, covered l n \/ from <= n < from + size <-> covered l' n \/ from <= n < from + size').
Proof.
  revert size l. induction fuel as [|f IH]; intros size l Hf Ho Hge Hs H0 Hb.
  { destruct l; [| cbn in Hf; lia]. cbn. intros [= <- <-]. split_and!; auto with lia. }
  cbn [merge_tops]. destruct (pq_top l) as [r|] eqn:Et.
  2: { apply pq_top_none in Et as ->. intros [= <- <-]. split_and!; auto with lia. }
  pose proof (pop_length _ _ Et) as Hl. pose proof (pq_pop_perm _ _ Et) as Hp. pose proof (top_first _ _ Et) as Hm.
  assert (Hr : req_ok r /\ Forall req_ok (pq_pop l)) by (apply Forall_cons; by rewrite <- Hp).
  assert (Hg : from <= rq_fromNumber r /\ Forall (fun r => from <= rq_fromNumber r) (pq_pop l))
    by (apply (Forall_cons (fun r => from <= rq_fromNumber r)); by rewrite <- Hp).
  destruct Hr as [(Hr0 & Hr1 & Hr2) Hrp], Hg as [Hg Hgp].
  rewrite !swrap_small by (change (2 ^ (64 - 1)) with (2 ^ 63); lia).
  destruct (Z.leb_spec (rq_fromNumber r) (from + size)) as [Hle|Hgt].
  - intros E. apply IH in E as (H1 & H2 & H3 & H4 & H5 & H6); [| lia | done | done | lia | done | lia].
    split_and!; [lia | done | lia | done | done |].
    intros n. rewrite <- H6, (covered_pop _ _ n Et). unfold in_req. intuition lia.
  - intros [= <- <-]. split_and!; [lia | done | lia | | done | done].
    eapply Forall_impl; [exact Hm | cbn; lia].
Qed.

(** [topAndPop] merges all requests that meet: the numbers asked for before are those of
    the answer and of the requests that are left, and every request that is left starts
    after a gap.  The queue gets shorter, so the loop that answers a peer ends. *)
Theorem topAndPop_merges q r q' :
  m_reqQueue q <> [] -> Forall req_ok (m_reqQueue q) -> topAndPop q = (r, q') ->
  (forall n, covered (m_reqQueue q) n <-> in_req n r \/ covered (m_reqQueue q') n) /\
  Forall (fun r' => rq_fromNumber r + rq_size r < rq_fromNumber r') (m_reqQueue q') /\
  req_ok r /\ Forall req_ok (m_reqQueue q') /\ (length (m_reqQueue q') < length (m_reqQueue q))%nat.
Proof.
  intros Hne Ho. unfold topAndPop. destruct (pq_top (m_reqQueue q)) as [t|] eqn:Et;
    [| by apply pq_top_none in Et].
  destruct (merge_tops _ _ _ _) as [size l] eqn:Em. intros [= <- <-]. cbn.
  assert (Ht : req_ok t) by (rewrite (pq_pop_perm _ _ Et) in Ho; by apply Forall_cons in Ho as [? _]).
  destruct Ht as (Ht0 & Ht1 & Ht2).
  pose proof (pop_length _ _ Et) as Hl. pose proof (pq_pop_perm _ _ Et) as Hp. pose proof (top_first _ _ Et) as Hm.
  rewrite Hp in Ho, Hm. apply Forall_cons in Ho as [_ Ho]. apply (Forall_cons (fun _ => _ <= _)) in Hm as [_ Hm].
  rewrite Hl in Em. cbn [merge_tops] in Em. rewrite Et in Em.
  rewrite !swrap_small in Em by (change (2 ^ (64 - 1)) with (2 ^ 63); lia).
  replace (rq_fromNumber t <=? rq_fromNumber t + 0) with true in Em by (symmetry; apply Z.leb_le; lia).
  apply merge_tops_spec in Em as (H1 & H2 & H3 & H4 & H5 & H6); [| lia | done | done | lia | done | lia].
  split_and!; [| done | split_and!; cbn; lia | done | lia].
  intros n. rewrite (covered_pop _ _ n Et). unfold in_req in *. cbn. specialize (H6 n). intuition lia.
Qed.
End Requests.

(** ** Runs *)
Section Runs.
Context `{Crypto} `{Recover} `{PR : !PriorityQueue RequestQueueCmp} `{PB : !PriorityQueue BlockQueueCmp}.
Context {C Ctx : Type} (version : Z) (chain : ChainOps C Ctx) (nodeId : NodeID) (genesisHash : h256).
Abbreviation St := (SyncMaster C).
Implicit Types s : St.

Definition same_chain s s' : Prop := sy_chain s' = sy_chain s /\ sy_committed s' = sy_committed s.

(** What is kept is bounded: shards that wait to be decoded, and the requests of a peer. *)
Definition peer_bounded (p : SyncPeerStatus) : Prop :=
  lenZ (m_reqQueue (sp_reqQueue p)) <= c_maxReceivedDownloadRequestPerPeer.
Definition bounded s : Prop :=
  lenZ (bq_buffer (sy_bq s)) <= c_maxDownloadingBlockQueueBufferSize /\
  map_Forall (fun _ p => peer_bounded p) (sy_peers s).

(** Downloading, with more blocks than the limit, none of which comes next. *)
Definition overfull s : Prop :=
  sy_state s = Downloading /\ c_maxDownloadingBlockQueueSize < lenZ (bq_blocks (sy_bq s)) /\
  Forall (fun b => number chain s + 1 < blockNumber b) (bq_blocks (sy_bq s)).

(** The steps other than the commits. *)
Definition calm s s' : Prop := same_chain s s' /\ (bounded s -> bounded s') /\ (overfull s -> overfull s').

#[local] Instance calm_preorder : PreOrder calm.
Proof.
  split; [intros s; split; [done | by split] |]. intros s1 s2 s3 ((A & B) & D & F) ((A' & B') & D' & F').
  split; [split; congruence | split; auto].
Qed.

(** Updates of the fields that none of this reads. *)
Lemma calm_same s s' : sy_chain s' = sy_chain s -> sy_committed s' = sy_committed s -> sy_peers s' = sy_peers s ->
  sy_bq s' = sy_bq s -> sy_state s' = sy_state s -> calm s s'.
Proof. intros A B D F G. unfold calm, same_chain, bounded, overfull, number. by rewrite A, B, D, F, G. Qed.

Lemma calm_mod_same f :
  (forall s, sy_chain (f s) = sy_chain s /\ sy_committed (f s) = sy_committed s /\ sy_peers (f s) = sy_peers s /\
     sy_bq (f s) = sy_bq s /\ sy_state (f s) = sy_state s) -> se_keeps calm (se_mod f).
Proof. intros Hf. apply se_keeps_mod. intros s. destruct (Hf s) as (? & ? & ? & ? & ?). by apply calm_same. Qed.

Lemma calm_peers f :
  (forall m, map_Forall (fun _ p => peer_bounded p) m -> map_Forall (fun _ p => peer_bounded p) (f m)) ->
  forall s, calm s (set_sy_peers (f (sy_peers s)) s).
Proof. intros Hf s. split; [done | split; [intros [Hb Hp]; split; [done | by apply Hf] | done]]. Qed.

Lemma calm_upd_peer id f : (forall p, peer_bounded p -> peer_bounded (f p)) -> forall s, calm s (upd_peer id f s).
Proof.
  intros Hf s. apply (calm_peers (alter f id)). intros m Hm i p Hi. destruct (decide (i = id)) as [->|Hn].
  - rewrite lookup_alter_eq in Hi. destruct (m !! id) eqn:E; [| done]. injection Hi as <-. by apply Hf, (Hm id).
  - rewrite lookup_alter_ne in Hi by done. by apply (Hm i).
Qed.

Ltac calm_mod := apply calm_mod_same; intros ?; solve [repeat split].
Ltac calm_auto := repeat first [solve [eauto with sync se] | calm_mod | se_keeps_step].

Lemma calm_utcTime : se_keeps calm utcTime.
Proof. intros s. unfold utcTime. destruct (sy_clock s) as [|t [|]]; by apply calm_same. Qed.
Lemma calm_rand : se_keeps calm rand.
Proof. intros s. by apply calm_same. Qed.
#[local] Hint Resolve calm_utcTime calm_rand : sync.

Lemma calm_asyncSend id m : se_keeps calm (asyncSend id m).
Proof. unfold asyncSend. calm_auto. Qed.
#[local] Hint Resolve calm_asyncSend : sync.

Lemma calm_shuffle i l : se_keeps calm (shuffle i l : SE St _).
Proof. revert l. induction i; intros l; cbn [shuffle]; calm_auto. Qed.
#[local] Hint Resolve calm_shuffle : sync.
Lemma calm_random_order : se_keeps calm (random_order : SE St _).
Proof. unfold random_order. calm_auto. Qed.
Lemma calm_choose n l a : se_keeps calm (choose n l a : SE St _).
Proof. revert l a. induction n; intros l a; cbn [choose]; calm_auto. Qed.
#[local] Hint Resolve calm_random_order calm_choose : sync.
Lemma calm_randomSelection percent allow : se_keeps calm (randomSelection percent allow : SE St _).
Proof. unfold randomSelection. calm_auto. Qed.
#[local] Hint Resolve calm_randomSelection : sync.

Lemma calm_mark_all h ps : se_keeps calm (se_mod (fun s => foldl (fun s p => mark_known h p s) s ps)).
Proof.
  apply se_keeps_mod. induction ps as [|p ps IH]; intros s; cbn; [reflexivity |].
  etransitivity; [| apply IH]. by apply calm_same.
Qed.
#[local] Hint Resolve calm_mark_all : sync.

Lemma calm_assign_txs i ts pt : se_keeps calm (assign_txs version nodeId i ts pt : SE St _).
Proof. revert i pt. induction ts; intros i pt; cbn [assign_txs]; calm_auto. Qed.
Lemma calm_send_txs ts pt ids : se_keeps calm (send_txs version ts pt ids : SE St _).
Proof. induction ids; cbn [send_txs]; calm_auto. Qed.
#[local] Hint Resolve calm_assign_txs calm_send_txs : sync.
Lemma calm_maintainTransactions : se_keeps calm (maintainTransactions version nodeId : SE St _).
Proof. unfold maintainTransactions. calm_auto. Qed.

Lemma calm_import_one t k : se_keeps calm (import_one version t k : SE St _).
Proof. unfold import_one. calm_auto. Qed.
#[local] Hint Resolve calm_maintainTransactions calm_import_one : sync.
Lemma calm_import_txs ts k : se_keeps calm (import_txs version ts k : SE St _).
Proof. revert k. induction ts; intros k; cbn [import_txs]; calm_auto. Qed.
#[local] Hint Resolve calm_import_txs : sync.
Lemma calm_pop_shards l : se_keeps calm (pop_shards version l : SE St _).
Proof. induction l; cbn [pop_shards]; calm_auto. Qed.
#[local] Hint Resolve calm_pop_shards : sync.
Lemma calm_pop2TxPool : se_keeps calm (pop2TxPool version : SE St _).
Proof. unfold pop2TxPool. calm_auto. Qed.

Lemma calm_send_status n h ids : se_keeps calm (send_status genesisHash n h ids : SE St _).
Proof. induction ids; cbn [send_status]; calm_auto. Qed.
#[local] Hint Resolve calm_pop2TxPool calm_send_status : sync.
Lemma calm_maintainBlocks : se_keeps calm (maintainBlocks chain genesisHash).
Proof. unfold maintainBlocks. calm_auto. Qed.

Lemma calm_request_peers c m n ids shard found : se_keeps calm (request_peers c m n ids shard found : SE St _).
Proof. revert shard found. induction ids; intros shard found; cbn [request_peers]; calm_auto. Qed.
#[local] Hint Resolve calm_maintainBlocks calm_request_peers : sync.
Lemma calm_request_shards fuel c m n shard : se_keeps calm (request_shards fuel c m n shard : SE St _).
Proof. revert shard. induction fuel; intros shard; cbn [request_shards]; calm_auto. Qed.
#[local] Hint Resolve calm_request_shards : sync.

Lemma calm_begin : se_keeps calm (se_mod noteDownloadingBegin).
Proof.
  apply se_keeps_mod. intros s. unfold noteDownloadingBegin. destruct (bool_decide_reflect (sy_state s = Idle)); [| done].
  split; [done | split; [done |]]. intros (Hd & _). congruence.
Qed.
#[local] Hint Resolve calm_begin : sync.
Lemma calm_request_blocks c m : se_keeps calm (request_blocks c m : SE St _).
Proof. unfold request_blocks. calm_auto. Qed.
#[local] Hint Resolve calm_request_blocks : sync.
Lemma calm_maintainPeersStatus : se_keeps calm (maintainPeersStatus chain).
Proof. unfold maintainPeersStatus. calm_auto. Qed.
#[local] Hint Resolve calm_maintainPeersStatus : sync.

(** *** The queue of blocks *)
Lemma overfull_top s : overfull s -> exists b, bq_top (sy_bq s) = Some b /\ number chain s + 1 < blockNumber b.
Proof.
  intros (_ & Hl & Hf). unfold bq_top. destruct (pq_top (bq_blocks (sy_bq s))) as [b|] eqn:Et.
  - exists b. split; [done |]. rewrite (pq_pop_perm _ _ Et) in Hf. by apply Forall_cons in Hf as [? _].
  - apply pq_top_none in Et. rewrite Et in Hl. by vm_compute in Hl.
Qed.

Lemma full_clear n q : c_maxDownloadingBlockQueueSize < lenZ (bq_blocks q) -> clearFullQueueIfNotHas n q = q.
Proof. intros Hq. unfold clearFullQueueIfNotHas. destruct (Z.eqb_spec (lenZ (bq_blocks q)) c_maxDownloadingBlockQueueSize); [lia | done]. Qed.
Lemma full_flush n q : c_maxDownloadingBlockQueueSize < lenZ (bq_blocks q) ->
  flushBufferToQueue version n q = (mkBlockQueue (bq_blocks q) [], Ok tt).
Proof.
  intros Hq. unfold flushBufferToQueue. destruct (bq_buffer q) as [|d l]; cbn; [done |].
  destruct (Z.leb_spec c_maxDownloadingBlockQueueSize (lenZ (bq_blocks q))); [done | lia].
Qed.

Lemma flush_buffer_empty n q : bq_buffer (fst (flushBufferToQueue version n q)) = [].
Proof. unfold flushBufferToQueue. by destruct (flush_shards _ _ _ _). Qed.
Lemma clearFull_buffer n q : bq_buffer (clearFullQueueIfNotHas n q) = bq_buffer q.
Proof. unfold clearFullQueueIfNotHas. by destruct (_ && _). Qed.

Lemma calm_bq q s :
  (lenZ (bq_buffer (sy_bq s)) <= c_maxDownloadingBlockQueueBufferSize ->
   lenZ (bq_buffer q) <= c_maxDownloadingBlockQueueBufferSize) ->
  (overfull s -> bq_blocks q = bq_blocks (sy_bq s)) -> calm s (set_sy_bq q s).
Proof.
  intros Hb Ho. split; [done | split; [intros [? ?]; split; [by apply Hb | done] |]].
  intros Hs. specialize (Ho Hs). destruct Hs as (Hd & Hl & Hf). unfold overfull. cbn. by rewrite Ho.
Qed.

Lemma calm_downloadingBuffer : se_keeps calm (maintainDownloadingQueueBuffer version chain).
Proof.
  intros s. unfold maintainDownloadingQueueBuffer. rewrite se_bind_get.
  destruct (bool_decide_reflect (sy_state s = Downloading)) as [Hd|Hd].
  - rewrite se_bind_mod. unfold flush_buffer. cbn.
    destruct (flushBufferToQueue _ _ _) as [q r] eqn:E. cbn.
    change (calm s (set_sy_bq q s)). apply calm_bq.
    + intros _. replace q with (fst (q, r)) by done. rewrite <- E, flush_buffer_empty. done.
    + intros (_ & Hl & _). rewrite full_clear, full_flush in E by done. by injection E as <- <-.
  - cbn. apply calm_bq; [done |]. intros (? & _). done.
Qed.

Lemma calm_push r : se_keeps calm (se_mod (fun s => set_sy_bq (bq_push r (sy_bq s)) s)).
Proof.
  apply se_keeps_mod. intros s. unfold bq_push. case_match; apply calm_bq; try done.
  bool_to_prop. cbn. rewrite lenZ_app. change (lenZ [_]) with 1. lia.
Qed.
#[local] Hint Resolve calm_downloadingBuffer calm_push : sync.

(** *** Peers *)
Lemma calm_newSyncPeerStatus i : se_keeps calm (newSyncPeerStatus i : SE St _).
Proof.
  unfold newSyncPeerStatus. calm_auto. apply se_keeps_mod, calm_peers. intros m Hm.
  by apply map_Forall_insert_2.
Qed.
#[local] Hint Resolve calm_newSyncPeerStatus : sync.
Lemma calm_add_peers n h l : se_keeps calm (add_peers nodeId genesisHash n h l : SE St _).
Proof. induction l; cbn [add_peers]; calm_auto. Qed.
#[local] Hint Resolve calm_add_peers : sync.

Lemma calm_delete_peers (keep : list NodeID) ids s :
  calm s (foldl (fun s id => if bool_decide (id ∈ keep) then s else deletePeer id s) s ids).
Proof.
  revert s. induction ids as [|id ids IH]; intros s; cbn; [reflexivity |]. etransitivity; [| apply IH].
  case_match; [reflexivity |]. apply (calm_peers (delete id)). intros m Hm. by apply map_Forall_delete.
Qed.

Lemma calm_maintainPeersConnection sessions : se_keeps calm (maintainPeersConnection chain nodeId genesisHash sessions).
Proof.
  unfold maintainPeersConnection. calm_auto.
  - apply se_keeps_mod. intros s. case_match; [apply calm_delete_peers | reflexivity].
  - apply se_keeps_mod. apply calm_peers. intros m Hm k p Hk. rewrite map_lookup_imap in Hk.
    destruct (m !! k) eqn:E; [| done]. injection Hk as <-. apply (Hm k _ E).
Qed.
#[local] Hint Resolve calm_maintainPeersConnection : sync.

(** *** Answers *)
Definition queue_bounded (q : DownloadRequestQueue) : Prop := lenZ (m_reqQueue q) <= c_maxReceivedDownloadRequestPerPeer.

Lemma push_bounded fr size q : queue_bounded q -> queue_bounded (reqQueue_push fr size q).
Proof.
  unfold reqQueue_push, queue_bounded. intros Hq. repeat case_match; try done. bool_to_prop. cbn.
  unfold lenZ. rewrite pq_push_perm. cbn. unfold lenZ in *. lia.
Qed.

Lemma merge_tops_shorter fuel from size l : (length (snd (merge_tops fuel from size l)) <= length l)%nat.
Proof.
  revert size l. induction fuel as [|f IH]; intros size l; cbn; [done |]. destruct (pq_top l) eqn:Et; [| done].
  case_match; [| done]. rewrite IH. apply pop_length in Et. lia.
Qed.
Lemma topAndPop_bounded q : queue_bounded q -> queue_bounded (snd (topAndPop q)).
Proof.
  unfold topAndPop, queue_bounded. destruct (pq_top (m_reqQueue q)) as [t|]; [| done].
  pose proof (merge_tops_shorter (length (m_reqQueue q)) (rq_fromNumber t) 0 (m_reqQueue q)) as Hm.
  destruct (merge_tops _ _ _ _) as [size l]. cbn in *. unfold lenZ. lia.
Qed.

Lemma answer_requests_bounded fuel id timeout q c s s' q' c' :
  queue_bounded q -> answer_requests chain fuel id timeout q c s = (s', Ok (q', c')) -> queue_bounded q'.
Proof.
  revert q c s. induction fuel as [|f IH]; intros q c s Hq; cbn [answer_requests]; [by intros [= _ <- _] |].
  destruct (m_reqQueue q) as [|r0 l0]; [by intros [= _ <- _] |].
  unfold mbind, SE_bind. destruct (utcTime s) as [s1 [t|e]]; [| done].
  case_match; [| by intros [= _ <- _]].
  pose proof (topAndPop_bounded q Hq) as Hp. destruct (topAndPop q) as [req q1]. cbn in Hp.
  destruct (answer_blocks _ _ _ _ _ _ _ _) as [s2 [[n c2]|e]]; [| done]. cbn beta.
  case_match; [intros [= _ <- _]; by apply push_bounded | by apply IH].
Qed.

Lemma calm_send_batches id l : se_keeps calm (send_batches id l : SE St _).
Proof. unfold send_batches. induction l; cbn [foldr]; calm_auto. Qed.
#[local] Hint Resolve calm_send_batches : sync.
Lemma calm_answer_blocks fuel id timeout n limit c : se_keeps calm (answer_blocks chain fuel id timeout n limit c).
Proof. revert n c. induction fuel; intros n c; cbn [answer_blocks]; calm_auto. Qed.
#[local] Hint Resolve calm_answer_blocks : sync.
Lemma calm_answer_requests fuel id timeout q c : se_keeps calm (answer_requests chain fuel id timeout q c).
Proof. revert q c. induction fuel; intros q c; cbn [answer_requests]; calm_auto. Qed.


Lemma calm_store s s1 id q : calm s s1 -> (bounded s -> queue_bounded q) -> calm s (upd_peer id (set_reqQueue q) s1).
Proof.
  intros (A & B & D) Hq. split; [exact A | split; [| exact D]].
  intros Hs. destruct (calm_upd_peer id (set_reqQueue q) (fun _ _ => Hq Hs) s1) as (_ & F & _). by apply F, B.
Qed.

Lemma calm_answer_first timeout ids : se_keeps calm (answer_first chain timeout ids).
Proof.
  induction ids as [|id ids IH]; cbn [answer_first]; [calm_auto |]. intros s. rewrite se_bind_get.
  destruct (sy_peers s !! id) as [p|] eqn:Ep; [| apply IH].
  destruct (m_reqQueue (sp_reqQueue p)) as [|r l] eqn:Eq; [apply IH |].
  unfold mbind at 1, SE_bind at 1. destruct (answer_requests _ _ _ _ _ _ s) as [s1 [[q c]|e]] eqn:Ea;
    pose proof (se_keeps_run _ _ _ _ _ (calm_answer_requests _ _ _ _ _) Ea) as Hc; [| done].
  rewrite se_bind_mod. etransitivity; [apply (calm_store s s1 id q Hc) | apply calm_send_batches].
  intros [_ Hp]. eapply answer_requests_bounded; [| exact Ea]. apply (Hp id p Ep).
Qed.
#[local] Hint Resolve calm_answer_first : sync.
Lemma calm_maintainBlockRequest : se_keeps calm (maintainBlockRequest chain).
Proof. unfold maintainBlockRequest. calm_auto. Qed.
#[local] Hint Resolve calm_maintainBlockRequest : sync.

(** *** Messages *)
Lemma calm_onPeerStatus from r : se_keeps calm (onPeerStatus genesisHash from r : SE St _).
Proof. unfold onPeerStatus. calm_auto. apply se_keeps_mod. by apply calm_upd_peer. Qed.
Lemma calm_onPeerTransactions from r : se_keeps calm (onPeerTransactions from r : SE St _).
Proof. unfold onPeerTransactions. apply se_keeps_mod. intros s. case_match; by apply calm_same. Qed.
Lemma calm_onPeerRequestBlocks from r : se_keeps calm (onPeerRequestBlocks from r : SE St _).
Proof.
  unfold onPeerRequestBlocks. calm_auto. apply se_keeps_mod, calm_upd_peer. intros p. apply push_bounded.
Qed.
#[local] Hint Resolve calm_onPeerStatus calm_onPeerTransactions calm_onPeerRequestBlocks : sync.
Lemma calm_messageHandler from buffer : se_keeps calm (messageHandler nodeId genesisHash from buffer : SE St _).
Proof. unfold messageHandler, interpret, onPeerBlocks. calm_auto. Qed.

(** ** Rounds *)

(** Everything of a round but the download queue. *)
Definition round_start (sessions : list NodeID) : SE St unit :=
  maintainPeersConnection chain nodeId genesisHash sessions;;
  maintainDownloadingQueueBuffer version chain;;
  maintainPeersStatus chain;;
  pop2TxPool version;;
  maintainBlocks chain genesisHash;;
  s ← se_get;
  se_when (negb (isSyncing s))
    (se_when (sy_needMaintainTransactions s && sy_newTransactions s)
       (se_mod (set_sy_newTransactions false);; maintainTransactions version nodeId);;
     maintainBlockRequest chain).
Definition round_end : SE St unit :=
  s ← se_get;
  se_when (isSyncing s)
    (finished ← maintainDownloadingQueue version chain; se_when finished (se_mod noteDownloadingFinish)).

Lemma doWork_split sessions s : doWork version chain nodeId genesisHash sessions s = (round_start sessions;; round_end) s.
Proof.
  unfold doWork, round_start, round_end, mbind, SE_bind.
  do 5 (match goal with |- context [match ?m s with _ => _ end] => destruct (m s) as [? [[]|?]]; [clear s | done];
    match goal with s' : SyncMaster C |- _ => rename s' into s end end).
  done.
Qed.

Lemma calm_round_start sessions : se_keeps calm (round_start sessions).
Proof. unfold round_start. calm_auto. Qed.

(** ** Commits *)
Definition commit_ok (e : C * EthBlock * EthBlock) : Prop :=
  let '(c, b, b') := e in
  ch_number chain c + 1 = blockNumber b /\
  ch_numberHash chain c (ch_number chain c) = m_parentHash (b_header b) /\
  ch_isConsensusOk chain c b = true /\
  exists parent ctx c',
    ch_getBlockByNumber chain c (blockNumber b - 1) = Some parent /\
    ch_executeBlock chain c b
      (mkBlockInfo (headerHash parent) (blockNumber parent) (m_stateRoot (b_header parent))) = Ok (b', ctx) /\
    ch_commitBlock chain c b' ctx = Some c'.

(** One commit on the chain [sy_chain s]. *)
Definition commits s s' : Prop :=
  exists b b' parent ctx,
    isNewBlock chain b s = true /\ ch_getBlockByNumber chain (sy_chain s) (blockNumber b - 1) = Some parent /\
    ch_executeBlock chain (sy_chain s) b
      (mkBlockInfo (headerHash parent) (blockNumber parent) (m_stateRoot (b_header parent))) = Ok (b', ctx) /\
    ch_commitBlock chain (sy_chain s) b' ctx = Some (sy_chain s') /\
    sy_committed s' = (sy_chain s, b, b') :: sy_committed s.
Definition moves s s' : Prop := rtc (fun s s' => same_chain s s' \/ commits s s') s s' /\ (bounded s -> bounded s').

#[local] Instance moves_preorder : PreOrder moves.
Proof.
  split; [intros s; by split |]. intros s1 s2 s3 [A B] [A' B']. split; [by transitivity s2 | auto].
Qed.
Lemma calm_moves s s' : calm s s' -> moves s s'.
Proof. intros (A & B & _). split; [apply rtc_once; by left | done]. Qed.
Lemma keeps_calm_moves {A} (m : SE St A) : se_keeps calm m -> se_keeps moves m.
Proof. apply se_keeps_mono, calm_moves. Qed.

Lemma moves_handle_top b : se_keeps moves (handle_top version chain b).
Proof.
  intros s. unfold handle_top. rewrite se_bind_get. destruct (isNewBlock chain b s) eqn:En; [| cbn; reflexivity].
  cbn [se_when]. destruct (ch_getBlockByNumber _ _ _) as [parent|] eqn:Ep; [| cbn; reflexivity].
  unfold mbind at 1, SE_bind at 1, se_lift at 1. destruct (ch_executeBlock _ _ _ _) as [[b' ctx]|e] eqn:Ee; [| cbn; reflexivity].
  destruct (ch_commitBlock _ _ _ _) as [c|] eqn:Ec; [| cbn; reflexivity].
  rewrite se_bind_mod. set (s1 := noteNewBlocks _). transitivity s1.
  - split; [| done]. apply rtc_once. right. exists b, b', parent, ctx. done.
  - clearbody s1. generalize s1. apply (se_keeps_all moves), keeps_calm_moves. calm_auto.
Qed.

Lemma moves_bq f : (forall q, lenZ (bq_buffer (f q)) <= lenZ (bq_buffer q)) ->
  se_keeps moves (se_mod (fun s => set_sy_bq (f (sy_bq s)) s)).
Proof.
  intros Hf. apply se_keeps_mod. intros s. split; [apply rtc_once; by left |].
  intros [Hb Hp]. split; [| done]. cbn. specialize (Hf (sy_bq s)). lia.
Qed.
Lemma moves_pop : se_keeps moves (se_mod (fun s => set_sy_bq (bq_pop (sy_bq s)) s)).
Proof. apply moves_bq. intros q. unfold bq_pop. by case_match. Qed.
Lemma moves_clear : se_keeps moves (se_mod (fun s => set_sy_bq (bq_clear (sy_bq s)) s)).
Proof. apply moves_bq. intros q. cbn. apply lenZ_nonneg. Qed.
#[local] Hint Resolve moves_handle_top moves_pop moves_clear : sync.

Ltac moves_mod := apply keeps_calm_moves; calm_mod.
Ltac moves_auto := repeat first [solve [eauto with sync se] | moves_mod | se_keeps_step].

Lemma moves_drain fuel : se_keeps moves (drain version chain fuel).
Proof. induction fuel as [|f IH]; cbn [drain]; moves_auto. Qed.
#[local] Hint Resolve moves_drain : sync.
Lemma moves_finish : se_keeps moves (se_mod noteDownloadingFinish).
Proof.
  apply se_keeps_mod. intros s. unfold noteDownloadingFinish. case_match; [| reflexivity].
  split; [apply rtc_once; by left | done].
Qed.
Lemma moves_maintainDownloadingQueue : se_keeps moves (maintainDownloadingQueue version chain).
Proof. unfold maintainDownloadingQueue. moves_auto. Qed.
#[local] Hint Resolve moves_finish moves_maintainDownloadingQueue : sync.
Lemma moves_doWork sessions : se_keeps moves (doWork version chain nodeId genesisHash sessions).
Proof.
  intros s. rewrite doWork_split. revert s. apply (se_keeps_all moves), se_keeps_bind; [typeclasses eauto | |].
  - apply keeps_calm_moves, calm_round_start.
  - intros _. unfold round_end. moves_auto.
Qed.

(** Commits of the consensus engine change the chain. *)
Definition sync_moves (i : sync_input) s s' : Prop :=
  match i with SyChain c => sy_chain s' = c /\ sy_committed s' = sy_committed s /\ (bounded s -> bounded s')
             | _ => moves s s' end.

Abbreviation step := (sync_step version chain nodeId genesisHash).
Abbreviation run := (sync_run version chain nodeId genesisHash).

Lemma step_moves i s : sync_moves i s (step i s).
Proof.
  destruct i as [sessions clock rnd | from buffer | | | n | c]; cbn;
    try (apply calm_moves; by apply calm_same); [| apply calm_moves, calm_messageHandler | done].
  unfold sync_round. transitivity (set_sy_rand rnd (set_sy_clock clock s)); [apply calm_moves; by apply calm_same |].
  generalize (set_sy_rand rnd (set_sy_clock clock s)). clear s. intros s. case_match; [| reflexivity].
  pose proof (moves_doWork sessions s) as Hm. destruct (doWork _ _ _ _ _ s) as [s' [?|?]]; cbn in Hm; [done |].
  transitivity s'; [done |]. apply calm_moves. by apply calm_same.
Qed.

Lemma step_bounded i s : bounded s -> bounded (step i s).
Proof. pose proof (step_moves i s) as Hm. destruct i; apply Hm. Qed.

(** C26: however many messages arrive, at most [c_maxDownloadingBlockQueueBufferSize] shards of
    blocks and eight requests of a peer are kept. *)
Theorem sync_memory_bounded l s : bounded s -> bounded (run l s).
Proof. revert s. induction l as [|i l IH]; intros s Hs; [done |]. apply IH. by apply step_bounded. Qed.

Lemma commits_ok s s' : commits s s' -> Forall commit_ok (sy_committed s) -> Forall commit_ok (sy_committed s').
Proof.
  intros (b & b' & parent & ctx & Hn & Hp & He & Hc & ->) Hf. constructor; [| done].
  unfold isNewBlock in Hn. bool_to_prop. unfold commit_ok. eauto 10.
Qed.
Lemma moves_ok s s' : moves s s' -> Forall commit_ok (sy_committed s) -> Forall commit_ok (sy_committed s').
Proof.
  intros [Hr _]. induction Hr as [|s1 s2 s3 [[_ Hs]|Hc] _ IH]; [done | |]; intros Hf; apply IH.
  - by rewrite Hs.
  - by apply (commits_ok s1).
Qed.

(** C19: synchronisation commits nothing unchecked: every block it commits is the successor of
    the block the chain ended in, was accepted by the consensus engine's check of its
    signatures, and was executed on its parent. *)
Theorem sync_commits_checked l s :
  Forall commit_ok (sy_committed s) -> Forall commit_ok (sy_committed (run l s)).
Proof.
  revert s. induction l as [|i l IH]; intros s Hs; [done |]. apply IH. pose proof (step_moves i s) as Hm.
  destruct i; try (by apply (moves_ok s)). by destruct Hm as (_ & -> & _).
Qed.

(** ** Order of the commits *)
Section Ordered.
Context (commit_number : forall c b ctx c', ch_commitBlock chain c b ctx = Some c' -> ch_number chain c' = blockNumber b).
Context (execute_number : forall c b p b' ctx, ch_executeBlock chain c b p = Ok (b', ctx) -> blockNumber b' = blockNumber b).

Definition commit_numbers s : list Z := map (fun e => blockNumber (snd (fst e))) (sy_committed s).
Definition ordered s : Prop :=
  StronglySorted Z.gt (commit_numbers s) /\ Forall (fun n => n <= number chain s) (commit_numbers s).

(** The consensus engine never takes blocks off the chain. *)
Fixpoint chain_grows (l : list sync_input) s : Prop :=
  match l with
  | [] => True
  | i :: l' => match i with SyChain c => number chain s <= ch_number chain c | _ => True end /\ chain_grows l' (step i s)
  end.

Lemma commits_ordered s s' : commits s s' -> ordered s -> ordered s'.
Proof.
  intros (b & b' & parent & ctx & Hn & _ & He & Hc & Hl) [Hs Hf]. apply commit_number in Hc. apply execute_number in He.
  unfold isNewBlock in Hn. bool_to_prop. unfold ordered, commit_numbers, number in *. rewrite Hl. cbn [map snd fst].
  split.
  - constructor; [done |]. eapply Forall_impl; [exact Hf | cbn; intros; lia].
  - constructor; [lia |]. eapply Forall_impl; [exact Hf | cbn; intros; lia].
Qed.
Lemma same_chain_ordered s s' : same_chain s s' -> ordered s -> ordered s'.
Proof. intros [A B]. unfold ordered, commit_numbers, number. by rewrite A, B. Qed.
Lemma moves_ordered s s' : moves s s' -> ordered s -> ordered s'.
Proof.
  intros [Hr _]. induction Hr as [|s1 s2 s3 [Hs|Hc] _ IH]; [done | |]; intros Hf; apply IH.
  - by apply (same_chain_ordered s1).
  - by apply (commits_ordered s1).
Qed.

(** Blocks are committed in order and never twice at one height: the numbers of the blocks
    that synchronisation commits grow strictly along any run. *)
Theorem sync_commits_ordered l s : ordered s -> chain_grows l s -> StronglySorted Z.gt (commit_numbers (run l s)).
Proof.
  revert s. induction l as [|i l IH]; intros s Hs Hg; [apply Hs |]. cbn in Hg. destruct Hg as [Hi Hg].
  apply (IH (step i s)); [| done]. pose proof (step_moves i s) as Hm.
  destruct i; try (by apply (moves_ordered s)). destruct Hm as (Hc & Hl & _), Hs as [Hs Hf].
  unfold ordered, commit_numbers, number in *. rewrite Hc, Hl. split; [done |].
  eapply Forall_impl; [exact Hf | cbn; intros; lia].
Qed.
End Ordered.

(** ** A download completes *)
Inductive accepts : C -> list EthBlock -> C -> Prop :=
  | accepts_nil c : accepts c [] c
  | accepts_cons c b bs parent b' ctx c1 c2 :
      ch_number chain c + 1 = blockNumber b ->
      ch_numberHash chain c (ch_number chain c) = m_parentHash (b_header b) ->
      ch_isConsensusOk chain c b = true ->
      ch_getBlockByNumber chain c (blockNumber b - 1) = Some parent ->
      ch_executeBlock chain c b
        (mkBlockInfo (headerHash parent) (blockNumber parent) (m_stateRoot (b_header parent))) = Ok (b', ctx) ->
      ch_commitBlock chain c b' ctx = Some c1 ->
      ch_number chain c1 = blockNumber b ->
      accepts c1 bs c2 ->
      accepts c (b :: bs) c2.

Lemma accepts_number c bs c' : accepts c bs c' -> ch_number chain c' = ch_number chain c + lenZ bs /\
  Forall (fun b => ch_number chain c < blockNumber b) bs.
Proof.
  induction 1 as [c | c b bs parent b' ctx c1 c2 Hn _ _ _ _ _ Hc _ [IH1 IH2]]; [split; [unfold lenZ; cbn; lia | done] |].
  rewrite lenZ_cons. split; [lia |]. constructor; [lia |]. eapply Forall_impl; [exact IH2 | cbn; lia].
Qed.

Lemma dropBlockTrans_wf c b (p : @TxPool TransactionReceipt) : pool_wf version p ->
  exists r p', dropBlockTrans version c b p = Ok (r, p') /\ pool_wf version p'.
Proof.
  intros Hw. unfold dropBlockTrans, dropTransactions. set (p1 := set_checks _ _ p).
  assert (pool_wf version p1) as Hw1 by (by apply (wf_same version p)).
  assert (exists r p2, (if getTransactionSize b =? 0 then Ok (true, p1)
    else dropLoop version b 0 (b_transactions b) true p1) = Ok (r, p2) /\ pool_wf version p2) as (r & p2 & -> & Hw2)
    by (destruct (_ =? _); [eauto | by apply dropLoop_wf]).
  do 2 eexists. split; [done |]. apply (wf_same version p2); [| done]. apply (known_fold (txHash version)).
Qed.

Lemma handle_top_commits b parent b' ctx c s :
  isNewBlock chain b s = true -> pool_wf version (sy_txPool s) ->
  ch_getBlockByNumber chain (sy_chain s) (blockNumber b - 1) = Some parent ->
  ch_executeBlock chain (sy_chain s) b
    (mkBlockInfo (headerHash parent) (blockNumber parent) (m_stateRoot (b_header parent))) = Ok (b', ctx) ->
  ch_commitBlock chain (sy_chain s) b' ctx = Some c ->
  exists s', handle_top version chain b s = (s', Ok tt) /\ sy_chain s' = c /\ sy_bq s' = sy_bq s /\
    sy_knownHighestNumber s' = sy_knownHighestNumber s /\ pool_wf version (sy_txPool s').
Proof.
  intros Hn Hw Hp He Hc. unfold handle_top. rewrite se_bind_get, Hn. cbn [se_when]. rewrite Hp.
  unfold mbind at 1, SE_bind at 1, se_lift at 1. rewrite He, Hc, se_bind_mod, se_bind_get.
  destruct (dropBlockTrans_wf (ch_nonces chain c) b' (sy_txPool s) Hw) as (r & p' & Ed & Hw').
  unfold mbind, SE_bind, se_lift. cbn [sy_txPool noteNewBlocks set_sy_newBlocks set_sy_committed set_sy_chain].
  rewrite Ed. eexists. split; [reflexivity |]. by cbn.
Qed.

Lemma drain_commits bs rest c' s :
  accepts (sy_chain s) bs c' -> pool_wf version (sy_txPool s) -> bq_blocks (sy_bq s) ≡ₚ bs ++ rest ->
  Forall (fun b => ch_number chain c' + 1 < blockNumber b) rest ->
  exists s', drain version chain (length (bq_blocks (sy_bq s))) s = (s', Ok tt) /\ sy_chain s' = c' /\
    bq_blocks (sy_bq s') ≡ₚ rest /\ sy_knownHighestNumber s' = sy_knownHighestNumber s.
Proof.
  intros Ha. remember (sy_chain s) as c eqn:Ec. revert s Ec.
  induction Ha as [c | c b bs parent b' ctx c1 c2 Hn Hh Hk Hp He Hc Hc1 Ha IH]; intros s -> Hw Hb Hr.
  - exists s. split_and!; try done. destruct (length (bq_blocks (sy_bq s))); cbn [drain]; [done |].
    rewrite se_bind_get. destruct (bq_top (sy_bq s)) as [t|] eqn:Et; [| done].
    assert (Ht : t ∈ rest). { rewrite <- (app_nil_l rest), <- Hb, (pq_pop_perm _ _ Et). left. }
    rewrite Forall_forall in Hr. specialize (Hr _ Ht). unfold number.
    destruct (Z.leb_spec (blockNumber t) (ch_number chain (sy_chain s) + 1)); [lia | done].
  - destruct (accepts_number _ _ _ Ha) as [Hnum Hbs]. replace (length (bq_blocks (sy_bq s))) with (S (length (bs ++ rest))) by (by rewrite Hb).
    cbn [drain]. rewrite se_bind_get.
    destruct (bq_top (sy_bq s)) as [t|] eqn:Et; [| apply pq_top_none in Et; by rewrite Et in Hb; apply Permutation_nil_l in Hb].
    assert (t = b) as ->.
    { assert (Ht : t ∈ b :: bs ++ rest) by (rewrite <- (Hb : _ ≡ₚ b :: bs ++ rest), (pq_pop_perm _ _ Et); left).
      assert (Hle : BlockQueueCmp t b = false) by (apply (pq_top_first _ _ Et); rewrite Hb; left).
      unfold BlockQueueCmp in Hle. bool_to_prop. apply elem_of_cons in Ht as [-> | [Ht|Ht]%elem_of_app]; [done | |].
      - rewrite Forall_forall in Hbs. specialize (Hbs _ Ht). lia.
      - rewrite Forall_forall in Hr. specialize (Hr _ Ht). pose proof (lenZ_nonneg bs). lia. }
    unfold number. destruct (Z.leb_spec (blockNumber b) (ch_number chain (sy_chain s) + 1)); [| lia].
    destruct (handle_top_commits b parent b' ctx c1 s) as (s1 & Hs1 & Hc' & Hq & Hk' & Hw'); try done.
    { unfold isNewBlock, number. rewrite Hk, bool_decide_true by done.
      by destruct (Z.eqb_spec (ch_number chain (sy_chain s) + 1) (blockNumber b)). }
    unfold mbind at 1, SE_bind at 1, se_try. rewrite Hs1, se_bind_mod.
    assert (Hpop : bq_blocks (bq_pop (sy_bq s1)) ≡ₚ bs ++ rest).
    { rewrite Hq. unfold bq_pop. destruct (bq_blocks (sy_bq s)) eqn:E; [by apply Permutation_nil_l in Hb |]. cbn.
      rewrite <- E in *. apply (Permutation_cons_inv (a := b)). rewrite <- Hb. symmetry. by apply pq_pop_perm. }
    destruct (IH (set_sy_bq (bq_pop (sy_bq s1)) s1)) as (s' & Hd & Hc2 & Hb' & Hk2); try done.
    replace (length (bs ++ rest)) with (length (bq_blocks (bq_pop (sy_bq s1)))) by (by rewrite Hpop). exists s'. split_and!; [done | done | done |]. by rewrite Hk2.
Qed.

(** C20: a download completes: when the queue holds, in any order, the blocks from the end of the
    chain up to the highest number a peer reported, and the chain accepts them one after the
    other, one call commits them all and reports that the download has finished. *)
Theorem download_completes bs rest c' last s :
  accepts (sy_chain s) bs c' -> pool_wf version (sy_txPool s) -> bq_blocks (sy_bq s) ≡ₚ bs ++ rest ->
  Forall (fun b => ch_number chain c' + 1 < blockNumber b) rest ->
  sy_knownHighestNumber s = ch_number chain (sy_chain s) + lenZ bs ->
  ch_getBlockByNumber chain c' (sy_knownHighestNumber s) = Some last ->
  exists s', maintainDownloadingQueue version chain s = (s', Ok true) /\
    (bs <> [] -> sy_chain s' = c' /\ bq_blocks (sy_bq s') ≡ₚ rest).
Proof.
  intros Ha Hw Hb Hr Hk Hl. unfold maintainDownloadingQueue. rewrite se_bind_get. unfold number at 1.
  destruct (Z.leb_spec (sy_knownHighestNumber s) (ch_number chain (sy_chain s))) as [Hle|Hgt].
  - rewrite se_bind_mod. eexists. split; [done |]. intros Hne. exfalso. apply Hne, lenZ_0_inv.
    pose proof (lenZ_nonneg bs). lia.
  - destruct (drain_commits bs rest c' s Ha Hw Hb Hr) as (s1 & Hd & Hc & Hq & Hh).
    destruct (accepts_number _ _ _ Ha) as [Hnum _].
    unfold mbind at 1, SE_bind at 1. rewrite Hd, se_bind_get.
    unfold mbind at 1, SE_bind at 1.
    destruct (se_when _ _ s1) as [s2 r2] eqn:E2.
    assert (r2 = Ok tt /\ sy_chain s2 = c' /\ sy_bq s2 = sy_bq s1) as (-> & Hc2 & Hq2)
      by (unfold se_when in E2; destruct (_ <=? _); by injection E2 as <- <-).
    unfold number. rewrite Hh, Hc, Hk, Hnum. rewrite (proj2 (Z.leb_le _ _)) by lia. rewrite <- Hk, Hl.
    exists s2. split; [done |]. by rewrite Hq2.
Qed.

(** ** A download that cannot end *)
Lemma overfull_drain n s : overfull s -> drain version chain n s = (s, Ok tt).
Proof.
  intros Ho. destruct (overfull_top s Ho) as (b & Et & Hb). destruct n; [done |]. cbn [drain]. rewrite se_bind_get, Et.
  destruct (Z.leb_spec (blockNumber b) (number chain s + 1)); [lia | done].
Qed.

Lemma overfull_queue s : overfull s ->
  (sy_knownHighestNumber s <= number chain s /\
     maintainDownloadingQueue version chain s = (set_sy_bq (bq_clear (sy_bq s)) s, Ok true)) \/
  (exists s1, maintainDownloadingQueue version chain s = (s1, Ok false) /\ same_chain s s1 /\ overfull s1).
Proof.
  intros Ho. unfold maintainDownloadingQueue. rewrite se_bind_get.
  destruct (Z.leb_spec (sy_knownHighestNumber s) (number chain s)) as [Hle|Hgt]; [by left | right].
  rewrite (se_bind_ok _ _ _ _ _ (overfull_drain _ s Ho)), se_bind_get.
  destruct (Z.leb_spec (sy_knownHighestNumber s) (number chain s)); [lia |].
  destruct (sy_maxRequestNumber s <=? number chain s); cbn [se_when]; [rewrite se_bind_mod | rewrite se_bind_ret];
    eexists; (split; [done |]); by split.
Qed.

Lemma overfull_round_end s : overfull s ->
  let s' := fst (round_end s) in
  same_chain s s' /\ (overfull s' \/ sy_knownHighestNumber s' <= number chain s').
Proof.
  intros Ho. unfold round_end. rewrite se_bind_get. unfold isSyncing.
  rewrite bool_decide_true by (by rewrite (proj1 Ho)). cbn [se_when].
  destruct (overfull_queue s Ho) as [[Hle E] | (s1 & E & Hs & Ho1)]; rewrite (se_bind_ok _ _ _ _ _ E); [| by split; [| left]].
  cbn. unfold noteDownloadingFinish. case_match; (split; [done | by right]).
Qed.

(** The download can wedge: once the queue holds more blocks than its limit and none of them
    comes next, no round and no message changes the chain or empties the queue, until the
    node believes itself to be up to date.  The queue can grow past the limit, because a
    shard is decoded whole, but is cleared only when its size equals the limit, and a full
    queue drops every shard that arrives. *)
Theorem overfull_queue_stalls i s :
  overfull s -> (forall c, i <> SyChain c) ->
  let s' := step i s in
  same_chain s s' /\ (overfull s' \/ sy_knownHighestNumber s' <= number chain s').
Proof.
  intros Ho Hi. assert (Hcalm : forall s', calm s s' -> same_chain s s' /\ (overfull s' \/ sy_knownHighestNumber s' <= number chain s')).
  { intros s' (A & _ & D). split; [done |]. left. by apply D. }
  destruct i as [sessions clock rnd | from buffer | | | n | c]; cbv zeta; cbn [sync_step];
    [| apply Hcalm, calm_messageHandler | apply Hcalm; by apply calm_same | apply Hcalm; by apply calm_same
     | apply Hcalm; by apply calm_same | by destruct (Hi c)].
  set (s0 := set_sy_rand rnd (set_sy_clock clock s)). assert (Hc0 : calm s s0) by (by apply calm_same).
  unfold sync_round. destruct (sy_working s0); [| by apply Hcalm]. rewrite doWork_split.
  pose proof (calm_round_start sessions s0) as Hs. unfold mbind, SE_bind.
  destruct (round_start sessions s0) as [s1 [u|e]]; cbn in Hs.
  2: { apply Hcalm. transitivity s0; [done |]. transitivity s1; [done |]. by apply calm_same. }
  assert (Hc1 : calm s s1) by (by transitivity s0). destruct Hc1 as (A & _ & D).
  destruct (overfull_round_end s1 (D Ho)) as (A' & D'). destruct (round_end s1) as [s2 [|]]; cbn in *.
  - split; [| done]. destruct A, A'. split; congruence.
  - split; [| done]. destruct A, A'. split; cbn; congruence.
Qed.

(** ** Transactions that are not passed on *)
Definition knows (id : NodeID) s (t : Transaction) : Prop :=
  isTransactionKnownBy (txHash version t) id (sy_txPool s) = true.
Definition learns s s' : Prop :=
  sy_sent s' = sy_sent s /\ (forall id t, knows id s t -> knows id s' t).

#[local] Instance learns_preorder : PreOrder learns.
Proof. split; [by intros s |]. intros s1 s2 s3 [A B] [A' B']. split; [congruence | auto]. Qed.

Lemma known_by_iff h id (p : @TxPool TransactionReceipt) :
  isTransactionKnownBy h id p = true <-> id ∈ default ∅ (m_transactionKnownBy p !! h).
Proof. unfold isTransactionKnownBy. destruct (_ !! h); cbn; [apply bool_decide_eq_true | set_solver]. Qed.

Lemma mark_known_iff h id h' id' s :
  isTransactionKnownBy h id (sy_txPool (mark_known h' id' s)) = true <->
  (h = h' /\ id = id') \/ isTransactionKnownBy h id (sy_txPool s) = true.
Proof.
  rewrite !known_by_iff. cbn. destruct (decide (h = h')) as [->|Hn].
  - rewrite lookup_insert_eq. cbn. set_solver.
  - rewrite lookup_insert_ne by done. naive_solver.
Qed.

Lemma learns_mark h id s : learns s (mark_known h id s).
Proof. split; [done |]. intros id' t Ht. apply mark_known_iff. by right. Qed.
Lemma learns_marks h ps s : learns s (foldl (fun s p => mark_known h p s) s ps).
Proof.
  revert s. induction ps as [|p ps IH]; intros s; cbn; [reflexivity |]. etransitivity; [apply learns_mark | apply IH].
Qed.
Lemma learns_choose n l a : se_keeps learns (choose n l a : SE St _).
Proof. revert l a. induction n; intros l a; cbn [choose]; se_keeps_auto. Qed.

Lemma assign_none i ts pt s s' : assign_txs version nodeId i ts pt s = (s', Ok None) ->
  learns s s' /\ exists pre t post, ts = pre ++ t :: post /\ Forall (knows nodeId s') pre.
Proof.
  revert i pt s. induction ts as [|t ts IH]; intros i pt s; cbn [assign_txs]; [done |]. rewrite se_bind_get.
  unfold mbind at 1, SE_bind at 1. unfold randomSelection. rewrite se_bind_get.
  destruct (choose _ _ _ s) as [s1 [ps|e]] eqn:Ec; [| done].
  pose proof (se_keeps_run _ _ _ _ _ (learns_choose _ _ _) Ec) as H1. destruct ps as [|p ps].
  - intros [= <-]. split; [done |]. by exists [], t, ts.
  - rewrite !se_bind_mod. set (s2 := mark_known _ nodeId s1). set (s3 := foldl _ s2 _). intros E.
    assert (H2 : learns s2 s3) by apply learns_marks.
    destruct (IH _ _ _ E) as (H3 & pre & t' & post & -> & Hk). split.
    + transitivity s1; [done |]. transitivity s2; [apply learns_mark |]. by transitivity s3.
    + exists (t :: pre), t', post. split; [done |]. constructor; [| done]. apply H3, H2, mark_known_iff. by left.
Qed.

(** Transactions can be lost to the other nodes: when a transaction is met that no peer
    wants, nothing is sent, yet the transactions before it are recorded as sent, and
    [topTransactionsCondition] does not return them again. *)
Theorem unwanted_transaction_drops_others s s' :
  assign_txs version nodeId 0 (topTransactionsCondition version c_maxSendTransactions nodeId (sy_txPool s)) ∅ s = (s', Ok None) ->
  maintainTransactions version nodeId s = (s', Ok tt) /\ sy_sent s' = sy_sent s /\
  exists pre t post, topTransactionsCondition version c_maxSendTransactions nodeId (sy_txPool s) = pre ++ t :: post /\
    forall x q, x ∈ pre -> x ∉ conditionScan version q nodeId (sy_txPool s') (m_txsQueue (sy_txPool s')) 0.
Proof.
  intros E. destruct (assign_none _ _ _ _ _ E) as ([Hs _] & pre & t & post & Hts & Hk).
  split; [unfold maintainTransactions; rewrite se_bind_get; unfold mbind, SE_bind; by rewrite E |].
  split; [done |]. exists pre, t, post. split; [done |]. intros x q Hx.
  rewrite Forall_forall in Hk. specialize (Hk _ Hx). unfold knows in Hk.
  generalize 0. induction (m_txsQueue (sy_txPool s')) as [|[n t'] l IH]; intros cnt; cbn [conditionScan]; [set_solver |].
  repeat case_match; [set_solver | | apply IH].
  intros [-> | Hin]%elem_of_cons; [by rewrite Hk in * | by apply IH in Hin].
Qed.

(** ** A worker that has stopped *)
Definition same_worker s s' : Prop := sy_working s' = sy_working s.
#[local] Instance same_worker_preorder : PreOrder same_worker.
Proof. split; [by intros s |]. unfold same_worker. intros s1 s2 s3. congruence. Qed.

Lemma messageHandler_worker from buffer : se_keeps same_worker (messageHandler nodeId genesisHash from buffer : SE St _).
Proof.
  unfold messageHandler, interpret, onPeerStatus, onPeerTransactions, onPeerBlocks, onPeerRequestBlocks, newSyncPeerStatus.
  se_keeps_auto. apply se_keeps_mod. intros s'. unfold same_worker. by case_match.
Qed.

Lemma stopped_step_sync i s : sy_working s = false -> sy_working (step i s) = false.
Proof.
  intros Hs. destruct i as [sessions clock rnd | from buffer | | | n | c]; cbn; try done.
  - unfold sync_round. cbn. by rewrite Hs.
  - by rewrite (messageHandler_worker from buffer s).
Qed.
Lemma stopped_run_sync l s : sy_working s = false -> sy_working (run l s) = false.
Proof. revert s. induction l as [|i l IH]; intros s Hs; [done |]. by apply IH, stopped_step_sync. Qed.
End Runs.

(** ** A queue that keeps the laws: a list from which the first element is taken *)
Section Heap.
Context {A : Type} (after : A -> A -> bool).
Context (after_irrefl : forall x, after x x = false).
Context (after_trans : forall x y z, after x y = true -> after y z = true -> after x z = true).
Context (before_trans : forall x y z, after x y = false -> after y z = false -> after x z = false).

Fixpoint extract (x : A) (l : list A) : A * list A :=
  match l with
  | [] => (x, [])
  | y :: r => if after x y then let '(b, r') := extract y r in (b, x :: r') else let '(b, r') := extract x r in (b, y :: r')
  end.

Lemma extract_perm x l : x :: l ≡ₚ fst (extract x l) :: snd (extract x l).
Proof.
  revert x. induction l as [|y r IH]; intros x; cbn; [done |]. destruct (after x y).
  - specialize (IH y). destruct (extract y r) as [b r']. cbn in *. rewrite IH. apply Permutation_swap.
  - specialize (IH x). destruct (extract x r) as [b r']. cbn in *. rewrite Permutation_swap, IH. apply Permutation_swap.
Qed.

Lemma extract_first x l : Forall (fun z => after (fst (extract x l)) z = false) (x :: l).
Proof.
  revert x. induction l as [|y r IH]; intros x; cbn; [by constructor |]. destruct (after x y) eqn:E.
  - specialize (IH y). destruct (extract y r) as [b r']. cbn in *. constructor; [| done]. apply Forall_cons in IH as [Hb _].
    destruct (after b x) eqn:E'; [| done]. by rewrite (after_trans _ _ _ E' E) in Hb.
  - specialize (IH x). destruct (extract x r) as [b r']. cbn in *. apply Forall_cons in IH as [Hb Hr].
    constructor; [done |]. constructor; [by apply (before_trans _ x) | done].
Qed.

#[refine] Definition heap : PriorityQueue after := {|
  pq_top := fun l => match l with [] => None | x :: r => Some (fst (extract x r)) end;
  pq_push := cons;
  pq_pop := fun l => match l with [] => [] | x :: r => snd (extract x r) end |}.
Proof.
  - done.
  - intros [|x l]; split; done.
  - intros [|x l] y; [done |]. intros [= <-] z Hz. pose proof (extract_first x l) as Hf.
    rewrite Forall_forall in Hf. by apply Hf.
  - intros [|x l] y; [done |]. intros [= <-]. apply extract_perm.
Defined.
End Heap.


Ltac cmp_solve :=
  unfold RequestQueueCmp, BlockQueueCmp; intros *;
  repeat match goal with |- context [?a =? ?b] => destruct (Z.eqb_spec a b) end;
  rewrite ?Z.ltb_lt, ?Z.ltb_ge; lia.

(** ** A concrete node *)
Section Sample.
#[local] Existing Instances toy_hash toy_recover.
#[local] Instance req_heap : PriorityQueue RequestQueueCmp.
Proof. apply heap; cmp_solve. Defined.
#[local] Instance block_heap : PriorityQueue BlockQueueCmp.
Proof. apply heap; cmp_solve. Defined.

(** The example of the comment in [topAndPop]. *)
Definition sample_requests : DownloadRequestQueue :=
  mkReqQueue [mkReq 10 2; mkReq 2 4; mkReq 1 3; mkReq 6 2; mkReq 1 4; mkReq 2 1] false.
Example sample_merge : topAndPop sample_requests = (mkReq 1 7, mkReqQueue [mkReq 10 2] false).
Proof. vm_compute. reflexivity. Qed.

Lemma topAndPop_merges_witness :
  covered (m_reqQueue sample_requests) 7 <-> in_req 7 (mkReq 1 7) \/ covered [mkReq 10 2] 7.
Proof.
  apply (topAndPop_merges sample_requests (mkReq 1 7) (mkReqQueue [mkReq 10 2] false)); [done | | reflexivity].
  repeat (apply Forall_cons; split; [unfold req_ok; cbn; lia |]). apply Forall_nil_2.
Defined.

(** A chain that is its height: the verifier and the consensus engine accept all blocks. *)
Definition numbered (n : Z) : EthBlock := with_header (setNumber n (setParentHash h256_0 sample_header)) emptyBlock.
Definition heights : ChainOps Z unit :=
  {| ch_number := id; ch_numberHash := fun _ _ => h256_0;
     ch_getBlockByNumber := fun c n => if n <=? c then Some (numbered n) else None;
     ch_getBlockRLPByNumber := fun c n => None;
     ch_sealerList := fun _ => [replicate 64 1; replicate 64 2]; ch_observerList := fun _ => [];
     ch_nonces := chain_of (fun _ => []); ch_executeBlock := fun _ b _ => Ok (b, tt);
     ch_commitBlock := fun _ b _ => Some (blockNumber b); ch_isConsensusOk := fun _ _ => true |}.

Definition peer_at (n : Z) : SyncPeerStatus := mkPeer n h256_0 h256_0 emptyReqQueue true.
Definition other : NodeID := replicate 64 2.
Definition sync_node (st : SyncState) (peer : Z) (q : list EthBlock) (pool : @TxPool TransactionReceipt) : SyncMaster Z :=
  mkSyncMaster peer h256_0 st {[other := peer_at peer]} (mkBlockQueue q []) [] 0 0 0 false false 0 true true pool
    0 [100] [0] [] [] true.
Definition empty_pool : @TxPool TransactionReceipt := newPool (chain_of (fun _ => []) 0) 100 1 1.
Abbreviation me := (replicate 64 1 : NodeID).

(** Two blocks, in the wrong order. *)
Definition downloading : SyncMaster Z := sync_node Downloading 2 [numbered 2; numbered 1] empty_pool.
Definition two_rounds : list (@sync_input Z) := [SyRound [other] [100] [0]; SyNewBlocks; SyRound [other] [200] [0]].

Lemma sync_commits_checked_witness :
  length (sy_committed (sync_run RC2_VERSION heights me h256_0 two_rounds downloading)) = 2%nat /\
  Forall (commit_ok heights) (sy_committed (sync_run RC2_VERSION heights me h256_0 two_rounds downloading)).
Proof. split; [vm_compute; reflexivity |]. apply sync_commits_checked. constructor. Defined.

Lemma sync_memory_bounded_witness : bounded (sync_run RC2_VERSION heights me h256_0 two_rounds downloading).
Proof.
  apply sync_memory_bounded. split; [vm_compute; discriminate |]. apply map_Forall_singleton. vm_compute. discriminate.
Defined.

Lemma sync_commits_ordered_witness :
  commit_numbers (sync_run RC2_VERSION heights me h256_0 two_rounds downloading) = [2; 1] /\
  StronglySorted Z.gt (commit_numbers (sync_run RC2_VERSION heights me h256_0 two_rounds downloading)).
Proof.
  split; [vm_compute; reflexivity |]. apply sync_commits_ordered.
  - intros c b ctx c' [= <-]. reflexivity.
  - intros c b p b' ctx [= <- _]. reflexivity.
  - split; constructor.
  - repeat split.
Defined.

Lemma download_completes_witness :
  exists s', maintainDownloadingQueue RC2_VERSION heights downloading = (s', Ok true) /\ sy_chain s' = 2.
Proof.
  destruct (download_completes RC2_VERSION heights [numbered 1; numbered 2] [] 2 (numbered 2) downloading)
    as (s' & E & Hs).
  - apply (accepts_cons heights 0 (numbered 1) [numbered 2] (numbered 0) (numbered 1) tt 1 2); try reflexivity.
    apply (accepts_cons heights 1 (numbered 2) [] (numbered 1) (numbered 2) tt 2 2); try reflexivity. constructor.
  - apply new_wf.
  - cbn. apply Permutation_swap.
  - constructor.
  - reflexivity.
  - reflexivity.
  - exists s'. split; [exact E |]. apply Hs. discriminate.
Defined.

(** A queue of 257 blocks; the next block is missing. *)
Definition stalled : SyncMaster Z := sync_node Downloading 300 (replicate 257 (numbered 10)) empty_pool.
Lemma overfull_queue_stalls_witness :
  let s' := sync_step RC2_VERSION heights me h256_0 (SyRound [other] [1000000] [0]) stalled in
  same_chain stalled s' /\ (overfull heights s' \/ sy_knownHighestNumber s' <= number heights s').
Proof.
  apply overfull_queue_stalls; [| discriminate]. split; [reflexivity |]. split; [vm_compute; reflexivity |].
  apply Forall_replicate. vm_compute. reflexivity.
Defined.

(** Two transactions: nobody else has the first, the peer sent the second. *)
Definition signed (n : Z) : Transaction :=
  updateSignature (Some {| sig_r := zeros 31 ++ [9]; sig_s := zeros 31 ++ [n]; sig_v := 1 |})
    (setBlockLimit 500 (messageCall 10 1 3000000 (replicate 20 5) [1; 2; 3] n 1 1)).
Definition two_txs : @TxPool TransactionReceipt :=
  let p := pool_run RC2_VERSION [PImport 10 (signed 7); PImport 20 (signed 8)] empty_pool in
  setTransactionsAreKnownBy (map (txHash RC2_VERSION) (drop 1 (pendingList p))) other p.
Definition sending : SyncMaster Z := sync_node Idle 0 [] two_txs.
Definition after_sending : SyncMaster Z := fst (maintainTransactions RC2_VERSION me sending).

Example two_pending : length (pendingList two_txs) = 2%nat.
Proof. vm_compute. reflexivity. Qed.
Lemma unwanted_transaction_drops_others_witness :
  length (topTransactionsCondition RC2_VERSION c_maxSendTransactions me (sy_txPool after_sending)) = 1%nat /\
  maintainTransactions RC2_VERSION me sending = (after_sending, Ok tt) /\ sy_sent after_sending = [].
Proof.
  split; [vm_compute; reflexivity |].
  destruct (unwanted_transaction_drops_others RC2_VERSION me sending after_sending) as (E & Hs & _); [vm_compute; reflexivity |].
  split; [exact E | rewrite Hs; reflexivity].
Defined.

(** One malformed packet stops the worker for good: the exception of a transactions packet that cannot
    be decoded leaves [doWork], and no later input restarts the worker. *)
Theorem malformed_transactions_stop :
  exists (s : SyncMaster Z) (buffer : bytes), sy_working s = true /\
    snd (doWork RC2_VERSION heights me h256_0 [other] (sync_step RC2_VERSION heights me h256_0 (SyMessage other buffer) s))
      = Throw InvalidBlockFormat /\
    forall l, sy_working (sync_run RC2_VERSION heights me h256_0
      (SyMessage other buffer :: SyRound [other] [100] [0] :: l) s) = false.
Proof.
  exists (sync_node Idle 0 [] empty_pool), ([2; 205; 140] ++ [0; 0; 0; 1] ++ zeros 8).
  split; [reflexivity |]. split; [vm_compute; reflexivity |]. intros l.
  unfold sync_run. cbn [foldl]. apply (stopped_run_sync RC2_VERSION heights me h256_0 l). vm_compute. reflexivity.
Qed.
End Sample.
