(* ===== verification/Text.v ===== *)
(** * Strings and numbers in tables

    [std::string] is a list of bytes.  The conversions the storage layer and the
    contracts use: [u256::str] and the constructor of [u256] from a string,
    [boost::lexical_cast], [std::stoi], [boost::to_lower], [boost::split], and the
    byte-wise order of [std::string]. *)

From S2P Require Import Prelude CommonData.
From Stdlib Require Import Ascii String.

(** A literal. *)
Definition str (s : string) : chars := map (fun c => Z.of_N (N_of_ascii c)) (String.list_ascii_of_string s).

(** ** Decimal numbers *)
Definition is_digit (c : Z) : bool := (48 <=? c) && (c <=? 57).
Definition dec_val (s : chars) : Z := foldl (fun r c => 10 * r + (c - 48)) 0 s.

(** Digits, least significant first; a number below [2^k] has at most [k] of them. *)
Fixpoint dec_loop (fuel : nat) (n : Z) (acc : chars) : chars :=
  match fuel with
  | O => acc
  | S f => if n <? 10 then (48 + n) :: acc else dec_loop f (n / 10) ((48 + n mod 10) :: acc)
  end.

(** [u256::str], [lexical_cast<std::string>] of an unsigned number. *)
Definition dec (n : Z) : chars := dec_loop (S (Z.to_nat (Z.log2 n))) n [].
(** Of a signed number. *)
Definition sdec (n : Z) : chars := if n <? 0 then 45 :: dec (- n) else dec n.

(** ** Parsing *)

(** [c_str]: what a C function sees of a string. *)
Fixpoint c_str (s : chars) : chars :=
  match s with [] => [] | c :: r => if c =? 0 then [] else c :: c_str r end.

(** The digits of radix 8 and 16 of a multiprecision number. *)
Definition radix_digit (radix c : Z) : option Z :=
  let v := fromHexChar c in if (0 <=? v) && (v <? radix) then Some v else None.

Fixpoint radix_val (radix : Z) (s : chars) (acc : Z) : option Z :=
  match s with
  | [] => Some acc
  | c :: r => v ← radix_digit radix c; radix_val radix r (wrap 256 (radix * acc + v))
  end.

(** The constructor of [u256] from a string: hexadecimal after [0x], octal after
    [0], decimal otherwise; overflow wraps.  [None] is [std::runtime_error]. *)
Definition u256_magnitude (s : chars) : option Z :=
  match s with
  | [] => Some 0
  | 48 :: r =>
      match r with
      | 120 :: h | 88 :: h => radix_val 16 h 0
      | _ => radix_val 8 r 0
      end
  | _ => radix_val 10 s 0
  end.

Definition u256_of_string (s0 : chars) : option Z :=
  match c_str s0 with
  | 45 :: r => (fun v => wrap 256 (- v)) <$> u256_magnitude r
  | s => u256_magnitude s
  end.

(** [lexical_cast<int64_t>]; [None] is [bad_lexical_cast]. *)
Definition cast_digits (s : chars) : option Z :=
  if bool_decide (s = []) || negb (forallb is_digit s) then None else Some (dec_val s).

Definition lexical_int64 (s : chars) : option Z :=
  match s with
  | 45 :: r => v ← cast_digits r; if v <=? 2 ^ 63 then Some (- v) else None
  | 43 :: r => v ← cast_digits r; if v <? 2 ^ 63 then Some v else None
  | _ => v ← cast_digits s; if v <? 2 ^ 63 then Some v else None
  end.

(** [std::stoi]: white space, a sign, and the digits up to the first other
    character; [None] is [invalid_argument] or [out_of_range]. *)
Definition is_space (c : Z) : bool := (c =? 32) || ((9 <=? c) && (c <=? 13)).
Fixpoint drop_space (s : chars) : chars :=
  match s with c :: r => if is_space c then drop_space r else s | [] => [] end.
Fixpoint take_digits (s : chars) : chars :=
  match s with c :: r => if is_digit c then c :: take_digits r else [] | [] => [] end.

Definition stoi (s : chars) : option Z :=
  let '(sign, body) := match drop_space (c_str s) with
    | 45 :: r => (-1, r) | 43 :: r => (1, r) | r => (1, r) end in
  match take_digits body with
  | [] => None
  | ds => let v := sign * dec_val ds in if (- 2 ^ 31 <=? v) && (v <? 2 ^ 31) then Some v else None
  end.

(** ** Other operations *)
Definition to_lower (s : chars) : chars := map (fun c => if (65 <=? c) && (c <=? 90) then c + 32 else c) s.

(** [boost::split] at a character: always at least one part. *)
Fixpoint split_at_char (sep : Z) (s cur : chars) : list chars :=
  match s with
  | [] => [cur]
  | c :: r => if c =? sep then cur :: split_at_char sep r [] else split_at_char sep r (cur ++ [c])
  end.
Definition split_comma (s : chars) : list chars := split_at_char 44 s [].

(** The order of [std::string]. *)
Fixpoint str_ltb (a b : chars) : bool :=
  match a, b with
  | [], [] => false
  | [], _ :: _ => true
  | _ :: _, [] => false
  | x :: a', y :: b' => if x =? y then str_ltb a' b' else x <? y
  end.

(** ** Printing and reading back *)
Lemma dec_loop_val fuel n acc : 0 <= n < 2 ^ Z.of_nat fuel ->
  foldl (fun r c => 10 * r + (c - 48)) 0 (dec_loop fuel n acc) = foldl (fun r c => 10 * r + (c - 48)) n acc.
Proof.
  revert n acc. induction fuel as [|f IH]; intros n acc Hn; [cbn in *; f_equal; lia |]. cbn [dec_loop].
  destruct (Z.ltb_spec n 10); [cbn [foldl]; f_equal; lia |].
  rewrite Nat2Z.inj_succ, Z.pow_succ_r in Hn by lia.
  rewrite IH by (Z.div_mod_to_equations; lia). cbn [foldl]. f_equal. Z.div_mod_to_equations. lia.
Qed.

Lemma dec_loop_digits fuel n acc : 0 <= n -> forallb is_digit acc = true -> forallb is_digit (dec_loop fuel n acc) = true.
Proof.
  revert n acc. induction fuel as [|f IH]; intros n acc Hn Ha; [done |]. cbn [dec_loop].
  destruct (Z.ltb_spec n 10); cbn [forallb].
  - rewrite Ha. unfold is_digit. by rewrite !(proj2 (Z.leb_le _ _)) by lia.
  - apply IH; [Z.div_mod_to_equations; lia |]. cbn [forallb]. rewrite Ha. unfold is_digit.
    by rewrite !(proj2 (Z.leb_le _ _)) by (Z.div_mod_to_equations; lia).
Qed.

Lemma dec_loop_head fuel n acc : 0 < n < 2 ^ Z.of_nat fuel -> exists d r, dec_loop fuel n acc = d :: r /\ 49 <= d <= 57.
Proof.
  revert n acc. induction fuel as [|f IH]; intros n acc Hn; [cbn in Hn; lia |]. cbn [dec_loop].
  destruct (Z.ltb_spec n 10); [eexists _, _; split; [reflexivity | lia] |].
  rewrite Nat2Z.inj_succ, Z.pow_succ_r in Hn by lia. apply IH. Z.div_mod_to_equations. lia.
Qed.

Lemma dec_fuel n : 0 <= n -> 0 <= n < 2 ^ Z.of_nat (S (Z.to_nat (Z.log2 n))).
Proof.
  intros Hn. split; [done |]. rewrite Nat2Z.inj_succ, Z2Nat.id by apply Z.log2_nonneg.
  destruct (decide (n = 0)) as [-> | Hp]; [cbn; lia | apply Z.log2_spec; lia].
Qed.

Lemma dec_digits n : 0 <= n -> forallb is_digit (dec n) = true.
Proof. intros. by apply dec_loop_digits. Qed.
Lemma dec_val_dec n : 0 <= n -> dec_val (dec n) = n.
Proof. intros. unfold dec_val, dec. by rewrite dec_loop_val by (by apply dec_fuel). Qed.
Lemma dec_head n : 0 < n -> exists d r, dec n = d :: r /\ 49 <= d <= 57.
Proof. intros. apply dec_loop_head. pose proof (dec_fuel n). lia. Qed.
Lemma dec_0 : dec 0 = [48].
Proof. reflexivity. Qed.
Lemma dec_nonempty n : 0 <= n -> dec n <> [].
Proof. intros. destruct (decide (n = 0)) as [-> |]; [done |]. destruct (dec_head n) as (d & r & -> & _); [lia | done]. Qed.

Lemma dec_inj n m : 0 <= n -> 0 <= m -> dec n = dec m -> n = m.
Proof. intros Hn Hm E. rewrite <- (dec_val_dec n), <- (dec_val_dec m) by done. by rewrite E. Qed.

Lemma digits_c_str s : forallb is_digit s = true -> c_str s = s.
Proof.
  induction s as [|c r IH]; cbn; [done |]. unfold is_digit. intros H. bool_to_prop.
  destruct (Z.eqb_spec c 0); [lia |]. by rewrite IH.
Qed.

Lemma radix_val_dec s acc : forallb is_digit s = true -> 0 <= acc ->
  radix_val 10 s (wrap 256 acc) = Some (wrap 256 (foldl (fun r c => 10 * r + (c - 48)) acc s)).
Proof.
  revert acc. induction s as [|c r IH]; intros acc Hd Ha; [done |]. cbn in Hd. apply andb_true_iff in Hd as [Hc Hr].
  unfold is_digit in Hc. bool_to_prop. cbn [radix_val foldl].
  assert (radix_digit 10 c = Some (c - 48)) as ->.
  { unfold radix_digit, fromHexChar. destruct (Z.leb_spec 48 c), (Z.leb_spec c 57); try lia. cbn [andb].
    destruct (Z.leb_spec 0 (c - 48)), (Z.ltb_spec (c - 48) 10); (done || lia). }
  cbn [mbind option_bind]. rewrite <- IH by (done || lia). f_equal. unfold wrap.
  rewrite <- (Zplus_mod_idemp_l (10 * _)), Zmult_mod_idemp_r, Zplus_mod_idemp_l. done.
Qed.

(** Numbers survive a table: what [str] writes, the constructor reads. *)
Lemma u256_dec n : 0 <= n < 2 ^ 256 -> u256_of_string (dec n) = Some n.
Proof.
  intros Hn. destruct (decide (n = 0)) as [-> | Hp]; [reflexivity |].
  destruct (dec_head n) as (d & r & E & Hd); [lia |]. pose proof (dec_digits n ltac:(lia)) as Hds.
  unfold u256_of_string. rewrite (digits_c_str _ Hds).
  assert (u256_magnitude (dec n) = Some n) as Hm.
  { assert (u256_magnitude (dec n) = radix_val 10 (dec n) (wrap 256 0)) as ->.
    { rewrite E. unfold u256_magnitude. destruct d as [|p|p]; [lia | | lia].
      do 6 (destruct p as [p|p|]; try reflexivity); lia. }
    rewrite radix_val_dec by done. fold (dec_val (dec n)). by rewrite dec_val_dec, wrap_small by lia. }
  rewrite E in *. destruct d as [|p|p]; [lia | | lia]. do 6 (destruct p as [p|p|]; try exact Hm); lia.
Qed.

Lemma lexical_dec n : 0 <= n < 2 ^ 63 -> lexical_int64 (dec n) = Some n.
Proof.
  intros Hn. pose proof (dec_digits n ltac:(lia)) as Hds.
  assert (cast_digits (dec n) = Some n) as Hc.
  { unfold cast_digits. rewrite bool_decide_false by (apply dec_nonempty; lia). rewrite Hds. cbn [negb orb]. by rewrite dec_val_dec by lia. }
  unfold lexical_int64.
  assert (H : forall (k : chars -> option Z) (k' : chars -> option Z) (e : option Z),
    match dec n with 45 :: r => k r | 43 :: r => k' r | _ => e end = e).
  { intros k k' e. destruct (dec n) as [|c r]; [done |]. cbn in Hds. apply andb_true_iff in Hds as [Hcd _].
    unfold is_digit in Hcd. bool_to_prop. destruct c as [|p|p]; try done. do 6 (destruct p as [p|p|]; try done). }
  rewrite H, Hc. cbn. by rewrite (proj2 (Z.ltb_lt _ _)) by lia.
Qed.

(** ** The order of strings *)
Lemma str_ltb_irrefl a : str_ltb a a = false.
Proof. induction a as [|x a IH]; cbn; [done |]. by rewrite Z.eqb_refl. Qed.
Lemma str_ltb_trans a b c : str_ltb a b = true -> str_ltb b c = true -> str_ltb a c = true.
Proof.
  revert b c. induction a as [|x a IH]; intros [|y b] [|z c]; cbn; try done.
  destruct (Z.eqb_spec x y), (Z.eqb_spec y z), (Z.eqb_spec x z); subst; intros; bool_to_prop; try lia; eauto;
    apply Z.ltb_lt; lia.
Qed.
Lemma str_ltb_total a b : str_ltb a b = false -> str_ltb b a = false -> a = b.
Proof.
  revert b. induction a as [|x a IH]; intros [|y b]; cbn; try done. rewrite (Z.eqb_sym y x).
  destruct (Z.eqb_spec x y) as [-> |]; intros; [f_equal; by apply IH | bool_to_prop; lia].
Qed.
