(* ===== verification/ABI.v ===== *)
(** * The Solidity ABI

    [libethcore/ABI.h] and [.cpp]: [ContractABI::abiIn] and [abiOut].  The
    types that the C++ templates range over are the values of [ABIType]; a
    call is a list of them.  Offsets are [size_t] and wrap. *)

From S2P Require Import Prelude CommonData Text PBFTMsg.

Inductive ABIType : Set :=
| AUint | AInt | ABool | AAddress | ABytes32 | AString
| AArray (n : nat) (t : ABIType) | AVector (t : ABIType).
Inductive ABIVal : Set := VZ (n : Z) | VBool (b : bool) | VBytes (b : list Z) | VList (l : list ABIVal).

(** [ABIDynamicType], [Length] and [Offset]. *)
Fixpoint dynamicType (t : ABIType) : bool :=
  match t with AString | AVector _ => true | AArray _ t => dynamicType t | _ => false end.
Fixpoint abiLength (t : ABIType) : Z :=
  match t with AArray n t' => if dynamicType t then 1 else Z.of_nat n * abiLength t' | _ => 1 end.
Definition abiOffset (ts : list ABIType) : Z := foldr (fun t n => abiLength t + n) 0 ts.
Definition MAX_BYTE_LENGTH : Z := 32.

(** ** Encoding *)
Definition word (n : Z) : bytes := toBigEndian 32 (wrap 256 n).

(** The offsets of dynamic elements. *)
Fixpoint heads (start : Z) (outs : list bytes) : bytes :=
  match outs with [] => [] | o :: r => word start ++ heads (start + lenZ o) r end.
Definition elements (dyn : bool) (start : Z) (outs : list bytes) : bytes := (if dyn then heads start outs else []) ++ concat outs.

Definition pad32 (b : bytes) : bytes := b ++ repeat 0 (Z.to_nat ((lenZ b + 31) / 32 * 32 - lenZ b)).

Fixpoint serialise (t : ABIType) (v : ABIVal) : bytes :=
  match t, v with
  | AUint, VZ n | AInt, VZ n => word n
  | ABool, VBool b => word (if b then 1 else 0)
  | AAddress, VBytes b => repeat 0 12 ++ b
  | ABytes32, VBytes b => b
  | AString, VBytes b => word (lenZ b) ++ pad32 b
  | AArray n t', VList l => elements (dynamicType t') (Z.of_nat n * 32) (map (serialise t') l)
  | AVector t', VList l => word (lenZ l) ++ elements (dynamicType t') (lenZ l * 32) (map (serialise t') l)
  | _, _ => []
  end.

Fixpoint abiInAux (offset : Z) (tvs : list (ABIType * ABIVal)) : bytes * bytes :=
  match tvs with
  | [] => ([], [])
  | (t, v) :: r =>
      let out := serialise t v in
      if dynamicType t then
        let '(f, d) := abiInAux (offset + lenZ out) r in (word offset ++ f, out ++ d)
      else let '(f, d) := abiInAux offset r in (out ++ f, d)
  end.
(** [abiIn] with an empty signature. *)
Definition abiIn (tvs : list (ABIType * ABIVal)) : bytes :=
  let '(f, d) := abiInAux (abiOffset (map fst tvs) * 32) tvs in f ++ d.

(** ** Decoding *)
Section Decode.
Context (data : bytes).
Definition validOffset (o : Z) : result unit := if lenZ data <=? o then Throw OutOfRange else Ok tt.
Definition sz (n : Z) : Z := wrap 64 n.

Definition de_word (o : Z) : result Z :=
  _ ← validOffset (sz (o + 31));
  Ok (fromBigEndian (wrap 256) (cropped2 o 32 data)).

Definition int_of_word (u : Z) : Z :=
  if 0x8fffffffffffffffffffffffffffffffffffffffffffffffffffffffffffffff <? u then - ((2 ^ 256 - 1 - u) + 1) else u.

(** The loop over the elements of an array. *)
Fixpoint de_loop (de : Z -> result ABIVal) (fuel : nat) (u n : Z) : result (list ABIVal) :=
  if n <=? u then Ok []
  else match fuel with
  | O => Throw OutOfRange
  | S fuel => v ← de u; r ← de_loop de fuel (u + 1) n; Ok (v :: r)
  end.
Definition de_element (de : Z -> result ABIVal) (t : ABIType) (o u : Z) : result ABIVal :=
  if dynamicType t then
    e ← de_word (sz (o + u * abiLength t * 32));
    de (sz (o + sz e))
  else de (sz (o + u * abiLength t * 32)).

Fixpoint deserialise (t : ABIType) (o : Z) : result ABIVal :=
  match t with
  | AUint => n ← de_word o; Ok (VZ n)
  | AInt => n ← de_word o; Ok (VZ (int_of_word n))
  | ABool => n ← de_word o; Ok (VBool (0 <? n))
  | AAddress => _ ← validOffset (sz (o + 31)); Ok (VBytes (cropped2 (sz (o + 12)) 20 data))
  | ABytes32 => _ ← validOffset (sz (o + 31)); Ok (VBytes (cropped2 o 32 data))
  | AString =>
      len ← de_word o;
      _ ← validOffset (sz (o + 32 + sz len - 1));
      Ok (VBytes (cropped2 (sz (o + 32)) (sz len) data))
  | AArray n t' => l ← de_loop (de_element (deserialise t') t' o) n 0 (Z.of_nat n); Ok (VList l)
  | AVector t' =>
      len ← de_word o;
      l ← de_loop (de_element (deserialise t') t' (sz (o + 32))) (S (length data)) 0 (sz len);
      Ok (VList l)
  end.

(** [abiOut] keeps the arguments it decoded before an exception. *)
Fixpoint abiOutAux (ts : list ABIType) (offset : Z) : list ABIVal * bool :=
  match ts with
  | [] => ([], true)
  | t :: r =>
      let v := if dynamicType t then (e ← de_word offset; deserialise t (sz e)) else deserialise t offset in
      match v with
      | Throw _ => ([], false)
      | Ok v => let '(vs, ok) := abiOutAux r (sz (offset + abiLength t * 32)) in (v :: vs, ok)
      end
  end.
Definition abiOut (ts : list ABIType) : list ABIVal * bool := abiOutAux ts 0.

(** The [i]th argument; one that was not decoded has its initial value. *)
Definition arg_string (i : nat) (vs : list ABIVal) : chars := match vs !! i with Some (VBytes b) => b | _ => [] end.
Definition arg_u256 (i : nat) (vs : list ABIVal) : Z := match vs !! i with Some (VZ n) => n | _ => 0 end.
End Decode.

(** [abiOutByFuncSelector]: the types are named, and exceptions leave it. *)
Definition type_named (s : chars) : option ABIType :=
  if bool_decide (s = str "int") || bool_decide (s = str "int256") then Some AInt
  else if bool_decide (s = str "uint") || bool_decide (s = str "uint256") then Some AUint
  else if bool_decide (s = str "address") then Some AAddress
  else if bool_decide (s = str "string") then Some AString
  else None.
Definition arg_text (v : ABIVal) : chars :=
  match v with VZ n => sdec n | VBytes b => b | _ => [] end.
Fixpoint abiOutByFuncSelector (data : bytes) (types : list chars) (offset : Z) : result (list chars * bool) :=
  match types with
  | [] => Ok ([], true)
  | s :: r =>
      match type_named s with
      | None => Ok ([], false)
      | Some t =>
          v ← (if dynamicType t then (e ← de_word data offset; deserialise data t (sz e)) else deserialise data t offset);
          rest ← abiOutByFuncSelector data r (sz (offset + 32));
          Ok ((match t with AAddress => toHex [] (arg_text v) | _ => arg_text v end) :: fst rest, snd rest)
      end
  end.

(** ** Typed values *)
Fixpoint has_type (t : ABIType) (v : ABIVal) : Prop :=
  match t, v with
  | AUint, VZ n => 0 <= n < 2 ^ 256
  | AInt, VZ n => - (7 * 2 ^ 252) <= n < 2 ^ 255
  | ABool, VBool _ => True
  | AAddress, VBytes b => length b = 20%nat
  | ABytes32, VBytes b => length b = 32%nat
  | AString, VBytes b => True
  | AArray n t', VList l => length l = n /\ (0 < n)%nat /\ Forall (has_type t') l
  | AVector t', VList l => Forall (has_type t') l
  | _, _ => False
  end.

(** ** Round trip *)
#[local] Arguments word : simpl never.
Lemma word_length n : lenZ (word n) = 32.
Proof. unfold lenZ, word. by rewrite toBigEndian_length. Qed.
Lemma word_value n : fromBigEndian (wrap 256) (word n) = wrap 256 n.
Proof.
  unfold word. pose proof (wrap_range 256 n ltac:(lia)) as Hr.
  assert (E : be_val (toBigEndian 32 (wrap 256 n)) = wrap 256 n).
  { rewrite be_val_toBigEndian by lia. apply Z.mod_small. change (256 ^ Z.of_nat 32) with (2 ^ 256). lia. }
  rewrite fromBigEndian_exact, E; [done | apply toBigEndian_bytes |]. intros x Hx. apply wrap_small. lia.
Qed.

(** A part of the data. *)
Lemma cropped_at pre mid post : cropped2 (lenZ pre) (lenZ mid) (pre ++ mid ++ post) = mid.
Proof.
  unfold cropped2. rewrite !lenZ_app. pose proof (lenZ_nonneg pre). pose proof (lenZ_nonneg mid). pose proof (lenZ_nonneg post).
  rewrite !(proj2 (Z.leb_le _ _)) by lia. cbn [andb]. unfold lenZ. rewrite !Nat2Z.id, drop_app_length, take_app_length. done.
Qed.
Lemma valid_at data o : o < lenZ data -> validOffset data o = Ok tt.
Proof. intros Ho. unfold validOffset. by rewrite (proj2 (Z.leb_gt _ _)) by lia. Qed.
Lemma sz_small n : 0 <= n < 2 ^ 64 -> sz n = n.
Proof. apply wrap_small. Qed.

Section Parts.
Context (data : bytes) (Hdata : lenZ data < 2 ^ 64).

(** [x] lies at [o] in the data. *)
Definition at_offset (o : Z) (x : bytes) : Prop := exists pre post, data = pre ++ x ++ post /\ o = lenZ pre.

Lemma at_bounds o x : at_offset o x -> 0 <= o /\ o + lenZ x <= lenZ data.
Proof. clear Hdata. intros (pre & post & -> & ->). rewrite !lenZ_app. pose proof (lenZ_nonneg pre). pose proof (lenZ_nonneg post). lia. Qed.
Lemma at_cropped o x n : at_offset o x -> n = lenZ x -> cropped2 o n data = x.
Proof. clear Hdata. intros (pre & post & -> & ->) ->. apply cropped_at. Qed.
Lemma at_app o x y : at_offset o (x ++ y) -> at_offset o x /\ at_offset (o + lenZ x) y.
Proof.
  intros (pre & post & E & ->). split.
  - exists pre, (y ++ post). by rewrite E, <- !app_assoc.
  - exists (pre ++ x), post. by rewrite E, <- !app_assoc, lenZ_app.
Qed.

Lemma at_word o n : at_offset o (word n) -> de_word data o = Ok (wrap 256 n).
Proof.
  intros Ha. pose proof (at_bounds _ _ Ha) as Hb. rewrite word_length in Hb. unfold de_word.
  rewrite sz_small, valid_at by lia. cbn. rewrite (at_cropped o (word n)) by (done || by rewrite word_length). by rewrite word_value.
Qed.

Lemma de_loop_ok de l fuel u n : (forall i v, l !! i = Some v -> de (u + Z.of_nat i) = Ok v) -> n = u + lenZ l -> (length l <= fuel)%nat ->
  de_loop de fuel u n = Ok l.
Proof.
  revert fuel u. induction l as [|v l IH]; intros fuel u Hl Hn Hf.
  - rewrite lenZ_nil in Hn. destruct fuel; cbn; by rewrite (proj2 (Z.leb_le _ _)) by lia.
  - rewrite lenZ_cons in Hn. pose proof (lenZ_nonneg l). destruct fuel as [|fuel]; [cbn in Hf; lia |]. cbn. rewrite (proj2 (Z.leb_gt _ _)) by lia.
    pose proof (Hl 0%nat v eq_refl) as E. rewrite Z.add_0_r in E. rewrite E. cbn.
    rewrite (IH fuel (u + 1)); [done | | lia | cbn in Hf; lia].
    intros i x Hx. replace (u + 1 + Z.of_nat i) with (u + Z.of_nat (S i)) by lia. by apply Hl.
Qed.

(** Elements at their offsets. *)
Lemma at_concat o outs i x : at_offset o (concat outs) -> outs !! i = Some x -> at_offset (o + lenZ (concat (take i outs))) x.
Proof.
  intros Ha Hx. rewrite <- (take_drop_middle _ _ _ Hx), concat_app in Ha. cbn in Ha. apply at_app in Ha as [_ Ha]. by apply at_app in Ha as [Ha _].
Qed.
Lemma heads_at o start outs i x : at_offset o (heads start outs) -> outs !! i = Some x ->
  at_offset (o + Z.of_nat i * 32) (word (start + lenZ (concat (take i outs)))).
Proof.
  revert o start i. induction outs as [|y outs IH]; intros o start i Ha Hx; [done |]. cbn in Ha. apply at_app in Ha as [Ha1 Ha2].
  destruct i as [|i]; [cbn; rewrite !Z.add_0_r; exact Ha1 |]. cbn [take concat lookup list_lookup] in *. rewrite word_length in Ha2. specialize (IH _ _ _ Ha2 Hx).
  rewrite lenZ_app. replace (o + Z.of_nat (S i) * 32) with (o + 32 + Z.of_nat i * 32) by lia. by rewrite Z.add_assoc.
Qed.
Lemma heads_length start outs : lenZ (heads start outs) = lenZ outs * 32.
Proof. revert start. induction outs as [|y outs IH]; intros start; [done |]. cbn [heads]. rewrite lenZ_app, word_length, IH, lenZ_cons. lia. Qed.

Lemma static_concat (L : Z) (outs : list bytes) i : Forall (fun x => lenZ x = L) outs -> (i <= length outs)%nat -> lenZ (concat (take i outs)) = Z.of_nat i * L.
Proof.
  revert i. induction outs as [|y outs IH]; intros [|i] Hf Hi; cbn in *; try done; try lia.
  apply Forall_cons in Hf as [Hy Hf]. rewrite lenZ_app, IH, Hy by (done || lia). lia.
Qed.
End Parts.

(** Static values have the length of their type. *)
Lemma static_length t v : has_type t v -> dynamicType t = false -> lenZ (serialise t v) = 32 * abiLength t.
Proof.
  revert v. induction t as [| | | | | |n t IH|t IH]; intros v Hv Hd; destruct v as [z|b|b|l]; cbn in Hv; try done.
  - cbn [serialise abiLength]. unfold lenZ. by rewrite length_app, Hv.
  - cbn [serialise abiLength]. unfold lenZ. by rewrite Hv.
  - cbn in Hd. cbn [serialise abiLength]. cbn [dynamicType]. rewrite Hd. unfold elements. cbn. destruct Hv as (<- & _ & Hf).
    clear -IH Hf Hd. induction l as [|v l IHl]; cbn; [done |]. apply Forall_cons in Hf as [Hv Hf].
    rewrite lenZ_app, IH, IHl by done. lia.
Qed.

Lemma static_pos t v : has_type t v -> dynamicType t = false -> 1 <= abiLength t.
Proof.
  revert v. induction t as [| | | | | |n t IH|t IH]; intros v Hv Hd; try (cbn; lia).
  destruct v as [z|b|b|l]; try done. destruct Hv as (Hl & Hn & Hf). cbn in *. rewrite Hd. destruct l as [|x l]; [cbn in Hl; lia |].
  apply Forall_cons in Hf as [Hx _]. specialize (IH x Hx Hd). nia.
Qed.
Lemma dynamic_length t : dynamicType t = true -> abiLength t = 1.
Proof. destruct t; cbn; try done. by intros ->. Qed.

Section RoundTrip.
Context (data : bytes) (Hdata : lenZ data < 2 ^ 64).

Lemma element_ok t l o i v : (forall v o, has_type t v -> at_offset data o (serialise t v) -> deserialise data t o = Ok v) ->
  Forall (has_type t) l -> at_offset data o (elements (dynamicType t) (lenZ l * 32) (map (serialise t) l)) -> l !! i = Some v ->
  de_element data (deserialise data t) t o (Z.of_nat i) = Ok v.
Proof.
  intros IH Hf Ha Hi. pose proof (proj1 (Forall_lookup _ _) Hf i v Hi) as Hv. pose proof (lookup_lt_Some _ _ _ Hi) as Hlt.
  assert (Ho : map (serialise t) l !! i = Some (serialise t v)) by (rewrite <- list_fmap_eq_map || idtac; by rewrite list_lookup_fmap, Hi).
  pose proof (at_bounds data _ _ Ha) as Hb. pose proof (at_app data _ _ _ Ha) as [Hh Hc]. unfold de_element.
  assert (Hlm : lenZ (map (serialise t) l) = lenZ l) by (unfold lenZ; by rewrite length_map).
  destruct (dynamicType t) eqn:Hd.
  - rewrite (dynamic_length t Hd), Z.mul_1_r. pose proof (heads_at data _ _ _ i _ Hh Ho) as Hw. pose proof (at_bounds data _ _ Hw) as Hwb.
    rewrite sz_small by (rewrite word_length in Hwb; lia). rewrite (at_word data Hdata _ _ Hw). cbn [mbind result_bind].
    rewrite heads_length, Hlm in Hc. pose proof (at_concat data _ _ i _ Hc Ho) as Hx. pose proof (at_bounds data _ _ Hx) as Hxb.
    pose proof (lenZ_nonneg (concat (take i (map (serialise t) l)))). pose proof (lenZ_nonneg l). pose proof (lenZ_nonneg (serialise t v)).
    assert (2 ^ 64 < 2 ^ 256) by (apply Z.pow_lt_mono_r; lia).
    rewrite wrap_small, (sz_small (lenZ l * 32 + _)) by lia. rewrite sz_small by lia. rewrite Z.add_assoc. by apply IH.
  - cbn [elements] in Hc. rewrite lenZ_nil, Z.add_0_r in Hc. pose proof (at_concat data _ _ i _ Hc Ho) as Hx. pose proof (at_bounds data _ _ Hx) as Hxb.
    rewrite (static_concat (32 * abiLength t)) in Hx, Hxb.
    + pose proof (lenZ_nonneg (serialise t v)). replace (Z.of_nat i * abiLength t * 32) with (Z.of_nat i * (32 * abiLength t)) by lia.
      rewrite sz_small by lia. by apply IH.
    + apply Forall_fmap. eapply Forall_impl; [exact Hf |]. intros y Hy. by apply static_length.
    + rewrite length_map. lia.
    + apply Forall_fmap. eapply Forall_impl; [exact Hf |]. intros y Hy. by apply static_length.
    + rewrite length_map. lia.
Qed.

Lemma elements_many t l o : Forall (has_type t) l -> at_offset data o (elements (dynamicType t) (lenZ l * 32) (map (serialise t) l)) ->
  (length l <= length data)%nat.
Proof.
  intros Hf Ha. apply at_bounds in Ha as [Ho Hb]. unfold elements in Hb. rewrite lenZ_app in Hb. destruct (dynamicType t) eqn:Hd.
  - rewrite heads_length in Hb. pose proof (lenZ_nonneg (concat (map (serialise t) l))). unfold lenZ in *. rewrite length_map in Hb. lia.
  - rewrite <- (firstn_all (map (serialise t) l)), (static_concat (32 * abiLength t)) in Hb; [| | lia].
    + rewrite lenZ_nil, length_map in Hb. destruct l as [|x l]; [cbn; lia |]. apply Forall_cons in Hf as [Hx _].
      pose proof (static_pos t x Hx Hd). unfold lenZ in Hb. nia.
    + apply Forall_fmap. eapply Forall_impl; [exact Hf |]. intros y Hy. by apply static_length.
Qed.

Lemma deserialise_ok t v o : has_type t v -> at_offset data o (serialise t v) -> deserialise data t o = Ok v.
Proof.
  revert v o. induction t as [| | | | | |n t IH|t IH]; intros v o Hv Ha; destruct v as [z|b|b|l]; cbn in Hv; try done; cbn [serialise deserialise] in *;
    pose proof (at_bounds data _ _ Ha) as Hb.
  - rewrite (at_word data Hdata _ _ Ha). cbn. by rewrite wrap_small by lia.
  - rewrite (at_word data Hdata _ _ Ha). cbn [mbind result_bind]. do 2 f_equal. unfold int_of_word, wrap.
    destruct (Z.ltb_spec z 0).
    + rewrite <- (Z_mod_plus_full z 1), Z.mod_small by lia. rewrite (proj2 (Z.ltb_lt _ _)) by lia. lia.
    + rewrite Z.mod_small by lia. rewrite (proj2 (Z.ltb_ge _ _)) by lia. done.
  - rewrite (at_word data Hdata _ _ Ha). cbn [mbind result_bind]. by destruct b.
  - rewrite lenZ_app in Hb. assert (lenZ b = 20) by (unfold lenZ; lia). apply at_app in Ha as [_ Ha]. change (lenZ (repeat 0 12)) with 12 in *.
    rewrite !sz_small, valid_at by lia. cbn [mbind result_bind]. by rewrite (at_cropped data (o + 12) b) by done.
  - assert (lenZ b = 32) by (unfold lenZ; lia). rewrite sz_small, valid_at by lia. cbn [mbind result_bind]. by rewrite (at_cropped data o b) by done.
  - apply at_app in Ha as [Hw Ha]. rewrite word_length in Ha. rewrite lenZ_app, word_length in Hb. unfold pad32 in *.
    apply at_app in Ha as [Ha _]. pose proof (at_bounds data _ _ Ha) as Hb2. pose proof (lenZ_nonneg b).
    rewrite (at_word data Hdata _ _ Hw). cbn [mbind result_bind]. assert (2 ^ 64 < 2 ^ 256) by (apply Z.pow_lt_mono_r; lia).
    rewrite wrap_small, (sz_small (lenZ b)) by lia. rewrite !sz_small by lia. rewrite valid_at by lia. cbn [mbind result_bind].
    by rewrite (at_cropped data (o + 32) b) by done.
  - destruct Hv as (Hl & _ & Hf). assert (Z.of_nat n = lenZ l) as Hn by (unfold lenZ; lia). rewrite Hn in *.
    rewrite (de_loop_ok _ l); [done | | lia | lia]. intros i x Hi. rewrite Z.add_0_l. by apply (element_ok t l).
  - apply at_app in Ha as [Hw Ha]. rewrite word_length in Ha. pose proof (at_bounds data _ _ Ha) as Hb2. pose proof (at_bounds data _ _ Hw) as Hb3. rewrite word_length in Hb3.
    pose proof (elements_many t l _ Hv Ha) as Hm. pose proof (lenZ_nonneg l). assert (lenZ l <= lenZ data) by (unfold lenZ; lia).
    rewrite (at_word data Hdata _ _ Hw). cbn [mbind result_bind]. assert (2 ^ 64 < 2 ^ 256) by (apply Z.pow_lt_mono_r; lia).
    pose proof (lenZ_nonneg (elements (dynamicType t) (lenZ l * 32) (map (serialise t) l))).
    rewrite wrap_small by lia. rewrite (sz_small (lenZ l)) by lia.
    assert (Hs : sz (o + 32) = o + 32) by (destruct (decide (o + 32 = 2 ^ 64)); [lia | apply sz_small; lia]).
    rewrite Hs, (de_loop_ok _ l); [done | | lia | lia]. intros i x Hi. rewrite Z.add_0_l. by apply (element_ok t l).
Qed.
End RoundTrip.

Definition typed (tv : ABIType * ABIVal) : Prop := has_type (fst tv) (snd tv).

Lemma fixed_length tvs offset : Forall typed tvs -> lenZ (fst (abiInAux offset tvs)) = abiOffset (map fst tvs) * 32.
Proof.
  revert offset. induction tvs as [|[t v] tvs IH]; intros offset Hf; [done |]. apply Forall_cons in Hf as [Hv Hf]. cbn [abiInAux map fst].
  unfold abiOffset. cbn [foldr]. fold (abiOffset (map fst tvs)). destruct (dynamicType t) eqn:Hd.
  - specialize (IH (offset + lenZ (serialise t v)) Hf). destruct (abiInAux _ tvs) as [f d]. cbn [fst] in *.
    rewrite lenZ_app, word_length, IH, (dynamic_length t Hd). lia.
  - specialize (IH offset Hf). destruct (abiInAux offset tvs) as [f d]. cbn [fst] in *. rewrite lenZ_app, IH, (static_length t v Hv Hd). lia.
Qed.

Lemma abiOut_parts data tvs o offset : lenZ data < 2 ^ 64 -> Forall typed tvs ->
  at_offset data o (fst (abiInAux offset tvs)) -> at_offset data offset (snd (abiInAux offset tvs)) ->
  abiOutAux data (map fst tvs) o = (map snd tvs, true).
Proof.
  intros Hdata. revert o offset. induction tvs as [|[t v] tvs IH]; intros o offset Hf H1 H2; [done |]. apply Forall_cons in Hf as [Hv Hf].
  cbn [abiInAux] in H1, H2. cbn [map fst snd abiOutAux].
  assert (2 ^ 64 < 2 ^ 256) by (apply Z.pow_lt_mono_r; lia).
  destruct (dynamicType t) eqn:Hd.
  - specialize (IH (o + 32) (offset + lenZ (serialise t v)) Hf). destruct (abiInAux (offset + lenZ (serialise t v)) tvs) as [f d]. cbn [fst snd] in *.
    apply at_app in H1 as [Hw H1]. apply at_app in H2 as [Hx H2]. rewrite word_length in H1.
    pose proof (at_bounds data _ _ Hx) as Hb. pose proof (at_bounds data _ _ H1) as Hb1. pose proof (lenZ_nonneg (serialise t v)). pose proof (lenZ_nonneg f).
    rewrite (at_word data Hdata _ _ Hw). cbn [mbind result_bind]. rewrite wrap_small, sz_small by lia.
    rewrite (deserialise_ok data Hdata t v offset Hv Hx). rewrite (dynamic_length t Hd), Z.mul_1_l, sz_small by lia.
    by rewrite IH.
  - specialize (IH (o + abiLength t * 32) offset Hf). destruct (abiInAux offset tvs) as [f d]. cbn [fst snd] in *.
    apply at_app in H1 as [Hx H1]. rewrite (deserialise_ok data Hdata t v o Hv Hx).
    rewrite (static_length t v Hv Hd) in H1. replace (32 * abiLength t) with (abiLength t * 32) in H1 by lia.
    pose proof (at_bounds data _ _ H1) as Hb. pose proof (at_bounds data _ _ Hx) as Hb1. pose proof (lenZ_nonneg f).
    rewrite (static_length t v Hv Hd) in Hb1. pose proof (static_pos t v Hv Hd). rewrite sz_small by lia. by rewrite IH.
Qed.

(** C40: what [abiIn] encodes, [abiOut] decodes, for any list of arguments of the
    supported types, nested vectors and non-empty arrays included, with an encoding
    of less than 2^64 bytes, except the integers from -2^255 to -7 * 2^252 - 1, which
    are read as unsigned (see [negative_int_misread]). *)
Theorem abi_round_trip tvs : Forall typed tvs -> lenZ (abiIn tvs) < 2 ^ 64 -> abiOut (abiIn tvs) (map fst tvs) = (map snd tvs, true).
Proof.
  intros Hf Hl. unfold abiOut. pose proof (fixed_length tvs (abiOffset (map fst tvs) * 32) Hf) as Hfl.
  apply (abiOut_parts (abiIn tvs) tvs 0 (abiOffset (map fst tvs) * 32)); [done | done | |];
    unfold abiIn; destruct (abiInAux (abiOffset (map fst tvs) * 32) tvs) as [f d]; cbn [fst snd] in *.
  - exists [], d. done.
  - exists f, []. rewrite app_nil_r. done.
Qed.

Definition sample_args : list (ABIType * ABIVal) :=
  [(AString, VBytes (str "alice")); (AUint, VZ 7); (AVector (AArray 2 AString), VList [VList [VBytes (str "a"); VBytes []]; VList [VBytes (str "b"); VBytes (str "cd")]]);
   (AArray 2 AInt, VList [VZ (-1); VZ 5]); (ABool, VBool true)].
Lemma abi_round_trip_witness : abiOut (abiIn sample_args) (map fst sample_args) = (map snd sample_args, true).
Proof.
  apply (abi_round_trip sample_args).
  - repeat constructor; cbn; lia.
  - vm_compute. reflexivity.
Defined.

(** A negative integer below [-7 * 2^252] is decoded as a positive one. *)
Theorem negative_int_misread n : - 2 ^ 255 <= n < - (7 * 2 ^ 252) -> abiOut (abiIn [(AInt, VZ n)]) [AInt] = ([VZ (n + 2 ^ 256)], true).
Proof.
  intros Hn. assert (E : abiIn [(AInt, VZ n)] = word n) by (unfold abiIn; cbn; by rewrite !app_nil_r).
  rewrite E. unfold abiOut. cbn [abiOutAux dynamicType deserialise].
  rewrite (at_word (word n) ltac:(rewrite word_length; lia) 0 n) by (exists [], []; by rewrite app_nil_r).
  cbn [mbind result_bind]. unfold int_of_word, wrap. rewrite <- (Z_mod_plus_full n 1), Z.mod_small by lia.
  rewrite (proj2 (Z.ltb_ge _ _)) by lia. by rewrite Z.mul_1_l.
Qed.
Lemma negative_int_misread_witness : abiOut (abiIn [(AInt, VZ (- 2 ^ 255))]) [AInt] = ([VZ (- 2 ^ 255 + 2 ^ 256)], true).
Proof. apply (negative_int_misread (- 2 ^ 255)). lia. Defined.
