(* ===== verification/StorageEntry.v ===== *)
(** * Table entries and conditions

    [libstorage/Table.h] and [Table.cpp]: the rows of a table and the conditions
    that select them.  An [Entry] shares its fields with its copies until one of
    them is written ([EntryData], [checkRef]); the first part gives the value an
    entry is, the second the shared representation, and [entry_copy_on_write]
    shows that the second behaves as the first. *)

From S2P Require Import Prelude CommonData Text.

Definition ID_FIELD : chars := Eval vm_compute in str "_id_".
Definition NUM_FIELD : chars := Eval vm_compute in str "_num_".
Definition STATUS : chars := Eval vm_compute in str "_status_".
Definition UNLIMITED : chars := Eval vm_compute in str "_VALUE_UNLIMITED_".
Definition CODE_NO_AUTHORIZED : Z := -50000.

(** ** Entries *)
Record Entry := mkEntry {
  e_ID : Z;
  e_status : Z;
  e_tempIndex : nat;
  e_num : Z;
  e_dirty : bool;
  e_force : bool;
  e_deleted : bool;
  e_capacity : Z;
  e_fields : gmap chars chars
}.

Definition newEntry : Entry := mkEntry 0 0 0 0 false false false 0 ∅.

Definition getField (k : chars) (e : Entry) : chars := default [] (e_fields e !! k).

Definition field_capacity (k v : chars) (fs : gmap chars chars) (c : Z) : Z :=
  match fs !! k with Some old => c - (lenZ k + lenZ old) + (lenZ k + lenZ v) | None => c + (lenZ k + lenZ v) end.

Definition setField (k v : chars) (e : Entry) : Entry :=
  mkEntry (e_ID e) (e_status e) (e_tempIndex e) (e_num e) true (e_force e) (e_deleted e)
    (field_capacity k v (e_fields e) (e_capacity e)) (<[k := v]> (e_fields e)).

Definition setID (n : Z) (e : Entry) : Entry :=
  mkEntry n (e_status e) (e_tempIndex e) (e_num e) true (e_force e) (e_deleted e) (e_capacity e) (e_fields e).
Definition setStatus (n : Z) (e : Entry) : Entry :=
  mkEntry (e_ID e) n (e_tempIndex e) (e_num e) true (e_force e) (e_deleted e) (e_capacity e) (e_fields e).
Definition setTempIndex (i : nat) (e : Entry) : Entry :=
  mkEntry (e_ID e) (e_status e) i (e_num e) (e_dirty e) (e_force e) (e_deleted e) (e_capacity e) (e_fields e).
Definition setNum (n : Z) (e : Entry) : Entry :=
  mkEntry (e_ID e) (e_status e) (e_tempIndex e) n true (e_force e) (e_deleted e) (e_capacity e) (e_fields e).
Definition setDirty (b : bool) (e : Entry) : Entry :=
  mkEntry (e_ID e) (e_status e) (e_tempIndex e) (e_num e) b (e_force e) (e_deleted e) (e_capacity e) (e_fields e).
Definition setForce (b : bool) (e : Entry) : Entry :=
  mkEntry (e_ID e) (e_status e) (e_tempIndex e) (e_num e) (e_dirty e) b (e_deleted e) (e_capacity e) (e_fields e).
Definition setDeleted (b : bool) (e : Entry) : Entry :=
  mkEntry (e_ID e) (e_status e) (e_tempIndex e) (e_num e) (e_dirty e) (e_force e) b (e_capacity e) (e_fields e).

(** The elements of a [std::map] in its order. *)
Fixpoint insert_key {A} (kv : chars * A) (l : list (chars * A)) : list (chars * A) :=
  match l with
  | [] => [kv]
  | kv' :: r => if str_ltb (fst kv) (fst kv') then kv :: l else kv' :: insert_key kv r
  end.
Definition in_order {A} (m : gmap chars A) : list (chars * A) := foldr insert_key [] (map_to_list m).

(** [EntryLessNoLock]. *)
Fixpoint fields_less (l r : list (chars * chars)) : bool :=
  match l, r with
  | (k1, v1) :: l', (k2, v2) :: r' =>
      if negb (bool_decide (k1 = k2)) then str_ltb k1 k2
      else if negb (bool_decide (v1 = v2)) then str_ltb v1 v2
      else fields_less l' r'
  | _, _ => false
  end.

Definition EntryLess (key : chars) (l r : Entry) : bool :=
  if negb (e_ID l =? e_ID r) then e_ID l <? e_ID r
  else if negb (bool_decide (getField key l = getField key r)) then str_ltb (getField key l) (getField key r)
  else if negb (bool_decide (size (e_fields l) = size (e_fields r))) then bool_decide (size (e_fields l) < size (e_fields r))%nat
  else fields_less (in_order (e_fields l)) (in_order (e_fields r)).

(** ** Conditions *)
Record Range := mkRange { rg_left : bool * chars; rg_right : bool * chars }.
Record Condition := mkCondition { c_offset : Z; c_count : Z; c_conditions : gmap chars Range }.
Definition newCondition : Condition := mkCondition (-1) (-1) ∅.

Definition with_conditions (m : gmap chars Range) (c : Condition) : Condition := mkCondition (c_offset c) (c_count c) m.
Definition set_range (k : chars) (f : option Range -> Range) (c : Condition) : Condition :=
  with_conditions (<[k := f (c_conditions c !! k)]> (c_conditions c)) c.

Definition EQ (k v : chars) : Condition -> Condition := set_range k (fun _ => mkRange (true, v) (true, v)).
Definition NE (k v : chars) : Condition -> Condition := set_range k (fun _ => mkRange (false, v) (false, v)).
Definition GT (k v : chars) : Condition -> Condition :=
  set_range k (fun r => mkRange (false, v) (match r with Some r => rg_right r | None => (false, UNLIMITED) end)).
Definition GE (k v : chars) : Condition -> Condition :=
  set_range k (fun r => mkRange (true, v) (match r with Some r => rg_right r | None => (false, UNLIMITED) end)).
Definition LT (k v : chars) : Condition -> Condition :=
  set_range k (fun r => mkRange (match r with Some r => rg_left r | None => (false, UNLIMITED) end) (false, v)).
Definition LE (k v : chars) : Condition -> Condition :=
  set_range k (fun r => mkRange (match r with Some r => rg_left r | None => (false, UNLIMITED) end) (true, v)).
Definition limit (offset count : Z) (c : Condition) : Condition := mkCondition offset count (c_conditions c).
Definition getOffset (c : Condition) : Z := swrap 32 (c_offset c).
Definition getCount (c : Condition) : Z := swrap 32 (c_count c).
Definition cond_empty (c : Condition) : bool := bool_decide (c_conditions c = ∅).

Definition isHashField (k : chars) : bool :=
  match head k, last k with Some a, Some b => negb (a =? 95) && negb (b =? 95) | _, _ => false end.

(** A bound of a range against a field; [None] is the exception of a cast. *)
Definition bound_ok (b : bool * chars) (value : chars) (le lt : Z -> Z -> bool) : option bool :=
  if bool_decide (snd b = UNLIMITED) then Some true
  else
    l ← lexical_int64 (snd b);
    r ← (if bool_decide (value = []) then Some 0 else lexical_int64 value);
    Some (if fst b then le l r else lt l r).

Definition range_ok (r : Range) (value : chars) : option bool :=
  if bool_decide (snd (rg_left r) = snd (rg_right r)) && fst (rg_left r) && fst (rg_right r)
  then Some (bool_decide (snd (rg_left r) = value))
  else
    a ← bound_ok (rg_left r) value Z.leb Z.ltb;
    if negb a then Some false else bound_ok (rg_right r) value Z.geb Z.gtb.

(** The loop over the conditions, in the order of the map. *)
Fixpoint process_ranges (e : Entry) (l : list (chars * Range)) : option bool :=
  match l with
  | [] => Some true
  | (k, r) :: l' =>
      if negb (isHashField k) then process_ranges e l'
      else
        match e_fields e !! k with
        | None => Some false
        | Some v => ok ← range_ok r v; if ok : bool then process_ranges e l' else Some false
        end
  end.

(** An exception counts as false. *)
Definition process (c : Condition) (e : Entry) : bool :=
  if (e_status e =? 1) || e_deleted e then false else default false (process_ranges e (in_order (c_conditions c))).

(** ** The shared representation *)
Module Cow.

Record EntryData := mkData { d_refCount : Z; d_fields : gmap chars chars }.
Record Obj := mkObj {
  o_ID : Z; o_status : Z; o_tempIndex : nat; o_num : Z; o_dirty : bool; o_force : bool; o_deleted : bool;
  o_capacity : Z; o_data : positive
}.
Record Heap := mkHeap { h_data : gmap positive EntryData; h_objs : gmap positive Obj }.

Definition with_data (d : positive) (o : Obj) : Obj :=
  mkObj (o_ID o) (o_status o) (o_tempIndex o) (o_num o) (o_dirty o) (o_force o) (o_deleted o) (o_capacity o) d.
Definition written (capacity : Z) (o : Obj) : Obj :=
  mkObj (o_ID o) (o_status o) (o_tempIndex o) (o_num o) true (o_force o) (o_deleted o) capacity (o_data o).

Definition ref_add (n : Z) (l : positive) (h : Heap) : Heap :=
  mkHeap (alter (fun d => mkData (d_refCount d + n) (d_fields d)) l (h_data h)) (h_objs h).

(** [Entry()]. *)
Definition cow_new (i : positive) (h : Heap) : Heap :=
  let l := fresh (dom (h_data h)) in
  mkHeap (<[l := mkData 1 ∅]> (h_data h)) (<[i := mkObj 0 0 0 0 false false false 0 l]> (h_objs h)).

(** [~Entry()]: the object goes, the fields it pointed to stay until their last
    pointer goes. *)
Definition cow_destroy (i : positive) (h : Heap) : Heap :=
  match h_objs h !! i with
  | None => h
  | Some o =>
      let h' := match h_data h !! o_data o with
                | Some d => if 0 <? d_refCount d then ref_add (-1) (o_data o) h else h
                | None => h
                end in
      mkHeap (h_data h') (delete i (h_objs h'))
  end.

(** [checkRef]: unshare. *)
Definition checkRef (i : positive) (h : Heap) : Heap :=
  match h_objs h !! i with
  | None => h
  | Some o =>
      match h_data h !! o_data o with
      | Some d =>
          if 1 <? d_refCount d then
            let l := fresh (dom (h_data h)) in
            let h' := ref_add (-1) (o_data o) h in
            mkHeap (<[l := mkData 1 (d_fields d)]> (h_data h')) (<[i := with_data l o]> (h_objs h'))
          else h
      | None => h
      end
  end.

Definition cow_setField (k v : chars) (i : positive) (h0 : Heap) : Heap :=
  let h := checkRef i h0 in
  match h_objs h !! i with
  | None => h
  | Some o =>
      match h_data h !! o_data o with
      | None => h
      | Some d =>
          mkHeap (<[o_data o := mkData (d_refCount d) (<[k := v]> (d_fields d))]> (h_data h))
                 (<[i := written (field_capacity k v (d_fields d) (o_capacity o)) o]> (h_objs h))
      end
  end.

Definition cow_setStatus (n : Z) (i : positive) (h0 : Heap) : Heap :=
  let h := checkRef i h0 in
  match h_objs h !! i with
  | None => h
  | Some o => mkHeap (h_data h) (<[i := mkObj (o_ID o) n (o_tempIndex o) (o_num o) true (o_force o) (o_deleted o) (o_capacity o) (o_data o)]> (h_objs h))
  end.

(** The setters that leave the fields alone. *)
Definition cow_setID (n : Z) (i : positive) (h : Heap) : Heap :=
  mkHeap (h_data h) (alter (fun o => mkObj n (o_status o) (o_tempIndex o) (o_num o) true (o_force o) (o_deleted o) (o_capacity o) (o_data o)) i (h_objs h)).

(** [copyFrom]: an entry that already shares its fields with the other one has
    locked them, and returns. *)
Definition cow_copyFrom (i j : positive) (h : Heap) : Heap :=
  match h_objs h !! i, h_objs h !! j with
  | Some o, Some o' =>
      if bool_decide (o_data o = o_data o') then h
      else
        let h := ref_add 1 (o_data o') (ref_add (-1) (o_data o) h) in
        mkHeap (h_data h) (<[i := o']> (h_objs h))
  | _, _ => h
  end.

(** The value of an entry. *)
Definition view (h : Heap) (i : positive) : option Entry :=
  o ← h_objs h !! i;
  d ← h_data h !! o_data o;
  Some (mkEntry (o_ID o) (o_status o) (o_tempIndex o) (o_num o) (o_dirty o) (o_force o) (o_deleted o) (o_capacity o) (d_fields d)).

Definition sharers (l : positive) (m : gmap positive Obj) : Z :=
  lenZ (filter (fun io => o_data (snd io) = l) (map_to_list m)).

(** The counts are exact. *)
Definition counted (h : Heap) : Prop :=
  map_Forall (fun _ o => is_Some (h_data h !! o_data o)) (h_objs h) /\
  map_Forall (fun l d => d_refCount d = sharers l (h_objs h)) (h_data h).

Lemma sharers_fresh l i o m : m !! i = None ->
  sharers l (<[i := o]> m) = (if bool_decide (o_data o = l) then 1 else 0) + sharers l m.
Proof.
  intros Hi. unfold sharers, lenZ. rewrite (map_to_list_insert _ _ _ Hi), filter_cons. cbn.
  destruct (decide (o_data o = l)); [rewrite bool_decide_true by done | rewrite bool_decide_false by done]; cbn [length]; lia.
Qed.
Lemma sharers_delete l i o m : m !! i = Some o ->
  sharers l m = (if bool_decide (o_data o = l) then 1 else 0) + sharers l (delete i m).
Proof.
  intros Hi. rewrite <- (insert_delete_id m i o Hi) at 1. apply sharers_fresh. apply lookup_delete_eq.
Qed.
Lemma sharers_insert l i o o' m : m !! i = Some o ->
  sharers l (<[i := o']> m) = sharers l m - (if bool_decide (o_data o = l) then 1 else 0) + (if bool_decide (o_data o' = l) then 1 else 0).
Proof.
  intros Hi. rewrite <- insert_delete_eq, (sharers_fresh l i) by apply lookup_delete_eq.
  rewrite (sharers_delete l i o m Hi). lia.
Qed.

Section Counted.
Context (h : Heap) (Hc : counted h).

Lemma data_of i o : h_objs h !! i = Some o -> exists d, h_data h !! o_data o = Some d /\ d_refCount d = sharers (o_data o) (h_objs h).
Proof.
  intros Hi. destruct Hc as [H1 H2]. destruct (H1 i o Hi) as [d Hd]. exists d. split; [done |]. by apply (H2 _ _ Hd).
Qed.

Lemma sharers_pos l j o m : m !! j = Some o -> o_data o = l -> 1 <= sharers l m.
Proof.
  intros Hj Ho. rewrite (sharers_delete l j o m Hj), bool_decide_true by done. unfold sharers at 1. unfold lenZ. lia.
Qed.

(** A single reference is the only one. *)
Lemma alone i o d j o' : h_objs h !! i = Some o -> h_data h !! o_data o = Some d -> d_refCount d <= 1 ->
  h_objs h !! j = Some o' -> o_data o' = o_data o -> j = i.
Proof.
  intros Hi Hd Hr Hj He. destruct (decide (j = i)) as [|Hn]; [done |]. destruct Hc as [_ H2].
  pose proof (H2 _ _ Hd) as Hs. cbn in Hs. rewrite (sharers_delete _ i o _ Hi), bool_decide_true in Hs by done.
  pose proof (sharers_pos (o_data o) j o' (delete i (h_objs h))) as Hp. rewrite lookup_delete_ne in Hp by done.
  specialize (Hp Hj He). lia.
Qed.

Lemma not_shared l j o : h_data h !! l = None -> h_objs h !! j = Some o -> o_data o <> l.
Proof. intros Hl Hj <-. destruct (data_of j o Hj) as (d & Hd & _). congruence. Qed.

Lemma sharers_0 l : h_data h !! l = None -> sharers l (h_objs h) = 0.
Proof.
  intros Hl. unfold sharers. enough (filter (fun io => o_data (snd io) = l) (map_to_list (h_objs h)) = []) as -> by done.
  destruct (filter _ _) as [|[j o] r] eqn:E; [done |]. assert (Hj : (j, o) ∈ (j, o) :: r) by left.
  rewrite <- E in Hj. apply list_elem_of_filter in Hj as [Ho Hj%elem_of_map_to_list]. by destruct (not_shared l j o Hl Hj).
Qed.
End Counted.

(** Moving one object to other fields: what its old and its new fields count. *)
Lemma counted_move h i o l (data : gmap positive EntryData) o' :
  counted h -> h_objs h !! i = Some o -> o_data o' = l ->
  (forall k d, data !! k = Some d -> d_refCount d = sharers k (h_objs h)
     - (if bool_decide (o_data o = k) then 1 else 0) + (if bool_decide (l = k) then 1 else 0)) ->
  is_Some (data !! l) -> (forall k, is_Some (h_data h !! k) -> is_Some (data !! k)) ->
  counted (mkHeap data (<[i := o']> (h_objs h))).
Proof.
  intros [H1 _] Hi <- Hd Hl Hk. split; cbn.
  - apply map_Forall_insert_2; [done |]. intros j o2 Hj. by apply Hk, (H1 j).
  - intros k d Hkd. cbn. rewrite (sharers_insert k i o) by done. by apply Hd.
Qed.

Lemma checkRef_spec i o h : counted h -> h_objs h !! i = Some o ->
  counted (checkRef i h) /\ (forall j, view (checkRef i h) j = view h j) /\
  exists o1 d1, h_objs (checkRef i h) !! i = Some o1 /\ h_data (checkRef i h) !! o_data o1 = Some d1 /\ d_refCount d1 <= 1.
Proof.
  intros Hc Hi. destruct (data_of h Hc i o Hi) as (d & Hd & Hr). unfold checkRef. rewrite Hi, Hd.
  destruct (Z.ltb_spec 1 (d_refCount d)) as [Hlt|]; [| split_and!; eauto]. cbn.
  set (l := fresh (dom (h_data h))).
  assert (Hl : h_data h !! l = None) by (apply not_elem_of_dom, is_fresh).
  assert (o_data o <> l) as Hne by (intros E; congruence).
  split_and!.
  - apply (counted_move h i o l); [done | done | done | | by rewrite lookup_insert_eq; eauto |].
    + intros k dk. destruct (decide (k = l)) as [-> | Hk].
      * rewrite lookup_insert_eq. intros [= <-]. rewrite (sharers_0 h Hc l Hl).
        rewrite bool_decide_false, bool_decide_true by done. cbn. lia.
      * rewrite lookup_insert_ne by done. rewrite (bool_decide_false (l = k)) by done.
        destruct (decide (k = o_data o)) as [-> | Hk'].
        -- rewrite lookup_alter_eq, Hd. intros [= <-]. rewrite bool_decide_true by done. cbn. lia.
        -- rewrite lookup_alter_ne by done. intros Hdk. destruct Hc as [_ H2]. rewrite bool_decide_false by done.
           rewrite (H2 _ _ Hdk). lia.
    + intros k Hk. destruct (decide (k = l)) as [-> | Hkl]; [rewrite lookup_insert_eq; eauto |].
      rewrite lookup_insert_ne by done. by rewrite lookup_alter_is_Some.
  - intros j. unfold view. cbn. destruct (decide (j = i)) as [-> | Hj].
    + rewrite lookup_insert_eq, Hi. cbn. by rewrite lookup_insert_eq, Hd.
    + rewrite lookup_insert_ne by done. destruct (h_objs h !! j) as [oj|] eqn:Ej; [| done]. cbn.
      rewrite lookup_insert_ne by (intros E; by apply (not_shared h Hc l j oj Hl Ej)).
      destruct (decide (o_data oj = o_data o)) as [E|E]; [rewrite E, lookup_alter_eq, Hd; done |].
      by rewrite lookup_alter_ne by done.
  - exists (with_data l o), (mkData 1 (d_fields d)). rewrite lookup_insert_eq. cbn. rewrite lookup_insert_eq. done.
Qed.

Inductive cow_op : Type :=
  | ONew (i : positive) | ODestroy (i : positive) | OField (i : positive) (k v : chars)
  | OStatus (i : positive) (n : Z) | OID (i : positive) (n : Z) | OCopy (i j : positive).

Definition cow_step (op : cow_op) (h : Heap) : Heap :=
  match op with
  | ONew i => cow_new i h | ODestroy i => cow_destroy i h | OField i k v => cow_setField k v i h
  | OStatus i n => cow_setStatus n i h | OID i n => cow_setID n i h | OCopy i j => cow_copyFrom i j h
  end.

(** The same operations on independent values. *)
Definition value_step (op : cow_op) (v : positive -> option Entry) (k : positive) : option Entry :=
  match op with
  | ONew i => if bool_decide (k = i) then Some newEntry else v k
  | ODestroy i => if bool_decide (k = i) then None else v k
  | OField i f x => if bool_decide (k = i) then setField f x <$> v i else v k
  | OStatus i n => if bool_decide (k = i) then setStatus n <$> v i else v k
  | OID i n => if bool_decide (k = i) then setID n <$> v i else v k
  | OCopy i j => if bool_decide (k = i) then v j else v k
  end.

(** Objects are built once, used while they live, and not copied from an entry
    they share their fields with. *)
Definition step_allowed (op : cow_op) (h : Heap) : Prop :=
  match op with
  | ONew i => h_objs h !! i = None
  | ODestroy i | OField i _ _ | OStatus i _ | OID i _ => is_Some (h_objs h !! i)
  | OCopy i j => exists o o', h_objs h !! i = Some o /\ h_objs h !! j = Some o' /\ o_data o <> o_data o'
  end.

Lemma view_ext (h h' : Heap) k :
  h_objs h' !! k = h_objs h !! k -> (forall o, h_objs h !! k = Some o -> d_fields <$> h_data h' !! o_data o = d_fields <$> h_data h !! o_data o) ->
  view h' k = view h k.
Proof.
  intros Ho Hd. unfold view. rewrite Ho. destruct (h_objs h !! k) as [o|]; [| done]. cbn. specialize (Hd o eq_refl).
  destruct (h_data h' !! o_data o), (h_data h !! o_data o); cbn in *; congruence.
Qed.

Lemma ref_add_fields n l h k : d_fields <$> h_data (ref_add n l h) !! k = d_fields <$> h_data h !! k.
Proof.
  cbn. destruct (decide (k = l)) as [-> |]; [| by rewrite lookup_alter_ne].
  rewrite lookup_alter_eq. by destruct (h_data h !! l).
Qed.

Lemma new_ok i h : counted h -> h_objs h !! i = None ->
  counted (cow_new i h) /\ forall k, view (cow_new i h) k = value_step (ONew i) (view h) k.
Proof.
  intros Hc Hi. set (l := fresh (dom (h_data h))).
  assert (Hl : h_data h !! l = None) by (apply not_elem_of_dom, is_fresh).
  assert (Hn : forall j o, h_objs h !! j = Some o -> o_data o <> l) by (intros; by apply (not_shared h Hc l j o)).
  split.
  - split; cbn; fold l.
    + apply map_Forall_insert_2; [cbn; rewrite lookup_insert_eq; eauto |]. intros j o Hj. rewrite lookup_insert_ne by exact (not_eq_sym (Hn j o Hj)).
      destruct Hc as [H1 _]. by apply (H1 j).
    + intros k d Hk. rewrite sharers_fresh by done. cbn. destruct (decide (k = l)) as [-> | Hkl].
      * rewrite lookup_insert_eq in Hk. injection Hk as <-. rewrite bool_decide_true, (sharers_0 h Hc l Hl) by done. done.
      * rewrite lookup_insert_ne in Hk by done. rewrite bool_decide_false by done. destruct Hc as [_ H2]. by apply (H2 k).
  - intros k. cbn [value_step]. case_bool_decide as E.
    + subst k. unfold view. cbn. rewrite lookup_insert_eq. cbn. fold l. by rewrite lookup_insert_eq.
    + apply view_ext; cbn; fold l; [by rewrite lookup_insert_ne |]. intros o Ho. by rewrite lookup_insert_ne by exact (not_eq_sym (Hn k o Ho)).
Qed.

Lemma destroy_ok i h : counted h -> is_Some (h_objs h !! i) ->
  counted (cow_destroy i h) /\ forall k, view (cow_destroy i h) k = value_step (ODestroy i) (view h) k.
Proof.
  intros Hc [o Hi]. destruct (data_of h Hc i o Hi) as (d & Hd & Hr). unfold cow_destroy. rewrite Hi, Hd.
  pose proof (sharers_pos (o_data o) i o _ Hi eq_refl) as Hp. rewrite (proj2 (Z.ltb_lt _ _)) by lia. split.
  - destruct Hc as [H1 H2]. split; cbn.
    + intros j o2 [_ Hj]%lookup_delete_Some. rewrite lookup_alter_is_Some. exact (H1 j o2 Hj).
    + intros k dk. destruct (decide (k = o_data o)) as [-> | Hk].
      * rewrite lookup_alter_eq, Hd. intros [= <-]. cbn. rewrite Hr, (sharers_delete _ i o _ Hi), bool_decide_true by done. lia.
      * rewrite lookup_alter_ne by done. intros Hdk. rewrite (H2 _ _ Hdk), (sharers_delete _ i o _ Hi), bool_decide_false by done. lia.
  - intros k. cbn [value_step]. case_bool_decide as E; [subst k; unfold view; cbn; by rewrite lookup_delete_eq |].
    apply view_ext; [cbn; by rewrite lookup_delete_ne |]. intros o' _. apply (ref_add_fields (-1)).
Qed.

(** A write to the fields of an object that owns them. *)
Lemma write_ok i h h' o d d' o' (f : Entry -> Entry) :
  counted h -> h_objs h !! i = Some o -> h_data h !! o_data o = Some d -> d_refCount d <= 1 ->
  o_data o' = o_data o -> d_refCount d' = d_refCount d ->
  h' = mkHeap (<[o_data o := d']> (h_data h)) (<[i := o']> (h_objs h)) ->
  f <$> view h i = Some (mkEntry (o_ID o') (o_status o') (o_tempIndex o') (o_num o') (o_dirty o') (o_force o') (o_deleted o') (o_capacity o') (d_fields d')) ->
  counted h' /\ forall k, view h' k = if bool_decide (k = i) then f <$> view h i else view h k.
Proof.
  intros Hc Hi Hd Hr Ho Hd' -> Hf. split.
  - apply (counted_move h i o (o_data o)); [done | done | done | | by rewrite lookup_insert_eq; eauto |].
    + intros k dk. destruct Hc as [_ H2]. destruct (decide (k = o_data o)) as [-> | Hk].
      * rewrite lookup_insert_eq. intros [= <-]. pose proof (H2 _ _ Hd) as Hs. cbn in Hs. lia.
      * rewrite lookup_insert_ne by done. intros Hdk. pose proof (H2 _ _ Hdk) as Hs. cbn in Hs. lia.
    + intros k Hk. destruct (decide (k = o_data o)) as [-> |]; [rewrite lookup_insert_eq; eauto | by rewrite lookup_insert_ne].
  - intros k. case_bool_decide as E.
    + subst k. rewrite Hf. unfold view. cbn. rewrite lookup_insert_eq. cbn. by rewrite Ho, lookup_insert_eq.
    + apply view_ext; cbn; [by rewrite lookup_insert_ne |]. intros ok Hok. rewrite lookup_insert_ne; [done |].
      intros Hs. apply E. by apply (alone h Hc i o d k ok).
Qed.

Lemma cow_field_ok i k v h : counted h -> is_Some (h_objs h !! i) ->
  counted (cow_setField k v i h) /\ forall j, view (cow_setField k v i h) j = value_step (OField i k v) (view h) j.
Proof.
  intros Hc [o Hi]. destruct (checkRef_spec i o h Hc Hi) as (Hc1 & Hv & o1 & d1 & Ho1 & Hd1 & Hr). unfold cow_setField.
  rewrite Ho1, Hd1.
  destruct (write_ok i (checkRef i h) _ o1 d1 (mkData (d_refCount d1) (<[k := v]> (d_fields d1)))
    (written (field_capacity k v (d_fields d1) (o_capacity o1)) o1) (setField k v) Hc1 Ho1 Hd1 Hr eq_refl eq_refl eq_refl) as [A B].
  - unfold view. rewrite Ho1. cbn [mbind option_bind]. rewrite Hd1. reflexivity.
  - split; [exact A |]. intros j. rewrite (B j). cbn [value_step]. by rewrite !Hv.
Qed.

Lemma status_ok i n h : counted h -> is_Some (h_objs h !! i) ->
  counted (cow_setStatus n i h) /\ forall j, view (cow_setStatus n i h) j = value_step (OStatus i n) (view h) j.
Proof.
  intros Hc [o Hi]. destruct (checkRef_spec i o h Hc Hi) as (Hc1 & Hv & o1 & d1 & Ho1 & Hd1 & Hr). unfold cow_setStatus.
  rewrite Ho1. set (o2 := mkObj _ _ _ _ _ _ _ _ _).
  destruct (write_ok i (checkRef i h) (mkHeap (h_data (checkRef i h)) (<[i := o2]> (h_objs (checkRef i h)))) o1 d1 d1
    o2 (setStatus n) Hc1 Ho1 Hd1 Hr eq_refl eq_refl) as [A B].
  - by rewrite (insert_id _ _ _ Hd1).
  - unfold view. rewrite Ho1. cbn [mbind option_bind]. rewrite Hd1. reflexivity.
  - split; [exact A |]. intros j. rewrite (B j). cbn [value_step]. by rewrite !Hv.
Qed.

Lemma id_ok i n h : counted h -> is_Some (h_objs h !! i) ->
  counted (cow_setID n i h) /\ forall j, view (cow_setID n i h) j = value_step (OID i n) (view h) j.
Proof.
  intros Hc [o Hi]. destruct (data_of h Hc i o Hi) as (d & Hd & Hr). unfold cow_setID.
  set (o' := mkObj n (o_status o) (o_tempIndex o) (o_num o) true (o_force o) (o_deleted o) (o_capacity o) (o_data o)).
  assert (alter (fun o => mkObj n (o_status o) (o_tempIndex o) (o_num o) true (o_force o) (o_deleted o) (o_capacity o) (o_data o)) i
    (h_objs h) = <[i := o']> (h_objs h)) as ->.
  { apply map_eq. intros j. destruct (decide (j = i)) as [-> |]; [| by rewrite lookup_alter_ne, lookup_insert_ne].
    by rewrite lookup_alter_eq, lookup_insert_eq, Hi. }
  split.
  - apply (counted_move h i o (o_data o)); [done | done | done | | by eauto | done].
    intros k dk Hk. destruct Hc as [_ H2]. rewrite (H2 _ _ Hk). lia.
  - intros j. cbn [value_step]. case_bool_decide as E.
    + subst j. unfold view. cbn. rewrite lookup_insert_eq, Hi. cbn. by rewrite Hd.
    + apply view_ext; cbn; [by rewrite lookup_insert_ne | done].
Qed.

Lemma copy_ok i j h : counted h -> step_allowed (OCopy i j) h ->
  counted (cow_copyFrom i j h) /\ forall k, view (cow_copyFrom i j h) k = value_step (OCopy i j) (view h) k.
Proof.
  intros Hc (o & o' & Hi & Hj & Hne). unfold cow_copyFrom. rewrite Hi, Hj, bool_decide_false by done.
  set (h1 := ref_add (-1) (o_data o) h).
  assert (Hf : forall k, d_fields <$> h_data (ref_add 1 (o_data o') h1) !! k = d_fields <$> h_data h !! k)
    by (intros k; rewrite ref_add_fields; apply ref_add_fields).
  destruct (data_of h Hc j o' Hj) as (d' & Hd' & _). split.
  - apply (counted_move h i o (o_data o')); [done | done | done | | |].
    + intros k dk Hk. destruct Hc as [_ H2]. cbn in Hk. destruct (decide (k = o_data o')) as [-> | Hk1].
      * rewrite lookup_alter_eq, lookup_alter_ne, Hd' in Hk by done. injection Hk as <-. cbn.
        rewrite bool_decide_false, bool_decide_true by done. rewrite (H2 _ _ Hd'). lia.
      * rewrite lookup_alter_ne in Hk by done. rewrite (bool_decide_false (o_data o' = k)) by done.
        destruct (decide (k = o_data o)) as [-> | Hk2].
        -- rewrite lookup_alter_eq in Hk. destruct (h_data h !! o_data o) as [d|] eqn:Hd; [| done]. injection Hk as <-. cbn.
           rewrite bool_decide_true by done. rewrite (H2 _ _ Hd). lia.
        -- rewrite lookup_alter_ne in Hk by done. rewrite bool_decide_false by done. rewrite (H2 _ _ Hk). lia.
    + cbn. rewrite !lookup_alter_is_Some. by eauto.
    + intros k Hk. cbn. by rewrite !lookup_alter_is_Some.
  - intros k. cbn [value_step]. case_bool_decide as E.
    + subst k. unfold view. cbn [h_objs]. rewrite lookup_insert_eq, Hj. cbn [mbind option_bind].
      specialize (Hf (o_data o')). rewrite Hd' in Hf |- *. cbn [h_data].
      destruct (h_data (ref_add 1 (o_data o') h1) !! o_data o') as [d2|]; cbn in Hf; [| done]. injection Hf as Hf. cbn. by rewrite Hf.
    + apply view_ext; cbn [h_objs]; [by rewrite lookup_insert_ne |]. intros ok _. apply Hf.
Qed.

Lemma cow_step_ok op h : counted h -> step_allowed op h ->
  counted (cow_step op h) /\ forall k, view (cow_step op h) k = value_step op (view h) k.
Proof.
  intros Hc Ha. destruct op; [by apply new_ok | by apply destroy_ok | by apply cow_field_ok | by apply status_ok
    | by apply id_ok | by apply copy_ok].
Qed.

(** Entries behave as values: sharing the fields of copies and separating them at the
    first write gives, to every entry, the value it would have if copies were
    independent, and the reference counts stay exact. *)
Theorem entry_copy_on_write op h :
  counted h -> step_allowed op h ->
  counted (cow_step op h) /\ forall k, view (cow_step op h) k = value_step op (view h) k.
Proof. apply cow_step_ok. Qed.

Definition two_entries : Heap := cow_step (ONew 2) (cow_step (ONew 1) (mkHeap ∅ ∅)).
Lemma copied_counted : counted (cow_step (OCopy 2 1) two_entries).
Proof.
  apply cow_step_ok.
  - repeat (apply cow_step_ok; [| reflexivity]). split; apply map_Forall_empty.
  - vm_compute. eexists _, _. split; [reflexivity | split; [reflexivity | discriminate]].
Qed.

Lemma entry_copy_on_write_witness :
  let h := cow_step (OCopy 2 1) two_entries in
  view (cow_step (OField 1 [1] [2]) h) 2 = view h 2.
Proof.
  apply (entry_copy_on_write (OField 1 [1] [2]) (cow_step (OCopy 2 1) two_entries)); [apply copied_counted |].
  vm_compute. eexists. reflexivity.
Defined.

(** An entry that already shares its fields with another copies nothing from it, not
    even the identifier the other was given since. *)
Theorem shared_entry_not_copied :
  exists h, counted h /\ (exists e e', view h 1 = Some e /\ view h 2 = Some e' /\ e_ID e = 7 /\ e_ID e' = 0) /\
    view (cow_copyFrom 2 1 h) 2 = view h 2.
Proof.
  exists (cow_step (OID 1 7) (cow_step (OCopy 2 1) two_entries)). split.
  - apply cow_step_ok; [apply copied_counted | vm_compute; by eexists].
  - split; [eexists _, _; vm_compute; done | vm_compute; reflexivity].
Qed.
End Cow.

(** ** Conditions *)
Lemma insert_key_perm {A} (kv : chars * A) l : insert_key kv l ≡ₚ kv :: l.
Proof.
  induction l as [|kv' r IH]; cbn; [done |]. case_match; [done |]. rewrite IH. apply Permutation_swap.
Qed.
Lemma in_order_perm {A} (m : gmap chars A) : in_order m ≡ₚ map_to_list m.
Proof. unfold in_order. induction (map_to_list m) as [|kv l IH]; cbn; [done |]. by rewrite insert_key_perm, IH. Qed.
Lemma elem_of_in_order {A} (m : gmap chars A) k x : (k, x) ∈ in_order m <-> m !! k = Some x.
Proof. rewrite in_order_perm. apply elem_of_map_to_list. Qed.

Lemma process_ranges_bad e l k r : (k, r) ∈ l -> isHashField k = true ->
  (forall v, range_ok r v <> Some true) -> process_ranges e l <> Some true.
Proof.
  intros Hin Hk Hr. induction l as [|[k' r'] l IH]; [by apply elem_of_nil in Hin |]. cbn [process_ranges].
  apply elem_of_cons in Hin as [[= <- <-] | Hin].
  - rewrite Hk. cbn [negb]. destruct (e_fields e !! k) as [v|]; [| done]. specialize (Hr v).
    destruct (range_ok r v) as [[]|]; [done | done | done].
  - specialize (IH Hin). destruct (negb _); [done |]. destruct (e_fields e !! k'); [| done].
    destruct (range_ok r' _) as [[]|]; [done | done | done].
Qed.

(** A condition [NE] on a field selects nothing: its range asks the field to be above and
    below the value, where two areas were meant. *)
Theorem not_equal_selects_nothing k v c e :
  isHashField k = true -> v <> UNLIMITED -> process (NE k v c) e = false.
Proof.
  intros Hk Hv. unfold process. destruct (_ || _); [done |].
  enough (process_ranges e (in_order (c_conditions (NE k v c))) <> Some true) as Hn
    by (destruct (process_ranges _ _) as [[]|]; done).
  apply (process_ranges_bad e _ k (mkRange (false, v) (false, v))); [| done |].
  - apply elem_of_in_order. cbn. apply lookup_insert_eq.
  - intros x. unfold range_ok. cbn [rg_left rg_right fst snd]. rewrite andb_false_r. cbn [andb].
    unfold bound_ok. cbn [fst snd]. rewrite bool_decide_false by done.
    destruct (lexical_int64 v) as [l|]; [| done]. cbn [mbind option_bind].
    destruct (if bool_decide (x = []) then _ else _) as [r|]; [| done]. cbn [mbind option_bind].
    destruct (Z.ltb_spec l r); cbn [negb]; [| done]. rewrite Z.gtb_ltb. destruct (Z.ltb_spec r l); [lia | done].
Qed.

Lemma not_equal_selects_nothing_witness :
  process (NE (str "age") (str "3") newCondition) (setField (str "age") (str "4") newEntry) = false.
Proof. apply not_equal_selects_nothing; [reflexivity | discriminate]. Defined.
