(* ===== verification/MemoryTable.v ===== *)
(** * The tables of a block

    [libstorage/MemoryTable2.h] and [.cpp]: the rows of a table that the
    transactions of a block changed or added, over the rows the storage holds.
    An entry lives in one place, [m_dirty] or [m_newEntries], and a selection
    returns where it is; an entry of the storage that has not been changed is
    a copy.  The storage behind the table ([m_remoteDB]) is a parameter. *)

From S2P Require Import Prelude CommonData Text PBFTMsg Transaction StorageEntry.

Record TableInfo := mkTableInfo {
  ti_name : chars;
  ti_key : chars;
  ti_fields : list chars;
  ti_authorized : list Address
}.

Record AccessOptions := mkOptions { ao_origin : Address; ao_check : bool }.

Record MemTable := mkMemTable {
  mt_info : TableInfo;
  mt_new : gmap chars (list Entry);
  mt_dirty : gmap Z Entry;
  mt_isDirty : bool;
  mt_hash : list Z;
  mt_data : option (list Entry * list Entry)
}.
Definition newTable (i : TableInfo) : MemTable := mkMemTable i ∅ ∅ false (repeat 0 32) None.
Definition with_dirty (m : gmap Z Entry) (t : MemTable) : MemTable :=
  mkMemTable (mt_info t) (mt_new t) m (mt_isDirty t) (mt_hash t) (mt_data t).
Definition set_new (k : chars) (l : list Entry) (t : MemTable) : MemTable :=
  mkMemTable (mt_info t) (<[k := l]> (mt_new t)) (mt_dirty t) (mt_isDirty t) (mt_hash t) (mt_data t).
Definition set_dirty (id : Z) (e : Entry) (t : MemTable) : MemTable :=
  with_dirty (<[id := e]> (mt_dirty t)) t.
Definition mark_dirty (t : MemTable) : MemTable :=
  mkMemTable (mt_info t) (mt_new t) (mt_dirty t) true (mt_hash t) (mt_data t).
Definition new_at (k : chars) (t : MemTable) : list Entry := default [] (mt_new t !! k).

(** ** Changes *)
Inductive Kind : Set := KInsert | KUpdate | KRemove.
Record Rec := mkRec { rec_index : nat; rec_key : chars; rec_oldValue : chars; rec_id : Z }.
Record Change := mkChange { ch_kind : Kind; ch_key : chars; ch_value : list Rec }.

(** Where a selected entry is. *)
Inductive Loc : Set := LNew (i : nat) | LDirty (id : Z) | LRemote.

(** ** Operations *)
Definition checkAuthority (origin : Address) (i : TableInfo) : bool :=
  match ti_authorized i with [] => true | l => bool_decide (origin ∈ l) end.
Definition denied (o : AccessOptions) (t : MemTable) : bool :=
  ao_check o && negb (checkAuthority (ao_origin o) (mt_info t)).

(** Whether [checkField] does not throw. *)
Definition checkField (fs : gmap chars chars) (i : TableInfo) : bool :=
  forallb (fun kv => bool_decide (fst kv ∈ ti_fields i)) (in_order fs).

Definition processEntries (c : Condition) (l : list Entry) : list nat :=
  let all := seq 0 (length l) in
  if cond_empty c then all
  else List.filter (fun i => match l !! i with Some e => process c e | None => false end) all.

Definition proccessLimit {A} (c : Condition) (l : list A) : list A :=
  let b := getOffset c in
  let e := swrap 32 (b + getCount c) in
  let n := swrap 32 (lenZ l) in
  if n <=? b then [] else take (Z.to_nat (Z.min e n - b)) (drop (Z.to_nat b) l).

Section Table.
(** [m_remoteDB->select]; [None] is a null pointer. *)
Context (remote : option (TableInfo -> chars -> Condition -> result (option (list Entry)))).

Definition remote_rows (t : MemTable) (l : list Entry) : list (Loc * Entry) :=
  map (fun e => match mt_dirty t !! e_ID e with Some d => (LDirty (e_ID e), d) | None => (LRemote, e) end) l.

(** The selected new entries get their index. *)
Definition index_news (k : chars) (ix : list nat) (t : MemTable) : MemTable :=
  match mt_new t !! k with
  | None => t
  | Some l => set_new k (foldl (fun l i => alter (setTempIndex i) i l) l ix) t
  end.

Definition select_news (k : chars) (c : Condition) (t : MemTable) : MemTable * list (Loc * Entry) :=
  let ix := processEntries c (new_at k t) in
  let t := index_news k ix t in
  (t, omap (fun i => (fun e => (LNew i, e)) <$> new_at k t !! i) ix).

Definition selectNoLock (k : chars) (c0 : Condition) (t : MemTable) : MemTable * list (Loc * Entry) :=
  let c := EQ (ti_key (mt_info t)) k c0 in
  let finish db :=
    let '(t, news) := select_news k c t in
    let entries := db ++ news in
    (t, if (0 <=? getOffset c) && (0 <=? getCount c) then proccessLimit c entries else entries) in
  match remote with
  | None => finish []
  | Some r =>
      match r (mt_info t) k c with
      | Throw _ | Ok None => (t, [])
      | Ok (Some l) => finish (remote_rows t l)
      end
  end.

(** [select]: the entries themselves. *)
Definition table_select (k : chars) (c : Condition) (t : MemTable) : MemTable * list Entry :=
  let '(t, l) := selectNoLock k c t in (t, map snd l).

(** An entry that is changed for the first time moves to [m_dirty]. *)
Definition settle (le : Loc * Entry) (t : MemTable) : MemTable * Loc :=
  match le with
  | (LRemote, e) =>
      if negb (e_ID e =? 0) && negb (bool_decide (is_Some (mt_dirty t !! e_ID e)))
      then (set_dirty (e_ID e) e t, LDirty (e_ID e)) else (t, LRemote)
  | (l, _) => (t, l)
  end.

(** The object at a place, and writing it. *)
Definition at_loc (k : chars) (l : Loc) (e : Entry) (t : MemTable) : Entry :=
  match l with
  | LNew i => default e (new_at k t !! i)
  | LDirty id => default e (mt_dirty t !! id)
  | LRemote => e
  end.
Definition write_loc (k : chars) (l : Loc) (f : Entry -> Entry) (t : MemTable) : MemTable :=
  match l with
  | LNew i => set_new k (alter f i (new_at k t)) t
  | LDirty id => with_dirty (alter f id (mt_dirty t)) t
  | LRemote => t
  end.

(** The fields an update writes, in order. *)
Definition written_fields (fs : gmap chars chars) (i : TableInfo) : list (chars * chars) :=
  List.filter (fun kv => negb (bool_decide (fst kv = ID_FIELD)) && negb (bool_decide (fst kv = ti_key i))) (in_order fs).
Definition write_fields (ws : list (chars * chars)) (e : Entry) : Entry := foldl (fun e kv => setField (fst kv) (snd kv) e) e ws.
Definition update_records (ws : list (chars * chars)) (e : Entry) : list Rec :=
  map (fun kv => mkRec (e_tempIndex e) (fst kv) (getField (fst kv) e) (e_ID e)) ws.

(** The loop of [update] and [remove]: [recs] is what is recorded of an entry. *)
Fixpoint change_loop (k : chars) (f : Entry -> Entry) (recs : Entry -> list Rec) (l : list (Loc * Entry)) (t : MemTable)
    : MemTable * list Rec :=
  match l with
  | [] => (t, [])
  | le :: l' =>
      let '(t, loc) := settle le t in
      let e := at_loc k loc (snd le) t in
      let t := write_loc k loc f t in
      let '(t, rs) := change_loop k f recs l' t in
      (t, recs e ++ rs)
  end.

Definition update_loop (k : chars) (ws : list (chars * chars)) : list (Loc * Entry) -> MemTable -> MemTable * list Rec :=
  change_loop k (write_fields ws) (update_records ws).

Definition table_update (k : chars) (fs : gmap chars chars) (c : Condition) (o : AccessOptions) (t : MemTable)
    : MemTable * option Change * Z :=
  if denied o t then (t, None, CODE_NO_AUTHORIZED)
  else if negb (checkField fs (mt_info t)) then (t, None, 0)
  else
    let '(t, l) := selectNoLock k c t in
    let '(t, rs) := update_loop k (written_fields fs (mt_info t)) l t in
    (mark_dirty t, Some (mkChange KUpdate k rs), swrap 32 (lenZ l)).

(** The entry is one made by [newEntry], with the fields [fs]. *)
Definition row (fs : gmap chars chars) (force : bool) : Entry :=
  setForce force (foldl (fun e kv => setField (fst kv) (snd kv) e) newEntry (in_order fs)).

Definition table_insert (k : chars) (fs : gmap chars chars) (force : bool) (o : AccessOptions) (t : MemTable)
    : MemTable * option Change * Z :=
  if denied o t then (t, None, CODE_NO_AUTHORIZED)
  else if negb (checkField fs (mt_info t)) then (t, None, 0)
  else
    let e := setField (ti_key (mt_info t)) k (row fs force) in
    let l := new_at k t in
    (mark_dirty (set_new k (l ++ [e]) t), Some (mkChange KInsert k [mkRec (length l) [] [] 0]), 1).

Definition remove_loop (k : chars) : list (Loc * Entry) -> MemTable -> MemTable * list Rec :=
  change_loop k (setStatus 1) (fun e => [mkRec (e_tempIndex e) [] [] (e_ID e)]).

Definition table_remove (k : chars) (c : Condition) (o : AccessOptions) (t : MemTable) : MemTable * option Change * Z :=
  if denied o t then (t, None, CODE_NO_AUTHORIZED)
  else
    let '(t, l) := selectNoLock k c t in
    let '(t, rs) := remove_loop k l t in
    (mark_dirty t, Some (mkChange KRemove k rs), swrap 32 (lenZ l)).
End Table.

(** ** Rollback *)

(** The entry a record is about; [get] throws when the index is too large. *)
Definition undo_record (k : chars) (f : Entry -> Entry) (r : Rec) (t : MemTable) : MemTable :=
  if negb (rec_id r =? 0) then with_dirty (alter f (rec_id r) (mt_dirty t)) t
  else
    match mt_new t !! k with
    | None => t
    | Some l => set_new k (alter f (rec_index r) l) t
    end.

Definition table_rollback (ch : Change) (t : MemTable) : MemTable :=
  match ch_kind ch with
  | KInsert =>
      match ch_value ch, mt_new t !! ch_key ch with
      | r :: _, Some l => set_new (ch_key ch) (alter (setDeleted true) (rec_index r) l) t
      | _, _ => t
      end
  | KUpdate => foldl (fun t r => undo_record (ch_key ch) (setField (rec_key r) (rec_oldValue r)) r t) t (ch_value ch)
  | KRemove => foldl (fun t r => undo_record (ch_key ch) (setStatus 0) r t) t (ch_value ch)
  end.

(** ** Places *)
Inductive Tgt : Set := TNew (k : chars) (i : nat) | TDirty (id : Z).
#[export] Instance Tgt_eq_dec : EqDecision Tgt.
Proof. solve_decision. Defined.

Definition get (t : MemTable) (g : Tgt) : option Entry :=
  match g with TNew k i => new_at k t !! i | TDirty id => mt_dirty t !! id end.

Definition tgt_of (k : chars) (r : Rec) : Tgt := if negb (rec_id r =? 0) then TDirty (rec_id r) else TNew k (rec_index r).
Definition tgt_at (k : chars) (le : Loc * Entry) : Tgt :=
  match fst le with LNew i => TNew k i | LDirty id => TDirty id | LRemote => TDirty (e_ID (snd le)) end.

Lemma new_at_set k l t k' : new_at k' (set_new k l t) = if bool_decide (k' = k) then l else new_at k' t.
Proof.
  unfold new_at, set_new. cbn. case_bool_decide as E; [subst; by rewrite lookup_insert_eq | by rewrite lookup_insert_ne].
Qed.

Lemma get_undo k f r t g :
  get (undo_record k f r t) g = if bool_decide (g = tgt_of k r) then f <$> get t g else get t g.
Proof.
  unfold undo_record, tgt_of. destruct (negb (rec_id r =? 0)).
  - destruct g as [k' i | id]; cbn; [done |]. case_bool_decide as E; [injection E as ->; by rewrite lookup_alter_eq |].
    rewrite lookup_alter_ne; [done | congruence].
  - destruct g as [k' i | id]; cbn; [| by destruct (mt_new t !! k)].
    destruct (mt_new t !! k) as [l|] eqn:El.
    + rewrite new_at_set. destruct (decide (k' = k)) as [-> | Hk].
      * rewrite (bool_decide_true (k = k)) by done. unfold new_at. rewrite El. cbn. case_bool_decide as E.
        -- injection E as ->. by rewrite list_lookup_alter_eq.
        -- rewrite list_lookup_alter_ne; [done | congruence].
      * rewrite !bool_decide_false by congruence. done.
    + case_bool_decide as E; [| done]. injection E as -> ->. unfold new_at. by rewrite El.
Qed.

Lemma get_fold_undo k (F : Rec -> Entry -> Entry) rs t g :
  get (foldl (fun t r => undo_record k (F r) r t) t rs) g =
  (fun e => foldl (fun e r => F r e) e (List.filter (fun r => bool_decide (g = tgt_of k r)) rs)) <$> get t g.
Proof.
  revert t. induction rs as [|r rs IH]; intros t; cbn; [by destruct (get t g) |]. rewrite IH, get_undo.
  destruct (bool_decide (g = tgt_of k r)); [| done]. by destruct (get t g).
Qed.

Lemma get_write k loc f t g : loc <> LRemote ->
  get (write_loc k loc f t) g = if bool_decide (g = tgt_at k (loc, newEntry)) then f <$> get t g else get t g.
Proof.
  intros Hl. destruct loc as [i | id |]; [| | done]; cbn.
  - destruct g as [k' i' | id']; cbn; [| done]. rewrite new_at_set. destruct (decide (k' = k)) as [-> | Hk].
    + rewrite (bool_decide_true (k = k)) by done. case_bool_decide as E.
      * injection E as ->. by rewrite list_lookup_alter_eq.
      * rewrite list_lookup_alter_ne; [done | congruence].
    + by rewrite !bool_decide_false by congruence.
  - destruct g as [k' i' | id']; cbn; [done |]. case_bool_decide as E; [injection E as ->; by rewrite lookup_alter_eq |].
    rewrite lookup_alter_ne; [done | congruence].
Qed.

(** What no step changes. *)
Lemma undo_info k f r t : mt_info (undo_record k f r t) = mt_info t.
Proof. unfold undo_record. destruct (negb _); [done |]. by destruct (mt_new t !! k). Qed.
Lemma fold_undo_info k (F : Rec -> Entry -> Entry) rs t :
  mt_info (foldl (fun t r => undo_record k (F r) r t) t rs) = mt_info t.
Proof. revert t. induction rs as [|r rs IH]; intros t; cbn; [done |]. by rewrite IH, undo_info. Qed.

(** ** Changing selected entries *)
Section Changes.
(** The rows the storage holds, by identifier. *)
Context (db : Z -> option Entry).

Definition sel_ok (k : chars) (t : MemTable) (le : Loc * Entry) : Prop :=
  match le with
  | (LNew i, e) => get t (TNew k i) = Some e /\ e_ID e = 0 /\ e_tempIndex e = i
  | (LDirty id, e) => get t (TDirty id) = Some e /\ e_ID e = id /\ id <> 0
  | (LRemote, e) => get t (TDirty (e_ID e)) = None /\ e_ID e <> 0 /\ db (e_ID e) = Some e
  end.

Lemma settle_write k f le t : sel_ok k t le ->
  let '(t1, loc) := settle le t in
  let t2 := write_loc k loc f t1 in
  at_loc k loc (snd le) t1 = snd le /\ mt_info t2 = mt_info t /\
  forall g, get t2 g = if bool_decide (g = tgt_at k le) then Some (f (snd le)) else get t g.
Proof.
  destruct le as [[i | id |] e]; cbn [sel_ok settle snd]; intros (Hg & Hid & Hx).
  - split_and!; [cbn in *; by rewrite Hg | done |]. intros g. rewrite get_write by done. cbn.
    case_bool_decide as E; [subst g; by rewrite Hg | done].
  - split_and!; [cbn in *; by rewrite Hg | done |]. intros g. rewrite get_write by done. cbn.
    case_bool_decide as E; [subst g; by rewrite Hg | done].
  - cbn in Hg. rewrite Hg. rewrite (bool_decide_false (is_Some None)) by (intros [? ?]; done).
    rewrite (proj2 (Z.eqb_neq _ _)) by done. cbn [negb andb].
    split_and!; [cbn; by rewrite lookup_insert_eq | done |]. intros g. rewrite get_write by done. cbn.
    case_bool_decide as E; [subst g; cbn; by rewrite lookup_insert_eq |].
    destruct g as [k' i' | id']; cbn; [done |]. rewrite lookup_insert_ne; [done | congruence].
Qed.

Lemma sel_ok_ext k t t' le : get t' (tgt_at k le) = get t (tgt_at k le) -> sel_ok k t le -> sel_ok k t' le.
Proof. destruct le as [[i | id |] e]; cbn; intros ->; done. Qed.

Lemma change_loop_spec k f recs l t t1 rs :
  Forall (sel_ok k t) l -> NoDup (map (tgt_at k) l) -> change_loop k f recs l t = (t1, rs) ->
  mt_info t1 = mt_info t /\ (forall g, g ∉ map (tgt_at k) l -> get t1 g = get t g) /\
  (forall le, le ∈ l -> get t1 (tgt_at k le) = Some (f (snd le))) /\ rs = concat (map (fun le => recs (snd le)) l).
Proof.
  revert t t1 rs. induction l as [|le l IH]; intros t t1 rs Hs Hn; cbn [change_loop].
  { intros [= <- <-]. split_and!; [done | done | set_solver | done]. }
  apply Forall_cons in Hs as [Hle Hs]. cbn [map] in Hn. apply NoDup_cons in Hn as [Hnin Hn].
  pose proof (settle_write k f le t Hle) as Hw. destruct (settle le t) as [t' loc]. cbv zeta in Hw.
  destruct Hw as (Hat & Hinfo & Hget). set (t2 := write_loc k loc f t') in *.
  destruct (change_loop k f recs l t2) as [t3 rs3] eqn:E. intros [= <- <-]. rewrite Hat.
  assert (Hs2 : Forall (sel_ok k t2) l).
  { apply Forall_forall. intros x Hx. rewrite Forall_forall in Hs. apply (sel_ok_ext k t); [| by apply Hs].
    rewrite Hget, bool_decide_false; [done |]. intros Ex. apply Hnin. rewrite <- Ex. by apply list_elem_of_fmap_2. }
  destruct (IH t2 t3 rs3 Hs2 Hn E) as (A & B & D & F). split_and!; [congruence | | | by rewrite F].
  - intros g Hg. cbn [map] in Hg. rewrite not_elem_of_cons in Hg. destruct Hg as [Hg1 Hg2].
    rewrite (B g Hg2), Hget, bool_decide_false by done. done.
  - intros x [-> | Hx]%elem_of_cons; [| by apply D]. rewrite (B _ Hnin), Hget, bool_decide_true by done. done.
Qed.
End Changes.

(** ** Undoing the writes of one entry *)
Lemma foldl_setField_fields ws e : e_fields (foldl (fun e (kv : chars * chars) => setField (fst kv) (snd kv) e) e ws)
  = foldl (fun m (kv : chars * chars) => <[fst kv := snd kv]> m) (e_fields e) ws.
Proof. revert e. induction ws as [|kv ws IH]; intros e; cbn; [done |]. by rewrite IH. Qed.
Lemma foldl_setField_rest ws e : let e' := foldl (fun e (kv : chars * chars) => setField (fst kv) (snd kv) e) e ws in
  e_ID e' = e_ID e /\ e_status e' = e_status e /\ e_deleted e' = e_deleted e /\ e_tempIndex e' = e_tempIndex e.
Proof. revert e. induction ws as [|kv ws IH]; intros e; cbn; [done |]. by destruct (IH (setField (fst kv) (snd kv) e)) as (-> & -> & -> & ->). Qed.

Lemma foldl_insert_lookup (ws : list (chars * chars)) (m : gmap chars chars) k :
  k ∉ map fst ws -> foldl (fun m kv => <[fst kv := snd kv]> m) m ws !! k = m !! k.
Proof.
  revert m. induction ws as [|kv ws IH]; intros m Hk; cbn in *; [done |]. rewrite not_elem_of_cons in Hk.
  rewrite IH by tauto. apply lookup_insert_ne. naive_solver.
Qed.
Lemma foldl_insert_in (ws : list (chars * chars)) (m : gmap chars chars) k v :
  NoDup (map fst ws) -> (k, v) ∈ ws -> foldl (fun m kv => <[fst kv := snd kv]> m) m ws !! k = Some v.
Proof.
  revert m. induction ws as [|kv ws IH]; intros m Hn Hin; cbn in *; [by apply elem_of_nil in Hin |].
  apply NoDup_cons in Hn as [Hni Hn]. apply elem_of_cons in Hin as [<- | Hin]; [| by apply IH].
  rewrite foldl_insert_lookup by done. cbn. apply lookup_insert_eq.
Qed.

(** What an observer sees of an entry. *)
Definition core (e : Entry) : Z * Z * bool * gmap chars chars := (e_ID e, e_status e, e_deleted e, e_fields e).

Lemma undo_write_fields ws e :
  NoDup (map fst ws) -> Forall (fun kv => is_Some (e_fields e !! fst kv)) ws ->
  core (foldl (fun e r => setField (rec_key r) (rec_oldValue r) e) (write_fields ws e) (update_records ws e)) = core e.
Proof.
  intros Hn Hp. set (olds := map (fun kv => (fst kv, getField (fst kv) e)) ws).
  assert (Hfold : forall e0 : Entry, foldl (fun e r => setField (rec_key r) (rec_oldValue r) e) e0 (update_records ws e)
    = foldl (fun e (kv : chars * chars) => setField (fst kv) (snd kv) e) e0 olds).
  { unfold update_records, olds. clear Hn Hp. generalize (e_tempIndex e) (e_ID e). induction ws as [|kv ws IH]; intros n z e0; cbn; [done | apply IH]. }
  rewrite Hfold. unfold core. destruct (foldl_setField_rest olds (write_fields ws e)) as (-> & -> & -> & _).
  destruct (foldl_setField_rest ws e) as (E1 & E2 & E3 & _). unfold write_fields. rewrite E1, E2, E3, !foldl_setField_fields.
  f_equal. apply map_eq. intros k.
  assert (Hk : map fst olds = map fst ws) by (unfold olds; rewrite map_map; done).
  destruct (decide (k ∈ map fst ws)) as [Hin | Hout].
  - apply list_elem_of_fmap in Hin as (kv & -> & Hin). rewrite Forall_forall in Hp. destruct (Hp _ Hin) as [v Hv].
    rewrite (foldl_insert_in olds _ (fst kv) v); [done | by rewrite Hk |].
    unfold olds. apply list_elem_of_fmap. exists kv. split; [| done]. unfold getField. by rewrite Hv.
  - rewrite !foldl_insert_lookup by (rewrite ?Hk; done). done.
Qed.

Lemma in_order_keys {A} (m : gmap chars A) : NoDup (map fst (in_order m)).
Proof. rewrite in_order_perm. apply NoDup_fst_map_to_list. Qed.

(** ** Selections *)
Lemma index_fold_lookup (ix : list nat) (l : list Entry) j :
  foldl (fun l i => alter (setTempIndex i) i l) l ix !! j = if bool_decide (j ∈ ix) then setTempIndex j <$> l !! j else l !! j.
Proof.
  revert l. induction ix as [|i ix IH]; intros l; cbn [foldl]; [by rewrite bool_decide_false by set_solver |].
  rewrite IH. destruct (decide (j = i)) as [-> | Hn].
  - rewrite list_lookup_alter_eq, (bool_decide_true (i ∈ i :: ix)) by set_solver.
    case_bool_decide; [| done]. by destruct (l !! i).
  - rewrite list_lookup_alter_ne by done. by rewrite (bool_decide_ext (j ∈ ix) (j ∈ i :: ix)) by set_solver.
Qed.

Lemma get_index k ix t g : get (index_news k ix t) g =
  match g with TNew k' j => if bool_decide (k' = k) && bool_decide (j ∈ ix) then setTempIndex j <$> get t g else get t g | _ => get t g end.
Proof.
  unfold index_news. destruct g as [k' j | id]; [| by destruct (mt_new t !! k)]. cbn.
  destruct (mt_new t !! k) as [l|] eqn:El.
  - rewrite new_at_set. destruct (decide (k' = k)) as [-> | Hk].
    + rewrite (bool_decide_true (k = k)) by done. rewrite index_fold_lookup. unfold new_at. by rewrite El.
    + by rewrite (bool_decide_false (k' = k)) by done.
  - destruct (decide (k' = k)) as [-> | Hk]; [| by rewrite (bool_decide_false (k' = k)) by done].
    unfold new_at. rewrite El. cbn. by destruct (_ && _).
Qed.
Lemma index_info k ix t : mt_info (index_news k ix t) = mt_info t.
Proof. unfold index_news. by destruct (mt_new t !! k). Qed.

Definition same_core (t t' : MemTable) : Prop := mt_info t' = mt_info t /\ mt_dirty t' = mt_dirty t /\ forall g, core <$> get t' g = core <$> get t g.

Lemma index_same k ix t : same_core t (index_news k ix t).
Proof.
  split_and!; [apply index_info | unfold index_news; by destruct (mt_new t !! k) |]. intros g. rewrite get_index.
  destruct g as [k' j | id]; [| done]. destruct (_ && _); [| done]. by destruct (get t (TNew k' j)).
Qed.

(** Identifiers belong to stored rows. *)
Definition table_wf (t : MemTable) : Prop :=
  (forall k i e, get t (TNew k i) = Some e -> e_ID e = 0) /\ (forall id e, get t (TDirty id) = Some e -> e_ID e = id /\ id <> 0).

Lemma core_wf t t' : (forall g, core <$> get t' g = core <$> get t g) -> table_wf t -> table_wf t'.
Proof.
  intros Hc [H1 H2]. split.
  - intros k i e He. specialize (Hc (TNew k i)). rewrite He in Hc. destruct (get t (TNew k i)) as [e'|] eqn:E; [| done].
    injection Hc as E1 _ _ _. rewrite E1. by apply (H1 k i).
  - intros id e He. specialize (Hc (TDirty id)). rewrite He in Hc. destruct (get t (TDirty id)) as [e'|] eqn:E; [| done].
    injection Hc as E1 _ _ _. rewrite E1. by apply (H2 id).
Qed.

Section Select.
Context (db : Z -> option Entry) (remote : option (TableInfo -> chars -> Condition -> result (option (list Entry)))).

(** What the storage promises: a selection returns stored rows, each once. *)
Definition remote_ok : Prop :=
  forall r i k c l, remote = Some r -> r i k c = Ok (Some l) ->
    NoDup (map e_ID l) /\ Forall (fun e => e_ID e <> 0 /\ db (e_ID e) = Some e) l.

Lemma remote_rows_ok k t l : table_wf t -> NoDup (map e_ID l) -> Forall (fun e => e_ID e <> 0 /\ db (e_ID e) = Some e) l ->
  Forall (sel_ok db k t) (remote_rows t l) /\ map (tgt_at k) (remote_rows t l) = map (fun e => TDirty (e_ID e)) l.
Proof.
  intros [_ Hw] Hn Hf. clear Hn. induction l as [|e l IH]; [done |]. apply Forall_cons in Hf as [[Hid Hdb] Hf].
  destruct (IH Hf) as [A B]. cbn [remote_rows map]. fold (remote_rows t l). rewrite B. destruct (mt_dirty t !! e_ID e) as [d|] eqn:Ed.
  - split; [| done]. constructor; [| done]. destruct (Hw _ _ Ed) as [E1 E2]. cbn. by rewrite Ed.
  - split; [| done]. constructor; [cbn; by rewrite Ed | done].
Qed.

Lemma select_news_ok k c t t1 l : table_wf t -> select_news k c t = (t1, l) ->
  same_core t t1 /\ Forall (sel_ok db k t1) l /\ NoDup (map (tgt_at k) l) /\ Forall (fun g => exists i, g = TNew k i) (map (tgt_at k) l).
Proof.
  intros Hw. unfold select_news. set (ix := processEntries c (new_at k t)). intros [= <- <-].
  assert (Hnd : NoDup ix).
  { unfold ix, processEntries. destruct (cond_empty c); [apply NoDup_seq |]. apply NoDup_ListNoDup, List.NoDup_filter, NoDup_ListNoDup, NoDup_seq. }
  split_and!; [apply index_same | | |].
  - apply Forall_forall. intros [loc e] Hin. apply list_elem_of_omap in Hin as (i & Hi & E).
    destruct (new_at k (index_news k ix t) !! i) as [e'|] eqn:El; [| done]. injection E as <- <-. split_and!; [exact El | |].
    + destruct (core_wf _ _ (proj2 (proj2 (index_same k ix t))) Hw) as [H1 _]. by apply (H1 k i).
    + pose proof (get_index k ix t (TNew k i)) as Hg. cbn in Hg. rewrite El, !bool_decide_true in Hg by done. cbn in Hg.
      destruct (new_at k t !! i); [by injection Hg as -> | done].
  - generalize (new_at k (index_news k ix t)). intros l0. clear Hw. induction ix as [|i ix IH]; cbn; [constructor |].
    apply NoDup_cons in Hnd as [Hni Hnd]. destruct (l0 !! i) as [e|]; cbn; [| by apply IH]. constructor; [| by apply IH].
    intros Hin. apply list_elem_of_fmap in Hin as ([loc e'] & E & Hin). apply list_elem_of_omap in Hin as (j & Hj & E').
    destruct (l0 !! j); [| done]. injection E' as <- <-. cbn in E. injection E as ->. done.
  - apply Forall_forall. intros g Hg. apply list_elem_of_fmap in Hg as ([loc e] & -> & Hin). apply list_elem_of_omap in Hin as (j & Hj & E').
    destruct (new_at k (index_news k ix t) !! j); [| done]. injection E' as <- <-. by exists j.
Qed.

Lemma sel_ok_core k t t1 le : mt_dirty t1 = mt_dirty t -> (exists id, tgt_at k le = TDirty id) ->
  sel_ok db k t le -> sel_ok db k t1 le.
Proof. intros Hd [id Hg]. apply sel_ok_ext. rewrite Hg. cbn. by rewrite Hd. Qed.

Lemma limit_sublist {A} (c : Condition) (l : list A) : proccessLimit c l `sublist_of` l.
Proof.
  unfold proccessLimit. case_match; [apply sublist_nil_l |].
  etrans; [apply sublist_take | apply sublist_drop].
Qed.

Lemma sublist_forall {A} (P : A -> Prop) (l1 l2 : list A) : l1 `sublist_of` l2 -> Forall P l2 -> Forall P l1.
Proof. intros Hs. rewrite !Forall_forall. intros H x Hx. apply H. by eapply elem_of_sublist. Qed.

Lemma sublist_map {A B} (f : A -> B) (l1 l2 : list A) : l1 `sublist_of` l2 -> map f l1 `sublist_of` map f l2.
Proof. induction 1; cbn; by constructor. Qed.

(** What a selection returns: entries where it says they are, each once. *)
Lemma select_ok k c t t1 l : remote_ok -> table_wf t -> selectNoLock remote k c t = (t1, l) ->
  same_core t t1 /\ Forall (sel_ok db k t1) l /\ NoDup (map (tgt_at k) l).
Proof.
  intros Hr Hw. unfold selectNoLock.
  assert (Hfin : forall c rows t1 l, Forall (sel_ok db k t) rows -> NoDup (map (tgt_at k) rows) ->
    Forall (fun le => exists id, tgt_at k le = TDirty id) rows ->
    (let '(t, news) := select_news k c t in
     (t, if (0 <=? getOffset c) && (0 <=? getCount c) then proccessLimit c (rows ++ news) else rows ++ news)) = (t1, l) ->
    same_core t t1 /\ Forall (sel_ok db k t1) l /\ NoDup (map (tgt_at k) l)).
  { clear t1 l c. intros c rows t1 l Hrow Hnd Hd. destruct (select_news k c t) as [t2 news] eqn:En.
    destruct (select_news_ok k c t t2 news Hw En) as (Hs & Hok & Hn & Hall). intros [= <- <-].
    assert (Hsub : (if (0 <=? getOffset c) && (0 <=? getCount c) then proccessLimit c (rows ++ news) else rows ++ news)
      `sublist_of` rows ++ news) by (case_match; [apply limit_sublist | done]).
    split; [done |]. split.
    - apply (sublist_forall _ _ _ Hsub). apply Forall_app. split; [| done].
      apply Forall_forall. intros le Hle. rewrite Forall_forall in Hrow. rewrite Forall_forall in Hd.
      apply (sel_ok_core k t); [apply Hs | by apply Hd | by apply Hrow].
    - apply (sublist_NoDup _ (map (tgt_at k) (rows ++ news))); [| apply sublist_map, Hsub].
      rewrite map_app. apply NoDup_app. split_and!; [done | | done]. intros g Hg Hg'.
      apply list_elem_of_fmap in Hg as (le & -> & Hle). rewrite Forall_forall in Hd. rewrite Forall_forall in Hall.
      destruct (Hd _ Hle) as [id E]. destruct (Hall _ Hg') as [i E']. congruence. }
  destruct remote as [r|] eqn:Er.
  - destruct (r (mt_info t) k (EQ (ti_key (mt_info t)) k c)) as [[rows|]|] eqn:Es; [| intros [= <- <-]; split; [done |]; split; [done | constructor] ..].
    destruct (Hr r _ _ _ rows Er Es) as [Hn Hf].
    destruct (remote_rows_ok k t rows Hw Hn Hf) as [Ha Hb]. apply Hfin; [done | |].
    + rewrite Hb. rewrite <- (map_map e_ID TDirty). by apply NoDup_fmap_2; [intros ?? [=] |].
    + apply Forall_forall. intros le Hle. assert (Hin : tgt_at k le ∈ map (fun e => TDirty (e_ID e)) rows)
        by (rewrite <- Hb; by apply list_elem_of_fmap_2). apply list_elem_of_fmap in Hin as (e & -> & _). by eexists.
  - apply Hfin; [done | constructor | done].
Qed.
End Select.

(** ** Operations and their logs *)
Inductive TableOp :=
| TSelect (k : chars) (c : Condition)
| TInsert (k : chars) (fs : gmap chars chars) (force : bool) (o : AccessOptions)
| TUpdate (k : chars) (fs : gmap chars chars) (c : Condition) (o : AccessOptions)
| TRemove (k : chars) (c : Condition) (o : AccessOptions).

Section Rollback.
Context (db : Z -> option Entry) (remote : option (TableInfo -> chars -> Condition -> result (option (list Entry)))).

(** One operation, and what the recorder appends to the log. *)
Definition table_step (op : TableOp) (t : MemTable) : MemTable * list Change :=
  match op with
  | TSelect k c => (fst (table_select remote k c t), [])
  | TInsert k fs b o => let '(t, ch, _) := table_insert k fs b o t in (t, option_list ch)
  | TUpdate k fs c o => let '(t, ch, _) := table_update remote k fs c o t in (t, option_list ch)
  | TRemove k c o => let '(t, ch, _) := table_remove remote k c o t in (t, option_list ch)
  end.
Fixpoint table_run (ops : list TableOp) (t : MemTable) : MemTable * list Change :=
  match ops with
  | [] => (t, [])
  | op :: ops => let '(t, log) := table_step op t in let '(t, log') := table_run ops t in (t, log ++ log')
  end.

(** Operations whose records hold what they overwrite: an update writes fields
    that the rows have, a removal hits rows that are not removed. *)
Definition clean_op (op : TableOp) (t : MemTable) : Prop :=
  match op with
  | TUpdate k fs c o =>
      Forall (fun le => Forall (fun kv => is_Some (e_fields (snd le) !! fst kv)) (written_fields fs (mt_info t)))
        (snd (selectNoLock remote k c t))
  | TRemove k c o => Forall (fun le => e_status (snd le) = 0) (snd (selectNoLock remote k c t))
  | _ => True
  end.
Fixpoint clean_run (ops : list TableOp) (t : MemTable) : Prop :=
  match ops with
  | [] => True
  | op :: ops => clean_op op t /\ clean_run ops (fst (table_step op t))
  end.

(** What a reader can find under an identifier. *)
Definition content (t : MemTable) (id : Z) : option (Z * Z * bool * gmap chars chars) :=
  match mt_dirty t !! id with Some e => Some (core e) | None => core <$> db id end.

(** [t'] shows a reader what [t] does: rows added since are marked as deleted. *)
Record restores (t t' : MemTable) : Prop := {
  rs_info : mt_info t' = mt_info t;
  rs_content : forall id, content t' id = content t id;
  rs_dirty : forall id, is_Some (mt_dirty t !! id) -> is_Some (mt_dirty t' !! id);
  rs_old : forall k i e, new_at k t !! i = Some e -> core <$> new_at k t' !! i = Some (core e);
  rs_extra : forall k i e, new_at k t !! i = None -> new_at k t' !! i = Some e -> e_deleted e = true
}.

Lemma restores_refl t : restores t t.
Proof. split; [done | done | done | by intros ? ? ? -> | congruence]. Qed.

Lemma restores_trans t1 t2 t3 : restores t1 t2 -> restores t2 t3 -> restores t1 t3.
Proof.
  intros [A1 A2 A3 A4 A5] [B1 B2 B3 B4 B5]. split; [congruence | intros; by rewrite B2 | auto | |].
  - intros k i e He. specialize (A4 _ _ _ He). destruct (new_at k t2 !! i) as [e'|] eqn:E; [| done].
    rewrite (B4 _ _ _ E). done.
  - intros k i e Hn He. destruct (new_at k t2 !! i) as [e'|] eqn:E; [| by eapply B5].
    specialize (B4 _ _ _ E). rewrite He in B4. injection B4 as _ _ Hd _. rewrite Hd. by eapply A5.
Qed.

Lemma same_core_restores t t' : same_core t t' -> restores t t'.
Proof.
  intros (H1 & H2 & H3). split; [done | intros id; unfold content; by rewrite H2 | by rewrite H2 | |].
  - intros k i e He. specialize (H3 (TNew k i)). cbn in H3. by rewrite H3, He.
  - intros k i e Hn He. specialize (H3 (TNew k i)). cbn in H3. by rewrite Hn, He in H3.
Qed.

(** A change points at rows that are in the table. *)
Definition change_at (ch : Change) (t : MemTable) : Prop :=
  ch_kind ch <> KInsert -> Forall (fun r => rec_id r <> 0 -> is_Some (mt_dirty t !! rec_id r)) (ch_value ch).

(** The three ways to undo a record respect what a reader sees. *)
Definition core_fun (f : Entry -> Entry) : Prop :=
  (forall e e', core e = core e' -> core (f e) = core (f e')) /\ (forall e, e_deleted e = true -> e_deleted (f e) = true).

Lemma core_setField k v : core_fun (setField k v).
Proof. split; [intros e e' [= E1 E2 E3 E4]; unfold core; cbn; by rewrite E1, E2, E3, E4 | done]. Qed.
Lemma core_setStatus n : core_fun (setStatus n).
Proof. split; [intros e e' [= E1 E2 E3 E4]; unfold core; cbn; by rewrite E1, E3, E4 | done]. Qed.
Lemma core_setDeleted : core_fun (setDeleted true).
Proof. split; [intros e e' [= E1 E2 E3 E4]; unfold core; cbn; by rewrite E1, E2, E4 | done]. Qed.

Lemma undo_dirty k f r t id : is_Some (mt_dirty (undo_record k f r t) !! id) <-> is_Some (mt_dirty t !! id).
Proof.
  pose proof (get_undo k f r t (TDirty id)) as E. cbn [get] in E. rewrite E. case_bool_decide; [| done].
  destruct (mt_dirty t !! id); cbn; split; intros [? ?]; done || eauto.
Qed.

Lemma undo_mono k f r t t' : core_fun f -> (rec_id r <> 0 -> is_Some (mt_dirty t !! rec_id r)) -> restores t t' ->
  restores (undo_record k f r t) (undo_record k f r t').
Proof.
  intros [Hf1 Hf2] Hid [R1 R2 R3 R4 R5]. split.
  - by rewrite !undo_info.
  - intros id. unfold content. pose proof (get_undo k f r t (TDirty id)) as E. pose proof (get_undo k f r t' (TDirty id)) as E'.
    cbn [get] in E, E'. rewrite E, E'. specialize (R2 id). unfold content in R2. case_bool_decide as Hg; [| done].
    unfold tgt_of in Hg. destruct (Z.eqb_spec (rec_id r) 0) as [|Hz]; [done |]. cbn in Hg. injection Hg as ->.
    destruct (Hid Hz) as [e He]. destruct (R3 _ (Hid Hz)) as [e' He']. rewrite He, He' in *. cbn. injection R2 as R2.
    f_equal. apply Hf1. unfold core. congruence.
  - intros id. rewrite !undo_dirty. apply R3.
  - intros k' i e He. pose proof (get_undo k f r t (TNew k' i)) as E. pose proof (get_undo k f r t' (TNew k' i)) as E'.
    cbn [get] in E, E'. rewrite E'. rewrite E in He. case_bool_decide; [| by apply R4].
    destruct (new_at k' t !! i) as [e0|] eqn:E0; [| done]. injection He as <-. specialize (R4 _ _ _ E0).
    destruct (new_at k' t' !! i) as [e1|]; [| done]. cbn in *. injection R4 as R4. f_equal. apply Hf1. unfold core. congruence.
  - intros k' i e Hn He. pose proof (get_undo k f r t (TNew k' i)) as E. pose proof (get_undo k f r t' (TNew k' i)) as E'.
    cbn [get] in E, E'. rewrite E in Hn. rewrite E' in He. case_bool_decide; [| by eapply R5].
    destruct (new_at k' t !! i) as [e0|] eqn:E0; [done |]. destruct (new_at k' t' !! i) as [e1|] eqn:E1; [| done].
    injection He as <-. apply Hf2. by eapply R5.
Qed.

Lemma undo_fold_mono k (F : Rec -> Entry -> Entry) rs : (forall r, core_fun (F r)) -> forall t t',
  Forall (fun r => rec_id r <> 0 -> is_Some (mt_dirty t !! rec_id r)) rs -> restores t t' ->
  restores (foldl (fun t r => undo_record k (F r) r t) t rs) (foldl (fun t r => undo_record k (F r) r t) t' rs).
Proof.
  intros HF. induction rs as [|r rs IH]; intros t t' Hall HR; [done |]. cbn. apply Forall_cons in Hall as [Hr Hall].
  apply IH; [| by apply undo_mono]. eapply Forall_impl; [exact Hall |]. intros r' Hr' Hz. apply undo_dirty. by apply Hr'.
Qed.

(** A rollback is a sequence of undone records. *)
Definition undo_fun (kd : Kind) (r : Rec) : Entry -> Entry :=
  match kd with KInsert => setDeleted true | KUpdate => setField (rec_key r) (rec_oldValue r) | KRemove => setStatus 0 end.
Definition change_ok (ch : Change) (t : MemTable) : Prop :=
  (ch_kind ch = KInsert -> exists r, ch_value ch = [r] /\ rec_id r = 0) /\
  Forall (fun r => rec_id r <> 0 -> is_Some (mt_dirty t !! rec_id r)) (ch_value ch).

Lemma rollback_undo ch t : (ch_kind ch = KInsert -> exists r, ch_value ch = [r] /\ rec_id r = 0) ->
  table_rollback ch t = foldl (fun t r => undo_record (ch_key ch) (undo_fun (ch_kind ch) r) r t) t (ch_value ch).
Proof.
  unfold table_rollback. destruct (ch_kind ch); [| done ..]. intros [r [-> Hr]]; [done |]. cbn. unfold undo_record. by rewrite Hr.
Qed.
Lemma core_undo_fun kd r : core_fun (undo_fun kd r).
Proof. destruct kd; [apply core_setDeleted | apply core_setField | apply core_setStatus]. Qed.

Lemma rollback_mono ch t t' : change_ok ch t -> restores t t' -> restores (table_rollback ch t) (table_rollback ch t').
Proof.
  intros [H1 H2] HR. rewrite !rollback_undo by done. apply undo_fold_mono; [intros r; apply core_undo_fun | done | done].
Qed.

(** Records of entries at distinct places do not mix. *)
Lemma filter_records_none k (recs : Entry -> list Rec) l g : g ∉ map (tgt_at k) l ->
  Forall (fun x => Forall (fun r => tgt_of k r = tgt_at k x) (recs (snd x))) l ->
  List.filter (fun r => bool_decide (g = tgt_of k r)) (concat (map (fun x => recs (snd x)) l)) = [].
Proof.
  intros Hg Hl. induction l as [|x l IH]; [done |]. cbn [map] in *. rewrite not_elem_of_cons in Hg.
  apply Forall_cons in Hl as [Hx Hl]. cbn. rewrite List.filter_app, IH by tauto. rewrite app_nil_r.
  induction (recs (snd x)) as [|r rs IHr]; [done |]. apply Forall_cons in Hx as [Hr Hx]. cbn.
  rewrite bool_decide_false by (rewrite Hr; tauto). by apply IHr.
Qed.
Lemma filter_records k (recs : Entry -> list Rec) l le : NoDup (map (tgt_at k) l) ->
  Forall (fun x => Forall (fun r => tgt_of k r = tgt_at k x) (recs (snd x))) l -> le ∈ l ->
  List.filter (fun r => bool_decide (tgt_at k le = tgt_of k r)) (concat (map (fun x => recs (snd x)) l)) = recs (snd le).
Proof.
  induction l as [|x l IH]; intros Hn Hl Hin; [by apply elem_of_nil in Hin |]. cbn [map] in Hn. apply NoDup_cons in Hn as [Hni Hn].
  apply Forall_cons in Hl as [Hx Hl]. cbn. rewrite List.filter_app. apply elem_of_cons in Hin as [-> | Hin].
  - rewrite filter_records_none by done. rewrite app_nil_r. clear IH. induction (recs (snd x)) as [|r rs IHr]; [done |].
    apply Forall_cons in Hx as [Hr Hx]. cbn. rewrite bool_decide_true by done. f_equal. by apply IHr.
  - rewrite IH by done. assert (tgt_at k le <> tgt_at k x) as Hne.
    { intros E. apply Hni. rewrite <- E. by apply list_elem_of_fmap_2. }
    enough (List.filter (fun r => bool_decide (tgt_at k le = tgt_of k r)) (recs (snd x)) = []) as -> by done.
    induction (recs (snd x)) as [|r rs IHr]; [done |]. apply Forall_cons in Hx as [Hr Hx]. cbn.
    rewrite bool_decide_false by (rewrite Hr; done). by apply IHr.
Qed.
(** Undoing the records of a loop gives back what the loop found. *)
Lemma change_undo k f recs (F : Rec -> Entry -> Entry) l t t1 rs :
  Forall (sel_ok db k t) l -> NoDup (map (tgt_at k) l) -> change_loop k f recs l t = (t1, rs) ->
  Forall (fun x => Forall (fun r => tgt_of k r = tgt_at k x) (recs (snd x))) l ->
  Forall (fun x => core (foldl (fun e r => F r e) (f (snd x)) (recs (snd x))) = core (snd x)) l ->
  restores t (foldl (fun t r => undo_record k (F r) r t) t1 rs).
Proof.
  intros Hs Hn Hrun Ht Hcore. destruct (change_loop_spec db k f recs l t t1 rs Hs Hn Hrun) as (Hi & Hout & Hin & ->).
  set (t2 := foldl _ _ _).
  assert (G1 : forall g, g ∉ map (tgt_at k) l -> get t2 g = get t g).
  { intros g Hg. unfold t2. rewrite get_fold_undo, filter_records_none, Hout by done. cbn. by destruct (get t g). }
  assert (G2 : forall le, le ∈ l -> core <$> get t2 (tgt_at k le) = Some (core (snd le))).
  { intros le Hle. unfold t2. rewrite get_fold_undo, (filter_records k recs l le Hn Ht Hle), Hin by done. cbn.
    rewrite Forall_forall in Hcore. by rewrite (Hcore _ Hle). }
  assert (Hloc : forall g, g ∉ map (tgt_at k) l \/ exists le, le ∈ l /\ g = tgt_at k le /\ sel_ok db k t le).
  { intros g. destruct (decide (g ∈ map (tgt_at k) l)) as [Hg | Hg]; [right | by left].
    apply list_elem_of_fmap in Hg as (le & -> & Hle). exists le. rewrite Forall_forall in Hs. auto. }
  split.
  - unfold t2. by rewrite fold_undo_info.
  - intros id. unfold content. destruct (Hloc (TDirty id)) as [Hg | (le & Hle & E & Hok)].
    + pose proof (G1 _ Hg) as E. cbn [get] in E. by rewrite E.
    + specialize (G2 _ Hle). rewrite <- E in G2. cbn [get] in G2. destruct (mt_dirty t2 !! id) as [e2|]; [| done]. cbn in G2. rewrite G2.
      destruct le as [[i | id' |] e]; cbn in E; [done | |]; injection E as ->; cbn in Hok; destruct Hok as (-> & Hx & Hy); [done |].
      cbn. by rewrite Hy.
  - intros id [e He]. destruct (Hloc (TDirty id)) as [Hg | (le & Hle & E & Hok)].
    + pose proof (G1 _ Hg) as E. cbn [get] in E. by rewrite E, He.
    + specialize (G2 _ Hle). rewrite <- E in G2. cbn [get] in G2. destruct (mt_dirty t2 !! id); [by eexists | done].
  - intros k' i e He. destruct (Hloc (TNew k' i)) as [Hg | (le & Hle & E & Hok)].
    + pose proof (G1 _ Hg) as E. cbn [get] in E. by rewrite E, He.
    + specialize (G2 _ Hle). rewrite <- E in G2. cbn [get] in G2. rewrite G2. destruct le as [[i' | id' |] e']; cbn in E; [| done ..].
      injection E as -> ->. cbn in Hok. destruct Hok as (Hok & _). cbn. congruence.
  - intros k' i e Hnone He. destruct (Hloc (TNew k' i)) as [Hg | (le & Hle & E & Hok)].
    + pose proof (G1 _ Hg) as E. cbn [get] in E. congruence.
    + destruct le as [[i' | id' |] e']; cbn in E; [| done ..]. injection E as -> ->. cbn in Hok. destruct Hok as (Hok & _). congruence.
Qed.

Lemma change_wf k f recs l t t1 rs :
  Forall (sel_ok db k t) l -> NoDup (map (tgt_at k) l) -> change_loop k f recs l t = (t1, rs) ->
  (forall e, e_ID (f e) = e_ID e) -> table_wf t -> table_wf t1.
Proof.
  intros Hs Hn Hrun Hf [W1 W2]. destruct (change_loop_spec db k f recs l t t1 rs Hs Hn Hrun) as (_ & Hout & Hin & _).
  rewrite Forall_forall in Hs. split.
  - intros k' i e He. destruct (decide (TNew k' i ∈ map (tgt_at k) l)) as [Hg | Hg]; [| rewrite Hout in He by done; eauto].
    apply list_elem_of_fmap in Hg as ([loc x] & E & Hle). rewrite E, (Hin _ Hle) in He. injection He as <-. rewrite Hf.
    specialize (Hs _ Hle). destruct loc; cbn in E, Hs; [by destruct Hs as (_ & ? & _) | done ..].
  - intros id e He. destruct (decide (TDirty id ∈ map (tgt_at k) l)) as [Hg | Hg]; [| rewrite Hout in He by done; eauto].
    apply list_elem_of_fmap in Hg as ([loc x] & E & Hle). rewrite E, (Hin _ Hle) in He. injection He as <-. rewrite Hf.
    specialize (Hs _ Hle). destruct loc; cbn in E, Hs; [done | |]; injection E as ->; by destruct Hs as (_ & ? & ?).
Qed.

Lemma change_dirty k f recs l t t1 rs :
  Forall (sel_ok db k t) l -> NoDup (map (tgt_at k) l) -> change_loop k f recs l t = (t1, rs) ->
  Forall (fun x => Forall (fun r => tgt_of k r = tgt_at k x) (recs (snd x))) l ->
  Forall (fun r => rec_id r <> 0 -> is_Some (mt_dirty t1 !! rec_id r)) rs.
Proof.
  intros Hs Hn Hrun Ht. destruct (change_loop_spec db k f recs l t t1 rs Hs Hn Hrun) as (_ & _ & Hin & ->).
  apply Forall_forall. intros r Hr Hz. apply list_elem_of_In, in_concat in Hr as (rl & Hrl & Hr).
  apply in_map_iff in Hrl as (le & <- & Hle). apply list_elem_of_In in Hle. apply list_elem_of_In in Hr.
  rewrite Forall_forall in Ht. specialize (Ht _ Hle). rewrite Forall_forall in Ht. specialize (Ht _ Hr).
  unfold tgt_of in Ht. rewrite (proj2 (Z.eqb_neq _ _) Hz) in Ht. cbn in Ht. specialize (Hin _ Hle). rewrite <- Ht in Hin.
  cbn in Hin. by rewrite Hin.
Qed.

(** The records of an operation name the places of the entries. *)
Lemma records_at k l t (recs : Entry -> list Rec) : Forall (sel_ok db k t) l ->
  (forall e, Forall (fun r => rec_id r = e_ID e /\ rec_index r = e_tempIndex e) (recs e)) ->
  Forall (fun x => Forall (fun r => tgt_of k r = tgt_at k x) (recs (snd x))) l.
Proof.
  intros Hs Hr. eapply Forall_impl; [exact Hs |]. intros [loc e] Hok. eapply Forall_impl; [apply Hr |].
  intros r [E1 E2]. unfold tgt_of. rewrite E1, E2.
  destruct loc; cbn in Hok |- *; destruct Hok as (_ & Hx & Hy).
  - by rewrite Hx, Hy.
  - subst. by rewrite (proj2 (Z.eqb_neq _ _) Hy).
  - by rewrite (proj2 (Z.eqb_neq _ _) Hx).
Qed.

Lemma mark_restores t t' : restores t t' -> restores t (mark_dirty t').
Proof. by intros [A B D E F]; split. Qed.

(** One operation, undone. *)
Definition undoable (t t1 : MemTable) (log : list Change) : Prop :=
  table_wf t1 /\
  match log with
  | [] => restores t t1
  | [ch] => restores t (table_rollback ch t1) /\ change_ok ch t1
  | _ => False
  end.

Lemma select_undoable k c t t1 l : remote_ok db remote -> table_wf t -> selectNoLock remote k c t = (t1, l) -> undoable t t1 [].
Proof.
  intros Hr Hw E. destruct (select_ok db remote k c t t1 l Hr Hw E) as (Hs & _). split; [| by apply same_core_restores].
  apply (core_wf t); [apply Hs | done].
Qed.

Lemma loop_undoable k f recs kd l t ts t1 rs :
  table_wf t -> same_core t ts -> Forall (sel_ok db k ts) l -> NoDup (map (tgt_at k) l) -> change_loop k f recs l ts = (t1, rs) ->
  kd <> KInsert -> (forall e, e_ID (f e) = e_ID e) ->
  (forall e, Forall (fun r => rec_id r = e_ID e /\ rec_index r = e_tempIndex e) (recs e)) ->
  Forall (fun x => core (foldl (fun e r => undo_fun kd r e) (f (snd x)) (recs (snd x))) = core (snd x)) l ->
  undoable t (mark_dirty t1) [mkChange kd k rs].
Proof.
  intros Hw Hsc Hs Hn Hrun Hk Hf Hr Hc. pose proof (records_at k l ts recs Hs Hr) as Ht.
  assert (Hm : forall rs t, foldl (fun t r => undo_record k (undo_fun kd r) r t) (mark_dirty t) rs
    = mark_dirty (foldl (fun t r => undo_record k (undo_fun kd r) r t) t rs)).
  { clear. induction rs as [|r rs IH]; intros t; cbn; [done |]. rewrite <- IH. f_equal. unfold undo_record. cbn.
    destruct (negb _); [done |]. by destruct (mt_new t !! k). }
  assert (table_wf ts) by (apply (core_wf t); [apply Hsc | done]).
  split; [| split].
  - pose proof (change_wf k f recs l ts t1 rs Hs Hn Hrun Hf) as HW. destruct HW as [A B]; [done |]. split; done.
  - rewrite rollback_undo by done. cbn [ch_key ch_kind ch_value]. rewrite Hm. apply mark_restores.
    apply (restores_trans _ ts); [by apply same_core_restores |]. by apply (change_undo k f recs _ l ts t1 rs).
  - split; [done |]. cbn. by apply (change_dirty k f recs l ts t1 rs).
Qed.

Lemma insert_undoable k fs b o t : table_wf t -> let '(t1, ch, _) := table_insert k fs b o t in undoable t t1 (option_list ch).
Proof.
  intros Hw. unfold table_insert. destruct (denied o t); [by split; [| apply restores_refl] |].
  destruct (negb (checkField fs (mt_info t))); [by split; [| apply restores_refl] |]. cbn [option_list].
  set (e := setField (ti_key (mt_info t)) k (row fs b)).
  assert (He : e_ID e = 0). { unfold e, row. cbn. by destruct (foldl_setField_rest (in_order fs) newEntry) as (-> & _). }
  set (t1 := mark_dirty (set_new k (new_at k t ++ [e]) t)).
  assert (Hnew : forall k', new_at k' t1 = if bool_decide (k' = k) then new_at k t ++ [e] else new_at k' t) by (intros; apply new_at_set).
  destruct Hw as [W1 W2]. split; [split; [| done] | split; [| split; [by intros _; eexists | by constructor]]].
  - intros k' i x. cbn [get]. rewrite Hnew. case_bool_decide as E; [subst k' | by apply W1].
    intros [Hx | [_ Hx]]%lookup_app_Some; [by eapply (W1 k i) |]. apply list_lookup_singleton_Some in Hx as [_ <-]. done.
  - cbn. unfold new_at at 1. cbn. rewrite lookup_insert_eq.
    set (t2 := set_new k _ _). assert (Hn2 : forall k', new_at k' t2 = if bool_decide (k' = k) then new_at k t ++ [setDeleted true e] else new_at k' t).
    { intros k'. unfold t2. rewrite new_at_set, Hnew. case_bool_decide; [| done]. by rewrite alter_app_r_alt, Nat.sub_diag by done. }
    split; [done | done | done | |].
    + intros k' i x Hx. rewrite Hn2. case_bool_decide as E; [subst k' | by rewrite Hx]. by rewrite (lookup_app_l_Some _ _ _ _ Hx).
    + intros k' i x Hx. rewrite Hn2. case_bool_decide as E; [subst k' | congruence].
      intros [Hy | [_ Hy]]%lookup_app_Some; [congruence |]. by apply list_lookup_singleton_Some in Hy as [_ <-].
Qed.

Lemma step_undoable op t : remote_ok db remote -> table_wf t -> clean_op op t ->
  undoable t (fst (table_step op t)) (snd (table_step op t)).
Proof.
  intros Hr Hw Hc. destruct op as [k c | k fs b o | k fs c o | k c o]; cbn [table_step] in *.
  - unfold table_select. destruct (selectNoLock remote k c t) as [t1 l] eqn:E. by apply (select_undoable k c t t1 l).
  - pose proof (insert_undoable k fs b o t Hw) as H. by destruct (table_insert k fs b o t) as [[t1 ch] n].
  - unfold table_update. cbn in Hc. destruct (denied o t); [by split; [| apply restores_refl] |].
    destruct (negb (checkField fs (mt_info t))); [by split; [| apply restores_refl] |].
    destruct (selectNoLock remote k c t) as [ts l] eqn:E. destruct (select_ok db remote k c t ts l Hr Hw E) as (Hsc & Hs & Hn).
    unfold update_loop. destruct (change_loop _ _ _ l ts) as [t1 rs] eqn:El. cbn [fst snd option_list] in *.
    rewrite (proj1 Hsc) in El. set (ws := written_fields fs (mt_info t)) in *.
    apply (loop_undoable k (write_fields ws) (update_records ws) KUpdate l t ts t1 rs); try done.
    + intros e. by destruct (foldl_setField_rest ws e) as (? & _).
    + intros e. apply Forall_fmap, Forall_true. done.
    + eapply Forall_impl; [exact Hc |]. intros [loc e] He. apply undo_write_fields; [| done].
      eapply sublist_NoDup; [apply (in_order_keys fs) |]. apply sublist_map.
      unfold ws, written_fields. generalize (in_order fs). clear. induction l as [|x l IH]; cbn; [done |]. destruct (_ && _); by constructor.
  - unfold table_remove. cbn in Hc. destruct (denied o t); [by split; [| apply restores_refl] |].
    destruct (selectNoLock remote k c t) as [ts l] eqn:E. destruct (select_ok db remote k c t ts l Hr Hw E) as (Hsc & Hs & Hn).
    unfold remove_loop. destruct (change_loop _ _ _ l ts) as [t1 rs] eqn:El. cbn [fst snd option_list] in *.
    apply (loop_undoable k (setStatus 1) (fun e => [mkRec (e_tempIndex e) [] [] (e_ID e)]) KRemove l t ts t1 rs); try done.
    + intros e. by repeat constructor.
    + eapply Forall_impl; [exact Hc |]. intros [loc e] He. cbn in *. unfold core. cbn. by rewrite He.
Qed.

Definition rollback_all (log : list Change) (t : MemTable) : MemTable := foldl (fun t ch => table_rollback ch t) t (rev log).

Lemma run_restores ops t : remote_ok db remote -> table_wf t -> clean_run ops t ->
  restores t (rollback_all (snd (table_run ops t)) (fst (table_run ops t))).
Proof.
  intros Hr. revert t. induction ops as [|op ops IH]; intros t Hw Hc; [apply restores_refl |].
  destruct Hc as [Hop Hc]. pose proof (step_undoable op t Hr Hw Hop) as Hu. cbn [table_run].
  destruct (table_step op t) as [t1 log]. cbn [fst snd] in *. destruct Hu as [Hw1 Hu]. specialize (IH t1 Hw1 Hc).
  destruct (table_run ops t1) as [t2 log2]. cbn [fst snd] in *.
  destruct log as [|ch [|]]; [| | done]; [by apply (restores_trans _ t1) |].
  destruct Hu as [Hu Hok]. unfold rollback_all in *. cbn [app rev]. rewrite foldl_app. cbn.
  apply (restores_trans _ (table_rollback ch t1)); [done |]. by apply rollback_mono.
Qed.

(** A reader cannot tell the two tables apart. *)
Definition rows_of (k : chars) (c : Condition) (t : MemTable) := map (fun le => core (snd le)) (snd (selectNoLock remote k c t)).

Lemma process_core c e e' : core e = core e' -> process c e = process c e'.
Proof.
  intros [= E1 E2 E3 E4]. unfold process. rewrite E2, E3. destruct (_ || _); [done |]. f_equal.
  induction (in_order (c_conditions c)) as [|[k r] l IH]; [done |]. cbn. rewrite E4, IH. done.
Qed.

Lemma omap_core (l1 l2 : list Entry) js : (forall i, core <$> l1 !! i = core <$> l2 !! i) ->
  map (fun le => core (snd le)) (omap (fun i => (fun e => (LNew i, e)) <$> l1 !! i) js) = omap (fun i => core <$> l2 !! i) js.
Proof.
  intros Hl. induction js as [|j js IH]; [done |]. cbn. specialize (Hl j).
  destruct (l1 !! j), (l2 !! j); cbn [fmap option_fmap option_map map snd] in *; [| done .. | exact IH].
  apply (inj Some) in Hl. by rewrite IH, Hl.
Qed.

Lemma rows_news k c t : table_wf t -> cond_empty c = false ->
  map (fun le => core (snd le)) (snd (select_news k c t)) = map core (List.filter (process c) (new_at k t)).
Proof.
  intros Hw Hc. unfold select_news, processEntries. rewrite Hc. cbn [snd].
  set (ix := List.filter _ _). assert (Hcore : forall i, core <$> new_at k (index_news k ix t) !! i = core <$> new_at k t !! i).
  { intros i. apply (proj2 (proj2 (index_same k ix t)) (TNew k i)). }
  transitivity (omap (fun i => core <$> new_at k t !! i) ix).
  - by apply omap_core.
  - unfold ix. generalize (new_at k t). clear. intros l.
    assert (H : forall (l l0 : list Entry), omap (fun i => core <$> (l0 ++ l) !! i) (List.filter (fun i => match (l0 ++ l) !! i with Some e => process c e | None => false end) (seq (length l0) (length l)))
      = map core (List.filter (process c) l)); [| by apply (H l [])].
    clear l. induction l as [|e l IH]; intros l0; [done |]. cbn [length seq List.filter]. rewrite list_lookup_middle by done.
    specialize (IH (l0 ++ [e])). rewrite <- app_assoc, length_app in IH. cbn in IH. rewrite Nat.add_1_r in IH.
    destruct (process c e); cbn; rewrite ?list_lookup_middle by done; cbn; by rewrite IH.
Qed.

Lemma filter_restores c (l l' : list Entry) : (forall i e, l !! i = Some e -> core <$> l' !! i = Some (core e)) ->
  (forall i e, l !! i = None -> l' !! i = Some e -> e_deleted e = true) ->
  map core (List.filter (process c) l') = map core (List.filter (process c) l).
Proof.
  revert l'. induction l as [|e l IH]; intros l' H1 H2.
  - assert (H : Forall (fun e => e_deleted e = true) l').
    { apply Forall_lookup. intros i e He. by eapply H2. }
    clear -H. induction H as [|e l He H IH]; [done |]. cbn. unfold process at 1. rewrite He, orb_true_r. done.
  - destruct l' as [|e' l']; [specialize (H1 0%nat e eq_refl); done |].
    specialize (H1 0%nat e eq_refl) as E. cbn in E. injection E as E. cbn. rewrite (process_core c e' e) by (unfold core; congruence).
    specialize (IH l' (fun i => H1 (S i)) (fun i => H2 (S i))).
    destruct (process c e); [| done]. cbn. rewrite IH. unfold core. congruence.
Qed.

Lemma limit_map {A B} (f : A -> B) (c : Condition) (l : list A) : map f (proccessLimit c l) = proccessLimit c (map f l).
Proof.
  unfold proccessLimit. replace (lenZ (map f l)) with (lenZ l) by (unfold lenZ; by rewrite length_map). case_match; [done |]. by rewrite <- firstn_map, <- skipn_map.
Qed.

Lemma restores_rows t t' : remote_ok db remote -> table_wf t -> table_wf t' -> restores t t' ->
  forall k c, rows_of k c t' = rows_of k c t.
Proof.
  intros Hr Hw Hw' [R1 R2 R3 R4 R5] k c0. unfold rows_of, selectNoLock. rewrite R1. set (c := EQ (ti_key (mt_info t)) k c0).
  assert (Hc : cond_empty c = false).
  { apply bool_decide_eq_false_2. unfold c, EQ, set_range, with_conditions. cbn. apply insert_non_empty. }
  assert (Hfin : forall db db' : list (Loc * Entry), map (fun le => core (snd le)) db' = map (fun le => core (snd le)) db ->
    map (fun le => core (snd le)) (snd (let '(t, news) := select_news k c t' in (t, if (0 <=? getOffset c) && (0 <=? getCount c) then proccessLimit c (db' ++ news) else db' ++ news)))
    = map (fun le => core (snd le)) (snd (let '(t, news) := select_news k c t in (t, if (0 <=? getOffset c) && (0 <=? getCount c) then proccessLimit c (db ++ news) else db ++ news)))).
  { intros d d' Hd. pose proof (rows_news k c t Hw Hc) as E1. pose proof (rows_news k c t' Hw' Hc) as E2.
    rewrite (filter_restores c (new_at k t) (new_at k t') (R4 k) (R5 k)), <- E1 in E2.
    destruct (select_news k c t) as [s n], (select_news k c t') as [s' n']. cbn [snd] in *.
    destruct (_ && _); [rewrite !limit_map; f_equal |]; rewrite !map_app; congruence. }
  destruct remote as [r|]; [| by apply Hfin]. destruct (r (mt_info t) k c) as [[rows|]|] eqn:Er; [| done ..]. apply Hfin.
  unfold remote_rows. rewrite !map_map. apply map_ext_in. intros e He.
  destruct (Hr r _ _ _ rows eq_refl Er) as [_ Hdb]. rewrite Forall_forall in Hdb. destruct (Hdb e) as [_ Hdbe]; [by apply list_elem_of_In |].
  specialize (R2 (e_ID e)). unfold content in R2. rewrite Hdbe in R2.
  apply (inj Some). destruct (mt_dirty t !! e_ID e), (mt_dirty t' !! e_ID e); exact R2.
Qed.
End Rollback.
