(* ===== verification/TableProps.v ===== *)
(** * Savepoints and hashes of a table

    The end of [libstorage/MemoryTable2.cpp]: [dump] and [hash]; and what
    [rollback] and [hash] promise to a block.  A rollback gives back the rows
    of the savepoint, for the operations whose records hold what they
    overwrite; the hash does not depend on the order in which the entries are
    visited, when rows that are equal have the same status. *)

From stdpp Require Import sorting.
From S2P Require Import Prelude CommonData Text PBFTMsg Transaction StorageEntry MemoryTable.

(** ** The data of a commit *)
Definition entry_bytes (e : Entry) : list Z :=
  concat (map (fun kv => if isHashField (fst kv) then fst kv ++ snd kv else []) (in_order (e_fields e))) ++ [wrap 8 (e_status e)].
Definition allData (l : list Entry) : list Z := concat (map entry_bytes l).
Definition live (l : list Entry) : list Entry := List.filter (fun e => negb (e_deleted e)) l.
Definition live_dirty (t : MemTable) : list Entry := live (map snd (map_to_list (mt_dirty t))).
Definition live_new (t : MemTable) : list Entry := live (concat (map snd (map_to_list (mt_new t)))).

(** The parallel loops push the entries in some order, and [parallel_sort],
    which is not stable, leaves a sorted sequence. *)
Record scheduled (t : MemTable) (d n l : list Entry) : Prop := {
  sch_dirty : d ≡ₚ live_dirty t;
  sch_new : n ≡ₚ live_new t;
  sch_all : l ≡ₚ live_dirty t ++ live_new t;
  sch_sorted : StronglySorted (fun a b => EntryLess (ti_key (mt_info t)) b a = false) l
}.

Section Dump.
Context (sha256 : list Z -> list Z).
Definition table_dump (d n l : list Entry) (t : MemTable) : MemTable :=
  if mt_isDirty t
  then mkMemTable (mt_info t) (mt_new t) (mt_dirty t) false (sha256 (allData l)) (Some (d, n))
  else t.

(** [hash]. *)
Definition table_hash (d n l : list Entry) (t : MemTable) : MemTable * list Z :=
  let t := table_dump d n l t in (t, mt_hash t).
End Dump.

(** ** The order of entries *)
Lemma fields_less_total l r : length l = length r -> fields_less l r = false -> fields_less r l = false -> l = r.
Proof.
  revert r. induction l as [|[k v] l IH]; intros [|[k' v'] r]; cbn; try done. intros Hl.
  rewrite (bool_decide_ext (k' = k) (k = k')) by done. rewrite (bool_decide_ext (v' = v) (v = v')) by done.
  case_bool_decide as Ek; cbn; [subst | intros A B; exfalso; apply Ek; by apply str_ltb_total].
  case_bool_decide as Ev; cbn; [subst | intros A B; exfalso; apply Ev; by apply str_ltb_total].
  intros A B. f_equal. apply IH; [lia | done | done].
Qed.
Lemma fields_less_trans l r s : length l = length r -> length r = length s ->
  fields_less l r = true -> fields_less r s = true -> fields_less l s = true.
Proof.
  revert r s. induction l as [|[k v] l IH]; intros [|[k' v'] r] [|[k'' v''] s]; cbn; try done. intros H1 H2.
  assert (T : forall a b c : chars, (if negb (bool_decide (a = b)) then str_ltb a b else false) = true ->
    (if negb (bool_decide (b = c)) then str_ltb b c else false) = true -> a <> c).
  { intros a b c A B ->. repeat (case_bool_decide; [done |]). cbn in *. pose proof (str_ltb_trans _ _ _ A B) as D. by rewrite str_ltb_irrefl in D. }
  repeat case_bool_decide; subst; cbn in *; try done; try tauto;
    first [ by apply str_ltb_trans | by (eapply IH; [lia.. | |]) | idtac ].
  all: try (intros A B; pose proof (str_ltb_trans _ _ _ A B) as D; by rewrite str_ltb_irrefl in D).
  all: try (intros; by eapply str_ltb_trans).
  all: intros; eapply (IH r s); (lia || done).
Qed.

Lemma in_order_inj {A} (m m' : gmap chars A) : in_order m = in_order m' -> m = m'.
Proof.
  intros E. apply map_eq. intros k. apply option_eq. intros x. by rewrite <- !elem_of_in_order, E.
Qed.
Lemma in_order_size {A} (m : gmap chars A) : length (in_order m) = size m.
Proof. rewrite in_order_perm. apply length_map_to_list. Qed.

Definition ekey (e : Entry) : Z * gmap chars chars := (e_ID e, e_fields e).

(** Entries that tie have the same fields. *)
Lemma EntryLess_total key a b : EntryLess key a b = false -> EntryLess key b a = false -> ekey a = ekey b.
Proof.
  unfold EntryLess, ekey. rewrite (Z.eqb_sym (e_ID b)). destruct (Z.eqb_spec (e_ID a) (e_ID b)) as [-> | Hn]; cbn; [| rewrite !Z.ltb_ge; lia].
  rewrite (bool_decide_ext (getField key b = getField key a) (getField key a = getField key b)) by done.
  case_bool_decide as Ek; cbn; [| intros A B; exfalso; apply Ek; by apply str_ltb_total].
  rewrite (bool_decide_ext (size (e_fields b) = size (e_fields a)) (size (e_fields a) = size (e_fields b))) by done.
  case_bool_decide as Es; cbn; [| rewrite !bool_decide_eq_false; lia].
  intros A B. f_equal. apply in_order_inj, fields_less_total; [by rewrite !in_order_size | done | done].
Qed.

Lemma EntryLess_irrefl key a : EntryLess key a a = false.
Proof.
  unfold EntryLess. rewrite Z.eqb_refl, !bool_decide_true by done. cbn.
  induction (in_order (e_fields a)) as [|[k v] l IH]; cbn; [done |]. by rewrite !bool_decide_true.
Qed.
Lemma EntryLess_trans key a b c : EntryLess key a b = true -> EntryLess key b c = true -> EntryLess key a c = true.
Proof.
  unfold EntryLess.
  destruct (Z.eqb_spec (e_ID a) (e_ID b)) as [-> | H1], (Z.eqb_spec (e_ID b) (e_ID c)) as [<- | H2]; cbn;
    rewrite ?(proj2 (Z.eqb_neq _ _)) by done; cbn; [| done | done |].
  2: { rewrite !Z.ltb_lt. intros. destruct (Z.eqb_spec (e_ID a) (e_ID c)); cbn; [lia | apply Z.ltb_lt; lia]. }
  rewrite ?Z.eqb_refl. cbn. clear.
  generalize (getField key a) (getField key b) (getField key c). intros x y z.
  assert (T : str_ltb x y = true -> str_ltb y z = true -> x <> z).
  { intros A B ->. pose proof (str_ltb_trans _ _ _ A B) as D. by rewrite str_ltb_irrefl in D. }
  rewrite <- !in_order_size. destruct (decide (x = y)) as [<- | H1].
  - rewrite (bool_decide_true (x = x)) by done. destruct (bool_decide (x = z)); cbn; [| done].
    repeat case_bool_decide; cbn; try done; try lia. apply fields_less_trans; lia.
  - rewrite (bool_decide_false (x = y)) by done. cbn. destruct (decide (y = z)) as [<- | H2]; [by rewrite (bool_decide_false (x = y)) |].
    rewrite (bool_decide_false (y = z)) by done. cbn. intros A B. rewrite bool_decide_false by auto. cbn. by eapply str_ltb_trans.
Qed.

(** Every permutation of the entries sorts to the same sequence of rows. *)
Lemma sorted_rows key l l' : l ≡ₚ l' -> StronglySorted (fun a b => EntryLess key b a = false) l ->
  StronglySorted (fun a b => EntryLess key b a = false) l' -> map ekey l = map ekey l'.
Proof.
  intros Hp Hs Hs'. set (less := fun a b : Z * gmap chars chars =>
    EntryLess key (mkEntry (fst a) 0 0 0 false false false 0 (snd a)) (mkEntry (fst b) 0 0 0 false false false 0 (snd b))).
  assert (Hless : forall a b, EntryLess key a b = less (ekey a) (ekey b)) by done.
  set (R := fun a b => less b a = false).
  assert (Hmap : forall l, StronglySorted (fun a b => EntryLess key b a = false) l -> StronglySorted R (map ekey l)).
  { intros l0. induction 1 as [|x l0 Hl IH Hx]; cbn; [constructor |]. constructor; [done |]. apply Forall_fmap.
    eapply Forall_impl; [exact Hx |]. intros y Hy. cbn. unfold R. by rewrite <- Hless. }
  apply (StronglySorted_unique_strong R); [| by apply Hmap .. |].
  - intros [i m] [i' m'] _ _ A B. unfold R, less in A, B.
    by apply (EntryLess_total key _ _ B A).
  - by apply Permutation_map.
Qed.

Lemma map_ext_key {A B C} (f : A -> B) (g : A -> C) l l' : (forall a b, a ∈ l -> b ∈ l' -> f a = f b -> g a = g b) ->
  map f l = map f l' -> map g l = map g l'.
Proof.
  revert l'. induction l as [|a l IH]; intros [|b l'] H E; cbn in *; try done. injection E as E1 E2. f_equal.
  - apply H; [set_solver .. | done].
  - apply IH; [intros; apply H; [set_solver .. | done] | done].
Qed.

Lemma in_live e l : e ∈ live l -> e ∈ l.
Proof. unfold live. rewrite !list_elem_of_In, filter_In. tauto. Qed.
Lemma in_new e t : e ∈ concat (map snd (map_to_list (mt_new t))) -> exists k i, get t (TNew k i) = Some e.
Proof.
  rewrite list_elem_of_In, in_concat. intros (l & Hl & He). apply list_elem_of_In in He. apply in_map_iff in Hl as ([k l'] & <- & Hl).
  apply list_elem_of_In, elem_of_map_to_list in Hl. apply list_elem_of_lookup in He as [i Hi]. exists k, i. cbn. unfold new_at. by rewrite Hl.
Qed.

(** Rows that are equal have the same status. *)
Definition ties_agree (t : MemTable) : Prop :=
  forall a b, a ∈ live_new t -> b ∈ live_new t -> e_fields a = e_fields b -> e_status a = e_status b.

Lemma in_all e t : table_wf t -> e ∈ live_dirty t ++ live_new t ->
  (e_ID e <> 0 /\ mt_dirty t !! e_ID e = Some e) \/ (e_ID e = 0 /\ e ∈ live_new t).
Proof.
  intros [W1 W2] [He | He]%elem_of_app.
  - left. apply in_live in He. apply list_elem_of_fmap in He as ([id e'] & -> & He). apply elem_of_map_to_list in He.
    destruct (W2 id e' He) as [E1 E2]. cbn. by subst.
  - right. split; [| done]. apply in_live, in_new in He as (k & i & He). by apply (W1 k i).
Qed.

(** The hash of a table is a function of its rows. *)
Lemma all_data_agree t d n l d' n' l' : table_wf t -> ties_agree t ->
  scheduled t d n l -> scheduled t d' n' l' -> allData l = allData l'.
Proof.
  intros Hw Ht [_ _ P S] [_ _ P' S']. unfold allData. f_equal.
  apply (map_ext_key ekey); [| apply (sorted_rows (ti_key (mt_info t))); [by rewrite P, P' | done | done]].
  intros a b Ha Hb E. rewrite P in Ha. rewrite P' in Hb.
  assert (Hst : e_status a = e_status b).
  { apply in_all in Ha as [[A1 A2] | [A1 A2]]; [| | done]; apply in_all in Hb as [[B1 B2] | [B1 B2]]; try done;
      unfold ekey in E; injection E as E1 E2; try congruence. by apply Ht. }
  unfold ekey in E. injection E as E1 E2. unfold entry_bytes. by rewrite E2, Hst.
Qed.

(** The hash of a table does not depend on the order in which the threads
    of [dump] push its entries nor on how [parallel_sort] places entries that
    compare equal, when rows that are equal have the same status. *)
Theorem table_hash_deterministic sha256 t d n l d' n' l' :
  table_wf t -> ties_agree t -> scheduled t d n l -> scheduled t d' n' l' ->
  snd (table_hash sha256 d n l t) = snd (table_hash sha256 d' n' l' t).
Proof.
  intros Hw Ht S S'. unfold table_hash, table_dump. cbn. destruct (mt_isDirty t); [| done]. cbn. f_equal.
  by apply (all_data_agree t d n l d' n' l').
Qed.

(** ** Examples *)
Definition test_info : TableInfo := mkTableInfo (str "t") (str "key") [str "key"; str "value"] [].
Definition open_access : AccessOptions := mkOptions [] false.
Definition test_row (v : string) : gmap chars chars := {[ str "value" := str v ]}.
Definition inserted (vs : list string) (t : MemTable) : MemTable :=
  foldl (fun t v => fst (fst (table_insert (str "k") (test_row v) false open_access t))) t vs.

Lemma scheduled_new t n : mt_dirty t = ∅ -> n ≡ₚ live_new t ->
  StronglySorted (fun a b => EntryLess (ti_key (mt_info t)) b a = false) n -> scheduled t [] n n.
Proof. intros Hd Hn Hs. split; [by unfold live_dirty; rewrite Hd | done | by unfold live_dirty; rewrite Hd | done]. Qed.

Fixpoint sortedb (key : chars) (l : list Entry) : bool :=
  match l with [] => true | a :: r => forallb (fun b => negb (EntryLess key b a)) r && sortedb key r end.
Lemma sortedb_ok key l : sortedb key l = true -> StronglySorted (fun a b => EntryLess key b a = false) l.
Proof.
  induction l as [|a l IH]; cbn; [constructor |]. intros [H1 H2]%andb_true_iff. constructor; [by apply IH |].
  apply Forall_forall. intros b Hb. rewrite forallb_forall in H1. apply list_elem_of_In in Hb. specialize (H1 b Hb). by apply negb_true_iff in H1.
Qed.
Lemma newTable_wf i : table_wf (newTable i).
Proof. split; [intros k j e He | intros id e He]; done. Qed.
Lemma inserted_wf vs t : table_wf t -> table_wf (inserted vs t).
Proof.
  unfold inserted. revert t. induction vs as [|v vs IH]; intros t Hw; [done |]. cbn [foldl]. apply IH.
  pose proof (insert_undoable (fun _ => None) (str "k") (test_row v) false open_access t Hw) as H.
  destruct (table_insert _ _ _ _ _) as [[t1 ch] n]. apply H.
Qed.

Definition two_rows : MemTable := inserted ["b"; "a"] (newTable test_info).
Lemma table_hash_deterministic_witness :
  snd (table_hash (fun b => b) [] (reverse (live_new two_rows)) (reverse (live_new two_rows)) two_rows)
  = snd (table_hash (fun b => b) [] (live_new two_rows) (reverse (live_new two_rows)) two_rows).
Proof.
  apply (table_hash_deterministic (fun b => b) two_rows).
  - apply inserted_wf, newTable_wf.
  - assert (H : forallb (fun e => e_status e =? 0) (live_new two_rows) = true) by (vm_compute; reflexivity).
    intros a b Ha Hb _. rewrite forallb_forall in H. apply list_elem_of_In in Ha, Hb. apply H in Ha, Hb. bool_to_prop. congruence.
  - apply scheduled_new; [reflexivity | by rewrite reverse_Permutation | apply sortedb_ok; vm_compute; reflexivity].
  - split; [reflexivity | reflexivity | by rewrite reverse_Permutation | apply sortedb_ok; vm_compute; reflexivity].
Defined.

(** A row that is added, removed and added again leaves two entries that
    compare equal with different statuses: the bytes that are hashed then
    depend on how the sort places them. *)
Definition readded : MemTable :=
  inserted ["a"] (fst (fst (table_remove None (str "k") newCondition open_access (inserted ["a"] (newTable test_info))))).
Theorem readded_row_hash_depends_on_order :
  exists l l', scheduled readded [] l l /\ scheduled readded [] l' l' /\
    forall sha256, (forall a b, sha256 a = sha256 b -> a = b) ->
    snd (table_hash sha256 [] l l readded) <> snd (table_hash sha256 [] l' l' readded).
Proof.
  exists (live_new readded), (reverse (live_new readded)).
  split; [| split].
  - apply scheduled_new; [reflexivity | done | apply sortedb_ok; vm_compute; reflexivity].
  - apply scheduled_new; [reflexivity | by rewrite reverse_Permutation | apply sortedb_ok; vm_compute; reflexivity].
  - intros sha256 Hinj E. unfold table_hash, table_dump in E.
    assert (Hd : mt_isDirty readded = true) by (vm_compute; reflexivity). rewrite Hd in E. cbn [snd mt_hash] in E. apply Hinj in E.
    assert (Hne : bool_decide (allData (live_new readded) = allData (reverse (live_new readded))) = false) by (vm_compute; reflexivity).
    exact (bool_decide_eq_false_1 _ Hne E).
Qed.

(** ** Savepoints *)
Lemma undo_wf k f r t : (forall e, e_ID (f e) = e_ID e) -> table_wf t -> table_wf (undo_record k f r t).
Proof.
  intros Hf [W1 W2]. split.
  - intros k' i e. rewrite get_undo. case_bool_decide; [| by apply W1]. destruct (get t (TNew k' i)) eqn:E; [| done].
    intros [= <-]. rewrite Hf. by apply (W1 k' i).
  - intros id e. rewrite get_undo. case_bool_decide; [| by apply W2]. destruct (get t (TDirty id)) eqn:E; [| done].
    intros [= <-]. rewrite Hf. by apply W2.
Qed.
Lemma rollback_wf ch t : table_wf t -> table_wf (table_rollback ch t).
Proof.
  assert (Hfold : forall k (F : Rec -> Entry -> Entry) rs t, (forall r e, e_ID (F r e) = e_ID e) -> table_wf t ->
    table_wf (foldl (fun t r => undo_record k (F r) r t) t rs)).
  { intros k F rs. induction rs as [|r rs IH]; intros t0 HF Hw; [done |]. cbn. apply IH; [done | by apply undo_wf]. }
  intros Hw. unfold table_rollback. destruct (ch_kind ch); [| by apply Hfold ..].
  destruct (ch_value ch) as [|r rs]; [done |]. destruct (mt_new t !! ch_key ch) as [l|] eqn:El; [| done].
  pose proof (undo_wf (ch_key ch) (setDeleted true) (mkRec (rec_index r) [] [] 0) t (fun _ => eq_refl) Hw) as H.
  unfold undo_record in H. cbn in H. by rewrite El in H.
Qed.
Lemma rollback_all_wf log t : table_wf t -> table_wf (rollback_all log t).
Proof. unfold rollback_all. revert t. induction (rev log) as [|ch l IH]; intros t Hw; [done |]. cbn. by apply IH, rollback_wf. Qed.

Section Savepoint.
Context (db : Z -> option Entry) (remote : option (TableInfo -> chars -> Condition -> result (option (list Entry)))).
Context (Hremote : remote_ok db remote).

Lemma table_run_wf ops t : table_wf t -> clean_run remote ops t -> table_wf (fst (table_run remote ops t)).
Proof.
  revert t. induction ops as [|op ops IH]; intros t Hw Hc; [done |]. destruct Hc as [Hop Hc].
  pose proof (step_undoable db remote op t Hremote Hw Hop) as [Hw1 _]. cbn. destruct (table_step remote op t) as [t1 log]. cbn in *.
  specialize (IH t1 Hw1 Hc). by destruct (table_run remote ops t1).
Qed.

(** Rolling back the log of operations gives back the rows. *)
Lemma rollback_rows ops t k c : table_wf t -> clean_run remote ops t ->
  rows_of remote k c (rollback_all (snd (table_run remote ops t)) (fst (table_run remote ops t))) = rows_of remote k c t.
Proof.
  intros Hw Hc. apply (restores_rows db remote); [done | done | by apply rollback_all_wf, table_run_wf |]. by apply run_restores.
Qed.
End Savepoint.

(** ** What a removal leaves *)
Section Removal.
Context (r : TableInfo -> chars -> Condition -> result (option (list Entry))) (i : TableInfo) (k : chars) (e : Entry).
Context (Hstored : r i k (EQ (ti_key i) k newCondition) = Ok (Some [e])) (Hid : e_ID e <> 0).

Lemma select_stored t : mt_info t = i -> mt_new t = ∅ ->
  selectNoLock (Some r) k newCondition t = (t, match mt_dirty t !! e_ID e with Some d => [(LDirty (e_ID e), d)] | None => [(LRemote, e)] end).
Proof.
  intros Hi Hn. unfold selectNoLock. rewrite Hi, Hstored. unfold select_news, index_news, new_at. rewrite !Hn, !lookup_empty.
  cbn [default]. unfold processEntries. cbn [length seq List.filter cond_empty]. rewrite Tauto.if_same. cbn.
  destruct (mt_dirty t !! e_ID e); reflexivity.
Qed.

Lemma remove_stored t : mt_info t = i -> mt_new t = ∅ -> (forall d, mt_dirty t !! e_ID e = Some d -> e_ID d = e_ID e) ->
  exists t' n, table_remove (Some r) k newCondition open_access t = (t', Some (mkChange KRemove k [mkRec n [] [] (e_ID e)]), 1) /\
    mt_info t' = i /\ mt_new t' = ∅ /\ mt_dirty t' !! e_ID e = Some (setStatus 1 (default e (mt_dirty t !! e_ID e))).
Proof.
  intros Hi Hn Hd. unfold table_remove. cbn [denied open_access ao_check andb]. rewrite (select_stored t Hi Hn).
  destruct (mt_dirty t !! e_ID e) as [d|] eqn:E; cbn [remove_loop change_loop settle write_loc at_loc snd fst app].
  - rewrite E. cbn. rewrite (Hd d eq_refl). eexists _, _. split; [reflexivity |]. cbn. by rewrite lookup_alter_eq, E.
  - rewrite E, (bool_decide_false (is_Some None)) by (intros [? ?]; done). rewrite (proj2 (Z.eqb_neq _ _) Hid). cbn.
    rewrite lookup_insert_eq. cbn. eexists _, _. split; [reflexivity |]. cbn. by rewrite lookup_alter_eq, lookup_insert_eq.
Qed.

Lemma removed_visible : exists t1 ch,
  table_remove (Some r) k newCondition open_access (newTable i) = (t1, Some ch, 1) /\
  snd (table_select (Some r) k newCondition t1) = [setStatus 1 e] /\
  exists t2 ch', table_remove (Some r) k newCondition open_access t1 = (t2, Some ch', 1) /\
    snd (table_select (Some r) k newCondition (table_rollback ch' t2)) = [setStatus 0 e].
Proof.
  destruct (remove_stored (newTable i)) as (t1 & n & E1 & Hi1 & Hn1 & Hd1); [done .. |].
  exists t1, (mkChange KRemove k [mkRec n [] [] (e_ID e)]). split; [done |]. cbn in Hd1. split.
  { unfold table_select. rewrite (select_stored t1 Hi1 Hn1), Hd1. done. }
  destruct (remove_stored t1) as (t2 & m & E2 & Hi2 & Hn2 & Hd2); [done | done | by rewrite Hd1; intros d [= <-] |].
  exists t2, (mkChange KRemove k [mkRec m [] [] (e_ID e)]). split; [done |].
  rewrite Hd1 in Hd2. cbn in Hd2. unfold table_rollback, undo_record. cbn. rewrite (proj2 (Z.eqb_neq _ _) Hid). cbn.
  unfold table_select. rewrite select_stored by done. cbn. by rewrite lookup_alter_eq, Hd2.
Qed.
End Removal.

(** A stored row that was removed is still selected ([selectNoLock] takes
    the entry of [m_dirty] as it is), so it can be removed again; and when that
    second removal is rolled back, the row comes back. *)
Theorem removed_row_still_selected r i k e :
  r i k (EQ (ti_key i) k newCondition) = Ok (Some [e]) -> e_ID e <> 0 ->
  exists t1 ch,
    table_remove (Some r) k newCondition open_access (newTable i) = (t1, Some ch, 1) /\
    snd (table_select (Some r) k newCondition t1) = [setStatus 1 e] /\
    exists t2 ch', table_remove (Some r) k newCondition open_access t1 = (t2, Some ch', 1) /\
      snd (table_select (Some r) k newCondition (table_rollback ch' t2)) = [setStatus 0 e].
Proof. apply removed_visible. Qed.

Lemma removed_row_still_selected_witness :
  exists t1 ch,
    table_remove (Some (fun _ _ _ => Ok (Some [setID 7 newEntry]))) (str "k") newCondition open_access (newTable test_info) = (t1, Some ch, 1) /\
    snd (table_select (Some (fun _ _ _ => Ok (Some [setID 7 newEntry]))) (str "k") newCondition t1) = [setStatus 1 (setID 7 newEntry)] /\
    exists t2 ch', table_remove (Some (fun _ _ _ => Ok (Some [setID 7 newEntry]))) (str "k") newCondition open_access t1 = (t2, Some ch', 1) /\
      snd (table_select (Some (fun _ _ _ => Ok (Some [setID 7 newEntry]))) (str "k") newCondition (table_rollback ch' t2))
      = [setStatus 0 (setID 7 newEntry)].
Proof. apply (removed_row_still_selected (fun _ _ _ => Ok (Some [setID 7 newEntry])) test_info (str "k") (setID 7 newEntry)); [reflexivity | done]. Defined.
