(* ===== verification/TableFactory.v ===== *)
(** * The tables of a block and their change log

    [libstorage/MemoryTableFactory2.cpp]: [openTable], [createTable],
    [savepoint], [rollback], [commit], [hash] and [commitDB].  A table is an
    object that the map of names and the records of the log point to: a
    pointer is an index of [f_objs].  The log is the one of the thread that
    runs ([s_changeLog.local()]).  The storage is a parameter. *)

From S2P Require Import Prelude StateMonad CommonData Text PBFTMsg Transaction StorageEntry MemoryTable TableProps.

(** ** Names *)
Definition SYS_TABLES : chars := Eval vm_compute in str "_sys_tables_".
Definition SYS_CONSENSUS : chars := Eval vm_compute in str "_sys_consensus_".
Definition SYS_CURRENT_STATE : chars := Eval vm_compute in str "_sys_current_state_".
Definition SYS_KEY_CURRENT_NUMBER : chars := Eval vm_compute in str "current_number".
Definition SYS_KEY_CURRENT_ID : chars := Eval vm_compute in str "current_id".
Definition SYS_KEY_TOTAL_TRANSACTION_COUNT : chars := Eval vm_compute in str "total_transaction_count".
Definition SYS_VALUE : chars := Eval vm_compute in str "value".
Definition SYS_KEY : chars := Eval vm_compute in str "key".
Definition SYS_TX_HASH_2_BLOCK : chars := Eval vm_compute in str "_sys_tx_hash_2_block_".
Definition SYS_NUMBER_2_HASH : chars := Eval vm_compute in str "_sys_number_2_hash_".
Definition SYS_HASH_2_BLOCK : chars := Eval vm_compute in str "_sys_hash_2_block_".
Definition SYS_CNS : chars := Eval vm_compute in str "_sys_cns_".
Definition SYS_CONFIG : chars := Eval vm_compute in str "_sys_config_".
Definition SYS_ACCESS_TABLE : chars := Eval vm_compute in str "_sys_table_access_".
Definition SYS_BLOCK_2_NONCES : chars := Eval vm_compute in str "_sys_block_2_nonces_".
Definition key_field : chars := Eval vm_compute in str "key_field".
Definition value_field : chars := Eval vm_compute in str "value_field".
Definition table_name : chars := Eval vm_compute in str "table_name".
Definition enable_num : chars := Eval vm_compute in str "enable_num".
Definition address_field : chars := Eval vm_compute in str "address".

Definition m_sysTables : list chars :=
  [SYS_CONSENSUS; SYS_TABLES; SYS_ACCESS_TABLE; SYS_CURRENT_STATE; SYS_NUMBER_2_HASH; SYS_TX_HASH_2_BLOCK;
   SYS_HASH_2_BLOCK; SYS_CNS; SYS_CONFIG; SYS_BLOCK_2_NONCES].

Definition getSysTableInfo (name : chars) : TableInfo :=
  let info key fields := mkTableInfo name key fields [] in
  if bool_decide (name = SYS_CONSENSUS) then info (str "name") [str "type"; str "node_id"; enable_num]
  else if bool_decide (name = SYS_TABLES) then info table_name [key_field; value_field]
  else if bool_decide (name = SYS_ACCESS_TABLE) then info table_name [address_field; enable_num]
  else if bool_decide (name = SYS_CURRENT_STATE) then info SYS_KEY [SYS_VALUE]
  else if bool_decide (name = SYS_NUMBER_2_HASH) then info (str "number") [SYS_VALUE]
  else if bool_decide (name = SYS_TX_HASH_2_BLOCK) then info (str "hash") [SYS_VALUE; str "index"]
  else if bool_decide (name = SYS_HASH_2_BLOCK) then info (str "hash") [SYS_VALUE]
  else if bool_decide (name = SYS_CNS) then info (str "name") [str "version"; address_field; str "abi"]
  else if bool_decide (name = SYS_CONFIG) then info SYS_KEY [SYS_VALUE; enable_num]
  else if bool_decide (name = SYS_BLOCK_2_NONCES) then info (str "number") [SYS_VALUE]
  else mkTableInfo name [] [] [].

(** The fields every table has. *)
Definition with_sys_fields (i : TableInfo) : TableInfo :=
  mkTableInfo (ti_name i) (ti_key i) (ti_fields i ++ [STATUS; ti_key i; NUM_FIELD; ID_FIELD]) (ti_authorized i).
Definition with_authorized (l : list Address) (i : TableInfo) : TableInfo :=
  mkTableInfo (ti_name i) (ti_key i) (ti_fields i) (ti_authorized i ++ l).
Definition with_info (i : TableInfo) (t : MemTable) : MemTable :=
  mkMemTable i (mt_new t) (mt_dirty t) (mt_isDirty t) (mt_hash t) (mt_data t).

(** ** State *)
Record TableObj := mkTableObj { ob_table : MemTable; ob_hash : h256; ob_num : Z }.
Record Factory := mkFactory {
  f_blockHash : h256;
  f_blockNum : Z;
  f_names : gmap chars nat;
  f_objs : list TableObj;
  f_log : list (nat * Change);
  f_hash : h256
}.
Definition newFactory : Factory := mkFactory h256_0 0 ∅ [] [] h256_0.
Definition setBlockHash (h : h256) (f : Factory) : Factory := mkFactory h (f_blockNum f) (f_names f) (f_objs f) (f_log f) (f_hash f).
(** [m_blockNum] is an [int]. *)
Definition setBlockNum (n : Z) (f : Factory) : Factory :=
  mkFactory (f_blockHash f) (swrap 32 n) (f_names f) (f_objs f) (f_log f) (f_hash f).
Definition with_objs (l : list TableObj) (f : Factory) : Factory :=
  mkFactory (f_blockHash f) (f_blockNum f) (f_names f) l (f_log f) (f_hash f).
Definition with_log (l : list (nat * Change)) (f : Factory) : Factory :=
  mkFactory (f_blockHash f) (f_blockNum f) (f_names f) (f_objs f) l (f_hash f).
Definition with_table (t : MemTable) (o : TableObj) : TableObj := mkTableObj t (ob_hash o) (ob_num o).
(** A table enters the map of names. *)
Definition add_obj (name : chars) (o : TableObj) (f : Factory) : Factory :=
  mkFactory (f_blockHash f) (f_blockNum f) (<[name := length (f_objs f)]> (f_names f)) (f_objs f ++ [o]) (f_log f) (f_hash f).
Definition set_obj (p : nat) (t : MemTable) (f : Factory) : Factory := with_objs (alter (with_table t) p (f_objs f)) f.

Abbreviation FE := (SE Factory).

Section Factory.
(** [Storage::select]; [None] when the factory has no storage. *)
Context (storage : option (h256 -> Z -> TableInfo -> chars -> Condition -> result (option (list Entry)))).

Definition remote_of (o : TableObj) : option (TableInfo -> chars -> Condition -> result (option (list Entry))) :=
  (fun s => s (ob_hash o) (ob_num o)) <$> storage.

(** ** Operations on a table through its pointer *)
Definition at_table {A} (p : nat) (m : TableObj -> FE A) : FE A :=
  f ← se_get; match f_objs f !! p with Some o => m o | None => se_lift (Throw UndefinedBehaviour) end.

Definition t_select (p : nat) (k : chars) (c : Condition) : FE (list Entry) :=
  at_table p (fun o =>
    let '(t, l) := table_select (remote_of o) k c (ob_table o) in
    se_mod (set_obj p t);; mret l).

(** The recorder of [openTable] appends to the log. *)
Definition logged (p : nat) (t : MemTable) (ch : option Change) (f : Factory) : Factory :=
  with_log (f_log f ++ map (fun c => (p, c)) (option_list ch)) (set_obj p t f).

Definition t_insert (p : nat) (k : chars) (fs : gmap chars chars) (force : bool) (opt : AccessOptions) : FE Z :=
  at_table p (fun o => let '(t, ch, n) := table_insert k fs force opt (ob_table o) in se_mod (logged p t ch);; mret n).
Definition t_update (p : nat) (k : chars) (fs : gmap chars chars) (c : Condition) (opt : AccessOptions) : FE Z :=
  at_table p (fun o => let '(t, ch, n) := table_update (remote_of o) k fs c opt (ob_table o) in se_mod (logged p t ch);; mret n).
Definition t_remove (p : nat) (k : chars) (c : Condition) (opt : AccessOptions) : FE Z :=
  at_table p (fun o => let '(t, ch, n) := table_remove (remote_of o) k c opt (ob_table o) in se_mod (logged p t ch);; mret n).

(** The default of the last argument of these operations: checked, with no origin. *)
Definition noOptions : AccessOptions := mkOptions ZeroAddress true.

(** ** Opening a table *)

(** The loop over the rows of the access table. *)
Fixpoint enabled_addresses (num : Z) (l : list Entry) : result (list Address) :=
  match l with
  | [] => Ok []
  | e :: l' =>
      match stoi (getField enable_num e) with
      | None => Throw InvalidArgument
      | Some n =>
          if n <=? num then
            a ← fromHex (getField address_field e) ThrowOnBad;
            r ← enabled_addresses num l';
            Ok (fixedHash 20 a :: r)
          else enabled_addresses num l'
      end
  end.

Definition fresh_obj (i : TableInfo) (f : Factory) : TableObj := mkTableObj (newTable i) (f_blockHash f) (f_blockNum f).
Definition register (name : chars) (o : TableObj) : FE (option nat) :=
  f ← se_get; se_mod (add_obj name o);; mret (Some (length (f_objs f))).

Definition find_table (name : chars) (create : FE (option nat)) : FE (option nat) :=
  f ← se_get; match f_names f !! name with Some p => mret (Some p) | None => create end.

(** [openTable(SYS_ACCESS_TABLE)] reads its own rows. *)
Definition open_access (authority : bool) : FE (option nat) :=
  find_table SYS_ACCESS_TABLE (
    f ← se_get;
    let o := fresh_obj (with_sys_fields (getSysTableInfo SYS_ACCESS_TABLE)) f in
    if authority then
      let '(t, l) := table_select (remote_of o) SYS_ACCESS_TABLE newCondition (ob_table o) in
      addrs ← se_lift (enabled_addresses (f_blockNum f) l);
      register SYS_ACCESS_TABLE (with_table (with_info (with_authorized addrs (mt_info t)) t) o)
    else register SYS_ACCESS_TABLE o).

Definition setAuthorizedAddress (i : TableInfo) : FE TableInfo :=
  acc ← open_access true;
  match acc with
  | None => mret i
  | Some p =>
      l ← t_select p (ti_name i) newCondition;
      f ← se_get;
      addrs ← se_lift (enabled_addresses (f_blockNum f) l);
      mret (with_authorized addrs i)
  end.

(** The end of [openTable], for a table that is not the access table. *)
Definition open_with (name : chars) (authority : bool) (i0 : TableInfo) : FE (option nat) :=
  f ← se_get;
  let i := with_sys_fields i0 in
  let o := fresh_obj i f in
  i' ← (if authority then setAuthorizedAddress i else mret i);
  register name (with_table (with_info i' (ob_table o)) o).

Definition open_sys (name : chars) (authority : bool) : FE (option nat) :=
  if bool_decide (name = SYS_ACCESS_TABLE) then open_access authority
  else find_table name (open_with name authority (getSysTableInfo name)).

Definition openTable (name : chars) (authority : bool) : FE (option nat) :=
  if bool_decide (name ∈ m_sysTables) then open_sys name authority
  else
    find_table name (
      sys ← open_sys SYS_TABLES true;
      match sys with
      | None => se_lift (Throw UndefinedBehaviour)
      | Some p =>
          l ← t_select p name newCondition;
          match l with
          | [] => mret None
          | e :: _ =>
              open_with name authority
                (mkTableInfo name (getField key_field e) (split_comma (getField value_field e)) [])
          end
      end).

Definition createTable (name keyField valueField : chars) (authority : bool) (origin : Address) : FE (option nat) :=
  sys ← openTable SYS_TABLES authority;
  match sys with
  | None => se_lift (Throw UndefinedBehaviour)
  | Some p =>
      l ← t_select p name newCondition;
      match l with
      | _ :: _ => mret None
      | [] =>
          r ← t_insert p name (<[table_name := name]> (<[key_field := keyField]> (<[value_field := valueField]> ∅))) false
                (mkOptions origin authority);
          if r =? CODE_NO_AUTHORIZED then se_lift (Throw StorageException) else openTable name authority
      end
  end.

(** ** Savepoints *)
Definition f_savepoint (f : Factory) : nat := length (f_log f).
Definition f_commit (f : Factory) : Factory := with_log [] f.

Definition undo_change (c : nat * Change) (f : Factory) : Factory :=
  with_objs (alter (fun o => with_table (table_rollback (snd c) (ob_table o)) o) (fst c) (f_objs f)) f.
Definition undo_log (l : list (nat * Change)) (f : Factory) : Factory := foldl (fun f c => undo_change c f) f (rev l).
Definition f_rollback (sp : nat) (f : Factory) : Factory := with_log (take sp (f_log f)) (undo_log (drop sp (f_log f)) f).
End Factory.

(** ** Commit *)
Section Commit.
Context (sha256 : list Z -> list Z).

(** The order of the threads of [dump], table by table. *)
Definition Schedule : Type := chars -> list Entry * list Entry * list Entry.
Definition dump_at (sch : Schedule) (name : chars) (p : nat) (f : Factory) : Factory :=
  let '(d, n, l) := sch name in
  with_objs (alter (fun o => with_table (table_dump sha256 d n l (ob_table o)) o) p (f_objs f)) f.

(** [m_name2Table] in the order of the names. *)
Definition named_tables (f : Factory) : list (chars * nat) := in_order (f_names f).
Definition dump_all (sch : Schedule) (f : Factory) : Factory :=
  foldl (fun f np => dump_at sch (fst np) (snd np) f) f (named_tables f).

Definition obj_hash (f : Factory) (p : nat) : h256 := from_option (fun o => mt_hash (ob_table o)) h256_0 (f_objs f !! p).
Definition factory_hash (sch : Schedule) (f : Factory) : Factory * h256 :=
  let f := dump_all sch f in
  let data := concat (map (fun np => obj_hash f (snd np)) (named_tables f)) in
  if bool_decide (data = []) then (f, h256_0)
  else
    let h := sha256 data in
    (mkFactory (f_blockHash f) (f_blockNum f) (f_names f) (f_objs f) (f_log f) h, h).

(** [commitDB]: what is handed to the storage, and the factory after. *)
Definition commitDB (sch : Schedule) (f : Factory) : Factory * list (TableInfo * (list Entry * list Entry)) :=
  let f := dump_all sch f in
  let datas := omap (fun np =>
    o ← f_objs f !! snd np;
    dn ← mt_data (ob_table o);
    if bool_decide (fst dn = []) && bool_decide (snd dn = []) then None else Some (mt_info (ob_table o), dn)) (named_tables f) in
  (mkFactory (f_blockHash f) (f_blockNum f) ∅ (f_objs f) (f_log f) (f_hash f), datas).
End Commit.
