(* ===== verification/FactoryProps.v ===== *)
(** * What a rollback of the tables restores

    [grows] relates the factory before and after operations: the log has
    grown, and undoing what was added gives back every table that was open,
    and the stored rows of every table that was opened since.  Every operation
    of [TableFactory] keeps it; removals and updates under the conditions of
    [MemoryTable.clean_op]. *)

From S2P Require Import Prelude StateMonad CommonData Text PBFTMsg Transaction StorageEntry MemoryTable TableProps TableFactory.

Section Grows.
Context (db : Z -> option Entry).
Context (storage : option (h256 -> Z -> TableInfo -> chars -> Condition -> result (option (list Entry)))).
(** The storage gives every row its own identifier. *)
Context (Hstorage : forall h n, remote_ok db ((fun s => s h n) <$> storage)).

Definition undo_one (c : nat * Change) (l : list TableObj) : list TableObj :=
  alter (fun o => with_table (table_rollback (snd c) (ob_table o)) o) (fst c) l.
Definition undo_objs (d : list (nat * Change)) (l : list TableObj) : list TableObj := foldl (fun l c => undo_one c l) l (rev d).

Lemma undo_log_objs d f : f_objs (undo_log d f) = undo_objs d (f_objs f).
Proof. unfold undo_log, undo_objs. revert f. induction (rev d) as [|c l IH]; intros f; [done |]. cbn. by rewrite IH. Qed.
Lemma undo_objs_app d d' l : undo_objs (d ++ d') l = undo_objs d (undo_objs d' l).
Proof. unfold undo_objs. by rewrite rev_app_distr, foldl_app. Qed.

(** ** Invariant *)
Definition log_at (l : list TableObj) (c : nat * Change) : Prop := exists o, l !! fst c = Some o /\ change_ok (snd c) (ob_table o).
Definition objs_wf (l : list TableObj) : Prop := Forall (fun o => table_wf (ob_table o)) l.
Record factory_ok (f : Factory) : Prop := {
  fo_wf : objs_wf (f_objs f);
  fo_log : Forall (log_at (f_objs f)) (f_log f);
  fo_range : forall n p, f_names f !! n = Some p -> (p < length (f_objs f))%nat;
  fo_inj : forall n n' p, f_names f !! n = Some p -> f_names f !! n' = Some p -> n = n'
}.

(** ** Tables that show the same rows *)
Record obj_restores (o o' : TableObj) : Prop := {
  or_table : restores db (ob_table o) (ob_table o');
  or_hash : ob_hash o' = ob_hash o;
  or_num : ob_num o' = ob_num o
}.
Definition fresh_rows (o : TableObj) : Prop := restores db (newTable (mt_info (ob_table o))) (ob_table o).
Record objs_restore (l l' : list TableObj) : Prop := {
  os_old : forall p o, l !! p = Some o -> exists o', l' !! p = Some o' /\ obj_restores o o';
  os_new : forall p o, l !! p = None -> l' !! p = Some o -> fresh_rows o
}.

Lemma obj_restores_refl o : obj_restores o o.
Proof. split; [apply restores_refl | done | done]. Qed.
Lemma objs_restore_refl l : objs_restore l l.
Proof. split; [intros p o Ho; exists o; split; [done | apply obj_restores_refl] | congruence]. Qed.
Lemma objs_restore_trans l1 l2 l3 : objs_restore l1 l2 -> objs_restore l2 l3 -> objs_restore l1 l3.
Proof.
  intros [A1 A2] [B1 B2]. split.
  - intros p o Ho. destruct (A1 p o Ho) as (o2 & H2 & R2). destruct (B1 p o2 H2) as (o3 & H3 & R3). exists o3. split; [done |].
    destruct R2 as [T2 E2 F2], R3 as [T3 E3 F3]. split; [by eapply restores_trans | congruence | congruence].
  - intros p o Hn Ho. destruct (l2 !! p) as [o2|] eqn:E2; [| by eapply B2].
    destruct (B1 p o2 E2) as (o3 & H3 & [T3 _ _]). rewrite Ho in H3. injection H3 as <-.
    pose proof (A2 p o2 Hn E2) as Hf. unfold fresh_rows in *. rewrite (rs_info _ _ _ T3). by eapply restores_trans.
Qed.

(** ** Undoing *)
Lemma rollback_dirty ch t id : (ch_kind ch = KInsert -> exists r, ch_value ch = [r] /\ rec_id r = 0) ->
  is_Some (mt_dirty (table_rollback ch t) !! id) <-> is_Some (mt_dirty t !! id).
Proof.
  intros H. rewrite rollback_undo by done. clear H. generalize (ch_value ch). intros rs. revert t.
  induction rs as [|r rs IH]; intros t; [done |]. cbn. by rewrite IH, undo_dirty.
Qed.

Lemma change_ok_mono ch t t' : (forall id, is_Some (mt_dirty t !! id) -> is_Some (mt_dirty t' !! id)) -> change_ok ch t -> change_ok ch t'.
Proof. intros Hd [H1 H2]. split; [done |]. eapply Forall_impl; [exact H2 |]. auto. Qed.

Lemma log_at_undo c l c' : log_at l c -> log_at l c' -> log_at (undo_one c l) c'.
Proof.
  intros (o & Ho & Hc) (o' & Ho' & Hc'). unfold log_at, undo_one. destruct (decide (fst c = fst c')) as [E | E].
  - rewrite <- E, list_lookup_alter_eq, Ho. eexists. split; [done |]. cbn. rewrite <- E, Ho in Ho'. injection Ho' as <-.
    eapply change_ok_mono; [| exact Hc']. intros id. by rewrite rollback_dirty by apply Hc.
  - rewrite list_lookup_alter_ne by done. by exists o'.
Qed.

Lemma undo_one_mono c l l' : log_at l c -> objs_restore l l' -> objs_restore (undo_one c l) (undo_one c l').
Proof.
  intros (o & Ho & Hc) [R1 R2]. unfold undo_one. split.
  - intros p o1 H1. destruct (decide (fst c = p)) as [<- | E].
    + rewrite list_lookup_alter_eq, Ho in H1. injection H1 as <-. destruct (R1 _ _ Ho) as (o' & Ho' & [T E F]).
      rewrite list_lookup_alter_eq, Ho'. eexists. split; [done |]. split; [| done | done]. cbn. by apply rollback_mono.
    + rewrite list_lookup_alter_ne in H1 |- * by done. by apply R1.
  - intros p o1 Hn H1. assert (fst c <> p) as E.
    { intros <-. by rewrite list_lookup_alter_eq, Ho in Hn. }
    rewrite list_lookup_alter_ne in Hn, H1 by done. by eapply R2.
Qed.

Lemma forall_rev {A} (P : A -> Prop) (l : list A) : Forall P l -> Forall P (rev l).
Proof. rewrite !Forall_forall. intros Hl x Hx. apply Hl. apply list_elem_of_In. rewrite in_rev. by apply list_elem_of_In. Qed.
Lemma undo_objs_mono d l l' : Forall (log_at l) d -> objs_restore l l' -> objs_restore (undo_objs d l) (undo_objs d l').
Proof.
  intros Hr%forall_rev.
  unfold undo_objs. revert l l' Hr. induction (rev d) as [|c r IH]; intros l l' Hr HR; [done |].
  cbn. apply Forall_cons in Hr as [Hc Hr]. apply IH; [| by apply undo_one_mono].
  eapply Forall_impl; [exact Hr |]. intros c' Hc'. by apply log_at_undo.
Qed.

(** ** The relation *)
Definition grows (f f' : Factory) : Prop :=
  factory_ok f ->
  factory_ok f' /\ exists d, f_log f' = f_log f ++ d /\ objs_restore (f_objs f) (undo_objs d (f_objs f')).

#[global] Instance grows_preorder : PreOrder grows.
Proof.
  split.
  - intros f Hf. split; [done |]. exists []. rewrite app_nil_r. split; [done | apply objs_restore_refl].
  - intros f1 f2 f3 H12 H23 H1. destruct (H12 H1) as (H2 & d & Ed & Rd). destruct (H23 H2) as (H3 & d' & Ed' & Rd').
    split; [done |]. exists (d ++ d'). rewrite Ed', Ed, app_assoc. split; [done |]. rewrite undo_objs_app.
    eapply objs_restore_trans; [exact Rd |]. apply undo_objs_mono; [| done].
    destruct H2 as [_ H2 _ _]. rewrite Ed in H2. by apply Forall_app in H2 as [_ H2].
Qed.

(** ** One operation on a table *)
Lemma grows_logged p o t ch f : f_objs f !! p = Some o -> undoable db (ob_table o) t (option_list ch) -> grows f (logged p t ch f).
Proof.
  intros Ho [Hw Hu] [Hwf Hlog Hrg Hinj]. unfold logged, set_obj.
  assert (Hdirty : forall id, is_Some (mt_dirty (ob_table o) !! id) -> is_Some (mt_dirty t !! id)).
  { intros id Hid. destruct ch as [ch|]; cbn in Hu; [| by apply (rs_dirty _ _ _ Hu)].
    destruct Hu as [Hu Hok]. apply (rs_dirty _ _ _ Hu) in Hid. by rewrite rollback_dirty in Hid by apply Hok. }
  set (l' := alter (with_table t) p (f_objs f)).
  assert (Hp : l' !! p = Some (with_table t o)) by (unfold l'; by rewrite list_lookup_alter_eq, Ho).
  assert (Hq : forall q, q <> p -> l' !! q = f_objs f !! q) by (intros q Hq; unfold l'; by rewrite list_lookup_alter_ne).
  assert (Hold : Forall (log_at l') (f_log f)).
  { eapply Forall_impl; [exact Hlog |]. intros c (o' & Ho' & Hc). destruct (decide (fst c = p)) as [E | E].
    - rewrite E, Ho in Ho'. injection Ho' as <-. exists (with_table t o). rewrite E. split; [done |]. by eapply change_ok_mono.
    - exists o'. by rewrite Hq. }
  split; [split |].
  - cbn. apply Forall_lookup. intros q oq Hoq. destruct (decide (q = p)) as [-> | E].
    + rewrite Hp in Hoq. injection Hoq as <-. done.
    + rewrite Hq in Hoq by done. by apply (proj1 (Forall_lookup _ _) Hwf q).
  - cbn. apply Forall_app. split; [done |]. destruct ch as [ch|]; cbn; [| done]. constructor; [| done].
    exists (with_table t o). split; [done | apply Hu].
  - cbn. intros n q Hnq. unfold l'. rewrite length_alter. by apply (Hrg n).
  - done.
  - exists (map (fun c => (p, c)) (option_list ch)). split; [done |]. cbn [f_objs with_log with_objs].
    fold l'. split.
    + intros q oq Hoq. destruct (decide (q = p)) as [-> | E].
      * rewrite Ho in Hoq. injection Hoq as <-. destruct ch as [ch|]; cbn in *.
        -- unfold undo_objs. cbn. unfold undo_one. cbn. rewrite list_lookup_alter_eq, Hp. eexists. split; [done |]. split; [apply Hu | done | done].
        -- exists (with_table t o). split; [done |]. by split.
      * exists oq. split; [| apply obj_restores_refl]. destruct ch as [ch|]; cbn; unfold undo_objs; cbn; [unfold undo_one; cbn; rewrite list_lookup_alter_ne by done |]; by rewrite Hq.
    + intros q oq Hn Hoq. assert (q <> p) as E by congruence.
      destruct ch as [ch|]; cbn in Hoq; unfold undo_objs in Hoq; cbn in Hoq; [unfold undo_one in Hoq; cbn in Hoq; rewrite list_lookup_alter_ne in Hoq by done |];
        rewrite Hq in Hoq by done; congruence.
Qed.

Lemma grows_add name o f : table_wf (ob_table o) -> fresh_rows o -> grows f (add_obj name o f).
Proof.
  intros Hw Hf [Hwf Hlog Hrg Hinj]. split; [split; cbn |].
  - apply Forall_app. split; [done |]. by constructor.
  - eapply Forall_impl; [exact Hlog |]. intros c (o' & Ho' & Hc). exists o'. split; [by apply lookup_app_l_Some | done].
  - intros n p. rewrite length_app. cbn. rewrite lookup_insert_Some. intros [[_ <-] | [_ Hn]]; [lia |]. apply Hrg in Hn. lia.
  - intros n n' p. rewrite !lookup_insert_Some. intros [[<- <-] | [? Hn]] [[<- E] | [? Hn']]; try done; [apply Hrg in Hn'; lia | apply Hrg in Hn; lia |].
    by apply (Hinj n n' p).
  - exists []. cbn. rewrite app_nil_r. split; [done |]. unfold undo_objs. cbn. split.
    + intros p o' Ho'. exists o'. split; [by apply lookup_app_l_Some | apply obj_restores_refl].
    + intros p o' Hn [Ho' | [_ Ho']]%lookup_app_Some; [congruence |]. by apply list_lookup_singleton_Some in Ho' as [_ <-].
Qed.

(** The rows of a factory: what a selection on each open table returns. *)
Definition op_ok (p : nat) (op : TableOp) (f : Factory) : Prop :=
  match f_objs f !! p with Some o => clean_op (remote_of storage o) op (ob_table o) | None => True end.

Definition f_step (p : nat) (op : TableOp) : SE Factory unit :=
  match op with
  | TSelect k c => t_select storage p k c;; mret tt
  | TInsert k fs b o => t_insert p k fs b o;; mret tt
  | TUpdate k fs c o => t_update storage p k fs c o;; mret tt
  | TRemove k c o => t_remove storage p k c o;; mret tt
  end.

Lemma at_table_grows {A} p (m : TableObj -> SE Factory A) f :
  (forall o, f_objs f !! p = Some o -> factory_ok f -> grows f (fst (m o f))) -> grows f (fst (at_table p m f)).
Proof.
  intros Hm Hf. unfold at_table. rewrite se_bind_get. destruct (f_objs f !! p) as [o|] eqn:Ho; [by apply Hm |].
  by apply grows_preorder.
Qed.

Lemma t_insert_grows p k fs b opt : se_keeps grows (t_insert p k fs b opt).
Proof.
  intros f. apply at_table_grows. intros o Ho [Hwf _ _ _]. pose proof (proj1 (Forall_lookup _ _) Hwf p o Ho) as Hw.
  pose proof (insert_undoable db k fs b opt (ob_table o) Hw) as Hu. destruct (table_insert k fs b opt (ob_table o)) as [[t ch] n].
  rewrite se_bind_mod. by apply (grows_logged p o).
Qed.

Lemma remote_of_ok o : remote_ok db (remote_of storage o).
Proof. apply Hstorage. Qed.

Lemma t_select_grows p k c : se_keeps grows (t_select storage p k c).
Proof.
  intros f. apply at_table_grows. intros o Ho [Hwf _ _ _]. pose proof (proj1 (Forall_lookup _ _) Hwf p o Ho) as Hw.
  unfold table_select. destruct (selectNoLock (remote_of storage o) k c (ob_table o)) as [t l] eqn:E. rewrite se_bind_mod.
  pose proof (select_undoable db _ k c _ t l (remote_of_ok o) Hw E) as Hu. cbn [fst mret SE_ret].
  pose proof (grows_logged p o t None f Ho Hu) as H. unfold logged in H. cbn in H.
  assert (with_log (f_log f ++ []) (set_obj p t f) = set_obj p t f) as E2 by (rewrite app_nil_r; by destruct f).
  by rewrite E2 in H.
Qed.

Lemma f_step_grows p op f : op_ok p op f -> grows f (fst (f_step p op f)).
Proof.
  intros Hc Hf. destruct op as [k c | k fs b opt | k fs c opt | k c opt]; cbn [f_step].
  1: { revert Hf. change (grows f (fst ((t_select storage p k c;; mret tt) f))). revert f Hc. intros f _. apply se_keeps_bind; [apply _ | apply t_select_grows | intros; apply se_keeps_ret; apply _]. }
  1: { revert Hf. change (grows f (fst ((t_insert p k fs b opt;; mret tt) f))). revert f Hc. intros f _. apply se_keeps_bind; [apply _ | apply t_insert_grows | intros; apply se_keeps_ret; apply _]. }
  all: unfold op_ok in Hc; unfold t_update, t_remove, at_table; rewrite se_bind_assoc, se_bind_get;
    destruct (f_objs f !! p) as [o|] eqn:Ho; [| by apply grows_preorder];
    pose proof (proj1 (Forall_lookup _ _) (fo_wf _ Hf) p o Ho) as Hw;
    pose proof (step_undoable db (remote_of storage o) _ (ob_table o) (remote_of_ok o) Hw Hc) as Hu; cbn [table_step] in Hu.
  - destruct (table_update _ _ _ _ _ _) as [[t ch] n]. by apply (grows_logged p o).
  - destruct (table_remove _ _ _ _ _) as [[t ch] n]. by apply (grows_logged p o).
Qed.

(** ** Opening and creating tables *)
Lemma register_grows name o : table_wf (ob_table o) -> fresh_rows o -> se_keeps grows (register name o).
Proof. intros Hw Hf f. unfold register. rewrite se_bind_get, se_bind_mod. by apply grows_add. Qed.

Lemma register_new name i h n : se_keeps grows (register name (mkTableObj (newTable i) h n)).
Proof. apply register_grows; [apply newTable_wf | apply restores_refl]. Qed.

Lemma select_new_same remote k c i : fst (table_select remote k c (newTable i)) = newTable i.
Proof.
  unfold table_select, selectNoLock, select_news, index_news. destruct remote as [r|]; [| done].
  cbn. by destruct (r i k _) as [[l|]|].
Qed.

Lemma find_table_grows name m : se_keeps grows m -> se_keeps grows (find_table name m).
Proof. intros Hm f. unfold find_table. rewrite se_bind_get. destruct (f_names f !! name); [by apply grows_preorder | apply Hm]. Qed.

Lemma open_access_grows b : se_keeps grows (open_access storage b).
Proof.
  apply find_table_grows. intros f. rewrite se_bind_get. cbv zeta. destruct b; [| apply register_new].
  unfold fresh_obj. cbn [ob_table].
  set (o := mkTableObj _ _ _). set (i := with_sys_fields _) in *.
  pose proof (select_new_same (remote_of storage o) SYS_ACCESS_TABLE newCondition i) as Es.
  destruct (table_select (remote_of storage o) SYS_ACCESS_TABLE newCondition (newTable i)) as [t l]. cbn [fst] in Es. subst t.
  unfold se_lift, mbind, SE_bind at 1. destruct (enabled_addresses (f_blockNum f) l) as [addrs|e]; [| by apply grows_preorder].
  apply (register_new SYS_ACCESS_TABLE (with_authorized addrs i)).
Qed.

Lemma setAuthorized_grows i : se_keeps grows (setAuthorizedAddress storage i).
Proof.
  apply se_keeps_bind; [apply _ | apply open_access_grows |]. intros [p|]; [| apply se_keeps_ret; apply _].
  apply se_keeps_bind; [apply _ | apply t_select_grows |]. intros l. apply se_keeps_bind; [apply _ | apply se_keeps_get; apply _ |].
  intros f. apply se_keeps_bind; [apply _ | apply se_keeps_lift; apply _ | intros; apply se_keeps_ret; apply _].
Qed.

Lemma open_with_grows name b i : se_keeps grows (open_with storage name b i).
Proof.
  intros f. unfold open_with. rewrite se_bind_get. cbv zeta. unfold fresh_obj. cbn [ob_table].
  apply (se_keeps_bind grows); [destruct b; [apply setAuthorized_grows | apply se_keeps_ret; apply _] |].
  intros i'. apply (register_new name i').
Qed.

Lemma open_sys_grows name b : se_keeps grows (open_sys storage name b).
Proof. unfold open_sys. case_bool_decide; [apply open_access_grows | apply find_table_grows, open_with_grows]. Qed.

Lemma openTable_grows name b : se_keeps grows (openTable storage name b).
Proof.
  unfold openTable. case_bool_decide; [apply open_sys_grows |]. apply find_table_grows.
  apply se_keeps_bind; [apply _ | apply open_sys_grows |]. intros [p|]; [| apply se_keeps_lift; apply _].
  apply se_keeps_bind; [apply _ | apply t_select_grows |]. intros [|e l]; [apply se_keeps_ret; apply _ | apply open_with_grows].
Qed.

Lemma createTable_grows name kf vf b origin : se_keeps grows (createTable storage name kf vf b origin).
Proof.
  apply se_keeps_bind; [apply _ | apply openTable_grows |]. intros [p|]; [| apply se_keeps_lift; apply _].
  apply se_keeps_bind; [apply _ | apply t_select_grows |]. intros [|e l]; [| apply se_keeps_ret; apply _].
  apply se_keeps_bind; [apply _ | apply t_insert_grows |]. intros n. destruct (n =? _); [apply se_keeps_lift; apply _ | apply openTable_grows].
Qed.

(** ** Rollback to a savepoint *)
Lemma undo_objs_wf d l : objs_wf l -> objs_wf (undo_objs d l).
Proof.
  unfold undo_objs. revert l. induction (rev d) as [|c r IH]; intros l Hl; [done |]. cbn. apply IH. apply Forall_lookup. intros p o.
  unfold undo_one. destruct (decide (fst c = p)) as [<- | E].
  - rewrite list_lookup_alter_eq. destruct (l !! fst c) as [o'|] eqn:Eo; [| done]. intros [= <-]. cbn.
    apply rollback_wf. by apply (proj1 (Forall_lookup _ _) Hl (fst c)).
  - rewrite list_lookup_alter_ne by done. apply (proj1 (Forall_lookup _ _) Hl p).
Qed.

Lemma undo_objs_length d l : length (undo_objs d l) = length l.
Proof. unfold undo_objs. revert l. induction (rev d) as [|c r IH]; intros l; [done |]. cbn. rewrite IH. apply length_alter. Qed.
Lemma undo_objs_log d l : Forall (log_at l) d -> forall c, log_at l c -> log_at (undo_objs d l) c.
Proof.
  intros Hr%forall_rev. unfold undo_objs. revert l Hr. induction (rev d) as [|c r IH]; intros l Hr c' Hc'; [done |]. cbn.
  apply Forall_cons in Hr as [Hc Hr]. apply IH; [| by apply log_at_undo]. eapply Forall_impl; [exact Hr |]. intros x Hx. by apply log_at_undo.
Qed.
Lemma undo_log_names d f : f_names (undo_log d f) = f_names f.
Proof. unfold undo_log. revert f. induction (rev d) as [|c r IH]; intros f; [done |]. cbn. by rewrite IH. Qed.
Lemma rollback_ok sp f : factory_ok f -> factory_ok (f_rollback sp f).
Proof.
  intros [Hw Hl Hr Hi]. rewrite <- (take_drop sp (f_log f)) in Hl. apply Forall_app in Hl as [Hl1 Hl2]. unfold f_rollback. split; cbn.
  - rewrite undo_log_objs. by apply undo_objs_wf.
  - rewrite undo_log_objs. eapply Forall_impl; [exact Hl1 |]. intros c Hc. by apply undo_objs_log.
  - intros n p. rewrite undo_log_objs, undo_objs_length, undo_log_names. apply Hr.
  - intros n n' p. rewrite undo_log_names. apply Hi.
Qed.

(** What a client sees of an open table. *)
Definition shown (o : TableObj) (k : chars) (c : Condition) := rows_of (remote_of storage o) k c (ob_table o).

(** Two objects of one table, of the same block, with the same rows. *)
Record same_view (o o' : TableObj) : Prop := {
  sv_info : mt_info (ob_table o') = mt_info (ob_table o);
  sv_hash : ob_hash o' = ob_hash o;
  sv_num : ob_num o' = ob_num o;
  sv_rows : forall k c, shown o' k c = shown o k c
}.
(** The table object as it is when it is opened: nothing written. *)
Definition reopened (o : TableObj) : TableObj := with_table (newTable (mt_info (ob_table o))) o.
(** What every reader sees: the tables that were open have the rows they had, and
    those opened since the rows that the storage holds. *)
Record shows (f f' : Factory) : Prop := {
  sh_old : forall p o, f_objs f !! p = Some o -> exists o', f_objs f' !! p = Some o' /\ same_view o o';
  sh_new : forall p o, f_objs f !! p = None -> f_objs f' !! p = Some o -> same_view (reopened o) o
}.

Lemma same_view_trans o1 o2 o3 : same_view o1 o2 -> same_view o2 o3 -> same_view o1 o3.
Proof. intros [A1 A2 A3 A4] [B1 B2 B3 B4]. split; [congruence | congruence | congruence |]. intros k c. by rewrite B4. Qed.
Lemma same_view_reopened o o' : same_view o o' -> reopened o' = reopened o.
Proof. intros [A1 A2 A3 _]. unfold reopened. rewrite A1. destruct o, o'; cbn in *. by subst. Qed.
#[export] Instance shows_preorder : PreOrder shows.
Proof.
  split.
  - intros f. split; [intros p o Ho; by exists o | congruence].
  - intros f1 f2 f3 [A1 A2] [B1 B2]. split.
    + intros p o Ho. destruct (A1 p o Ho) as (o2 & H2 & E2). destruct (B1 p o2 H2) as (o3 & H3 & E3).
      exists o3. split; [done |]. by eapply same_view_trans.
    + intros p o Hn Ho. destruct (f_objs f2 !! p) as [o2|] eqn:E2; [| by apply (B2 p)].
      destruct (B1 p o2 E2) as (o3 & H3 & E3). rewrite Ho in H3. injection H3 as <-.
      rewrite (same_view_reopened _ _ E3). eapply same_view_trans; [by apply (A2 p) | done].
Qed.

Lemma restored_view o o' : table_wf (ob_table o) -> table_wf (ob_table o') -> obj_restores o o' -> same_view o o'.
Proof.
  intros Hw Hw' [T E F]. split; [by apply (rs_info _ _ _ T) | done | done |]. intros k c. unfold shown, remote_of. rewrite E, F.
  by apply (restores_rows db); [apply Hstorage | | |].
Qed.
Lemma rollback_shows f f' : factory_ok f -> grows f f' ->
  let f'' := f_rollback (f_savepoint f) f' in f_log f'' = f_log f /\ shows f f''.
Proof.
  intros Hf Hg. destruct (Hg Hf) as (Hf' & d & Ed & [R1 R2]). unfold f_rollback, f_savepoint. rewrite Ed. cbn [f_log with_log].
  split; [by rewrite take_app_length |].
  assert (Eo : forall g, f_objs (undo_log (drop (length (f_log f)) (f_log f ++ d)) g) = undo_objs d (f_objs g)) by
    (intros g; by rewrite drop_app_length, undo_log_objs).
  pose proof (proj1 (Forall_lookup _ _) (undo_objs_wf d _ (fo_wf _ Hf'))) as Hw. cbn beta in Hw. split; cbn [f_objs with_log]; rewrite Eo.
  - intros p o Ho. destruct (R1 p o Ho) as (o' & Ho' & Hr). exists o'. split; [done |].
    apply restored_view; [by apply (proj1 (Forall_lookup _ _) (fo_wf _ Hf) p) | by apply (Hw p) | done].
  - intros p o Hn Ho. apply restored_view; [apply newTable_wf | by apply (Hw p) |]. split; [by apply (R2 p) | done | done].
Qed.

(** The operations of a client between a savepoint and a rollback. *)
Inductive FactoryOp :=
| FOpen (name : chars) (authority : bool)
| FCreate (name keyField valueField : chars) (authority : bool) (origin : Address)
| FTable (p : nat) (op : TableOp).
Definition factory_step (op : FactoryOp) (f : Factory) : Factory :=
  match op with
  | FOpen name b => fst (openTable storage name b f)
  | FCreate name kf vf b origin => fst (createTable storage name kf vf b origin f)
  | FTable p op => fst (f_step p op f)
  end.
Fixpoint factory_clean (ops : list FactoryOp) (f : Factory) : Prop :=
  match ops with
  | [] => True
  | op :: ops => match op with FTable p op => op_ok p op f | _ => True end /\ factory_clean ops (factory_step op f)
  end.
Definition factory_run (ops : list FactoryOp) (f : Factory) : Factory := foldl (fun f op => factory_step op f) f ops.

Lemma factory_run_grows ops f : factory_clean ops f -> grows f (factory_run ops f).
Proof.
  revert f. induction ops as [|op ops IH]; intros f Hc; [apply grows_preorder |]. destruct Hc as [Hop Hc].
  cbn. etransitivity; [| by apply IH]. destruct op as [name b | name kf vf b origin | p op]; cbn.
  - apply openTable_grows.
  - apply createTable_grows.
  - by apply f_step_grows.
Qed.
End Grows.

(** C33: rolling the tables back to a savepoint undoes what was done since: after any
    sequence of opened and created tables, selections, insertions, updates of
    fields that the updated rows have and removals of rows that are not removed
    already ([factory_clean]; outside it a rollback can bring a row back, see
    [removed_row_still_selected]), the log is the one of the savepoint, every table
    that was open shows every reader the rows it showed then, and every table that
    was opened since shows only what the storage holds.  The storage gives every
    row its own identifier. *)
Theorem rollback_restores_tables db storage ops f :
  (forall h n, remote_ok db ((fun s => s h n) <$> storage)) -> factory_ok f -> factory_clean storage ops f ->
  let f' := f_rollback (f_savepoint f) (factory_run storage ops f) in
  f_log f' = f_log f /\ shows storage f f'.
Proof. intros Hs Hf Hc. apply (rollback_shows db storage Hs f); [done |]. by apply factory_run_grows. Qed.

#[export] Instance clean_op_dec remote op t : Decision (clean_op remote op t).
Proof. destruct op; cbn; apply _. Defined.
#[export] Instance op_ok_dec storage p op f : Decision (op_ok storage p op f).
Proof. unfold op_ok. destruct (f_objs f !! p); apply _. Defined.
#[export] Instance factory_clean_dec storage ops f : Decision (factory_clean storage ops f).
Proof. revert f. induction ops as [|op ops IH]; intros f; cbn; [apply _ |]. apply and_dec; [destruct op; apply _ | apply IH]. Defined.

(** A stored system configuration, updated, extended and emptied. *)
Definition config_row : Entry :=
  setID 7 (row (<[SYS_KEY := str "tx"]> (<[SYS_VALUE := str "1"]> (<[enable_num := str "0"]> ∅))) false).
Definition config_storage : option (h256 -> Z -> TableInfo -> chars -> Condition -> result (option (list Entry))) :=
  Some (fun _ _ i k _ => Ok (Some (if bool_decide (ti_name i = SYS_CONFIG) && bool_decide (k = str "tx") then [config_row] else []))).
Definition config_db (id : Z) : option Entry := if id =? 7 then Some config_row else None.
Definition config_factory : Factory := factory_run config_storage [FOpen SYS_CONFIG true] newFactory.
Definition config_ops : list FactoryOp :=
  [FTable 1 (TUpdate (str "tx") (<[SYS_VALUE := str "2"]> ∅) newCondition noOptions);
   FTable 1 (TInsert (str "tx") (<[SYS_VALUE := str "3"]> (<[enable_num := str "1"]> ∅)) false noOptions);
   FCreate (str "t_table") (str "key") (str "value") false ZeroAddress;
   FTable 1 (TRemove (str "tx") newCondition noOptions)].

Lemma newFactory_ok : factory_ok newFactory.
Proof. split; [constructor | constructor | done | done]. Qed.
Lemma config_remote h n : remote_ok config_db ((fun s => s h n) <$> config_storage).
Proof.
  intros r i k c l [= <-] [= <-]. destruct (_ && _); [| split; constructor].
  split; [apply NoDup_singleton | constructor; [split; [done | reflexivity] | constructor]].
Qed.

Lemma rollback_restores_tables_witness :
  let f' := f_rollback (f_savepoint config_factory) (factory_run config_storage config_ops config_factory) in
  f_log f' = f_log config_factory /\ shows config_storage config_factory f'.
Proof.
  apply (rollback_restores_tables config_db).
  - apply config_remote.
  - apply (factory_run_grows config_db config_storage config_remote [FOpen SYS_CONFIG true] newFactory); [done | apply newFactory_ok].
  - apply (bool_decide_eq_true_1 (factory_clean _ _ _)). vm_compute. reflexivity.
Defined.
