(* ===== verification/TableRows.v ===== *)
(** * Tables as maps from keys to rows

    Seen through selections by key alone, a table of [MemoryTable] is a map
    from keys to lists of rows: an insertion appends to one list, an update
    rewrites the rows of one list.  The clients of the tables use it so. *)

From S2P Require Import Prelude CommonData Text PBFTMsg Transaction StorageEntry MemoryTable TableProps.

Definition Row : Type := Z * Z * bool * gmap chars chars.
Definition row_fields (x : Row) : gmap chars chars := snd x.
Definition row_field (k : chars) (x : Row) : chars := default [] (row_fields x !! k).
Definition row_write (ws : list (chars * chars)) (x : Row) : Row :=
  let '(id, st, del, fs) := x in (id, st, del, foldl (fun m kv => <[fst kv := snd kv]> m) fs ws).

(** What the storage promises: it answers, with stored rows of the key. *)
Class StorageOk (db : Z -> option Entry) (r : TableInfo -> chars -> Condition -> result (option (list Entry))) : Prop := {
  so_total : forall i k c, exists l, r i k c = Ok (Some l);
  so_rows : remote_ok db (Some r);
  so_key : forall i k c l, r i k c = Ok (Some l) -> Forall (fun e => getField (ti_key i) e = k) l
}.

Section Rows.
Context {db : Z -> option Entry} (r : TableInfo -> chars -> Condition -> result (option (list Entry))).
Context `{!StorageOk db r}.

Definition key_cond (i : TableInfo) (k : chars) : Condition := EQ (ti_key i) k newCondition.
Definition stored (i : TableInfo) (k : chars) : list Entry :=
  match r i k (key_cond i k) with Ok (Some l) => l | _ => [] end.
Definition seen (t : MemTable) (e : Entry) : Row := core (default e (mt_dirty t !! e_ID e)).
Definition rows (k : chars) (t : MemTable) : list Row :=
  map (seen t) (stored (mt_info t) k) ++ map core (List.filter (process (key_cond (mt_info t) k)) (new_at k t)).

Lemma key_cond_nonempty i k : cond_empty (key_cond i k) = false.
Proof. apply bool_decide_eq_false_2, insert_non_empty. Qed.

Lemma select_shape k t : selectNoLock (Some r) k newCondition t =
  (fst (select_news k (key_cond (mt_info t) k) t), remote_rows t (stored (mt_info t) k) ++ snd (select_news k (key_cond (mt_info t) k) t)).
Proof.
  unfold selectNoLock, stored. fold (key_cond (mt_info t) k). destruct (so_total (mt_info t) k (key_cond (mt_info t) k)) as [l ->].
  destruct (select_news k (key_cond (mt_info t) k) t) as [t' n]. done.
Qed.

(** The rows are what a selection by key returns. *)
Lemma rows_select k t : table_wf t -> rows_of (Some r) k newCondition t = rows k t.
Proof.
  intros Hw. unfold rows_of, rows. rewrite select_shape. cbn [snd]. rewrite map_app, rows_news by (done || apply key_cond_nonempty).
  f_equal. unfold remote_rows. rewrite map_map. apply map_ext. intros e. unfold seen. by destruct (mt_dirty t !! e_ID e).
Qed.
Lemma select_entries k t : table_wf t -> map core (snd (table_select (Some r) k newCondition t)) = rows k t.
Proof.
  intros Hw. rewrite <- rows_select by done. unfold table_select, rows_of. destruct (selectNoLock _ _ _ _) as [t1 l]. cbn. by rewrite map_map.
Qed.

Lemma process_key i k e : isHashField (ti_key i) = true ->
  process (key_cond i k) e = negb ((e_status e =? 1) || e_deleted e) && bool_decide (e_fields e !! ti_key i = Some k).
Proof.
  intros Hh. unfold process. destruct (_ || _); [done |].
  assert (in_order (c_conditions (key_cond i k)) = [(ti_key i, mkRange (true, k) (true, k))]) as ->.
  { unfold key_cond, EQ, set_range, with_conditions, newCondition. cbn [c_conditions]. unfold in_order.
    assert (map_to_list (<[ti_key i := mkRange (true, k) (true, k)]> (∅ : gmap chars Range)) = [(ti_key i, mkRange (true, k) (true, k))]) as ->
      by (rewrite insert_empty; apply map_to_list_singleton). done. }
  cbn. rewrite Hh. cbn. destruct (e_fields e !! ti_key i) as [v|]; cbn; [| done]. unfold range_ok. cbn. rewrite bool_decide_true by done. cbn.
  repeat case_bool_decide; try done; congruence.
Qed.

Lemma rows_same_core k t t' : same_core t t' -> rows k t' = rows k t.
Proof.
  intros (H1 & H2 & H3). unfold rows, seen. rewrite H1, H2. f_equal.
  apply filter_restores.
  - intros i e He. specialize (H3 (TNew k i)). cbn in H3. by rewrite H3, He.
  - intros i e Hn He. specialize (H3 (TNew k i)). cbn in H3. by rewrite Hn, He in H3.
Qed.

(** ** Insertion *)
Lemma fields_of_row fs b : e_fields (row fs b) = fs.
Proof.
  unfold row. cbn. rewrite foldl_setField_fields. apply map_eq. intros k. destruct (fs !! k) as [v|] eqn:E.
  - apply foldl_insert_in; [apply in_order_keys | by apply elem_of_in_order].
  - rewrite foldl_insert_lookup; [apply lookup_empty |]. intros Hin. apply list_elem_of_fmap in Hin as ([k' v'] & -> & Hin).
    apply elem_of_in_order in Hin. cbn in E. congruence.
Qed.
Lemma row_rest fs b : e_ID (row fs b) = 0 /\ e_status (row fs b) = 0 /\ e_deleted (row fs b) = false.
Proof. unfold row. cbn. by destruct (foldl_setField_rest (in_order fs) newEntry) as (-> & -> & -> & _). Qed.

Definition new_row (key k : chars) (fs : gmap chars chars) : Row := (0, 0, false, <[key := k]> fs).

Lemma insert_rows k fs b o t : isHashField (ti_key (mt_info t)) = true -> denied o t = false -> checkField fs (mt_info t) = true ->
  exists t1 ch, table_insert k fs b o t = (t1, Some ch, 1) /\ mt_info t1 = mt_info t /\
    forall k', rows k' t1 = if bool_decide (k' = k) then rows k t ++ [new_row (ti_key (mt_info t)) k fs] else rows k' t.
Proof.
  intros Hh Hd Hc. unfold table_insert. rewrite Hd, Hc. cbn [negb]. eexists _, _. split; [reflexivity |]. split; [done |].
  set (e := setField (ti_key (mt_info t)) k (row fs b)). destruct (row_rest fs b) as (E1 & E2 & E3).
  assert (He : core e = new_row (ti_key (mt_info t)) k fs).
  { unfold core, new_row, e. cbn [setField e_ID e_status e_deleted e_fields]. by rewrite fields_of_row, E1, E2, E3. }
  intros k'. unfold rows. cbn [mark_dirty mt_info set_new mt_new mt_dirty].
  assert (Hn : new_at k' (mark_dirty (set_new k (new_at k t ++ [e]) t)) = if bool_decide (k' = k) then new_at k t ++ [e] else new_at k' t) by apply new_at_set.
  rewrite Hn. case_bool_decide as E; [subst k' | done]. rewrite List.filter_app, map_app, app_assoc. f_equal. cbn [List.filter].
  rewrite process_key by done. unfold e at 1 2 3. cbn [setField e_ID e_status e_deleted e_fields]. rewrite E2, E3, bool_decide_true by apply lookup_insert_eq. cbn [negb orb andb Z.eqb map]. by rewrite He.
Qed.

(** ** Update *)
Lemma core_write ws e : core (write_fields ws e) = row_write ws (core e).
Proof.
  unfold core, row_write, write_fields. destruct (foldl_setField_rest ws e) as (-> & -> & -> & _). by rewrite foldl_setField_fields.
Qed.

Lemma filter_update c (cw : Row -> Row) (l l1 : list Entry) : length l1 = length l ->
  (forall i e e1, l !! i = Some e -> l1 !! i = Some e1 ->
    if process c e then core e1 = cw (core e) /\ process c e1 = true else core e1 = core e) ->
  map core (List.filter (process c) l1) = map cw (map core (List.filter (process c) l)).
Proof.
  revert l1. induction l as [|e l IH]; intros [|e1 l1] Hl H; try done. cbn.
  specialize (IH l1 ltac:(cbn in Hl; lia) (fun i => H (S i))). specialize (H 0%nat e e1 eq_refl eq_refl).
  destruct (process c e) eqn:E; [destruct H as [H1 ->] | rewrite (process_core c e1 e H), E; done]. cbn. by rewrite H1, IH.
Qed.

Lemma written_not_key fs i : ti_key i ∉ map fst (written_fields fs i).
Proof.
  intros Hin. apply list_elem_of_fmap in Hin as (kv & E & Hin). apply list_elem_of_In, filter_In in Hin as [_ Hin]. bool_to_prop. congruence.
Qed.

Lemma stored_ok i k : NoDup (map e_ID (stored i k)) /\
  Forall (fun e => e_ID e <> 0 /\ db (e_ID e) = Some e /\ getField (ti_key i) e = k) (stored i k).
Proof.
  unfold stored. destruct (so_total i k (key_cond i k)) as [l E]. rewrite E. destruct (so_rows r _ _ _ l eq_refl E) as [H1 H2].
  split; [done |]. pose proof (so_key _ _ _ _ E) as H3. apply Forall_forall. intros e He. rewrite Forall_forall in H2, H3.
  destruct (H2 e He). by split_and!; [| | apply H3].
Qed.

Lemma write_process c i k ws e : c = key_cond i k -> isHashField (ti_key i) = true -> ti_key i ∉ map fst ws ->
  process c (write_fields ws e) = process c e.
Proof.
  intros -> Hh Hn. rewrite !process_key by done. pose proof (core_write ws e) as E. unfold core, row_write in E. injection E as _ -> -> E.
  f_equal. apply bool_decide_ext. by rewrite E, foldl_insert_lookup.
Qed.

(** The entries a selection by key finds among the new ones. *)
Lemma news_elem k c t i e : cond_empty c = false -> new_at k t !! i = Some e -> process c e = true ->
  exists e', (LNew i, e') ∈ snd (select_news k c t) /\ core e' = core e.
Proof.
  intros Hc He Hp. unfold select_news. set (ix := processEntries c (new_at k t)). cbn [snd].
  pose proof (proj2 (proj2 (index_same k ix t)) (TNew k i)) as Hg. cbn [get] in Hg. rewrite He in Hg.
  destruct (new_at k (index_news k ix t) !! i) as [e'|] eqn:E'; [| done]. exists e'. split; [| by apply (inj Some) in Hg].
  apply list_elem_of_omap. exists i. rewrite E'. split; [| done]. unfold ix, processEntries. rewrite Hc.
  apply list_elem_of_In, filter_In. rewrite He. split; [| done]. apply in_seq. apply lookup_lt_Some in He. lia.
Qed.
Lemma news_inv k c t i : cond_empty c = false -> TNew k i ∈ map (tgt_at k) (snd (select_news k c t)) ->
  exists e, new_at k t !! i = Some e /\ process c e = true.
Proof.
  intros Hc Hin. apply list_elem_of_fmap in Hin as ([loc e'] & E & Hin). unfold select_news in Hin. cbn [snd] in Hin.
  apply list_elem_of_omap in Hin as (j & Hj & E'). destruct (_ !! j) as [x|]; [| done]. injection E' as <- <-. cbn in E. injection E as ->.
  unfold processEntries in Hj. rewrite Hc in Hj. apply list_elem_of_In, filter_In in Hj as [_ Hj].
  destruct (new_at k t !! j) as [e|]; [by exists e | done].
Qed.

Lemma length_ext (l l1 : list Entry) : (forall i, is_Some (l1 !! i) <-> is_Some (l !! i)) -> length l1 = length l.
Proof.
  intros H. apply Nat.le_antisymm; apply Nat.nlt_ge; intros Hlt; apply lookup_lt_is_Some_2 in Hlt; apply H, lookup_lt_is_Some_1 in Hlt; lia.
Qed.

Section Update.
Context (k : chars) (ws : list (chars * chars)) (t ts t1 : MemTable) (l : list (Loc * Entry)) (rs : list Rec).
Context (Hw : table_wf t) (Hh : isHashField (ti_key (mt_info t)) = true) (Hws : ti_key (mt_info t) ∉ map fst ws).
Context (Hsel : selectNoLock (Some r) k newCondition t = (ts, l)) (Hrun : update_loop k ws l ts = (t1, rs)).

Let c := key_cond (mt_info t) k.
Lemma update_facts : same_core t ts /\ mt_info t1 = mt_info ts /\ (forall g, g ∉ map (tgt_at k) l -> get t1 g = get ts g) /\
  (forall le, le ∈ l -> get t1 (tgt_at k le) = Some (write_fields ws (snd le))) /\
  l = remote_rows t (stored (mt_info t) k) ++ snd (select_news k c t).
Proof.
  destruct (select_ok db (Some r) k newCondition t ts l so_rows Hw Hsel) as (Hs & Hok & Hn).
  destruct (change_loop_spec db k _ _ l ts t1 rs Hok Hn Hrun) as (A & B & D & _). split_and!; try done; try apply Hs.
  rewrite select_shape in Hsel. by injection Hsel as _ <-.
Qed.

Lemma targets_dirty id : TDirty id ∈ map (tgt_at k) l -> exists e, e ∈ stored (mt_info t) k /\ e_ID e = id.
Proof.
  destruct update_facts as (_ & _ & _ & _ & ->). rewrite map_app, elem_of_app. intros [Hin | Hin].
  - destruct (stored_ok (mt_info t) k) as [Hnd Hf]. destruct (remote_rows_ok db k t _ Hw Hnd ltac:(eapply Forall_impl; [exact Hf |]; by intros x (? & ? & _))) as [_ Ht].
    rewrite Ht in Hin. apply list_elem_of_fmap in Hin as (e & [= ->] & He). by exists e.
  - exfalso. destruct (select_news k c t) as [t2 n] eqn:En. destruct (select_news_ok db k c t t2 n Hw En) as (_ & _ & _ & Hall).
    rewrite Forall_forall in Hall. by destruct (Hall _ Hin).
Qed.
Lemma targets_new k' i : TNew k' i ∈ map (tgt_at k) l -> k' = k /\ exists e, new_at k t !! i = Some e /\ process c e = true.
Proof.
  destruct update_facts as (_ & _ & _ & _ & ->). rewrite map_app, elem_of_app. intros [Hin | Hin].
  - exfalso. destruct (stored_ok (mt_info t) k) as [Hnd Hf]. destruct (remote_rows_ok db k t _ Hw Hnd ltac:(eapply Forall_impl; [exact Hf |]; by intros x (? & ? & _))) as [_ Ht].
    rewrite Ht in Hin. by apply list_elem_of_fmap in Hin as (e & ? & He).
  - destruct (select_news k c t) as [t2 n] eqn:En. destruct (select_news_ok db k c t t2 n Hw En) as (_ & _ & _ & Hall).
    rewrite Forall_forall in Hall. destruct (Hall _ Hin) as [j [= -> ->]]. split; [done |].
    apply (news_inv k c t j); [apply key_cond_nonempty | by rewrite En].
Qed.

Lemma update_seen_same e : e ∈ stored (mt_info t) k -> seen t1 e = row_write ws (seen t e).
Proof.
  intros He. destruct update_facts as (_ & _ & _ & Hin & Hl). unfold seen.
  set (le := match mt_dirty t !! e_ID e with Some d => (LDirty (e_ID e), d) | None => (LRemote, e) end).
  assert (Hle : le ∈ l). { rewrite Hl, elem_of_app. left. unfold remote_rows. apply list_elem_of_fmap. by exists e. }
  specialize (Hin le Hle). assert (tgt_at k le = TDirty (e_ID e)) as Et by (unfold le; by destruct (mt_dirty t !! e_ID e)).
  rewrite Et in Hin. cbn [get] in Hin. rewrite Hin. cbn [default from_option id]. rewrite core_write. f_equal. unfold le. by destruct (mt_dirty t !! e_ID e).
Qed.
Lemma update_seen_other k' e : k' <> k -> e ∈ stored (mt_info t) k' -> seen t1 e = seen t e.
Proof.
  intros Hk He. destruct update_facts as (Hs & _ & Hout & _ & _). assert (Hn : TDirty (e_ID e) ∉ map (tgt_at k) l).
  { intros Hin. apply targets_dirty in Hin as (e' & He' & Eid). destruct (stored_ok (mt_info t) k) as [_ F1]. destruct (stored_ok (mt_info t) k') as [_ F2].
    rewrite Forall_forall in F1. rewrite Forall_forall in F2. destruct (F1 _ He') as (_ & D1 & K1). destruct (F2 _ He) as (_ & D2 & K2).
    rewrite Eid, D2 in D1. injection D1 as ->. congruence. }
  pose proof (Hout _ Hn) as E. cbn [get] in E. unfold seen. rewrite E. by rewrite (proj1 (proj2 Hs)).
Qed.

Lemma update_new_same : map core (List.filter (process c) (new_at k t1)) = map (row_write ws) (map core (List.filter (process c) (new_at k t))).
Proof.
  destruct update_facts as (Hs & _ & Hout & Hin & Hl).
  assert (Hcore : forall i, core <$> new_at k ts !! i = core <$> new_at k t !! i) by (intros i; apply (proj2 (proj2 Hs) (TNew k i))).
  assert (Hat : forall i e, new_at k t !! i = Some e -> process c e = true -> exists e1, new_at k t1 !! i = Some e1 /\ core e1 = row_write ws (core e)).
  { intros i e He Hp. destruct (news_elem k c t i e (key_cond_nonempty _ _) He Hp) as (e' & Hin' & Hc').
    specialize (Hin (LNew i, e')). cbn in Hin. rewrite Hin by (rewrite Hl, elem_of_app; by right). eexists. split; [done |]. by rewrite core_write, Hc'. }
  assert (Hno : forall i, (forall e, new_at k t !! i = Some e -> process c e = false) -> new_at k t1 !! i = new_at k ts !! i).
  { intros i Hp. apply (Hout (TNew k i)). intros Hg. apply targets_new in Hg as (_ & e & He & Hpe). rewrite (Hp e He) in Hpe. done. }
  apply filter_update.
  - apply length_ext. intros i. destruct (new_at k t !! i) as [e|] eqn:E.
    + destruct (process c e) eqn:Ep; [destruct (Hat i e E Ep) as (e1 & -> & _); split; by eexists |].
      rewrite Hno by congruence. specialize (Hcore i). rewrite E in Hcore. destruct (new_at k ts !! i); [split; by eexists | done].
    + rewrite Hno by congruence. specialize (Hcore i). rewrite E in Hcore. destruct (new_at k ts !! i); done.
  - intros i e e1 He He1. destruct (process c e) eqn:Ep.
    + destruct (Hat i e He Ep) as (e1' & E1 & E2). rewrite He1 in E1. injection E1 as <-. split; [done |].
      rewrite (process_core c e1 (write_fields ws e)) by (by rewrite core_write). by rewrite (write_process c (mt_info t) k).
    + rewrite Hno in He1 by congruence. specialize (Hcore i). rewrite He, He1 in Hcore. by apply (inj Some) in Hcore.
Qed.
Lemma update_new_other k' c' : k' <> k -> map core (List.filter (process c') (new_at k' t1)) = map core (List.filter (process c') (new_at k' t)).
Proof.
  intros Hk. destruct update_facts as (Hs & _ & Hout & _ & _).
  assert (Hg : forall i, core <$> new_at k' t1 !! i = core <$> new_at k' t !! i).
  { intros i. pose proof (Hout (TNew k' i)) as E. cbn [get] in E. rewrite E; [apply (proj2 (proj2 Hs) (TNew k' i)) |]. intros Hin. by apply targets_new in Hin as [? _]. }
  apply filter_restores.
  - intros i e He. by rewrite Hg, He.
  - intros i e Hn He. specialize (Hg i). by rewrite Hn, He in Hg.
Qed.
End Update.

Lemma update_rows k fs o t : table_wf t -> isHashField (ti_key (mt_info t)) = true -> denied o t = false -> checkField fs (mt_info t) = true ->
  exists t1 ch, table_update (Some r) k fs newCondition o t = (t1, Some ch, swrap 32 (lenZ (rows k t))) /\ mt_info t1 = mt_info t /\ table_wf t1 /\
    forall k', rows k' t1 = if bool_decide (k' = k) then map (row_write (written_fields fs (mt_info t))) (rows k t) else rows k' t.
Proof.
  intros Hw Hh Hd Hc. unfold table_update. rewrite Hd, Hc. cbn [negb]. destruct (selectNoLock (Some r) k newCondition t) as [ts l] eqn:Es.
  destruct (select_ok db (Some r) k newCondition t ts l so_rows Hw Es) as (Hs & Hok & Hn). rewrite (proj1 Hs).
  set (ws := written_fields fs (mt_info t)). destruct (update_loop k ws l ts) as [t1 rs] eqn:El.
  pose proof (written_not_key fs (mt_info t)) as Hws. destruct (update_facts k ws t ts t1 l rs Hw Es El) as (_ & Hi & _).
  assert (Hlen : lenZ l = lenZ (rows k t)).
  { rewrite <- rows_select by done. unfold rows_of. rewrite Es. unfold lenZ. by rewrite length_map. }
  exists (mark_dirty t1), (mkChange KUpdate k rs). split; [by rewrite Hlen |]. split; [cbn; rewrite Hi; apply Hs |].
  split. { pose proof (change_wf db k (write_fields ws) _ l ts t1 rs Hok Hn El) as [W1 W2]; [intros e; by destruct (foldl_setField_rest ws e) as (? & _) | apply (core_wf t); [apply Hs | done] | by split]. }
  intros k'. unfold rows. cbn [mark_dirty mt_info]. rewrite Hi, (proj1 Hs).
  change (new_at k' (mark_dirty t1)) with (new_at k' t1).
  assert (Hseen : forall e, seen (mark_dirty t1) e = seen t1 e) by done.
  case_bool_decide as E; [subst k'; rewrite map_app |].
  - f_equal; [| by apply (update_new_same k ws t ts t1 l rs)]. rewrite map_map. apply map_ext_in. intros e He. rewrite Hseen.
    apply (update_seen_same k ws t ts t1 l rs); [done .. | by apply list_elem_of_In].
  - f_equal; [| by apply (update_new_other k ws t ts t1 l rs)]. apply map_ext_in. intros e He. rewrite Hseen.
    apply (update_seen_other k ws t ts t1 l rs Hw Es El k'); [done | by apply list_elem_of_In].
Qed.
End Rows.
