(* ===== verification/TableEffects.v ===== *)
(** * The effect of operations on the rows of the open tables

    [effect f f' chg]: the tables of [f'] are those of [f], their rows changed
    by [chg].  A selection changes none, an insertion or an update by key
    changes the rows of one key of one table.  The clients of the tables are
    verified against these three facts. *)

From S2P Require Import Prelude StateMonad CommonData Text PBFTMsg Transaction StorageEntry MemoryTable TableProps TableFactory FactoryProps TableRows.

Section Effects.
Context {db : Z -> option Entry} (s : h256 -> Z -> TableInfo -> chars -> Condition -> result (option (list Entry))).
Context (Hs : forall h n, StorageOk db (s h n)).

(** ** The rows of the open tables *)
Definition frows (f : Factory) (q : nat) (k : chars) : list Row :=
  from_option (fun o => rows (s (ob_hash o) (ob_num o)) k (ob_table o)) [] (f_objs f !! q).
Definition meta (o : TableObj) : h256 * Z * TableInfo := (ob_hash o, ob_num o, mt_info (ob_table o)).

(** [f'] has the tables of [f], with their rows changed by [chg]. *)
Record effect (f f' : Factory) (chg : nat -> chars -> list Row -> list Row) : Prop := {
  ef_names : f_names f' = f_names f;
  ef_meta : forall q, meta <$> f_objs f' !! q = meta <$> f_objs f !! q;
  ef_wf : objs_wf (f_objs f) -> objs_wf (f_objs f');
  ef_rows : forall q k, frows f' q k = chg q k (frows f q k)
}.
Definition unchanged : nat -> chars -> list Row -> list Row := fun _ _ l => l.
Definition at_key (p : nat) (k : chars) (g : list Row -> list Row) : nat -> chars -> list Row -> list Row :=
  fun q k' l => if bool_decide (q = p) && bool_decide (k' = k) then g l else l.

Lemma effect_refl f : effect f f unchanged.
Proof. by split. Qed.
Lemma effect_trans f1 f2 f3 c1 c2 : effect f1 f2 c1 -> effect f2 f3 c2 -> effect f1 f3 (fun q k l => c2 q k (c1 q k l)).
Proof. intros [A1 A2 A3 A4] [B1 B2 B3 B4]. split; [congruence | intros; by rewrite B2 | auto | intros; by rewrite B4, A4]. Qed.
Lemma effect_ext f f' c1 c2 : (forall q k l, c1 q k l = c2 q k l) -> effect f f' c1 -> effect f f' c2.
Proof. intros Hc [A1 A2 A3 A4]. split; [done .. | intros; by rewrite A4, Hc]. Qed.

(** One table replaced by one whose rows are known. *)
Lemma effect_set p o t l f c : f_objs f !! p = Some o -> mt_info t = mt_info (ob_table o) -> table_wf t ->
  (forall k, rows (s (ob_hash o) (ob_num o)) k t = c k (rows (s (ob_hash o) (ob_num o)) k (ob_table o))) ->
  effect f (with_log l (set_obj p t f)) (fun q k x => if bool_decide (q = p) then c k x else x).
Proof.
  intros Ho Hi Hw Hr. assert (Hp : forall q, f_objs (with_log l (set_obj p t f)) !! q = if bool_decide (q = p) then Some (with_table t o) else f_objs f !! q).
  { intros q. cbn. case_bool_decide as E; [subst; by rewrite list_lookup_alter_eq, Ho | by rewrite list_lookup_alter_ne]. }
  split.
  - done.
  - intros q. rewrite Hp. case_bool_decide as E; [subst | done]. rewrite Ho. unfold meta. cbn. by rewrite Hi.
  - intros Hwf. apply Forall_lookup. intros q o'. rewrite Hp. case_bool_decide as E; [by intros [= <-] | apply (proj1 (Forall_lookup _ _) Hwf)].
  - intros q k. unfold frows. rewrite Hp. case_bool_decide as E; [subst | done]. rewrite Ho. cbn. apply Hr.
Qed.

Lemma wf_at f p o : objs_wf (f_objs f) -> f_objs f !! p = Some o -> table_wf (ob_table o).
Proof. intros Hw. apply (proj1 (Forall_lookup _ _) Hw p). Qed.


(** ** The operations *)
Lemma t_select_spec f p k o : objs_wf (f_objs f) -> f_objs f !! p = Some o ->
  exists f' l, t_select (Some s) p k newCondition f = (f', Ok l) /\ effect f f' unchanged /\ map core l = frows f p k.
Proof.
  intros Hw Ho. unfold t_select, at_table. rewrite se_bind_get, Ho. pose proof (wf_at f p o Hw Ho) as Hwo.
  pose proof (select_entries (s (ob_hash o) (ob_num o)) k (ob_table o) Hwo) as Hl. unfold remote_of. cbn [fmap option_fmap option_map].
  unfold table_select in *. destruct (selectNoLock _ k newCondition (ob_table o)) as [t l] eqn:E. rewrite se_bind_mod. cbn [snd] in Hl.
  destruct (select_ok db _ k newCondition (ob_table o) t l so_rows Hwo E) as (Hsc & _).
  eexists _, _. split; [reflexivity |]. split.
  - apply (effect_ext _ _ (fun q k x => if bool_decide (q = p) then x else x)); [intros; by destruct (bool_decide _) |].
    pose proof (effect_set p o t (f_log f) f (fun _ x => x) Ho (proj1 Hsc)) as He.
    assert (with_log (f_log f) (set_obj p t f) = set_obj p t f) as <- by (by destruct f). apply He.
    + apply (core_wf (ob_table o)); [apply Hsc | done].
    + intros k'. by apply rows_same_core.
  - unfold frows. by rewrite Ho.
Qed.


Lemma t_insert_spec f p k fs b opt o : objs_wf (f_objs f) -> f_objs f !! p = Some o -> isHashField (ti_key (mt_info (ob_table o))) = true ->
  denied opt (ob_table o) = false -> checkField fs (mt_info (ob_table o)) = true ->
  exists f', t_insert p k fs b opt f = (f', Ok 1) /\ effect f f' (at_key p k (fun l => l ++ [new_row (ti_key (mt_info (ob_table o))) k fs])).
Proof.
  intros Hw Ho Hk Hden Hchk. pose proof (wf_at f p o Hw Ho) as Hwo.
  destruct (insert_rows (s (ob_hash o) (ob_num o)) k fs b opt (ob_table o)) as (t1 & ch & E & Hi & Hr); [done .. |].
  pose proof (insert_undoable (fun _ => None) k fs b opt (ob_table o) Hwo) as Hu. rewrite E in Hu. destruct Hu as [Hw1 _].
  unfold t_insert, at_table. rewrite se_bind_get, Ho, E, se_bind_mod. eexists. split; [reflexivity |].
  eapply effect_ext; [| apply (effect_set p o t1 _ f (fun k' x => if bool_decide (k' = k) then x ++ [new_row (ti_key (mt_info (ob_table o))) k fs] else x) Ho Hi Hw1)].
  - intros q k' l. unfold at_key. by destruct (bool_decide (q = p)), (bool_decide (k' = k)).
  - intros k'. rewrite Hr. case_bool_decide; by subst.
Qed.

Lemma t_update_spec f p k fs opt o : objs_wf (f_objs f) -> f_objs f !! p = Some o -> isHashField (ti_key (mt_info (ob_table o))) = true ->
  denied opt (ob_table o) = false -> checkField fs (mt_info (ob_table o)) = true ->
  exists f', t_update (Some s) p k fs newCondition opt f = (f', Ok (swrap 32 (lenZ (frows f p k)))) /\
    effect f f' (at_key p k (map (row_write (written_fields fs (mt_info (ob_table o)))))).
Proof.
  intros Hw Ho Hk Hden Hchk. pose proof (wf_at f p o Hw Ho) as Hwo.
  unfold t_update, at_table. rewrite se_bind_get, Ho. unfold remote_of. cbn [fmap option_fmap option_map].
  destruct (update_rows (s (ob_hash o) (ob_num o)) k fs opt (ob_table o) Hwo) as (t1 & ch & E & Hi & Hw1 & Hr); [done .. |].
  rewrite E, se_bind_mod. eexists. split; [unfold frows; rewrite Ho; reflexivity |].
  eapply effect_ext; [| apply (effect_set p o t1 _ f (fun k' x => if bool_decide (k' = k) then map (row_write (written_fields fs (mt_info (ob_table o)))) x else x) Ho Hi Hw1)].
  - intros q k' l. unfold at_key. by destruct (bool_decide (q = p)), (bool_decide (k' = k)).
  - intros k'. rewrite Hr. case_bool_decide; by subst.
Qed.

End Effects.
