(* ===== verification/StorageState.v ===== *)
(** * Accounts

    [libstoragestate/StorageState.cpp]: the accounts of the state, one table
    per account in the tables of the block.  Balances and nonces are 256 bit
    and kept as decimal text. *)

From S2P Require Import Prelude StateMonad CommonData Text PBFTMsg Transaction StorageEntry MemoryTable TableProps TableFactory.

Definition STORAGE_KEY : chars := Eval vm_compute in str "key".
Definition STORAGE_VALUE : chars := Eval vm_compute in str "value".
Definition ACCOUNT_BALANCE : chars := Eval vm_compute in str "balance".
Definition ACCOUNT_CODE_HASH : chars := Eval vm_compute in str "codeHash".
Definition ACCOUNT_CODE : chars := Eval vm_compute in str "code".
Definition ACCOUNT_NONCE : chars := Eval vm_compute in str "nonce".
Definition ACCOUNT_ALIVE : chars := Eval vm_compute in str "alive".
Definition contract_prefix : chars := Eval vm_compute in str "_contract_data_".

Definition account_table (a : Address) : chars := contract_prefix ++ toHex [] a ++ [95].
Definition value_row (v : chars) : gmap chars chars := <[STORAGE_VALUE := v]> ∅.
Definition key_value_row (k v : chars) : gmap chars chars := <[STORAGE_KEY := k]> (<[STORAGE_VALUE := v]> ∅).

(** [u256(std::string)]. *)
Definition parse_u256 (s : chars) : result Z := match u256_of_string s with Some n => Ok n | None => Throw RuntimeError end.

Section State.
Context `{Crypto}.
Context (storage : option (h256 -> Z -> TableInfo -> chars -> Condition -> result (option (list Entry)))).
Context (m_accountStartNonce : Z).

Definition EmptySHA3 : h256 := sha3 [].

Definition getTable (a : Address) : FE (option nat) := openTable storage (account_table a) true.

(** [entries->get(0)->getField(STORAGE_VALUE)], when there is an entry. *)
Definition first_value (p : nat) (key : chars) : FE (option chars) :=
  l ← t_select storage p key newCondition; mret (getField STORAGE_VALUE <$> head l).
Definition update_value (p : nat) (key v : chars) : FE unit :=
  t_update storage p key (value_row v) newCondition noOptions;; mret tt.
Definition insert_value (p : nat) (key v : chars) : FE unit :=
  t_insert p key (key_value_row key v) false noOptions;; mret tt.

(** Reads a number, or gives a default. *)
Definition read_u256 (a : Address) (key : chars) (d : Z) : FE Z :=
  t ← getTable a;
  match t with
  | None => mret d
  | Some p =>
      v ← first_value p key;
      match v with None => mret d | Some s => se_lift (parse_u256 s) end
  end.

Definition addressInUse (a : Address) : FE bool := t ← getTable a; mret (bool_decide (is_Some t)).

Definition balance (a : Address) : FE Z := read_u256 a ACCOUNT_BALANCE 0.
Definition getNonce (a : Address) : FE Z := read_u256 a ACCOUNT_NONCE m_accountStartNonce.
Definition ss_storage (a : Address) (key : Z) : FE Z := read_u256 a (dec key) 0.

Definition codeHash (a : Address) : FE h256 :=
  t ← getTable a;
  match t with
  | None => mret EmptySHA3
  | Some p =>
      v ← first_value p ACCOUNT_CODE_HASH;
      match v with None => mret EmptySHA3 | Some s => b ← se_lift (fromHex s DontThrow); mret (fixedHash 32 b) end
  end.

Definition addressHasCode (a : Address) : FE bool :=
  t ← getTable a;
  match t with
  | None => mret false
  | Some p =>
      v ← first_value p ACCOUNT_CODE_HASH;
      match v with
      | None => mret false
      | Some s => b ← se_lift (fromHex s DontThrow); mret (negb (bool_decide (fixedHash 32 b = EmptySHA3)))
      end
  end.

Definition accountNonemptyAndExisting (a : Address) : FE bool :=
  t ← getTable a;
  match t with
  | None => mret false
  | Some _ =>
      b ← balance a;
      if 0 <? b then mret true
      else
        h ← codeHash a;
        if negb (bool_decide (h = EmptySHA3)) then mret true
        else n ← getNonce a; mret (negb (n =? m_accountStartNonce))
  end.

Definition ss_code (a : Address) : FE bytes :=
  h ← codeHash a;
  if bool_decide (h = EmptySHA3) then mret []
  else
    t ← getTable a;
    match t with
    | None => mret []
    | Some p => v ← first_value p ACCOUNT_CODE; match v with None => mret [] | Some s => se_lift (fromHex s DontThrow) end
    end.
Definition codeSize (a : Address) : FE Z := c ← ss_code a; mret (lenZ c).

Definition requireAccountStartNonce : result Z :=
  if m_accountStartNonce =? Invalid256 then Throw InvalidAccountStartNonceInState else Ok m_accountStartNonce.
Definition noteAccountStartNonce (actual : Z) : result Z :=
  if m_accountStartNonce =? Invalid256 then Ok actual
  else if negb (m_accountStartNonce =? actual) then Throw IncorrectAccountStartNonceInState else Ok m_accountStartNonce.

Definition createAccount (a : Address) (nonce amount : Z) : FE unit :=
  t ← createTable storage (account_table a) STORAGE_KEY STORAGE_VALUE false ZeroAddress;
  match t with
  | None => mret tt
  | Some p =>
      insert_value p ACCOUNT_BALANCE (dec amount);;
      insert_value p ACCOUNT_CODE_HASH (toHex [] EmptySHA3);;
      insert_value p ACCOUNT_CODE [];;
      insert_value p ACCOUNT_NONCE (dec nonce);;
      insert_value p ACCOUNT_ALIVE (str "true")
  end.
Definition createContract (a : Address) : FE unit := n ← se_lift requireAccountStartNonce; createAccount a n 0.

(** The balance, if the account has one, is replaced. *)
Definition change_balance (p : nat) (key : chars) (f : Z -> result Z) : FE unit :=
  v ← first_value p key;
  match v with
  | None => mret tt
  | Some s => n ← se_lift (parse_u256 s); m ← se_lift (f n); update_value p key (dec m)
  end.

Definition addBalance (a : Address) (amount : Z) : FE unit :=
  if amount =? 0 then mret tt
  else
    t ← getTable a;
    match t with
    | Some p => change_balance p ACCOUNT_BALANCE (fun b => Ok (wrap 256 (b + amount)))
    | None => n ← se_lift requireAccountStartNonce; createAccount a n amount
    end.

Definition subBalance (a : Address) (amount : Z) : FE unit :=
  t ← getTable a;
  match t with
  | Some p => change_balance p ACCOUNT_BALANCE (fun b => if b <? amount then Throw NotEnoughCash else Ok (b - amount))
  | None => se_lift (Throw NotEnoughCash)
  end.

Definition setBalance (a : Address) (amount : Z) : FE unit :=
  t ← getTable a;
  match t with
  | Some p => change_balance p ACCOUNT_BALANCE (fun _ => Ok amount)
  | None => n ← se_lift requireAccountStartNonce; createAccount a n amount
  end.

Definition transferBalance (from to : Address) (value : Z) : FE unit := subBalance from value;; addBalance to value.

Definition setStorage (a : Address) (location value : Z) : FE unit :=
  t ← getTable a;
  match t with
  | None => mret tt
  | Some p =>
      l ← t_select storage p (dec location) newCondition;
      match l with
      | [] => insert_value p (dec location) (dec value)
      | _ :: _ => t_update storage p (dec location) (key_value_row (dec location) (dec value)) newCondition noOptions;; mret tt
      end
  end.

Definition setCode (a : Address) (code : bytes) : FE unit :=
  t ← getTable a;
  match t with
  | None => mret tt
  | Some p => update_value p ACCOUNT_CODE (toHex [] code);; update_value p ACCOUNT_CODE_HASH (toHex [] (sha3 code))
  end.

Definition kill (a : Address) : FE unit :=
  t ← getTable a;
  match t with
  | None => mret tt
  | Some p =>
      update_value p ACCOUNT_NONCE (dec m_accountStartNonce);;
      update_value p ACCOUNT_BALANCE (dec 0);;
      update_value p ACCOUNT_CODE [];;
      update_value p ACCOUNT_CODE_HASH (toHex [] EmptySHA3);;
      update_value p ACCOUNT_ALIVE (str "false")
  end.

Definition incNonce (a : Address) : FE unit :=
  t ← getTable a;
  match t with
  | Some p => change_balance p ACCOUNT_NONCE (fun n => Ok (wrap 256 (n + 1)))
  | None => n ← se_lift requireAccountStartNonce; createAccount a (wrap 256 (n + 1)) 0
  end.

Definition setNonce (a : Address) (nonce : Z) : FE unit :=
  t ← getTable a;
  match t with Some p => update_value p ACCOUNT_NONCE (dec nonce) | None => createAccount a nonce 0 end.

Definition ss_checkAuthority (origin contract : Address) : FE bool :=
  t ← getTable contract;
  match t with
  | None => mret true
  | Some p => at_table p (fun o => mret (checkAuthority origin (mt_info (ob_table o))))
  end.
End State.
