(* ===== verification/StateProps.v ===== *)
(** * What the accounts promise

    The operations of [StorageState] on accounts whose tables are open, over
    any storage that answers with rows of the key: what each one changes is
    exactly one row.  Transfers conserve the sum of the balances or throw and
    change nothing; storage and code read back what was written. *)

From S2P Require Import Prelude StateMonad CommonData Text PBFTMsg Transaction StorageEntry MemoryTable TableProps TableFactory FactoryProps TableRows TableEffects StorageState.

Section Accounts.
Context `{Crypto}.
Context {db : Z -> option Entry} (s : h256 -> Z -> TableInfo -> chars -> Condition -> result (option (list Entry))).
Context (Hs : forall h n, StorageOk db (s h n)).
Context (start : Z).

(** ** Open accounts *)
Record account_open (f : Factory) (a : Address) (p : nat) : Prop := {
  ao_name : f_names f !! account_table a = Some p;
  ao_obj : exists o, f_objs f !! p = Some o /\ ti_key (mt_info (ob_table o)) = STORAGE_KEY /\
    STORAGE_KEY ∈ ti_fields (mt_info (ob_table o)) /\ STORAGE_VALUE ∈ ti_fields (mt_info (ob_table o)) /\
    checkAuthority ZeroAddress (mt_info (ob_table o)) = true
}.
Lemma open_effect f f' c a p : effect s f f' c -> account_open f a p -> account_open f' a p.
Proof.
  intros [A1 A2 _ _] [Hn (o & Ho & Hk)]. split; [by rewrite A1 |]. specialize (A2 p). rewrite Ho in A2.
  destruct (f_objs f' !! p) as [o'|]; [| done]. unfold meta in A2. cbn in A2. injection A2 as _ _ E. exists o'. by rewrite E.
Qed.

Lemma account_not_sys a : account_table a ∉ m_sysTables.
Proof.
  unfold account_table, contract_prefix, m_sysTables. intros Hin. repeat (apply elem_of_cons in Hin as [Hin | Hin]; [done |]). by apply elem_of_nil in Hin.
Qed.
Lemma getTable_open f a p : account_open f a p -> getTable (Some s) a f = (f, Ok (Some p)).
Proof.
  intros [Hn _]. unfold getTable, openTable. rewrite bool_decide_false by apply account_not_sys.
  unfold find_table. rewrite se_bind_get, Hn. done.
Qed.

(** ** Primitive operations *)
Lemma first_value_spec f p k o : objs_wf (f_objs f) -> f_objs f !! p = Some o ->
  exists f', first_value (Some s) p k f = (f', Ok (row_field STORAGE_VALUE <$> head (frows s f p k))) /\ effect s f f' unchanged.
Proof.
  intros Hw Ho. destruct (t_select_spec s Hs f p k o Hw Ho) as (f' & l & E & He & Hl). exists f'. split; [| done].
  unfold first_value. rewrite (se_bind_ok _ _ _ _ _ E). rewrite <- Hl. by destruct l.
Qed.

Lemma storage_key_hash : isHashField STORAGE_KEY = true.
Proof. reflexivity. Qed.

Lemma account_fields f a p o fs : account_open f a p -> f_objs f !! p = Some o ->
  (forall k v, fs !! k = Some v -> k = STORAGE_KEY \/ k = STORAGE_VALUE) -> checkField fs (mt_info (ob_table o)) = true.
Proof.
  intros [_ (o' & Ho' & _ & H1 & H2 & _)] Ho Hf. rewrite Ho in Ho'. injection Ho' as <-. unfold checkField. apply forallb_forall. intros [k v] Hin.
  apply list_elem_of_In, elem_of_in_order in Hin. apply bool_decide_eq_true_2. cbn. by destruct (Hf k v Hin) as [-> | ->].
Qed.

Lemma account_allowed f a p o : account_open f a p -> f_objs f !! p = Some o -> denied noOptions (ob_table o) = false.
Proof. intros [_ (o' & Ho' & _ & _ & _ & Hc)] Ho. rewrite Ho in Ho'. injection Ho' as <-. unfold denied. cbn [noOptions ao_check ao_origin]. by rewrite Hc. Qed.

Definition set_value (v : chars) (x : Row) : Row := let '(id, st, del, fs) := x in (id, st, del, <[STORAGE_VALUE := v]> fs).

Lemma account_update f a p k fs v : objs_wf (f_objs f) -> account_open f a p ->
  (fs = value_row v \/ exists k', fs = key_value_row k' v) ->
  exists f' n, t_update (Some s) p k fs newCondition noOptions f = (f', Ok n) /\ effect s f f' (at_key p k (map (set_value v))).
Proof.
  intros Hw Ha Hfs. pose proof (ao_obj _ _ _ Ha) as (o & Ho & Hk & _).
  assert (Hchk : checkField fs (mt_info (ob_table o)) = true).
  { apply (account_fields f a p o fs Ha Ho). intros k0 v0. destruct Hfs as [-> | [k' ->]]; unfold value_row, key_value_row;
      rewrite !lookup_insert_Some; set_solver. }
  destruct (t_update_spec s Hs f p k fs noOptions o) as (f' & E & He); [done | done | by rewrite Hk | by apply (account_allowed f a p) | done |].
  exists f', (swrap 32 (lenZ (frows s f p k))). split; [done |]. eapply effect_ext; [| exact He]. intros q k' l. unfold at_key.
  assert (written_fields fs (mt_info (ob_table o)) = [(STORAGE_VALUE, v)]) as ->.
  { unfold written_fields. rewrite Hk. destruct Hfs as [-> | [k0 ->]]; reflexivity. }
  destruct (_ && _); [| done]. apply map_ext. by intros [[[? ?] ?] ?].
Qed.

Lemma update_value_spec f a p k v : objs_wf (f_objs f) -> account_open f a p ->
  exists f', update_value (Some s) p k v f = (f', Ok tt) /\ effect s f f' (at_key p k (map (set_value v))).
Proof.
  intros Hw Ha. destruct (account_update f a p k (value_row v) v Hw Ha) as (f' & n & E & He); [by left |].
  exists f'. split; [| done]. unfold update_value. by rewrite (se_bind_ok _ _ _ _ _ E).
Qed.

Lemma insert_value_spec f a p k v : objs_wf (f_objs f) -> account_open f a p ->
  exists f', insert_value p k v f = (f', Ok tt) /\ effect s f f' (at_key p k (fun l => l ++ [new_row STORAGE_KEY k (key_value_row k v)])).
Proof.
  intros Hw Ha. pose proof (ao_obj _ _ _ Ha) as (o & Ho & Hk & _).
  assert (Hchk : checkField (key_value_row k v) (mt_info (ob_table o)) = true).
  { apply (account_fields f a p o _ Ha Ho). intros k0 v0. unfold key_value_row. rewrite !lookup_insert_Some; set_solver. }
  destruct (t_insert_spec s f p k (key_value_row k v) false noOptions o) as (f' & E & He); [done | done | by rewrite Hk | by apply (account_allowed f a p) | done |].
  exists f'. rewrite Hk in He. split; [| done]. unfold insert_value. by rewrite (se_bind_ok _ _ _ _ _ E).
Qed.

(** ** Numbers of an account *)
Definition value_at (f : Factory) (p : nat) (k : chars) : option chars := row_field STORAGE_VALUE <$> head (frows s f p k).
Definition u256_at (f : Factory) (p : nat) (k : chars) (n : Z) : Prop := value_at f p k = Some (dec n) /\ 0 <= n < 2 ^ 256.

Lemma field_set_value v x : row_field STORAGE_VALUE (set_value v x) = v.
Proof. destruct x as [[[? ?] ?] fs]. unfold row_field. cbn. by rewrite lookup_insert_eq. Qed.

Lemma value_update f f' p k v x : effect s f f' (at_key p k (map (set_value v))) -> value_at f p k = Some x -> value_at f' p k = Some v.
Proof.
  intros He Hv. unfold value_at in *. rewrite (ef_rows _ _ _ _ He). unfold at_key. rewrite !bool_decide_true by done. cbn [andb].
  destruct (frows s f p k) as [|y l]; [done |]. cbn. by rewrite field_set_value.
Qed.
Lemma value_other f f' p k v q k' : effect s f f' (at_key p k (map (set_value v))) -> (q, k') <> (p, k) -> value_at f' q k' = value_at f q k'.
Proof.
  intros He Hn. unfold value_at. rewrite (ef_rows _ _ _ _ He). unfold at_key. case_bool_decide; [| done]. case_bool_decide; [congruence | done].
Qed.
Lemma value_unchanged f f' q k : effect s f f' unchanged -> value_at f' q k = value_at f q k.
Proof. intros He. unfold value_at. by rewrite (ef_rows _ _ _ _ He). Qed.
Lemma effect_then_at f1 f2 f3 p k g : effect s f1 f2 unchanged -> effect s f2 f3 (at_key p k g) -> effect s f1 f3 (at_key p k g).
Proof. intros A B. by apply (effect_ext _ _ _ _ _ (fun _ _ _ => eq_refl) (effect_trans _ _ _ _ _ _ A B)). Qed.

Lemma parse_dec n : 0 <= n < 2 ^ 256 -> parse_u256 (dec n) = Ok n.
Proof. intros Hn. unfold parse_u256. by rewrite u256_dec. Qed.

Lemma read_spec f a p k n d : objs_wf (f_objs f) -> account_open f a p -> u256_at f p k n ->
  exists f', read_u256 (Some s) a k d f = (f', Ok n) /\ effect s f f' unchanged.
Proof.
  intros Hw Ha [Hv Hn]. destruct (ao_obj _ _ _ Ha) as (o & Ho & _). unfold read_u256. rewrite (se_bind_ok _ _ _ _ _ (getTable_open f a p Ha)).
  destruct (first_value_spec f p k o Hw Ho) as (f' & E & He). exists f'. split; [| done]. rewrite (se_bind_ok _ _ _ _ _ E).
  unfold value_at in Hv. rewrite Hv. unfold se_lift. by rewrite parse_dec.
Qed.

Lemma change_spec f a p k n g m : objs_wf (f_objs f) -> account_open f a p -> u256_at f p k n -> g n = Ok m ->
  exists f', change_balance (Some s) p k g f = (f', Ok tt) /\ effect s f f' (at_key p k (map (set_value (dec m)))).
Proof.
  intros Hw Ha [Hv Hn] Hg. destruct (ao_obj _ _ _ Ha) as (o & Ho & _). unfold change_balance.
  destruct (first_value_spec f p k o Hw Ho) as (f1 & E & He). rewrite (se_bind_ok _ _ _ _ _ E).
  unfold value_at in Hv. rewrite Hv, parse_dec by done. unfold se_lift at 1. unfold mbind at 1. unfold SE_bind at 1.
  unfold se_lift. rewrite Hg. unfold mbind, SE_bind.
  destruct (update_value_spec f1 a p k (dec m)) as (f2 & E2 & He2); [by apply (ef_wf _ _ _ _ He) | by apply (open_effect _ _ _ _ _ He) |].
  exists f2. split; [done |]. by apply (effect_then_at _ f1).
Qed.

Lemma change_fails f a p k n g e : objs_wf (f_objs f) -> account_open f a p -> u256_at f p k n -> g n = Throw e ->
  exists f', change_balance (Some s) p k g f = (f', Throw e) /\ effect s f f' unchanged.
Proof.
  intros Hw Ha [Hv Hn] Hg. destruct (ao_obj _ _ _ Ha) as (o & Ho & _). unfold change_balance.
  destruct (first_value_spec f p k o Hw Ho) as (f1 & E & He). rewrite (se_bind_ok _ _ _ _ _ E).
  unfold value_at in Hv. rewrite Hv, parse_dec by done. unfold se_lift, mbind, SE_bind. rewrite Hg. by exists f1.
Qed.

(** ** Transfers *)
Lemma transfer_ok f from to pf pt bf bt v : objs_wf (f_objs f) -> account_open f from pf -> account_open f to pt -> pf <> pt ->
  u256_at f pf ACCOUNT_BALANCE bf -> u256_at f pt ACCOUNT_BALANCE bt -> 0 <= v <= bf -> bt + v < 2 ^ 256 ->
  exists f', transferBalance (Some s) start from to v f = (f', Ok tt) /\ objs_wf (f_objs f') /\
    account_open f' from pf /\ account_open f' to pt /\
    u256_at f' pf ACCOUNT_BALANCE (bf - v) /\ u256_at f' pt ACCOUNT_BALANCE (bt + v) /\
    forall q k, (q, k) <> (pf, ACCOUNT_BALANCE) -> (q, k) <> (pt, ACCOUNT_BALANCE) -> frows s f' q k = frows s f q k.
Proof.
  intros Hw Hf Ht Hne Bf Bt Hv Hov. unfold transferBalance.
  assert (Hsub : exists f1, subBalance (Some s) from v f = (f1, Ok tt) /\ effect s f f1 (at_key pf ACCOUNT_BALANCE (map (set_value (dec (bf - v)))))).
  { unfold subBalance. rewrite (se_bind_ok _ _ _ _ _ (getTable_open f from pf Hf)). apply (change_spec f from pf _ bf); [done .. |].
    destruct (Z.ltb_spec bf v); [lia | done]. }
  destruct Hsub as (f1 & E1 & He1). rewrite (se_bind_ok _ _ _ _ _ E1).
  assert (Hw1 : objs_wf (f_objs f1)) by by apply (ef_wf _ _ _ _ He1).
  assert (Bf1 : u256_at f1 pf ACCOUNT_BALANCE (bf - v)) by (split; [by apply (value_update _ _ _ _ _ _ He1 (proj1 Bf)) | destruct Bf; lia]).
  assert (Bt1 : u256_at f1 pt ACCOUNT_BALANCE bt) by (split; [rewrite (value_other _ _ _ _ _ _ _ He1) by congruence; apply Bt | apply Bt]).
  assert (Hq1 : forall q k, (q, k) <> (pf, ACCOUNT_BALANCE) -> frows s f1 q k = frows s f q k).
  { intros q k Hqk. rewrite (ef_rows _ _ _ _ He1). unfold at_key. case_bool_decide; [| done]. case_bool_decide; [congruence | done]. }
  pose proof (open_effect _ _ _ _ _ He1 Hf) as Hf1. pose proof (open_effect _ _ _ _ _ He1 Ht) as Ht1.
  unfold addBalance. destruct (Z.eqb_spec v 0) as [-> | Hv0].
  - exists f1. rewrite Z.sub_0_r in *. rewrite Z.add_0_r. split_and!; try done; try apply Bt1. intros. by apply Hq1.
  - rewrite (se_bind_ok _ _ _ _ _ (getTable_open f1 to pt Ht1)).
    destruct (change_spec f1 to pt ACCOUNT_BALANCE bt (fun b => Ok (wrap 256 (b + v))) (bt + v)) as (f2 & E2 & He2); try done.
    { rewrite wrap_small by (destruct Bt; lia). done. }
    exists f2. split; [done |]. split; [by apply (ef_wf _ _ _ _ He2) |]. split; [by apply (open_effect _ _ _ _ _ He2) |]. split; [by apply (open_effect _ _ _ _ _ He2) |].
    split; [| split].
    + split; [rewrite (value_other _ _ _ _ _ _ _ He2) by congruence; apply Bf1 | apply Bf1].
    + split; [by apply (value_update _ _ _ _ _ _ He2 (proj1 Bt1)) | destruct Bt; lia].
    + intros q k H1 H2. rewrite (ef_rows _ _ _ _ He2). unfold at_key. case_bool_decide; [| by apply Hq1]. case_bool_decide; [congruence | by apply Hq1].
Qed.

Lemma transfer_poor f from to pf bf v : objs_wf (f_objs f) -> account_open f from pf -> u256_at f pf ACCOUNT_BALANCE bf -> bf < v ->
  exists f', transferBalance (Some s) start from to v f = (f', Throw NotEnoughCash) /\ effect s f f' unchanged.
Proof.
  intros Hw Hf Bf Hv. unfold transferBalance, subBalance. rewrite se_bind_assoc, (se_bind_ok _ _ _ _ _ (getTable_open f from pf Hf)).
  destruct (change_fails f from pf ACCOUNT_BALANCE bf (fun b => if b <? v then Throw NotEnoughCash else Ok (b - v)) NotEnoughCash) as (f' & E & He); try done.
  { by rewrite (proj2 (Z.ltb_lt _ _)) by lia. }
  exists f'. split; [| done]. by rewrite (se_bind_throw _ _ _ _ _ E).
Qed.

(** An open account without rows keeps nothing. *)
Lemma add_lost f a p n : objs_wf (f_objs f) -> account_open f a p -> frows s f p ACCOUNT_BALANCE = [] ->
  exists f', addBalance (Some s) start a n f = (f', Ok tt) /\ effect s f f' unchanged.
Proof.
  intros Hw Ha Hr. unfold addBalance. destruct (n =? 0); [exists f; split; [done | apply effect_refl] |].
  destruct (ao_obj _ _ _ Ha) as (o & Ho & _). rewrite (se_bind_ok _ _ _ _ _ (getTable_open f a p Ha)).
  unfold change_balance. destruct (first_value_spec f p ACCOUNT_BALANCE o Hw Ho) as (f' & E & He). rewrite (se_bind_ok _ _ _ _ _ E), Hr. by exists f'.
Qed.

Lemma sub_skipped f a p n : objs_wf (f_objs f) -> account_open f a p -> frows s f p ACCOUNT_BALANCE = [] ->
  exists f', subBalance (Some s) a n f = (f', Ok tt) /\ effect s f f' unchanged.
Proof.
  intros Hw Ha Hr. unfold subBalance. rewrite (se_bind_ok _ _ _ _ _ (getTable_open f a p Ha)).
  destruct (ao_obj _ _ _ Ha) as (o & Ho & _). unfold change_balance. destruct (first_value_spec f p ACCOUNT_BALANCE o Hw Ho) as (f' & E & He).
  rewrite (se_bind_ok _ _ _ _ _ E), Hr. by exists f'.
Qed.
Lemma pays_anyway f from to pf pt bt v : objs_wf (f_objs f) -> account_open f from pf -> frows s f pf ACCOUNT_BALANCE = [] ->
  account_open f to pt -> u256_at f pt ACCOUNT_BALANCE bt -> 0 < v -> bt + v < 2 ^ 256 ->
  exists f', transferBalance (Some s) start from to v f = (f', Ok tt) /\ objs_wf (f_objs f') /\ account_open f' to pt /\ u256_at f' pt ACCOUNT_BALANCE (bt + v).
Proof.
  intros Hw Of Hr Ot Bt Hv Hov. destruct (sub_skipped f from pf v Hw Of Hr) as (f1 & E1 & He1).
  unfold transferBalance. rewrite (se_bind_ok _ _ _ _ _ E1). unfold addBalance. rewrite (proj2 (Z.eqb_neq _ _)) by lia.
  pose proof (ef_wf _ _ _ _ He1 Hw) as Hw1. pose proof (open_effect _ _ _ _ _ He1 Ot) as Ot1. rewrite (se_bind_ok _ _ _ _ _ (getTable_open f1 to pt Ot1)).
  assert (Bt1 : u256_at f1 pt ACCOUNT_BALANCE bt) by (split; [rewrite (value_unchanged _ _ _ _ He1); apply Bt | apply Bt]).
  destruct (change_spec f1 to pt ACCOUNT_BALANCE bt (fun b => Ok (wrap 256 (b + v))) (bt + v)) as (f2 & E2 & He2); try done.
  { rewrite wrap_small by (destruct Bt; lia). done. }
  exists f2. split_and!; [done | by apply (ef_wf _ _ _ _ He2) | by apply (open_effect _ _ _ _ _ He2) |]. split; [by apply (value_update _ _ _ _ _ _ He2 (proj1 Bt1)) | destruct Bt; lia].
Qed.

(** ** Storage *)
Lemma storage_written f a p loc v : objs_wf (f_objs f) -> account_open f a p -> 0 <= v < 2 ^ 256 ->
  exists f', setStorage (Some s) a loc v f = (f', Ok tt) /\ objs_wf (f_objs f') /\ account_open f' a p /\ u256_at f' p (dec loc) v /\
    forall q k, (q, k) <> (p, dec loc) -> frows s f' q k = frows s f q k.
Proof.
  intros Hw Ha Hv. unfold setStorage. rewrite (se_bind_ok _ _ _ _ _ (getTable_open f a p Ha)).
  destruct (ao_obj _ _ _ Ha) as (o & Ho & _). destruct (t_select_spec s Hs f p (dec loc) o Hw Ho) as (f1 & l & E & He & Hl).
  rewrite (se_bind_ok _ _ _ _ _ E). assert (Hw1 : objs_wf (f_objs f1)) by by apply (ef_wf _ _ _ _ He).
  pose proof (open_effect _ _ _ _ _ He Ha) as Ha1.
  assert (Hfin : forall f2 g, effect s f1 f2 (at_key p (dec loc) g) -> value_at f2 p (dec loc) = Some (dec v) ->
    objs_wf (f_objs f2) /\ account_open f2 a p /\ u256_at f2 p (dec loc) v /\ forall q k, (q, k) <> (p, dec loc) -> frows s f2 q k = frows s f q k).
  { intros f2 g He2 Hval. split; [by apply (ef_wf _ _ _ _ He2) |]. split; [by apply (open_effect _ _ _ _ _ He2) |]. split; [by split |].
    intros q k Hqk. rewrite (ef_rows _ _ _ _ He2), (ef_rows _ _ _ _ He). unfold at_key. case_bool_decide; [| done]. case_bool_decide; [congruence | done]. }
  destruct l as [|e l].
  - destruct (insert_value_spec f1 a p (dec loc) (dec v) Hw1 Ha1) as (f2 & E2 & He2). exists f2. split; [done |]. apply (Hfin f2 _ He2).
    unfold value_at. rewrite (ef_rows _ _ _ _ He2), (ef_rows _ _ _ _ He). unfold at_key. rewrite !bool_decide_true by done. cbn [andb]. unfold unchanged.
    rewrite <- Hl. reflexivity.
  - destruct (account_update f1 a p (dec loc) (key_value_row (dec loc) (dec v)) (dec v) Hw1 Ha1) as (f2 & n & E2 & He2); [right; by eexists |].
    exists f2. rewrite (se_bind_ok _ _ _ _ _ E2). split; [done |]. apply (Hfin f2 _ He2).
    apply (value_update _ _ _ _ _ (row_field STORAGE_VALUE (core e)) He2). unfold value_at. rewrite (ef_rows _ _ _ _ He). unfold unchanged. by rewrite <- Hl.
Qed.
End Accounts.

Lemma account_table_inj a b : bytes_ok a -> bytes_ok b -> account_table a = account_table b -> a = b.
Proof. intros Ha Hb E. unfold account_table in E. apply app_inv_head, app_inv_tail in E. by apply toHex_inj. Qed.
Lemma open_distinct f a b p q : factory_ok f -> bytes_ok a -> bytes_ok b -> a <> b -> account_open f a p -> account_open f b q -> p <> q.
Proof.
  intros Hf Ha Hb Hne [H1 _] [H2 _] <-. apply Hne, account_table_inj; [done | done |]. by apply (fo_inj _ Hf _ _ p).
Qed.

(** C34: a transfer between two different accounts whose tables are open and have a
    balance row, of no more than the sender has and such that the receiver's balance
    stays below 2^256, takes the value from the one and gives it to the other, and
    changes no other row of any table: the sum of the balances is conserved.  An
    account without a balance row, as the rollback of its creation leaves it, is
    outside this: what it receives is lost ([balance_of_rolled_back_account_lost])
    and what it sends is not taken from it ([rowless_sender_pays]). *)
Theorem transfer_conserves `{Crypto} db s start f from to pf pt bf bt v :
  (forall h n, StorageOk db (s h n)) -> factory_ok f -> bytes_ok from -> bytes_ok to -> from <> to ->
  account_open f from pf -> account_open f to pt -> u256_at s f pf ACCOUNT_BALANCE bf -> u256_at s f pt ACCOUNT_BALANCE bt ->
  0 <= v <= bf -> bt + v < 2 ^ 256 ->
  exists f', transferBalance (Some s) start from to v f = (f', Ok tt) /\
    (exists f1, balance (Some s) from f' = (f1, Ok (bf - v))) /\ (exists f2, balance (Some s) to f' = (f2, Ok (bt + v))) /\
    forall q k, (q, k) <> (pf, ACCOUNT_BALANCE) -> (q, k) <> (pt, ACCOUNT_BALANCE) -> frows s f' q k = frows s f q k.
Proof.
  intros Hs Hf Hb1 Hb2 Hne Of Ot Bf Bt Hv Hov.
  pose proof (open_distinct f from to pf pt Hf Hb1 Hb2 Hne Of Ot) as Hp.
  destruct (transfer_ok s Hs start f from to pf pt bf bt v) as (f' & E & Hw & Of' & Ot' & Bf' & Bt' & Hq); try done; [apply Hf |].
  exists f'. split; [done |]. destruct (read_spec s Hs f' from pf ACCOUNT_BALANCE (bf - v) 0 Hw Of' Bf') as (f1 & E1 & _).
  destruct (read_spec s Hs f' to pt ACCOUNT_BALANCE (bt + v) 0 Hw Ot' Bt') as (f2 & E2 & _). split; [by exists f1 |]. split; [by exists f2 | done].
Qed.

(** C35: a transfer of more than the balance, from an account whose table is open and
    has a balance row, throws [NotEnoughCash] and no row of any table changes.  From
    an account without a balance row, whose balance is 0, it would succeed
    ([rowless_sender_pays]). *)
Theorem transfer_not_enough `{Crypto} db s start f from to pf bf v :
  (forall h n, StorageOk db (s h n)) -> factory_ok f -> account_open f from pf -> u256_at s f pf ACCOUNT_BALANCE bf -> bf < v ->
  exists f', transferBalance (Some s) start from to v f = (f', Throw NotEnoughCash) /\ forall q k, frows s f' q k = frows s f q k.
Proof.
  intros Hs Hf Of Bf Hv. destruct (transfer_poor s Hs start f from to pf bf v) as (f' & E & He); try done; [apply Hf |].
  exists f'. split; [done |]. apply (ef_rows _ _ _ _ He).
Qed.

(** What is written to a storage slot of an open account is read back, and
    no other row changes. *)
Theorem storage_round_trip `{Crypto} db s f a p loc v :
  (forall h n, StorageOk db (s h n)) -> factory_ok f -> account_open f a p -> 0 <= v < 2 ^ 256 ->
  exists f', setStorage (Some s) a loc v f = (f', Ok tt) /\ (exists f1, ss_storage (Some s) a loc f' = (f1, Ok v)) /\
    forall q k, (q, k) <> (p, dec loc) -> frows s f' q k = frows s f q k.
Proof.
  intros Hs Hf Ha Hv. destruct (storage_written s Hs f a p loc v) as (f' & E & Hw & Ha' & Hu & Hq); try done; [apply Hf |].
  exists f'. split; [done |]. split; [| done]. destruct (read_spec s Hs f' a p (dec loc) v 0 Hw Ha' Hu) as (f1 & E1 & _). by exists f1.
Qed.

(** Once an account has a table without a balance row, which is what the
    rollback of its creation leaves, what is added to it is lost. *)
Theorem balance_of_rolled_back_account_lost `{Crypto} db s start f a p n :
  (forall h n, StorageOk db (s h n)) -> factory_ok f -> account_open f a p -> frows s f p ACCOUNT_BALANCE = [] ->
  exists f', addBalance (Some s) start a n f = (f', Ok tt) /\ forall q k, frows s f' q k = frows s f q k.
Proof.
  intros Hs Hf Ha Hr. destruct (add_lost s Hs start f a p n) as (f' & E & He); [apply Hf | done | done |].
  exists f'. split; [done |]. apply (ef_rows _ _ _ _ He).
Qed.

(** Such an account, whose balance is 0, pays any amount: nothing is taken from it,
    and the receiver gets the value. *)
Theorem rowless_sender_pays `{Crypto} db s start f from to pf pt bt v :
  (forall h n, StorageOk db (s h n)) -> factory_ok f -> account_open f from pf -> frows s f pf ACCOUNT_BALANCE = [] ->
  account_open f to pt -> u256_at s f pt ACCOUNT_BALANCE bt -> 0 < v -> bt + v < 2 ^ 256 ->
  exists f', transferBalance (Some s) start from to v f = (f', Ok tt) /\ (exists f2, balance (Some s) to f' = (f2, Ok (bt + v))).
Proof.
  intros Hs Hf Of Hr Ot Bt Hv Hov. destruct (pays_anyway s Hs start f from to pf pt bt v (fo_wf _ Hf) Of Hr Ot Bt Hv Hov) as (f' & E & Hw' & Ot' & Bt').
  exists f'. split; [done |]. destruct (read_spec s Hs f' to pt ACCOUNT_BALANCE (bt + v) 0 Hw' Ot' Bt') as (f2 & E2 & _). by exists f2.
Qed.

(** ** Examples *)
Definition empty_storage : h256 -> Z -> TableInfo -> chars -> Condition -> result (option (list Entry)) := fun _ _ _ _ _ => Ok (Some []).
Lemma empty_storage_ok h n : StorageOk (fun _ => None) (empty_storage h n).
Proof. split; [intros; by exists [] | intros r i k c l [= <-] [= <-]; split; constructor | intros i k c l [= <-]; constructor]. Qed.
Definition alice : Address := replicate 20 17.
Definition bob : Address := replicate 20 34.
#[local] Existing Instance toy_crypto.
Definition two_accounts : Factory :=
  fst ((createAccount (Some empty_storage) alice 0 100;; createAccount (Some empty_storage) bob 0 5) newFactory).

Lemma empty_remote h n : remote_ok (fun _ => None) ((fun s => s h n) <$> Some empty_storage).
Proof. apply (empty_storage_ok h n). Qed.
Lemma createAccount_grows a n v : se_keeps (grows (fun _ => None)) (createAccount (Some empty_storage) a n v).
Proof.
  apply se_keeps_bind; [apply _ | apply createTable_grows, empty_remote |]. intros [p|]; [| apply se_keeps_ret; apply _].
  repeat (apply se_keeps_bind; [apply _ | apply se_keeps_bind; [apply _ | apply t_insert_grows | intros; apply se_keeps_ret; apply _] | intros _]).
  apply se_keeps_bind; [apply _ | apply t_insert_grows | intros; apply se_keeps_ret; apply _].
Qed.
Lemma two_accounts_ok : factory_ok two_accounts.
Proof.
  apply (se_keeps_bind (grows (fun _ => None)) _ (fun _ => createAccount (Some empty_storage) bob 0 5)
    (createAccount_grows alice 0 100) (fun _ => createAccount_grows bob 0 5) newFactory newFactory_ok).
Qed.

Definition account_openb (f : Factory) (a : Address) (p : nat) : bool :=
  bool_decide (f_names f !! account_table a = Some p) &&
  match f_objs f !! p with
  | Some o => let i := mt_info (ob_table o) in
      bool_decide (ti_key i = STORAGE_KEY) && bool_decide (STORAGE_KEY ∈ ti_fields i) && bool_decide (STORAGE_VALUE ∈ ti_fields i) && checkAuthority ZeroAddress i
  | None => false
  end.
Lemma account_openb_ok f a p : account_openb f a p = true -> account_open f a p.
Proof.
  unfold account_openb. intros [H1 H2]%andb_true_iff. apply bool_decide_eq_true in H1. split; [done |].
  destruct (f_objs f !! p) as [o|]; [| done]. exists o. cbv zeta in H2. bool_to_prop. done.
Qed.
Lemma u256_check f p k n : bool_decide (value_at empty_storage f p k = Some (dec n)) = true -> 0 <= n < 2 ^ 256 -> u256_at empty_storage f p k n.
Proof. intros H1%bool_decide_eq_true H2. by split. Qed.
Lemma bytes_check b : forallb (fun x => (0 <=? x) && (x <? 256)) b = true -> bytes_ok b.
Proof. intros Hb. apply Forall_forall. intros x Hx. rewrite forallb_forall in Hb. apply list_elem_of_In in Hx. specialize (Hb x Hx). unfold is_byte. bool_to_prop. lia. Qed.

Ltac by_check := vm_compute; reflexivity.

Lemma transfer_conserves_witness :
  exists f', transferBalance (Some empty_storage) 0 alice bob 30 two_accounts = (f', Ok tt) /\
    (exists f1, balance (Some empty_storage) alice f' = (f1, Ok (100 - 30))) /\ (exists f2, balance (Some empty_storage) bob f' = (f2, Ok (5 + 30))) /\
    forall q k, (q, k) <> (1%nat, ACCOUNT_BALANCE) -> (q, k) <> (2%nat, ACCOUNT_BALANCE) -> frows empty_storage f' q k = frows empty_storage two_accounts q k.
Proof.
  apply (transfer_conserves (fun _ => None) empty_storage 0 two_accounts alice bob 1 2 100 5 30).
  - apply empty_storage_ok.
  - apply two_accounts_ok.
  - apply bytes_check. by_check.
  - apply bytes_check. by_check.
  - done.
  - apply account_openb_ok. by_check.
  - apply account_openb_ok. by_check.
  - apply u256_check; [by_check | lia].
  - apply u256_check; [by_check | lia].
  - lia.
  - lia.
Defined.

Lemma transfer_not_enough_witness :
  exists f', transferBalance (Some empty_storage) 0 alice bob 101 two_accounts = (f', Throw NotEnoughCash) /\
    forall q k, frows empty_storage f' q k = frows empty_storage two_accounts q k.
Proof.
  apply (transfer_not_enough (fun _ => None) empty_storage 0 two_accounts alice bob 1 100 101);
    [apply empty_storage_ok | apply two_accounts_ok | apply account_openb_ok; by_check | apply u256_check; [by_check | lia] | lia].
Defined.

Lemma storage_round_trip_witness :
  exists f', setStorage (Some empty_storage) alice 7 9 two_accounts = (f', Ok tt) /\
    (exists f1, ss_storage (Some empty_storage) alice 7 f' = (f1, Ok 9)) /\
    forall q k, (q, k) <> (1%nat, dec 7) -> frows empty_storage f' q k = frows empty_storage two_accounts q k.
Proof.
  apply (storage_round_trip (fun _ => None) empty_storage two_accounts alice 1 7 9);
    [apply empty_storage_ok | apply two_accounts_ok | apply account_openb_ok; by_check | lia].
Defined.

(** Bob's account, and Alice's rolled back after it was made: her balance is 0, and
    she pays 30. *)
Definition rolled_back_alice : Factory :=
  let f := fst (createAccount (Some empty_storage) bob 0 5 newFactory) in
  f_rollback (f_savepoint f) (fst (createAccount (Some empty_storage) alice 0 100 f)).
Example rolled_back_alice_pays :
  snd (balance (Some empty_storage) alice rolled_back_alice) = Ok 0 /\
  let '(f, r) := transferBalance (Some empty_storage) 0 alice bob 30 rolled_back_alice in
  r = Ok tt /\ snd (balance (Some empty_storage) alice f) = Ok 0 /\ snd (balance (Some empty_storage) bob f) = Ok 35.
Proof. vm_compute. split_and!; reflexivity. Qed.

(** The accounts, rolled back to before they were made. *)
Definition rolled_back : Factory := f_rollback 0 two_accounts.
Lemma balance_of_rolled_back_account_lost_witness :
  exists f', addBalance (Some empty_storage) 0 alice 100 rolled_back = (f', Ok tt) /\
    forall q k, frows empty_storage f' q k = frows empty_storage rolled_back q k.
Proof.
  apply (balance_of_rolled_back_account_lost (fun _ => None) empty_storage 0 rolled_back alice 1 100).
  - apply empty_storage_ok.
  - apply rollback_ok, two_accounts_ok.
  - apply account_openb_ok. by_check.
  - by_check.
Defined.
