(* ===== verification/ABIParser.v ===== *)
(** * Signatures of contract functions

    [libethcore/ABIParser.h] and [.cpp]: the types of the parameters of a
    function, read from its signature as in [transfer(string,string,uint256)].
    A signature that is printed from a name and types is read back
    ([signature_read_back]). *)

From S2P Require Import Prelude CommonData Text.

Inductive ABI_ELEMENTARY_TYPE : Set := INVALID | BOOL | INT | UINT | BYTESN | ADDR | BYTES | STRING | FIXED | UNFIXED.
#[export] Instance ABI_ELEMENTARY_TYPE_eq_dec : EqDecision ABI_ELEMENTARY_TYPE.
Proof. solve_decision. Defined.

Definition widths (s : string) (step n : nat) : list chars := map (fun i => str s ++ dec (Z.of_nat (step * S i))) (seq 0 n).
Definition setUint : list chars := Eval vm_compute in str "uint" :: widths "uint" 8 32.
Definition setInt : list chars := Eval vm_compute in str "int" :: widths "int" 8 32.
Definition setByteN : list chars := Eval vm_compute in widths "bytes" 1 32.
Definition strBool : chars := Eval vm_compute in str "bool".
Definition strBytes : chars := Eval vm_compute in str "bytes".
Definition strString : chars := Eval vm_compute in str "string".
Definition strAddr : chars := Eval vm_compute in str "address".

(** ** Strings *)
Fixpoint trim_left (s : chars) : chars := match s with c :: r => if c =? 32 then trim_left r else s | [] => [] end.
Definition trim (s : chars) : chars := rev (trim_left (rev (trim_left s))).
Fixpoint find_char (c : Z) (s : chars) : option nat :=
  match s with [] => None | x :: r => if x =? c then Some O else S <$> find_char c r end.
(** [strtoul] of digits; it stops at the largest number. *)
Definition strtoul (s : chars) : Z := Z.min (dec_val s) UINT64_MAX.

(** ** [ABIInType] *)
Definition getEnumType (s : chars) : ABI_ELEMENTARY_TYPE :=
  if bool_decide (s = strBool) then BOOL
  else if bool_decide (s = strAddr) then ADDR
  else if bool_decide (s = strString) then STRING
  else if bool_decide (s = strBytes) then BYTES
  else if bool_decide (s ∈ setUint) then UINT
  else if bool_decide (s ∈ setInt) then INT
  else if bool_decide (s ∈ setByteN) then BYTESN
  else INVALID.

Record ABIInType := mkInType { aet : ABI_ELEMENTARY_TYPE; strEleType : chars; strType : chars; extents : list Z }.
Definition clearType : ABIInType := mkInType INVALID [] [] [].

(** The loop of [reset], on what follows [leftBracket]. *)
Fixpoint extents_of (fuel : nat) (s : chars) : option (list Z) :=
  match s, fuel with
  | [], _ => Some []
  | _, O => None
  | _, S fuel =>
      match find_char 91 s, find_char 93 s with
      | Some leftBracket, Some rightBracket =>
          if (rightBracket <=? leftBracket)%nat then None
          else
            let digit := trim (take (rightBracket - leftBracket - 1) (drop (S leftBracket) s)) in
            if forallb is_digit digit then
              r ← extents_of fuel (drop (S rightBracket) s);
              Some ((if bool_decide (digit = []) then 0 else strtoul digit) :: r)
            else None
      | _, _ => None
      end
  end.

(** A type that is not valid leaves the object clear. *)
Definition type_reset (s : chars) : bool * ABIInType :=
  let ty := trim s in
  let first := default (length ty) (find_char 91 ty) in
  let ele := trim (take first ty) in
  let t := getEnumType ele in
  if bool_decide (t = INVALID) then (false, clearType)
  else
    match extents_of (length ty) (drop first ty) with
    | None => (false, clearType)
    | Some r => (true, mkInType t ele ty r)
    end.

Definition rank (t : ABIInType) : nat := length (extents t).
Definition extent (i : nat) (t : ABIInType) : Z := if (rank t <? i)%nat then 0 else nth (i - 1) (extents t) 0.
Definition removeExtent (t : ABIInType) : bool * ABIInType :=
  if (0 <? rank t)%nat then (true, mkInType (aet t) (strEleType t) (strType t) (take (rank t - 1) (extents t))) else (false, t).
Definition type_dynamic (t : ABIInType) : bool :=
  bool_decide (aet t = STRING) || bool_decide (aet t = BYTES) || existsb (fun i => extent (S i) t =? 0) (seq 0 (rank t)).

(** ** [ABIFunc] *)
Record ABIFunc := mkFunc { strFuncName : chars; strFuncSignature : chars; allParamsType : list ABIInType }.
Definition newFunc : ABIFunc := mkFunc [] [] [].
Definition getParamsType (f : ABIFunc) : list chars := map strType (allParamsType f).

(** The loop of [parser]: the signature so far, and the types. *)
Fixpoint params (types : list chars) (sig : chars) (acc : list ABIInType) : bool * chars * list ABIInType :=
  match types with
  | [] => (true, sig, acc)
  | t :: types' =>
      let ty := trim t in
      if bool_decide (ty = []) then params types' sig acc
      else
        let '(ok, at_) := type_reset ty in
        if negb ok then (false, sig ++ ty ++ [44], acc) else params types' (sig ++ ty ++ [44]) (acc ++ [at_])
  end.

(** [parser]; the types read before a bad one stay. *)
Definition parser (sig : chars) (f : ABIFunc) : bool * ABIFunc :=
  match find_char 40 sig, find_char 41 sig with
  | Some i0, Some i1 =>
      if (i1 <=? i0)%nat then (false, f)
      else
        let name := trim (take i0 sig) in
        let '(ok, s, ts) := params (split_comma (take (i1 - i0 - 1) (drop (S i0) sig))) (name ++ [40]) (allParamsType f) in
        if negb ok then (false, mkFunc (strFuncName f) (strFuncSignature f) ts)
        else (true, mkFunc name (if bool_decide (last s = Some 44) then removelast s ++ [41] else s ++ [41]) ts)
  | _, _ => (false, f)
  end.

(** ** Printing *)
Definition print_extent (d : Z) : chars := [91] ++ (if d =? 0 then [] else dec d) ++ [93].
Definition print_type (ele : chars) (dims : list Z) : chars := ele ++ concat (map print_extent dims).
Fixpoint commas (l : list chars) : chars := match l with [] => [] | [x] => x | x :: l' => x ++ [44] ++ commas l' end.
Definition signature (name : chars) (types : list chars) : chars := name ++ [40] ++ commas types ++ [41].

(** ** Searching *)
Lemma find_char_skip c a b : c ∉ a -> find_char c (a ++ c :: b) = Some (length a).
Proof.
  induction a as [|x a IH]; intros Ha; cbn; [by rewrite Z.eqb_refl |]. apply not_elem_of_cons in Ha as [Hx Ha].
  rewrite (proj2 (Z.eqb_neq _ _)) by congruence. by rewrite IH.
Qed.
Lemma find_char_none c a : c ∉ a -> find_char c a = None.
Proof.
  induction a as [|x a IH]; intros Ha; cbn; [done |]. apply not_elem_of_cons in Ha as [Hx Ha].
  rewrite (proj2 (Z.eqb_neq _ _)) by congruence. by rewrite IH.
Qed.
Lemma trim_left_id s : 32 ∉ s -> trim_left s = s.
Proof. destruct s as [|c s]; [done |]. intros [Hc _]%not_elem_of_cons. cbn. by rewrite (proj2 (Z.eqb_neq _ _)) by congruence. Qed.
Lemma trim_id s : 32 ∉ s -> trim s = s.
Proof.
  intros Hs. unfold trim. rewrite (trim_left_id s) by done. rewrite trim_left_id by (intros Hin; apply Hs; by apply list_elem_of_In, in_rev, list_elem_of_In).
  apply rev_involutive.
Qed.

Lemma split_at_plain sep s cur : sep ∉ s -> split_at_char sep s cur = [cur ++ s].
Proof.
  revert cur. induction s as [|c s IH]; intros cur Hs; cbn; [by rewrite app_nil_r |]. apply not_elem_of_cons in Hs as [Hc Hs].
  rewrite (proj2 (Z.eqb_neq _ _)) by congruence. rewrite IH by done. by rewrite <- app_assoc.
Qed.
Lemma split_at_sep sep a b cur : sep ∉ a -> split_at_char sep (a ++ sep :: b) cur = (cur ++ a) :: split_at_char sep b [].
Proof.
  revert cur. induction a as [|c a IH]; intros cur Hs; cbn; [by rewrite Z.eqb_refl, app_nil_r |]. apply not_elem_of_cons in Hs as [Hc Hs].
  rewrite (proj2 (Z.eqb_neq _ _)) by congruence. rewrite IH by done. by rewrite <- app_assoc.
Qed.
Lemma split_commas l : l <> [] -> Forall (fun x => 44 ∉ x) l -> split_comma (commas l) = l.
Proof.
  intros Hne Hl. unfold split_comma. induction Hl as [|x l Hx Hl IH]; [done |]. destruct l as [|y l].
  - cbn [commas]. by rewrite split_at_plain.
  - change (commas (x :: y :: l)) with (x ++ 44 :: commas (y :: l)). rewrite split_at_sep by done. by rewrite IH.
Qed.

(** ** Types *)
(** The characters of elementary types, and of types. *)
Definition plain (c : Z) : Prop := is_digit c = true \/ 97 <= c <= 122.
Definition type_char (c : Z) : Prop := plain c \/ c = 91 \/ c = 93.
Definition elementary : list chars := [strBool; strAddr; strString; strBytes] ++ setUint ++ setInt ++ setByteN.

Lemma elementary_valid s : getEnumType s <> INVALID -> s ∈ elementary.
Proof.
  unfold getEnumType, elementary. intros Hv. rewrite !elem_of_app, !elem_of_cons.
  repeat case_bool_decide; tauto.
Qed.
Lemma elementary_plain s : getEnumType s <> INVALID -> s <> [] /\ Forall plain s.
Proof.
  intros Hs%elementary_valid.
  assert (forallb (fun s => negb (bool_decide (s = [])) && forallb (fun c => is_digit c || ((97 <=? c) && (c <=? 122))) s) elementary = true) as Hall by by vm_compute.
  rewrite forallb_forall in Hall. apply list_elem_of_In, Hall in Hs. apply andb_true_iff in Hs as [Hn Hp].
  split; [by apply negb_true_iff, bool_decide_eq_false in Hn |].
  apply Forall_forall. intros c Hc. rewrite forallb_forall in Hp. apply list_elem_of_In, Hp in Hc.
  apply orb_true_iff in Hc as [Hc|Hc]; [by left | right]. bool_to_prop. lia.
Qed.
Lemma plain_not c s : ~ plain c -> Forall plain s -> c ∉ s.
Proof. intros Hc Hs Hin. rewrite Forall_forall in Hs. by apply Hc, Hs. Qed.
Lemma digits_plain n : 0 <= n -> Forall plain (dec n).
Proof.
  intros Hn. pose proof (dec_digits n Hn) as Hd. rewrite forallb_forall in Hd. apply Forall_forall. intros c Hc. left. by apply Hd, list_elem_of_In.
Qed.
Ltac not_plain := let Hx := fresh in unfold plain, is_digit; intros [Hx|Hx]; bool_to_prop; lia.

(** What is between the brackets. *)
Lemma extents_read dims fuel : Forall (fun d => 0 <= d < 2 ^ 64) dims -> (length (concat (map print_extent dims)) <= fuel)%nat ->
  extents_of fuel (concat (map print_extent dims)) = Some dims.
Proof.
  intros Hd. revert fuel. induction Hd as [|d dims Hd Hds IH]; intros fuel Hf; [by destruct fuel |].
  set (ds := if d =? 0 then [] else dec d). set (rest := concat (map print_extent dims)) in *.
  assert (concat (map print_extent (d :: dims)) = 91 :: ds ++ 93 :: rest) as E by (cbn; by rewrite <- app_assoc).
  rewrite E in *. destruct fuel as [|fuel]; [cbn in Hf; lia |].
  assert (Forall plain ds) as Hp by (unfold ds; destruct (d =? 0); [constructor | apply digits_plain; lia]).
  cbn [extents_of]. change (find_char 91 (91 :: ds ++ 93 :: rest)) with (Some O).
  assert (find_char 93 (91 :: ds ++ 93 :: rest) = Some (S (length ds))) as ->.
  { change (91 :: ds ++ 93 :: rest) with ((91 :: ds) ++ 93 :: rest). rewrite find_char_skip; [done |].
    apply not_elem_of_cons. split; [done |]. apply plain_not; [not_plain | done]. }
  cbn [Nat.leb]. replace (S (length ds) - 0 - 1)%nat with (length ds) by lia. cbn [drop].
  rewrite drop_0, take_app_length. rewrite trim_id by (apply plain_not; [not_plain | done]).
  assert (forallb is_digit ds = true) as ->.
  { unfold ds. destruct (d =? 0); [done | apply dec_digits; lia]. }
  replace (drop (S (length ds)) (ds ++ 93 :: rest)) with rest.
  2: { rewrite drop_app_ge by lia. by replace (S (length ds) - length ds)%nat with 1%nat by lia. }
  rewrite IH by (cbn in Hf; rewrite length_app in Hf; cbn in Hf; lia). cbn. f_equal. f_equal. unfold ds.
  destruct (Z.eqb_spec d 0) as [->|Hz]; [done |]. rewrite bool_decide_eq_false_2 by (apply dec_nonempty; lia).
  unfold strtoul. rewrite dec_val_dec by lia. unfold UINT64_MAX. lia.
Qed.

Lemma extents_chars dims : Forall (fun d => 0 <= d < 2 ^ 64) dims -> Forall type_char (concat (map print_extent dims)).
Proof.
  intros Hd. apply Forall_concat, Forall_map. eapply Forall_impl; [exact Hd |]. intros d Hr. cbv beta in Hr. unfold print_extent.
  apply Forall_app. split; [by repeat constructor; right; left |]. apply Forall_app. split; [| by repeat constructor; right; right].
  destruct (d =? 0); [constructor |]. eapply Forall_impl; [apply digits_plain; lia |]. by left.
Qed.
Lemma print_type_chars ele dims : getEnumType ele <> INVALID -> Forall (fun d => 0 <= d < 2 ^ 64) dims ->
  print_type ele dims <> [] /\ Forall type_char (print_type ele dims).
Proof.
  intros [Hn Hp]%elementary_plain Hd. split; [unfold print_type; by destruct ele |]. apply Forall_app. split; [| by apply extents_chars].
  eapply Forall_impl; [exact Hp |]. by left.
Qed.
Lemma type_char_not c s : ~ plain c -> c <> 91 -> c <> 93 -> Forall type_char s -> c ∉ s.
Proof. intros Hc H1 H2 Hs Hin. rewrite Forall_forall in Hs. destruct (Hs c Hin) as [|[|]]; tauto. Qed.

Lemma type_reset_print ele dims : getEnumType ele <> INVALID -> Forall (fun d => 0 <= d < 2 ^ 64) dims ->
  type_reset (print_type ele dims) = (true, mkInType (getEnumType ele) ele (print_type ele dims) dims).
Proof.
  intros Hv Hd. destruct (print_type_chars ele dims Hv Hd) as [_ Hc]. destruct (elementary_plain ele Hv) as [_ Hp].
  unfold type_reset. rewrite (trim_id (print_type ele dims)) by (apply type_char_not; [not_plain | lia | lia | done]).
  assert (default (length (print_type ele dims)) (find_char 91 (print_type ele dims)) = length ele) as ->.
  { unfold print_type. destruct dims as [|d dims].
    - cbn. rewrite app_nil_r, find_char_none; [done |]. apply plain_not; [not_plain | done].
    - cbn [map concat]. change (print_extent d) with (91 :: (if d =? 0 then [] else dec d) ++ [93]). cbn [app]. rewrite find_char_skip; [done |]. apply plain_not; [not_plain | done]. }
  unfold print_type. rewrite take_app_length, drop_app_length. rewrite trim_id by (apply plain_not; [not_plain | done]).
  rewrite bool_decide_eq_false_2 by done. rewrite extents_read; [done | done |]. rewrite length_app. lia.
Qed.

(** ** Signatures *)
Definition type_ok (t : chars * list Z) : Prop := getEnumType (fst t) <> INVALID /\ Forall (fun d => 0 <= d < 2 ^ 64) (snd t).
Definition type_of (t : chars * list Z) : ABIInType := mkInType (getEnumType (fst t)) (fst t) (print_type (fst t) (snd t)) (snd t).
Definition printed (t : chars * list Z) : chars := print_type (fst t) (snd t).

Lemma params_read ts sig acc : Forall type_ok ts ->
  params (map printed ts) sig acc = (true, sig ++ concat (map (fun t => printed t ++ [44]) ts), acc ++ map type_of ts).
Proof.
  intros Ht. revert sig acc. induction Ht as [|t ts [Hv Hd] Ht IH]; intros sig acc; cbn [map concat params]; [by rewrite !app_nil_r |].
  destruct (print_type_chars _ _ Hv Hd) as [Hn Hc]. fold (printed t) in Hn, Hc. rewrite (trim_id (printed t)) by (apply type_char_not; [not_plain | lia | lia | done]).
  rewrite bool_decide_eq_false_2 by done. unfold printed at 1. rewrite type_reset_print by done. cbn [negb]. rewrite IH. by rewrite <- !app_assoc.
Qed.

Lemma ends_in_comma (ts : list chars) : ts <> [] -> concat (map (fun x => x ++ [44]) ts) = commas ts ++ [44].
Proof.
  induction ts as [|x ts IH]; [done |]. intros _. destruct ts as [|y ts]; [cbn; by rewrite app_nil_r |].
  cbn [map concat] in *. rewrite IH by done. cbn [commas]. by rewrite <- !app_assoc.
Qed.

Lemma commas_chars c ts : c <> 44 -> Forall (fun x => c ∉ x) ts -> c ∉ commas ts.
Proof.
  intros Hc Ht. induction Ht as [|x ts Hx Ht IH]; [apply not_elem_of_nil |]. destruct ts as [|y ts]; [done |].
  change (commas (x :: y :: ts)) with (x ++ 44 :: commas (y :: ts)). rewrite elem_of_app, elem_of_cons. naive_solver.
Qed.

(** A signature printed from a name and the types of its parameters is read
    back: the name, the types with their extents, and the same signature. *)
Theorem signature_read_back name ts : 32 ∉ name -> 40 ∉ name -> 41 ∉ name -> Forall type_ok ts ->
  parser (signature name (map printed ts)) newFunc = (true, mkFunc name (signature name (map printed ts)) (map type_of ts)).
Proof.
  intros N1 N2 N3 Ht.
  assert (forall c, ~ plain c -> c <> 91 -> c <> 93 -> Forall (fun x => c ∉ x) (map printed ts)) as Hno.
  { intros c H1 H2 H3. apply Forall_map. eapply Forall_impl; [exact Ht |]. intros t [Hv Hd]. apply type_char_not; try done. by apply print_type_chars. }
  unfold parser, signature at 1 2. cbn [app]. rewrite find_char_skip by done.
  assert (find_char 41 (name ++ 40 :: commas (map printed ts) ++ [41]) = Some (length name + S (length (commas (map printed ts))))%nat) as ->.
  { rewrite cons_middle, !app_assoc, find_char_skip, !length_app; [cbn; f_equal; lia |]. rewrite !elem_of_app, elem_of_cons.
    intros [[?|[?|?%not_elem_of_nil]]|Hin]; try done. revert Hin. apply commas_chars; [done |]. apply Hno; [not_plain | lia | lia]. }
  rewrite (proj2 (Nat.leb_gt _ _)) by lia. cbn [signature]. unfold signature. rewrite take_app_length.
  rewrite trim_id by done. replace (S (length name)) with (length name + 1)%nat by lia. rewrite drop_app_add. cbn [app drop].
  replace (length name + S (length (commas (map printed ts))) - length name - 1)%nat with (length (commas (map printed ts))) by lia.
  rewrite drop_0, take_app_length. destruct ts as [|t ts].
  - cbn. rewrite last_snoc. cbn. by rewrite <- app_assoc.
  - rewrite split_commas; [| done | apply Hno; [not_plain | lia | lia]]. rewrite params_read by done. cbn [negb allParamsType newFunc app].
    assert (concat (map (fun t => printed t ++ [44]) (t :: ts)) = commas (map printed (t :: ts)) ++ [44]) as ->.
    { rewrite <- ends_in_comma by done. by rewrite map_map. }
    rewrite app_assoc, last_snoc. rewrite bool_decide_eq_true_2 by done. rewrite removelast_last. by rewrite <- !app_assoc.
Qed.

Lemma signature_read_back_witness :
  parser (str "transfer(string,address[2][],uint256)") newFunc =
  (true, mkFunc (str "transfer") (str "transfer(string,address[2][],uint256)")
    [mkInType STRING (str "string") (str "string") []; mkInType ADDR (str "address") (str "address[2][]") [2; 0]; mkInType UINT (str "uint256") (str "uint256") []]).
Proof.
  apply (signature_read_back (str "transfer") [(str "string", []); (str "address", [2; 0]); (str "uint256", [])]).
  1-3: by apply (bool_decide_eq_true_1 _); vm_compute.
  repeat (apply Forall_cons_2; [split; [by vm_compute | repeat (apply Forall_cons_2; [cbn; lia |]); by apply Forall_nil_2] |]). by apply Forall_nil_2.
Defined.
