(* ===== verification/Precompiled.v ===== *)
(** * Precompiled contracts: what they share

    [libblockverifier/Precompiled.h], [.cpp] and [libprecompiled/Common.*]: the
    selector and the arguments of a call, the tables of the context, and the
    encoding of error codes. *)

From S2P Require Import Prelude StateMonad CommonData Text PBFTMsg Transaction ABI StorageEntry MemoryTable TableFactory.

(** ** Error codes *)
Definition CODE_INVALID_OPENTALBLE_FAILED : Z := -51406.
Definition CODE_INVALID_BALANCE_OVERFLOW : Z := -51405.
Definition CODE_INVALID_INSUFFICIENT_BALANCE : Z := -51404.
Definition CODE_INVALID_USER_ALREADY_EXIST : Z := -51403.
Definition CODE_INVALID_USER_NOT_EXIST : Z := -51402.
Definition CODE_INVALID_AMOUNT : Z := -51401.
Definition CODE_INVALID_USER_NAME : Z := -51400.
Definition CODE_INVALID_CONFIGURATION_VALUES : Z := -51300.
Definition CODE_ADDRESS_AND_VERSION_EXIST : Z := -51200.
Definition CODE_LAST_SEALER : Z := -51101.
Definition CODE_INVALID_NODEID : Z := -51100.
Definition CODE_TABLE_AND_ADDRESS_NOT_EXIST : Z := -51001.
Definition CODE_TABLE_AND_ADDRESS_EXIST : Z := -51000.
Definition CODE_UNKNOW_FUNCTION_CALL : Z := -50101.
Definition CODE_TABLE_NOT_EXIST : Z := -50100.

Definition getErrorCodeOut (version result : Z) : bytes :=
  if (0 <? result) && (result <? 128) then abiIn [(AUint, VZ result)]
  else if version <? RC2_VERSION then abiIn [(AInt, VZ (- result))]
  else if version =? RC2_VERSION then abiIn [(AUint, VZ (- result))]
  else abiIn [(AInt, VZ result)].

(** ** The call *)

(** The selector is read through a pointer: a view of less than four bytes is
    cropped to the null view. *)
Definition getParamFunc (param : bytes) : result Z :=
  if lenZ param <? 4 then Throw UndefinedBehaviour else Ok (be_val (take 4 param)).
Definition getParamData (param : bytes) : bytes := cropped1 4 param.

Definition getFuncSelector `{Crypto} (name : chars) : Z := be_val (take 4 (sha3 name)).

Section Precompiled.
Context (storage : option (h256 -> Z -> TableInfo -> chars -> Condition -> result (option (list Entry)))).

Definition pre_openTable (name : chars) : FE (option nat) := openTable storage name true.
Definition pre_createTable (name keyField valueField : chars) (origin : Address) : FE (option nat) :=
  createTable storage name keyField valueField true origin.
(** [std::make_shared<AccessOptions>(origin)]. *)
Definition by_origin (origin : Address) : AccessOptions := mkOptions origin true.
End Precompiled.
