(* ===== verification/ParallelConfig.v ===== *)
(** * The registration of parallel functions

    [libprecompiled/ParallelConfigPrecompiled.cpp]: a contract names the functions
    whose calls may run in parallel, and how many of their first arguments are
    what they conflict on; a row per function in a table per contract.  And the
    fields of a call that [ExecutiveContext::getTxCriticals] takes from it: they
    are the texts of those arguments, with the address of the contract
    ([critical_fields_of_call]). *)

From S2P Require Import Prelude StateMonad CommonData Text PBFTMsg Transaction ABI ABIParser StorageEntry MemoryTable TableFactory StorageState Precompiled.

Definition PARA_CONFIG_TABLE_PREFIX : chars := Eval vm_compute in str "_contract_parafunc_".
Definition PARA_KEY : chars := Eval vm_compute in str "parallel".
Definition PARA_SELECTOR : chars := Eval vm_compute in str "selector".
Definition PARA_FUNC_NAME : chars := Eval vm_compute in str "functionName".
Definition PARA_CRITICAL_SIZE : chars := Eval vm_compute in str "criticalSize".
Definition PARA_CONFIG_REGISTER_METHOD_ADDR_STR_UINT : chars := Eval vm_compute in str "registerParallelFunctionInternal(address,string,uint256)".
Definition PARA_CONFIG_UNREGISTER_METHOD_ADDR_STR : chars := Eval vm_compute in str "unregisterParallelFunctionInternal(address,string)".
Definition PARA_VALUE_NAMES : chars := PARA_SELECTOR ++ [44] ++ PARA_FUNC_NAME ++ [44] ++ PARA_CRITICAL_SIZE.
Definition CODE_SUCCESS : Z := 0.

Record ParallelConfig := mkParallelConfig { functionName : chars; criticalSize : Z }.

Definition arg_address (i : nat) (vs : list ABIVal) : Address := match vs !! i with Some (VBytes b) => b | _ => ZeroAddress end.

Section Config.
Context `{Crypto} (storage : option (h256 -> Z -> TableInfo -> chars -> Condition -> result (option (list Entry)))).

Definition para_table (contractAddress : Address) : chars := PARA_CONFIG_TABLE_PREFIX ++ toHex [] contractAddress ++ [95].

Definition para_openTable (contractAddress origin : Address) (needCreate : bool) : FE (option nat) :=
  t ← openTable storage (para_table contractAddress) false;
  match t with
  | Some p => mret (Some p)
  | None => if needCreate then createTable storage (para_table contractAddress) PARA_KEY PARA_VALUE_NAMES false origin else mret None
  end.

Definition selector_is (selector : Z) : Condition := EQ PARA_SELECTOR (dec selector) newCondition.
Definition para_row (selector : Z) (name : chars) (size : Z) : gmap chars chars :=
  <[PARA_SELECTOR := dec selector]> (<[PARA_FUNC_NAME := name]> (<[PARA_CRITICAL_SIZE := toBigEndian 32 size]> ∅)).

Definition registerParallelFunction (data : bytes) (origin : Address) : FE bytes :=
  let vs := fst (abiOut data [AAddress; AString; AUint]) in
  let selector := getFuncSelector (arg_string 1 vs) in
  t ← para_openTable (arg_address 0 vs) origin true;
  match t with
  | None => mret []
  | Some p =>
      l ← t_select storage p PARA_KEY (selector_is selector);
      let r := para_row selector (arg_string 1 vs) (arg_u256 2 vs) in
      (if bool_decide (l = []) then t_insert p PARA_KEY r false (by_origin origin)
       else t_update storage p PARA_KEY r (selector_is selector) (by_origin origin));;
      mret (abiIn [(AUint, VZ CODE_SUCCESS)])
  end.

Definition unregisterParallelFunction (data : bytes) (origin : Address) : FE bytes :=
  let vs := fst (abiOut data [AAddress; AString]) in
  t ← para_openTable (arg_address 0 vs) origin true;
  match t with
  | None => mret 0
  | Some p => t_remove storage p PARA_KEY (selector_is (getFuncSelector (arg_string 1 vs))) (by_origin origin)
  end;;
  mret (abiIn [(AUint, VZ CODE_SUCCESS)]).

Definition para_call (param : bytes) (origin : Address) : FE bytes :=
  func ← se_lift (getParamFunc param);
  let data := getParamData param in
  if func =? getFuncSelector PARA_CONFIG_REGISTER_METHOD_ADDR_STR_UINT then registerParallelFunction data origin
  else if func =? getFuncSelector PARA_CONFIG_UNREGISTER_METHOD_ADDR_STR then unregisterParallelFunction data origin
  else mret [].

Definition getParallelConfig (contractAddress : Address) (selector : Z) (origin : Address) : FE (option ParallelConfig) :=
  t ← para_openTable contractAddress origin false;
  match t with
  | None => mret None
  | Some p =>
      l ← t_select storage p PARA_KEY (selector_is selector);
      match l with
      | [] => mret None
      | e :: _ => mret (Some (mkParallelConfig (getField PARA_FUNC_NAME e) (fromBigEndian (wrap 256) (getField PARA_CRITICAL_SIZE e))))
      end
  end.
End Config.

(** The end of [getTxCriticals]: the fields of a call of a registered function.
    [None] is the null pointer: the call conflicts with everything. *)
Definition config_criticals (config : ParallelConfig) (receiver : Address) (data : bytes) : result (option (list chars)) :=
  let '(isOk, af) := parser (functionName config) newFunc in
  if negb isOk then Ok None
  else
    let paramTypes := getParamsType af in
    if lenZ paramTypes <? sz (criticalSize config) then Ok None
    else
      '(res, isOk) ← abiOutByFuncSelector (cropped1 4 data) (take (Z.to_nat (sz (criticalSize config))) paramTypes) 0;
      if negb isOk then Ok None else Ok (Some (map (fun c => c ++ toHex [] receiver) res)).

(** ** The fields of a call *)
(** The text of an argument. *)
Definition critical_text (tv : ABIType * ABIVal) : chars :=
  match fst tv with AAddress => toHex [] (arg_text (snd tv)) | _ => arg_text (snd tv) end.

Lemma named_length s t : type_named s = Some t -> abiLength t = 1.
Proof. unfold type_named. repeat case_match; naive_solver. Qed.

Lemma criticals_parts data names tvs n o offset : lenZ data < 2 ^ 64 -> Forall typed tvs -> Forall2 (fun s tv => type_named s = Some (fst tv)) names tvs ->
  at_offset data o (fst (abiInAux offset tvs)) -> at_offset data offset (snd (abiInAux offset tvs)) ->
  abiOutByFuncSelector data (take n names) o = Ok (map critical_text (take n tvs), true).
Proof.
  intros Hdata Ht Hn. revert n o offset. induction Hn as [|s [t v] names tvs Hs Hn IH]; intros n o offset H1 H2; [by rewrite !take_nil |].
  destruct n as [|n]; [done |]. apply Forall_cons in Ht as [Hv Ht]. cbn [take map abiOutByFuncSelector fst] in *. rewrite Hs.
  pose proof (named_length _ _ Hs) as H3. cbn [abiInAux] in H1, H2. assert (2 ^ 64 < 2 ^ 256) by (apply Z.pow_lt_mono_r; lia).
  destruct (dynamicType t) eqn:Hd.
  - specialize (IH Ht n (o + 32) (offset + lenZ (serialise t v))). destruct (abiInAux (offset + lenZ (serialise t v)) tvs) as [f d]. cbn [fst snd] in *.
    apply at_app in H1 as [Hw H1]. apply at_app in H2 as [Hx H2]. rewrite word_length in H1.
    pose proof (at_bounds data _ _ Hx) as Hb. pose proof (at_bounds data _ _ H1) as Hb1. pose proof (lenZ_nonneg (serialise t v)). pose proof (lenZ_nonneg f).
    rewrite (at_word data Hdata _ _ Hw). cbn [mbind result_bind]. rewrite wrap_small, (sz_small offset) by lia.
    rewrite (deserialise_ok data Hdata t v offset Hv Hx). cbn [mbind result_bind]. rewrite (sz_small (o + 32)) by lia. by rewrite IH.
  - specialize (IH Ht n (o + 32) offset). destruct (abiInAux offset tvs) as [f d]. cbn [fst snd] in *.
    apply at_app in H1 as [Hx H1]. rewrite (deserialise_ok data Hdata t v o Hv Hx). cbn [mbind result_bind].
    rewrite (static_length t v Hv Hd), H3 in H1. pose proof (at_bounds data _ _ H1) as Hb. pose proof (at_bounds data _ _ Hx) as Hb1. pose proof (lenZ_nonneg f).
    rewrite (static_length t v Hv Hd), H3 in Hb1. rewrite sz_small by lia. by rewrite IH.
Qed.

(** C39: the critical fields of a call of a registered function are the texts of
    the first arguments of the call, as many as were registered, each with the
    address of the contract; for every signature all of whose types are int, int256,
    uint, uint256, address or string, and all arguments of these types but the
    integers from -2^255 to -7 * 2^252 - 1, whose text is another
    ([negative_critical_misread]).  A signature with any other type, even after the
    critical arguments, is outside this. *)
Theorem critical_fields_of_call name names tvs n selector receiver :
  32 ∉ name -> 40 ∉ name -> 41 ∉ name -> Forall2 (fun s tv => type_named s = Some (fst tv)) names tvs -> Forall typed tvs ->
  length selector = 4%nat -> (n <= length tvs)%nat -> lenZ (abiIn tvs) < 2 ^ 64 -> Z.of_nat n < 2 ^ 64 ->
  config_criticals (mkParallelConfig (signature name names) (Z.of_nat n)) receiver (selector ++ abiIn tvs) =
  Ok (Some (map (fun tv => critical_text tv ++ toHex [] receiver) (take n tvs))).
Proof.
  intros N1 N2 N3 Hn Ht Hs Hle Hl Hn64.
  assert (Forall (fun s => getEnumType s <> INVALID) names) as Hv.
  { apply Forall_forall. intros s Hin. apply list_elem_of_lookup_1 in Hin as [i Hi]. destruct (Forall2_lookup_l _ _ _ _ _ Hn Hi) as (tv & _ & E).
    unfold type_named in E. repeat (case_bool_decide; [subst; by vm_compute |]; cbn [orb] in E). done. }
  assert (map printed (map (fun s => (s, [])) names) = names) as Ep.
  { rewrite map_map. rewrite <- (map_id names) at 2. apply map_ext. intros s. unfold printed, print_type. cbn. by rewrite app_nil_r. }
  assert (parser (signature name names) newFunc = (true, mkFunc name (signature name names) (map type_of (map (fun s => (s, [])) names)))) as Hp.
  { rewrite <- Ep at 1 2. apply signature_read_back; try done. apply Forall_map. eapply Forall_impl; [exact Hv |]. intros s Hsv. by split. }
  unfold config_criticals. cbn [functionName criticalSize]. rewrite Hp. cbn [negb].
  assert (getParamsType (mkFunc name (signature name names) (map type_of (map (fun s => (s, [])) names))) = names) as ->.
  { unfold getParamsType. cbn [allParamsType]. rewrite map_map. exact Ep. }
  pose proof (Forall2_length _ _ _ Hn) as Hlen. rewrite sz_small by lia. rewrite (proj2 (Z.ltb_ge _ _)) by (unfold lenZ; lia). rewrite Nat2Z.id.
  assert (cropped1 4 (selector ++ abiIn tvs) = abiIn tvs) as ->.
  { unfold cropped1. rewrite (proj2 (Z.leb_le _ _)) by (unfold lenZ; rewrite length_app; lia). change (Z.to_nat 4) with 4%nat. rewrite <- Hs. apply drop_app_length. }
  rewrite (criticals_parts (abiIn tvs) names tvs n 0 (abiOffset (map fst tvs) * 32)); [| done | done | done | |].
  - cbn [mbind result_bind negb]. by rewrite map_map.
  - unfold abiIn. destruct (abiInAux _ tvs) as [f d]. by exists [], d.
  - pose proof (fixed_length tvs (abiOffset (map fst tvs) * 32) Ht) as Hfl. unfold abiIn. destruct (abiInAux _ tvs) as [f d]. exists f, []. rewrite app_nil_r. done.
Qed.

Definition transfer_args : list (ABIType * ABIVal) := [(AString, VBytes (str "alice")); (AString, VBytes (str "bob")); (AUint, VZ 5)].
Definition a_contract : Address := repeat 9 20.
Lemma critical_fields_of_call_witness :
  config_criticals (mkParallelConfig (str "transfer(string,string,uint256)") 2) a_contract ([1; 2; 3; 4] ++ abiIn transfer_args) =
  Ok (Some [str "alice" ++ toHex [] a_contract; str "bob" ++ toHex [] a_contract]).
Proof.
  apply (critical_fields_of_call (str "transfer") [str "string"; str "string"; str "uint256"] transfer_args 2 [1; 2; 3; 4] a_contract).
  1-3: by apply (bool_decide_eq_true_1 _); vm_compute.
  - by repeat constructor.
  - repeat constructor; cbn; lia.
  - reflexivity.
  - cbn. lia.
  - vm_compute. reflexivity.
  - cbn. lia.
Defined.

(** The critical field of the least integer is the text of its negation. *)
Theorem negative_critical_misread :
  config_criticals (mkParallelConfig (str "f(int256)") 1) a_contract ([1; 2; 3; 4] ++ abiIn [(AInt, VZ (- 2 ^ 255))]) =
    Ok (Some [sdec (2 ^ 255) ++ toHex [] a_contract]) /\ critical_text (AInt, VZ (- 2 ^ 255)) = sdec (- 2 ^ 255).
Proof. split; vm_compute; reflexivity. Qed.

(** ** A registration *)
(** What is registered is found, changed by a second registration, and gone after
    it is withdrawn. *)
Section Registered.
#[local] Existing Instance toy_crypto.
Definition registration (size : Z) : bytes := abiIn [(AAddress, VBytes a_contract); (AString, VBytes (str "transfer(string,string,uint256)")); (AUint, VZ size)].
Definition withdrawal : bytes := abiIn [(AAddress, VBytes a_contract); (AString, VBytes (str "transfer(string,string,uint256)"))].
Definition look_up : FE (option ParallelConfig) := getParallelConfig None a_contract (getFuncSelector (str "transfer(string,string,uint256)")) ZeroAddress.
Theorem registration_found :
  let config n := mkParallelConfig (str "transfer(string,string,uint256)") n in
  snd ((a ← look_up; registerParallelFunction None (registration 2) ZeroAddress;; b ← look_up;
        registerParallelFunction None (registration 1) ZeroAddress;; c ← look_up;
        unregisterParallelFunction None withdrawal ZeroAddress;; d ← look_up; mret (a, b, c, d)) newFactory) =
  Ok (None, Some (config 2), Some (config 1), None).
Proof. vm_compute. reflexivity. Qed.
End Registered.
