(* ===== verification/DagTransfer.v ===== *)
(** * The transfer contract for parallel execution

    [libprecompiled/extension/DagTransferPrecompiled.cpp]: users and their
    balances in one table, and the tags by which its calls run in parallel. *)

From S2P Require Import Prelude StateMonad CommonData Text PBFTMsg Transaction ABI StorageEntry MemoryTable TableProps TableFactory FactoryProps TableRows TableEffects StorageState Precompiled.

Definition DAG_TRANSFER : chars := Eval vm_compute in str "_dag_transfer_".
Definition DAG_TRANSFER_METHOD_ADD_STR_UINT : chars := Eval vm_compute in str "userAdd(string,uint256)".
Definition DAG_TRANSFER_METHOD_SAV_STR_UINT : chars := Eval vm_compute in str "userSave(string,uint256)".
Definition DAG_TRANSFER_METHOD_DRAW_STR_UINT : chars := Eval vm_compute in str "userDraw(string,uint256)".
Definition DAG_TRANSFER_METHOD_TRS_STR2_UINT : chars := Eval vm_compute in str "userTransfer(string,string,uint256)".
Definition DAG_TRANSFER_METHOD_BAL_STR : chars := Eval vm_compute in str "userBalance(string)".
Definition DAG_TRANSFER_FIELD_NAME : chars := Eval vm_compute in str "user_name".
Definition DAG_TRANSFER_FIELD_BALANCE : chars := Eval vm_compute in str "user_balance".

Definition invalidUserName (u : chars) : bool := bool_decide (u = []).
Definition user_row (u : chars) (n : Z) : gmap chars chars := <[DAG_TRANSFER_FIELD_NAME := u]> (<[DAG_TRANSFER_FIELD_BALANCE := dec n]> ∅).
Definition out_code (ret : Z) : bytes := abiIn [(AUint, VZ ret)].

Section Dag.
Context `{Crypto}.
Context (storage : option (h256 -> Z -> TableInfo -> chars -> Condition -> result (option (list Entry)))).

Definition dag_openTable (origin : Address) : FE (option nat) :=
  t ← pre_openTable storage DAG_TRANSFER;
  match t with
  | Some p => mret (Some p)
  | None => pre_createTable storage DAG_TRANSFER DAG_TRANSFER_FIELD_NAME DAG_TRANSFER_FIELD_BALANCE origin
  end.

(** The user's balance; [None] when the user has no row. *)
Definition user_balance (p : nat) (u : chars) : FE (option Z) :=
  l ← t_select storage p u newCondition;
  match l with
  | [] => mret None
  | e :: _ => n ← se_lift (parse_u256 (getField DAG_TRANSFER_FIELD_BALANCE e)); mret (Some n)
  end.

Definition user_exists (p : nat) (u : chars) : FE bool :=
  l ← t_select storage p u newCondition; mret (negb (bool_decide (l = []))).

(** Writes a row; the code is what the caller reports. *)
Definition put_user (p : nat) (u : chars) (n : Z) (force : bool) (origin : Address) : FE Z :=
  c ← t_insert p u (user_row u n) force (by_origin origin);
  mret (if c =? CODE_NO_AUTHORIZED then CODE_NO_AUTHORIZED else 0).
Definition set_user (p : nat) (u : chars) (n : Z) (origin : Address) : FE Z :=
  c ← t_update storage p u (user_row u n) newCondition (by_origin origin);
  mret (if c =? CODE_NO_AUTHORIZED then CODE_NO_AUTHORIZED else 0).

(** Opens the table and goes on with it. *)
Definition with_dag (origin : Address) (m : nat -> FE Z) : FE Z :=
  t ← dag_openTable origin;
  match t with None => mret CODE_INVALID_OPENTALBLE_FAILED | Some p => m p end.

Definition userAdd (user : chars) (amount : Z) (origin : Address) : FE Z :=
  if invalidUserName user then mret CODE_INVALID_USER_NAME
  else with_dag origin (fun p =>
    found ← user_exists p user;
    if (found : bool) then mret CODE_INVALID_USER_ALREADY_EXIST else put_user p user amount true origin).

Definition userSave (user : chars) (amount : Z) (origin : Address) : FE Z :=
  if invalidUserName user then mret CODE_INVALID_USER_NAME
  else if amount =? 0 then mret CODE_INVALID_AMOUNT
  else with_dag origin (fun p =>
    b ← user_balance p user;
    match b with
    | None => put_user p user amount false origin
    | Some balance =>
        let new_balance := wrap 256 (balance + amount) in
        if new_balance <? balance then mret CODE_INVALID_BALANCE_OVERFLOW else set_user p user new_balance origin
    end).

Definition userDraw (user : chars) (amount : Z) (origin : Address) : FE Z :=
  if invalidUserName user then mret CODE_INVALID_USER_NAME
  else if amount =? 0 then mret CODE_INVALID_AMOUNT
  else with_dag origin (fun p =>
    b ← user_balance p user;
    match b with
    | None => mret CODE_INVALID_USER_NOT_EXIST
    | Some balance =>
        if balance <? amount then mret CODE_INVALID_INSUFFICIENT_BALANCE else set_user p user (balance - amount) origin
    end).

Definition userTransfer (fromUser toUser : chars) (amount : Z) (origin : Address) : FE Z :=
  if invalidUserName fromUser || invalidUserName toUser then mret CODE_INVALID_USER_NAME
  else if amount =? 0 then mret CODE_INVALID_AMOUNT
  else if bool_decide (fromUser = toUser) then mret 0
  else with_dag origin (fun p =>
    fb ← user_balance p fromUser;
    match fb with
    | None => mret CODE_INVALID_USER_NOT_EXIST
    | Some fromBalance =>
        if fromBalance <? amount then mret CODE_INVALID_INSUFFICIENT_BALANCE
        else
          tb ← user_balance p toUser;
          c ← (match tb with None => put_user p toUser 0 false origin | Some _ => mret 0 end);
          if negb (c =? 0) then mret c
          else
            let toBalance := default 0 tb in
            if wrap 256 (toBalance + amount) <? toBalance then mret CODE_INVALID_BALANCE_OVERFLOW
            else
              c1 ← set_user p fromUser (fromBalance - amount) origin;
              if negb (c1 =? 0) then mret c1
              else set_user p toUser (wrap 256 (toBalance + amount)) origin;; mret 0
    end).

Definition userAddCall (data : bytes) (origin : Address) : FE bytes :=
  let vs := fst (abiOut data [AString; AUint]) in
  c ← userAdd (arg_string 0 vs) (arg_u256 1 vs) origin; mret (out_code c).
Definition userSaveCall (data : bytes) (origin : Address) : FE bytes :=
  let vs := fst (abiOut data [AString; AUint]) in
  c ← userSave (arg_string 0 vs) (arg_u256 1 vs) origin; mret (out_code c).
Definition userDrawCall (data : bytes) (origin : Address) : FE bytes :=
  let vs := fst (abiOut data [AString; AUint]) in
  c ← userDraw (arg_string 0 vs) (arg_u256 1 vs) origin; mret (out_code c).
Definition userTransferCall (data : bytes) (origin : Address) : FE bytes :=
  let vs := fst (abiOut data [AString; AString; AUint]) in
  c ← userTransfer (arg_string 0 vs) (arg_string 1 vs) (arg_u256 2 vs) origin; mret (out_code c).

Definition userBalance (user : chars) (origin : Address) : FE (Z * Z) :=
  if invalidUserName user then mret (CODE_INVALID_USER_NAME, 0)
  else
    t ← dag_openTable origin;
    match t with
    | None => mret (CODE_INVALID_OPENTALBLE_FAILED, 0)
    | Some p =>
        b ← user_balance p user;
        mret (match b with None => (CODE_INVALID_USER_NOT_EXIST, 0) | Some n => (0, n) end)
    end.
Definition userBalanceCall (data : bytes) (origin : Address) : FE bytes :=
  let vs := fst (abiOut data [AString]) in
  r ← userBalance (arg_string 0 vs) origin; mret (abiIn [(AUint, VZ (fst r)); (AUint, VZ (snd r))]).

(** [call]: the method is found in this order. *)
Definition dag_call (param : bytes) (origin : Address) : FE bytes :=
  func ← se_lift (getParamFunc param);
  let data := getParamData param in
  if func =? getFuncSelector DAG_TRANSFER_METHOD_ADD_STR_UINT then userAddCall data origin
  else if func =? getFuncSelector DAG_TRANSFER_METHOD_SAV_STR_UINT then userSaveCall data origin
  else if func =? getFuncSelector DAG_TRANSFER_METHOD_DRAW_STR_UINT then userDrawCall data origin
  else if func =? getFuncSelector DAG_TRANSFER_METHOD_TRS_STR2_UINT then userTransferCall data origin
  else if func =? getFuncSelector DAG_TRANSFER_METHOD_BAL_STR then userBalanceCall data origin
  else mret [].

(** [getParallelTag]. *)
Definition dag_parallelTag (param : bytes) : result (list chars) :=
  func ← getParamFunc param;
  let data := getParamData param in
  let one := let vs := fst (abiOut data [AString; AUint]) in
    if invalidUserName (arg_string 0 vs) then [] else [arg_string 0 vs] in
  Ok (if func =? getFuncSelector DAG_TRANSFER_METHOD_ADD_STR_UINT then one
  else if func =? getFuncSelector DAG_TRANSFER_METHOD_SAV_STR_UINT then one
  else if func =? getFuncSelector DAG_TRANSFER_METHOD_DRAW_STR_UINT then one
  else if func =? getFuncSelector DAG_TRANSFER_METHOD_TRS_STR2_UINT then
    let vs := fst (abiOut data [AString; AString; AUint]) in
    if invalidUserName (arg_string 0 vs) || invalidUserName (arg_string 1 vs) then [] else [arg_string 0 vs; arg_string 1 vs]
  else []).
End Dag.

(** ** The ledger the contract implements *)
Abbreviation Ledger := (gmap chars Z).
Definition l_add (u : chars) (n : Z) (m : Ledger) : Ledger * Z :=
  if invalidUserName u then (m, CODE_INVALID_USER_NAME)
  else match m !! u with Some _ => (m, CODE_INVALID_USER_ALREADY_EXIST) | None => (<[u := n]> m, 0) end.
Definition l_save (u : chars) (n : Z) (m : Ledger) : Ledger * Z :=
  if invalidUserName u then (m, CODE_INVALID_USER_NAME)
  else if n =? 0 then (m, CODE_INVALID_AMOUNT)
  else
    match m !! u with
    | None => (<[u := n]> m, 0)
    | Some b => if 2 ^ 256 <=? b + n then (m, CODE_INVALID_BALANCE_OVERFLOW) else (<[u := b + n]> m, 0)
    end.
Definition l_draw (u : chars) (n : Z) (m : Ledger) : Ledger * Z :=
  if invalidUserName u then (m, CODE_INVALID_USER_NAME)
  else if n =? 0 then (m, CODE_INVALID_AMOUNT)
  else
    match m !! u with
    | None => (m, CODE_INVALID_USER_NOT_EXIST)
    | Some b => if b <? n then (m, CODE_INVALID_INSUFFICIENT_BALANCE) else (<[u := b - n]> m, 0)
    end.
Definition l_transfer (a b : chars) (n : Z) (m : Ledger) : Ledger * Z :=
  if invalidUserName a || invalidUserName b then (m, CODE_INVALID_USER_NAME)
  else if n =? 0 then (m, CODE_INVALID_AMOUNT)
  else if bool_decide (a = b) then (m, 0)
  else
    match m !! a with
    | None => (m, CODE_INVALID_USER_NOT_EXIST)
    | Some x =>
        if x <? n then (m, CODE_INVALID_INSUFFICIENT_BALANCE)
        else
          let y := default 0 (m !! b) in
          if 2 ^ 256 <=? y + n then (m, CODE_INVALID_BALANCE_OVERFLOW) else (<[b := y + n]> (<[a := x - n]> m), 0)
    end.
Definition l_balance (u : chars) (m : Ledger) : Z * Z :=
  if invalidUserName u then (CODE_INVALID_USER_NAME, 0)
  else match m !! u with None => (CODE_INVALID_USER_NOT_EXIST, 0) | Some b => (0, b) end.

Section Refinement.
Context {db : Z -> option Entry} (s : h256 -> Z -> TableInfo -> chars -> Condition -> result (option (list Entry))).
Context (Hs : forall h n, StorageOk db (s h n)).
(** Other senders that may write the table. *)
Context (others : list Address).

(** The table is open, its writers are authorised, and it holds the ledger: at most one
    row per user, its balance in decimal. *)
Record holds (f : Factory) (p : nat) (origin : Address) (m : Ledger) : Prop := {
  ho_name : f_names f !! DAG_TRANSFER = Some p;
  ho_obj : exists o, f_objs f !! p = Some o /\ ti_key (mt_info (ob_table o)) = DAG_TRANSFER_FIELD_NAME /\
    DAG_TRANSFER_FIELD_NAME ∈ ti_fields (mt_info (ob_table o)) /\ DAG_TRANSFER_FIELD_BALANCE ∈ ti_fields (mt_info (ob_table o)) /\
    (forall a, a ∈ origin :: others -> checkAuthority a (mt_info (ob_table o)) = true);
  ho_wf : objs_wf (f_objs f);
  ho_rows : forall u, u <> [] ->
    match m !! u with
    | None => frows s f p u = []
    | Some b => 0 <= b < 2 ^ 256 /\ exists x, frows s f p u = [x] /\ row_field DAG_TRANSFER_FIELD_BALANCE x = dec b
    end
}.

Lemma holds_effect f f' p origin m m' c : holds f p origin m -> effect s f f' c ->
  (forall u, u <> [] ->
    match m' !! u with
    | None => c p u (frows s f p u) = []
    | Some b => 0 <= b < 2 ^ 256 /\ exists x, c p u (frows s f p u) = [x] /\ row_field DAG_TRANSFER_FIELD_BALANCE x = dec b
    end) -> holds f' p origin m'.
Proof.
  intros [Hn (o & Ho & Hi) Hw Hr] [A1 A2 A3 A4] Hm. split.
  - by rewrite A1.
  - specialize (A2 p). rewrite Ho in A2. destruct (f_objs f' !! p) as [o'|]; [| done]. unfold meta in A2. cbn in A2. injection A2 as _ _ E. exists o'. by rewrite E.
  - by apply A3.
  - intros u Hu. specialize (Hm u Hu). by rewrite A4.
Qed.
Lemma holds_unchanged f f' p origin m : holds f p origin m -> effect s f f' unchanged -> holds f' p origin m.
Proof. intros Hh He. apply (holds_effect f f' p origin m m _ Hh He). apply Hh. Qed.

Lemma dag_open_holds f p origin m : holds f p origin m -> dag_openTable (Some s) origin f = (f, Ok (Some p)).
Proof.
  intros [Hn _ _ _]. unfold dag_openTable, pre_openTable, openTable. rewrite bool_decide_false.
  2: { unfold m_sysTables. intros Hin. repeat (apply elem_of_cons in Hin as [Hin | Hin]; [done |]). by apply elem_of_nil in Hin. }
  unfold find_table, mbind, SE_bind, se_get. by rewrite Hn.
Qed.

Lemma user_balance_holds f p origin m u : holds f p origin m -> u <> [] ->
  exists f', user_balance (Some s) p u f = (f', Ok (m !! u)) /\ effect s f f' unchanged.
Proof.
  intros Hh Hu. destruct (ho_obj _ _ _ _ Hh) as (o & Ho & _). destruct (t_select_spec s Hs f p u o (ho_wf _ _ _ _ Hh) Ho) as (f' & l & E & He & Hl).
  exists f'. split; [| done]. unfold user_balance. rewrite (se_bind_ok _ _ _ _ _ E). pose proof (ho_rows _ _ _ _ Hh u Hu) as Hr.
  destruct (m !! u) as [b|].
  - destruct Hr as (Hb & x & Ex & Ef). rewrite Ex in Hl. destruct l as [|e [|]]; try done. cbn in Hl. injection Hl as Hx. rewrite <- Hx in Ef.
    assert (Eg : getField DAG_TRANSFER_FIELD_BALANCE e = dec b) by exact Ef. rewrite Eg. unfold se_lift, mbind, SE_bind, parse_u256. by rewrite u256_dec.
  - rewrite Hr in Hl. by destruct l.
Qed.
Lemma user_exists_holds f p origin m u : holds f p origin m -> u <> [] ->
  exists f', user_exists (Some s) p u f = (f', Ok (bool_decide (is_Some (m !! u)))) /\ effect s f f' unchanged.
Proof.
  intros Hh Hu. destruct (ho_obj _ _ _ _ Hh) as (o & Ho & _). destruct (t_select_spec s Hs f p u o (ho_wf _ _ _ _ Hh) Ho) as (f' & l & E & He & Hl).
  exists f'. split; [| done]. unfold user_exists. rewrite (se_bind_ok _ _ _ _ _ E). pose proof (ho_rows _ _ _ _ Hh u Hu) as Hr.
  destruct (m !! u) as [b|].
  - destruct Hr as (Hb & x & Ex & Ef). rewrite Ex in Hl. destruct l as [|e l]; [done |]. done.
  - rewrite Hr in Hl. by destruct l.
Qed.

Lemma user_row_ok f p origin m u n o : holds f p origin m -> f_objs f !! p = Some o ->
  denied (by_origin origin) (ob_table o) = false /\ checkField (user_row u n) (mt_info (ob_table o)) = true /\
  isHashField (ti_key (mt_info (ob_table o))) = true /\ ti_key (mt_info (ob_table o)) = DAG_TRANSFER_FIELD_NAME.
Proof.
  intros [_ (o' & Ho' & Hk & H1 & H2 & Hc) _ _] Ho. rewrite Ho in Ho'. injection Ho' as <-. split_and!.
  - unfold denied. cbn [by_origin ao_check ao_origin]. by rewrite (Hc origin) by by left.
  - unfold checkField. apply forallb_forall. intros [k v] Hin. apply list_elem_of_In, elem_of_in_order in Hin. apply bool_decide_eq_true_2. cbn.
    unfold user_row in Hin. rewrite !lookup_insert_Some in Hin. destruct Hin as [[<- _] | [_ [[<- _] | [_ Hin]]]]; [done | done |]. done.
  - by rewrite Hk.
  - done.
Qed.

Lemma put_user_holds f p origin m u n b : holds f p origin m -> u <> [] -> m !! u = None -> 0 <= n < 2 ^ 256 ->
  exists f', put_user p u n b origin f = (f', Ok 0) /\ holds f' p origin (<[u := n]> m) /\ forall q, q <> p -> forall k, frows s f' q k = frows s f q k.
Proof.
  intros Hh Hu Hm Hn. destruct (ho_obj _ _ _ _ Hh) as (o & Ho & _). destruct (user_row_ok f p origin m u n o Hh Ho) as (Hd & Hc & Hk & Hkey).
  destruct (t_insert_spec s f p u (user_row u n) b (by_origin origin) o (ho_wf _ _ _ _ Hh) Ho Hk Hd Hc) as (f' & E & He).
  exists f'. unfold put_user. rewrite (se_bind_ok _ _ _ _ _ E). split; [done |]. split.
  - apply (holds_effect f f' p origin m _ _ Hh He). intros v Hv. unfold at_key. rewrite (bool_decide_true (p = p)) by done. cbn [andb].
    pose proof (ho_rows _ _ _ _ Hh v Hv) as Hr. destruct (decide (v = u)) as [-> | Hne].
    + rewrite lookup_insert_eq, (bool_decide_true (u = u)) by done. rewrite Hm in Hr. rewrite Hr. split; [done |].
      eexists. split; [reflexivity |]. unfold row_field, row_fields, new_row. cbn [snd]. rewrite Hkey.
      rewrite lookup_insert_ne by done. unfold user_row. by rewrite lookup_insert_ne, lookup_insert_eq by done.
    + rewrite lookup_insert_ne, (bool_decide_false (v = u)) by done. done.
  - intros q Hq k. rewrite (ef_rows _ _ _ _ He). unfold at_key. by rewrite bool_decide_false by done.
Qed.

Lemma set_user_holds f p origin m u n b : holds f p origin m -> u <> [] -> m !! u = Some b -> 0 <= n < 2 ^ 256 ->
  exists f', set_user (Some s) p u n origin f = (f', Ok 0) /\ holds f' p origin (<[u := n]> m) /\ forall q, q <> p -> forall k, frows s f' q k = frows s f q k.
Proof.
  intros Hh Hu Hm Hn. destruct (ho_obj _ _ _ _ Hh) as (o & Ho & _). destruct (user_row_ok f p origin m u n o Hh Ho) as (Hd & Hc & Hk & Hkey).
  destruct (t_update_spec s Hs f p u (user_row u n) (by_origin origin) o (ho_wf _ _ _ _ Hh) Ho Hk Hd Hc) as (f' & E & He).
  assert (Hws : written_fields (user_row u n) (mt_info (ob_table o)) = [(DAG_TRANSFER_FIELD_BALANCE, dec n)]).
  { unfold written_fields. rewrite Hkey. reflexivity. }
  pose proof (ho_rows _ _ _ _ Hh u Hu) as Hx. rewrite Hm in Hx. destruct Hx as (Hb & x & Ex & _). rewrite Ex in E.
  exists f'. unfold set_user. rewrite (se_bind_ok _ _ _ _ _ E). split; [done |]. rewrite Hws in He. split.
  - apply (holds_effect f f' p origin m _ _ Hh He). intros v Hv. unfold at_key. rewrite (bool_decide_true (p = p)) by done. cbn [andb].
    pose proof (ho_rows _ _ _ _ Hh v Hv) as Hr. destruct (decide (v = u)) as [-> | Hne].
    + rewrite lookup_insert_eq, (bool_decide_true (u = u)) by done. rewrite Ex. split; [done |]. eexists. split; [reflexivity |].
      destruct x as [[[? ?] ?] fs]. unfold row_field, row_fields. cbn. by rewrite lookup_insert_eq.
    + rewrite lookup_insert_ne, (bool_decide_false (v = u)) by done. done.
  - intros q Hq k. rewrite (ef_rows _ _ _ _ He). unfold at_key. by rewrite bool_decide_false by done.
Qed.

(** [op] does what [spec] does to the ledger, and touches no other table. *)
Definition implements (p : nat) (origin : Address) (op : FE Z) (spec : Ledger -> Ledger * Z) : Prop :=
  forall f m, holds f p origin m ->
  exists f', op f = (f', Ok (snd (spec m))) /\ holds f' p origin (fst (spec m)) /\ forall q, q <> p -> forall k, frows s f' q k = frows s f q k.

Lemma frame_unchanged f f' q k : effect s f f' unchanged -> frows s f' q k = frows s f q k.
Proof. intros He. by rewrite (ef_rows _ _ _ _ He). Qed.
Lemma with_dag_holds f p origin m g : holds f p origin m -> with_dag (Some s) origin g f = g p f.
Proof. intros Hh. unfold with_dag. by rewrite (se_bind_ok _ _ _ _ _ (dag_open_holds f p origin m Hh)). Qed.
Lemma name_ok u : invalidUserName u = false -> u <> [].
Proof. unfold invalidUserName. intros E. by apply bool_decide_eq_false in E. Qed.
Ltac dag_after f1 He := exists f1; split; [reflexivity |]; split; [by eapply holds_unchanged | intros; by apply frame_unchanged].

Lemma add_implements p origin u n : 0 <= n < 2 ^ 256 -> implements p origin (userAdd (Some s) u n origin) (l_add u n).
Proof.
  intros Hn f m Hh. unfold userAdd, l_add. destruct (invalidUserName u) eqn:Eu; [by exists f |]. apply name_ok in Eu.
  rewrite (with_dag_holds f p origin m) by done. destruct (user_exists_holds f p origin m u Hh Eu) as (f1 & E & He). rewrite (se_bind_ok _ _ _ _ _ E).
  destruct (m !! u) as [b|] eqn:Em; [rewrite bool_decide_true by (by eexists); dag_after f1 He |].
  rewrite bool_decide_false by (intros [? ?]; done). destruct (put_user_holds f1 p origin m u n true) as (f2 & E2 & Hh2 & Hq); [by eapply holds_unchanged | done | done | done |].
  exists f2. split; [done |]. split; [done |]. intros q Hqp k. rewrite (Hq q Hqp). by apply frame_unchanged.
Qed.

Lemma save_implements p origin u n : 0 <= n < 2 ^ 256 -> implements p origin (userSave (Some s) u n origin) (l_save u n).
Proof.
  intros Hn f m Hh. unfold userSave, l_save. destruct (invalidUserName u) eqn:Eu; [by exists f |]. apply name_ok in Eu.
  destruct (n =? 0); [by exists f |].
  rewrite (with_dag_holds f p origin m) by done. destruct (user_balance_holds f p origin m u Hh Eu) as (f1 & E & He). rewrite (se_bind_ok _ _ _ _ _ E).
  assert (Hh1 : holds f1 p origin m) by by eapply holds_unchanged.
  destruct (m !! u) as [b|] eqn:Em.
  - pose proof (ho_rows _ _ _ _ Hh u Eu) as Hr. rewrite Em in Hr. destruct Hr as (Hb & _). destruct (Z.leb_spec (2 ^ 256) (b + n)).
    + assert (wrap 256 (b + n) = b + n - 2 ^ 256) as -> by (unfold wrap; rewrite <- (Z_mod_plus_full _ (-1)), Z.mod_small by lia; lia).
      cbv zeta. rewrite (proj2 (Z.ltb_lt _ _)) by lia. dag_after f1 He.
    + rewrite wrap_small by lia. cbv zeta. rewrite (proj2 (Z.ltb_ge _ _)) by lia.
      destruct (set_user_holds f1 p origin m u (b + n) b) as (f2 & E2 & Hh2 & Hq); [done | done | done | lia |].
      exists f2. split; [done |]. split; [done |]. intros q Hqp k. rewrite (Hq q Hqp). by apply frame_unchanged.
  - destruct (put_user_holds f1 p origin m u n false) as (f2 & E2 & Hh2 & Hq); [done | done | done | done |].
    exists f2. split; [done |]. split; [done |]. intros q Hqp k. rewrite (Hq q Hqp). by apply frame_unchanged.
Qed.

Lemma draw_implements p origin u n : 0 <= n -> implements p origin (userDraw (Some s) u n origin) (l_draw u n).
Proof.
  intros Hn f m Hh. unfold userDraw, l_draw. destruct (invalidUserName u) eqn:Eu; [by exists f |]. apply name_ok in Eu.
  destruct (n =? 0); [by exists f |].
  rewrite (with_dag_holds f p origin m) by done. destruct (user_balance_holds f p origin m u Hh Eu) as (f1 & E & He). rewrite (se_bind_ok _ _ _ _ _ E).
  assert (Hh1 : holds f1 p origin m) by by eapply holds_unchanged.
  destruct (m !! u) as [b|] eqn:Em; [| dag_after f1 He].
  pose proof (ho_rows _ _ _ _ Hh u Eu) as Hr. rewrite Em in Hr. destruct Hr as (Hb & _). destruct (Z.ltb_spec b n); [dag_after f1 He |].
  destruct (set_user_holds f1 p origin m u (b - n) b) as (f2 & E2 & Hh2 & Hq); [done | done | done | lia |].
  exists f2. split; [done |]. split; [done |]. intros q Hqp k. rewrite (Hq q Hqp). by apply frame_unchanged.
Qed.

(** The two updates at the end of a transfer. *)
Lemma move_holds f p origin m a b n x y : holds f p origin m -> a <> [] -> b <> [] -> a <> b -> m !! a = Some x -> m !! b = Some y ->
  0 <= n <= x -> 0 <= y + n < 2 ^ 256 -> 0 <= x < 2 ^ 256 ->
  exists f', (c1 ← set_user (Some s) p a (x - n) origin;
      if negb (c1 =? 0) then mret c1 else set_user (Some s) p b (y + n) origin;; mret 0) f = (f', Ok 0) /\
    holds f' p origin (<[b := y + n]> (<[a := x - n]> m)) /\ forall q, q <> p -> forall k, frows s f' q k = frows s f q k.
Proof.
  intros Hh Ha Hb Hab Ma Mb Hn Hy Hx.
  destruct (set_user_holds f p origin m a (x - n) x) as (f1 & E1 & Hh1 & Hq1); [done | done | done | lia |]. rewrite (se_bind_ok _ _ _ _ _ E1). cbn [negb Z.eqb].
  destruct (set_user_holds f1 p origin (<[a := x - n]> m) b (y + n) y) as (f2 & E2 & Hh2 & Hq2); [done | done | by rewrite lookup_insert_ne | lia |].
  rewrite (se_bind_ok _ _ _ _ _ E2). exists f2. split; [done |]. split; [done |]. intros q Hqp k. by rewrite (Hq2 q Hqp), (Hq1 q Hqp).
Qed.

Lemma transfer_implements p origin a b n : 0 <= n < 2 ^ 256 -> implements p origin (userTransfer (Some s) a b n origin) (l_transfer a b n).
Proof.
  intros Hn f m Hh. unfold userTransfer, l_transfer. destruct (invalidUserName a || invalidUserName b) eqn:Eu; [by exists f |].
  apply orb_false_iff in Eu as [Ea%name_ok Eb%name_ok]. destruct (n =? 0); [by exists f |]. case_bool_decide as Hab; [by exists f |].
  rewrite (with_dag_holds f p origin m) by done. destruct (user_balance_holds f p origin m a Hh Ea) as (f1 & E & He). rewrite (se_bind_ok _ _ _ _ _ E).
  assert (Hh1 : holds f1 p origin m) by by eapply holds_unchanged.
  destruct (m !! a) as [x|] eqn:Ma; [| dag_after f1 He].
  pose proof (ho_rows _ _ _ _ Hh a Ea) as Hr. rewrite Ma in Hr. destruct Hr as (Hx & _). destruct (Z.ltb_spec x n); [dag_after f1 He |].
  destruct (user_balance_holds f1 p origin m b Hh1 Eb) as (f2 & E2 & He2). rewrite (se_bind_ok _ _ _ _ _ E2).
  assert (Hh2 : holds f2 p origin m) by by eapply holds_unchanged.
  assert (Hq2 : forall q k, frows s f2 q k = frows s f q k) by (intros; by rewrite (frame_unchanged f1 f2), (frame_unchanged f f1)).
  destruct (m !! b) as [y|] eqn:Mb.
  - rewrite se_bind_ret. cbn [negb Z.eqb default from_option id]. cbv zeta. pose proof (ho_rows _ _ _ _ Hh b Eb) as Hr. rewrite Mb in Hr. destruct Hr as (Hy & _).
    destruct (Z.leb_spec (2 ^ 256) (y + n)).
    + assert (wrap 256 (y + n) = y + n - 2 ^ 256) as -> by (unfold wrap; rewrite <- (Z_mod_plus_full _ (-1)), Z.mod_small by lia; lia).
      rewrite (proj2 (Z.ltb_lt _ _)) by lia. exists f2. split; [done |]. split; [done |]. intros. apply Hq2.
    + rewrite wrap_small by lia. rewrite (proj2 (Z.ltb_ge _ _)) by lia.
      destruct (move_holds f2 p origin m a b n x y) as (f3 & E3 & Hh3 & Hq3); [done .. | lia | lia | lia |]. exists f3. split; [done |]. split; [done |].
      intros q Hqp k. rewrite (Hq3 q Hqp). apply Hq2.
  - destruct (put_user_holds f2 p origin m b 0 false) as (f3 & E3 & Hh3 & Hq3); [done | done | done | lia |]. rewrite (se_bind_ok _ _ _ _ _ E3).
    cbn [negb Z.eqb default from_option id]. cbv zeta. rewrite wrap_small by lia. rewrite (proj2 (Z.ltb_ge _ _)) by lia. rewrite (proj2 (Z.leb_gt _ _)) by lia.
    destruct (move_holds f3 p origin (<[b := 0]> m) a b n x 0) as (f4 & E4 & Hh4 & Hq4); [done .. | by rewrite lookup_insert_ne | by rewrite lookup_insert_eq | lia | lia | lia |].
    exists f4. split; [done |]. split.
    + cbn [fst]. rewrite insert_insert_ne, insert_insert_eq, insert_insert_ne in Hh4 by done. done.
    + intros q Hqp k. rewrite (Hq4 q Hqp), (Hq3 q Hqp). apply Hq2.
Qed.
End Refinement.

(** ** Calls *)
Section Calls.
Context `{Crypto}.

Inductive DagMethod := MAdd | MSave | MDraw | MTransfer | MBalance | MNone.
Definition dag_method (param : bytes) : DagMethod :=
  let func := be_val (take 4 param) in
  if func =? getFuncSelector DAG_TRANSFER_METHOD_ADD_STR_UINT then MAdd
  else if func =? getFuncSelector DAG_TRANSFER_METHOD_SAV_STR_UINT then MSave
  else if func =? getFuncSelector DAG_TRANSFER_METHOD_DRAW_STR_UINT then MDraw
  else if func =? getFuncSelector DAG_TRANSFER_METHOD_TRS_STR2_UINT then MTransfer
  else if func =? getFuncSelector DAG_TRANSFER_METHOD_BAL_STR then MBalance
  else MNone.

(** What a call does to the ledger, and its output. *)
Definition ledger_call (param : bytes) (m : Ledger) : Ledger * bytes :=
  let data := getParamData param in
  let v1 := fst (abiOut data [AString; AUint]) in
  let v2 := fst (abiOut data [AString; AString; AUint]) in
  let coded (r : Ledger * Z) := (fst r, out_code (snd r)) in
  match dag_method param with
  | MAdd => coded (l_add (arg_string 0 v1) (arg_u256 1 v1) m)
  | MSave => coded (l_save (arg_string 0 v1) (arg_u256 1 v1) m)
  | MDraw => coded (l_draw (arg_string 0 v1) (arg_u256 1 v1) m)
  | MTransfer => coded (l_transfer (arg_string 0 v2) (arg_string 1 v2) (arg_u256 2 v2) m)
  | MBalance =>
      let r := l_balance (arg_string 0 (fst (abiOut data [AString]))) m in
      (m, abiIn [(AUint, VZ (fst r)); (AUint, VZ (snd r))])
  | MNone => (m, [])
  end.

(** ** Decoded amounts *)
Lemma word_range bs : 0 <= fromBigEndian (wrap 256) bs < 2 ^ 256.
Proof.
  unfold fromBigEndian. induction bs as [|b bs IH] using rev_ind; [change (0 <= 0 < 2 ^ 256); lia |]. rewrite foldl_app. apply wrap_range. lia.
Qed.
Lemma de_uint_range data o v : deserialise data AUint o = Ok v -> exists n, v = VZ n /\ 0 <= n < 2 ^ 256.
Proof.
  cbn. unfold de_word. destruct (validOffset data (sz (o + 31))); cbn; [| done]. intros [= <-]. eexists. split; [done | apply word_range].
Qed.
Lemma args_range data ts o i : ts !! i = Some AUint -> 0 <= arg_u256 i (fst (abiOutAux data ts o)) < 2 ^ 256.
Proof.
  revert o i. induction ts as [|t ts IH]; intros o i Hi; [done |]. cbn [abiOutAux].
  assert (Hnil : 0 <= arg_u256 i [] < 2 ^ 256) by (change (0 <= 0 < 2 ^ 256); lia).
  destruct i as [|i]; cbn in Hi.
  - injection Hi as ->. cbn [dynamicType]. destruct (deserialise data AUint o) as [v|] eqn:E; [| done].
    destruct (de_uint_range _ _ _ E) as (n & -> & Hn). destruct (abiOutAux data ts _) as [vs ok]. done.
  - set (v := if dynamicType t then _ else _). destruct v; [| done]. specialize (IH (sz (o + abiLength t * 32)) i Hi).
    destruct (abiOutAux data ts _) as [vs ok]. done.
Qed.

Section Sim.
Context {db : Z -> option Entry} (s : h256 -> Z -> TableInfo -> chars -> Condition -> result (option (list Entry))).
Context (Hs : forall h n, StorageOk db (s h n)) (others : list Address).

Lemma coded_implements p origin op spec f m : implements s others p origin op spec -> holds s others f p origin m ->
  exists f', (c ← op; mret (out_code c)) f = (f', Ok (out_code (snd (spec m)))) /\ holds s others f' p origin (fst (spec m)) /\
    forall q, q <> p -> forall k, frows s f' q k = frows s f q k.
Proof. intros Hi Hh. destruct (Hi f m Hh) as (f' & E & Hh' & Hq). exists f'. by rewrite (se_bind_ok _ _ _ _ _ E). Qed.

Lemma balance_holds f p origin m u : holds s others f p origin m ->
  exists f', userBalance (Some s) u origin f = (f', Ok (l_balance u m)) /\ holds s others f' p origin m /\ forall q, q <> p -> forall k, frows s f' q k = frows s f q k.
Proof.
  intros Hh. unfold userBalance, l_balance. destruct (invalidUserName u) eqn:Eu; [by exists f |]. apply name_ok in Eu.
  rewrite (se_bind_ok _ _ _ _ _ (dag_open_holds s others f p origin m Hh)). destruct (user_balance_holds s Hs others f p origin m u Hh Eu) as (f1 & E & He).
  rewrite (se_bind_ok _ _ _ _ _ E). exists f1. split; [by destruct (m !! u) |]. split; [by eapply holds_unchanged | intros; by apply frame_unchanged].
Qed.

Lemma call_holds f p origin m param : holds s others f p origin m -> 4 <= lenZ param ->
  exists f', dag_call (Some s) param origin f = (f', Ok (snd (ledger_call param m))) /\ holds s others f' p origin (fst (ledger_call param m)) /\
    forall q, q <> p -> forall k, frows s f' q k = frows s f q k.
Proof.
  intros Hh Hl. unfold dag_call, getParamFunc. rewrite (proj2 (Z.ltb_ge _ _)) by lia. unfold se_lift, mbind at 1, SE_bind at 1.
  cbv zeta. unfold ledger_call, dag_method. cbv zeta. unfold userAddCall, userSaveCall, userDrawCall, userTransferCall, userBalanceCall. cbv zeta.
  assert (R1 : 0 <= arg_u256 1 (fst (abiOut (getParamData param) [AString; AUint])) < 2 ^ 256) by by apply args_range.
  assert (R2 : 0 <= arg_u256 2 (fst (abiOut (getParamData param) [AString; AString; AUint])) < 2 ^ 256) by by apply args_range.
  destruct (_ =? _); [apply coded_implements; [by apply (add_implements s Hs) | done] |].
  destruct (_ =? _); [apply coded_implements; [by apply (save_implements s Hs) | done] |].
  destruct (_ =? _); [apply coded_implements; [apply (draw_implements s Hs); lia | done] |].
  destruct (_ =? _); [apply coded_implements; [by apply (transfer_implements s Hs) | done] |].
  destruct (_ =? _); [| by exists f].
  destruct (balance_holds f p origin m (arg_string 0 (fst (abiOut (getParamData param) [AString]))) Hh) as (f' & E & Hh' & Hq).
  exists f'. by rewrite (se_bind_ok _ _ _ _ _ E).
Qed.
End Sim.

(** ** Tags and commutation *)
Definition call_tags (param : bytes) : list chars := from_ok [] (dag_parallelTag param).
Definition is_query (param : bytes) : bool := match dag_method param with MBalance => true | _ => false end.

(** The users a call may read or write. *)
Definition agree (us : list chars) (m m' : Ledger) : Prop := forall u, u ∈ us -> m !! u = m' !! u.

Lemma tags_of_method param : 4 <= lenZ param ->
  call_tags param =
  let data := getParamData param in
  let one := let u := arg_string 0 (fst (abiOut data [AString; AUint])) in if invalidUserName u then [] else [u] in
  match dag_method param with
  | MAdd | MSave | MDraw => one
  | MTransfer => let vs := fst (abiOut data [AString; AString; AUint]) in
      if invalidUserName (arg_string 0 vs) || invalidUserName (arg_string 1 vs) then [] else [arg_string 0 vs; arg_string 1 vs]
  | _ => []
  end.
Proof.
  intros Hl. unfold call_tags, dag_parallelTag, getParamFunc. rewrite (proj2 (Z.ltb_ge _ _)) by lia. cbn [mbind result_bind from_ok]. unfold dag_method.
  cbv zeta. repeat (destruct (_ =? _); [done |]). done.
Qed.

(** A call that is not a query is a local change of its tags. *)
Definition local (us : list chars) (g : Ledger -> Ledger * bytes) : Prop :=
  exists h : Ledger -> list (chars * Z) * bytes,
    (forall m m', agree us m m' -> h m = h m') /\
    (forall m, Forall (fun kv => fst kv ∈ us) (fst (h m))) /\
    (forall m, g m = (foldl (fun m kv => <[fst kv := snd kv]> m) m (fst (h m)), snd (h m))).

Lemma local_const us c : local us (fun m => (m, c)).
Proof. by exists (fun _ => ([], c)). Qed.

Lemma add_local u n : u <> [] -> local [u] (fun m => let r := l_add u n m in (fst r, out_code (snd r))).
Proof.
  intros Hu. exists (fun m => match m !! u with Some _ => ([], out_code CODE_INVALID_USER_ALREADY_EXIST) | None => ([(u, n)], out_code 0) end).
  split_and!.
  - intros m m' Hag. rewrite (Hag u) by set_solver. done.
  - intros m. destruct (m !! u); cbn [fst]; [done |]. constructor; [set_solver | done].
  - intros m. cbv zeta. unfold l_add, invalidUserName. rewrite bool_decide_false by done. by destruct (m !! u).
Qed.
Lemma save_local u n : u <> [] -> local [u] (fun m => let r := l_save u n m in (fst r, out_code (snd r))).
Proof.
  intros Hu. exists (fun m =>
    if n =? 0 then ([], out_code CODE_INVALID_AMOUNT) else
    match m !! u with
    | None => ([(u, n)], out_code 0)
    | Some b => if 2 ^ 256 <=? b + n then ([], out_code CODE_INVALID_BALANCE_OVERFLOW) else ([(u, b + n)], out_code 0)
    end).
  split_and!.
  - intros m m' Hag. rewrite (Hag u) by set_solver. done.
  - intros m. repeat case_match; cbn [fst]; try done; (constructor; [set_solver | done]).
  - intros m. cbv zeta. unfold l_save, invalidUserName. rewrite bool_decide_false by done. repeat case_match; done.
Qed.
Lemma draw_local u n : u <> [] -> local [u] (fun m => let r := l_draw u n m in (fst r, out_code (snd r))).
Proof.
  intros Hu. exists (fun m =>
    if n =? 0 then ([], out_code CODE_INVALID_AMOUNT) else
    match m !! u with
    | None => ([], out_code CODE_INVALID_USER_NOT_EXIST)
    | Some b => if b <? n then ([], out_code CODE_INVALID_INSUFFICIENT_BALANCE) else ([(u, b - n)], out_code 0)
    end).
  split_and!.
  - intros m m' Hag. rewrite (Hag u) by set_solver. done.
  - intros m. repeat case_match; cbn [fst]; try done; (constructor; [set_solver | done]).
  - intros m. cbv zeta. unfold l_draw, invalidUserName. rewrite bool_decide_false by done. repeat case_match; done.
Qed.
Lemma transfer_local a b n : a <> [] -> b <> [] -> local [a; b] (fun m => let r := l_transfer a b n m in (fst r, out_code (snd r))).
Proof.
  intros Ha Hb. exists (fun m =>
    if n =? 0 then ([], out_code CODE_INVALID_AMOUNT) else
    if bool_decide (a = b) then ([], out_code 0) else
    match m !! a with
    | None => ([], out_code CODE_INVALID_USER_NOT_EXIST)
    | Some x =>
        if x <? n then ([], out_code CODE_INVALID_INSUFFICIENT_BALANCE) else
        let y := default 0 (m !! b) in
        if 2 ^ 256 <=? y + n then ([], out_code CODE_INVALID_BALANCE_OVERFLOW) else ([(a, x - n); (b, y + n)], out_code 0)
    end).
  split_and!.
  - intros m m' Hag. rewrite (Hag a), (Hag b) by set_solver. done.
  - intros m. cbv zeta. repeat case_match; cbn [fst]; try done; (constructor; [set_solver | constructor; [set_solver | done]]).
  - intros m. cbv zeta. unfold l_transfer, invalidUserName. rewrite !bool_decide_false by done. cbn [orb]. repeat case_match; done.
Qed.

Lemma call_local param : 4 <= lenZ param -> is_query param = false -> local (call_tags param) (ledger_call param).
Proof.
  intros Hl Hq. rewrite tags_of_method by done. unfold ledger_call, is_query in *. cbv zeta.
  destruct (dag_method param); try done; try apply local_const.
  - destruct (invalidUserName _) eqn:E; [unfold l_add; rewrite E; apply (local_const _ (out_code CODE_INVALID_USER_NAME)) | apply add_local; by apply name_ok].
  - destruct (invalidUserName _) eqn:E; [unfold l_save; rewrite E; apply (local_const _ (out_code CODE_INVALID_USER_NAME)) | apply save_local; by apply name_ok].
  - destruct (invalidUserName _) eqn:E; [unfold l_draw; rewrite E; apply (local_const _ (out_code CODE_INVALID_USER_NAME)) | apply draw_local; by apply name_ok].
  - destruct (_ || _) eqn:E; [unfold l_transfer; rewrite E; apply (local_const _ (out_code CODE_INVALID_USER_NAME)) |].
    apply orb_false_iff in E as [E1%name_ok E2%name_ok]. by apply transfer_local.
Qed.

Lemma agree_writes us ws m : Forall (fun kv : chars * Z => fst kv ∉ us) ws -> agree us m (foldl (fun m kv => <[fst kv := snd kv]> m) m ws).
Proof.
  revert m. induction ws as [|kv ws IH]; intros m Hw u Hu; [done |]. apply Forall_cons in Hw as [Hk Hw]. cbn. rewrite <- (IH _ Hw u Hu).
  rewrite lookup_insert_ne; [done |]. intros E. apply Hk. by rewrite E.
Qed.
Lemma writes_comm (ws ws' : list (chars * Z)) (m : Ledger) : (forall kv kv', kv ∈ ws -> kv' ∈ ws' -> fst kv <> fst kv') ->
  let W := foldl (fun (m : Ledger) kv => <[fst kv := snd kv]> m) in W (W m ws) ws' = W (W m ws') ws.
Proof.
  cbv zeta. revert m. induction ws as [|kv ws IH]; intros m Hd; [done |]. cbn. rewrite IH by (intros; apply Hd; [by right | done]). f_equal.
  assert (Hk : forall kv', kv' ∈ ws' -> fst kv <> fst kv') by (intros; apply Hd; [by left | done]). clear IH Hd. revert m.
  induction ws' as [|kv' ws' IH]; intros m; [done |]. cbn. rewrite <- IH by (intros; apply Hk; by right). f_equal.
  apply insert_insert_ne. intros E. by apply (Hk kv'); [by left |].
Qed.

Lemma local_comm us us' g g' : local us g -> local us' g' -> (forall u, u ∈ us -> u ∈ us' -> False) -> forall m,
  fst (g' (fst (g m))) = fst (g (fst (g' m))) /\ snd (g' (fst (g m))) = snd (g' m) /\ snd (g (fst (g' m))) = snd (g m).
Proof.
  intros (h & H1 & H2 & H3) (h' & H1' & H2' & H3') Hd m. rewrite !H3, !H3'. cbn [fst snd].
  assert (E1 : h' (foldl (fun m kv => <[fst kv := snd kv]> m) m (fst (h m))) = h' m).
  { symmetry. apply H1', agree_writes. eapply Forall_impl; [apply H2 |]. intros kv Hkv Hkv'. by apply (Hd (fst kv)). }
  assert (E2 : h (foldl (fun m kv => <[fst kv := snd kv]> m) m (fst (h' m))) = h m).
  { symmetry. apply H1, agree_writes. eapply Forall_impl; [apply H2' |]. intros kv Hkv Hkv'. by apply (Hd (fst kv)). }
  rewrite ?H3, ?H3'. cbn [fst snd]. rewrite E1, E2. split; [| done]. cbn [fst]. apply writes_comm. intros kv kv' Hk Hk' E.
  pose proof (H2 m) as F. pose proof (H2' m) as F'. rewrite Forall_forall in F. rewrite Forall_forall in F'. apply (Hd (fst kv)); [by apply F | rewrite E; by apply F'].
Qed.
End Calls.

(** ** The total *)
Definition ledger_total (m : Ledger) : Z := map_fold (fun _ b t => b + t) 0 m.
Lemma total_fresh m u n : m !! u = None -> ledger_total (<[u := n]> m) = n + ledger_total m.
Proof. intros Hu. unfold ledger_total. rewrite map_fold_insert_L; [done | intros; lia | done]. Qed.
Lemma ledger_total_insert m u n : ledger_total (<[u := n]> m) = ledger_total m - default 0 (m !! u) + n.
Proof.
  destruct (m !! u) as [b|] eqn:E; [| rewrite total_fresh by done; cbn; lia]. rewrite <- insert_delete_eq, total_fresh by apply lookup_delete_eq.
  rewrite <- (insert_delete_id m u b E) at 2. rewrite total_fresh by apply lookup_delete_eq. cbn. lia.
Qed.
Lemma transfer_total a b n m : ledger_total (fst (l_transfer a b n m)) = ledger_total m.
Proof.
  unfold l_transfer. repeat case_match; try done. cbn [fst]. apply bool_decide_eq_false in H1. rewrite !ledger_total_insert, lookup_insert_ne, H2 by done. cbn. lia.
Qed.

(** C37: a call of the transfer contract, when its table is open, holds one row per user
    and its sender is authorised to write it ([holds]), does to the table what the
    ledger operation does to the ledger of balances, on every branch: it returns the
    ledger's code or balance, the table holds the new ledger, and no row of any
    other table changes.  The call has a selector: at least four bytes.  The first
    call of a block, which opens or creates the table, and a sender that is not
    authorised are outside this. *)
Theorem dag_call_refines_ledger `{Crypto} db s others f p origin m param :
  (forall h n, StorageOk db (s h n)) -> holds s others f p origin m -> 4 <= lenZ param ->
  exists f', dag_call (Some s) param origin f = (f', Ok (snd (ledger_call param m))) /\
    holds s others f' p origin (fst (ledger_call param m)) /\
    forall q, q <> p -> forall k, frows s f' q k = frows s f q k.
Proof. intros Hs Hh Hl. by apply (call_holds s Hs others). Qed.

(** A transfer of the contract conserves the sum of all balances, whatever
    its users, amount and outcome. *)
Theorem dag_transfer_conserves db s others f p origin m a b n :
  (forall h n, StorageOk db (s h n)) -> holds s others f p origin m -> 0 <= n < 2 ^ 256 ->
  exists f' m' code, userTransfer (Some s) a b n origin f = (f', Ok code) /\ holds s others f' p origin m' /\ ledger_total m' = ledger_total m.
Proof.
  intros Hs Hh Hn. destruct (transfer_implements s Hs others p origin a b n Hn f m Hh) as (f' & E & Hh' & _).
  exists f', (fst (l_transfer a b n m)), (snd (l_transfer a b n m)). split; [done |]. split; [done |]. apply transfer_total.
Qed.

(** The same table, seen by another of its writers. *)
Lemma holds_swap s a b f p m : holds s [b] f p a m -> holds s [a] f p b m.
Proof.
  intros [H1 (o & Ho & Hk & F1 & F2 & Hc) H3 H4]. split; [done | | done | done]. exists o. split_and!; try done. intros x Hx. apply Hc. set_solver.
Qed.

(** C38: two calls of the contract whose parallel tags are disjoint, neither of them a
    query of a balance, commute.  From a state where the table is open, holds one
    row per user and both senders may write it, both orders of the calls succeed,
    each call answers the same in either order, the table holds the same ledger
    after both, and no row of any other table changes. *)
Theorem disjoint_tags_commute `{Crypto} db s f p o1 o2 m c1 c2 :
  (forall h n, StorageOk db (s h n)) -> holds s [o2] f p o1 m -> 4 <= lenZ c1 -> 4 <= lenZ c2 -> is_query c1 = false -> is_query c2 = false ->
  (forall u, u ∈ call_tags c1 -> u ∈ call_tags c2 -> False) ->
  exists r1 r2 fa fb f12 f21 m',
    dag_call (Some s) c1 o1 f = (fa, Ok r1) /\ dag_call (Some s) c2 o2 fa = (f12, Ok r2) /\
    dag_call (Some s) c2 o2 f = (fb, Ok r2) /\ dag_call (Some s) c1 o1 fb = (f21, Ok r1) /\
    holds s [o2] f12 p o1 m' /\ holds s [o2] f21 p o1 m' /\
    forall q, q <> p -> forall k, frows s f12 q k = frows s f q k /\ frows s f21 q k = frows s f q k.
Proof.
  intros Hs Hh L1 L2 Q1 Q2 Hd.
  destruct (local_comm (call_tags c1) (call_tags c2) (ledger_call c1) (ledger_call c2) (call_local _ L1 Q1) (call_local _ L2 Q2) Hd m) as (Em & E2 & E1).
  destruct (call_holds s Hs [o2] f p o1 m c1 Hh L1) as (fa & Ea & Ha & Qa). destruct (call_holds s Hs [o1] fa p o2 _ c2 (holds_swap _ _ _ _ _ _ Ha) L2) as (f12 & E12 & H12 & Q12).
  destruct (call_holds s Hs [o1] f p o2 m c2 (holds_swap _ _ _ _ _ _ Hh) L2) as (fb & Eb & Hb & Qb). destruct (call_holds s Hs [o2] fb p o1 _ c1 (holds_swap _ _ _ _ _ _ Hb) L1) as (f21 & E21 & H21 & Q21).
  rewrite E2 in E12. rewrite E1 in E21. rewrite Em in H12. exists (snd (ledger_call c1 m)), (snd (ledger_call c2 m)), fa, fb, f12, f21, (fst (ledger_call c1 (fst (ledger_call c2 m)))).
  split_and!; try done; [by apply holds_swap |]. intros q Hq k. by rewrite (Q12 q Hq), (Q21 q Hq), (Qa q Hq), (Qb q Hq).
Qed.

(** A query of a balance has no tag, although its output depends on the
    order in which it runs with a call that changes the balance: as a
    transaction of a block it runs in any order. *)
Theorem query_untagged `{Crypto} q c u n b m :
  4 <= lenZ q -> dag_method q = MBalance -> arg_string 0 (fst (abiOut (getParamData q) [AString])) = u ->
  dag_method c = MSave -> arg_string 0 (fst (abiOut (getParamData c) [AString; AUint])) = u ->
  arg_u256 1 (fst (abiOut (getParamData c) [AString; AUint])) = n ->
  u <> [] -> 0 < n -> m !! u = Some b -> b + n < 2 ^ 256 ->
  call_tags q = [] /\
  snd (ledger_call q m) = abiIn [(AUint, VZ 0); (AUint, VZ b)] /\
  snd (ledger_call q (fst (ledger_call c m))) = abiIn [(AUint, VZ 0); (AUint, VZ (b + n))].
Proof.
  intros Hl Hq Hu Hc Hcu Hcn Hne Hn Hm Hov. split_and!.
  - rewrite tags_of_method by done. cbv zeta. by rewrite Hq.
  - unfold ledger_call. rewrite Hq. cbv zeta. rewrite Hu. unfold l_balance, invalidUserName. rewrite bool_decide_false by done. by rewrite Hm.
  - unfold ledger_call at 1. rewrite Hq. cbv zeta. rewrite Hu. unfold ledger_call. rewrite Hc. cbv zeta. rewrite Hcu, Hcn. cbn [fst snd].
    unfold l_save, l_balance, invalidUserName. rewrite !bool_decide_false by done. rewrite (proj2 (Z.eqb_neq _ _)) by lia.
    rewrite Hm, (proj2 (Z.leb_gt _ _)) by lia. cbn [fst snd]. by rewrite lookup_insert_eq.
Qed.

(** ** Examples *)
Definition no_rows : h256 -> Z -> TableInfo -> chars -> Condition -> result (option (list Entry)) := fun _ _ _ _ _ => Ok (Some []).
Lemma no_rows_ok h n : StorageOk (fun _ => None) (no_rows h n).
Proof. split; [intros; by exists [] | intros r i k c l [= <-] [= <-]; split; constructor | intros i k c l [= <-]; constructor]. Qed.

(** A hash that tells the methods apart. *)
Definition tail_crypto : Crypto := {| sha3 := fun b => take 32 (drop 4 b ++ zeros 32); sign := fun _ _ => []; verify := fun _ _ _ => true |}.
#[local] Existing Instance tail_crypto.

Definition dag_factory : Factory := fst (dag_openTable (Some no_rows) ZeroAddress newFactory).
Definition dag_p : nat := default 0%nat (f_names dag_factory !! DAG_TRANSFER).

Lemma dag_factory_ok : factory_ok dag_factory.
Proof.
  assert (H : se_keeps (grows (fun _ => None)) (dag_openTable (Some no_rows) ZeroAddress)).
  { apply se_keeps_bind; [apply _ | apply openTable_grows; intros h n; apply (no_rows_ok h n) |]. intros [p|]; [apply se_keeps_ret; apply _ |].
    apply createTable_grows. intros h n. apply (no_rows_ok h n). }
  apply (H newFactory newFactory_ok).
Qed.

Lemma dag_factory_holds : holds no_rows [] dag_factory dag_p ZeroAddress ∅.
Proof.
  assert (Hc : match f_objs dag_factory !! dag_p with
    | Some o => let i := mt_info (ob_table o) in
        bool_decide (ti_key i = DAG_TRANSFER_FIELD_NAME) && bool_decide (DAG_TRANSFER_FIELD_NAME ∈ ti_fields i) &&
        bool_decide (DAG_TRANSFER_FIELD_BALANCE ∈ ti_fields i) && checkAuthority ZeroAddress i && bool_decide (mt_new (ob_table o) = ∅)
    | None => false end = true) by (vm_compute; reflexivity).
  destruct (f_objs dag_factory !! dag_p) as [o|] eqn:Eo; [| done]. cbv zeta in Hc. bool_to_prop.
  split; [vm_compute; reflexivity | exists o; split; [done |]; split; [done |]; split; [done |]; split; [done |]; intros a ->%list_elem_of_singleton; assumption | apply dag_factory_ok |].
  intros u Hu. rewrite lookup_empty. unfold frows. rewrite Eo. cbn. unfold rows, stored, no_rows, new_at. by rewrite H0.
Qed.

Definition call_of (method : chars) (args : list (ABIType * ABIVal)) : bytes := take 4 (sha3 method) ++ abiIn args.
Definition save_alice : bytes := call_of DAG_TRANSFER_METHOD_SAV_STR_UINT [(AString, VBytes (str "alice")); (AUint, VZ 100)].
Definition save_bob : bytes := call_of DAG_TRANSFER_METHOD_SAV_STR_UINT [(AString, VBytes (str "bob")); (AUint, VZ 5)].
Definition ask_alice : bytes := call_of DAG_TRANSFER_METHOD_BAL_STR [(AString, VBytes (str "alice"))].

Lemma dag_call_refines_ledger_witness :
  exists f', dag_call (Some no_rows) save_alice ZeroAddress dag_factory = (f', Ok (snd (ledger_call save_alice ∅))) /\
    holds no_rows [] f' dag_p ZeroAddress (fst (ledger_call save_alice ∅)) /\
    forall q, q <> dag_p -> forall k, frows no_rows f' q k = frows no_rows dag_factory q k.
Proof.
  apply (dag_call_refines_ledger (fun _ => None) no_rows [] dag_factory dag_p ZeroAddress ∅ save_alice).
  - apply no_rows_ok.
  - apply dag_factory_holds.
  - vm_compute. discriminate.
Defined.

Lemma dag_transfer_conserves_witness :
  exists f' m' code, userTransfer (Some no_rows) (str "a") (str "b") 7 ZeroAddress dag_factory = (f', Ok code) /\
    holds no_rows [] f' dag_p ZeroAddress m' /\ ledger_total m' = ledger_total ∅.
Proof.
  apply (dag_transfer_conserves (fun _ => None) no_rows [] dag_factory dag_p ZeroAddress ∅ (str "a") (str "b") 7).
  - apply no_rows_ok.
  - apply dag_factory_holds.
  - lia.
Defined.

Definition other_sender : Address := replicate 20 5.
Lemma dag_factory_holds_both : holds no_rows [other_sender] dag_factory dag_p ZeroAddress ∅.
Proof.
  destruct dag_factory_holds as [H1 (o & Ho & Hk & F1 & F2 & Hc) H3 H4]. split; [exact H1 | | exact H3 | exact H4]. exists o. split; [exact Ho |]. split; [exact Hk |]. split; [exact F1 |]. split; [exact F2 |].
  assert (Ea : match f_objs dag_factory !! dag_p with Some o => checkAuthority other_sender (mt_info (ob_table o)) | None => false end = true) by (vm_compute; reflexivity).
  rewrite Ho in Ea. intros a [-> | ->%list_elem_of_singleton]%elem_of_cons; [apply Hc; apply elem_of_cons; by left | exact Ea].
Qed.
Lemma disjoint_tags_commute_witness : exists r1 r2 fa fb f12 f21,
  dag_call (Some no_rows) save_alice ZeroAddress dag_factory = (fa, Ok r1) /\ dag_call (Some no_rows) save_bob other_sender fa = (f12, Ok r2) /\
  dag_call (Some no_rows) save_bob other_sender dag_factory = (fb, Ok r2) /\ dag_call (Some no_rows) save_alice ZeroAddress fb = (f21, Ok r1).
Proof.
  destruct (disjoint_tags_commute (fun _ => None) no_rows dag_factory dag_p ZeroAddress other_sender ∅ save_alice save_bob no_rows_ok dag_factory_holds_both)
    as (r1 & r2 & fa & fb & f12 & f21 & m' & E1 & E2 & E3 & E4 & _).
  - vm_compute. discriminate.
  - vm_compute. discriminate.
  - vm_compute. reflexivity.
  - vm_compute. reflexivity.
  - assert (E1 : call_tags save_alice = [str "alice"]) by (vm_compute; reflexivity).
    assert (E2 : call_tags save_bob = [str "bob"]) by (vm_compute; reflexivity).
    rewrite E1, E2. intros u Hu%list_elem_of_singleton Hv%list_elem_of_singleton. rewrite Hu in Hv. discriminate Hv.
  - exists r1, r2, fa, fb, f12, f21. split; [exact E1 |]. split; [exact E2 |]. split; [exact E3 | exact E4].
Defined.

Lemma query_untagged_witness :
  call_tags ask_alice = [] /\
  snd (ledger_call ask_alice {[ str "alice" := 3 ]}) = abiIn [(AUint, VZ 0); (AUint, VZ 3)] /\
  snd (ledger_call ask_alice (fst (ledger_call save_alice {[ str "alice" := 3 ]}))) = abiIn [(AUint, VZ 0); (AUint, VZ (3 + 100))].
Proof.
  apply (query_untagged ask_alice save_alice (str "alice") 100 3); try (vm_compute; (discriminate || reflexivity)).
Defined.
