(* ===== verification/EVM.v ===== *)
(** * The virtual machine

    [libinterpreter/VM.h], [VM.cpp], [VMCalls.cpp], [VMOpt.cpp], [VMConfig.h] and the
    instruction table of [libethcore/Instruction.h], [Instruction.cpp]: the byte code
    interpreter, with its stack as the array of [1024] slots and two stack
    pointers it is, its memory, its gas metering, the optional first pass over
    the code, and the calls out of it.

    What the interpreter takes from EVMC is a parameter: the table of instruction
    metrics ([Metric], with the promise [MetricsOk]) and the functions of the host
    ([Host]).  An access outside of the stack, the memory or the code is the exception
    [UndefinedBehaviour].  The interpreter loop takes fuel; an answer of [None] means
    that it ran out. *)

From S2P Require Import Prelude StateMonad CommonData RLP PBFTMsg BlockHeader Transaction.

(** ** Instructions *)
Module Op.
(** The families [PUSH1]-[PUSH32], [DUP1]-[DUP16], [SWAP1]-[SWAP16] and [LOG0]-[LOG4] carry their
    number.  Every byte that [jumpTable] sends to a case that throws
    [BadInstruction], whatever its name, is [INVALID]. *)
Inductive Instruction : Set :=
  | STOP | ADD | MUL | SUB | DIV | SDIV | MOD | SMOD | ADDMOD | MULMOD | EXP | SIGNEXTEND
  | LT | GT | SLT | SGT | EQ | ISZERO | AND | OR | XOR | NOT | BYTE | SHL | SHR | SAR
  | SHA3
  | ADDRESS | BALANCE | ORIGIN | CALLER | CALLVALUE | CALLDATALOAD | CALLDATASIZE | CALLDATACOPY
  | CODESIZE | CODECOPY | GASPRICE | EXTCODESIZE | EXTCODECOPY | RETURNDATASIZE | RETURNDATACOPY
  | EXTCODEHASH
  | BLOCKHASH | COINBASE | TIMESTAMP | NUMBER | DIFFICULTY | GASLIMIT
  | POP | MLOAD | MSTORE | MSTORE8 | SLOAD | SSTORE | JUMP | JUMPI | PC | MSIZE | GAS | JUMPDEST
  | PUSH (n : Z) | DUP (n : Z) | SWAP (n : Z) | LOG (n : Z)
  | PUSHC | JUMPC | JUMPCI
  | CREATE | CALL | CALLCODE | RETURN | DELEGATECALL | CREATE2 | STATICCALL | REVERT | INVALID | SUICIDE.
End Op.
Import Op.

Definition between (a b x : Z) : bool := (a <=? x) && (x <=? b).

(** The codes of [enum class Instruction], as [jumpTable] dispatches on them. *)
Definition instruction (b : Z) : Instruction :=
  if between 0x60 0x7f b then PUSH (b - 0x5f)
  else if between 0x80 0x8f b then DUP (b - 0x7f)
  else if between 0x90 0x9f b then SWAP (b - 0x8f)
  else if between 0xa0 0xa4 b then LOG (b - 0xa0)
  else
    match b with
    | 0x00 => STOP | 0x01 => ADD | 0x02 => MUL | 0x03 => SUB | 0x04 => DIV | 0x05 => SDIV | 0x06 => MOD
    | 0x07 => SMOD | 0x08 => ADDMOD | 0x09 => MULMOD | 0x0a => EXP | 0x0b => SIGNEXTEND
    | 0x10 => LT | 0x11 => GT | 0x12 => SLT | 0x13 => SGT | 0x14 => EQ | 0x15 => ISZERO | 0x16 => AND
    | 0x17 => OR | 0x18 => XOR | 0x19 => NOT | 0x1a => BYTE | 0x1b => SHL | 0x1c => SHR | 0x1d => SAR
    | 0x20 => SHA3
    | 0x30 => ADDRESS | 0x31 => BALANCE | 0x32 => ORIGIN | 0x33 => CALLER | 0x34 => CALLVALUE
    | 0x35 => CALLDATALOAD | 0x36 => CALLDATASIZE | 0x37 => CALLDATACOPY | 0x38 => CODESIZE
    | 0x39 => CODECOPY | 0x3a => GASPRICE | 0x3b => EXTCODESIZE | 0x3c => EXTCODECOPY
    | 0x3d => RETURNDATASIZE | 0x3e => RETURNDATACOPY | 0x3f => EXTCODEHASH
    | 0x40 => BLOCKHASH | 0x41 => COINBASE | 0x42 => TIMESTAMP | 0x43 => NUMBER | 0x44 => DIFFICULTY
    | 0x45 => GASLIMIT
    | 0x50 => POP | 0x51 => MLOAD | 0x52 => MSTORE | 0x53 => MSTORE8 | 0x54 => SLOAD | 0x55 => SSTORE
    | 0x56 => JUMP | 0x57 => JUMPI | 0x58 => PC | 0x59 => MSIZE | 0x5a => GAS | 0x5b => JUMPDEST
    | 0xac => PUSHC | 0xad => JUMPC | 0xae => JUMPCI
    | 0xf0 => CREATE | 0xf1 => CALL | 0xf2 => CALLCODE | 0xf3 => RETURN | 0xf4 => DELEGATECALL
    | 0xf5 => CREATE2 | 0xfa => STATICCALL | 0xfd => REVERT | 0xff => SUICIDE
    | _ => INVALID
    end.

Inductive Tier : Set := Zero | Base | VeryLow | Low | Mid | High | Ext | Special | Invalid.
Record InstructionInfo := mkInfo { i_args : Z; i_ret : Z; gasPriceTier : Tier }.

(** [c_instructionInfo]. *)
Definition instructionInfo (i : Instruction) : InstructionInfo :=
  match i with
  | STOP => mkInfo 0 0 Zero
  | ADD | SUB | LT | GT | SLT | SGT | EQ | AND | OR | XOR | BYTE | SHL | SHR | SAR => mkInfo 2 1 VeryLow
  | MUL | DIV | SDIV | MOD | SMOD | SIGNEXTEND => mkInfo 2 1 Low
  | EXP | SHA3 => mkInfo 2 1 Special
  | NOT | ISZERO | CALLDATALOAD | MLOAD => mkInfo 1 1 VeryLow
  | ADDMOD | MULMOD => mkInfo 3 1 Mid
  | ADDRESS | ORIGIN | CALLER | CALLVALUE | CALLDATASIZE | CODESIZE | GASPRICE | RETURNDATASIZE
  | COINBASE | TIMESTAMP | NUMBER | DIFFICULTY | GASLIMIT | PC | MSIZE | GAS => mkInfo 0 1 Base
  | BALANCE | EXTCODESIZE | EXTCODEHASH | BLOCKHASH | SLOAD => mkInfo 1 1 Special
  | CALLDATACOPY | CODECOPY | RETURNDATACOPY => mkInfo 3 0 VeryLow
  | EXTCODECOPY => mkInfo 4 0 Special
  | POP => mkInfo 1 0 Base
  | MSTORE | MSTORE8 => mkInfo 2 0 VeryLow
  | SSTORE => mkInfo 2 0 Special
  | JUMP | JUMPC => mkInfo 1 0 Mid
  | JUMPI | JUMPCI => mkInfo 2 0 High
  | JUMPDEST => mkInfo 0 0 Special
  | PUSH _ | PUSHC => mkInfo 0 1 VeryLow
  | DUP n => mkInfo n (n + 1) VeryLow
  | SWAP n => mkInfo (n + 1) (n + 1) VeryLow
  | LOG n => mkInfo (n + 2) 0 Special
  | CREATE => mkInfo 3 1 Special
  | CREATE2 => mkInfo 4 1 Special
  | CALL | CALLCODE => mkInfo 7 1 Special
  | STATICCALL | DELEGATECALL => mkInfo 6 1 Special
  | RETURN => mkInfo 2 0 Zero
  | REVERT => mkInfo 2 0 Special
  | INVALID => mkInfo 0 0 Zero
  | SUICIDE => mkInfo 1 0 Special
  end.

(** [EVMSchedule::tierStepGas]. *)
Definition tierStepGas (t : Tier) : Z :=
  match t with Zero => 0 | Base => 2 | VeryLow => 3 | Low => 5 | Mid => 8 | High => 10 | Ext => 20 | Special | Invalid => 0 end.

(** [evmc_instruction_metrics]: the table [evmc_get_instruction_metrics_table] returns. *)
Record Metric := mkMetric { gas_cost : Z; num_stack_arguments : Z; num_stack_returned_items : Z }.

(** [initMetrics]: the table of the top revision, with the interpreter's own codes. *)
Definition c_metrics (table : Z -> Metric) (b : Z) : Metric :=
  match b with 0xac => table 0x60 | 0xad => table 0x56 | 0xae => table 0x57 | _ => table b end.

(** What the EVMC documentation says of that table: the stack items of an
    instruction are those of [c_instructionInfo], and it costs its tier; the
    instructions outside of the tiers cost less than [2^15], the hash of another
    account's code costs something. *)
Class MetricsOk (table : Z -> Metric) : Prop := {
  metric_arity b : instruction b <> INVALID -> 0 <= b < 256 ->
    num_stack_arguments (table b) = i_args (instructionInfo (instruction b)) /\
    num_stack_returned_items (table b) = i_ret (instructionInfo (instruction b));
  metric_cost b : instruction b <> INVALID -> 0 <= b < 256 -> gasPriceTier (instructionInfo (instruction b)) <> Special ->
    gas_cost (table b) = tierStepGas (gasPriceTier (instructionInfo (instruction b)));
  metric_special b : 0 <= b < 256 -> gasPriceTier (instructionInfo (instruction b)) = Special -> 0 <= gas_cost (table b) < 2 ^ 15;
  metric_extcodehash : 0 < gas_cost (table 0x3f)
}.

(** ** [struct VMSchedule] *)
Definition stackLimit : Z := 1024.
Definition stepGas5 : Z := 10.
Definition stepGas6 : Z := 20.
Definition sha3Gas : Z := 30.
Definition sha3WordGas : Z := 6.
Definition sstoreSetGas : Z := 20000.
Definition sstoreResetGas : Z := 5000.
Definition jumpdestGas : Z := 1.
Definition logGas : Z := 375.
Definition logDataGas : Z := 8.
Definition logTopicGas : Z := 375.
Definition createGas : Z := 32000.
Definition memoryGas : Z := 3.
Definition quadCoeffDiv : Z := 512.
Definition copyGas : Z := 3.
Definition valueTransferGas : Z := 9000.
Definition callStipend : Z := 2300.
Definition callNewAccount : Z := 25000.

(** ** The interface of EVMC

    An [evmc_uint256be] stands for the number it encodes. *)
Inductive evmc_revision : Set :=
  | EVMC_FRONTIER | EVMC_HOMESTEAD | EVMC_TANGERINE_WHISTLE | EVMC_SPURIOUS_DRAGON | EVMC_BYZANTIUM | EVMC_CONSTANTINOPLE.
Definition rev_number (r : evmc_revision) : Z :=
  match r with
  | EVMC_FRONTIER => 0 | EVMC_HOMESTEAD => 1 | EVMC_TANGERINE_WHISTLE => 2
  | EVMC_SPURIOUS_DRAGON => 3 | EVMC_BYZANTIUM => 4 | EVMC_CONSTANTINOPLE => 5
  end.

Inductive evmc_call_kind : Set := EVMC_CALL | EVMC_DELEGATECALL | EVMC_CALLCODE | EVMC_CREATE | EVMC_CREATE2.
Inductive evmc_status_code : Set :=
  | EVMC_SUCCESS | EVMC_FAILURE | EVMC_REVERT | EVMC_OUT_OF_GAS | EVMC_INVALID_INSTRUCTION
  | EVMC_UNDEFINED_INSTRUCTION | EVMC_STACK_OVERFLOW | EVMC_STACK_UNDERFLOW | EVMC_BAD_JUMP_DESTINATION
  | EVMC_INVALID_MEMORY_ACCESS | EVMC_STATIC_MODE_VIOLATION | EVMC_REJECTED | EVMC_INTERNAL_ERROR.
Inductive evmc_storage_status : Set :=
  EVMC_STORAGE_UNCHANGED | EVMC_STORAGE_MODIFIED | EVMC_STORAGE_ADDED | EVMC_STORAGE_DELETED.
#[export] Instance evmc_status_code_eq_dec : EqDecision evmc_status_code.
Proof. solve_decision. Defined.
#[export] Instance evmc_storage_status_eq_dec : EqDecision evmc_storage_status.
Proof. solve_decision. Defined.

Record Message := mkMessage {
  msg_kind : evmc_call_kind;
  msg_static : bool;
  msg_depth : Z;
  msg_gas : Z;
  msg_destination : Address;
  msg_sender : Address;
  msg_input : bytes;
  msg_value : Z;
  msg_salt : Z
}.

Record EvmcResult := mkResult {
  status_code : evmc_status_code;
  gas_left : Z;
  output_data : bytes;
  create_address : Address
}.

Record TxContext := mkTxContext {
  tx_gas_price : Z;
  tx_origin : Address;
  block_coinbase : Address;
  block_number : Z;
  block_timestamp : Z;
  block_gas_limit : Z;
  block_difficulty : Z
}.

(** [evmc_context_fn_table], over the state [W] of the host.  [copy_code] gives the
    bytes it writes into the buffer. *)
Record Host (W : Type) := mkHost {
  account_exists : Address -> SE W bool;
  get_storage : Address -> Z -> SE W Z;
  set_storage : Address -> Z -> Z -> SE W evmc_storage_status;
  get_balance : Address -> SE W Z;
  get_code_size : Address -> SE W Z;
  get_code_hash : Address -> SE W Z;
  copy_code : Address -> Z -> Z -> SE W bytes;
  selfdestruct : Address -> Address -> SE W unit;
  host_call : Message -> SE W EvmcResult;
  get_tx_context : SE W TxContext;
  get_block_hash : Z -> SE W Z;
  emit_log : Address -> bytes -> list Z -> SE W unit
}.
Arguments mkHost {W} _ _ _ _ _ _ _ _ _ _ _ _.
Arguments account_exists {W} _.
Arguments get_storage {W} _.
Arguments set_storage {W} _.
Arguments get_balance {W} _.
Arguments get_code_size {W} _.
Arguments get_code_hash {W} _.
Arguments copy_code {W} _.
Arguments selfdestruct {W} _.
Arguments host_call {W} _.
Arguments get_tx_context {W} _.
Arguments get_block_hash {W} _.
Arguments emit_log {W} _.

(** ** The members of [class VM] *)
Record VM (W : Type) := mkVM {
  m_io_gas : Z;
  m_tx_context : option TxContext;
  m_output : bytes;
  m_mem : bytes;
  m_returnData : bytes;
  m_stack : list Z;
  m_OP : Instruction;
  m_PC : Z;
  m_SP : Z;
  m_SPP : Z;
  m_runGas : Z;
  m_newMemSize : Z;
  m_copyMemSize : Z;
  m_context : W
}.
Arguments m_io_gas {W} _.
Arguments m_tx_context {W} _.
Arguments m_output {W} _.
Arguments m_mem {W} _.
Arguments m_returnData {W} _.
Arguments m_stack {W} _.
Arguments m_OP {W} _.
Arguments m_PC {W} _.
Arguments m_SP {W} _.
Arguments m_SPP {W} _.
Arguments m_runGas {W} _.
Arguments m_newMemSize {W} _.
Arguments m_copyMemSize {W} _.
Arguments m_context {W} _.
Arguments mkVM {W} _ _ _ _ _ _ _ _ _ _ _ _ _ _.

Section Setters.
Context {W : Type}.
Implicit Types s : VM W.
Definition set_io_gas (x : Z) s : VM W := mkVM x (m_tx_context s) (m_output s) (m_mem s) (m_returnData s) (m_stack s) (m_OP s) (m_PC s) (m_SP s) (m_SPP s) (m_runGas s) (m_newMemSize s) (m_copyMemSize s) (m_context s).
Definition set_tx_context (x : option TxContext) s : VM W := mkVM (m_io_gas s) x (m_output s) (m_mem s) (m_returnData s) (m_stack s) (m_OP s) (m_PC s) (m_SP s) (m_SPP s) (m_runGas s) (m_newMemSize s) (m_copyMemSize s) (m_context s).
Definition set_output (x : bytes) s : VM W := mkVM (m_io_gas s) (m_tx_context s) x (m_mem s) (m_returnData s) (m_stack s) (m_OP s) (m_PC s) (m_SP s) (m_SPP s) (m_runGas s) (m_newMemSize s) (m_copyMemSize s) (m_context s).
Definition set_mem (x : bytes) s : VM W := mkVM (m_io_gas s) (m_tx_context s) (m_output s) x (m_returnData s) (m_stack s) (m_OP s) (m_PC s) (m_SP s) (m_SPP s) (m_runGas s) (m_newMemSize s) (m_copyMemSize s) (m_context s).
Definition set_returnData (x : bytes) s : VM W := mkVM (m_io_gas s) (m_tx_context s) (m_output s) (m_mem s) x (m_stack s) (m_OP s) (m_PC s) (m_SP s) (m_SPP s) (m_runGas s) (m_newMemSize s) (m_copyMemSize s) (m_context s).
Definition set_stack (x : list Z) s : VM W := mkVM (m_io_gas s) (m_tx_context s) (m_output s) (m_mem s) (m_returnData s) x (m_OP s) (m_PC s) (m_SP s) (m_SPP s) (m_runGas s) (m_newMemSize s) (m_copyMemSize s) (m_context s).
Definition set_OP (x : Instruction) s : VM W := mkVM (m_io_gas s) (m_tx_context s) (m_output s) (m_mem s) (m_returnData s) (m_stack s) x (m_PC s) (m_SP s) (m_SPP s) (m_runGas s) (m_newMemSize s) (m_copyMemSize s) (m_context s).
Definition set_PC (x : Z) s : VM W := mkVM (m_io_gas s) (m_tx_context s) (m_output s) (m_mem s) (m_returnData s) (m_stack s) (m_OP s) x (m_SP s) (m_SPP s) (m_runGas s) (m_newMemSize s) (m_copyMemSize s) (m_context s).
Definition set_SP (x : Z) s : VM W := mkVM (m_io_gas s) (m_tx_context s) (m_output s) (m_mem s) (m_returnData s) (m_stack s) (m_OP s) (m_PC s) x (m_SPP s) (m_runGas s) (m_newMemSize s) (m_copyMemSize s) (m_context s).
Definition set_SPP (x : Z) s : VM W := mkVM (m_io_gas s) (m_tx_context s) (m_output s) (m_mem s) (m_returnData s) (m_stack s) (m_OP s) (m_PC s) (m_SP s) x (m_runGas s) (m_newMemSize s) (m_copyMemSize s) (m_context s).
Definition set_runGas (x : Z) s : VM W := mkVM (m_io_gas s) (m_tx_context s) (m_output s) (m_mem s) (m_returnData s) (m_stack s) (m_OP s) (m_PC s) (m_SP s) (m_SPP s) x (m_newMemSize s) (m_copyMemSize s) (m_context s).
Definition set_newMemSize (x : Z) s : VM W := mkVM (m_io_gas s) (m_tx_context s) (m_output s) (m_mem s) (m_returnData s) (m_stack s) (m_OP s) (m_PC s) (m_SP s) (m_SPP s) (m_runGas s) x (m_copyMemSize s) (m_context s).
Definition set_copyMemSize (x : Z) s : VM W := mkVM (m_io_gas s) (m_tx_context s) (m_output s) (m_mem s) (m_returnData s) (m_stack s) (m_OP s) (m_PC s) (m_SP s) (m_SPP s) (m_runGas s) (m_newMemSize s) x (m_context s).
Definition set_context (x : W) s : VM W := mkVM (m_io_gas s) (m_tx_context s) (m_output s) (m_mem s) (m_returnData s) (m_stack s) (m_OP s) (m_PC s) (m_SP s) (m_SPP s) (m_runGas s) (m_newMemSize s) (m_copyMemSize s) x.
End Setters.

(** ** Numbers *)
(** [u2s], [s2u]: two's complement. *)
Definition u2s (u : Z) : Z := if Z.testbit u 255 then - (2 ^ 256 - u) else u.
Definition s2u (x : Z) : Z := wrap 256 (if 0 <=? x then x else 2 ^ 256 + x).

(** [divWorkaround], [modWorkaround]: the quotient towards zero of wide integers. *)
Definition divWorkaround (a b : Z) : Z := Z.quot a b.
Definition modWorkaround (a b : Z) : Z := Z.rem a b.

(** [asAddress], [fromAddress]: an address in the low 160 bits of a word. *)
Definition asAddress (item : Z) : Address := right160 (toBigEndian 32 item).
Definition fromAddress (a : Address) : Z := fromBigEndian (wrap 160) a.

(** [FixedHash::firstBitSet]: the bits above the highest one set. *)
Fixpoint leading_zeros (fuel : nat) (d : Z) : Z :=
  match fuel with
  | O => 0
  | S f => if Z.testbit d 7 then 0 else 1 + leading_zeros f (wrap 8 (Z.shiftl d 1))
  end.
Fixpoint firstBitSet (h : bytes) : Z :=
  match h with
  | [] => 0
  | d :: r => if d =? 0 then 8 + firstBitSet r else leading_zeros 8 d
  end.

(** [exp256]: a round per bit of the exponent. *)
Fixpoint exp_loop (fuel : nat) (result base exponent : Z) : Z :=
  match fuel with
  | O => result
  | S f =>
      if exponent =? 0 then result
      else exp_loop f (if Z.odd exponent then wrap 256 (result * base) else result)
             (wrap 256 (base * base)) (Z.shiftr exponent 1)
  end.
Definition exp256 (base exponent : Z) : Z := exp_loop 257 1 base exponent.

(** The ordinary instructions on words. *)
Definition vm_sdiv (a b : Z) : Z := if b =? 0 then 0 else s2u (divWorkaround (u2s a) (u2s b)).
Definition vm_smod (a b : Z) : Z := if b =? 0 then 0 else s2u (modWorkaround (u2s a) (u2s b)).
Definition vm_byte (i x : Z) : Z := if i <? 32 then Z.land (Z.shiftr x (8 * (31 - i))) 0xff else 0.
Definition vm_shl (n x : Z) : Z := if 256 <=? n then 0 else wrap 256 (Z.shiftl x n).
Definition vm_shr (n x : Z) : Z := if 256 <=? n then 0 else Z.shiftr x n.
Definition allbits : Z := 2 ^ 256 - 1.
Definition vm_sar (n x : Z) : Z :=
  if 256 <=? n then (if Z.testbit x 255 then allbits else 0)
  else if Z.testbit x 255 then Z.lor (Z.shiftr x n) (wrap 256 (Z.shiftl allbits (256 - n)))
  else Z.shiftr x n.
Definition vm_signextend (k x : Z) : Z :=
  if k <? 31 then
    let testBit := k * 8 + 7 in
    let mask := Z.shiftl 1 testBit - 1 in
    if Z.testbit x testBit then Z.lor x (wrap 256 (Z.lnot mask)) else Z.land x mask
  else x.

Definition bool_word (b : bool) : Z := if b then 1 else 0.

(** ** The interpreter *)
(** What [interpretCases] leaves in [m_bounce]. *)
Inductive Bounce : Set := BInterpret | BCreate | BCall | BNone.

Section Interpreter.
Context `{Crypto} {W : Type} (host : Host W) (table : Z -> Metric).
(** the build option [EVM_OPTIMIZE]; [m_rev], [m_message], [m_pCode]; [m_code], [m_jumpDests], [m_pool] *)
Variables (EVM_OPTIMIZE : bool) (m_rev : evmc_revision) (m_message : Message) (m_pCode : bytes).
Variables (m_code : bytes) (m_jumpDests m_pool : list Z).

Abbreviation VME := (SE (VM W)).

Definition rev_lt (r : evmc_revision) : bool := rev_number m_rev <? rev_number r.
Definition rev_ge (r : evmc_revision) : bool := rev_number r <=? rev_number m_rev.
Definition throw {A} (e : Exn) : VME A := se_lift (Throw e).
Definition of_host {A} (m : SE W A) : VME A := fun s => let '(w, r) := m (m_context s) in (set_context w s, r).

(** *** Stack, code and memory *)
Definition at_index {A} (i : Z) (l : list A) : result A :=
  if i <? 0 then Throw UndefinedBehaviour
  else match l !! Z.to_nat i with Some x => Ok x | None => Throw UndefinedBehaviour end.

(** [m_SP[i]], [m_SPP[0] = v], [m_SP[i] = v] *)
Definition SP (i : Z) : VME Z := s ← se_get; se_lift (at_index (m_SP s + i) (m_stack s)).
Definition put_slot (i v : Z) : VME unit :=
  s ← se_get; at_ ← se_lift (at_index i (m_stack s)); se_mod (set_stack (<[Z.to_nat i := v]> (m_stack s))).
Definition put_SPP (v : Z) : VME unit := s ← se_get; put_slot (m_SPP s) v.
Definition put_SP (i v : Z) : VME unit := s ← se_get; put_slot (m_SP s + i) v.

Definition code_at (pc : Z) : VME Z := se_lift (at_index pc m_code).

(** [size] bytes of [m_mem] from [off]; none of them is looked at when [size] is zero. *)
Definition slice (off size : Z) (l : bytes) : result bytes :=
  if size =? 0 then Ok []
  else if (0 <=? off) && (0 <=? size) && (off + size <=? lenZ l) then Ok (take (Z.to_nat size) (drop (Z.to_nat off) l))
  else Throw UndefinedBehaviour.
Definition mem_read (off size : Z) : VME bytes := s ← se_get; se_lift (slice off size (m_mem s)).
Definition mem_write (off : Z) (bs : bytes) : VME unit :=
  s ← se_get;
  if lenZ bs =? 0 then mret tt
  else if (0 <=? off) && (off + lenZ bs <=? lenZ (m_mem s)) then
    se_mod (set_mem (take (Z.to_nat off) (m_mem s) ++ bs ++ drop (Z.to_nat off + length bs) (m_mem s)))
  else throw UndefinedBehaviour.

(** *** Metering *)
Definition toInt63 (v : Z) : VME Z := if INT64_MAX <? v then throw OutOfGas else mret v.
Definition memNeed (offset size : Z) : VME Z := toInt63 (if size =? 0 then 0 else offset + size).

Definition throwBadStack (removed : Z) : VME unit :=
  s ← se_get;
  if stackLimit - m_SPP s <? removed then throw StackUnderflow else throw OutOfStack.

Definition adjustStack (removed added : Z) : VME unit :=
  se_mod (fun s => set_SP (m_SPP s) s);;
  se_mod (fun s => set_SPP (m_SPP s + removed) s);;
  s ← se_get;
  se_when (stackLimit <? m_SPP s) (throwBadStack removed);;
  se_mod (fun s => set_SPP (m_SPP s - added) s);;
  s' ← se_get;
  se_when (m_SPP s' <? 0) (throwBadStack removed).

Definition gasForMem (size : Z) : VME Z :=
  let s := size / 32 in toInt63 (memoryGas * s + s * s / quadCoeffDiv).

Definition updateIOGas : VME unit :=
  s ← se_get;
  if m_io_gas s <? m_runGas s then throw OutOfGas else se_mod (set_io_gas (m_io_gas s - m_runGas s)).

Definition add_runGas (n : Z) : VME unit := se_mod (fun s => set_runGas (wrap 64 (m_runGas s + n)) s).
Definition mem_size (s : VM W) : Z := lenZ (m_mem s).

Definition updateGas : VME unit :=
  s ← se_get;
  se_when (mem_size s <? m_newMemSize s)
    (a ← gasForMem (m_newMemSize s); b ← gasForMem (mem_size s); c ← toInt63 (wrap 64 (a - b)); add_runGas c);;
  add_runGas (copyGas * ((m_copyMemSize s + 31) / 32));;
  s' ← se_get;
  se_when (m_io_gas s' <? m_runGas s') (throw OutOfGas).

Definition updateMem (newMem : Z) : VME unit :=
  se_mod (set_newMemSize (wrap 64 (newMem + 31) / 32 * 32));;
  updateGas;;
  s ← se_get;
  se_when (mem_size s <? m_newMemSize s)
    (se_mod (set_mem (m_mem s ++ replicate (Z.to_nat (m_newMemSize s - mem_size s)) 0))).

Definition logGasMem (n : Z) : VME unit :=
  size ← SP 1;
  g ← toInt63 (logGas + logTopicGas * n + logDataGas * size);
  se_mod (set_runGas g);;
  off ← SP 0;
  need ← memNeed off size;
  updateMem need.

Definition fetchInstruction : VME unit :=
  s ← se_get;
  b ← code_at (m_PC s);
  se_mod (set_OP (instruction b));;
  let metric := c_metrics table b in
  adjustStack (num_stack_arguments metric) (num_stack_returned_items metric);;
  se_mod (set_runGas (wrap 64 (gas_cost metric)));;
  se_mod (fun s => set_newMemSize (mem_size s) s);;
  se_mod (set_copyMemSize 0).

Definition getTxContext : VME TxContext :=
  s ← se_get;
  match m_tx_context s with
  | Some c => mret c
  | None => c ← of_host (get_tx_context host); se_mod (set_tx_context (Some c));; mret c
  end.

(** [std::binary_search] in the sorted [m_jumpDests] *)
Definition verifyJumpDest (dest : Z) : option Z :=
  if (dest <=? INT64_MAX) && bool_decide (dest ∈ m_jumpDests) then Some dest else None.
Definition jump_to (dest : Z) : VME unit :=
  match verifyJumpDest dest with Some pc => se_mod (set_PC pc) | None => throw BadJumpDestination end.

Definition copyDataToMemory (data : bytes) : VME unit :=
  sp0 ← SP 0; bigIndex ← SP 1; sp2 ← SP 2;
  let offset := wrap 64 sp0 in
  let index := wrap 64 bigIndex in
  let size := wrap 64 sp2 in
  let sizeToBeCopied :=
    if lenZ data <? bigIndex + size then (if lenZ data <? bigIndex then 0 else wrap 64 (lenZ data - index)) else size in
  se_when (0 <? sizeToBeCopied) (d ← se_lift (slice index sizeToBeCopied data); mem_write offset d);;
  se_when (sizeToBeCopied <? size)
    (mem_write (offset + sizeToBeCopied) (replicate (Z.to_nat (size - sizeToBeCopied)) 0)).

(** *** The cases of [interpretCases] *)
Definition incPC : VME unit := se_mod (fun s => set_PC (wrap 64 (m_PC s + 1)) s).
Definition NEXT : VME Bounce := incPC;; mret BInterpret.
Definition unless_static : VME unit := se_when (msg_static m_message) (throw DisallowedStateChange).
Definition since (r : evmc_revision) : VME unit := se_when (rev_lt r) (throw BadInstruction).

(** [m_SPP[0] = f(m_SP[0], ...)] *)
Definition push_value (v : Z) : VME Bounce := put_SPP v;; NEXT.
Definition case0 (v : VME Z) : VME Bounce := updateIOGas;; x ← v; push_value x.
Definition case1 (f : Z -> Z) : VME Bounce := updateIOGas;; a ← SP 0; push_value (f a).
Definition case2 (f : Z -> Z -> Z) : VME Bounce := updateIOGas;; a ← SP 0; b ← SP 1; push_value (f a b).
Definition case3 (f : Z -> Z -> Z -> Z) : VME Bounce := updateIOGas;; a ← SP 0; b ← SP 1; c ← SP 2; push_value (f a b c).

(** The memory an instruction pays for, from [m_SP[i]] bytes on, [m_SP[j]] bytes of it. *)
Definition pay_range (i j : Z) : VME unit :=
  off ← SP i; size ← SP j; need ← memNeed off size; updateMem need;; updateIOGas.
Definition pay_word (n : Z) : VME unit := off ← SP 0; o ← toInt63 off; updateMem (o + n);; updateIOGas.

Definition case_return : VME bytes :=
  se_mod (set_copyMemSize 0);; pay_range 0 1;;
  b ← SP 0; s ← SP 1;
  out ← mem_read (wrap 64 b) (wrap 64 s);
  se_mod (set_mem []);; mret out.

Definition case_suicide : VME Bounce :=
  unless_static;;
  se_mod (set_runGas (if rev_ge EVMC_TANGERINE_WHISTLE then 5000 else 0));;
  a ← SP 0;
  let destination := asAddress a in
  balance ← of_host (get_balance host (msg_destination m_message));
  se_when ((0 <? balance) || rev_lt EVMC_SPURIOUS_DRAGON)
    (ex ← of_host (account_exists host destination);
     se_when (rev_ge EVMC_TANGERINE_WHISTLE && negb ex) (add_runGas callNewAccount));;
  updateIOGas;;
  of_host (selfdestruct host (msg_destination m_message) destination);;
  mret BNone.

Definition case_mload : VME Bounce :=
  pay_word 32;; a ← SP 0; w ← mem_read (wrap 32 a) 32; push_value (fromBigEndian (wrap 256) w).
Definition case_mstore : VME Bounce :=
  pay_word 32;; a ← SP 0; v ← SP 1; mem_write (wrap 32 a) (toBigEndian 32 v);; NEXT.
Definition case_mstore8 : VME Bounce :=
  pay_word 1;; a ← SP 0; v ← SP 1; mem_write (wrap 32 a) [Z.land v 0xff];; NEXT.

Definition case_sha3 : VME Bounce :=
  size ← SP 1;
  g ← toInt63 (sha3Gas + (size + 31) / 32 * sha3WordGas);
  se_mod (set_runGas g);; pay_range 0 1;;
  off ← SP 0; size' ← SP 1;
  d ← mem_read (wrap 64 off) (wrap 64 size');
  push_value (fromBigEndian (wrap 256) (sha3 d)).

Fixpoint topics (n : nat) (i : Z) : VME (list Z) :=
  match n with O => mret [] | S n' => t ← SP i; r ← topics n' (i + 1); mret (t :: r) end.
Definition case_log (n : Z) : VME Bounce :=
  unless_static;; logGasMem n;; updateIOGas;;
  off ← SP 0; size ← SP 1;
  data ← mem_read (wrap 64 off) (wrap 64 size);
  ts ← topics (Z.to_nat n) 2;
  of_host (emit_log host (msg_destination m_message) data ts);; NEXT.

Definition case_exp : VME Bounce :=
  expon ← SP 1;
  let byteCost := if rev_ge EVMC_SPURIOUS_DRAGON then 50 else 10 in
  g ← toInt63 (stepGas5 + byteCost * (32 - firstBitSet (toBigEndian 32 expon) / 8));
  se_mod (set_runGas g);; updateIOGas;;
  base ← SP 0; push_value (exp256 base expon).

Definition case_signextend : VME Bounce :=
  updateIOGas;; k ← SP 0; x ← SP 1;
  se_when (k <? 31) (put_SP 1 (vm_signextend k x));; NEXT.

(** [r[j] = i < dataSize ? data[i] : 0] for the 32 bytes from [i] *)
Definition padded_word (i : Z) (data : bytes) : Z :=
  fromBigEndian (wrap 256) ((fun j => default 0 (data !! (Z.to_nat i + j)%nat)) <$> seq 0 32).
Definition case_calldataload : VME Bounce :=
  updateIOGas;; i ← SP 0;
  let data := msg_input m_message in
  (if i + 31 <? lenZ data then d ← se_lift (slice (wrap 64 i) 32 data); put_SP 0 (fromBigEndian (wrap 256) d)
   else if lenZ data <=? i then put_SP 0 0
   else put_SP 0 (padded_word (wrap 64 i) data));; NEXT.

Definition case_datacopy (data : bytes) : VME Bounce :=
  size ← SP 2; n ← toInt63 size;
  se_mod (set_copyMemSize n);; pay_range 0 2;; copyDataToMemory data;; NEXT.
Definition case_returndatacopy : VME Bounce :=
  since EVMC_BYZANTIUM;;
  a ← SP 1; b ← SP 2; s ← se_get;
  se_when (lenZ (m_returnData s) <? a + b) (throw BufferOverrun);;
  case_datacopy (m_returnData s).

Definition case_extcodecopy : VME Bounce :=
  se_mod (set_runGas (if rev_ge EVMC_TANGERINE_WHISTLE then 700 else 20));;
  n ← SP 3; copyMemSize ← toInt63 n;
  se_mod (set_copyMemSize copyMemSize);; pay_range 1 3;;
  a ← SP 0; off ← SP 1; c ← SP 2;
  let memoryOffset := wrap 64 off in
  let codeOffset := if SIZE_MAX <? c then SIZE_MAX else c in
  bs ← of_host (copy_code host (asAddress a) codeOffset copyMemSize);
  mem_write memoryOffset bs;;
  se_when (copyMemSize <? lenZ bs) (throw UndefinedBehaviour);;
  mem_write (memoryOffset + lenZ bs) (replicate (Z.to_nat (copyMemSize - lenZ bs)) 0);; NEXT.

Definition case_blockhash : VME Bounce :=
  se_mod (set_runGas stepGas6);; updateIOGas;;
  c ← getTxContext; number ← SP 0;
  if (number <? block_number c) && (Z.max 256 (block_number c) - 256 <=? number) then
    h ← of_host (get_block_hash host number); push_value h
  else push_value 0.

Definition query (gas : option Z) (f : Address -> SE W Z) : VME Bounce :=
  match gas with Some g => se_mod (set_runGas g) | None => mret tt end;;
  updateIOGas;; a ← SP 0; x ← of_host (f (asAddress a)); push_value x.

(** [for (++m_PC; numBytes--; ++m_PC) m_SPP[0] = (m_SPP[0] << 8) | m_code[m_PC]] *)
Fixpoint push_loop (n : nat) (v : Z) : VME Z :=
  match n with
  | O => mret v
  | S n' => s ← se_get; b ← code_at (m_PC s); incPC;; push_loop n' (Z.lor (wrap 256 (Z.shiftl v 8)) b)
  end.
Definition case_push (n : Z) : VME Bounce :=
  updateIOGas;; put_SPP 0;; incPC;; v ← push_loop (Z.to_nat n) 0; put_SPP v;; mret BInterpret.

Definition case_pushc : VME Bounce :=
  if EVM_OPTIMIZE then
    updateIOGas;; incPC;;
    s ← se_get; hi ← code_at (m_PC s); incPC;;
    s' ← se_get; lo ← code_at (m_PC s'); incPC;;
    s'' ← se_get; rest ← code_at (m_PC s'');
    se_mod (fun s => set_PC (wrap 64 (m_PC s + rest)) s);;
    v ← se_lift (at_index (Z.lor (Z.shiftl hi 8) lo) m_pool);
    put_SPP v;; mret BInterpret
  else throw BadInstruction.

Definition case_jump : VME Bounce := updateIOGas;; a ← SP 0; jump_to a;; mret BInterpret.
Definition case_jumpi : VME Bounce :=
  updateIOGas;; c ← SP 1;
  (if c =? 0 then incPC else a ← SP 0; jump_to a);; mret BInterpret.
Definition case_jumpc : VME Bounce :=
  if EVM_OPTIMIZE then updateIOGas;; a ← SP 0; se_mod (set_PC (wrap 64 a));; mret BInterpret
  else throw BadInstruction.
Definition case_jumpci : VME Bounce :=
  if EVM_OPTIMIZE then
    updateIOGas;; c ← SP 1;
    (if c =? 0 then incPC else a ← SP 0; se_mod (set_PC (wrap 64 a)));; mret BInterpret
  else throw BadInstruction.

Definition case_dup (n : Z) : VME Bounce := updateIOGas;; x ← SP (n - 1); push_value x.
Definition case_swap (n : Z) : VME Bounce :=
  updateIOGas;; a ← SP 0; b ← SP n; put_SP 0 b;; put_SP n a;; NEXT.

Definition case_sload : VME Bounce :=
  se_mod (set_runGas (if rev_ge EVMC_TANGERINE_WHISTLE then 200 else 50));;
  updateIOGas;; key ← SP 0; v ← of_host (get_storage host (msg_destination m_message) key); push_value v.
Definition case_sstore : VME Bounce :=
  unless_static;; se_mod (set_runGas sstoreResetGas);; updateIOGas;;
  key ← SP 0; value ← SP 1;
  status ← of_host (set_storage host (msg_destination m_message) key value);
  se_when (bool_decide (status = EVMC_STORAGE_ADDED))
    (se_mod (set_runGas (sstoreSetGas - sstoreResetGas));; updateIOGas);; NEXT.

Definition case_call (op : Instruction) : VME Bounce :=
  match op with
  | DELEGATECALL => since EVMC_HOMESTEAD
  | STATICCALL => since EVMC_BYZANTIUM
  | CALL => if msg_static m_message then v ← SP 2; se_when (negb (v =? 0)) (throw DisallowedStateChange) else mret tt
  | _ => mret tt
  end;; mret BCall.

Definition of_tx (f : TxContext -> Z) : VME Bounce := case0 (c ← getTxContext; mret (f c)).
Definition of_state (f : VM W -> Z) : VME Bounce := case0 (s ← se_get; mret (f s)).

Definition interpretCase (op : Instruction) : VME Bounce :=
  match op with
  | CREATE2 => since EVMC_CONSTANTINOPLE;; unless_static;; mret BCreate
  | CREATE => unless_static;; mret BCreate
  | DELEGATECALL | STATICCALL | CALL | CALLCODE => case_call op
  | RETURN => out ← case_return; se_mod (set_output out);; mret BNone
  | REVERT => since EVMC_BYZANTIUM;; out ← case_return; throw (RevertInstruction out)
  | SUICIDE => case_suicide
  | STOP => updateIOGas;; mret BNone
  | MLOAD => case_mload
  | MSTORE => case_mstore
  | MSTORE8 => case_mstore8
  | SHA3 => case_sha3
  | LOG n => case_log n
  | EXP => case_exp
  | ADD => case2 (fun a b => wrap 256 (a + b))
  | MUL => case2 (fun a b => wrap 256 (a * b))
  | SUB => case2 (fun a b => wrap 256 (a - b))
  | DIV => case2 (fun a b => if b =? 0 then 0 else divWorkaround a b)
  | SDIV => updateIOGas;; a ← SP 0; b ← SP 1; put_SPP (vm_sdiv a b);; se_mod (fun s => set_SP (m_SP s - 1) s);; NEXT
  | MOD => case2 (fun a b => if b =? 0 then 0 else modWorkaround a b)
  | SMOD => case2 vm_smod
  | NOT => case1 (fun a => wrap 256 (Z.lnot a))
  | LT => case2 (fun a b => bool_word (a <? b))
  | GT => case2 (fun a b => bool_word (b <? a))
  | SLT => case2 (fun a b => bool_word (u2s a <? u2s b))
  | SGT => case2 (fun a b => bool_word (u2s b <? u2s a))
  | EQ => case2 (fun a b => bool_word (a =? b))
  | ISZERO => case1 (fun a => bool_word (a =? 0))
  | AND => case2 Z.land
  | OR => case2 Z.lor
  | XOR => case2 Z.lxor
  | BYTE => case2 vm_byte
  | SHL => since EVMC_CONSTANTINOPLE;; case2 vm_shl
  | SHR => since EVMC_CONSTANTINOPLE;; case2 vm_shr
  | SAR => since EVMC_CONSTANTINOPLE;; case2 vm_sar
  | ADDMOD => case3 (fun a b m => if m =? 0 then 0 else (a + b) mod m)
  | MULMOD => case3 (fun a b m => if m =? 0 then 0 else (a * b) mod m)
  | SIGNEXTEND => case_signextend
  | ADDRESS => case0 (mret (fromAddress (msg_destination m_message)))
  | ORIGIN => of_tx (fun c => fromAddress (tx_origin c))
  | BALANCE => query (Some (if rev_ge EVMC_TANGERINE_WHISTLE then 400 else 20)) (get_balance host)
  | CALLER => case0 (mret (fromAddress (msg_sender m_message)))
  | CALLVALUE => case0 (mret (msg_value m_message))
  | CALLDATALOAD => case_calldataload
  | CALLDATASIZE => case0 (mret (lenZ (msg_input m_message)))
  | RETURNDATASIZE => since EVMC_BYZANTIUM;; of_state (fun s => lenZ (m_returnData s))
  | CODESIZE => case0 (mret (lenZ m_pCode))
  | EXTCODESIZE => query (Some (if rev_ge EVMC_TANGERINE_WHISTLE then 700 else 20)) (get_code_size host)
  | CALLDATACOPY => case_datacopy (msg_input m_message)
  | RETURNDATACOPY => case_returndatacopy
  | EXTCODEHASH => since EVMC_CONSTANTINOPLE;; query None (get_code_hash host)
  | CODECOPY => case_datacopy m_pCode
  | EXTCODECOPY => case_extcodecopy
  | GASPRICE => of_tx tx_gas_price
  | BLOCKHASH => case_blockhash
  | COINBASE => of_tx (fun c => fromAddress (block_coinbase c))
  | TIMESTAMP => of_tx (fun c => wrap 256 (block_timestamp c))
  | NUMBER => of_tx (fun c => wrap 256 (block_number c))
  | DIFFICULTY => of_tx block_difficulty
  | GASLIMIT => of_tx (fun c => wrap 256 (block_gas_limit c))
  | POP => updateIOGas;; se_mod (fun s => set_SP (m_SP s - 1) s);; NEXT
  | PUSHC => case_pushc
  | PUSH n => case_push n
  | JUMP => case_jump
  | JUMPI => case_jumpi
  | JUMPC => case_jumpc
  | JUMPCI => case_jumpci
  | DUP n => case_dup n
  | SWAP n => case_swap n
  | SLOAD => case_sload
  | SSTORE => case_sstore
  | PC => of_state m_PC
  | MSIZE => of_state (fun s => wrap 64 (mem_size s))
  | GAS => of_state m_io_gas
  | JUMPDEST => se_mod (set_runGas jumpdestGas);; updateIOGas;; NEXT
  | INVALID => throw BadInstruction
  end.

(** *** Calls out *)
(** When the init code is empty, [&m_mem[off]] is formed for any [off] but not read:
    here nothing is read then. *)
Definition caseCreate : VME Bounce :=
  se_mod (set_runGas createGas);;
  s ← se_get;
  endowment ← SP 0; initOff ← SP 1; initSize ← SP 2;
  salt ← (match m_OP s with CREATE2 => SP 3 | _ => mret 0 end);
  need ← memNeed initOff initSize;
  updateMem need;; updateIOGas;;
  se_mod (set_returnData []);;
  balance ← of_host (get_balance host (msg_destination m_message));
  (if (endowment <=? balance) && (msg_depth m_message <? 1024) then
     s ← se_get;
     let gas := if rev_ge EVMC_TANGERINE_WHISTLE then m_io_gas s - m_io_gas s / 64 else m_io_gas s in
     init ← mem_read (wrap 64 initOff) (wrap 64 initSize);
     res ← of_host (host_call host
       {| msg_kind := match m_OP s with CREATE => EVMC_CREATE | _ => EVMC_CREATE2 end; msg_static := false;
          msg_depth := msg_depth m_message + 1; msg_gas := gas; msg_destination := ZeroAddress;
          msg_sender := msg_destination m_message; msg_input := init; msg_value := endowment; msg_salt := salt |});
     put_SPP (if bool_decide (status_code res = EVMC_SUCCESS) then fromAddress (create_address res) else 0);;
     se_mod (set_returnData (output_data res));;
     se_mod (fun s => set_io_gas (wrap 64 (m_io_gas s - (gas - gas_left res))) s)
   else put_SPP 0);;
  incPC;; mret BInterpret.

Definition haveValueArg (op : Instruction) : bool := match op with CALL | CALLCODE => true | _ => false end.

(** The message of a call and where its output goes; without a place when the
    call is not made. *)
Definition caseCallSetup : VME (Message * option (Z * Z)) :=
  s ← se_get;
  let op := m_OP s in
  se_mod (set_runGas (if rev_ge EVMC_TANGERINE_WHISTLE then 700 else 40));;
  let kind := match op with CALLCODE => EVMC_CALLCODE | DELEGATECALL => EVMC_DELEGATECALL | _ => EVMC_CALL end in
  let static := match op with STATICCALL => true | _ => msg_static m_message end in
  a ← SP 1;
  let destination := asAddress a in
  ex ← of_host (account_exists host destination);
  (match op with
   | CALL => if (ex : bool) then mret tt else v ← SP 2; se_when ((0 <? v) || rev_lt EVMC_SPURIOUS_DRAGON) (add_runGas callNewAccount)
   | _ => mret tt
   end);;
  (if haveValueArg op then v ← SP 2; se_when (0 <? v) (add_runGas valueTransferGas) else mret tt);;
  let o := if haveValueArg op then 3 else 2 in
  inputOffset ← SP o; inputSize ← SP (o + 1); outputOffset ← SP (o + 2); outputSize ← SP (o + 3);
  inputMemNeed ← memNeed inputOffset inputSize;
  outputMemNeed ← memNeed outputOffset outputSize;
  updateMem (Z.max inputMemNeed outputMemNeed);; updateIOGas;;
  g ← SP 0;
  s ← se_get;
  let callGas := if rev_ge EVMC_TANGERINE_WHISTLE then Z.min g (m_io_gas s - m_io_gas s / 64) else g in
  gas ← toInt63 callGas;
  se_mod (set_runGas gas);; updateIOGas;;
  input ← mem_read (wrap 64 inputOffset) (wrap 64 inputSize);
  vb ← ((if haveValueArg op then
          v ← SP 2;
          if 0 <? v then balance ← of_host (get_balance host (msg_destination m_message)); mret (v, gas + callStipend, v <=? balance)
          else mret (0, gas, true)
        else mret (match op with DELEGATECALL => msg_value m_message | _ => 0 end, gas, true)) : VME (Z * Z * bool));
  let '(value, gas', balanceOk) := vb in
  let m := {| msg_kind := kind; msg_static := static; msg_depth := 0; msg_gas := gas'; msg_destination := destination;
              msg_sender := match op with DELEGATECALL => msg_sender m_message | _ => msg_destination m_message end;
              msg_input := input; msg_value := value; msg_salt := 0 |} in
  mret (m, if balanceOk && (msg_depth m_message <? 1024) then Some (wrap 64 outputOffset, wrap 64 outputSize) else None).

Definition caseCall : VME Bounce :=
  se_mod (set_returnData []);;
  r ← caseCallSetup;
  let '(m, output) := r in
  (match output with
   | Some (outOff, outSize) =>
       res ← of_host (host_call host m);
       se_mod (set_returnData (output_data res));;
       mem_write outOff (take (Z.to_nat outSize) (output_data res));;
       put_SPP (if bool_decide (status_code res = EVMC_SUCCESS) then 1 else 0);;
       se_mod (fun s => set_io_gas (wrap 64 (m_io_gas s + gas_left res)) s)
   | None => put_SPP 0;; se_mod (fun s => set_io_gas (wrap 64 (m_io_gas s + msg_gas m)) s)
   end);;
  incPC;; mret BInterpret.

Definition interpretCases : VME Bounce := fetchInstruction;; s ← se_get; interpretCase (m_OP s).

Definition bounce (b : Bounce) : VME Bounce :=
  match b with BInterpret => interpretCases | BCreate => caseCreate | BCall => caseCall | BNone => mret BNone end.

(** The trampoline of [exec]. *)
Fixpoint trampoline (fuel : nat) (b : Bounce) (s : VM W) : option (VM W * result unit) :=
  match b with
  | BNone => Some (s, Ok tt)
  | _ =>
      match fuel with
      | O => None
      | S f =>
          match bounce b s with
          | (s', Ok b') => trampoline f b' s'
          | (s', Throw e) => Some (s', Throw e)
          end
      end
  end.
End Interpreter.

(** ** [optimize] *)
(** [copyCode(33)] *)
Definition copyCode (pCode : bytes) : bytes := pCode ++ replicate 33 0.
Definition is_push (b : Z) : bool := between 0x60 0x7f b.
Definition byte_at (code : bytes) (pc : Z) : Z := default 0 (code !! Z.to_nat pc).
Definition set_byte (pc b : Z) (code : bytes) : bytes := <[Z.to_nat pc := b]> code.

(** The table of jump destinations; the interpreter's own codes become invalid. *)
Fixpoint jump_scan (fuel : nat) (nBytes pc : Z) (code : bytes) (dests : list Z) : bytes * list Z :=
  match fuel with
  | O => (code, dests)
  | S f =>
      if nBytes <=? pc then (code, dests)
      else
        let op := byte_at code pc in
        let code' := if between 0xac 0xae op then set_byte pc 0xfe code else code in
        if op =? 0x5b then jump_scan f nBytes (pc + 1) code' (dests ++ [pc])
        else if is_push op then jump_scan f nBytes (pc + (op - 0x60 + 1) + 1) code' dests
        else jump_scan f nBytes (pc + 1) code' dests
  end.

(** The pushed bytes as a number. *)
Fixpoint push_value_at (n : nat) (i v : Z) (code : bytes) : Z :=
  match n with O => v | S n' => push_value_at n' (i + 1) (Z.lor (wrap 256 (Z.shiftl v 8)) (byte_at code i)) code end.

(** [EVM_USE_CONSTANT_POOL], [EVM_REPLACE_CONST_JUMP] *)
Definition pool_const (pc nPush val : Z) (code : bytes) (pool : list Z) : bytes * list Z :=
  if 5 <? nPush then
    let pool_off := wrap 16 (lenZ pool) in
    (set_byte (pc + 1) (Z.shiftr pool_off 8) (set_byte (pc + 2) (Z.land pool_off 0xff) (set_byte (pc + 3) (nPush - 2) (set_byte pc 0xac code))),
     pool ++ [val])
  else (code, pool).
Definition const_jump (dests : list Z) (i val : Z) (code : bytes) : bytes :=
  match verifyJumpDest dests val with
  | Some _ =>
      if byte_at code i =? 0x56 then set_byte i 0xad code
      else if byte_at code i =? 0x57 then set_byte i 0xae code
      else code
  | None => code
  end.
Fixpoint first_pass (fuel : nat) (nBytes pc : Z) (dests : list Z) (code : bytes) (pool : list Z) : bytes * list Z :=
  match fuel with
  | O => (code, pool)
  | S f =>
      if nBytes <=? pc then (code, pool)
      else
        let op := byte_at code pc in
        if is_push op then
          let nPush := op - 0x60 + 1 in
          let val := push_value_at (Z.to_nat (nPush - 1)) (pc + 2) (byte_at code (pc + 1)) code in
          let '(code1, pool1) := pool_const pc nPush val code pool in
          first_pass f nBytes (pc + nPush + 1) dests (const_jump dests (pc + nPush + 1) val code1) pool1
        else first_pass f nBytes (pc + 1) dests code pool
  end.

Definition optimize (opt : bool) (pCode : bytes) : bytes * list Z * list Z :=
  let '(code, dests) := jump_scan (length pCode) (lenZ pCode) 0 (copyCode pCode) [] in
  if opt then let '(code', pool) := first_pass (length pCode) (lenZ pCode) 0 dests code [] in (code', dests, pool)
  else (code, dests, []).

(** ** [exec] and the entry point of EVMC *)
Definition newVM {W} (msg : Message) (w : W) : VM W :=
  {| m_io_gas := wrap 64 (msg_gas msg); m_tx_context := None; m_output := []; m_mem := []; m_returnData := [];
     m_stack := replicate (Z.to_nat stackLimit) 0; m_OP := STOP; m_PC := 0; m_SP := stackLimit; m_SPP := stackLimit;
     m_runGas := 0; m_newMemSize := 0; m_copyMemSize := 0; m_context := w |}.

Section Exec.
Context `{Crypto} {W : Type} (host : Host W) (table : Z -> Metric) (EVM_OPTIMIZE : bool).

Definition vm_exec (fuel : nat) (rev : evmc_revision) (msg : Message) (pCode : bytes) (w : W) : option (VM W * result unit) :=
  let '(code, dests, pool) := optimize EVM_OPTIMIZE pCode in
  trampoline host table EVM_OPTIMIZE rev msg pCode code dests pool fuel BInterpret (newVM msg w).

(** [execute]: exceptions become status codes; undefined behaviour and the end of
    the process are not caught. *)
Definition status_of (e : Exn) : result evmc_status_code :=
  match e with
  | UndefinedBehaviour | Terminated => Throw e
  | RevertInstruction _ => Ok EVMC_REVERT
  | BadInstruction => Ok EVMC_UNDEFINED_INSTRUCTION
  | OutOfStack => Ok EVMC_STACK_OVERFLOW
  | StackUnderflow => Ok EVMC_STACK_UNDERFLOW
  | BufferOverrun => Ok EVMC_INVALID_MEMORY_ACCESS
  | OutOfGas => Ok EVMC_OUT_OF_GAS
  | BadJumpDestination => Ok EVMC_BAD_JUMP_DESTINATION
  | DisallowedStateChange => Ok EVMC_STATIC_MODE_VIOLATION
  | GasOverflow => Ok EVMC_FAILURE
  | _ => Ok EVMC_INTERNAL_ERROR
  end.

Definition vm_result (r : VM W * result unit) : W * result EvmcResult :=
  let '(s, r) := r in
  (m_context s,
   match r with
   | Ok _ => Ok (mkResult EVMC_SUCCESS (m_io_gas s) (m_output s) ZeroAddress)
   | Throw (RevertInstruction out) => Ok (mkResult EVMC_REVERT (m_io_gas s) out ZeroAddress)
   | Throw e => st ← status_of e; Ok (mkResult st 0 [] ZeroAddress)
   end).

Definition vm_execute (fuel : nat) (rev : evmc_revision) (msg : Message) (pCode : bytes) (w : W) : option (W * result EvmcResult) :=
  vm_result <$> vm_exec fuel rev msg pCode w.
End Exec.
