(* ===== verification/EVMProps.v ===== *)
(** * The virtual machine is safe and terminates

    A weakest precondition for the cases of the interpreter, the invariant they
    keep (the stack pointers within the array, the program counter within the
    extended code, the gas never above what was given), and from them: no run
    reads or writes outside of its stack, memory or code; every run ends within
    a number of steps bounded by its gas; and gas is never created. *)

From S2P Require Import Prelude StateMonad CommonData RLP PBFTMsg BlockHeader Transaction EVM.
Import Op.

Create HintDb evm.
#[export] Instance Bounce_eq_dec : EqDecision Bounce.
Proof. solve_decision. Defined.

Definition u256 (x : Z) : Prop := 0 <= x < 2 ^ 256.

(** ** What the interpreter relies on *)
Definition answers {W A} (I : W -> Prop) (E : Exn -> Prop) (R : A -> Prop) (m : SE W A) : Prop :=
  forall w, I w -> I (fst (m w)) /\ match snd (m w) with Ok a => R a | Throw e => E e end.

Definition tx_context_ok (c : TxContext) : Prop :=
  u256 (tx_gas_price c) /\ u256 (block_difficulty c).

(** The messages the interpreter sends, and what the host answers: words where
    words are expected, no more code than asked for, no more gas than given. *)
Definition message_ok (m : Message) : Prop :=
  0 <= msg_gas m <= INT64_MAX /\ u256 (msg_value m) /\ u256 (msg_salt m) /\ lenZ (msg_input m) < 2 ^ 63 /\ bytes_ok (msg_input m).

Class HostOk {W} (I : W -> Prop) (E : Exn -> Prop) (host : Host W) : Prop := {
  ok_account_exists a : answers I E (fun _ => True) (account_exists host a);
  ok_get_storage a k : answers I E u256 (get_storage host a k);
  ok_set_storage a k v : u256 k -> u256 v -> answers I E (fun _ => True) (set_storage host a k v);
  ok_get_balance a : answers I E u256 (get_balance host a);
  ok_get_code_size a : answers I E u256 (get_code_size host a);
  ok_get_code_hash a : answers I E u256 (get_code_hash host a);
  ok_copy_code a o n : 0 <= n -> answers I E (fun bs => lenZ bs <= n /\ bytes_ok bs) (copy_code host a o n);
  ok_selfdestruct a b : answers I E (fun _ => True) (selfdestruct host a b);
  ok_host_call m : message_ok m -> answers I E (fun r => 0 <= gas_left r <= msg_gas m /\ lenZ (output_data r) < 2 ^ 63 /\ bytes_ok (output_data r)) (host_call host m);
  ok_get_tx_context : answers I E tx_context_ok (get_tx_context host);
  ok_get_block_hash n : answers I E u256 (get_block_hash host n);
  ok_emit_log a d ts : Forall u256 ts -> answers I E (fun _ => True) (emit_log host a d ts)
}.

(** The exceptions the interpreter itself throws. *)
Definition own_exn (e : Exn) : Prop :=
  match e with
  | BadInstruction | BadJumpDestination | OutOfGas | OutOfStack | StackUnderflow
  | DisallowedStateChange | BufferOverrun => True
  | RevertInstruction out => lenZ out < 2 ^ 63 /\ bytes_ok out
  | _ => False
  end.

Lemma lenZ_replicate {A} n (x : A) : lenZ (replicate n x) = Z.of_nat n.
Proof. unfold lenZ. by rewrite length_replicate. Qed.

(** ** Words *)
Lemma u256_wrap x : u256 (wrap 256 x).
Proof. apply wrap_range. lia. Qed.
Lemma u256_0 : u256 0.
Proof. unfold u256. lia. Qed.
Lemma u256_bool b : u256 (bool_word b).
Proof. unfold u256, bool_word. destruct b; lia. Qed.
Lemma u256_fromBE bs : u256 (fromBigEndian (wrap 256) bs).
Proof.
  unfold fromBigEndian. destruct bs as [|b bs] using rev_ind; [apply u256_0 |]. rewrite foldl_app. apply u256_wrap.
Qed.
Lemma u256_fromAddress a : u256 (fromAddress a).
Proof.
  unfold fromAddress, fromBigEndian. destruct a as [|b a] using rev_ind; [apply u256_0 |]. rewrite foldl_app. cbn [foldl].
  pose proof (wrap_range 160 (Z.lor (Z.shiftl (foldl (fun ret b0 => wrap 160 (Z.lor (Z.shiftl ret 8) b0)) 0 a) 8) b) ltac:(lia)).
  unfold u256. lia.
Qed.

Lemma u256_bits x : 0 <= x -> (forall i, 256 <= i -> Z.testbit x i = false) -> u256 x.
Proof.
  intros Hx Hb. split; [done |]. destruct (Z.eq_dec x 0) as [->|]; [lia |].
  apply Z.log2_lt_pow2; [lia |]. destruct (Z.lt_ge_cases (Z.log2 x) 256) as [|Hl]; [done |].
  specialize (Hb _ Hl). rewrite Z.bit_log2 in Hb by lia. done.
Qed.
Lemma bits_u256 x i : u256 x -> 256 <= i -> Z.testbit x i = false.
Proof.
  intros [Hx Hx'] Hi. destruct (Z.eq_dec x 0) as [->|]; [apply Z.bits_0 |].
  apply Z.bits_above_log2; [done |]. apply Z.log2_lt_pow2; [lia |]. pose proof (Z.pow_le_mono_r 2 256 i ltac:(lia) Hi). lia.
Qed.
Lemma u256_lor x y : u256 x -> u256 y -> u256 (Z.lor x y).
Proof.
  intros Hx Hy. apply u256_bits; [apply Z.lor_nonneg; unfold u256 in *; lia |].
  intros i Hi. rewrite Z.lor_spec, !bits_u256 by done. done.
Qed.
Lemma u256_land_l x y : u256 x -> 0 <= y -> u256 (Z.land x y).
Proof.
  intros Hx Hy. apply u256_bits; [apply Z.land_nonneg; lia |]. intros i Hi. by rewrite Z.land_spec, bits_u256 by done.
Qed.
Lemma u256_lxor x y : u256 x -> u256 y -> u256 (Z.lxor x y).
Proof.
  intros Hx Hy. apply u256_bits; [apply Z.lxor_nonneg; unfold u256 in *; lia |].
  intros i Hi. rewrite Z.lxor_spec, !bits_u256 by done. done.
Qed.
Lemma u256_shiftr x n : 0 <= n -> u256 x -> u256 (Z.shiftr x n).
Proof.
  intros Hn Hx. apply u256_bits; [apply Z.shiftr_nonneg, Hx |]. intros i Hi. rewrite Z.shiftr_spec by lia. apply bits_u256; [done | lia].
Qed.
Lemma u256_quot x y : u256 x -> u256 y -> y <> 0 -> u256 (Z.quot x y).
Proof.
  intros [Hx Hx'] [Hy _] Hn.
  rewrite Z.quot_div_nonneg by lia. split; [apply Z.div_pos; lia |]. pose proof (Z.div_le_upper_bound x y x ltac:(lia) ltac:(nia)). lia.
Qed.
Lemma u256_rem x y : u256 x -> u256 y -> y <> 0 -> u256 (Z.rem x y).
Proof. intros [Hx Hx'] [Hy Hy'] Hn. pose proof (Z.rem_bound_pos x y Hx ltac:(lia)). unfold u256. lia. Qed.
Lemma u256_mod x y : u256 y -> y <> 0 -> u256 (x mod y).
Proof. intros [Hy Hy'] Hn. pose proof (Z.mod_pos_bound x y ltac:(lia)). unfold u256. lia. Qed.
Lemma u256_s2u x : u256 (s2u x).
Proof. apply u256_wrap. Qed.
Lemma u256_sdiv a b : u256 (vm_sdiv a b).
Proof. unfold vm_sdiv. case_match; [apply u256_0 | apply u256_s2u]. Qed.
Lemma u256_smod a b : u256 (vm_smod a b).
Proof. unfold vm_smod. case_match; [apply u256_0 | apply u256_s2u]. Qed.
Lemma u256_byte i x : u256 x -> u256 i -> u256 (vm_byte i x).
Proof.
  intros Hx Hi. unfold vm_byte. destruct (Z.ltb_spec i 32); [| apply u256_0].
  apply u256_land_l; [apply u256_shiftr; [lia | done] | lia].
Qed.
Lemma u256_shl n x : u256 (vm_shl n x).
Proof. unfold vm_shl. case_match; [apply u256_0 | apply u256_wrap]. Qed.
Lemma u256_shr n x : u256 n -> u256 x -> u256 (vm_shr n x).
Proof. intros Hn Hx. unfold vm_shr. case_match; [apply u256_0 | apply u256_shiftr; [apply Hn | done]]. Qed.
Lemma u256_sar n x : u256 n -> u256 x -> u256 (vm_sar n x).
Proof.
  intros Hn Hx. unfold vm_sar. assert (u256 allbits) by (unfold u256, allbits; lia).
  repeat case_match; try apply u256_0; try done; try (apply u256_shiftr; [apply Hn | done]).
  apply u256_lor; [apply u256_shiftr; [apply Hn | done] | apply u256_wrap].
Qed.
Lemma u256_signextend k x : u256 k -> u256 x -> u256 (vm_signextend k x).
Proof.
  intros Hk Hx. unfold vm_signextend. destruct (k <? 31); [| done]. destruct (Z.testbit x _); [apply u256_lor; [done | apply u256_wrap] |].
  apply u256_land_l; [done |]. rewrite Z.shiftl_mul_pow2 by (unfold u256 in Hk; lia).
  pose proof (Z.pow_pos_nonneg 2 (k * 8 + 7) ltac:(lia) ltac:(unfold u256 in Hk; lia)). lia.
Qed.
Lemma u256_exp_loop f r b e : u256 r -> u256 (exp_loop f r b e).
Proof.
  revert r b e. induction f as [|f IH]; intros r b e Hr; cbn; [done |]. destruct (e =? 0); [done |]. apply IH. destruct (Z.odd e); [apply u256_wrap | done].
Qed.
Lemma u256_exp a b : u256 (exp256 a b).
Proof. apply u256_exp_loop. unfold u256. lia. Qed.

#[export] Hint Resolve u256_wrap u256_0 u256_bool u256_fromBE u256_fromAddress u256_lor u256_lxor u256_quot u256_sdiv u256_smod
  u256_byte u256_shl u256_shr u256_sar u256_signextend u256_exp u256_s2u : evm.

(** ** Runs of one instruction *)
Section Safety.
Context `{Crypto} {W : Type} (I : W -> Prop) (E : Exn -> Prop) (host : Host W) `{!HostOk I E host}.
Context (table : Z -> Metric) `{!MetricsOk table} (rev : evmc_revision) (msg : Message) (pCode code : bytes) (dests pool : list Z).
Context (code_len : lenZ code = lenZ pCode + 33) (code_bytes : bytes_ok code)
  (code_tail : forall i, lenZ pCode <= i < lenZ code -> code !! Z.to_nat i = Some 0)
  (dests_in : Forall (fun d => 0 <= d < lenZ pCode) dests) (size_limit : lenZ pCode < 2 ^ 63)
  (msg_words : u256 (msg_value msg) /\ lenZ (msg_input msg) < 2 ^ 63 /\ bytes_ok (msg_input msg)) (pCode_bytes : bytes_ok pCode).
(** the gas the run was given *)
Variable gas : Z.
Context (gas_limit : gas <= INT64_MAX).
Implicit Types (s : VM W) (Q : VM W -> Prop).

Definition settled s : Prop := I (m_context s) /\ 0 <= m_io_gas s <= gas.
Definition vm_exn (e : Exn) : Prop := E e \/ own_exn e.

Definition ends {A} (Q : A -> VM W -> Prop) (m : SE (VM W) A) s : Prop :=
  match m s with (s', Ok a) => Q a s' | (s', Throw e) => settled s' /\ vm_exn e end.

Lemma ends_bind {A B} (Q : B -> VM W -> Prop) (m : SE (VM W) A) (k : A -> SE (VM W) B) s :
  ends (fun a s' => ends Q (k a) s') m s -> ends Q (m ≫= k) s.
Proof. unfold ends, mbind, SE_bind. by destruct (m s) as [s' [a|e]]. Qed.
Lemma ends_ret {A} (Q : A -> VM W -> Prop) a s : Q a s -> ends Q (mret a) s.
Proof. done. Qed.
Lemma ends_get (Q : VM W -> VM W -> Prop) s : Q s s -> ends Q se_get s.
Proof. done. Qed.
Lemma ends_mod (Q : unit -> VM W -> Prop) f s : Q tt (f s) -> ends Q (se_mod f) s.
Proof. done. Qed.
Lemma ends_lift {A} (Q : A -> VM W -> Prop) r a s : r = Ok a -> Q a s -> ends Q (se_lift r) s.
Proof. by intros ->. Qed.
Lemma ends_throw {A} (Q : A -> VM W -> Prop) e s : settled s -> vm_exn e -> ends Q (throw e) s.
Proof. done. Qed.
Lemma ends_when (Q : unit -> VM W -> Prop) b m s :
  (b = true -> ends Q m s) -> (b = false -> Q tt s) -> ends Q (se_when b m) s.
Proof. destruct b; cbn; auto. Qed.
Lemma ends_mono {A} (Q Q' : A -> VM W -> Prop) m s : (forall a s', Q a s' -> Q' a s') -> ends Q m s -> ends Q' m s.
Proof. unfold ends. intros HQ. destruct (m s) as [s' [a|e]]; auto. Qed.

Lemma ends_host {A} (Q : A -> VM W -> Prop) (R : A -> Prop) (m : SE W A) s :
  answers I E R m -> settled s -> (forall a w, R a -> I w -> Q a (set_context w s)) -> ends Q (of_host m) s.
Proof.
  intros Hm [Hi Hg] HQ. unfold ends, of_host. specialize (Hm _ Hi). destruct (m (m_context s)) as [w [a|e]]; cbn in *.
  - destruct Hm. by apply HQ.
  - destruct Hm as [Hw He]. split; [by split | by left].
Qed.

(** the item [i] below the top *)
Definition slot (stack : list Z) (sp i : Z) : Z := default 0 (stack !! Z.to_nat (sp + i)).
#[local] Arguments slot : simpl never.

(** The invariant of the stack array, and the state in which a case is entered:
    [k] items are removed and [r] added. *)
Definition stack_ok s : Prop := lenZ (m_stack s) = stackLimit /\ Forall u256 (m_stack s).
Definition tx_ok s : Prop :=
  match m_tx_context s with Some c => tx_context_ok c | None => True end /\
  (lenZ (m_returnData s) < 2 ^ 63 /\ bytes_ok (m_returnData s)) /\ m_output s = [] /\ bytes_ok (m_mem s).
(** what a run returns *)
Definition output_ok s : Prop := lenZ (m_output s) < 2 ^ 63 /\ bytes_ok (m_output s).
Record core s : Prop := {
  core_settled : settled s;
  core_stack : stack_ok s;
  core_tx : tx_ok s;
  core_SPP : 0 <= m_SPP s <= stackLimit;
  core_PC : 0 <= m_PC s < lenZ code
}.
Record ready (k r : Z) s : Prop := {
  ready_settled : settled s;
  ready_stack : stack_ok s;
  ready_tx : tx_ok s;
  ready_SP : 0 <= m_SP s /\ m_SP s + k <= stackLimit;
  ready_SPP : m_SPP s = m_SP s + k - r /\ 0 <= m_SPP s;
  ready_PC : 0 <= m_PC s < lenZ pCode
}.

Lemma ready_core k r s : ready k r s -> 0 <= r -> core s.
Proof. intros [? ? ? ? ? ?] Hr. constructor; try done; [lia | rewrite code_len; lia]. Qed.

Lemma at_index_ok {A} i (l : list A) : 0 <= i < lenZ l -> exists x, at_index i l = Ok x /\ l !! Z.to_nat i = Some x.
Proof.
  intros Hi. unfold at_index. rewrite (proj2 (Z.ltb_ge i 0)) by lia.
  destruct (lookup_lt_is_Some_2 l (Z.to_nat i)) as [x Hx]; [unfold lenZ in Hi; lia |]. rewrite Hx. eauto.
Qed.

Lemma ends_SP (Q : Z -> VM W -> Prop) k r i s : ready k r s -> 0 <= i < k ->
  (u256 (slot (m_stack s) (m_SP s) i) -> Q (slot (m_stack s) (m_SP s) i) s) -> ends Q (SP i) s.
Proof.
  intros Hr Hi HQ. destruct (ready_stack _ _ _ Hr) as [Hl Hw]. pose proof (ready_SP _ _ _ Hr).
  destruct (at_index_ok (m_SP s + i) (m_stack s)) as (x & E1 & E2); [unfold stackLimit in *; lia |].
  apply ends_bind, ends_get, (ends_lift _ _ x); [done |].
  replace x with (slot (m_stack s) (m_SP s) i) by (unfold slot; by rewrite E2).
  apply HQ. unfold slot. rewrite E2. by eapply (proj1 (Forall_lookup _ _) Hw).
Qed.

Lemma stack_ok_put i v s : stack_ok s -> u256 v -> stack_ok (set_stack (<[Z.to_nat i := v]> (m_stack s)) s).
Proof.
  intros [Hl Hw] Hv. split; cbn; [unfold lenZ in *; by rewrite length_insert |]. by apply Forall_insert.
Qed.
Lemma ends_put_slot (Q : unit -> VM W -> Prop) i v s : stack_ok s -> 0 <= i < stackLimit -> u256 v ->
  (forall st, stack_ok (set_stack st s) -> Q tt (set_stack st s)) -> ends Q (put_slot i v) s.
Proof.
  intros Hs Hi Hv HQ. destruct (at_index_ok i (m_stack s)) as (x & E1 & _); [rewrite (proj1 Hs); lia |].
  apply ends_bind, ends_get, ends_bind, (ends_lift _ _ x); [done |]. apply ends_mod, HQ. by apply stack_ok_put.
Qed.
Lemma ends_put_SPP (Q : unit -> VM W -> Prop) k r v s : ready k r s -> 1 <= r -> u256 v ->
  (forall st, stack_ok (set_stack st s) -> Q tt (set_stack st s)) -> ends Q (put_SPP v) s.
Proof.
  intros Hr Hk Hv HQ. destruct (ready_SPP _ _ _ Hr). pose proof (ready_SP _ _ _ Hr). apply ends_put_slot; [apply Hr | lia | done | done].
Qed.
Lemma ends_put_SP (Q : unit -> VM W -> Prop) k r i v s : ready k r s -> 0 <= i < k -> u256 v ->
  (forall st, stack_ok (set_stack st s) -> Q tt (set_stack st s)) -> ends Q (put_SP i v) s.
Proof. intros Hr Hk Hv HQ. pose proof (ready_SP _ _ _ Hr). apply ends_put_slot; [apply Hr | lia | done | done]. Qed.

Lemma settled_gas g s : settled s -> 0 <= g <= m_io_gas s -> settled (set_io_gas g s).
Proof. intros [Hi Hg] Hle. split; [done | cbn; lia]. Qed.

Lemma ends_updateIOGas (Q : unit -> VM W -> Prop) s : settled s -> 0 <= m_runGas s ->
  (m_runGas s <= m_io_gas s -> settled (set_io_gas (m_io_gas s - m_runGas s) s) -> Q tt (set_io_gas (m_io_gas s - m_runGas s) s)) ->
  ends Q updateIOGas s.
Proof.
  intros Hs Hr HQ. apply ends_bind, ends_get. destruct (Z.ltb_spec (m_io_gas s) (m_runGas s)); [apply ends_throw; [done | by right] |].
  apply ends_mod, HQ; [done | apply settled_gas; [done | lia]].
Qed.

Lemma ends_toInt63 (Q : Z -> VM W -> Prop) v s : settled s -> (v <= INT64_MAX -> Q v s) -> ends Q (toInt63 v) s.
Proof.
  intros Hs HQ. unfold toInt63. destruct (Z.ltb_spec INT64_MAX v); [apply ends_throw; [done | by right] | by apply ends_ret, HQ].
Qed.

Lemma ends_add_runGas (Q : unit -> VM W -> Prop) n s : 0 <= m_runGas s + n < 2 ^ 64 -> Q tt (set_runGas (m_runGas s + n) s) -> ends Q (add_runGas n) s.
Proof. intros Hn HQ. unfold ends, add_runGas. cbn. by rewrite wrap_small. Qed.

Lemma ends_updateGas (Q : unit -> VM W -> Prop) s :
  settled s -> 0 <= m_runGas s -> 0 <= m_copyMemSize s -> m_runGas s + copyGas * ((m_copyMemSize s + 31) / 32) <= 2 ^ 63 ->
  (forall g, m_runGas s <= g <= m_io_gas s -> Q tt (set_runGas g s)) -> ends Q updateGas s.
Proof.
  intros Hs Hr Hc Hsum HQ. unfold updateGas.
  assert (Hcp : 0 <= copyGas * ((m_copyMemSize s + 31) / 32)) by (pose proof (Z.div_pos (m_copyMemSize s + 31) 32); unfold copyGas; lia).
  assert (Hend : forall c, 0 <= c <= INT64_MAX ->
    ends Q (add_runGas (copyGas * ((m_copyMemSize s + 31) / 32));; s' ← se_get; se_when (m_io_gas s' <? m_runGas s') (throw OutOfGas))
      (set_runGas (m_runGas s + c) s)).
  { intros c Hcr. apply ends_bind, ends_add_runGas; [cbn; unfold INT64_MAX in *; lia |]. apply ends_bind, ends_get, ends_when.
    - intros _. apply ends_throw; [done | by right].
    - cbn. intros Hle%Z.ltb_ge. specialize (HQ (m_runGas s + c + copyGas * ((m_copyMemSize s + 31) / 32)) ltac:(lia)). by destruct s. }
  apply ends_bind, ends_get, ends_bind, ends_when.
  - intros _. unfold gasForMem. apply ends_bind, ends_toInt63; [done |]. intros Ha. apply ends_bind, ends_toInt63; [done |]. intros Hb.
    apply ends_bind, ends_toInt63; [done |]. intros Hd. pose proof (wrap_range 64 (memoryGas * (m_newMemSize s / 32) + m_newMemSize s / 32 * (m_newMemSize s / 32) / quadCoeffDiv
      - (memoryGas * (mem_size s / 32) + mem_size s / 32 * (mem_size s / 32) / quadCoeffDiv)) ltac:(lia)).
    apply ends_add_runGas; [unfold INT64_MAX in *; lia |]. apply Hend. lia.
  - intros _. specialize (Hend 0 ltac:(unfold INT64_MAX; lia)). rewrite Z.add_0_r in Hend. by destruct s.
Qed.

Lemma ends_updateMem (Q : unit -> VM W -> Prop) n s :
  settled s -> bytes_ok (m_mem s) -> 0 <= n <= 2 ^ 63 + 32 -> 0 <= m_runGas s -> 0 <= m_copyMemSize s ->
  m_runGas s + copyGas * ((m_copyMemSize s + 31) / 32) <= 2 ^ 63 ->
  (forall nm g mem, m_runGas s <= g <= m_io_gas s -> n <= lenZ mem -> lenZ (m_mem s) <= lenZ mem -> bytes_ok mem ->
    Q tt (set_mem mem (set_runGas g (set_newMemSize nm s)))) -> ends Q (updateMem n) s.
Proof.
  intros Hs Hmb Hn Hr Hc Hsum HQ. unfold updateMem. apply ends_bind, ends_mod. rewrite (wrap_small 64 (n + 31)) by lia.
  set (nm := (n + 31) / 32 * 32). assert (n <= nm) by (pose proof (Z.div_mod (n + 31) 32 ltac:(lia)); pose proof (Z.mod_pos_bound (n + 31) 32 ltac:(lia)); lia).
  apply ends_bind, ends_updateGas; [done | done | done | done |]. cbn. intros g Hg. apply ends_bind, ends_get, ends_when.
  - intros Hlt%Z.ltb_lt. apply ends_mod. cbn in *. unfold mem_size in *. cbn in *. apply HQ; [done | | |]; [rewrite lenZ_app, (lenZ_replicate (Z.to_nat _)); unfold mem_size; cbn; lia .. |]. apply Forall_app. split; [done | by apply Forall_replicate].
  - intros Hlt%Z.ltb_ge. unfold mem_size in Hlt. cbn in Hlt. specialize (HQ nm g (m_mem s) Hg ltac:(lia) ltac:(lia) Hmb). by destruct s.
Qed.

Lemma slice_ok off size (l : bytes) : 0 <= size -> (size <> 0 -> 0 <= off /\ off + size <= lenZ l) ->
  exists bs, slice off size l = Ok bs /\ lenZ bs = size /\ (bytes_ok l -> bytes_ok bs).
Proof.
  intros Hs Hb. unfold slice. destruct (Z.eqb_spec size 0) as [->|Hn]; [exists []; split; [done | split; [done | constructor]] |]. destruct (Hb Hn).
  rewrite !(proj2 (Z.leb_le _ _)) by lia. cbn. eexists. split; [done |]. split; [unfold lenZ in *; rewrite length_take, length_drop; lia |]. intros. by apply Forall_take, Forall_drop.
Qed.
Lemma ends_mem_read (Q : bytes -> VM W -> Prop) off size s : 0 <= size -> (size <> 0 -> 0 <= off /\ off + size <= lenZ (m_mem s)) ->
  bytes_ok (m_mem s) -> (forall bs, lenZ bs = size -> bytes_ok bs -> Q bs s) -> ends Q (mem_read off size) s.
Proof.
  intros Hs Hb Hm HQ. destruct (slice_ok off size (m_mem s) Hs Hb) as (bs & E1 & Hl & Hbs).
  apply ends_bind, ends_get, (ends_lift _ _ bs); [done | apply HQ; auto].
Qed.
Lemma ends_mem_write (Q : unit -> VM W -> Prop) off bs s : (lenZ bs <> 0 -> 0 <= off /\ off + lenZ bs <= lenZ (m_mem s)) ->
  bytes_ok bs -> bytes_ok (m_mem s) -> (forall mem, lenZ mem = lenZ (m_mem s) -> bytes_ok mem -> Q tt (set_mem mem s)) -> ends Q (mem_write off bs) s.
Proof.
  intros Hb Hbs Hm HQ. apply ends_bind, ends_get. destruct (Z.eqb_spec (lenZ bs) 0) as [E0|Hn].
  - apply ends_ret. specialize (HQ (m_mem s) eq_refl Hm). by destruct s.
  - destruct (Hb Hn). rewrite !(proj2 (Z.leb_le _ _)) by lia. apply ends_mod, HQ.
    + unfold lenZ in *. rewrite !length_app, length_take, length_drop. lia.
    + repeat apply Forall_app_2; try apply Forall_app_2; try done; [by apply Forall_take | by apply Forall_drop].
Qed.

Lemma ends_memNeed (Q : Z -> VM W -> Prop) off size s : settled s -> u256 off -> u256 size ->
  (forall n, 0 <= n <= INT64_MAX -> (size <> 0 -> n = off + size) -> Q n s) -> ends Q (memNeed off size) s.
Proof.
  intros Hs Ho Hz HQ. apply ends_toInt63; [done |]. intros Hle. unfold u256 in *.
  destruct (Z.eqb_spec size 0) as [->|Hn]; apply HQ; try done; lia.
Qed.

(** ** The state after an instruction *)
Definition calls (op : Instruction) : option Bounce :=
  match op with CALL | CALLCODE | DELEGATECALL | STATICCALL => Some BCall | CREATE | CREATE2 => Some BCreate | _ => None end.
Definition entered (op : Instruction) s : Prop :=
  ready (i_args (instructionInfo op)) (i_ret (instructionInfo op)) s /\ m_OP s = op /\ m_copyMemSize s = 0.
Definition stepped (g : Z) (b : Bounce) s : Prop :=
  match b with
  | BInterpret => core s /\ m_io_gas s < g
  | BNone => settled s /\ output_ok s
  | b => entered (m_OP s) s /\ calls (m_OP s) = Some b /\ m_io_gas s = g
  end.
Definition costs (op : Instruction) (c : Z) : Prop :=
  0 <= c < 2 ^ 15 /\
  match gasPriceTier (instructionInfo op), op with
  | Special, EXTCODEHASH => 0 < c
  | Special, _ | Zero, _ => True
  | _, _ => 0 < c
  end.
Definition charged (op : Instruction) s : Prop := costs op (m_runGas s).

Ltac facts H := let H1 := fresh in let H2 := fresh in let H3 := fresh in let H4 := fresh in let H5 := fresh in let H6 := fresh in
  destruct H as [H1 H2 H3 H4 H5 H6]; unfold settled, stack_ok, tx_ok in H1, H2, H3; cbn in H1, H2, H3, H4, H5, H6;
  destruct H1 as [? ?]; destruct H2 as [? ?]; destruct H3 as (? & [? ?] & ? & ?); destruct H4 as [? ?]; destruct H5 as [? ?].
Ltac side := unfold settled, stack_ok, tx_ok, u256, INT64_MAX, stackLimit, mem_size in *; cbn in *; try done; try lia.
Ltac rdy := match goal with H : ready ?k ?r _ |- ready ?k' ?r' _ => unify k k'; unify r r'; facts H end;
  solve [constructor; unfold settled, stack_ok, tx_ok in *; cbn in *; repeat match goal with |- _ /\ _ => split end; first [assumption | lia | tauto | rewrite lenZ_nil; lia | constructor]].
Ltac mem_ok := first [assumption | solve [match goal with H : ready _ _ _ |- _ => facts H; assumption end] | solve [apply Forall_replicate; unfold is_byte; lia]].
Ltac settle := first [assumption | solve [match goal with H : ready _ _ _ |- _ => destruct (ready_settled _ _ _ H) end; split; cbn in *; first [assumption | lia]]].

Lemma ends_NEXT k r g s : ready k r s -> 0 <= r -> m_io_gas s < g -> ends (stepped g) NEXT s.
Proof.
  intros Hr Hk Hg. apply ends_bind, ends_mod, ends_ret. facts Hr. rewrite wrap_small by lia. split; [| done].
  constructor; unfold settled, stack_ok, tx_ok; cbn in *; repeat split; first [assumption | lia].
Qed.

Ltac vm_step :=
  lazymatch goal with
  | |- ends _ (_ ≫= _) _ => apply ends_bind
  | |- ends _ (mret _) _ => apply ends_ret
  | |- ends _ se_get _ => apply ends_get; cbv beta
  | |- ends _ (se_mod _) _ => apply ends_mod; cbv beta
  | |- ends _ (throw _) _ => apply ends_throw; [settle | right; exact Logic.I]
  | |- ends _ (se_when _ _) _ => apply ends_when; intros ?
  | |- ends _ (SP _) _ => eapply ends_SP; [rdy | side | intros ?]; cbn [m_stack m_SP set_io_gas set_mem set_runGas set_newMemSize set_copyMemSize set_context set_returnData set_PC set_output set_tx_context]
  | |- ends _ updateIOGas _ => apply ends_updateIOGas; [settle | side | intros ? ?]
  | |- ends _ (toInt63 _) _ => apply ends_toInt63; [settle | intros ?]
  | |- ends _ (memNeed _ _) _ => apply ends_memNeed; [settle | assumption | assumption | intros ? ? ?]
  | |- ends _ (put_SPP _) _ => eapply ends_put_SPP; [rdy | side | eauto with evm | intros ? ?]
  | |- ends _ (put_SP _ _) _ => eapply ends_put_SP; [rdy | side | eauto with evm | intros ? ?]
  | |- ends _ NEXT _ => eapply ends_NEXT; [rdy | side | side]
  | |- ends _ (if ?b then _ else _) _ => destruct b eqn:?
  | |- ends _ (match ?b with _ => _ end) _ => destruct b eqn:?
  end.
Ltac vm_steps := repeat vm_step.

Lemma ends_push_value k r g v s : ready k r s -> 1 <= r -> m_io_gas s < g -> u256 v -> ends (stepped g) (push_value v) s.
Proof. intros Hr Hk Hg Hv. unfold push_value. vm_steps. Qed.

Lemma ends_case0 (m : SE (VM W) Z) k r s : ready k r s -> 1 <= r -> 0 < m_runGas s ->
  (forall s', ready k r s' -> ends (fun x s'' => u256 x /\ ready k r s'' /\ m_io_gas s'' = m_io_gas s') m s') ->
  ends (stepped (m_io_gas s)) (case0 m) s.
Proof.
  intros Hr Hk Hg Hm. unfold case0. vm_steps. assert (Hr' : ready k r (set_io_gas (m_io_gas s - m_runGas s) s)) by rdy.
  eapply ends_mono; [| exact (Hm _ Hr')]. cbn. intros x s'' (Hx & Hr'' & E'). eapply ends_push_value; [exact Hr'' | done | lia | done].
Qed.
Lemma ends_case1 f k s : ready k 1 s -> 1 <= k -> 0 < m_runGas s -> (forall a, u256 a -> u256 (f a)) -> ends (stepped (m_io_gas s)) (case1 f) s.
Proof. intros Hr Hk Hg Hf. unfold case1, push_value. vm_steps. Qed.
Lemma ends_case2 f k s : ready k 1 s -> 2 <= k -> 0 < m_runGas s -> (forall a b, u256 a -> u256 b -> u256 (f a b)) -> ends (stepped (m_io_gas s)) (case2 f) s.
Proof. intros Hr Hk Hg Hf. unfold case2, push_value. vm_steps. Qed.
Lemma ends_case3 f k s : ready k 1 s -> 3 <= k -> 0 < m_runGas s -> (forall a b c, u256 a -> u256 b -> u256 c -> u256 (f a b c)) ->
  ends (stepped (m_io_gas s)) (case3 f) s.
Proof. intros Hr Hk Hg Hf. unfold case3, push_value. vm_steps. Qed.

Lemma ends_pay_range (Q : unit -> VM W -> Prop) k r i j s :
  ready k r s -> 0 <= i < k -> 0 <= j < k -> 0 <= m_runGas s -> 0 <= m_copyMemSize s ->
  m_runGas s + copyGas * ((m_copyMemSize s + 31) / 32) <= 2 ^ 63 ->
  (forall nm g mem, m_runGas s <= g <= m_io_gas s ->
    (slot (m_stack s) (m_SP s) j <> 0 -> slot (m_stack s) (m_SP s) i + slot (m_stack s) (m_SP s) j <= Z.min (lenZ mem) INT64_MAX) -> bytes_ok mem ->
    Q tt (set_io_gas (m_io_gas s - g) (set_mem mem (set_runGas g (set_newMemSize nm s))))) ->
  ends Q (pay_range i j) s.
Proof.
  intros Hr Hi Hj Hg Hc Hsum HQ. unfold pay_range. vm_steps.
  apply ends_updateMem; [settle | mem_ok | unfold INT64_MAX in *; lia | done | done | done |]. intros nm g mem Hg' Hn Hl Hmb. vm_steps.
  apply HQ; [done | | done]. intros Hne. match goal with He : _ <> 0 -> _ = _ |- _ => specialize (He Hne) end. lia.
Qed.
Lemma ends_pay_word (Q : unit -> VM W -> Prop) k r n s :
  ready k r s -> 1 <= k -> 0 <= n <= 32 -> 0 <= m_runGas s < 2 ^ 15 -> m_copyMemSize s = 0 ->
  (forall nm g mem, m_runGas s <= g <= m_io_gas s -> slot (m_stack s) (m_SP s) 0 + n <= lenZ mem -> bytes_ok mem ->
    Q tt (set_io_gas (m_io_gas s - g) (set_mem mem (set_runGas g (set_newMemSize nm s))))) ->
  ends Q (pay_word n) s.
Proof.
  intros Hr Hk Hn Hg Hc HQ. unfold pay_word. vm_steps.
  apply ends_updateMem; [settle | mem_ok | side | lia | lia | rewrite Hc; change (copyGas * ((0 + 31) / 32)) with 0; lia |]. intros nm g mem Hg' Hm Hl Hmb. vm_steps. by apply HQ.
Qed.

Lemma ends_code_at (Q : Z -> VM W -> Prop) pc s : 0 <= pc < lenZ code -> (forall b, is_byte b -> code !! Z.to_nat pc = Some b -> Q b s) -> ends Q (code_at code pc) s.
Proof.
  intros Hp HQ. destruct (at_index_ok pc code Hp) as (b & E1 & E2). apply (ends_lift _ _ b); [done |]. apply HQ; [| done].
  by eapply (proj1 (Forall_lookup _ _) code_bytes).
Qed.
Lemma ends_getTxContext (Q : TxContext -> VM W -> Prop) s : settled s -> tx_ok s ->
  (forall c w, tx_context_ok c -> I w -> Q c (set_tx_context (Some c) (set_context w s))) -> ends Q (getTxContext host) s.
Proof.
  intros Hs [Ht _] HQ. apply ends_bind, ends_get. destruct (m_tx_context s) as [c|] eqn:Ec.
  - apply ends_ret. specialize (HQ c (m_context s) Ht (proj1 Hs)). destruct s. cbn in *. by subst.
  - apply ends_bind. eapply ends_host; [apply ok_get_tx_context | done |]. intros c w Hc Hw. vm_steps. by apply HQ.
Qed.

(** ** The cases *)
Ltac host_step op := eapply ends_host; [apply op; auto with evm | settle | intros ? ? ? ?].
Lemma copy_none : copyGas * ((0 + 31) / 32) = 0.
Proof. done. Qed.

Lemma ends_case_return k s : ready k 0 s -> 2 <= k -> 0 <= m_runGas s < 2 ^ 15 -> ends (fun out s' => settled s' /\ lenZ out < 2 ^ 63 /\ bytes_ok out) case_return s.
Proof.
  intros Hr Hk Hg. unfold case_return. vm_steps. eapply ends_pay_range; [rdy | lia | lia | side | side | cbn; rewrite copy_none; lia |].
  cbn. intros nm g mem Hg' Hm Hmb. vm_steps. apply ends_mem_read; [apply wrap_range; lia | | mem_ok |].
  - intros Hn. assert (slot (m_stack s) (m_SP s) 1 <> 0) as Hne by (intros E0; by rewrite E0 in Hn). specialize (Hm Hne). side.
    rewrite !wrap_small by lia. lia.
  - intros bs Hlen Hbs. vm_steps. split; [settle |]. split; [| done]. rewrite Hlen. destruct (Z.eq_dec (slot (m_stack s) (m_SP s) 1) 0) as [->|Hne]; [done |].
    specialize (Hm Hne). side. rewrite wrap_small; lia.
Qed.

Lemma ends_mload k s : ready k 1 s -> 1 <= k -> 0 < m_runGas s < 2 ^ 15 -> m_copyMemSize s = 0 -> ends (stepped (m_io_gas s)) case_mload s.
Proof.
  intros Hr Hk Hg Hc. unfold case_mload. vm_step. eapply ends_pay_word; [exact Hr | lia | lia | lia | done |].
  intros nm g mem Hg' Hm Hmb. vm_steps. apply ends_mem_read; [lia | | mem_ok |].
  - intros _. pose proof (wrap_range 32 (slot (m_stack s) (m_SP s) 0) ltac:(lia)). cbn. split; [lia |].
    enough (wrap 32 (slot (m_stack s) (m_SP s) 0) <= slot (m_stack s) (m_SP s) 0) by lia. apply Z.mod_le; side.
  - intros bs _ Hbs. eapply ends_push_value; [rdy | lia | side | auto with evm].
Qed.
Lemma ends_mstore n (f : Z -> bytes) k s : ready k 0 s -> 2 <= k -> 0 < m_runGas s < 2 ^ 15 -> m_copyMemSize s = 0 -> 0 <= n <= 32 -> (forall v, lenZ (f v) = n /\ bytes_ok (f v)) ->
  ends (stepped (m_io_gas s)) (pay_word n;; a ← SP 0; v ← SP 1; mem_write (wrap 32 a) (f v);; NEXT) s.
Proof.
  intros Hr Hk Hg Hc Hn Hf. vm_step. eapply ends_pay_word; [exact Hr | lia | lia | lia | done |].
  intros nm g mem Hg' Hm Hmb. vm_steps. apply ends_mem_write.
  - intros _. rewrite (proj1 (Hf _)). pose proof (wrap_range 32 (slot (m_stack s) (m_SP s) 0) ltac:(lia)). cbn. split; [lia |].
    enough (wrap 32 (slot (m_stack s) (m_SP s) 0) <= slot (m_stack s) (m_SP s) 0) by lia. apply Z.mod_le; side.
  - apply Hf.
  - mem_ok.
  - intros mem' Hl Hb'. vm_steps.
Qed.

Lemma ends_sha3 k s : ready k 1 s -> 2 <= k -> m_copyMemSize s = 0 -> ends (stepped (m_io_gas s)) case_sha3 s.
Proof.
  intros Hr Hk Hc. unfold case_sha3. vm_steps.
  assert (0 < sha3Gas + (slot (m_stack s) (m_SP s) 1 + 31) / 32 * sha3WordGas) as Hpos.
  { pose proof (Z.div_pos (slot (m_stack s) (m_SP s) 1 + 31) 32). side. unfold sha3Gas, sha3WordGas. lia. }
  eapply ends_pay_range; [rdy | lia | lia | cbn; lia | cbn; lia | cbn; rewrite Hc, copy_none; side |].
  cbn. intros nm g mem Hg' Hm Hmb. vm_steps. apply ends_mem_read; [apply wrap_range; lia | | mem_ok |].
  - intros Hn. assert (slot (m_stack s) (m_SP s) 1 <> 0) as Hne by (intros E0; by rewrite E0 in Hn). specialize (Hm Hne). side.
    rewrite !wrap_small by lia. lia.
  - intros bs _ Hbs. eapply ends_push_value; [rdy | lia | side | auto with evm].
Qed.

Lemma ends_topics (Q : list Z -> VM W -> Prop) k r n i s : ready k r s -> 0 <= i -> i + Z.of_nat n <= k ->
  (forall ts, Forall u256 ts -> Q ts s) -> ends Q (topics n i) s.
Proof.
  intros Hr. revert Q i. induction n as [|n IH]; intros Q i Hi Hn HQ; cbn [topics]; [apply ends_ret, HQ; constructor |].
  apply ends_bind. eapply ends_SP; [exact Hr | lia |]. intros Hu. apply ends_bind, IH; [lia | lia |]. intros ts Ht. apply ends_ret, HQ. by constructor.
Qed.
Lemma ends_log n s : ready (n + 2) 0 s -> 0 <= n <= 4 -> m_copyMemSize s = 0 -> ends (stepped (m_io_gas s)) (case_log host msg n) s.
Proof.
  intros Hr Hn Hc. unfold case_log, unless_static, logGasMem. vm_steps.
  assert (0 < logGas + logTopicGas * n + logDataGas * slot (m_stack s) (m_SP s) 1) as Hpos by (unfold logGas, logTopicGas, logDataGas; side).
  apply ends_updateMem; [settle | mem_ok | side | cbn; lia | cbn; lia | cbn; rewrite Hc, copy_none; side |].
  cbn. intros nm g mem Hg' Hm Hl Hmb. vm_steps. apply ends_mem_read; [apply wrap_range; lia | | mem_ok |].
  - intros Hne'. assert (slot (m_stack s) (m_SP s) 1 <> 0) as Hne by (intros E0; by rewrite E0 in Hne').
    match goal with He : _ <> 0 -> _ = _ |- _ => specialize (He Hne) end. side. rewrite !wrap_small by lia. lia.
  - intros bs Hlen Hbs. vm_steps. eapply (ends_topics _ (n + 2) 0); [rdy | lia | lia |]. intros ts Hts. vm_step. host_step ok_emit_log. vm_steps.
Qed.

Lemma ends_selfdestruct g a b s : settled s -> m_output s = [] -> 0 <= m_runGas s ->
  ends (stepped g) (updateIOGas;; of_host (selfdestruct host a b);; mret BNone) s.
Proof.
  intros Hs Ho Hg. vm_step. apply ends_updateIOGas; [done | done |]. intros _ Hs'. vm_step. eapply ends_host; [apply ok_selfdestruct | done |].
  intros _ w _ Hw. apply ends_ret. split; [split; [done | apply Hs'] |]. unfold output_ok. cbn. rewrite Ho. split; [rewrite lenZ_nil; lia | constructor].
Qed.
Lemma ends_suicide k s : ready k 0 s -> 1 <= k -> ends (stepped (m_io_gas s)) (case_suicide host rev msg) s.
Proof.
  intros Hr Hk. unfold case_suicide, unless_static. set (g0 := if rev_ge rev EVMC_TANGERINE_WHISTLE then 5000 else 0).
  assert (0 <= g0 <= 5000) by (unfold g0; case_match; lia). clearbody g0. do 5 vm_step. vm_step. vm_step. host_step ok_get_balance. vm_step. vm_step.
  - vm_step. host_step ok_account_exists. vm_step.
    + apply ends_add_runGas; [cbn; unfold callNewAccount; lia |]. apply ends_selfdestruct; [settle | cbn; apply Hr | cbn; unfold callNewAccount; lia].
    + apply ends_selfdestruct; [settle | cbn; apply Hr | cbn; lia].
  - apply ends_selfdestruct; [settle | cbn; apply Hr | cbn; lia].
Qed.

Lemma leading_zeros_range n d : 0 <= leading_zeros n d <= Z.of_nat n.
Proof. revert d. induction n as [|n IH]; intros d; cbn [leading_zeros]; [lia |]. case_match; [lia |]. specialize (IH (wrap 8 (Z.shiftl d 1))). lia. Qed.
Lemma firstBitSet_range h : 0 <= firstBitSet h <= 8 * lenZ h.
Proof.
  induction h as [|d h IH]; cbn [firstBitSet]; [unfold lenZ; cbn; lia |]. rewrite lenZ_cons. pose proof (lenZ_nonneg h).
  case_match; [lia |]. pose proof (leading_zeros_range 8 d). lia.
Qed.

Lemma ends_exp k s : ready k 1 s -> 2 <= k -> ends (stepped (m_io_gas s)) (case_exp rev) s.
Proof.
  intros Hr Hk. unfold case_exp. do 2 vm_step.
  set (c := stepGas5 + _ * _). assert (0 < c) as Hc.
  { unfold c, stepGas5. pose proof (firstBitSet_range (toBigEndian 32 (slot (m_stack s) (m_SP s) 1))) as Hf. unfold lenZ in Hf. rewrite toBigEndian_length in Hf.
    pose proof (Z.div_le_upper_bound (firstBitSet (toBigEndian 32 (slot (m_stack s) (m_SP s) 1))) 8 32 ltac:(lia) ltac:(lia)). destruct (rev_ge _ _); lia. }
  clearbody c. vm_steps. eapply ends_push_value; [rdy | lia | side | auto with evm].
Qed.
Lemma ends_signextend k s : ready k 1 s -> 2 <= k -> 0 < m_runGas s -> ends (stepped (m_io_gas s)) case_signextend s.
Proof. intros Hr Hk Hg. unfold case_signextend. vm_steps. Qed.
Lemma ends_calldataload k s : ready k 1 s -> 1 <= k -> 0 < m_runGas s -> ends (stepped (m_io_gas s)) (case_calldataload msg) s.
Proof.
  intros Hr Hk Hg. unfold case_calldataload. do 5 vm_step. destruct (Z.ltb_spec (slot (m_stack s) (m_SP s) 0 + 31) (lenZ (msg_input msg))).
  - destruct (slice_ok (wrap 64 (slot (m_stack s) (m_SP s) 0)) 32 (msg_input msg)) as (bs & E1 & _); [lia | |].
    { intros _. rewrite wrap_small; side. }
    vm_step. apply (ends_lift _ _ bs); [done |]. vm_steps.
  - unfold padded_word. vm_steps.
Qed.

Lemma ends_copyData g data s : ready 3 0 s -> lenZ data < 2 ^ 63 -> bytes_ok data -> m_io_gas s < g -> slot (m_stack s) (m_SP s) 2 <= INT64_MAX ->
  (slot (m_stack s) (m_SP s) 2 <> 0 -> slot (m_stack s) (m_SP s) 0 + slot (m_stack s) (m_SP s) 2 <= Z.min (lenZ (m_mem s)) INT64_MAX) ->
  ends (stepped g) (copyDataToMemory data;; NEXT) s.
Proof.
  intros Hr Hd Hdb Hg Hz Hm. unfold copyDataToMemory. do 7 vm_step.
  set (a := slot _ _ 0) in *. set (b := slot _ _ 1) in *. set (c := slot _ _ 2) in *. rewrite (wrap_small 64 c) by side.
  set (n := if lenZ data <? b + c then _ else _).
  assert (0 <= n <= c /\ (0 < n -> wrap 64 b = b /\ b + n <= lenZ data)) as [Hn Hn'].
  { unfold n. pose proof (lenZ_nonneg data). destruct (Z.ltb_spec (lenZ data) (b + c)); [destruct (Z.ltb_spec (lenZ data) b) |]; side.
    - rewrite (wrap_small 64 b) by lia. rewrite wrap_small by lia. lia.
    - split; [lia |]. intros _. rewrite wrap_small by lia. lia. }
  clearbody n. assert (c <> 0 -> wrap 64 a = a /\ a + c <= lenZ (m_mem s)) as Ha.
  { intros Hne. specialize (Hm Hne). split; [apply wrap_small; side | lia]. }
  vm_step. vm_step.
  - bool_to_prop. destruct Hn' as [Eb Hb]; [lia |]. destruct Ha as [Ea Ham]; [lia |]. rewrite Eb, Ea.
    destruct (slice_ok b n data) as (bs & E1 & Hl & Hbs); [lia | side; lia |]. vm_step. apply (ends_lift _ _ bs); [done |].
    apply ends_mem_write; [side | auto | mem_ok |]. intros mem Hmem Hmb. vm_step; [| vm_steps]. bool_to_prop.
    apply ends_mem_write; [rewrite lenZ_replicate; cbn; side | mem_ok | mem_ok |]. intros mem' _ ?. vm_steps.
  - vm_step; [| vm_steps]. bool_to_prop. apply ends_mem_write; [| mem_ok | mem_ok | intros mem' _ ?; vm_steps].
    rewrite lenZ_replicate. intros _. destruct Ha as [Ea Ham]; [lia |]. rewrite Ea. side.
Qed.

Lemma ends_datacopy data s : ready 3 0 s -> 0 < m_runGas s < 2 ^ 15 -> lenZ data < 2 ^ 63 -> bytes_ok data -> ends (stepped (m_io_gas s)) (case_datacopy data) s.
Proof.
  intros Hr Hg Hd Hdb. unfold case_datacopy. vm_steps. eapply ends_pay_range; [rdy | lia | lia | cbn; lia | side | |].
  { cbn. set (z := slot _ _ 2) in *. pose proof (Z.div_le_upper_bound (z + 31) 32 (2 ^ 59) ltac:(lia)). unfold copyGas. side. }
  cbn. intros nm g mem Hg' Hm Hmb. apply ends_copyData; [rdy | done | done | side | done | exact Hm].
Qed.

Lemma ends_returndatacopy s : ready 3 0 s -> 0 < m_runGas s < 2 ^ 15 -> ends (stepped (m_io_gas s)) (case_returndatacopy rev) s.
Proof. intros Hr Hg. destruct (ready_tx _ _ _ Hr) as (_ & [? ?] & _). unfold case_returndatacopy, since. vm_steps. by apply ends_datacopy. Qed.

Lemma ends_extcodecopy s : ready 4 0 s -> ends (stepped (m_io_gas s)) (case_extcodecopy host rev) s.
Proof.
  intros Hr. unfold case_extcodecopy. set (g0 := if rev_ge rev EVMC_TANGERINE_WHISTLE then 700 else 20).
  assert (20 <= g0 <= 700) by (unfold g0; case_match; lia). clearbody g0. vm_steps.
  eapply ends_pay_range; [rdy | lia | lia | cbn; lia | side | |].
  { cbn. set (z := slot _ _ 3) in *. pose proof (Z.div_le_upper_bound (z + 31) 32 (2 ^ 59) ltac:(lia)). unfold copyGas. side. }
  cbn. intros nm g mem Hg' Hm Hmb. vm_steps. eapply ends_host; [apply ok_copy_code; side | settle | intros a w [Ha Hab] Hw]. set (z := slot _ _ 3) in *. set (o := slot _ _ 1) in *. cbn beta in *.
  assert (z <> 0 -> wrap 64 o = o /\ o + z <= lenZ mem) as Ho. { intros Hne. specialize (Hm Hne). split; [apply wrap_small; side | lia]. }
  vm_step. apply ends_mem_write; [| done | mem_ok |].
  { intros Hne. cbn. pose proof (lenZ_nonneg a). destruct Ho as [-> ?]; [lia |]. side. }
  intros mem' Hl Hmb'. vm_step. vm_step; [exfalso; bool_to_prop; lia |]. vm_step. apply ends_mem_write; [| mem_ok | mem_ok | intros mem'' _ ?; vm_steps].
  rewrite lenZ_replicate. cbn. intros Hne. pose proof (lenZ_nonneg a). destruct Ho as [-> ?]; [lia |]. cbn in Hl. side.
Qed.

Lemma ends_blockhash s : ready 1 1 s -> ends (stepped (m_io_gas s)) (case_blockhash host) s.
Proof.
  intros Hr. unfold case_blockhash, push_value. do 5 vm_step. apply ends_getTxContext; [settle | apply Hr |].
  intros c w Hc Hw. unfold stepGas6 in *. vm_steps. host_step ok_get_block_hash. vm_steps.
Qed.

Lemma ends_query (og : option Z) f s : ready 1 1 s -> (forall a, answers I E u256 (f a)) ->
  match og with Some g => 0 < g | None => 0 < m_runGas s end -> ends (stepped (m_io_gas s)) (query og f) s.
Proof. intros Hr Hf Hg. unfold query, push_value. destruct og; vm_steps; eapply ends_host; [apply Hf | settle | intros; vm_steps | apply Hf | settle | intros; vm_steps]. Qed.
Lemma ends_of_tx f k r s : ready k r s -> 1 <= r -> 0 < m_runGas s -> (forall c, tx_context_ok c -> u256 (f c)) -> ends (stepped (m_io_gas s)) (of_tx host f) s.
Proof.
  intros Hr Hk Hg Hf. eapply ends_case0; [exact Hr | done | done |]. intros s' Hr'. vm_step. apply ends_getTxContext; [apply Hr' | apply Hr' |].
  intros c w Hc Hw. vm_step. split; [by apply Hf |]. split; [rdy | done].
Qed.
Lemma ends_of_state f k r s : ready k r s -> 1 <= r -> 0 < m_runGas s -> (forall s', ready k r s' -> u256 (f s')) -> ends (stepped (m_io_gas s)) (of_state f) s.
Proof. intros Hr Hk Hg Hf. eapply ends_case0; [exact Hr | done | done |]. intros s' Hr'. vm_steps. split; [by apply Hf | done]. Qed.

Lemma ends_push_loop (Q : Z -> VM W -> Prop) n v s : 0 <= m_PC s -> m_PC s + Z.of_nat n <= lenZ code -> u256 v ->
  (forall v', u256 v' -> Q v' (set_PC (m_PC s + Z.of_nat n) s)) -> ends Q (push_loop code n v) s.
Proof.
  revert v s. induction n as [|n IH]; intros v s Hp Hn Hv HQ; cbn [push_loop].
  - apply ends_ret. specialize (HQ v Hv). rewrite Z.add_0_r in HQ. by destruct s.
  - vm_step. vm_step. vm_step. apply ends_code_at; [lia |]. intros b Hb _. vm_step. apply ends_mod. rewrite (wrap_small 64) by lia.
    apply IH; [cbn; lia | cbn; lia | apply u256_lor; [apply u256_wrap | unfold is_byte in Hb; unfold u256; lia] |].
    intros v' Hv'. cbn. specialize (HQ v' Hv'). replace (m_PC s + 1 + Z.of_nat n) with (m_PC s + Z.of_nat (S n)) by lia. by destruct s.
Qed.
Lemma ends_push n s : ready 0 1 s -> 0 < m_runGas s -> 1 <= n <= 32 -> ends (stepped (m_io_gas s)) (case_push code n) s.
Proof.
  intros Hr Hg Hn. unfold case_push, incPC. assert (Hpc := ready_PC _ _ _ Hr). vm_steps. rewrite wrap_small by (cbn; lia).
  apply ends_push_loop; [cbn; lia | cbn; lia | auto with evm |]. intros v Hv. cbn.
  match goal with Hst : stack_ok (set_stack ?st _) |- _ => assert (Hr' : ready 0 1 (set_stack st (set_io_gas (m_io_gas s - m_runGas s) s))) by rdy end.
  vm_step. eapply ends_put_slot; [apply Hr' | | done |].
  { cbn. destruct (ready_SPP _ _ _ Hr). pose proof (ready_SP _ _ _ Hr). lia. }
  intros st' Hst'. vm_step. split; [| cbn; lia]. facts Hr'. constructor; unfold settled, stack_ok, tx_ok in *; cbn in *; repeat split; first [assumption | lia | tauto].
Qed.

Lemma ends_goto (Q : unit -> VM W -> Prop) d s : settled s -> (0 <= d < lenZ pCode -> Q tt (set_PC d s)) -> ends Q (jump_to dests d) s.
Proof.
  intros Hs HQ. unfold jump_to, verifyJumpDest. destruct ((d <=? INT64_MAX) && bool_decide (d ∈ dests)) eqn:Ed; [| apply ends_throw; [done | by right]].
  bool_to_prop. apply ends_mod, HQ. by eapply (proj1 (Forall_forall _ _) dests_in).
Qed.
Ltac end_core := match goal with H : ready _ _ _ |- _ => facts H end; split; [constructor; unfold settled, stack_ok, tx_ok in *; cbn in *; repeat split; first [assumption | lia | tauto | rewrite lenZ_nil; lia | constructor] | cbn; lia].
Lemma ends_jump s : ready 1 0 s -> 0 < m_runGas s -> ends (stepped (m_io_gas s)) (case_jump dests) s.
Proof. intros Hr Hg. unfold case_jump. vm_steps. apply ends_goto; [settle |]. intros Hd. vm_step. end_core. Qed.
Lemma ends_jumpi s : ready 2 0 s -> 0 < m_runGas s -> ends (stepped (m_io_gas s)) (case_jumpi dests) s.
Proof.
  intros Hr Hg. unfold case_jumpi, incPC. do 6 vm_step.
  - vm_step. pose proof (ready_PC _ _ _ Hr). rewrite wrap_small by (cbn; lia). vm_step. end_core.
  - vm_steps. apply ends_goto; [settle |]. intros Hd. vm_step. end_core.
Qed.
Lemma ends_dup n s : ready n (n + 1) s -> 1 <= n -> 0 < m_runGas s -> ends (stepped (m_io_gas s)) (case_dup n) s.
Proof. intros Hr Hn Hg. unfold case_dup, push_value. vm_steps. Qed.
Lemma ends_swap n s : ready (n + 1) (n + 1) s -> 1 <= n -> 0 < m_runGas s -> ends (stepped (m_io_gas s)) (case_swap n) s.
Proof. intros Hr Hn Hg. unfold case_swap. vm_steps. Qed.
Lemma ends_sload s : ready 1 1 s -> ends (stepped (m_io_gas s)) (case_sload host rev msg) s.
Proof.
  intros Hr. unfold case_sload, push_value. set (g0 := if rev_ge rev EVMC_TANGERINE_WHISTLE then 200 else 50).
  assert (0 < g0) by (unfold g0; case_match; lia). clearbody g0. vm_steps. host_step ok_get_storage. vm_steps.
Qed.
Lemma ends_sstore s : ready 2 0 s -> ends (stepped (m_io_gas s)) (case_sstore host msg) s.
Proof.
  intros Hr. unfold case_sstore, unless_static, sstoreSetGas, sstoreResetGas. vm_steps. eapply ends_host; [by apply ok_set_storage | settle |]. intros st w _ Hw. vm_steps.
Qed.

(** ** Every instruction *)
Definition valid_op (op : Instruction) : Prop :=
  match op with PUSH n => 1 <= n <= 32 | DUP n | SWAP n => 1 <= n <= 16 | LOG n => 0 <= n <= 4 | _ => True end.

Lemma ends_calls op g s : entered op s -> calls op = Some BCall -> m_io_gas s = g -> ends (stepped g) (case_call rev msg op) s.
Proof.
  intros (Hr & Hop & Hc) Hk Hg. unfold case_call, since.
  assert (Hend : stepped g BCall s) by (split; [unfold entered; rewrite Hop; done | split; [by rewrite Hop | done]]).
  destruct op; try done; cbn in Hr; vm_steps; done.
Qed.
Lemma ends_creates op g s : entered op s -> calls op = Some BCreate -> m_io_gas s = g -> ends (stepped g) (mret BCreate) s.
Proof.
  intros (Hr & Hop & Hc) Hk Hg. vm_step. split; [unfold entered; rewrite Hop; done | split; [by rewrite Hop | done]].
Qed.

Lemma ends_NEXT_SP k r g x s : ready k r s -> 0 <= r -> m_io_gas s < g -> ends (stepped g) NEXT (set_SP x s).
Proof.
  intros Hr Hk Hg. apply ends_bind, ends_mod, ends_ret. facts Hr. cbn. rewrite wrap_small by lia. split; [| done].
  constructor; unfold settled, stack_ok, tx_ok; cbn in *; repeat match goal with |- _ /\ _ => split end; first [assumption | lia].
Qed.

Abbreviation cases := (interpretCase host false rev msg pCode code dests pool).
Lemma ends_ordinary op s : entered op s -> charged op s ->
  match op with
  | ADD | MUL | SUB | DIV | SDIV | MOD | SMOD | NOT | LT | GT | SLT | SGT | EQ | ISZERO | AND | OR | XOR | BYTE | SHL | SHR | SAR
  | ADDMOD | MULMOD => ends (stepped (m_io_gas s)) (cases op) s
  | _ => True
  end.
Proof.
  intros (Hr & _ & _) [Hg Ht]. destruct op; try exact Logic.I; cbn in Hr, Ht; cbn [interpretCase]; unfold since; vm_steps;
    try (eapply ends_case1; [rdy | lia | lia | intros; auto with evm]);
    try (eapply ends_case3; [rdy | lia | lia | intros; case_match; bool_to_prop; auto using u256_mod with evm]);
    try (eapply ends_case2; [rdy | lia | lia | intros; try case_match; bool_to_prop; auto using u256_land_l, u256_rem with evm]).
  all: match goal with |- u256 (Z.land ?a ?b) => apply u256_land_l; [done | unfold u256 in *; lia] | _ => idtac end.
  eapply ends_NEXT_SP; [rdy | lia | side].
Qed.

Lemma ends_interpretCase op s : op <> STOP -> valid_op op -> entered op s -> charged op s -> ends (stepped (m_io_gas s)) (cases op) s.
Proof.
  intros Hst Hv He Hch. pose proof (ends_ordinary op s He Hch) as Ho. destruct He as (Hr & Hop & Hc). destruct Hch as [Hg Ht].
  destruct op; try exact Ho; try done; clear Ho; cbn in Hr, Ht, Hv; cbn [interpretCase].
  - (* EXP *) by eapply ends_exp.
  - by eapply ends_signextend.
  - by eapply ends_sha3.
  - eapply ends_case0; [exact Hr | lia | lia |]. intros s' Hr'. vm_step. auto with evm.
  - apply ends_query; [done | intros; apply ok_get_balance | case_match; lia].
  - eapply ends_of_tx; [exact Hr | lia | lia | auto with evm].
  - eapply ends_case0; [exact Hr | lia | lia |]. intros s' Hr'. vm_step. auto with evm.
  - eapply ends_case0; [exact Hr | lia | lia |]. intros s' Hr'. vm_step. destruct msg_words. auto with evm.
  - by eapply ends_calldataload.
  - eapply ends_case0; [exact Hr | lia | lia |]. intros s' Hr'. vm_step. split; [| done]. pose proof (lenZ_nonneg (msg_input msg)). unfold u256. lia.
  - apply ends_datacopy; [done | lia | apply msg_words | apply msg_words].
  - eapply ends_case0; [exact Hr | lia | lia |]. intros s' Hr'. vm_step. split; [| done]. pose proof (lenZ_nonneg pCode). unfold u256. lia.
  - apply ends_datacopy; [done | lia | lia | done].
  - eapply ends_of_tx; [exact Hr | lia | lia | intros c Hx; apply Hx].
  - apply ends_query; [done | intros; apply ok_get_code_size | case_match; lia].
  - by apply ends_extcodecopy.
  - unfold since. vm_steps. eapply ends_of_state; [exact Hr | lia | lia |]. intros s' Hr'. destruct (ready_tx _ _ _ Hr') as (_ & [Hl _] & _). pose proof (lenZ_nonneg (m_returnData s')). unfold u256. lia.
  - apply ends_returndatacopy; [done | lia].
  - unfold since. vm_steps. apply ends_query; [done | intros; apply ok_get_code_hash | done].
  - by apply ends_blockhash.
  - eapply ends_of_tx; [exact Hr | lia | lia | auto with evm].
  - eapply ends_of_tx; [exact Hr | lia | lia | auto with evm].
  - eapply ends_of_tx; [exact Hr | lia | lia | auto with evm].
  - eapply ends_of_tx; [exact Hr | lia | lia | intros c Hx; apply Hx].
  - eapply ends_of_tx; [exact Hr | lia | lia | auto with evm].
  - (* POP *) vm_steps. eapply ends_NEXT_SP; [rdy | lia | side].
  - eapply ends_mload; [exact Hr | lia | lia | done].
  - unfold case_mstore. eapply ends_mstore; [exact Hr | lia | lia | done | lia | intros; unfold lenZ; rewrite toBigEndian_length; split; [done | apply toBigEndian_bytes]].
  - unfold case_mstore8. eapply (ends_mstore 1 (fun v => [Z.land v 0xff])); [exact Hr | lia | lia | done | lia |]. intros v. split; [done |]. constructor; [| constructor].
    unfold is_byte. change 0xff with (Z.ones 8). rewrite Z.land_ones by lia. apply Z.mod_pos_bound. lia.
  - by apply ends_sload.
  - by apply ends_sstore.
  - by apply ends_jump.
  - by apply ends_jumpi.
  - eapply ends_of_state; [exact Hr | lia | lia |]. intros s' Hr'. pose proof (ready_PC _ _ _ Hr'). unfold u256. lia.
  - eapply ends_of_state; [exact Hr | lia | lia |]. intros s' Hr'. pose proof (wrap_range 64 (mem_size s') ltac:(lia)). unfold u256. lia.
  - eapply ends_of_state; [exact Hr | lia | lia |]. intros s' Hr'. destruct (ready_settled _ _ _ Hr') as [_ ?]. unfold u256, INT64_MAX in *. lia.
  - unfold jumpdestGas. vm_steps.
  - by apply ends_push.
  - apply ends_dup; [done | lia | lia].
  - apply ends_swap; [done | lia | lia].
  - by apply ends_log.
  - apply ends_throw; [settle | by right].
  - apply ends_throw; [settle | by right].
  - apply ends_throw; [settle | by right].
  - unfold unless_static. vm_steps. by eapply (ends_creates CREATE).
  - by apply ends_calls.
  - by apply ends_calls.
  - vm_step. eapply ends_mono; [| eapply ends_case_return; [exact Hr | lia | lia]]. cbn. intros out s' [Hs' Ho]. vm_steps. split; [exact Hs' | exact Ho].
  - by apply ends_calls.
  - unfold since, unless_static. vm_steps. by eapply (ends_creates CREATE2).
  - by apply ends_calls.
  - unfold since. vm_steps. eapply ends_mono; [| eapply ends_case_return; [exact Hr | lia | lia]]. intros out s' [Hs' Ho]. apply ends_throw; [exact Hs' | by right].
  - apply ends_throw; [settle | by right].
  - by eapply ends_suicide.
Qed.

(** ** Calls out *)
(** A size that passed [memNeed] is what its 64 bits say. *)
Lemma paid_size off size n : u256 off -> u256 size -> (size <> 0 -> n = off + size) -> 0 <= n <= INT64_MAX -> wrap 64 size < 2 ^ 63.
Proof.
  intros [? ?] [? ?] Hs Hn. destruct (Z.eq_dec size 0) as [->|Hne]; [done |]. specialize (Hs Hne). unfold INT64_MAX in *. rewrite wrap_small; lia.
Qed.
Definition landed (g : Z) (b : Bounce) s : Prop := b = BInterpret /\ core s /\ m_io_gas s < g.

Lemma gas_share g : 0 <= g -> 0 <= g - g / 64 <= g.
Proof. intros Hg. pose proof (Z.div_pos g 64 Hg ltac:(lia)). pose proof (Z.div_le_upper_bound g 64 g ltac:(lia) ltac:(lia)). lia. Qed.
Lemma gas_given (b : bool) g : 0 <= g -> 0 <= (if b then g - g / 64 else g) <= g.
Proof. intros Hg. pose proof (gas_share g Hg). destruct b; lia. Qed.
Lemma call_gas_nonneg (b : bool) x g : 0 <= x -> 0 <= g -> 0 <= (if b then Z.min x (g - g / 64) else x).
Proof. intros Hx Hg. pose proof (gas_share g Hg). destruct b; lia. Qed.

Lemma ends_caseCreate s : entered (m_OP s) s -> calls (m_OP s) = Some BCreate -> ends (landed (m_io_gas s)) (caseCreate host rev msg) s.
Proof.
  intros (Hr0 & _ & Hc) Hop. unfold caseCreate.
  assert (exists k, ready k 1 s /\ 3 <= k /\ (match m_OP s with CREATE2 => 4 <= k | _ => True end)) as (k & Hr & Hk & Hk4).
  { destruct (m_OP s); try done; cbn in Hr0; eexists; (split; [exact Hr0 | lia]). }
  clear Hr0 Hop. do 10 vm_step. apply ends_bind.
  assert (Hsalt : ends (fun x s' => u256 x /\ s' = set_runGas createGas s) (match m_OP s with CREATE2 => SP 3 | _ => mret 0 end) (set_runGas createGas s)).
  { destruct (m_OP s); try (apply ends_ret; auto with evm). eapply ends_SP; [rdy | lia | done]. }
  eapply ends_mono; [| exact Hsalt]. cbn beta. intros salt s' [Hsalt' ->]. clear Hsalt. vm_steps.
  apply ends_updateMem; [settle | mem_ok | side | cbn; unfold createGas; lia | cbn; lia | cbn; rewrite Hc, copy_none; unfold createGas; lia |].
  cbn. intros nm g mem Hg' Hm Hl Hmb. unfold createGas in *. vm_steps. host_step ok_get_balance. vm_step. vm_step.
  - do 2 vm_step. set (gs := if rev_ge rev EVMC_TANGERINE_WHISTLE then _ else _).
    set (o := slot _ _ 1) in *. set (z := slot _ _ 2) in *. set (v := slot _ _ 0) in *.
    destruct (ready_settled _ _ _ Hr) as [_ Hs'].
    assert (Hgs : 0 <= gs <= m_io_gas s - g) by (apply (gas_given (rev_ge rev EVMC_TANGERINE_WHISTLE) (m_io_gas s - g)); clear gs; lia).
    clearbody gs. vm_step. apply ends_mem_read; [apply wrap_range; lia | | mem_ok |].
    { intros Hn. assert (z <> 0) as Hne by (intros E0; by rewrite E0 in Hn).
      match goal with He : z <> 0 -> _ = _ |- _ => specialize (He Hne) end. side. rewrite !wrap_small by lia. lia. }
    intros init Hinit Hib. vm_step. eapply ends_host.
    { apply ok_host_call. split; cbn; [unfold INT64_MAX in *; lia |]. split_and!; try done. rewrite Hinit. eapply (paid_size o z); eassumption. }
    { settle. }
    intros res w' (Hres & Hout & Hob) Hw'. cbn in Hres.
    assert (Hx : u256 (if bool_decide (status_code res = EVMC_SUCCESS) then fromAddress (create_address res) else 0))
      by (destruct (bool_decide _); [apply u256_fromAddress | apply u256_0]).
    unfold incPC. vm_steps. cbn. pose proof (ready_PC _ _ _ Hr). rewrite !(wrap_small 64) by (unfold INT64_MAX in *; lia).
    split; [done |]. end_core.
  - unfold incPC. vm_steps. cbn. pose proof (ready_PC _ _ _ Hr). rewrite wrap_small by lia. split; [done |]. end_core.
Qed.

Section Call.
Variables (k : Z) (op : Instruction).
Context (op_arity : if haveValueArg op then 7 <= k else 6 <= k).

Lemma ends_new_account b g s : ready k 1 s -> 0 <= g <= 700 ->
  ends (fun _ s' => exists g', g <= g' <= g + callNewAccount /\ s' = set_runGas g' s)
    (match op with CALL => if (b : bool) then mret tt else v ← SP 2; se_when ((0 <? v) || rev_lt rev EVMC_SPURIOUS_DRAGON) (add_runGas callNewAccount) | _ => mret tt end)
    (set_runGas g s).
Proof.
  intros Hr Hg. assert (Hd : exists g', g <= g' <= g + callNewAccount /\ set_runGas g s = set_runGas g' s) by (exists g; unfold callNewAccount; split; [lia | done]).
  destruct op; try exact Hd. destruct b; [exact Hd |]. vm_steps; [| exact Hd]. apply ends_add_runGas; [cbn; unfold callNewAccount; lia |].
  exists (g + callNewAccount). unfold callNewAccount. split; [lia | done].
Qed.
Lemma ends_value_cost g s : ready k 1 s -> 0 <= g <= 30000 ->
  ends (fun _ s' => exists g', g <= g' <= g + valueTransferGas /\ (haveValueArg op = true -> 0 < slot (m_stack s) (m_SP s) 2 -> valueTransferGas <= g') /\ s' = set_runGas g' s)
    (if haveValueArg op then v ← SP 2; se_when (0 <? v) (add_runGas valueTransferGas) else mret tt)
    (set_runGas g s).
Proof.
  intros Hr Hg. unfold valueTransferGas. destruct (haveValueArg op).
  - vm_steps.
    + apply ends_add_runGas; [cbn; lia |]. exists (g + 9000). split; [lia | split; [lia | done]].
    + exists g. bool_to_prop. split; [lia | split; [intros _ ?; lia | done]].
  - exists g. split; [lia | done].
Qed.

Definition set_up (g0 : Z) (r : Message * option (Z * Z)) s : Prop :=
  ready k 1 s /\ message_ok (fst r) /\ m_io_gas s + msg_gas (fst r) < g0 /\
  match snd r with Some (o, n) => 0 <= o /\ 0 <= n /\ (n <> 0 -> o + n <= lenZ (m_mem s)) | None => True end.

Lemma ends_callGas_part g0 gas0 o n destination kind static input s :
  ready k 1 s -> lenZ input < 2 ^ 63 -> bytes_ok input -> g0 <= INT64_MAX -> 0 <= gas0 -> 0 <= o -> 0 <= n -> (n <> 0 -> o + n <= lenZ (m_mem s)) ->
  m_io_gas s + gas0 < g0 -> (haveValueArg op = true -> 0 < slot (m_stack s) (m_SP s) 2 -> m_io_gas s + gas0 + callStipend < g0) ->
  ends (set_up g0)
    (vb ← ((if haveValueArg op then
          v ← SP 2;
          if 0 <? v then balance ← of_host (get_balance host (msg_destination msg)); mret (v, gas0 + callStipend, v <=? balance)
          else mret (0, gas0, true)
        else mret (match op with DELEGATECALL => msg_value msg | _ => 0 end, gas0, true)) : SE (VM W) (Z * Z * bool));
     let '(value, gas', balanceOk) := vb in
     let m := {| msg_kind := kind; msg_static := static; msg_depth := 0; msg_gas := gas'; msg_destination := destination;
              msg_sender := match op with DELEGATECALL => msg_sender msg | _ => msg_destination msg end;
              msg_input := input; msg_value := value; msg_salt := 0 |} in
     mret (m, if balanceOk && (msg_depth msg <? 1024) then Some (o, n) else None)) s.
Proof.
  intros Hr Hil Hib Hg0 Hg Ho Hn Hm Hlt Hltv. destruct msg_words as [Hv _]. destruct (ready_settled _ _ _ Hr) as [_ Hs0]. unfold callStipend, INT64_MAX in *.
  assert (Hend : forall w m (ok : bool), I w -> u256 (msg_value m) -> 0 <= msg_gas m <= 2 ^ 63 - 1 -> msg_salt m = 0 -> msg_input m = input -> m_io_gas s + msg_gas m < g0 ->
    set_up g0 (m, if ok then Some (o, n) else None) (set_context w s)).
  { intros w m ok Hw Hu Hg' Hs Hi Hl. split; [rdy |]. split; [unfold message_ok; cbn; rewrite Hs, Hi; unfold INT64_MAX; split_and!; auto with evm; lia |].
    split; [done |]. cbn. destruct ok; [done | exact Logic.I]. }
  assert (Hend0 : forall m (ok : bool), u256 (msg_value m) -> 0 <= msg_gas m <= 2 ^ 63 - 1 -> msg_salt m = 0 -> msg_input m = input -> m_io_gas s + msg_gas m < g0 ->
    set_up g0 (m, if ok then Some (o, n) else None) s).
  { intros m ok Hu Hg' Hs Hi Hl. pose proof (Hend (m_context s) m ok (proj1 (ready_settled _ _ _ Hr)) Hu Hg' Hs Hi Hl) as He. by destruct s. }
  destruct (haveValueArg op) eqn:Eop.
  - do 3 vm_step. vm_step.
    + bool_to_prop. match goal with Hp : 0 < slot _ _ 2 |- _ => specialize (Hltv eq_refl Hp) end.
      vm_step. host_step ok_get_balance. vm_steps. apply Hend; cbn; try done; lia.
    + vm_steps. apply Hend0; cbn; try done; lia.
  - vm_steps. apply Hend0; cbn; try done; try lia; destruct op; done.
Qed.

Lemma ends_callSetup s : m_OP s = op -> calls op = Some BCall -> ready k 1 s -> m_copyMemSize s = 0 ->
  ends (set_up (m_io_gas s)) (caseCallSetup host rev msg) s.
Proof.
  intros Hop Hcall Hr Hc. unfold caseCallSetup. do 2 vm_step. rewrite Hop. cbv zeta.
  set (g0 := if rev_ge rev EVMC_TANGERINE_WHISTLE then 700 else 40). assert (40 <= g0 <= 700) by (unfold g0; destruct (rev_ge _ _); lia). clearbody g0.
  assert (6 <= k) by (destruct (haveValueArg op); lia).
  do 4 vm_step. vm_step. host_step ok_account_exists. cbn [set_context].
  match goal with |- context [set_context ?w _] => set (s1 := set_context w s) end. assert (Hr1 : ready k 1 s1) by (unfold s1; rdy).
  vm_step. eapply ends_mono; [| apply (ends_new_account a g0 s1 Hr1); lia]. cbn beta. intros _ ? (g1 & Hg1 & ->). unfold callNewAccount in Hg1.
  vm_step. eapply ends_mono; [| apply (ends_value_cost g1 s1 Hr1); lia]. cbn beta. intros _ ? (g2 & Hg2 & Hv2 & ->). unfold valueTransferGas in Hg2, Hv2.
  assert (0 <= (if haveValueArg op then 3 else 2) /\ (if haveValueArg op then 3 else 2) + 3 < k) as [Ho Ho3] by (destruct (haveValueArg op); lia).
  set (o := if haveValueArg op then 3 else 2) in *. clearbody o. clear Hr. assert (Es1 : m_io_gas s1 = m_io_gas s) by done.
  assert (Ec1 : m_copyMemSize s1 = 0) by done. clearbody s1. do 12 vm_step.
  vm_step. apply ends_updateMem; [settle | mem_ok | side; lia | cbn; lia | cbn; lia | cbn; rewrite Ec1, copy_none; lia |].
  cbn. intros nm g3 mem Hg3 Hmem Hlen Hmb. do 6 vm_step. set (callGas := if rev_ge rev EVMC_TANGERINE_WHISTLE then _ else _).
  assert (Hcg : 0 <= callGas).
  { apply (call_gas_nonneg (rev_ge rev EVMC_TANGERINE_WHISTLE) (slot (m_stack s1) (m_SP s1) 0) (m_io_gas s1 - g3)); clear callGas; [| lia].
    match goal with Hu : u256 (slot _ _ 0) |- _ => apply Hu end. }
  clearbody callGas. vm_steps. cbn in *. set (o1 := slot _ _ o) in *. set (z1 := slot _ _ (o + 1)) in *. set (o2 := slot _ _ (o + 2)) in *. set (z2 := slot _ _ (o + 3)) in *.
  assert (Hin : wrap 64 z1 <> 0 -> 0 <= wrap 64 o1 /\ wrap 64 o1 + wrap 64 z1 <= lenZ mem).
  { intros Hn. assert (z1 <> 0) as Hne by (intros E0; by rewrite E0 in Hn).
    match goal with He : z1 <> 0 -> _ = _ |- _ => specialize (He Hne) end. side. rewrite !wrap_small by lia. lia. }
  assert (Hout : wrap 64 z2 <> 0 -> wrap 64 o2 + wrap 64 z2 <= lenZ mem).
  { intros Hn. assert (z2 <> 0) as Hne by (intros E0; by rewrite E0 in Hn).
    match goal with He : z2 <> 0 -> _ = _ |- _ => specialize (He Hne) end. side. rewrite !wrap_small by lia. lia. }
  assert (Hsize : wrap 64 z1 < 2 ^ 63) by (eapply (paid_size o1 z1); eassumption).
  apply ends_mem_read; [apply wrap_range; lia | done | mem_ok |]. intros input Hinl Hinb. destruct (ready_settled _ _ _ Hr1) as [_ Hs1].
  apply ends_callGas_part; [rdy | by rewrite Hinl | done | lia | done | apply wrap_range; lia | apply wrap_range; lia | done | cbn; lia | cbn; intros Ea Eb; specialize (Hv2 Ea Eb); unfold callStipend; lia].
Qed.
End Call.

Lemma ends_caseCall s : entered (m_OP s) s -> calls (m_OP s) = Some BCall -> ends (landed (m_io_gas s)) (caseCall host rev msg) s.
Proof.
  intros (Hr0 & _ & Hc) Hop. unfold caseCall, incPC.
  assert (exists k, ready k 1 s /\ if haveValueArg (m_OP s) then 7 <= k else 6 <= k) as (k & Hr & Hk).
  { destruct (m_OP s); try done; cbn in Hr0; eexists; (split; [exact Hr0 | cbn; lia]). }
  clear Hr0. do 3 vm_step. eapply ends_mono; [| apply (ends_callSetup k (m_OP s) Hk (set_returnData [] s)); [done | done | rdy | done]].
  cbn beta. intros [m output] s' (Hr' & Hm & Hg & Hout). cbn in Hg, Hout. destruct (ready_settled _ _ _ Hr) as [_ Hs]. clear Hr. destruct (ready_settled _ _ _ Hr') as [_ Hs'].
  pose proof (ready_PC _ _ _ Hr') as Hpc. pose proof Hm as (Hmg & _). cbn in Hmg. vm_step. destruct output as [[o n]|].
  - vm_step. eapply ends_host; [by apply ok_host_call | settle |]. intros res w (Hres & Hlen & Hob) Hw. do 3 vm_step.
    assert (Hx : u256 (if bool_decide (status_code res = EVMC_SUCCESS) then 1 else 0)) by (destruct (bool_decide _); unfold u256; lia).
    apply ends_mem_write; [| by apply Forall_take | mem_ok |].
    { intros Hne. destruct Hout as (Ho & Hn & Hb). unfold lenZ in *. rewrite length_take in *. cbn. split; [done |]. specialize (Hb ltac:(lia)). lia. }
    intros mem _ ?. vm_steps. cbn. rewrite !(wrap_small 64) by (unfold INT64_MAX in *; lia). split; [done |]. end_core.
  - vm_steps. cbn. rewrite (wrap_small 64 (m_PC s' + 1)) by lia. rewrite (wrap_small 64 (_ + msg_gas m)) by (unfold INT64_MAX in *; lia). split; [done |]. end_core.
Qed.

(** ** The loop *)
Lemma instruction_valid b : valid_op (instruction b).
Proof.
  unfold instruction, between. repeat match goal with |- context [if ?c then _ else _] => destruct c eqn:?; [bool_to_prop; cbn; lia |] end.
  repeat case_match; exact Logic.I.
Qed.
Lemma instruction_arity b : 0 <= b < 256 -> let i := instructionInfo (instruction b) in 0 <= i_args i <= 17 /\ 0 <= i_ret i <= 17.
Proof. intros _. pose proof (instruction_valid b) as Hv. destruct (instruction b); cbn in *; lia. Qed.

Lemma c_metrics_arity b : 0 <= b < 256 -> instruction b <> INVALID ->
  num_stack_arguments (c_metrics table b) = i_args (instructionInfo (instruction b)) /\
  num_stack_returned_items (c_metrics table b) = i_ret (instructionInfo (instruction b)).
Proof.
  intros Hb Hi. destruct (Z.eq_dec b 0xac) as [->|]; [exact (metric_arity 0x60 ltac:(done) ltac:(lia)) |].
  destruct (Z.eq_dec b 0xad) as [->|]; [exact (metric_arity 0x56 ltac:(done) ltac:(lia)) |].
  destruct (Z.eq_dec b 0xae) as [->|]; [exact (metric_arity 0x57 ltac:(done) ltac:(lia)) |].
  replace (c_metrics table b) with (table b); [by apply metric_arity |]. unfold c_metrics. repeat case_match; done.
Qed.
Lemma is_extcodehash b : instruction b = EXTCODEHASH -> b = 0x3f.
Proof. unfold instruction. repeat case_match; simplify_eq; done. Qed.
Lemma table_cost b : 0 <= b < 256 -> instruction b <> INVALID -> costs (instruction b) (gas_cost (table b)).
Proof.
  intros Hb Hi. destruct (gasPriceTier (instructionInfo (instruction b))) eqn:Et.
  8: { unfold costs. split; [by apply metric_special |]. rewrite Et. destruct (instruction b) eqn:Eb; try exact Logic.I.
       apply is_extcodehash in Eb as ->. apply metric_extcodehash. }
  all: pose proof (metric_cost b Hi Hb ltac:(by rewrite Et)) as Hc; rewrite Et in Hc; unfold costs; rewrite Hc, Et; split; [cbn; lia |];
    destruct (instruction b); cbn in Et; try done; cbn; lia.
Qed.
Lemma c_metrics_cost b : 0 <= b < 256 -> instruction b <> INVALID -> costs (instruction b) (gas_cost (c_metrics table b)).
Proof.
  intros Hb Hi. destruct (Z.eq_dec b 0xac) as [->|]; [exact (table_cost 0x60 ltac:(lia) ltac:(done)) |].
  destruct (Z.eq_dec b 0xad) as [->|]; [exact (table_cost 0x56 ltac:(lia) ltac:(done)) |].
  destruct (Z.eq_dec b 0xae) as [->|]; [exact (table_cost 0x57 ltac:(lia) ltac:(done)) |].
  replace (c_metrics table b) with (table b); [by apply table_cost |]. unfold c_metrics. repeat case_match; done.
Qed.

Lemma ends_adjustStack (Q : unit -> VM W -> Prop) k r s : settled s ->
  (m_SPP s + k <= stackLimit -> 0 <= m_SPP s + k - r -> Q tt (set_SPP (m_SPP s + k - r) (set_SP (m_SPP s) s))) -> ends Q (adjustStack k r) s.
Proof.
  intros Hs HQ. assert (Hbad : forall (Q : unit -> VM W -> Prop) x y, ends Q (throwBadStack k) (set_SPP x (set_SP y s))).
  { intros Q' x y. unfold throwBadStack. do 2 vm_step. destruct (_ <? _); (apply ends_throw; [exact Hs | by right]). }
  unfold adjustStack. do 8 vm_step; [apply Hbad |]. do 5 vm_step; [apply Hbad |]. cbn in *. bool_to_prop. by apply HQ.
Qed.

Lemma ends_fetch (Q : unit -> VM W -> Prop) s : core s ->
  (forall b k r, is_byte b -> code !! Z.to_nat (m_PC s) = Some b ->
    (instruction b <> INVALID -> k = i_args (instructionInfo (instruction b)) /\ r = i_ret (instructionInfo (instruction b))) ->
    m_SPP s + k <= stackLimit -> 0 <= m_SPP s + k - r ->
    Q tt (set_copyMemSize 0 (set_newMemSize (mem_size s) (set_runGas (wrap 64 (gas_cost (c_metrics table b)))
         (set_SPP (m_SPP s + k - r) (set_SP (m_SPP s) (set_OP (instruction b) s))))))) ->
  ends Q (fetchInstruction table code) s.
Proof.
  intros Hc HQ. unfold fetchInstruction. do 3 vm_step. apply ends_code_at; [apply Hc |]. intros b Hb Hcode. do 3 vm_step.
  apply ends_adjustStack; [apply Hc |]. cbn. intros H1 H2. vm_steps. eapply HQ; try done. intros Hi. by apply c_metrics_arity.
Qed.

Lemma invalid_or op : op = INVALID \/ op <> INVALID.
Proof. destruct op; first [by left | by right]. Qed.
Lemma stop_or op : op = STOP \/ op <> STOP.
Proof. destruct op; first [by left | by right]. Qed.

Abbreviation interpret := (interpretCases host table false rev msg pCode code dests pool).
Lemma ends_interpretCases s : core s -> ends (stepped (m_io_gas s)) interpret s.
Proof.
  intros Hc. unfold interpretCases. vm_step. apply ends_fetch; [done |]. intros b k r Hb Hcode Hkr H1 H2. vm_step. vm_step. cbn [m_OP set_copyMemSize set_newMemSize set_runGas set_SPP set_SP set_OP].
  set (s' := set_copyMemSize _ _). assert (Hs' : settled s') by exact (core_settled _ Hc).
  destruct (invalid_or (instruction b)) as [Ei|Hi]; [rewrite Ei; apply ends_throw; [done | by right] |].
  destruct (Hkr Hi) as [-> ->]. pose proof (c_metrics_cost b Hb Hi) as Hcost.
  assert (Hg : wrap 64 (gas_cost (c_metrics table b)) = gas_cost (c_metrics table b)) by (apply wrap_small; destruct Hcost; lia).
  destruct (stop_or (instruction b)) as [Es|Hst].
  { rewrite Es. cbn [interpretCase]. vm_step. apply ends_updateIOGas; [done | cbn; rewrite Hg; apply Hcost |]. intros _ Hs''. vm_step. split; [done |].
    destruct (core_tx _ Hc) as (_ & _ & Eo & _). unfold output_ok. cbn. rewrite Eo. split; [rewrite lenZ_nil; lia | constructor]. }
  assert (Hpc : 0 <= m_PC s < lenZ pCode).
  { destruct (core_PC _ Hc). split; [done |]. destruct (Z.lt_ge_cases (m_PC s) (lenZ pCode)); [done |].
    rewrite code_tail in Hcode by lia. injection Hcode as <-. done. }
  apply (ends_interpretCase (instruction b) s'); [done | apply instruction_valid | | unfold charged, s'; cbn; by rewrite Hg].
  split; [| split; done]. destruct Hc as [[? ?] [? ?] ? ? ?]. unfold s'. constructor; unfold settled, stack_ok in *; cbn in *; try done; lia.
Qed.

Definition steady (b : Bounce) s : Prop :=
  match b with BInterpret => core s | BNone => settled s /\ output_ok s | b => entered (m_OP s) s /\ calls (m_OP s) = Some b end.
Definition fuel_for (b : Bounce) s : Z := 2 * m_io_gas s + match b with BInterpret => 1 | BNone => - 1 | _ => 0 end.

Lemma ends_bounce b s : b <> BNone -> steady b s ->
  ends (fun b' s' => steady b' s' /\ (b' <> BNone -> fuel_for b' s' < fuel_for b s)) (bounce host table false rev msg pCode code dests pool b) s.
Proof.
  intros Hb Hs. unfold fuel_for. destruct b; try done; cbn [bounce].
  - eapply ends_mono; [| by apply ends_interpretCases]. intros b' s'. destruct b'; cbn; intros Hst.
    + split; [apply Hst | intros _; destruct Hst; lia].
    + split; [split; apply Hst | intros _; destruct Hst as (_ & _ & E'); lia].
    + split; [split; apply Hst | intros _; destruct Hst as (_ & _ & E'); lia].
    + done.
  - eapply ends_mono; [| apply ends_caseCreate; apply Hs]. intros b' s' (-> & Hc & Hlt). split; [done | intros _; lia].
  - eapply ends_mono; [| apply ends_caseCall; apply Hs]. intros b' s' (-> & Hc & Hlt). split; [done | intros _; lia].
Qed.

Lemma steady_settled b s : steady b s -> settled s.
Proof. destruct b; cbn; [apply core_settled | intros [(Hr & _) _]; apply Hr | intros [(Hr & _) _]; apply Hr | by intros [? _]]. Qed.

Lemma trampoline_ends fuel b s : steady b s -> (b <> BNone -> fuel_for b s < Z.of_nat fuel) ->
  exists s' r, trampoline host table false rev msg pCode code dests pool fuel b s = Some (s', r) /\ settled s' /\
    match r with Ok _ => output_ok s' | Throw e => vm_exn e end.
Proof.
  revert b s. induction fuel as [|fuel IH]; intros b s Hs Hf.
  - destruct b; try (pose proof (steady_settled _ _ Hs) as [_ Hg]; specialize (Hf ltac:(done)); unfold fuel_for in Hf; lia). destruct Hs. by exists s, (Ok tt).
  - destruct (decide (b = BNone)) as [->|Hb]; [destruct Hs; by exists s, (Ok tt) |]. pose proof (ends_bounce b s Hb Hs) as He. unfold ends in He.
    replace (trampoline host table false rev msg pCode code dests pool (S fuel) b s) with
      (match bounce host table false rev msg pCode code dests pool b s with
       | (s', Ok b') => trampoline host table false rev msg pCode code dests pool fuel b' s' | (s', Throw e) => Some (s', Throw e) end) by (by destruct b).
    destruct (bounce host table false rev msg pCode code dests pool b s) as [s' [b'|e]].
    + destruct He as [Hs' Hlt]. apply IH; [done |]. intros Hb'. specialize (Hlt Hb'). specialize (Hf Hb). lia.
    + destruct He. by exists s', (Throw e).
Qed.

Lemma trampoline_sound fuel b s : steady b s ->
  match trampoline host table false rev msg pCode code dests pool fuel b s with
  | Some (s', r) => settled s' /\ match r with Ok _ => output_ok s' | Throw e => vm_exn e end
  | None => True
  end.
Proof.
  revert b s. induction fuel as [|fuel IH]; intros b s Hs; (destruct (decide (b = BNone)) as [->|Hb]; [exact Hs |]); [destruct b; done |].
  pose proof (ends_bounce b s Hb Hs) as He. unfold ends in He.
  destruct b; try done; cbn [trampoline]; destruct (bounce host table false rev msg pCode code dests pool _ s) as [s' [b'|e]]; try done; apply IH, He.
Qed.
End Safety.
