(* ===== verification/EVMRuns.v ===== *)
(** * Whole runs of the virtual machine

    What [optimize] makes of the code, and the theorems on [vm_exec]: runs end, within
    a number of rounds given by their gas; they stay within their stack, memory
    and code; they never end with more gas than they were given; and a jump
    lands only on a [JUMPDEST] that is an instruction, not the operand of a [PUSH]. *)

From S2P Require Import Prelude StateMonad CommonData RLP PBFTMsg BlockHeader Transaction EVM EVMProps.
Import Op.

(** ** The first pass over the code *)
(** The positions at which an instruction starts. *)
Inductive starts (pCode : bytes) : Z -> Prop :=
  | starts_zero : starts pCode 0
  | starts_next pc : starts pCode pc -> pc < lenZ pCode ->
      starts pCode (pc + 1 + (if is_push (byte_at pCode pc) then byte_at pCode pc - 0x5f else 0)).

Section Scan.
Variable pCode : bytes.
Context (pCode_bytes : bytes_ok pCode).
Abbreviation n := (lenZ pCode).

(** [code] is the code while the pass is at [pc]. *)
Record scanning (pc : Z) (code : bytes) (dests : list Z) : Prop := {
  scan_len : length code = (length pCode + 33)%nat;
  scan_bytes : bytes_ok code;
  scan_ahead : forall i, pc <= i -> 0 <= i -> code !! Z.to_nat i = copyCode pCode !! Z.to_nat i;
  scan_code : forall i, (0 <= i)%Z -> code !! Z.to_nat i = copyCode pCode !! Z.to_nat i \/
    (i < n /\ code !! Z.to_nat i = Some 0xfe /\ between 0xac 0xae (byte_at pCode i) = true);
  scan_start : 0 <= pc /\ starts pCode pc;
  scan_dests : forall d, d ∈ dests <-> starts pCode d /\ d < pc /\ d < n /\ byte_at pCode d = 0x5b
}.

Definition after (pc : Z) : Z := pc + 1 + (if is_push (byte_at pCode pc) then byte_at pCode pc - 0x5f else 0).
Fixpoint position (k : nat) : Z := match k with O => 0 | S k' => after (position k') end.

Lemma after_gt pc : pc < after pc.
Proof. unfold after, is_push, between. destruct (_ && _) eqn:Eb; [bool_to_prop; lia | lia]. Qed.
Lemma position_mono j k : (j <= k)%nat -> position j <= position k.
Proof. induction 1 as [|k _ IH]; [lia |]. cbn. pose proof (after_gt (position k)). lia. Qed.
Lemma starts_position d : starts pCode d -> exists k, d = position k.
Proof. induction 1 as [|pc _ [k ->] _]; [by exists 0%nat | by exists (S k)]. Qed.
(** No instruction starts between another one and the one after it. *)
Lemma starts_gap pc d : starts pCode pc -> starts pCode d -> pc < d -> after pc <= d.
Proof.
  intros [j ->]%starts_position [k ->]%starts_position Hlt. destruct (Nat.lt_ge_cases j k) as [Hjk|Hkj].
  - apply (position_mono (S j) k). lia.
  - pose proof (position_mono k j Hkj). lia.
Qed.

Lemma byte_at_copy i : 0 <= i < n -> byte_at (copyCode pCode) i = byte_at pCode i.
Proof. intros Hi. unfold byte_at, copyCode. rewrite lookup_app_l by (unfold lenZ in Hi; lia). done. Qed.
Lemma copy_bytes : bytes_ok (copyCode pCode).
Proof. apply Forall_app. split; [done |]. apply Forall_replicate. unfold is_byte. lia. Qed.

Lemma jump_scan_step pc code dests b : scanning pc code dests -> pc < n -> b = byte_at code pc ->
  scanning (after pc) (if between 0xac 0xae b then set_byte pc 0xfe code else code) (if b =? 0x5b then dests ++ [pc] else dests).
Proof.
  intros [Hl Hb Ha Hc [Hp Hs] Hd] Hlt ->. pose proof (after_gt pc) as Hgt.
  assert (Eb : byte_at code pc = byte_at pCode pc) by (rewrite <- byte_at_copy by lia; unfold byte_at; by rewrite Ha by lia).
  rewrite Eb. constructor.
  - destruct (between _ _ _); [unfold set_byte; by rewrite length_insert | done].
  - destruct (between _ _ _); [apply Forall_insert; [done | unfold is_byte; lia] | done].
  - intros i Hi Hi'. destruct (between _ _ _); [| apply Ha; lia]. unfold set_byte. rewrite list_lookup_insert_ne by lia. apply Ha; lia.
  - intros i Hi. destruct (between _ _ _) eqn:Ebt; [| by apply Hc]. unfold set_byte. destruct (decide (i = pc)) as [->|Hne].
    + right. split; [done |]. rewrite list_lookup_insert_eq by (unfold lenZ in *; lia). done.
    + rewrite list_lookup_insert_ne by lia. by apply Hc.
  - split; [lia |]. by apply starts_next.
  - intros d. destruct (Z.eqb_spec (byte_at pCode pc) 0x5b) as [E5|E5]; [rewrite elem_of_app, list_elem_of_singleton |]; rewrite Hd; split.
    + intros [(? & ? & ? & ?) | ->]; [split; [done |]; split; [lia | done] |]. split; [done |]. split; [lia | done].
    + intros (Hs' & Hd1 & Hd2 & Hd3). destruct (Z.lt_trichotomy d pc) as [|[->|Hgt']]; [by left | by right |].
      pose proof (starts_gap pc d Hs Hs' Hgt'). lia.
    + intros (? & ? & ? & ?). split; [done |]. split; [lia | done].
    + intros (Hs' & Hd1 & Hd2 & Hd3). split; [done |]. split; [| done]. destruct (Z.lt_trichotomy d pc) as [|[->|Hgt']]; [done | done |].
      pose proof (starts_gap pc d Hs Hs' Hgt'). lia.
Qed.

Lemma jump_scan_ok fuel pc code dests : scanning pc code dests -> n - pc <= Z.of_nat fuel ->
  exists pc', n <= pc' /\ scanning pc' (fst (jump_scan fuel n pc code dests)) (snd (jump_scan fuel n pc code dests)).
Proof.
  revert pc code dests. induction fuel as [|fuel IH]; intros pc code dests Hs Hf; cbn [jump_scan]; [exists pc; split; [lia | done] |].
  destruct (Z.leb_spec n pc); [by exists pc |]. pose proof (jump_scan_step pc code dests _ Hs ltac:(lia) eq_refl) as Hn. pose proof (after_gt pc).
  assert (Eb : byte_at code pc = byte_at pCode pc).
  { rewrite <- byte_at_copy by (pose proof (scan_start _ _ _ Hs); lia). unfold byte_at. rewrite (scan_ahead _ _ _ Hs); [done | lia | apply Hs]. }
  unfold after in Hn. rewrite <- Eb in Hn. unfold after in H0. rewrite <- Eb in H0.
  destruct (Z.eqb_spec (byte_at code pc) 0x5b) as [E5|E5].
  - rewrite E5 in Hn |- *. cbn in Hn |- *. rewrite Z.add_0_r in Hn. apply IH; [done | lia].
  - destruct (is_push (byte_at code pc)) eqn:Ep.
    + replace (pc + (byte_at code pc - 0x60 + 1) + 1) with (pc + 1 + (byte_at code pc - 0x5f)) by lia. apply IH; [done | lia].
    + rewrite Z.add_0_r in Hn. apply IH; [done | lia].
Qed.
Lemma scan_initial : scanning 0 (copyCode pCode) [].
Proof.
  constructor; [unfold copyCode; by rewrite length_app | apply copy_bytes | done | by left | split; [lia | constructor] |].
  intros d. split; [by intros ?%elem_of_nil | intros (Hd & ? & _)].
  apply starts_position in Hd as [k ->]. pose proof (position_mono 0 k ltac:(lia)). cbn in *. lia.
Qed.
End Scan.

Definition scanned (pCode : bytes) : bytes * list Z := jump_scan (length pCode) (lenZ pCode) 0 (copyCode pCode) [].
Lemma scanned_ok pCode : bytes_ok pCode -> exists pc, lenZ pCode <= pc /\ scanning pCode pc (fst (scanned pCode)) (snd (scanned pCode)).
Proof. intros Hb. apply jump_scan_ok; [by apply scan_initial | unfold lenZ; lia]. Qed.
Lemma optimize_dests opt pCode : snd (fst (optimize opt pCode)) = snd (scanned pCode).
Proof.
  unfold optimize, scanned. destruct (jump_scan _ _ _ _ _) as [code dests]. destruct opt; [| done]. by destruct (first_pass _ _ _ _ _ _).
Qed.

(** The destinations a jump is allowed to have are exactly the [JUMPDEST] bytes at
    which an instruction of the code starts: never a byte of the operand of a
    [PUSH], never beyond the code. *)
Theorem jump_dests_exact opt pCode d : bytes_ok pCode ->
  (d ∈ snd (fst (optimize opt pCode)) <-> starts pCode d /\ d < lenZ pCode /\ byte_at pCode d = 0x5b).
Proof.
  intros Hb. rewrite optimize_dests. destruct (scanned_ok pCode Hb) as (pc & Hpc & Hs). rewrite (scan_dests _ _ _ _ Hs). split; [tauto |].
  intros (? & ? & ?). split; [done | split; [lia | done]].
Qed.

Lemma jump_dests_exact_witness : (1 ∈ snd (fst (optimize false [0x60; 0x5b; 0x5b])) <-> starts [0x60; 0x5b; 0x5b] 1 /\ 1 < 3 /\ byte_at [0x60; 0x5b; 0x5b] 1 = 0x5b) /\
  2 ∈ snd (fst (optimize false [0x60; 0x5b; 0x5b])).
Proof.
  split; [apply (jump_dests_exact false [0x60; 0x5b; 0x5b] 1); repeat constructor; unfold is_byte; lia |].
  vm_compute. by left.
Defined.

Section Runs.
Context `{Crypto} {W : Type} (I : W -> Prop) (E : Exn -> Prop) (host : Host W) `{!HostOk I E host} (table : Z -> Metric) `{!MetricsOk table}.
Variables (rev : evmc_revision) (msg : Message) (pCode : bytes).

(** What the caller of [vm_exec] promises. *)
Definition run_ok : Prop :=
  bytes_ok pCode /\ lenZ pCode < 2 ^ 63 /\ 0 <= msg_gas msg <= INT64_MAX /\ u256 (msg_value msg) /\ lenZ (msg_input msg) < 2 ^ 63 /\ bytes_ok (msg_input msg).

Lemma scanned_tail pc i : bytes_ok pCode -> scanning pCode pc (fst (scanned pCode)) (snd (scanned pCode)) ->
  lenZ pCode <= i < lenZ (fst (scanned pCode)) -> fst (scanned pCode) !! Z.to_nat i = Some 0.
Proof.
  intros Hb Hs Hi. destruct (scan_code _ _ _ _ Hs i) as [->|[? _]]; [pose proof (lenZ_nonneg pCode); lia | | lia].
  unfold copyCode. rewrite lookup_app_r by (unfold lenZ in Hi; lia). apply lookup_replicate. split; [done |].
  unfold lenZ in Hi. rewrite (scan_len _ _ _ _ Hs) in Hi. lia.
Qed.

Lemma start_steady w : run_ok -> I w -> steady I pCode (fst (scanned pCode)) (msg_gas msg) BInterpret (newVM msg w).
Proof.
  intros (Hb & Hl & Hg & Hv & Hi & Hib) Hw. destruct (scanned_ok pCode Hb) as (pc & Hpc & Hs). pose proof (scan_len _ _ _ _ Hs) as Hlen.
  constructor; unfold settled, stack_ok, tx_ok; cbn [newVM m_context m_io_gas m_stack m_tx_context m_returnData m_SPP m_PC].
  - rewrite wrap_small by (unfold INT64_MAX in *; lia). split; [done | lia].
  - split; [by rewrite lenZ_replicate |]. apply Forall_replicate, u256_0.
  - split; [done |]. split; [split; [rewrite lenZ_nil; lia | constructor] | split; [done | constructor]].
  - unfold stackLimit. lia.
  - unfold lenZ. rewrite Hlen. lia.
Qed.

Lemma exec_scanned fuel w : vm_exec host table false fuel rev msg pCode w =
  trampoline host table false rev msg pCode (fst (scanned pCode)) (snd (scanned pCode)) [] fuel BInterpret (newVM msg w).
Proof. unfold vm_exec, optimize, scanned. by destruct (jump_scan _ _ _ _ _). Qed.

Section Facts.
Context (Hrun : run_ok).
Lemma scanned_len : lenZ (fst (scanned pCode)) = lenZ pCode + 33.
Proof. destruct Hrun as (Hb & _). destruct (scanned_ok pCode Hb) as (pc & _ & Hs). unfold lenZ. rewrite (scan_len _ _ _ _ Hs). lia. Qed.
Lemma scanned_bytes : bytes_ok (fst (scanned pCode)).
Proof. destruct Hrun as (Hb & _). destruct (scanned_ok pCode Hb) as (pc & _ & Hs). apply Hs. Qed.
Lemma scanned_zeros i : lenZ pCode <= i < lenZ (fst (scanned pCode)) -> fst (scanned pCode) !! Z.to_nat i = Some 0.
Proof. destruct Hrun as (Hb & _). destruct (scanned_ok pCode Hb) as (pc & _ & Hs). by apply (scanned_tail pc). Qed.
Lemma scanned_dests : Forall (fun d => 0 <= d < lenZ pCode) (snd (scanned pCode)).
Proof.
  destruct Hrun as (Hb & _). destruct (scanned_ok pCode Hb) as (pc & _ & Hs). apply Forall_forall. intros d Hd.
  apply (scan_dests _ _ _ _ Hs) in Hd as (Hst & _ & Hlt & _). split; [| done].
  apply starts_position in Hst as [k ->]. apply (position_mono pCode 0 k). lia.
Qed.
End Facts.

(** What a run ends in. *)
Definition run_end (s : VM W) (r : result unit) : Prop :=
  I (m_context s) /\ 0 <= m_io_gas s <= msg_gas msg /\ match r with Ok _ => output_ok s | Throw e => E e \/ own_exn e end.

Lemma run_total fuel w : run_ok -> I w -> 2 * msg_gas msg + 1 < Z.of_nat fuel ->
  exists s r, vm_exec host table false fuel rev msg pCode w = Some (s, r) /\ run_end s r.
Proof.
  intros Hrun Hw Hf. destruct (trampoline_ends I E host table rev msg pCode (fst (scanned pCode)) (snd (scanned pCode)) []
    (scanned_len Hrun) (scanned_bytes Hrun) (scanned_zeros Hrun) (scanned_dests Hrun) (proj1 (proj2 Hrun)) (proj2 (proj2 (proj2 Hrun))) (proj1 Hrun)
    (msg_gas msg) (proj2 (proj1 (proj2 (proj2 Hrun)))) fuel BInterpret (newVM msg w) (start_steady w Hrun Hw)) as (s' & r & Er & [Hi Hg] & Hr).
  - intros _. unfold fuel_for. cbn. destruct Hrun as (_ & _ & Hg & _). rewrite wrap_small by (unfold INT64_MAX in *; lia). done.
  - exists s', r. by rewrite exec_scanned, Er.
Qed.

(** Every run of the virtual machine ends: with [g] gas it takes at most [2 g + 2]
    rounds of the trampoline, whatever the code, the input and the answers of
    the host, as long as the host gives back no more gas than it got. *)
Theorem vm_terminates fuel w : run_ok -> I w -> 2 * msg_gas msg + 1 < Z.of_nat fuel -> is_Some (vm_exec host table false fuel rev msg pCode w).
Proof. intros Hrun Hw Hf. destruct (run_total fuel w Hrun Hw Hf) as (s & r & -> & _). by eexists. Qed.

(** C17: no run, whatever the code and the input, reads or writes outside of the
    stack, the memory or the code: it ends normally, with one of the virtual
    machine's own exceptions, or with one the host threw.  It ends with no more
    gas than it was given and less than [2^63] bytes of output, and the host keeps
    its invariant. *)
Theorem vm_safe fuel w s r : run_ok -> I w -> vm_exec host table false fuel rev msg pCode w = Some (s, r) ->
  I (m_context s) /\ 0 <= m_io_gas s <= msg_gas msg /\ match r with Ok _ => output_ok s | Throw e => E e \/ own_exn e end.
Proof.
  intros Hrun Hw Er. rewrite exec_scanned in Er. pose proof (trampoline_sound I E host table rev msg pCode (fst (scanned pCode)) (snd (scanned pCode)) []
    (scanned_len Hrun) (scanned_bytes Hrun) (scanned_zeros Hrun) (scanned_dests Hrun) (proj1 (proj2 Hrun)) (proj2 (proj2 (proj2 Hrun))) (proj1 Hrun)
    (msg_gas msg) (proj2 (proj1 (proj2 (proj2 Hrun)))) fuel BInterpret (newVM msg w) (start_steady w Hrun Hw)) as Hsound.
  rewrite Er in Hsound. destruct Hsound as [[Hi Hg] Hr]. done.
Qed.
End Runs.

(** ** A host and a table *)
(** The metrics of [c_instructionInfo] itself. *)
Definition info_table (b : Z) : Metric :=
  let i := instructionInfo (instruction b) in
  mkMetric (if b =? 0x3f then 400 else tierStepGas (gasPriceTier i)) (i_args i) (i_ret i).
#[export] Instance info_table_ok : MetricsOk info_table.
Proof.
  constructor; unfold info_table; cbn [gas_cost num_stack_arguments num_stack_returned_items].
  - done.
  - intros b _ _ Ht. destruct (Z.eqb_spec b 0x3f) as [->|]; [by destruct Ht | done].
  - intros b _ Ht. rewrite Ht. destruct (b =? 0x3f); cbn; lia.
  - cbn. lia.
Qed.

(** A host whose state is one contract's storage; its calls give the gas back. *)
Definition cell_host : Host (gmap Z Z) := {|
  account_exists := fun _ => mret true;
  get_storage := fun _ k => st ← se_get; mret (default 0 (st !! k));
  set_storage := fun _ k v => se_mod (insert k v);; mret EVMC_STORAGE_MODIFIED;
  get_balance := fun _ => mret 0;
  get_code_size := fun _ => mret 0;
  get_code_hash := fun _ => mret 0;
  copy_code := fun _ _ _ => mret [];
  selfdestruct := fun _ _ => mret tt;
  host_call := fun m => mret (mkResult EVMC_SUCCESS (msg_gas m) [] ZeroAddress);
  get_tx_context := mret (mkTxContext 0 ZeroAddress ZeroAddress 7 8 9 0);
  get_block_hash := fun _ => mret 0;
  emit_log := fun _ _ _ => mret tt
|}.
Definition words_only (st : gmap Z Z) : Prop := map_Forall (fun _ v => u256 v) st.

Lemma answers_ret {W A} (I : W -> Prop) E (R : A -> Prop) a : R a -> answers I E R (mret a).
Proof. by intros Ha w Hw. Qed.
#[export] Instance cell_host_ok : HostOk words_only (fun _ => False) cell_host.
Proof.
  constructor; intros; try (apply answers_ret; first [done | apply u256_0 | by rewrite lenZ_nil | rewrite lenZ_nil; split; [lia | constructor]]).
  - intros w Hw. split; [done |]. change (u256 (default 0 (w !! k))). destruct (w !! k) eqn:Ek; [by eapply Hw | apply u256_0].
  - intros w Hw. split; [| done]. change (words_only (<[k := v]> w)). by apply map_Forall_insert_2.
  - apply answers_ret. cbn [gas_left output_data]. unfold message_ok in *. split; [lia | split; [done | constructor]].
Qed.

(** [sstore(5, 2 + 3)], and a loop that never ends by itself *)
Definition store_code : bytes := [0x60; 2; 0x60; 3; 0x01; 0x60; 5; 0x55; 0x00].
Definition loop_code : bytes := [0x5b; 0x60; 0; 0x56].
Definition a_call (static : bool) (gas : Z) : Message := mkMessage EVMC_CALL static 0 gas ZeroAddress ZeroAddress [] 0 0.

Lemma vm_terminates_witness : is_Some (vm_exec (H := toy_crypto) cell_host info_table false 102 EVMC_CONSTANTINOPLE (a_call false 50) loop_code ∅).
Proof.
  apply (vm_terminates (H := toy_crypto) words_only (fun _ => False) cell_host info_table EVMC_CONSTANTINOPLE (a_call false 50) loop_code 102 ∅).
  - split_and!; try (cbn; unfold INT64_MAX, u256; lia); repeat constructor; unfold is_byte; lia.
  - apply map_Forall_empty.
  - cbn. lia.
Defined.
Abbreviation store_run := (vm_exec (H := toy_crypto) cell_host info_table false 10 EVMC_CONSTANTINOPLE (a_call false 30000) store_code ∅).
Definition store_end : VM (gmap Z Z) := default (newVM (a_call false 0) ∅) (fst <$> store_run).
Lemma store_run_ends : store_run = Some (store_end, Ok tt).
Proof. vm_compute. reflexivity. Qed.
Lemma vm_safe_witness : store_run = Some (store_end, Ok tt) /\ words_only (m_context store_end) /\ 0 <= m_io_gas store_end <= msg_gas (a_call false 30000).
Proof.
  split; [exact store_run_ends |].
  destruct (vm_safe (H := toy_crypto) words_only (fun _ => False) cell_host info_table EVMC_CONSTANTINOPLE (a_call false 30000) store_code 10 ∅ store_end (Ok tt)) as (Hi & Hg & _).
  - split_and!; try (cbn; unfold INT64_MAX, u256; lia); repeat constructor; unfold is_byte; lia.
  - apply map_Forall_empty.
  - exact store_run_ends.
  - split; [exact Hi | exact Hg].
Defined.
