(* ===== verification/EVMStatic.v ===== *)
(** * Static calls change nothing

    A message with [EVMC_STATIC] may not change the state: the interpreter refuses
    [SSTORE], the logs, [CREATE], [CREATE2], [SUICIDE] and calls with a value, and passes
    the flag on to the calls it makes.  The theorem is parametric in what
    "changes nothing" means: any preorder on the states of the host that its
    reading functions and its static calls respect is respected by the run. *)

From S2P Require Import Prelude StateMonad CommonData RLP PBFTMsg BlockHeader Transaction EVM EVMProps EVMRuns.
Import Op.

Create HintDb evm_static.
Section Static.
Context `{Crypto} {W : Type} (R : W -> W -> Prop) `{!PreOrder R} (host : Host W) (table : Z -> Metric).
Variables (opt : bool) (rev : evmc_revision) (msg : Message) (pCode code : bytes) (dests pool : list Z).

(** The functions of the host that a static run may call respect [R]. *)
Record reads_only : Prop := {
  ro_account_exists a : se_keeps R (account_exists host a);
  ro_get_storage a k : se_keeps R (get_storage host a k);
  ro_get_balance a : se_keeps R (get_balance host a);
  ro_get_code_size a : se_keeps R (get_code_size host a);
  ro_get_code_hash a : se_keeps R (get_code_hash host a);
  ro_copy_code a o n : se_keeps R (copy_code host a o n);
  ro_get_tx_context : se_keeps R (get_tx_context host);
  ro_get_block_hash n : se_keeps R (get_block_hash host n);
  ro_host_call m : msg_static m = true -> se_keeps R (host_call host m)
}.
Context (host_reads : reads_only) (static : msg_static msg = true).

Definition kept (s s' : VM W) : Prop := R (m_context s) (m_context s').
#[local] Instance kept_pre : PreOrder kept.
Proof. split; [intros s; unfold kept; reflexivity | intros s1 s2 s3 H1 H2; unfold kept in *; by etransitivity]. Qed.
Abbreviation keeps := (se_keeps kept).

Lemma keeps_host {A} (m : SE W A) : se_keeps R m -> keeps (of_host m).
Proof. intros Hm s. unfold of_host, kept. specialize (Hm (m_context s)). by destruct (m (m_context s)). Qed.
Lemma keeps_update f : (forall s, m_context (f s) = m_context s) -> keeps (se_mod f).
Proof. intros Hf. apply se_keeps_mod. intros s. unfold kept. rewrite Hf. reflexivity. Qed.
Lemma keeps_throw {A} e : keeps (throw e : SE (VM W) A).
Proof. apply se_keeps_lift, _. Qed.
(** After a refusal nothing runs. *)
Lemma keeps_refused {A} (b : bool) e (k : unit -> SE (VM W) A) : (b = false -> forall x, keeps (k x)) -> keeps (se_when b (throw e) ≫= k).
Proof.
  intros Hk. destruct b; [intros s; unfold kept; cbn; reflexivity |]. apply se_keeps_bind; [typeclasses eauto | apply se_keeps_ret, _ | by apply Hk].
Qed.

Ltac keep :=
  repeat first
    [ assumption
    | solve [eauto with se evm_static]
    | apply keeps_throw
    | apply keeps_refused; intros ? ?
    | apply keeps_host; solve [apply host_reads | apply host_reads; done]
    | apply keeps_update; intros; reflexivity
    | se_keeps_step ].

Lemma keeps_SP i : keeps (SP i).
Proof. unfold SP. keep. Qed.
Lemma keeps_put_slot i v : keeps (put_slot i v).
Proof. unfold put_slot. keep. Qed.
Lemma keeps_put_SPP v : keeps (put_SPP v).
Proof. unfold put_SPP. keep. apply keeps_put_slot. Qed.
Lemma keeps_put_SP i v : keeps (put_SP i v).
Proof. unfold put_SP. keep. apply keeps_put_slot. Qed.
Lemma keeps_code_at pc : keeps (code_at code pc).
Proof. apply se_keeps_lift, _. Qed.
Lemma keeps_mem_read o n : keeps (mem_read o n).
Proof. unfold mem_read. keep. Qed.
Lemma keeps_mem_write o bs : keeps (mem_write o bs).
Proof. unfold mem_write. keep. Qed.
Lemma keeps_toInt63 v : keeps (toInt63 v).
Proof. unfold toInt63. keep. Qed.
Lemma keeps_memNeed o n : keeps (memNeed o n).
Proof. apply keeps_toInt63. Qed.
Lemma keeps_updateIOGas : keeps updateIOGas.
Proof. unfold updateIOGas. keep. Qed.
Lemma keeps_add_runGas n : keeps (add_runGas n).
Proof. unfold add_runGas. keep. Qed.
#[local] Hint Resolve keeps_SP keeps_put_slot keeps_put_SPP keeps_put_SP keeps_code_at keeps_mem_read keeps_mem_write keeps_toInt63 keeps_memNeed
  keeps_updateIOGas keeps_add_runGas keeps_throw : evm_static.
Lemma keeps_updateGas : keeps updateGas.
Proof. unfold updateGas, gasForMem. keep. Qed.
#[local] Hint Resolve keeps_updateGas : evm_static.
Lemma keeps_updateMem n : keeps (updateMem n).
Proof. unfold updateMem. keep. Qed.
#[local] Hint Resolve keeps_updateMem : evm_static.
Lemma keeps_getTxContext : keeps (getTxContext host).
Proof. unfold getTxContext. keep. Qed.
Lemma keeps_incPC : keeps incPC.
Proof. unfold incPC. keep. Qed.
#[local] Hint Resolve keeps_getTxContext keeps_incPC : evm_static.
Lemma keeps_NEXT : keeps NEXT.
Proof. unfold NEXT. keep. Qed.
#[local] Hint Resolve keeps_NEXT : evm_static.
Lemma keeps_push_value v : keeps (push_value v).
Proof. unfold push_value. keep. Qed.
Lemma keeps_pay_range i j : keeps (pay_range i j).
Proof. unfold pay_range. keep. Qed.
Lemma keeps_copyData d : keeps (copyDataToMemory d).
Proof. unfold copyDataToMemory. keep. Qed.
#[local] Hint Resolve keeps_push_value keeps_pay_range keeps_copyData : evm_static.
Lemma keeps_case0 v : keeps v -> keeps (case0 v).
Proof. unfold case0. intros Hv. keep. Qed.
Lemma keeps_datacopy d : keeps (case_datacopy d).
Proof. unfold case_datacopy. keep. Qed.
Lemma keeps_return : keeps case_return.
Proof. unfold case_return. keep. Qed.
Lemma keeps_push_loop n v : keeps (push_loop code n v).
Proof. revert v. induction n as [|n IH]; intros v; cbn [push_loop]; keep. Qed.
Lemma keeps_jump_to d : keeps (jump_to dests d).
Proof. unfold jump_to. keep. Qed.
Lemma keeps_query g f : (forall a, se_keeps R (f a)) -> keeps (query g f).
Proof. intros Hf. unfold query. keep. by apply keeps_host. Qed.
#[local] Hint Resolve keeps_case0 keeps_datacopy keeps_return keeps_push_loop keeps_jump_to : evm_static.

Lemma keeps_interpretCase op : match op with CREATE | CREATE2 => True | _ => keeps (interpretCase host opt rev msg pCode code dests pool op) end.
Proof.
  destruct op; try exact Logic.I; cbn [interpretCase]; unfold case_call, case_suicide, case_mload, case_mstore, case_mstore8, case_sha3, case_log, case_exp, case1, case2, case3,
    case_signextend, case_calldataload, case_returndatacopy, case_extcodecopy, case_blockhash, case_push, case_pushc, case_jump, case_jumpi, case_jumpc, case_jumpci,
    case_dup, case_swap, case_sload, case_sstore, of_tx, of_state, pay_word, since, unless_static; rewrite ?static; try (apply keeps_query; intros; apply host_reads); keep;
    try (apply keeps_query; intros; apply host_reads); try (apply keeps_case0; keep).
Qed.
Lemma keeps_adjustStack k r : keeps (adjustStack k r).
Proof. unfold adjustStack, throwBadStack. keep. Qed.
#[local] Hint Resolve keeps_adjustStack : evm_static.
Lemma keeps_fetch : keeps (fetchInstruction table code).
Proof. unfold fetchInstruction. keep. Qed.

(** What an operation returns, whatever the state. *)
Definition yields {A} (P : A -> Prop) (m : SE (VM W) A) : Prop := forall s, match snd (m s) with Ok a => P a | Throw _ => True end.
Lemma yields_bind {A B} (P : B -> Prop) (m : SE (VM W) A) k : (forall a, yields P (k a)) -> yields P (m ≫= k).
Proof. intros Hk s. unfold mbind, SE_bind. destruct (m s) as [s' [a|e]]; [apply Hk | done]. Qed.
Lemma yields_refused {A} (P : A -> Prop) e (k : unit -> SE (VM W) A) : yields P (se_when true (throw e) ≫= k).
Proof. intros s. exact Logic.I. Qed.

Lemma yields_setup : yields (fun r => msg_static (fst r) = true) (caseCallSetup host rev msg).
Proof.
  unfold caseCallSetup. repeat (apply yields_bind; intros ?; cbv zeta). match goal with |- context [let '(_, _) := ?x in _] => destruct x as [[v g] ok] end.
  intros s. cbn. by destruct (m_OP _).
Qed.
Lemma keeps_caseCall : keeps (caseCall host rev msg).
Proof.
  unfold caseCall. apply se_keeps_bind; [typeclasses eauto | keep |]. intros _. intros s. unfold mbind at 1, SE_bind at 1.
  assert (Hk : keeps (caseCallSetup host rev msg)) by (unfold caseCallSetup; keep).
  specialize (Hk s). pose proof (yields_setup s) as Hy. destruct (caseCallSetup host rev msg s) as [s' [[m out]|e]]; [| done]. cbn in Hk, Hy.
  etransitivity; [exact Hk |]. apply (se_keeps_all kept). keep.
Qed.

Lemma yields_throw {A} (P : A -> Prop) e : yields P (throw e : SE (VM W) A).
Proof. intros s. exact Logic.I. Qed.
Lemma yields_mret {A} (P : A -> Prop) a : P a -> yields P (mret a : SE (VM W) A).
Proof. intros Ha s. exact Ha. Qed.
Ltac yield := repeat first
  [ apply yields_refused | apply yields_throw | apply yields_mret; done | apply yields_bind; intros ?
  | match goal with |- yields _ (if ?b then _ else _) => destruct b | |- yields _ (match ?x with _ => _ end) => destruct x | |- yields _ (let _ := _ in _) => cbv zeta end ].
Definition not_create (m : SE (VM W) Bounce) : Prop := yields (fun b => b <> BCreate) m.
Lemma not_create_case op : not_create (interpretCase host opt rev msg pCode code dests pool op).
Proof.
  destruct op; cbn [interpretCase]; unfold not_create, case_call, case_suicide, case_mload, case_mstore, case_mstore8, case_sha3, case_log, case_exp, case0, case1, case2, case3,
    case_signextend, case_calldataload, case_returndatacopy, case_datacopy, case_extcodecopy, case_blockhash, case_push, case_pushc, case_jump, case_jumpi, case_jumpc, case_jumpci,
    case_dup, case_swap, case_sload, case_sstore, of_tx, of_state, query, push_value, NEXT, since, unless_static; rewrite ?static; yield.
Qed.
Lemma quiet_bounce b : b <> BCreate ->
  keeps (bounce host table opt rev msg pCode code dests pool b) /\ not_create (bounce host table opt rev msg pCode code dests pool b).
Proof.
  intros Hb. destruct b; try done; cbn [bounce].
  - unfold interpretCases. split.
    + apply se_keeps_bind; [typeclasses eauto | apply keeps_fetch |]. intros _. apply se_keeps_bind; [typeclasses eauto | keep |]. intros s.
      pose proof (keeps_interpretCase (m_OP s)) as Hk. destruct (m_OP s); try exact Hk; cbn [interpretCase]; unfold since, unless_static; rewrite static; keep.
    + apply yields_bind; intros _. apply yields_bind; intros s. apply not_create_case.
  - split; [apply keeps_caseCall |]. unfold caseCall, not_create. yield.
  - split; [keep |]. by apply yields_mret.
Qed.

Lemma static_trampoline fuel b s : b <> BCreate ->
  match trampoline host table opt rev msg pCode code dests pool fuel b s with Some (s', _) => kept s s' | None => True end.
Proof.
  revert b s. induction fuel as [|fuel IH]; intros b s Hb; [destruct b; try done; unfold kept; cbn; reflexivity |].
  destruct (decide (b = BNone)) as [->|Hn]; [unfold kept; cbn; reflexivity |].
  replace (trampoline host table opt rev msg pCode code dests pool (S fuel) b s) with
    (match bounce host table opt rev msg pCode code dests pool b s with
     | (s', Ok b') => trampoline host table opt rev msg pCode code dests pool fuel b' s' | (s', Throw e) => Some (s', Throw e) end) by (by destruct b).
  destruct (quiet_bounce b Hb) as [Hk Hy]. specialize (Hk s). specialize (Hy s).
  destruct (bounce host table opt rev msg pCode code dests pool b s) as [s' [b'|e]]; [| done]. specialize (IH b' s' Hy).
  destruct (trampoline _ _ _ _ _ _ _ _ _ fuel b' s') as [[s'' r]|]; [| done]. by etransitivity.
Qed.
End Static.

(** C18: a run with the static flag changes nothing: whatever relation between the
    states of the host its reading functions and its static calls respect, the
    whole run respects it. *)
Theorem static_run_changes_nothing `{Crypto} {W} (R : W -> W -> Prop) `{!PreOrder R} (host : Host W) table opt fuel rev msg pCode w s r :
  reads_only R host -> msg_static msg = true -> vm_exec host table opt fuel rev msg pCode w = Some (s, r) -> R w (m_context s).
Proof.
  intros Hh Hs. unfold vm_exec. destruct (optimize opt pCode) as [[code dests] pool]. intros Er.
  pose proof (static_trampoline R host table opt rev msg pCode code dests pool Hh Hs fuel BInterpret (newVM msg w) ltac:(done)) as Ht.
  by rewrite Er in Ht.
Qed.

Lemma cell_host_reads : reads_only eq cell_host.
Proof. constructor; intros; intros w; reflexivity. Qed.
Lemma static_run_changes_nothing_witness : exists s r,
  vm_exec (H := toy_crypto) cell_host info_table false 10 EVMC_CONSTANTINOPLE (a_call true 30000) store_code ∅ = Some (s, r) /\ ∅ = m_context s.
Proof.
  eexists _, _. split; [vm_compute; reflexivity |].
  eapply (static_run_changes_nothing (H := toy_crypto) eq cell_host info_table false 10 EVMC_CONSTANTINOPLE (a_call true 30000) store_code ∅ _ (Throw DisallowedStateChange)).
  - apply cell_host_reads.
  - reflexivity.
  - vm_compute. reflexivity.
Defined.
