(* ===== verification/EVMArith.v ===== *)
(** * The arithmetic of the virtual machine

    [EXP] by repeated squaring is exponentiation modulo [2^256]; the signed
    instructions, which work on unsigned words with shifts and masks, are the
    operations on the two's complement integers the words stand for. *)

From S2P Require Import Prelude StateMonad CommonData RLP PBFTMsg BlockHeader Transaction EVM EVMProps.

Lemma wrap_mul_l a b : wrap 256 (wrap 256 a * b) = wrap 256 (a * b).
Proof. unfold wrap. by rewrite Z.mul_mod_idemp_l. Qed.
Lemma wrap_mul_r a b : wrap 256 (a * wrap 256 b) = wrap 256 (a * b).
Proof. unfold wrap. by rewrite Z.mul_mod_idemp_r. Qed.
Lemma wrap_pow a e : 0 <= e -> wrap 256 (wrap 256 a ^ e) = wrap 256 (a ^ e).
Proof.
  intros He. revert e He. apply natlike_ind; [done |]. intros e He IH. rewrite !Z.pow_succ_r by done.
  rewrite wrap_mul_l, <- wrap_mul_r, IH, wrap_mul_r. done.
Qed.

Lemma exp_loop_spec fuel r b e : 0 <= e < 2 ^ Z.of_nat fuel -> u256 r -> exp_loop fuel r b e = wrap 256 (r * b ^ e).
Proof.
  revert r b e. induction fuel as [|fuel IH]; intros r b e He Hr; cbn [exp_loop].
  - assert (e = 0) as -> by (cbn in He; lia). rewrite Z.mul_1_r. by rewrite wrap_small.
  - destruct (Z.eqb_spec e 0) as [->|Hne]; [rewrite Z.mul_1_r; by rewrite wrap_small |].
    rewrite Nat2Z.inj_succ, Z.pow_succ_r in He by lia. rewrite Z.shiftr_div_pow2, Z.pow_1_r by lia.
    assert (Hb : b ^ e = (if Z.odd e then b else 1) * (b * b) ^ (e / 2)).
    { rewrite <- Z.pow_2_r, <- Z.pow_mul_r by (try apply Z.div_pos; lia). pose proof (Z.div_mod e 2 ltac:(lia)) as Hd. rewrite Zmod_odd in Hd.
      destruct (Z.odd e); [rewrite <- Z.pow_succ_r by (pose proof (Z.div_pos e 2); lia) | rewrite Z.mul_1_l]; f_equal; lia. }
    rewrite IH; [| split; [apply Z.div_pos; lia | apply Z.div_lt_upper_bound; lia] | destruct (Z.odd e); [apply u256_wrap | done]].
    rewrite Hb, <- (wrap_mul_r _ (wrap 256 (b * b) ^ (e / 2))), wrap_pow, wrap_mul_r by (apply Z.div_pos; lia).
    destruct (Z.odd e); [rewrite wrap_mul_l, Z.mul_assoc | rewrite Z.mul_1_l]; done.
Qed.

(** [EXP], computed by repeated squaring with every product cut to 256 bits, is
    the power modulo [2^256]. *)
Theorem exp256_spec base exponent : u256 exponent -> exp256 base exponent = base ^ exponent mod 2 ^ 256.
Proof.
  intros He. unfold exp256. rewrite exp_loop_spec; [by rewrite Z.mul_1_l | | unfold u256; lia].
  unfold u256 in He. change (Z.of_nat 257) with 257. lia.
Qed.
Lemma exp256_spec_witness : exp256 3 1000 = 3 ^ 1000 mod 2 ^ 256.
Proof. apply (exp256_spec 3 1000). unfold u256. lia. Defined.

(** ** Two's complement *)
Definition s256 (y : Z) : Prop := - 2 ^ 255 <= y < 2 ^ 255.

Lemma testbit_high x : u256 x -> Z.testbit x 255 = (2 ^ 255 <=? x).
Proof.
  intros [Hx Hx']. rewrite Z.testbit_eqb by lia. assert (x / 2 ^ 255 = if 2 ^ 255 <=? x then 1 else 0) as ->.
  { destruct (Z.leb_spec (2 ^ 255) x); [symmetry; apply (Z.div_unique x (2 ^ 255) 1 (x - 2 ^ 255)); lia | apply Z.div_small; lia]. }
  by destruct (2 ^ 255 <=? x).
Qed.
Lemma u2s_spec x : u256 x -> u2s x = if 2 ^ 255 <=? x then x - 2 ^ 256 else x.
Proof. intros Hx. unfold u2s. rewrite testbit_high by done. destruct (_ <=? _); lia. Qed.
Lemma u2s_range x : u256 x -> s256 (u2s x).
Proof. intros Hx. rewrite u2s_spec by done. unfold u256, s256 in *. destruct (Z.leb_spec (2 ^ 255) x); lia. Qed.
Lemma s2u_spec y : s256 y -> s2u y = if 0 <=? y then y else y + 2 ^ 256.
Proof. unfold s256, s2u. intros Hy. destruct (Z.leb_spec 0 y); rewrite wrap_small; lia. Qed.
Lemma u2s_s2u y : s256 y -> u2s (s2u y) = y.
Proof.
  intros Hy. rewrite u2s_spec by apply u256_s2u. rewrite s2u_spec by done. unfold s256 in Hy.
  destruct (Z.leb_spec 0 y); [rewrite (proj2 (Z.leb_gt _ _)) by lia | rewrite (proj2 (Z.leb_le _ _)) by lia]; lia.
Qed.
Lemma u2s_0 y : u256 y -> u2s y = 0 -> y = 0.
Proof. intros Hy. rewrite u2s_spec by done. unfold u256 in Hy. destruct (Z.leb_spec (2 ^ 255) y); lia. Qed.

Lemma quot_range a b : s256 a -> b <> 0 -> ~ (a = - 2 ^ 255 /\ b = -1) -> s256 (Z.quot a b).
Proof.
  unfold s256. intros Ha Hb Hn. pose proof (Z.quot_rem' a b) as E. pose proof (Z.rem_bound_abs a b Hb).
  pose proof (Z.quot_abs a b Hb) as Hq. assert (Z.abs (Z.quot a b) <= Z.abs a).
  { rewrite <- Hq. rewrite Z.quot_div_nonneg by lia. apply Z.div_le_upper_bound; nia. }
  destruct (Z.eq_dec b (-1)) as [->|]; [assert (Z.quot a (-1) = - Z.quot a 1) as E1 by exact (Z.quot_opp_r a 1 ltac:(lia)); rewrite Z.quot_1_r in E1; lia |].
  destruct (Z.eq_dec (Z.quot a b) (2 ^ 255)) as [Eq|]; [| lia]. exfalso. nia.
Qed.

Lemma lor_shiftl y z k : 0 <= k -> 0 <= y < 2 ^ k -> 0 <= z -> Z.lor y (z * 2 ^ k) = y + z * 2 ^ k.
Proof.
  intros Hk Hy Hz. symmetry. rewrite <- Z.shiftl_mul_pow2 by done. apply Z.add_nocarry_lor. apply Z.bits_inj'. intros i Hi. rewrite Z.land_spec, Z.bits_0.
  destruct (Z.lt_ge_cases i k); [rewrite Z.shiftl_spec_low by done; apply andb_false_r |].
  destruct (Z.eq_dec y 0) as [->|]; [by rewrite Z.bits_0 |]. rewrite (Z.bits_above_log2 y i); [done | lia |]. apply Z.log2_lt_pow2; [lia |].
  pose proof (Z.pow_le_mono_r 2 k i ltac:(lia) ltac:(lia)). lia.
Qed.
Lemma high_ones k : 0 <= k <= 256 -> 2 ^ 256 - 2 ^ k = (2 ^ (256 - k) - 1) * 2 ^ k.
Proof. intros Hk. rewrite Z.mul_sub_distr_r, <- Z.pow_add_r by lia. replace (256 - k + k) with 256 by lia. lia. Qed.

Lemma sar_spec n x : 0 <= n -> u256 x -> u2s (vm_sar n x) = u2s x / 2 ^ n.
Proof.
  intros Hn Hx. pose proof (u256_sar n x) as Hs. unfold vm_sar in *. rewrite testbit_high in * by done. rewrite (u2s_spec x) by done.
  pose proof (Z.pow_pos_nonneg 2 n ltac:(lia) Hn) as Hp. destruct Hx as [Hx Hx'].
  destruct (Z.leb_spec 256 n) as [Hb|Hb].
  - pose proof (Z.pow_le_mono_r 2 256 n ltac:(lia) Hb). destruct (Z.leb_spec (2 ^ 255) x).
    + apply (Z.div_unique _ _ _ (x - 2 ^ 256 + 2 ^ n)); [lia |]. rewrite u2s_spec by (unfold u256, allbits; lia). unfold allbits. rewrite (proj2 (Z.leb_le _ _)) by lia. lia.
    + rewrite Z.div_small by lia. done.
  - destruct (Z.leb_spec (2 ^ 255) x) as [Hh|Hh].
    + assert (Hq : 0 <= x / 2 ^ n < 2 ^ (256 - n)).
      { split; [apply Z.div_pos; lia |]. apply Z.div_lt_upper_bound; [lia |]. rewrite <- Z.pow_add_r by lia. replace (n + (256 - n)) with 256 by lia. done. }
      assert (Ew : wrap 256 (Z.shiftl allbits (256 - n)) = 2 ^ 256 - 2 ^ (256 - n)).
      { unfold wrap, allbits. rewrite Z.shiftl_mul_pow2 by lia. rewrite Z.mul_sub_distr_r, Z.mul_1_l. symmetry. pose proof (Z.pow_pos_nonneg 2 (256 - n) ltac:(lia) ltac:(lia)).
        pose proof (Z.pow_le_mono_r 2 (256 - n) 256 ltac:(lia) ltac:(lia)). apply (Z.mod_unique _ _ (2 ^ (256 - n) - 1)); lia. }
      rewrite Z.shiftr_div_pow2, Ew, high_ones by lia. rewrite lor_shiftl; [| lia | done | pose proof (Z.pow_pos_nonneg 2 (256 - (256 - n)) ltac:(lia) ltac:(lia)); lia].
      rewrite <- high_ones by lia. replace ((x - 2 ^ 256) / 2 ^ n) with (x / 2 ^ n - 2 ^ (256 - n)).
      * assert (2 ^ (256 - n - 1) <= x / 2 ^ n).
        { apply Z.div_le_lower_bound; [lia |]. rewrite <- Z.pow_add_r by lia. replace (n + (256 - n - 1)) with 255 by lia. done. }
        pose proof (Z.pow_pos_nonneg 2 (256 - n - 1) ltac:(lia) ltac:(lia)).
        assert (2 ^ (256 - n) = 2 * 2 ^ (256 - n - 1)) by (rewrite <- Z.pow_succ_r by lia; f_equal; lia).
        pose proof (Z.pow_le_mono_r 2 (256 - n) 256 ltac:(lia) ltac:(lia)).
        rewrite u2s_spec by (unfold u256; lia). rewrite (proj2 (Z.leb_le _ _)); [lia |].
        pose proof (Z.pow_le_mono_r 2 (256 - n - 1) 255 ltac:(lia) ltac:(lia)). lia.
      * replace (x - 2 ^ 256) with (x + - 2 ^ (256 - n) * 2 ^ n); [rewrite Z.div_add by lia; lia |]. rewrite Z.mul_opp_l, <- Z.pow_add_r by lia. replace (256 - n + n) with 256 by lia. lia.
    + rewrite Z.shiftr_div_pow2 by lia. assert (x / 2 ^ n <= x) by (apply Z.div_le_upper_bound; nia).
      pose proof (Z.div_pos x (2 ^ n) ltac:(lia) ltac:(lia)). rewrite u2s_spec by (unfold u256; lia). rewrite (proj2 (Z.leb_gt _ _)) by lia. done.
Qed.

Lemma land_low x t : 0 <= t -> Z.land x (Z.shiftl 1 t - 1) = x mod 2 ^ t.
Proof. intros Ht. rewrite Z.shiftl_mul_pow2, Z.mul_1_l by done. replace (2 ^ t - 1) with (Z.ones t) by (rewrite Z.ones_equiv; lia). by apply Z.land_ones. Qed.
Lemma bit_split x t : 0 <= t -> x mod 2 ^ (t + 1) = x mod 2 ^ t + (if Z.testbit x t then 2 ^ t else 0).
Proof.
  intros Ht. rewrite Z.pow_add_r, Z.pow_1_r by lia. pose proof (Z.pow_pos_nonneg 2 t ltac:(lia) Ht). rewrite Z.rem_mul_r by lia.
  rewrite Z.testbit_eqb by done. pose proof (Z.mod_pos_bound (x / 2 ^ t) 2 ltac:(lia)).
  destruct (Z.eqb_spec (x / 2 ^ t mod 2) 1); [| assert (x / 2 ^ t mod 2 = 0) by lia]; nia.
Qed.
Lemma swrap_bit x t : 0 <= t -> swrap (t + 1) x = x mod 2 ^ t - (if Z.testbit x t then 2 ^ t else 0).
Proof.
  intros Ht. unfold swrap. replace (t + 1 - 1) with t by lia. pose proof (Z.pow_pos_nonneg 2 t ltac:(lia) Ht).
  pose proof (Z.mod_pos_bound x (2 ^ t) ltac:(lia)). assert (Ep : 2 ^ (t + 1) = 2 * 2 ^ t) by (rewrite Z.pow_add_r by lia; lia).
  rewrite <- Z.add_mod_idemp_l, (bit_split x) by lia. destruct (Z.testbit x t).
  - replace (x mod 2 ^ t + 2 ^ t + 2 ^ t) with (x mod 2 ^ t + 1 * 2 ^ (t + 1)) by lia. rewrite Z.mod_add by lia. rewrite Z.mod_small by lia. lia.
  - rewrite Z.mod_small by lia. lia.
Qed.

Lemma signextend_spec k x : 0 <= k < 31 -> u256 x -> u2s (vm_signextend k x) = swrap (8 * (k + 1)) x.
Proof.
  intros Hk Hx. replace (8 * (k + 1)) with (k * 8 + 7 + 1) by lia. set (t := k * 8 + 7). assert (Ht : 0 <= t <= 247) by lia. rewrite swrap_bit by lia.
  unfold vm_signextend. rewrite (proj2 (Z.ltb_lt _ _)) by lia. fold t. pose proof (Z.pow_pos_nonneg 2 t ltac:(lia) ltac:(lia)).
  pose proof (Z.mod_pos_bound x (2 ^ t) ltac:(lia)) as Hm. pose proof (Z.pow_le_mono_r 2 t 247 ltac:(lia) ltac:(lia)).
  destruct (Z.testbit x t) eqn:Eb.
  - assert (Ew : wrap 256 (Z.lnot (Z.shiftl 1 t - 1)) = 2 ^ 256 - 2 ^ t).
    { rewrite Z.shiftl_mul_pow2, Z.mul_1_l by lia. unfold wrap. replace (Z.lnot (2 ^ t - 1)) with (- 2 ^ t) by (unfold Z.lnot; lia).
      symmetry. apply (Z.mod_unique _ _ (-1)); lia. }
    rewrite Ew, high_ones by lia. assert (Hlor : Z.lor x ((2 ^ (256 - t) - 1) * 2 ^ t) = x mod 2 ^ t + (2 ^ (256 - t) - 1) * 2 ^ t).
    { rewrite <- lor_shiftl; [| lia | lia | pose proof (Z.pow_pos_nonneg 2 (256 - t) ltac:(lia) ltac:(lia)); lia].
      apply Z.bits_inj'. intros i Hi. rewrite !Z.lor_spec, <- (Z.shiftl_mul_pow2 _ t) by lia. destruct (Z.lt_ge_cases i t) as [Hl|Hl].
      - by rewrite Z.mod_pow2_bits_low by lia.
      - rewrite Z.shiftl_spec_high by lia. replace (2 ^ (256 - t) - 1) with (Z.ones (256 - t)) by (rewrite Z.ones_equiv; lia).
        destruct (Z.lt_ge_cases i 256); [rewrite Z.ones_spec_low by lia; by rewrite !orb_true_r |].
        rewrite Z.ones_spec_high by lia. rewrite Z.mod_pow2_bits_high by lia. by rewrite bits_u256. }
    rewrite Hlor, <- high_ones by lia. rewrite u2s_spec by (unfold u256; lia). rewrite (proj2 (Z.leb_le _ _)) by lia. lia.
  - rewrite land_low by lia. rewrite u2s_spec by (unfold u256; lia). rewrite (proj2 (Z.leb_gt _ _)) by lia. lia.
Qed.

(** C36: on words read as two's complement integers, [SDIV] is the quotient towards
    zero and [SMOD] its remainder (zero for a zero divisor; the one quotient that
    does not fit, of [-2^255] by [-1], is the dividend), [SAR] divides by a power of
    two towards minus infinity, for any shift, and [SIGNEXTEND] gives the integer
    the low bytes stand for. *)
Theorem signed_words a b : u256 a -> u256 b ->
  (b <> 0 -> ~ (u2s a = - 2 ^ 255 /\ u2s b = -1) -> u2s (vm_sdiv a b) = Z.quot (u2s a) (u2s b)) /\
  (u2s a = - 2 ^ 255 /\ u2s b = -1 -> vm_sdiv a b = a) /\
  (b <> 0 -> u2s (vm_smod a b) = Z.rem (u2s a) (u2s b)) /\
  vm_sdiv a 0 = 0 /\ vm_smod a 0 = 0 /\
  u2s (vm_sar b a) = u2s a / 2 ^ b /\
  (b < 31 -> u2s (vm_signextend b a) = swrap (8 * (b + 1)) a).
Proof.
  intros Ha Hb. pose proof (u2s_range a Ha) as Ra. pose proof (u2s_range b Hb) as Rb. split; [| split; [| split; [| split; [done | split; [done | split]]]]].
  - intros Hn Ho. unfold vm_sdiv, divWorkaround. rewrite (proj2 (Z.eqb_neq _ _) Hn). apply u2s_s2u, quot_range; [done | | done].
    intros E0. by apply Hn, u2s_0.
  - intros [E1 E2]. unfold vm_sdiv, divWorkaround. rewrite E1, E2. assert (a = 2 ^ 255) as ->.
    { rewrite u2s_spec in E1 by done. unfold u256 in Ha. destruct (Z.leb_spec (2 ^ 255) a); lia. }
    destruct (Z.eqb_spec b 0) as [->|]; [done | reflexivity].
  - intros Hn. unfold vm_smod, modWorkaround. rewrite (proj2 (Z.eqb_neq _ _) Hn). apply u2s_s2u.
    assert (Hb0 : u2s b <> 0) by (intros E0; by apply Hn, u2s_0). pose proof (Z.rem_bound_abs (u2s a) (u2s b) Hb0). unfold s256 in *. lia.
  - apply sar_spec; [apply Hb | done].
  - intros Hk. apply signextend_spec; [split; [apply Hb | done] | done].
Qed.

Lemma signed_words_witness : u2s (vm_sdiv (2 ^ 256 - 7) 2) = Z.quot (u2s (2 ^ 256 - 7)) (u2s 2).
Proof. apply (signed_words (2 ^ 256 - 7) 2); [unfold u256; lia | unfold u256; lia | lia |]. vm_compute. intros [E _]. discriminate E. Defined.
