(* ===== verification/TableInv.v ===== *)
(** * What every row of a table keeps

    A property of the fields of a row that writing keeps, carried through the
    selections, insertions, updates and rollbacks of [MemoryTable.v].  The
    executive uses it for the rows of the accounts: they have their two fields,
    and no value too long to be run. *)

From S2P Require Import Prelude StateMonad CommonData Text StorageEntry MemoryTable TableRows.

Section AllRows.
Context (P : gmap chars chars -> Prop) (V : chars -> Prop).
(** Values that may be written. *)
Context (P_insert : forall fs k v, P fs -> V v -> P (<[k := v]> fs)).

Definition entry_is (e : Entry) : Prop := P (e_fields e).
Definition all_rows (t : MemTable) : Prop := forall g e, get t g = Some e -> entry_is e.

Lemma all_rows_core t t' : (forall g, core <$> get t' g = core <$> get t g) -> all_rows t -> all_rows t'.
Proof.
  intros Hc Ht g e He. specialize (Hc g). rewrite He in Hc. destruct (get t g) as [e'|] eqn:E; [| done].
  injection Hc as _ _ _ Ef. unfold entry_is. rewrite Ef. by apply (Ht g).
Qed.
Lemma all_rows_new i : all_rows (newTable i).
Proof. intros [k j | id] e He; cbn in He; [unfold new_at in He; cbn in He; by rewrite lookup_empty in He | by rewrite lookup_empty in He]. Qed.

(** ** Selections *)
Context (remote : option (TableInfo -> chars -> Condition -> result (option (list Entry)))).
Definition stored_rows (i : TableInfo) : Prop :=
  forall r k c l, remote = Some r -> r i k c = Ok (Some l) -> Forall entry_is l.

Lemma select_news_rows k c t t1 l : all_rows t -> select_news k c t = (t1, l) ->
  all_rows t1 /\ mt_info t1 = mt_info t /\ Forall (fun le => entry_is (snd le)) l.
Proof.
  intros Ht. unfold select_news. set (ix := processEntries c (new_at k t)). intros [= <- <-].
  pose proof (index_same k ix t) as (Hi & _ & Hc). pose proof (all_rows_core _ _ Hc Ht) as Ht1. split_and!; try done.
  apply Forall_forall. intros [loc e] Hin. apply list_elem_of_omap in Hin as (i & Hix & E).
  destruct (new_at k (index_news k ix t) !! i) as [e'|] eqn:El; [| done]. injection E as <- <-. by apply (Ht1 (TNew k i)).
Qed.

Lemma select_rows k c t t1 l : stored_rows (mt_info t) -> all_rows t -> selectNoLock remote k c t = (t1, l) ->
  all_rows t1 /\ mt_info t1 = mt_info t /\ Forall (fun le => entry_is (snd le)) l.
Proof.
  intros Hr Ht. unfold selectNoLock. set (c' := EQ _ _ _).
  assert (Hfin : forall rows t1 l, Forall (fun le => entry_is (snd le)) rows ->
    (let '(t, news) := select_news k c' t in
     (t, if (0 <=? getOffset c') && (0 <=? getCount c') then proccessLimit c' (rows ++ news) else rows ++ news)) = (t1, l) ->
    all_rows t1 /\ mt_info t1 = mt_info t /\ Forall (fun le => entry_is (snd le)) l).
  { clear t1 l. intros rows t1 l Hrow. destruct (select_news k c' t) as [t2 news] eqn:En.
    destruct (select_news_rows k c' t t2 news Ht En) as (H1 & H2 & H3). intros [= <- <-]. split_and!; try done.
    assert (Hall : Forall (fun le => entry_is (snd le)) (rows ++ news)) by by apply Forall_app.
    case_match; [| done]. eapply sublist_forall; [apply limit_sublist | done]. }
  destruct remote as [r|] eqn:Er; [| by apply Hfin].
  destruct (r (mt_info t) k c') as [[rows|]|] eqn:Es; [| intros [= <- <-]; split_and!; try done; constructor ..].
  apply Hfin. pose proof (Hr r k c' rows Er Es) as Hrows. clear -Hrows Ht. induction rows as [|e rows IH]; [constructor |].
  apply Forall_cons in Hrows as [He Hrows]. constructor; [| by apply IH]. cbn. destruct (mt_dirty t !! e_ID e) as [e'|] eqn:Ed; [| done].
  by apply (Ht (TDirty (e_ID e))).
Qed.

(** ** Changes *)
Lemma all_rows_set_new k l t : Forall entry_is l -> all_rows t -> all_rows (set_new k l t).
Proof.
  intros Hl Ht [k' i | id] e He; [| by apply (Ht (TDirty id))]. cbn in He. rewrite new_at_set in He.
  case_bool_decide; [| by apply (Ht (TNew k' i))]. by apply (proj1 (Forall_lookup _ _) Hl i).
Qed.
Lemma all_rows_with_dirty m t : map_Forall (fun _ e => entry_is e) m -> all_rows t -> all_rows (with_dirty m t).
Proof. intros Hm Ht [k' i | id] e He; [by apply (Ht (TNew k' i)) | by apply (Hm id)]. Qed.
Lemma new_rows k t : all_rows t -> Forall entry_is (new_at k t).
Proof. intros Ht. apply Forall_lookup. intros i e He. by apply (Ht (TNew k i)). Qed.
Lemma dirty_rows t : all_rows t -> map_Forall (fun _ e => entry_is e) (mt_dirty t).
Proof. intros Ht id e He. by apply (Ht (TDirty id)). Qed.
Lemma alter_rows (f : Entry -> Entry) i l : (forall e, entry_is e -> entry_is (f e)) -> Forall entry_is l -> Forall entry_is (alter f i l).
Proof. intros Hf Hl. apply Forall_alter; auto. Qed.
Lemma alter_dirty (f : Entry -> Entry) (id : Z) (m : gmap Z Entry) : (forall e, entry_is e -> entry_is (f e)) -> map_Forall (fun _ e => entry_is e) m ->
  map_Forall (fun _ e => entry_is e) (alter f id m).
Proof.
  intros Hf Hm id' e. rewrite lookup_alter_Some. intros [(-> & e' & He & ->) | [_ He]]; [by apply Hf, (Hm id') | by apply (Hm id')].
Qed.

Lemma settle_rows le t : all_rows t -> entry_is (snd le) -> all_rows (fst (settle le t)) /\ mt_info (fst (settle le t)) = mt_info t.
Proof.
  intros Ht He. destruct le as [[i | id |] e]; [done | done |]. cbn. destruct (_ && _); [| done]. split; [| done]. cbn.
  apply all_rows_with_dirty; [| done]. apply map_Forall_insert_2; [done | by apply dirty_rows].
Qed.
Lemma write_rows k loc f t : (forall e, entry_is e -> entry_is (f e)) -> all_rows t -> all_rows (write_loc k loc f t) /\ mt_info (write_loc k loc f t) = mt_info t.
Proof.
  intros Hf Ht. destruct loc as [i | id |]; (split; [| done]); cbn; [| | done].
  - apply all_rows_set_new; [| done]. apply alter_rows; [done | by apply new_rows].
  - apply all_rows_with_dirty; [| done]. apply alter_dirty; [done | by apply dirty_rows].
Qed.
Lemma at_loc_row k loc e t : all_rows t -> entry_is e -> entry_is (at_loc k loc e t).
Proof.
  intros Ht He. destruct loc as [i | id |]; cbn; [| | done].
  - destruct (new_at k t !! i) eqn:E; [by apply (Ht (TNew k i)) | done].
  - destruct (mt_dirty t !! id) eqn:E; [by apply (Ht (TDirty id)) | done].
Qed.

Definition recs_are (rs : list Rec) : Prop := Forall (fun r => V (rec_oldValue r)) rs.
Lemma change_rows k f recs l t t1 rs : (forall e, entry_is e -> entry_is (f e)) -> (forall e, entry_is e -> recs_are (recs e)) ->
  all_rows t -> Forall (fun le => entry_is (snd le)) l -> change_loop k f recs l t = (t1, rs) ->
  all_rows t1 /\ mt_info t1 = mt_info t /\ recs_are rs.
Proof.
  intros Hf Hr. revert t t1 rs. induction l as [|le l IH]; intros t t1 rs Ht Hl; cbn [change_loop]; [intros [= <- <-]; split_and!; try done; constructor |].
  apply Forall_cons in Hl as [Hle Hl]. pose proof (settle_rows le t Ht Hle) as [Hs Hsi]. destruct (settle le t) as [t2 loc]. cbn [fst] in *.
  destruct (write_rows k loc f t2 Hf Hs) as [Hw Hwi]. destruct (change_loop k f recs l (write_loc k loc f t2)) as [t3 rs3] eqn:E. intros [= <- <-].
  destruct (IH _ _ _ Hw Hl E) as (H1 & H2 & H3). split_and!; [done | congruence |]. apply Forall_app. split; [| done].
  apply Hr. by apply at_loc_row.
Qed.
Lemma all_rows_mark t : all_rows t -> all_rows (mark_dirty t).
Proof. intros Ht g e He. by apply (Ht g). Qed.

Lemma write_fields_row ws e : entry_is e -> Forall (fun kv => V (snd kv)) ws -> entry_is (write_fields ws e).
Proof.
  unfold write_fields. revert e. induction ws as [|kv ws IH]; intros e He Hw; [done |]. apply Forall_cons in Hw as [Hv Hw]. cbn.
  apply IH; [| done]. by apply P_insert.
Qed.

Definition change_is (ch : Change) : Prop := recs_are (ch_value ch).
(** The old values of the fields of a row. *)
Context (P_old : forall fs k, P fs -> V (default [] (fs !! k))).
Lemma update_all k fs c o t : stored_rows (mt_info t) -> all_rows t -> map_Forall (fun _ v => V v) fs ->
  let '(t1, ch, _) := table_update remote k fs c o t in all_rows t1 /\ mt_info t1 = mt_info t /\ Forall change_is (option_list ch).
Proof.
  intros Hr Ht Hfs. unfold table_update. destruct (denied o t); [split_and!; try done; constructor |].
  destruct (negb _); [split_and!; try done; constructor |]. destruct (selectNoLock remote k c t) as [ts l] eqn:E.
  destruct (select_rows k c t ts l Hr Ht E) as (Hs & Hi & Hl). unfold update_loop.
  destruct (change_loop k _ _ l ts) as [t1 rs] eqn:Ec.
  assert (Hws : Forall (fun kv => V (snd kv)) (written_fields fs (mt_info ts))).
  { apply Forall_forall. intros [k' v] Hin. unfold written_fields in Hin. apply list_elem_of_In, filter_In in Hin as [Hin _].
    apply list_elem_of_In, elem_of_in_order in Hin. by apply (Hfs k'). }
  pose proof (fun A B => change_rows k _ _ l ts t1 rs A B Hs Hl Ec) as Hch. destruct Hch as (H1 & H2 & H3).
  - intros e He. by apply write_fields_row.
  - intros e He. unfold recs_are, update_records. apply Forall_fmap, Forall_true. intros kv. cbn. by apply P_old.
  - split_and!; [by apply all_rows_mark | cbn; congruence |]. constructor; [done | constructor].
Qed.

Lemma insert_all k fs b o t : all_rows t -> P (<[ti_key (mt_info t) := k]> fs) -> V [] ->
  let '(t1, ch, _) := table_insert k fs b o t in all_rows t1 /\ mt_info t1 = mt_info t /\ Forall change_is (option_list ch).
Proof.
  intros Ht Hp Hv. unfold table_insert. destruct (denied o t); [split_and!; try done; constructor |].
  destruct (negb _); [split_and!; try done; constructor |]. split_and!; [| done | repeat constructor; done].
  apply all_rows_mark, all_rows_set_new; [| done]. apply Forall_app. split; [by apply new_rows |]. constructor; [| constructor].
  unfold entry_is. cbn [setField e_fields]. by rewrite fields_of_row.
Qed.

(** ** Rollback *)
Lemma undo_rows k f r t : (forall e, entry_is e -> entry_is (f e)) -> all_rows t -> all_rows (undo_record k f r t).
Proof.
  intros Hf Ht g e. rewrite get_undo. case_bool_decide; [| by apply Ht]. destruct (get t g) as [e'|] eqn:E; [| done].
  intros [= <-]. by apply Hf, (Ht g).
Qed.
Lemma rollback_all_rows ch t : change_is ch -> all_rows t -> all_rows (table_rollback ch t) /\ mt_info (table_rollback ch t) = mt_info t.
Proof.
  intros Hc Ht. unfold table_rollback. destruct (ch_kind ch).
  - destruct (ch_value ch) as [|r rs]; [done |]. destruct (mt_new t !! ch_key ch) as [l|] eqn:El; [| done]. split; [| done].
    apply all_rows_set_new; [| done]. apply alter_rows; [done |]. pose proof (new_rows (ch_key ch) t Ht) as Hn. unfold new_at in Hn. by rewrite El in Hn.
  - split; [| apply (fold_undo_info _ (fun r => setField (rec_key r) (rec_oldValue r)))]. unfold change_is, recs_are in Hc. revert t Ht. induction (ch_value ch) as [|r rs IH]; intros t Ht; [done |].
    apply Forall_cons in Hc as [Hv Hc]. cbn. apply IH; [done |]. apply undo_rows; [| done]. intros e He. by apply P_insert.
  - split; [| apply (fold_undo_info _ (fun _ => setStatus 0))]. revert t Ht. clear Hc. induction (ch_value ch) as [|r rs IH]; intros t Ht; [done |].
    cbn. apply IH. by apply undo_rows.
Qed.
End AllRows.
