(* ===== verification/Executive.v ===== *)
(** * The executive: transactions, nested calls and the host of the virtual machine

    [libexecutive/Executive.cpp], [ExtVM.cpp], [ExecutionResult.*],
    [libevm/ExtVMFace.*], [EVMC.*] and [libblockverifier/ExecutiveContext.*].
    The state behind it is the interface [StateFace] of the code, over any type
    of states; the precompiled contracts are those of the context.  A frame of
    execution is an [Executive] with the state; the call of a contract runs the
    virtual machine of [EVM.v] over the host built from the frame, whose calls
    run further frames.  [exit] and [std::terminate] are the exception
    [Terminated], which nothing catches. *)

From S2P Require Import Prelude StateMonad CommonData RLP PBFTMsg BlockHeader Transaction Receipt StorageEntry EVM.

(** ** Schedules *)
Record EVMSchedule := mkSchedule {
  exceptionalFailedCodeDeposit : bool;
  haveDelegateCall : bool;
  eip150Mode : bool;
  eip158Mode : bool;
  haveRevert : bool;
  haveCreate2 : bool;
  sstoreRefundGas : Z;
  suicideRefundGas : Z;
  createDataGas : Z;
  txGas : Z;
  txCreateGas : Z;
  txDataZeroGas : Z;
  txDataNonZeroGas : Z;
  maxCodeSize : Z
}.
Definition HomesteadSchedule : EVMSchedule := mkSchedule true true false false false false 15000 24000 200 21000 53000 4 68 (2 ^ 32 - 1).
Definition EIP150Schedule : EVMSchedule := mkSchedule true true true false false false 15000 24000 200 21000 53000 4 68 (2 ^ 32 - 1).
Definition EIP158Schedule : EVMSchedule := mkSchedule true true true true false false 15000 24000 200 21000 53000 4 68 0x6000.
Definition ByzantiumSchedule : EVMSchedule := mkSchedule true true true true true false 15000 24000 200 21000 53000 4 68 0x6000.
Definition ConstantinopleSchedule : EVMSchedule := mkSchedule true true true true true true 15000 24000 200 21000 53000 4 68 0x6000.
Definition FiscoBcosSchedule : EVMSchedule := ConstantinopleSchedule.
Definition DefaultSchedule : EVMSchedule := FiscoBcosSchedule.

Definition toRevision (s : EVMSchedule) : evmc_revision :=
  if haveCreate2 s then EVMC_CONSTANTINOPLE
  else if haveRevert s then EVMC_BYZANTIUM
  else if eip158Mode s then EVMC_SPURIOUS_DRAGON
  else if eip150Mode s then EVMC_TANGERINE_WHISTLE
  else if haveDelegateCall s then EVMC_HOMESTEAD
  else EVMC_FRONTIER.

(** [Transaction::baseGasRequired]. *)
Definition baseGasRequired (contractCreation : bool) (data : bytes) (es : EVMSchedule) : Z :=
  foldl (fun g i => g + (if i =? 0 then txDataZeroGas es else txDataNonZeroGas es)) (if contractCreation then txCreateGas es else txGas es) data.

(** ** Results *)
Inductive TransactionException : Set :=
  | TE_None | TE_Unknown | TE_BadRLP | TE_InvalidFormat | TE_OutOfGasIntrinsic | TE_InvalidSignature
  | TE_InvalidNonce | TE_NotEnoughCash | TE_OutOfGasBase | TE_BlockGasLimitReached | TE_BadInstruction
  | TE_BadJumpDestination | TE_OutOfGas | TE_OutOfStack | TE_StackUnderflow | TE_NonceCheckFail
  | TE_BlockLimitCheckFail | TE_FilterCheckFail | TE_NoDeployPermission | TE_NoCallPermission
  | TE_NoTxPermission | TE_PrecompiledError | TE_RevertInstruction | TE_InvalidZeroSignatureFormat
  | TE_AddressAlreadyUsed | TE_PermissionDenied | TE_CallAddressError | TE_GasOverflow | TE_TxPoolIsFull.
#[export] Instance TransactionException_eq_dec : EqDecision TransactionException.
Proof. solve_decision. Defined.
Definition te_code (x : TransactionException) : Z :=
  match x with
  | TE_None => 0 | TE_Unknown => 1 | TE_BadRLP => 2 | TE_InvalidFormat => 3 | TE_OutOfGasIntrinsic => 4 | TE_InvalidSignature => 5
  | TE_InvalidNonce => 6 | TE_NotEnoughCash => 7 | TE_OutOfGasBase => 8 | TE_BlockGasLimitReached => 9 | TE_BadInstruction => 10
  | TE_BadJumpDestination => 11 | TE_OutOfGas => 12 | TE_OutOfStack => 13 | TE_StackUnderflow => 14 | TE_NonceCheckFail => 15
  | TE_BlockLimitCheckFail => 16 | TE_FilterCheckFail => 17 | TE_NoDeployPermission => 18 | TE_NoCallPermission => 19
  | TE_NoTxPermission => 20 | TE_PrecompiledError => 21 | TE_RevertInstruction => 22 | TE_InvalidZeroSignatureFormat => 23
  | TE_AddressAlreadyUsed => 24 | TE_PermissionDenied => 25 | TE_CallAddressError => 26 | TE_GasOverflow => 27 | TE_TxPoolIsFull => 28
  end.

(** [toTransactionException]; the exceptions of RLP are one family. *)
Definition toTransactionException (e : Exn) : TransactionException :=
  match e with
  | BadRLP | BadCast | OversizeRLP | UndersizeRLP | RLPException | ErrorBlockHash => TE_BadRLP
  | OutOfGasIntrinsic => TE_OutOfGasIntrinsic
  | InvalidSignature => TE_InvalidSignature
  | PermissionDenied => TE_PermissionDenied
  | OutOfGasBase => TE_OutOfGasBase
  | NotEnoughCash => TE_NotEnoughCash
  | PrecompiledErrorExn => TE_PrecompiledError
  | BadInstruction => TE_BadInstruction
  | BadJumpDestination => TE_BadJumpDestination
  | OutOfGas => TE_OutOfGas
  | OutOfStack => TE_OutOfStack
  | StackUnderflow => TE_StackUnderflow
  | _ => TE_Unknown
  end.

Definition transactionExceptionToEvmcStatusCode (ex : TransactionException) : evmc_status_code :=
  match ex with
  | TE_None => EVMC_SUCCESS
  | TE_RevertInstruction => EVMC_REVERT
  | TE_OutOfGas => EVMC_OUT_OF_GAS
  | TE_BadInstruction => EVMC_UNDEFINED_INSTRUCTION
  | TE_OutOfStack => EVMC_STACK_OVERFLOW
  | TE_StackUnderflow => EVMC_STACK_UNDERFLOW
  | TE_BadJumpDestination => EVMC_BAD_JUMP_DESTINATION
  | _ => EVMC_FAILURE
  end.

Inductive CodeDeposit : Set := CD_None | CD_Failed | CD_Success.
Record ExecutionResult := mkExecutionResult {
  er_gasUsed : Z;
  er_excepted : TransactionException;
  er_newAddress : Address;
  er_output : bytes;
  er_codeDeposit : CodeDeposit;
  er_gasRefunded : Z;
  er_depositSize : Z;
  er_gasForDeposit : Z
}.
Definition newExecutionResult : ExecutionResult := mkExecutionResult 0 TE_Unknown ZeroAddress [] CD_None 0 0 0.

Definition set_codeDeposit (d : CodeDeposit) (r : ExecutionResult) : ExecutionResult :=
  mkExecutionResult (er_gasUsed r) (er_excepted r) (er_newAddress r) (er_output r) d (er_gasRefunded r) (er_depositSize r) (er_gasForDeposit r).
Definition set_er_output (o : bytes) (r : ExecutionResult) : ExecutionResult :=
  mkExecutionResult (er_gasUsed r) (er_excepted r) (er_newAddress r) o (er_codeDeposit r) (er_gasRefunded r) (er_depositSize r) (er_gasForDeposit r).

(** ** Frames *)
(** [std::set<Address>] is ordered by the bytes. *)
Record SubState := mkSubState { suicides : gmap Address unit; sub_logs : list LogEntry; refunds : Z }.
Definition emptySub : SubState := mkSubState ∅ [] 0.
Definition sub_add (a b : SubState) : SubState :=
  mkSubState (suicides a ∪ suicides b) (sub_logs a ++ sub_logs b) (wrap 256 (refunds a + refunds b)).

Record CallParameters := mkCallParameters {
  senderAddress : Address;
  codeAddress : Address;
  receiveAddress : Address;
  valueTransfer : Z;
  apparentValue : Z;
  cp_gas : Z;
  cp_data : bytes;
  staticCall : bool
}.

Record EnvInfo := mkEnvInfo { env_header : BlockHeader; env_numberHash : Z -> h256 }.

(** The members of [ExtVMFace] but the state and the sub-state. *)
Record ExtVM := mkExtVM {
  xv_myAddress : Address;
  xv_caller : Address;
  xv_origin : Address;
  xv_value : Z;
  xv_gasPrice : Z;
  xv_data : bytes;
  xv_code : bytes;
  xv_codeHash : h256;
  xv_depth : Z;
  xv_isCreate : bool;
  xv_staticCall : bool
}.

Record Executive := mkExecutive {
  ex_ext : option (ExtVM * SubState);
  ex_output : bytes;
  ex_res : option ExecutionResult;
  ex_depth : Z;
  ex_excepted : TransactionException;
  ex_baseGasRequired : Z;
  ex_gas : Z;
  ex_refunded : Z;
  ex_t : Transaction;
  ex_logs : list LogEntry;
  ex_isCreation : bool;
  ex_newAddress : Address;
  ex_savepoint : nat;
  ex_tableFactorySavepoint : nat
}.
Definition newExecutive (depth : Z) : Executive :=
  mkExecutive None [] None depth TE_None 0 0 0 emptyTx [] false ZeroAddress 0 0.
Definition with_ext x e := mkExecutive x (ex_output e) (ex_res e) (ex_depth e) (ex_excepted e) (ex_baseGasRequired e) (ex_gas e) (ex_refunded e) (ex_t e) (ex_logs e) (ex_isCreation e) (ex_newAddress e) (ex_savepoint e) (ex_tableFactorySavepoint e).
Definition with_output x e := mkExecutive (ex_ext e) x (ex_res e) (ex_depth e) (ex_excepted e) (ex_baseGasRequired e) (ex_gas e) (ex_refunded e) (ex_t e) (ex_logs e) (ex_isCreation e) (ex_newAddress e) (ex_savepoint e) (ex_tableFactorySavepoint e).
Definition with_res x e := mkExecutive (ex_ext e) (ex_output e) x (ex_depth e) (ex_excepted e) (ex_baseGasRequired e) (ex_gas e) (ex_refunded e) (ex_t e) (ex_logs e) (ex_isCreation e) (ex_newAddress e) (ex_savepoint e) (ex_tableFactorySavepoint e).
Definition with_excepted x e := mkExecutive (ex_ext e) (ex_output e) (ex_res e) (ex_depth e) x (ex_baseGasRequired e) (ex_gas e) (ex_refunded e) (ex_t e) (ex_logs e) (ex_isCreation e) (ex_newAddress e) (ex_savepoint e) (ex_tableFactorySavepoint e).
Definition with_tx t base e := mkExecutive (ex_ext e) (ex_output e) (ex_res e) (ex_depth e) (ex_excepted e) base (ex_gas e) (ex_refunded e) t (ex_logs e) (ex_isCreation e) (ex_newAddress e) (ex_savepoint e) (ex_tableFactorySavepoint e).
Definition with_gas x e := mkExecutive (ex_ext e) (ex_output e) (ex_res e) (ex_depth e) (ex_excepted e) (ex_baseGasRequired e) x (ex_refunded e) (ex_t e) (ex_logs e) (ex_isCreation e) (ex_newAddress e) (ex_savepoint e) (ex_tableFactorySavepoint e).
Definition with_refunded x e := mkExecutive (ex_ext e) (ex_output e) (ex_res e) (ex_depth e) (ex_excepted e) (ex_baseGasRequired e) (ex_gas e) x (ex_t e) (ex_logs e) (ex_isCreation e) (ex_newAddress e) (ex_savepoint e) (ex_tableFactorySavepoint e).
Definition with_logs x e := mkExecutive (ex_ext e) (ex_output e) (ex_res e) (ex_depth e) (ex_excepted e) (ex_baseGasRequired e) (ex_gas e) (ex_refunded e) (ex_t e) x (ex_isCreation e) (ex_newAddress e) (ex_savepoint e) (ex_tableFactorySavepoint e).
Definition with_isCreation x e := mkExecutive (ex_ext e) (ex_output e) (ex_res e) (ex_depth e) (ex_excepted e) (ex_baseGasRequired e) (ex_gas e) (ex_refunded e) (ex_t e) (ex_logs e) x (ex_newAddress e) (ex_savepoint e) (ex_tableFactorySavepoint e).
Definition with_newAddress x e := mkExecutive (ex_ext e) (ex_output e) (ex_res e) (ex_depth e) (ex_excepted e) (ex_baseGasRequired e) (ex_gas e) (ex_refunded e) (ex_t e) (ex_logs e) (ex_isCreation e) x (ex_savepoint e) (ex_tableFactorySavepoint e).
Definition with_savepoints x y e := mkExecutive (ex_ext e) (ex_output e) (ex_res e) (ex_depth e) (ex_excepted e) (ex_baseGasRequired e) (ex_gas e) (ex_refunded e) (ex_t e) (ex_logs e) (ex_isCreation e) (ex_newAddress e) x y.

(** ** The state and the context *)
(** [StateFace]: what the executive uses of it. *)
Record StateFace (S : Type) := mkStateFace {
  sf_addressInUse : Address -> SE S bool;
  sf_accountNonemptyAndExisting : Address -> SE S bool;
  sf_addressHasCode : Address -> SE S bool;
  sf_balance : Address -> SE S Z;
  sf_addBalance : Address -> Z -> SE S unit;
  sf_setBalance : Address -> Z -> SE S unit;
  sf_transferBalance : Address -> Address -> Z -> SE S unit;
  sf_storage : Address -> Z -> SE S Z;
  sf_setStorage : Address -> Z -> Z -> SE S unit;
  sf_clearStorage : Address -> SE S unit;
  sf_setCode : Address -> bytes -> SE S unit;
  sf_kill : Address -> SE S unit;
  sf_code : Address -> SE S bytes;
  sf_codeHash : Address -> SE S h256;
  sf_codeSize : Address -> SE S Z;
  sf_incNonce : Address -> SE S unit;
  sf_setNonce : Address -> Z -> SE S unit;
  sf_getNonce : Address -> SE S Z;
  sf_requireAccountStartNonce : SE S Z;
  sf_checkAuthority : Address -> Address -> SE S bool;
  sf_rootHash : bool -> SE S h256;
  sf_savepoint : S -> nat;
  sf_rollback : nat -> S -> S
}.
Arguments mkStateFace {S} _ _ _ _ _ _ _ _ _ _ _ _ _ _ _ _ _ _ _ _ _ _ _.
Arguments sf_addressInUse {S} _.
Arguments sf_accountNonemptyAndExisting {S} _.
Arguments sf_addressHasCode {S} _.
Arguments sf_balance {S} _.
Arguments sf_addBalance {S} _.
Arguments sf_setBalance {S} _.
Arguments sf_transferBalance {S} _.
Arguments sf_storage {S} _.
Arguments sf_setStorage {S} _.
Arguments sf_clearStorage {S} _.
Arguments sf_setCode {S} _.
Arguments sf_kill {S} _.
Arguments sf_code {S} _.
Arguments sf_codeHash {S} _.
Arguments sf_codeSize {S} _.
Arguments sf_incNonce {S} _.
Arguments sf_setNonce {S} _.
Arguments sf_getNonce {S} _.
Arguments sf_requireAccountStartNonce {S} _.
Arguments sf_checkAuthority {S} _.
Arguments sf_rootHash {S} _.
Arguments sf_savepoint {S} _.
Arguments sf_rollback {S} _.

(** [ExecutiveContext]: the precompiled contracts by address, and of the table
    factory the savepoints and [openTable(SYS_TABLES)->checkAuthority].  Its change
    log is kept per thread: [tf_newThread] is the state as a new thread sees it,
    [tf_join] what the old thread sees of the state the new one left. *)
Record ExecutiveContext (S : Type) := mkContext {
  m_address2Precompiled : gmap Address (bytes -> Address -> SE S bytes);
  m_precompiledContract : gmap Address (bytes -> bool * bytes);
  m_txGasLimit : Z;
  tf_mayDeploy : Address -> SE S bool;
  tf_savepoint : S -> nat;
  tf_rollback : nat -> S -> S;
  tf_newThread : S -> S;
  tf_join : S -> S -> S
}.
Arguments mkContext {S} _ _ _ _ _ _ _ _.
Arguments m_address2Precompiled {S} _.
Arguments m_precompiledContract {S} _.
Arguments m_txGasLimit {S} _.
Arguments tf_mayDeploy {S} _.
Arguments tf_savepoint {S} _.
Arguments tf_rollback {S} _.
Arguments tf_newThread {S} _.
Arguments tf_join {S} _.

(** What no handler catches. *)
Definition fatal (e : Exn) : bool := match e with UndefinedBehaviour | Terminated => true | _ => false end.
Definition try_catch {St A} (m : SE St A) (h : Exn -> SE St A) : SE St A := fun s =>
  match m s with
  | (s', Throw e) => if fatal e then (s', Throw e) else h e s'
  | r => r
  end.
(** A function that is [noexcept]. *)
Definition noexcept {St A} (m : SE St A) : SE St A := try_catch m (fun _ => se_lift (Throw Terminated)).

Section Context.
Context {S : Type} (ctx : ExecutiveContext S).

Definition isPrecompiled (a : Address) : bool := bool_decide (is_Some (m_address2Precompiled ctx !! a)).
Definition isOrginPrecompiled (a : Address) : bool := bool_decide (is_Some (m_precompiledContract ctx !! a)).
(** [unordered_map::at] *)
Definition executeOriginPrecompiled (a : Address) (inp : bytes) : result (bool * bytes) :=
  match m_precompiledContract ctx !! a with Some f => Ok (f inp) | None => Throw OutOfRange end.
(** [ExecutiveContext::call]: whatever the contract throws becomes a [PrecompiledError]. *)
Definition context_call (origin address : Address) (param : bytes) : SE S bytes :=
  match m_address2Precompiled ctx !! address with
  | Some p => try_catch (p param origin) (fun _ => se_lift (Throw PrecompiledErrorExn))
  | None => mret []
  end.
End Context.

(** ** The executive *)
Section Executive.
Context `{Crypto} `{Recover} {S : Type} (sf : StateFace S) (ctx : ExecutiveContext S) (env : EnvInfo) (version : Z).
(** How a contract is run: the gas left, and the output or an exception.  The
    interpreter of [EVM.v] over the host below. *)
Context (vm : ExtVM -> Z -> S * SubState -> S * SubState * (Z * result bytes)).

Abbreviation EE := (SE (S * Executive)).
Definition st {A} (m : SE S A) : EE A := fun se => let '(s, e) := se in let '(s', r) := m s in ((s', e), r).
Definition ex : EE Executive := se ← se_get; mret (snd se).
Definition ex_mod (f : Executive -> Executive) : EE unit := se_mod (fun se => (fst se, f (snd se))).
(** [return !m_ext] *)
Definition done_ : EE bool := e ← ex; mret (negb (bool_decide (is_Some (ex_ext e)))).
(** [if (m_res) ...] *)
Definition res_mod (f : ExecutionResult -> ExecutionResult) : EE unit := ex_mod (fun e => with_res (f <$> ex_res e) e).

Definition take_savepoints : EE unit :=
  se_mod (fun se => let '(s, e) := se in (s, with_savepoints (sf_savepoint sf s) (tf_savepoint ctx s) e)).

Definition ex_revert : EE unit :=
  se_mod (fun se => let '(s, e) := se in
    (tf_rollback ctx (ex_tableFactorySavepoint e) (sf_rollback sf (ex_savepoint e) s),
     with_newAddress ZeroAddress (with_ext ((fun x => (fst x, emptySub)) <$> ex_ext e) e))).
Definition fail (x : TransactionException) : EE unit := ex_revert;; ex_mod (with_excepted x).

(** *** Calls *)
Definition call_ext (p : CallParameters) (gasPrice : Z) (origin : Address) : EE unit :=
  c ← st (sf_code sf (codeAddress p));
  codeHash ← st (sf_codeHash sf (codeAddress p));
  ex_mod (fun e => with_ext (Some (mkExtVM (receiveAddress p) (senderAddress p) origin (apparentValue p) gasPrice (cp_data p) c codeHash
    (ex_depth e) false (staticCall p), emptySub)) e).

Definition call_origin (p : CallParameters) : EE unit :=
  r ← se_lift (executeOriginPrecompiled ctx (codeAddress p) (cp_data p)); ex_mod (with_output (snd r)).

(** [Executive::call] before RC2 *)
Definition callRC1 (p : CallParameters) (gasPrice : Z) (origin : Address) : EE bool :=
  e ← ex;
  se_when (negb (bool_decide (tx_type (ex_t e) = NullTransaction))) (st (sf_incNonce sf (senderAddress p)));;
  take_savepoints;;
  try_catch
    ((if isOrginPrecompiled ctx (codeAddress p) then ex_mod (with_gas (cp_gas p));; call_origin p
      else if isPrecompiled ctx (codeAddress p) then
        ex_mod (with_gas (cp_gas p));; out ← st (context_call ctx origin (codeAddress p) (cp_data p)); ex_mod (with_output out)
      else
        ex_mod (with_gas (cp_gas p));;
        b ← st (sf_addressHasCode sf (codeAddress p));
        se_when b (call_ext p gasPrice origin));;
     st (sf_transferBalance sf (senderAddress p) (receiveAddress p) (valueTransfer p)))
    (fun e => fail (match e with PrecompiledErrorExn => TE_PrecompiledError | NotEnoughCash => TE_NotEnoughCash | _ => TE_Unknown end));;
  done_.

(** Exceptions that derive from [dev::Exception]; the others are [std::exception]s. *)
Definition dev_exception (e : Exn) : bool :=
  match e with InvalidArgument | OutOfRange | RuntimeError => false | _ => true end.

Definition callRC2 (p : CallParameters) (gasPrice : Z) (origin : Address) : EE bool :=
  take_savepoints;;
  ex_mod (with_gas (cp_gas p));;
  (if isOrginPrecompiled ctx (codeAddress p) then call_origin p
   else if isPrecompiled ctx (codeAddress p) then
     try_catch (out ← st (context_call ctx origin (codeAddress p) (cp_data p)); ex_mod (with_output out))
       (fun e => fail (if dev_exception e then toTransactionException e else TE_Unknown))
   else
     b ← st (sf_addressHasCode sf (codeAddress p));
     if (b : bool) then call_ext p gasPrice origin else ex_mod (with_excepted TE_CallAddressError));;
  done_.

Definition ex_call (p : CallParameters) (gasPrice : Z) (origin : Address) : EE bool :=
  if RC2_VERSION <=? version then callRC2 p gasPrice origin else callRC1 p gasPrice origin.

(** *** Creations *)
Definition executeCreate (sender : Address) (endowment gasPrice gas : Z) (init : bytes) (origin : Address) : EE bool :=
  allowed ← st (tf_mayDeploy ctx origin);
  if negb allowed then
    ex_mod (with_gas 0);; ex_mod (with_excepted TE_PermissionDenied);; ex_revert;; ex_mod (with_ext None);; done_
  else
    st (sf_incNonce sf sender);;
    take_savepoints;;
    ex_mod (with_isCreation true);;
    ex_mod (with_gas gas);;
    e ← ex;
    hasCode ← st (sf_addressHasCode sf (ex_newAddress e));
    used ← (if (hasCode : bool) then mret true else n ← st (sf_getNonce sf (ex_newAddress e)); mret (0 <? n));
    if (used : bool) then
      ex_mod (with_gas 0);; ex_mod (with_excepted TE_AddressAlreadyUsed);; ex_revert;; ex_mod (with_ext None);; done_
    else
      st (sf_transferBalance sf sender (ex_newAddress e) endowment);;
      newNonce ← st (sf_requireAccountStartNonce sf);
      st (sf_setNonce sf (ex_newAddress e) newNonce);;
      se_when (negb (bool_decide (init = [])))
        (ex_mod (fun e => with_ext (Some (mkExtVM (ex_newAddress e) sender origin endowment gasPrice [] init (sha3 init) (ex_depth e) true false, emptySub)) e));;
      done_.

(** [rlpList(_sender, nonce)] *)
Definition rlp_pair (a : Address) (nonce : Z) : result bytes :=
  s ← appendList 2 emptyStream; s ← append_data a false s; s ← append_u256 nonce s; out s.
Definition createOpcode (sender : Address) (endowment gasPrice gas : Z) (init : bytes) (origin : Address) : EE bool :=
  nonce ← st (sf_getNonce sf sender);
  b ← se_lift (rlp_pair sender nonce);
  ex_mod (with_newAddress (right160 (sha3 b)));;
  executeCreate sender endowment gasPrice gas init origin.
Definition create2Opcode (sender : Address) (endowment gasPrice gas : Z) (init : bytes) (origin : Address) (salt : Z) : EE bool :=
  ex_mod (with_newAddress (right160 (sha3 ([0xff] ++ sender ++ toBigEndian 32 salt ++ sha3 init))));;
  executeCreate sender endowment gasPrice gas init origin.

(** *** Running the code *)
(** [vm->exec(m_gas, *m_ext)] *)
Definition run_vm : EE bytes := fun se =>
  let '(s, e) := se in
  match ex_ext e with
  | None => (se, Throw UndefinedBehaviour)
  | Some (x, sub) =>
      let '((s', sub'), (gas', r)) := vm x (ex_gas e) (s, sub) in ((s', with_gas gas' (with_ext (Some (x, sub')) e)), r)
  end.

Definition go_create (x : ExtVM) : EE unit :=
  st (sf_clearStorage sf (xv_myAddress x));;
  out ← run_vm;
  e ← ex;
  res_mod (fun r => mkExecutionResult (er_gasUsed r) (er_excepted r) (er_newAddress r) (er_output r) (er_codeDeposit r) (er_gasRefunded r) (lenZ out) (ex_gas e));;
  out' ← ((if maxCodeSize DefaultSchedule <? lenZ out then se_lift (Throw OutOfGas)
    else if lenZ out * createDataGas DefaultSchedule <=? ex_gas e then
      res_mod (set_codeDeposit CD_Success);;
      ex_mod (fun e => with_gas (ex_gas e - lenZ out * createDataGas DefaultSchedule) e);;
      mret out
    else if exceptionalFailedCodeDeposit DefaultSchedule then se_lift (Throw OutOfGas)
    else res_mod (set_codeDeposit CD_Failed);; mret []) : EE bytes);
  res_mod (set_er_output out');;
  st (sf_setCode sf (xv_myAddress x) out').

(** The handlers of [go]. *)
Definition go_catch (e : Exn) : EE unit :=
  match e with
  | RevertInstruction out => ex_revert;; ex_mod (with_output out);; ex_mod (with_excepted TE_RevertInstruction)
  | OutOfGas => fail TE_OutOfGas
  | GasOverflow => fail TE_GasOverflow
  | BadInstruction | BadJumpDestination | OutOfStack | StackUnderflow | DisallowedStateChange | BufferOverrun =>
      ex_mod (with_gas 0);; ex_mod (with_excepted (toTransactionException e));; ex_revert
  | PermissionDenied => fail TE_PermissionDenied
  | NotEnoughCash => fail TE_NotEnoughCash
  | PrecompiledErrorExn => fail TE_PrecompiledError
  | InternalVMError => ex_revert;; se_lift (Throw Terminated)
  | _ => se_lift (Throw Terminated)
  end.

Definition go : EE unit :=
  e ← ex;
  match ex_ext e with
  | None => mret tt
  | Some (x, _) =>
      try_catch
        (if ex_isCreation e then go_create x else out ← run_vm; ex_mod (with_output out))
        go_catch;;
      e ← ex;
      se_when (negb (bool_decide (ex_output e = [])))
        (res_mod (set_er_output (ex_output e)))
  end.

(** *** Transactions *)
(** [u256 gasUsed() const] *)
Definition ex_gasUsed (e : Executive) : Z := wrap 256 (m_txGasLimit ctx - ex_gas e).

Definition isCreation (t : Transaction) : bool := bool_decide (tx_type t = ContractCreation).
Definition ex_initialize (t : Transaction) : EE unit :=
  let base := baseGasRequired (isCreation t) (tx_data t) DefaultSchedule in
  ex_mod (with_tx t base);;
  if m_txGasLimit ctx <? base then ex_mod (with_excepted TE_OutOfGasIntrinsic);; se_lift (Throw OutOfGasIntrinsic) else mret tt.

Definition ex_execute : EE bool :=
  e ← ex;
  if tx_gas (ex_t e) <? ex_baseGasRequired e then ex_mod (with_excepted TE_OutOfGasBase);; se_lift (Throw OutOfGasBase)
  else
    let gas := wrap 256 (m_txGasLimit ctx - ex_baseGasRequired e) in
    r ← se_lift (sender version (ex_t e));
    let '(a, t) := r in
    ex_mod (fun e => with_tx t (ex_baseGasRequired e) e);;
    if isCreation t then createOpcode a (tx_value t) (tx_gasPrice t) gas (tx_data t) a
    else ex_call (mkCallParameters a (tx_receiveAddress t) (tx_receiveAddress t) (tx_value t) (tx_value t) gas (tx_data t) false) (tx_gasPrice t) a.

Fixpoint kill_all (l : list Address) : EE unit :=
  match l with [] => mret tt | a :: l' => st (sf_kill sf a);; kill_all l' end.

Definition ex_finalize : EE bool :=
  e ← ex;
  match ex_ext e with
  | None => ex_mod (with_refunded 0)
  | Some (x, sub) =>
      let sub' := mkSubState (suicides sub) (sub_logs sub) (wrap 256 (refunds sub + suicideRefundGas DefaultSchedule * Z.of_nat (size (suicides sub)))) in
      let refunded := Z.min (wrap 256 (tx_gas (ex_t e) - ex_gas e) / 2) (refunds sub') in
      ex_mod (with_ext (Some (x, sub')));;
      ex_mod (with_refunded refunded);;
      ex_mod (fun e => with_gas (wrap 256 (ex_gas e + refunded)) e);;
      kill_all (map fst (in_order (suicides sub')));;
      ex_mod (with_logs (sub_logs sub'))
  end;;
  e ← ex;
  res_mod (fun r => mkExecutionResult (ex_gasUsed e) (ex_excepted e) (ex_newAddress e) (er_output r) (er_codeDeposit r)
    (match ex_ext e with Some (_, sub) => refunds sub | None => 0 end) (er_depositSize r) (er_gasForDeposit r));;
  mret (bool_decide (ex_excepted e = TE_None)).

(** [BlockVerifier::execute]: a last handler drops what is thrown. *)
Definition run_transaction (t : Transaction) : EE unit :=
  try_catch
    (ex_initialize t;; d ← ex_execute; se_when (negb d) go;; ex_finalize;; mret tt)
    (fun _ => mret tt).
End Executive.

(** ** The host *)
Section ExtVM.
Context `{Crypto} `{Recover} {S : Type} (sf : StateFace S) (ctx : ExecutiveContext S) (env : EnvInfo) (version : Z).
Context (vm : ExtVM -> Z -> S * SubState -> S * SubState * (Z * result bytes)).
(** the frame whose host it is *)
Variable x : ExtVM.

Abbreviation XE := (SE (S * SubState)).
Definition xs {A} (m : SE S A) : XE A := fun w => let '(s, sub) := w in let '(s', r) := m s in ((s', sub), r).
Definition sub_mod (f : SubState -> SubState) : XE unit := se_mod (fun w => (fst w, f (snd w))).

(** *** [ExtVM] *)
Definition xv_exists (a : Address) : SE S bool :=
  if eip158Mode DefaultSchedule then sf_accountNonemptyAndExisting sf a else sf_addressInUse sf a.
Definition codeSizeAt (a : Address) : SE S Z := if isPrecompiled ctx a then mret 1 else sf_codeSize sf a.
Definition codeHashAt (a : Address) : SE S h256 := b ← xv_exists a; if (b : bool) then sf_codeHash sf a else mret h256_0.
Definition setStore (n v : Z) : SE S unit :=
  ok ← sf_checkAuthority sf (xv_origin x) (xv_myAddress x);
  if negb ok then se_lift (Throw PermissionDenied) else sf_setStorage sf (xv_myAddress x) n v.
Definition suicide (a : Address) : XE unit :=
  (if RC2_VERSION <=? version then mret tt
   else
     b ← xs (sf_balance sf (xv_myAddress x));
     xs (sf_addBalance sf a b);; xs (sf_setBalance sf (xv_myAddress x) 0));;
  sub_mod (fun s => mkSubState (<[xv_myAddress x := tt]> (suicides s)) (sub_logs s) (refunds s)).
Definition ext_log (topics : list h256) (data : bytes) : XE unit :=
  sub_mod (fun s => mkSubState (suicides s) (sub_logs s ++ [mkLog (xv_myAddress x) topics data]) (refunds s)).

(** The frame a call or a creation starts: its result, with the sub-state
    accrued to this one's when code was run. *)
Definition generateCallResult (status : evmc_status_code) (gas : Z) (output : bytes) : EvmcResult :=
  mkResult status (swrap 64 gas) output ZeroAddress.
Definition generateCreateResult (status : evmc_status_code) (gas : Z) (output : bytes) (a : Address) : EvmcResult :=
  match status with
  | EVMC_SUCCESS => mkResult status (swrap 64 gas) [] a
  | _ => generateCallResult status gas output
  end.

(** The stack of a thread holds [c_offloadPoint] frames (on Linux); the frame below
    runs on another thread. *)
Definition c_offloadPoint : Z := (8 * 1024 * 1024 - 128 * 1024) / (100 * 1024).
Definition ext_go (depth : Z) : SE (S * Executive) unit := fun se =>
  if depth =? c_offloadPoint then
    let '((s', e'), r) := go sf ctx vm (tf_newThread ctx (fst se), snd se) in ((tf_join ctx (fst se) s', e'), r)
  else go sf ctx vm se.

Definition nested (start : SE (S * Executive) bool) : XE Executive := fun w =>
  let '(s, sub) := w in
  match start (s, newExecutive (xv_depth x + 1)) with
  | ((s1, e1), Throw ec) => ((s1, sub), Throw ec)
  | ((s1, e1), Ok true) => ((s1, sub), Ok e1)
  | ((s1, e1), Ok false) =>
      match ext_go (xv_depth x) (s1, e1) with
      | ((s2, e2), Throw ec) => ((s2, sub), Throw ec)
      | ((s2, e2), Ok _) => ((s2, match ex_ext e2 with Some (_, sub2) => sub_add sub sub2 | None => sub end), Ok e2)
      end
  end.
Definition ext_call (p : CallParameters) : XE EvmcResult :=
  e ← nested (ex_call sf ctx version p (xv_gasPrice x) (xv_origin x));
  mret (generateCallResult (transactionExceptionToEvmcStatusCode (ex_excepted e)) (ex_gas e) (ex_output e)).
Definition ext_create (endowment gas : Z) (init : bytes) (create2 : bool) (salt : Z) : XE EvmcResult :=
  e ← nested
    (if create2 then create2Opcode sf ctx (xv_myAddress x) endowment (xv_gasPrice x) gas init (xv_origin x) salt
     else createOpcode sf ctx (xv_myAddress x) endowment (xv_gasPrice x) gas init (xv_origin x));
  mret (generateCreateResult (transactionExceptionToEvmcStatusCode (ex_excepted e)) (ex_gas e) (ex_output e) (ex_newAddress e)).

(** *** The callbacks of [ExtVMFace.cpp] *)
Definition fn_setStorage (key value : Z) : XE evmc_storage_status :=
  oldValue ← xs (sf_storage sf (xv_myAddress x) key);
  if value =? oldValue then mret EVMC_STORAGE_UNCHANGED
  else
    status ← ((if oldValue =? 0 then mret EVMC_STORAGE_ADDED
      else if value =? 0 then
        sub_mod (fun s => mkSubState (suicides s) (sub_logs s) (wrap 256 (refunds s + sstoreRefundGas DefaultSchedule)));; mret EVMC_STORAGE_DELETED
      else mret EVMC_STORAGE_MODIFIED) : XE evmc_storage_status);
    xs (setStore key value);; mret status.
Definition fn_copyCode (a : Address) (codeOffset bufferSize : Z) : SE S bytes :=
  code ← sf_code sf a;
  if lenZ code <=? codeOffset then mret []
  else mret (take (Z.to_nat (Z.min (lenZ code - codeOffset) bufferSize)) (drop (Z.to_nat codeOffset) code)).
Definition fn_getTxContext : TxContext :=
  mkTxContext (xv_gasPrice x) (xv_origin x) ZeroAddress (m_number (env_header env)) (swrap 64 (m_timestamp (env_header env)))
    (swrap 64 (m_gasLimit (env_header env))) 0.
Definition fn_call (msg : Message) : XE EvmcResult :=
  if msg_gas msg <? 0 then se_lift (Throw GasOverflow)
  else
    match msg_kind msg with
    | EVMC_CREATE => ext_create (msg_value msg) (msg_gas msg) (msg_input msg) false (msg_salt msg)
    | EVMC_CREATE2 => ext_create (msg_value msg) (msg_gas msg) (msg_input msg) true (msg_salt msg)
    | kind =>
        ext_call (mkCallParameters (msg_sender msg) (msg_destination msg)
          (match kind with EVMC_CALL => msg_destination msg | _ => xv_myAddress x end)
          (match kind with EVMC_DELEGATECALL => 0 | _ => msg_value msg end) (msg_value msg) (msg_gas msg) (msg_input msg) (msg_static msg))
    end.

Definition fnTable : Host (S * SubState) := {|
  account_exists := fun a => noexcept (xs (xv_exists a));
  get_storage := fun _ key => noexcept (xs (sf_storage sf (xv_myAddress x) key));
  set_storage := fun _ key value => noexcept (fn_setStorage key value);
  get_balance := fun a => noexcept (xs (sf_balance sf a));
  get_code_size := fun a => xs (codeSizeAt a);
  get_code_hash := fun a => h ← xs (codeHashAt a); mret (fromBigEndian (wrap 256) h);
  copy_code := fun a o n => xs (fn_copyCode a o n);
  selfdestruct := fun _ a => noexcept (suicide a);
  host_call := fun msg => noexcept (fn_call msg);
  get_tx_context := mret fn_getTxContext;
  get_block_hash := fun n => mret (fromBigEndian (wrap 256) (env_numberHash env n));
  emit_log := fun _ data topics => noexcept (ext_log (map (toBigEndian 32) topics) data)
|}.
End ExtVM.

(** ** [EVMC::exec] and the depth of calls *)
Section Run.
Context `{Crypto} `{Recover} {S : Type} (sf : StateFace S) (ctx : ExecutiveContext S) (env : EnvInfo) (version : Z).
Context (table : Z -> Metric) (EVM_OPTIMIZE : bool).

Definition frame_message (x : ExtVM) (gas : Z) : Message :=
  mkMessage (if xv_isCreate x then EVMC_CREATE else EVMC_CALL) (xv_staticCall x) (swrap 32 (xv_depth x)) gas (xv_myAddress x) (xv_caller x)
    (xv_data x) (xv_value x) 0.

(** The rounds of the interpreter are bounded by its gas. *)
Definition rounds (gas : Z) : nat := Z.to_nat (2 * gas + 2).

Definition exec_result (gas : Z) (r : EvmcResult) : Z * result bytes :=
  match status_code r with
  | EVMC_SUCCESS => (gas_left r, Ok (output_data r))
  | EVMC_REVERT => (gas_left r, Throw (RevertInstruction (output_data r)))
  | EVMC_OUT_OF_GAS | EVMC_FAILURE => (gas, Throw OutOfGas)
  | EVMC_INVALID_INSTRUCTION | EVMC_UNDEFINED_INSTRUCTION => (gas, Throw BadInstruction)
  | EVMC_BAD_JUMP_DESTINATION => (gas, Throw BadJumpDestination)
  | EVMC_STACK_OVERFLOW => (gas, Throw OutOfStack)
  | EVMC_STACK_UNDERFLOW => (gas, Throw StackUnderflow)
  | EVMC_INVALID_MEMORY_ACCESS => (gas, Throw BufferOverrun)
  | EVMC_STATIC_MODE_VIOLATION => (gas, Throw DisallowedStateChange)
  (** the interpreter, which never rejects, would run once more *)
  | EVMC_REJECTED | EVMC_INTERNAL_ERROR => (gas, Throw InternalVMError)
  end.

Definition evmc_exec (vm : ExtVM -> Z -> S * SubState -> S * SubState * (Z * result bytes))
    (x : ExtVM) (gas : Z) (w : S * SubState) : S * SubState * (Z * result bytes) :=
  if (INT64_MAX <? gas) || (INT64_MAX <? m_gasLimit (env_header env)) then (w, (gas, Throw GasOverflow))
  else
    match vm_execute (fnTable sf ctx env version vm x) table EVM_OPTIMIZE (rounds gas) (toRevision DefaultSchedule) (frame_message x gas) (xv_code x) w with
    | None => (w, (gas, Throw UndefinedBehaviour))
    | Some (w', Throw e) => (w', (gas, Throw e))
    | Some (w', Ok r) => (w', exec_result gas r)
    end.

(** Calls nest [n] deep at most; [frames] of them are enough, since the interpreter
    makes no calls at depth 1024.  A frame too many, and a run that does not end,
    would be undefined behaviour; there are none (ExecutiveProps.v). *)
Fixpoint run_frame (n : nat) (x : ExtVM) (gas : Z) (w : S * SubState) : S * SubState * (Z * result bytes) :=
  match n with
  | O => (w, (gas, Throw UndefinedBehaviour))
  | Datatypes.S n' => evmc_exec (run_frame n') x gas w
  end.
Definition frames : nat := 1025.

(** *** [BlockVerifier::execute] *)
Definition execute_transaction (t : Transaction) : SE S (ExecutionResult * TransactionReceipt) := fun s =>
  match run_transaction sf ctx version (run_frame frames) t (s, with_res (Some newExecutionResult) (newExecutive 0)) with
  | ((s', e), Throw ec) => (s', Throw ec)
  | ((s', e), Ok _) =>
      (root ← sf_rootHash sf false;
       mret (default newExecutionResult (ex_res e), newReceipt root (ex_gasUsed ctx e) (ex_logs e) (te_code (ex_excepted e)) (ex_output e) (ex_newAddress e))) s'
  end.
End Run.
