(* ===== verification/ExecutiveProps.v ===== *)
(** * What the executive promises

    The laws of a state and its precompiled contracts ([StateLaws]), a weakest
    precondition for the steps of a frame, and by induction on the depth of the
    calls: a run of a transaction ends, without undefined behaviour, with no more
    gas than it was given; and a frame that fails leaves the state it started
    from.  [G] is what every operation of the state keeps, [Same] what a rollback
    restores, [anchored] says that a pair of savepoints was taken in a state. *)

From S2P Require Import Prelude StateMonad CommonData RLP PBFTMsg BlockHeader Transaction Receipt StorageEntry EVM EVMProps EVMRuns Executive.
Import EVM.Op.

(** ** At depth 1024 nothing is called *)
Section Deep.
Context `{Crypto} {W : Type} (h : Host W) (c : Message -> SE W EvmcResult) (table : Z -> Metric) (opt : bool) (rev : evmc_revision) (msg : Message).
Context (deep : 1024 <= msg_depth msg).

Definition with_call : Host W :=
  mkHost (account_exists h) (get_storage h) (set_storage h) (get_balance h) (get_code_size h) (get_code_hash h) (copy_code h)
    (selfdestruct h) c (get_tx_context h) (get_block_hash h) (emit_log h).

Lemma se_bind_ext {St A B} (m : SE St A) (k k' : A -> SE St B) s : (forall a s', k a s' = k' a s') -> (m ≫= k) s = (m ≫= k') s.
Proof. intros Hk. unfold mbind, SE_bind. destruct (m s) as [s' [a|e]]; [apply Hk | done]. Qed.
Lemma se_bind_res {St A B} (P : result B -> Prop) (m : SE St A) (k : A -> SE St B) s :
  (forall e, P (Throw e)) -> (forall a s', P (snd (k a s'))) -> P (snd ((m ≫= k) s)).
Proof. intros He Hk. unfold mbind, SE_bind. destruct (m s) as [s' [a|e]]; [apply Hk | apply He]. Qed.

Definition no_output (r : result (Message * option (Z * Z))) : Prop := match r with Ok (_, o) => o = None | Throw _ => True end.
Lemma setup_no_output s : no_output (snd (caseCallSetup h rev msg s)).
Proof.
  unfold caseCallSetup. repeat (apply se_bind_res; [done | intros ? ?; cbv zeta]).
  match goal with p : Z * Z * bool |- _ => destruct p as [[v g] ok] end. cbn. rewrite (proj2 (Z.ltb_ge _ _)) by lia. by rewrite andb_false_r.
Qed.

Lemma deep_call s : caseCall with_call rev msg s = caseCall h rev msg s.
Proof.
  unfold caseCall. apply se_bind_ext. intros _ s1. change (caseCallSetup with_call rev msg) with (caseCallSetup h rev msg).
  pose proof (setup_no_output s1) as Hn. unfold mbind, SE_bind.
  destruct (caseCallSetup h rev msg s1) as [s2 [[m o]|e]]; [| done]. cbn in Hn. by rewrite Hn.
Qed.
Lemma deep_create s : caseCreate with_call rev msg s = caseCreate h rev msg s.
Proof.
  unfold caseCreate. repeat (apply se_bind_ext; intros ? ?).
  rewrite (proj2 (Z.ltb_ge (msg_depth msg) 1024)) by lia. by rewrite andb_false_r.
Qed.
Lemma deep_bounce pCode code dests pool b s :
  bounce with_call table opt rev msg pCode code dests pool b s = bounce h table opt rev msg pCode code dests pool b s.
Proof. destruct b; [reflexivity | apply deep_create | apply deep_call | reflexivity]. Qed.
Lemma deep_trampoline pCode code dests pool fuel b s :
  trampoline with_call table opt rev msg pCode code dests pool fuel b s = trampoline h table opt rev msg pCode code dests pool fuel b s.
Proof.
  revert b s. induction fuel as [|fuel IH]; intros b s; destruct b; try reflexivity; cbn [trampoline]; rewrite deep_bounce;
    (destruct (bounce h table opt rev msg pCode code dests pool _ s) as [s' [b'|e]]; [apply IH | done]).
Qed.
Lemma deep_execute fuel pCode w : vm_execute with_call table opt fuel rev msg pCode w = vm_execute h table opt fuel rev msg pCode w.
Proof. unfold vm_execute, vm_exec. destruct (optimize opt pCode) as [[code dests] pool]. by rewrite deep_trampoline. Qed.
End Deep.

(** ** The laws of a state *)
Definition out_ok (o : bytes) : Prop := lenZ o < 2 ^ 63 /\ bytes_ok o.
Lemma out_ok_nil : out_ok [].
Proof. split; [rewrite lenZ_nil; lia | constructor]. Qed.
(** What the state and the precompiled contracts may throw. *)
Definition state_exn (e : Exn) : Prop := match e with UndefinedBehaviour | RevertInstruction _ => False | _ => True end.

(** ** [rlpList] throws nothing but its own exception *)
Definition tame {A} (r : result A) : Prop := match r with Ok _ => True | Throw ec => state_exn ec end.
Lemma tame_bind {A B} (r : result A) (k : A -> result B) : tame r -> (forall a, tame (k a)) -> tame (r ≫= k).
Proof. destruct r; cbn; auto. Qed.
Lemma closeList_tame p o : tame (closeList p o).
Proof. unfold closeList. repeat case_match; done. Qed.
Lemma noteAppended_tame cnt z : tame (noteAppended cnt z).
Proof.
  unfold noteAppended. destruct (cnt =? 0); [done |]. generalize (m_out z) cnt. induction (m_listStack z) as [|[first p] rest IH]; intros o c; cbn; [done |].
  destruct (first <? c); [done |]. destruct (negb _); [done |]. apply tame_bind; [apply closeList_tame | intros; apply IH].
Qed.
Lemma pushCount_tame n base z : tame (pushCount n base z).
Proof. unfold pushCount. by case_match. Qed.
Lemma append_data_tame bs b z : tame (append_data bs b z).
Proof.
  apply tame_bind; [| intros; apply noteAppended_tame]. destruct (_ && _); [done |].
  apply tame_bind; [| intros; apply noteAppended_tame]. destruct (_ <? _); [done | apply pushCount_tame].
Qed.
Lemma append_bigint_tame i z : tame (append_bigint i z).
Proof.
  apply tame_bind; [| intros; apply noteAppended_tame]. destruct (i =? 0); [done |]. destruct (i <? _); [done |].
  apply tame_bind; [| done]. destruct (_ <? _); [done |]. cbv zeta. by destruct (_ <? _).
Qed.
Lemma rlp_pair_tame a n : tame (rlp_pair a n).
Proof.
  unfold rlp_pair. apply tame_bind; [done |]. intros z. apply tame_bind; [apply append_data_tame |]. intros z'.
  apply tame_bind; [apply append_bigint_tame |]. intros z''. unfold out. by destruct (m_listStack z'').
Qed.

Section Does.
Context {S : Type} (Inv : S -> Prop) (G : S -> S -> Prop).
Definition does {A} (R : A -> Prop) (m : SE S A) : Prop :=
  forall s, Inv s -> Inv (fst (m s)) /\ G s (fst (m s)) /\ match snd (m s) with Ok a => R a | Throw e => state_exn e end.
End Does.

(** [Bad] is what is known when a precompiled contract ran into undefined
    behaviour. *)
Class StateLaws {S} (sf : StateFace S) (ctx : ExecutiveContext S) (origin : Address) (limit : nat) (Bad : Prop)
    (Inv : S -> Prop) (G Same : S -> S -> Prop) : Prop := {
  law_G :: PreOrder G;
  law_Same :: PreOrder Same;
  law_exists a : does Inv G (fun _ => True) (sf_accountNonemptyAndExisting sf a);
  law_hasCode a : does Inv G (fun _ => True) (sf_addressHasCode sf a);
  law_hasCode_same a s : Inv s -> Same s (fst (sf_addressHasCode sf a s));
  law_balance a : does Inv G u256 (sf_balance sf a);
  law_transfer a b v : u256 v -> does Inv G (fun _ => True) (sf_transferBalance sf a b v);
  law_storage a k : does Inv G u256 (sf_storage sf a k);
  law_setStorage a k v : u256 k -> u256 v -> does Inv G (fun _ => True) (sf_setStorage sf a k v);
  law_clearStorage a : does Inv G (fun _ => True) (sf_clearStorage sf a);
  law_setCode a c : lenZ c <= maxCodeSize DefaultSchedule -> bytes_ok c -> does Inv G (fun _ => True) (sf_setCode sf a c);
  law_kill a : does Inv G (fun _ => True) (sf_kill sf a);
  law_code a : does Inv G out_ok (sf_code sf a);
  law_codeHash a : does Inv G (fun _ => True) (sf_codeHash sf a);
  law_codeSize a : does Inv G u256 (sf_codeSize sf a);
  law_incNonce a : does Inv G (fun _ => True) (sf_incNonce sf a);
  law_startNonce : does Inv G u256 (sf_requireAccountStartNonce sf);
  law_setNonce a n : u256 n -> does Inv G (fun _ => True) (sf_setNonce sf a n);
  law_getNonce a : does Inv G (fun _ => True) (sf_getNonce sf a);
  law_rootHash : does Inv G (fun _ => True) (sf_rootHash sf false);
  law_checkAuthority a b : does Inv G (fun _ => True) (sf_checkAuthority sf a b);
  law_mayDeploy : does Inv G (fun _ => True) (tf_mayDeploy ctx origin);
  (** a creation that is denied rolls back to savepoints it did not take *)
  law_denied s s1 : Inv s -> tf_mayDeploy ctx origin s = (s1, Ok false) -> forall sp tsp s2, Inv s2 -> G s1 s2 ->
    let s' := tf_rollback ctx tsp (sf_rollback sf sp s2) in Inv s' /\ G s1 s' /\ Same s1 s';
  law_precompiled a p inp : m_address2Precompiled ctx !! a = Some p -> out_ok inp -> forall s, Inv s ->
    Inv (fst (p inp origin s)) /\ G s (fst (p inp origin s)) /\
    match snd (p inp origin s) with Ok o => out_ok o | Throw e => state_exn e \/ e = UndefinedBehaviour /\ Bad end;
  law_origin_precompiled a f inp : m_precompiledContract ctx !! a = Some f -> out_ok inp -> out_ok (snd (f inp));
  law_rollback s0 s : Inv s0 -> Inv s -> G s0 s ->
    let s' := tf_rollback ctx (tf_savepoint ctx s0) (sf_rollback sf (sf_savepoint sf s0) s) in Inv s' /\ G s0 s' /\ Same s0 s';
  (** where frames may be deep enough to be given to another thread *)
  law_thread s : c_offloadPoint < Z.of_nat limit -> Inv s -> Inv (tf_newThread ctx s) /\ G s (tf_newThread ctx s) /\
    forall s', Inv s' -> Inv (tf_join ctx s s') /\ G s (tf_join ctx s s')
}.

(** ** Frames *)
Section Frames.
Context `{Crypto} `{Recover} {S : Type} (sf : StateFace S) (ctx : ExecutiveContext S) (env : EnvInfo) (version : Z).
Context (origin : Address) (limit : nat) (Bad : Prop) (Inv : S -> Prop) (G Same : S -> S -> Prop) `{!StateLaws sf ctx origin limit Bad Inv G Same}.
Context (rc2 : RC2_VERSION <= version).
Context (vm : ExtVM -> Z -> S * SubState -> S * SubState * (Z * result bytes)).
Implicit Types (s : S) (e : Executive) (x : ExtVM).

Definition frame_exn (ec : Exn) : Prop :=
  match ec with UndefinedBehaviour => (limit < frames)%nat \/ Bad | RevertInstruction out => out_ok out | _ => True end.
Lemma state_frame_exn ec : state_exn ec -> frame_exn ec.
Proof. by destruct ec. Qed.

(** *** A weakest precondition *)
Abbreviation EE := (SE (S * Executive)).
Definition ewp {A} (Q : A -> S -> Executive -> Prop) (X : Exn -> S -> Executive -> Prop) (m : EE A) (s : S) (e : Executive) : Prop :=
  match m (s, e) with ((s', e'), Ok a) => Q a s' e' | ((s', e'), Throw ec) => X ec s' e' end.

Lemma ewp_bind {A B} Q X (m : EE A) (k : A -> EE B) s e : ewp (fun a s' e' => ewp Q X (k a) s' e') X m s e -> ewp Q X (m ≫= k) s e.
Proof. unfold ewp, mbind, SE_bind. by destruct (m (s, e)) as [[s' e'] [a|ec]]. Qed.
Lemma ewp_ret {A} Q X (a : A) s e : Q a s e -> ewp Q X (mret a) s e.
Proof. done. Qed.
Lemma ewp_ex Q X s e : Q e s e -> ewp Q X ex s e.
Proof. done. Qed.
Lemma ewp_mod Q X f s e : Q tt s (f e) -> ewp Q X (ex_mod f) s e.
Proof. done. Qed.
Lemma ewp_throw {A} (Q : A -> S -> Executive -> Prop) X ec s e : X ec s e -> ewp Q X (se_lift (Throw ec)) s e.
Proof. done. Qed.
Lemma ewp_mono {A} (Q Q' : A -> S -> Executive -> Prop) (X X' : Exn -> S -> Executive -> Prop) (m : EE A) s e :
  (forall a s' e', Q a s' e' -> Q' a s' e') -> (forall ec s' e', X ec s' e' -> X' ec s' e') -> ewp Q X m s e -> ewp Q' X' m s e.
Proof. unfold ewp. intros HQ HX. destruct (m (s, e)) as [[s' e'] [a|ec]]; auto. Qed.
Lemma ewp_catch {A} Q X (m : EE A) h s e :
  ewp Q (fun ec s' e' => (fatal ec = true -> X ec s' e') /\ (fatal ec = false -> ewp Q X (h ec) s' e')) m s e -> ewp Q X (try_catch m h) s e.
Proof.
  unfold ewp, try_catch. destruct (m (s, e)) as [[s' e'] [a|ec]]; [done |]. intros [Hf Hn].
  destruct (fatal ec) eqn:Ef; [by apply Hf | by apply Hn].
Qed.
(** ... of a call that may run into undefined behaviour *)
Lemma ewp_risky {A} (R : A -> Prop) (m : SE S A) Q X s e :
  Inv (fst (m s)) /\ G s (fst (m s)) /\ match snd (m s) with Ok a => R a | Throw ec => frame_exn ec end ->
  (forall a s', m s = (s', Ok a) -> Inv s' -> G s s' -> R a -> Q a s' e) -> (forall ec s', Inv s' -> G s s' -> frame_exn ec -> X ec s' e) ->
  ewp Q X (st m) s e.
Proof.
  intros Hm HQ HX. unfold ewp, st. destruct (m s) as [s' [a|ec]]; destruct Hm as (? & ? & ?); [by apply HQ | by apply HX].
Qed.
Lemma ewp_st {A} (R : A -> Prop) (m : SE S A) Q X s e : does Inv G R m -> Inv s ->
  (forall a s', m s = (s', Ok a) -> Inv s' -> G s s' -> R a -> Q a s' e) -> (forall ec s', Inv s' -> G s s' -> state_exn ec -> X ec s' e) ->
  ewp Q X (st m) s e.
Proof.
  intros Hm Hs HQ HX. specialize (Hm s Hs). unfold ewp, st. destruct (m s) as [s' [a|ec]]; destruct Hm as (? & ? & ?); [by apply HQ | by apply HX].
Qed.

(** *** The frame of a savepoint *)
(** A frame started at [s0] and now at [s]. *)
Record frame (s0 s : S) (g : Z) (e : Executive) : Prop := {
  fr_start : Inv s0;
  fr_inv : Inv s;
  fr_grows : G s0 s;
  (** its savepoints bring [s0] back *)
  fr_undo : forall s1, Inv s1 -> G s0 s1 ->
    let s' := tf_rollback ctx (ex_tableFactorySavepoint e) (sf_rollback sf (ex_savepoint e) s1) in Inv s' /\ G s0 s' /\ Same s0 s';
  fr_gas : 0 <= ex_gas e <= g;
  fr_output : out_ok (ex_output e);
  fr_logs : ex_logs e = []
}.
Lemma frame_step s0 s s' g e : frame s0 s g e -> Inv s' -> G s s' -> frame s0 s' g e.
Proof. intros [] Hi Hg. constructor; try done. by etransitivity. Qed.
Lemma frame_keep s0 s g e e' : frame s0 s g e -> ex_savepoint e' = ex_savepoint e -> ex_tableFactorySavepoint e' = ex_tableFactorySavepoint e ->
  ex_logs e' = ex_logs e -> 0 <= ex_gas e' <= g -> out_ok (ex_output e') -> frame s0 s g e'.
Proof. intros [] E1 E2 E3 ? ?. constructor; try done; [by rewrite E1, E2 | congruence]. Qed.

Lemma ewp_revert (Q : unit -> S -> Executive -> Prop) X s0 s g e : frame s0 s g e ->
  (forall s' e', e' = with_newAddress ZeroAddress (with_ext ((fun y => (fst y, emptySub)) <$> ex_ext e) e) ->
    frame s0 s' g e' -> Same s0 s' -> Q tt s' e') -> ewp Q X (ex_revert sf ctx) s e.
Proof.
  intros Hf HQ. unfold ewp, ex_revert, se_mod.
  destruct (fr_undo _ _ _ _ Hf s (fr_inv _ _ _ _ Hf) (fr_grows _ _ _ _ Hf)) as (Hi & Hg & Hs).
  apply HQ; [done | | done]. destruct Hf. by constructor.
Qed.

(** *** What a contract is run with *)
Record ext_ok (d : Z) (y : ExtVM) : Prop := {
  xo_origin : xv_origin y = origin;
  xo_value : u256 (xv_value y);
  xo_price : u256 (xv_gasPrice y);
  xo_data : out_ok (xv_data y);
  xo_code : out_ok (xv_code y);
  xo_depth : xv_depth y = d
}.
Definition exts_ok (d : Z) e : Prop := match ex_ext e with Some (y, _) => ext_ok d y | None => True end.

(** *** Starting a call *)
Record param_ok (p : CallParameters) : Prop := {
  po_value : u256 (apparentValue p);
  po_gas : 0 <= cp_gas p;
  po_data : out_ok (cp_data p)
}.
(** an executive before its first operation *)
Record fresh (d : Z) (e : Executive) : Prop := {
  fr_ext : ex_ext e = None;
  fr_out : ex_output e = [];
  fr_excepted : ex_excepted e = TE_None;
  fr_depth : ex_depth e = d;
  fr_nologs : ex_logs e = []
}.
Record started (s0 : S) (g d : Z) (b : bool) (s : S) (e : Executive) : Prop := {
  sd_frame : frame s0 s g e;
  sd_depth : ex_depth e = d;
  sd_ext : exts_ok d e;
  sd_done : b = negb (bool_decide (is_Some (ex_ext e)));
  sd_runs : b = false -> ex_excepted e = TE_None;
  sd_failed : ex_excepted e <> TE_None -> Same s0 s
}.
(** An exception leaves the start of a frame, or is one that nothing catches. *)
Definition lost (s0 : S) (ec : Exn) (s : S) (e : Executive) : Prop :=
  Inv s /\ G s0 s /\ frame_exn ec /\ (fatal ec = false -> ex_excepted e = TE_None /\ ex_logs e = []).

Lemma lost_state s0 s g e ec s' : frame s0 s g e -> ex_excepted e = TE_None -> Inv s' -> G s s' -> state_exn ec -> lost s0 ec s' e.
Proof. intros Hf Hn Hi Hg He. split_and!; [done | | by apply state_frame_exn |]; [etransitivity; [apply (fr_grows _ _ _ _ Hf) | done] | intros _; split; [done | apply Hf]]. Qed.
Lemma lost_frame s0 s g e ec s' : frame s0 s g e -> ex_excepted e = TE_None -> Inv s' -> G s s' -> frame_exn ec -> lost s0 ec s' e.
Proof. intros Hf Hn Hi Hg He. split_and!; [done | | done |]; [etransitivity; [apply (fr_grows _ _ _ _ Hf) | done] | intros _; split; [done | apply Hf]]. Qed.
Lemma lost_fresh s d e ec s' : fresh d e -> Inv s' -> G s s' -> state_exn ec -> lost s ec s' e.
Proof. intros [] Hi Hg He. split_and!; try done. by apply state_frame_exn. Qed.
Lemma lost_trans s1 s2 ec s e : G s1 s2 -> lost s2 ec s e -> lost s1 ec s e.
Proof. intros Hg (? & ? & ? & ?). split_and!; try done. by etransitivity. Qed.

Lemma ewp_savepoints (Q : unit -> S -> Executive -> Prop) X s e : Q tt s (with_savepoints (sf_savepoint sf s) (tf_savepoint ctx s) e) -> ewp Q X (take_savepoints sf ctx) s e.
Proof. done. Qed.
Lemma ewp_done (Q : bool -> S -> Executive -> Prop) X s e : Q (negb (bool_decide (is_Some (ex_ext e)))) s e -> ewp Q X done_ s e.
Proof. done. Qed.
Lemma frame_new s g d e : Inv s -> fresh d e -> 0 <= g -> frame s s g (with_gas g (with_savepoints (sf_savepoint sf s) (tf_savepoint ctx s) e)).
Proof.
  intros Hi [Hx Ho _ _ Hl] Hg. constructor; cbn; try done; [| rewrite Ho; apply out_ok_nil]. intros s1 Hi1 Hg1. by apply law_rollback.
Qed.

Lemma context_call_does a inp s : out_ok inp -> Inv s ->
  Inv (fst (context_call ctx origin a inp s)) /\ G s (fst (context_call ctx origin a inp s)) /\
  match snd (context_call ctx origin a inp s) with Ok o => out_ok o | Throw ec => frame_exn ec end.
Proof.
  intros Hin Hs. unfold context_call. destruct (m_address2Precompiled ctx !! a) as [p|] eqn:Ep.
  - destruct (law_precompiled a p inp Ep Hin s Hs) as (Hi & Hg & Hr). unfold try_catch. destruct (p inp origin s) as [s' [o|ec]]; [done |].
    cbn in Hr. destruct (fatal ec); [| done]. split_and!; try done. destruct Hr as [Hr|[-> Hr]]; [by apply state_frame_exn | by right].
  - split; [done |]. split; [cbn; reflexivity |]. apply out_ok_nil.
Qed.

Lemma call_ext_ok p gasPrice s0 s g d e : param_ok p -> u256 gasPrice -> frame s0 s g e -> ex_depth e = d -> ex_excepted e = TE_None ->
  ewp (fun _ s' e' => frame s0 s' g e' /\ ex_depth e' = d /\ exts_ok d e' /\ ex_excepted e' = TE_None) (lost s0) (call_ext sf p gasPrice origin) s e.
Proof.
  intros Hp Hgp Hf Hd He. unfold call_ext. apply ewp_bind. eapply ewp_st; [apply law_code | apply Hf | | intros; by eapply lost_state].
  intros c s1 _ Hi1 Hg1 Hc. pose proof (frame_step _ _ _ _ _ Hf Hi1 Hg1) as Hf1.
  apply ewp_bind. eapply ewp_st; [apply law_codeHash | done | | intros; by eapply lost_state].
  intros h s2 _ Hi2 Hg2 _. apply ewp_mod. split; [| split; [done | split; [| done]]].
  - apply (frame_keep _ _ _ e); [by apply (frame_step _ s1) | done | done | done | apply Hf | apply Hf].
  - cbn. constructor; cbn; [done | apply Hp | done | apply Hp | done | done].
Qed.

Lemma call_started p gasPrice s d e : param_ok p -> u256 gasPrice -> Inv s -> fresh d e ->
  ewp (started s (cp_gas p) d) (lost s) (ex_call sf ctx version p gasPrice origin) s e.
Proof.
  intros Hp Hgp Hi Hfr. unfold ex_call. rewrite (proj2 (Z.leb_le _ _)) by done. unfold callRC2.
  apply ewp_bind, ewp_savepoints, ewp_bind, ewp_mod. pose proof (frame_new s (cp_gas p) d e Hi Hfr (po_gas _ Hp)) as Hf.
  set (e1 := with_gas _ _) in *. destruct Hfr as [Hx Ho He Hd Hlg]. apply ewp_bind.
  assert (He1 : ex_ext e1 = None /\ ex_excepted e1 = TE_None /\ ex_depth e1 = d) by (unfold e1; by rewrite <- Hd). clearbody e1. destruct He1 as (Hx1 & He1 & Hd1).
  assert (Hnone : forall s' e', frame s s' (cp_gas p) e' -> ex_depth e' = d -> ex_ext e' = None -> (ex_excepted e' <> TE_None -> Same s s') ->
    ewp (started s (cp_gas p) d) (lost s) done_ s' e').
  { intros s' e' Hf' Hd' Hx' Hs'. apply ewp_done. constructor; try done; unfold exts_ok; rewrite Hx'; done. }
  destruct (isOrginPrecompiled ctx (codeAddress p)) eqn:Eo; [| destruct (isPrecompiled ctx (codeAddress p))].
  - unfold call_origin, executeOriginPrecompiled. unfold isOrginPrecompiled in Eo. bool_to_prop.
    destruct (m_precompiledContract ctx !! codeAddress p) as [f|] eqn:Ef; [| by destruct Eo]. apply ewp_bind, ewp_mod. apply Hnone; try done.
    apply (frame_keep _ _ _ e1); try done; [apply Hf | by apply (law_origin_precompiled (codeAddress p)), Hp].
  - apply ewp_catch, ewp_bind. eapply ewp_risky; [apply context_call_does; [apply Hp | done] | |].
    + intros o s1 _ Hi1 Hg1 Hok. apply ewp_mod. apply Hnone; try done.
      apply (frame_keep _ _ _ e1); try done; [by apply (frame_step _ s) | apply Hf].
    + intros ec s1 Hi1 Hg1 Hec. split; [intros _; by eapply lost_frame |]. intros _. apply ewp_bind.
      eapply ewp_revert; [by apply (frame_step _ s) |]. intros s2 e2 -> Hf2 Hs2. apply ewp_mod. apply Hnone; try done.
      * apply (frame_keep _ _ _ _ _ Hf2); try done; apply Hf2.
      * cbn. by rewrite Hx1.
  - apply ewp_bind. eapply ewp_st; [apply law_hasCode | done | | intros; by eapply lost_state].
    intros b s1 Es1 Hi1 Hg1 _. pose proof (frame_step _ _ _ _ _ Hf Hi1 Hg1) as Hf1. destruct b.
    + eapply ewp_mono; [| | by apply call_ext_ok]; [| done]. intros [] s2 e2 (Hf2 & Hd2 & Hx2 & He2). apply ewp_done. constructor; try done.
    + apply ewp_mod. apply Hnone; try done.
      * apply (frame_keep _ _ _ _ _ Hf1); try done; apply Hf1.
      * intros _. pose proof (law_hasCode_same (codeAddress p) s Hi) as Hsame. by rewrite Es1 in Hsame.
Qed.

(** *** Starting a creation *)
(** What a creation does before its savepoint. *)
Definition prologue (sender : Address) : SE S unit :=
  allowed ← tf_mayDeploy ctx origin; if allowed : bool then sf_incNonce sf sender else mret tt.

Lemma create_started sender endowment gasPrice g init s d e : u256 endowment -> u256 gasPrice -> 0 <= g -> out_ok init -> Inv s -> fresh d e ->
  ewp (fun b s' e' => exists s1, prologue sender s = (s1, Ok tt) /\ G s s1 /\ started s1 g d b s' e') (lost s)
    (executeCreate sf ctx sender endowment gasPrice g init origin) s e.
Proof.
  intros Hv Hgp Hg Hin Hi Hfr. unfold executeCreate. apply ewp_bind.
  eapply ewp_st; [apply law_mayDeploy | done | | intros; by eapply lost_fresh].
  intros b s1 E1 Hi1 Hg1 _. destruct b; cbn [negb].
  2: { do 2 apply ewp_bind, ewp_mod.
    assert (Hf : frame s1 s1 g (with_excepted TE_PermissionDenied (with_gas 0 e))).
    { destruct Hfr as [Hx Ho He Hd Hlg]. constructor; cbn [ex_gas ex_output ex_logs ex_savepoint ex_tableFactorySavepoint with_excepted with_gas]; [done | done | reflexivity | by apply (law_denied s s1) | lia | rewrite Ho; apply out_ok_nil | done]. }
    apply ewp_bind. eapply ewp_revert; [exact Hf |]. intros s2 e2 -> Hf2 Hs2. apply ewp_bind, ewp_mod, ewp_done.
    exists s1. split; [unfold prologue; by rewrite (se_bind_ok _ _ _ _ _ E1) |]. split; [done |].
    constructor; try done; [| by destruct Hfr]. apply (frame_keep _ _ _ _ _ Hf2); try done; apply Hf2. }
  apply ewp_bind.
  eapply ewp_st; [apply law_incNonce | done | | intros; eapply lost_fresh; try done; by etransitivity].
  intros [] s2 E2 Hi2 Hg2 _. apply ewp_bind, ewp_savepoints, ewp_bind, ewp_mod, ewp_bind, ewp_mod.
  assert (Hg02 : G s s2) by by etransitivity.
  assert (Hp : prologue sender s = (s2, Ok tt)) by (unfold prologue; by rewrite (se_bind_ok _ _ _ _ _ E1)).
  pose proof (frame_new s2 g d (with_isCreation true e) Hi2 ltac:(destruct Hfr; by constructor) Hg) as Hf.
  match goal with |- ewp _ _ _ _ ?e1 => assert (Hf1 : frame s2 s2 g e1) by (apply (frame_keep _ _ _ _ _ Hf); try done; apply Hf) end.
  clear Hf. apply (ewp_mono (started s2 g d) _ (lost s2) _); [intros b s' e' Hst; by exists s2 | intros ec s' e'; by apply lost_trans |].
  match goal with |- ewp _ _ _ _ ?e1 => set (e2 := e1) in * end. destruct Hfr as [Hx Ho He Hd Hlg].
  assert (He2 : ex_ext e2 = None /\ ex_excepted e2 = TE_None /\ ex_depth e2 = d) by (unfold e2; by rewrite <- Hd). clearbody e2. destruct He2 as (Hx2 & He2 & Hd2).
  apply ewp_bind, ewp_ex, ewp_bind. eapply ewp_st; [apply law_hasCode | done | | intros; by eapply lost_state].
  intros hasCode s3 _ Hi3 Hg3 _. pose proof (frame_step _ _ _ _ _ Hf1 Hi3 Hg3) as Hf3. apply ewp_bind.
  apply (ewp_mono (fun _ s' e' => e' = e2 /\ frame s2 s' g e2) _ (lost s2) _); [| done |].
  2: { destruct hasCode; [by apply ewp_ret |]. apply ewp_bind. eapply ewp_st; [apply law_getNonce | done | | intros; by eapply lost_state].
       intros n s4 _ Hi4 Hg4 _. apply ewp_ret. split; [done |]. by apply (frame_step _ s3). }
  intros used s4 ? (-> & Hf4). destruct used.
  - do 2 apply ewp_bind, ewp_mod. apply ewp_bind. eapply ewp_revert; [apply (frame_keep _ _ _ _ _ Hf4); cbn; try done; try lia; apply Hf4 |].
    intros s5 e5 -> Hf5 Hs5. apply ewp_bind, ewp_mod, ewp_done. constructor; try done. apply (frame_keep _ _ _ _ _ Hf5); try done; apply Hf5.
  - apply ewp_bind. eapply ewp_st; [by apply law_transfer | apply Hf4 | | intros; by eapply lost_state].
    intros [] s5 _ Hi5 Hg5 _. pose proof (frame_step _ _ _ _ _ Hf4 Hi5 Hg5) as Hf5.
    apply ewp_bind. eapply ewp_st; [by apply law_startNonce | done | | intros; by eapply lost_state].
    intros n s6 _ Hi6 Hg6 Hn. pose proof (frame_step _ _ _ _ _ Hf5 Hi6 Hg6) as Hf6.
    apply ewp_bind. eapply ewp_st; [by apply law_setNonce | done | | intros; by eapply lost_state].
    intros [] s7 _ Hi7 Hg7 _. pose proof (frame_step _ _ _ _ _ Hf6 Hi7 Hg7) as Hf7. apply ewp_bind. unfold se_when.
    destruct (negb (bool_decide (init = []))); [apply ewp_mod, ewp_done | apply ewp_ret, ewp_done]; (constructor; try done).
    + apply (frame_keep _ _ _ _ _ Hf7); try done; apply Hf7.
    + cbn. constructor; cbn; try done. apply out_ok_nil.
    + by unfold exts_ok; rewrite Hx2.
Qed.


Definition opening (sender : Address) : SE S unit := sf_getNonce sf sender;; prologue sender.
Definition created (before : SE S unit) (s : S) (g d : Z) (b : bool) (s' : S) (e' : Executive) : Prop :=
  exists s1, before s = (s1, Ok tt) /\ G s s1 /\ started s1 g d b s' e'.
Lemma fresh_newAddress a d e : fresh d e -> fresh d (with_newAddress a e).
Proof. intros []. by constructor. Qed.

Lemma createOpcode_started sender endowment gasPrice g init s d e :
  u256 endowment -> u256 gasPrice -> 0 <= g -> out_ok init -> Inv s -> fresh d e ->
  ewp (created (opening sender) s g d) (lost s) (createOpcode sf ctx sender endowment gasPrice g init origin) s e.
Proof.
  intros Hv Hgp Hg Hin Hi Hfr. unfold createOpcode. apply ewp_bind.
  eapply ewp_st; [apply law_getNonce | done | | intros; by eapply lost_fresh].
  intros n s1 E1 Hi1 Hg1 _. apply ewp_bind. pose proof (rlp_pair_tame sender n) as Ht.
  destruct (rlp_pair sender n) as [b|ec]; [| apply ewp_throw; by eapply lost_fresh].
  change (ewp ?Q ?X (se_lift (Ok b)) s1 e) with (Q b s1 e). apply ewp_bind, ewp_mod.
  eapply ewp_mono; [| | apply create_started; try done; by apply fresh_newAddress]; cbn beta.
  - intros b' s' e' (s2 & Hp & Hg2 & Hst). exists s2. split; [| split; [by etransitivity | done]]. unfold opening. by rewrite (se_bind_ok _ _ _ _ _ E1).
  - intros ec s' e'. by apply lost_trans.
Qed.
Lemma create2Opcode_started sender endowment gasPrice g init salt s d e :
  u256 endowment -> u256 gasPrice -> 0 <= g -> out_ok init -> Inv s -> fresh d e ->
  ewp (created (prologue sender) s g d) (lost s) (create2Opcode sf ctx sender endowment gasPrice g init origin salt) s e.
Proof.
  intros Hv Hgp Hg Hin Hi Hfr. unfold create2Opcode. apply ewp_bind, ewp_mod. apply create_started; try done. by apply fresh_newAddress.
Qed.

(** *** Running the code *)
(** What the frames below promise. *)
Definition runs_ok (d : Z) : Prop :=
  forall y gas s sub, ext_ok d y -> 0 <= gas -> Inv s ->
  let '((s', sub'), (gas', r)) := vm y gas (s, sub) in
  Inv s' /\ G s s' /\ 0 <= gas' <= gas /\ match r with Ok o => out_ok o | Throw ec => frame_exn ec end.

Section Go.
Context (d : Z) (vm_runs : runs_ok d) (s0 : S) (g : Z).

Definition running s e : Prop := frame s0 s g e /\ (exists y sub, ex_ext e = Some (y, sub) /\ ext_ok d y) /\ ex_excepted e = TE_None.
Definition thrown (ec : Exn) s e : Prop := running s e /\ frame_exn ec.

Lemma run_vm_ok s e : running s e -> ewp (fun o s' e' => running s' e' /\ out_ok o) thrown (run_vm vm) s e.
Proof.
  intros (Hf & (y & sub & Hx & Hy) & He). unfold ewp, run_vm. rewrite Hx. pose proof (vm_runs y (ex_gas e) s sub Hy (proj1 (fr_gas _ _ _ _ Hf)) (fr_inv _ _ _ _ Hf)) as Hr.
  destruct (vm y (ex_gas e) (s, sub)) as [[s' sub'] [gas' r]]. destruct Hr as (Hi & Hg & Hgas & Hr).
  assert (Hrun : running s' (with_gas gas' (with_ext (Some (y, sub')) e))).
  { split; [| split; [by exists y, sub' | done]]. apply (frame_keep _ _ _ e); try done; [by apply (frame_step _ s) | | apply Hf].
    destruct (fr_gas _ _ _ _ Hf). cbn. lia. }
  destruct r; by split.
Qed.

Lemma running_mod s e f : running s e -> ex_ext (f e) = ex_ext e -> ex_excepted (f e) = ex_excepted e -> ex_savepoint (f e) = ex_savepoint e ->
  ex_tableFactorySavepoint (f e) = ex_tableFactorySavepoint e -> ex_logs (f e) = ex_logs e -> 0 <= ex_gas (f e) <= g -> out_ok (ex_output (f e)) -> running s (f e).
Proof.
  intros (Hf & Hy & He) E1 E2 E3 E4 E5 Hg Ho. split; [by apply (frame_keep _ _ _ e) |]. split; [by rewrite E1 | by rewrite E2].
Qed.
Lemma running_res s e f : running s e -> running s (with_res f e).
Proof. intros Hr. apply (running_mod s e (with_res f)); try done; apply Hr. Qed.
Lemma running_step s s' e : running s e -> Inv s' -> G s s' -> running s' e.
Proof. intros (Hf & Hr) Hi Hg. split; [by apply (frame_step _ s) | done]. Qed.
Lemma thrown_state s s' ec e : running s e -> Inv s' -> G s s' -> state_exn ec -> thrown ec s' e.
Proof. intros Hr Hi Hg He. split; [by apply (running_step s) | by apply state_frame_exn]. Qed.

Lemma go_create_ok y s e : running s e -> ewp (fun _ => running) thrown (go_create sf vm y) s e.
Proof.
  intros Hr. unfold go_create. apply ewp_bind. eapply ewp_st; [apply law_clearStorage | apply Hr | | intros; by eapply thrown_state].
  intros [] s1 _ Hi1 Hg1 _. pose proof (running_step _ _ _ Hr Hi1 Hg1) as Hr1. apply ewp_bind.
  eapply ewp_mono; [| done | by apply run_vm_ok]. cbn beta. intros o s2 e2 (Hr2 & Ho). apply ewp_bind, ewp_ex, ewp_bind, ewp_mod.
  apply (running_res _ _ ((fun r => mkExecutionResult (er_gasUsed r) (er_excepted r) (er_newAddress r) (er_output r) (er_codeDeposit r) (er_gasRefunded r) (lenZ o) (ex_gas e2)) <$> ex_res e2)) in Hr2 as Hr3.
  set (e3 := with_res _ e2) in *. assert (Eg : ex_gas e3 = ex_gas e2) by done. clearbody e3. apply ewp_bind.
  apply (ewp_mono (fun o' s' e' => running s' e' /\ lenZ o' <= maxCodeSize DefaultSchedule /\ bytes_ok o') _ thrown _); [| done |].
  - intros o' s4 e4 (Hr4 & Hl & Hb). apply ewp_bind, ewp_mod. apply (running_res _ _ (set_er_output o' <$> ex_res e4)) in Hr4 as Hr5.
    eapply ewp_st; [by apply law_setCode | apply Hr4 | | intros; by eapply thrown_state]. intros [] s6 _ Hi6 Hg6 _. by apply (running_step s4).
  - destruct (Z.ltb_spec (maxCodeSize DefaultSchedule) (lenZ o)); [by apply ewp_throw |].
    destruct (Z.leb_spec (lenZ o * createDataGas DefaultSchedule) (ex_gas e2)) as [Hle|_]; [| by apply ewp_throw].
    do 2 apply ewp_bind, ewp_mod. apply ewp_ret. split; [| split; [done | apply Ho]]. apply running_mod; try done.
    + by apply running_res.
    + pose proof (fr_gas _ _ _ _ (proj1 Hr3)). cbn [ex_gas with_gas with_res]. cbn [createDataGas DefaultSchedule FiscoBcosSchedule ConstantinopleSchedule] in *. pose proof (lenZ_nonneg o). lia.
    + apply Hr3.
Qed.

Definition undone s e : Prop := frame s0 s g e /\ Same s0 s /\ exists y, ex_ext e = Some (y, emptySub).
Lemma fail_ok t s e (X : Exn -> S -> Executive -> Prop) : running s e -> ewp (fun _ => undone) X (fail sf ctx t) s e.
Proof.
  intros (Hf & (y & sub & Hx & _) & _). unfold fail. apply ewp_bind. eapply ewp_revert; [done |]. intros s' e' -> Hf' Hs'. apply ewp_mod.
  split; [apply (frame_keep _ _ _ _ _ Hf'); try done; apply Hf' | split; [done |]]. exists y. cbn. by rewrite Hx.
Qed.
Lemma go_catch_ok ec s e : thrown ec s e -> ewp (fun _ => undone) (lost s0) (go_catch sf ctx ec) s e.
Proof.
  intros (Hr & Hec).
  assert (Hend : forall X, ewp (fun _ => undone) X (ex_mod (with_gas 0);; ex_mod (with_excepted (toTransactionException ec));; ex_revert sf ctx) s e).
  { intros X. do 2 apply ewp_bind, ewp_mod. destruct Hr as (Hf & (y & sub & Hx & _) & _). eapply ewp_revert.
    - apply (frame_keep _ _ _ _ _ Hf); try done; [| apply Hf]. destruct (fr_gas _ _ _ _ Hf). cbn. lia.
    - intros s' e' -> Hf' Hs'. split; [done | split; [done |]]. exists y. cbn. by rewrite Hx. }
  assert (Hterm : lost s0 Terminated s e) by (split_and!; try done; apply Hr).
  destruct ec; cbn [go_catch]; try (by apply ewp_throw); try (by apply fail_ok); try apply Hend.
  - destruct Hr as (Hf & (y & sub & Hx & _) & _). apply ewp_bind. eapply ewp_revert; [done |]. intros s' e' -> Hf' Hs'. do 1 apply ewp_bind, ewp_mod. apply ewp_mod.
    split; [apply (frame_keep _ _ _ _ _ Hf'); try done; apply Hf' | split; [done |]]. exists y. cbn. by rewrite Hx.
  - destruct Hr as (Hf & _). apply ewp_bind. eapply ewp_revert; [done |]. intros s' e' -> Hf' Hs'. apply ewp_throw. split_and!; try done; apply Hf'.
Qed.

Lemma go_ok s e : started s0 g d false s e ->
  ewp (fun _ s' e' => frame s0 s' g e' /\ (ex_excepted e' = TE_None \/ undone s' e')) (lost s0) (go sf ctx vm) s e.
Proof.
  intros [Hf Hd Hx Hdone Hruns _]. unfold go. apply ewp_bind, ewp_ex. unfold exts_ok in Hx.
  destruct (ex_ext e) as [[y sub]|] eqn:Ex; [| rewrite bool_decide_false in Hdone; [done | by intros []]].
  assert (Hr : running s e) by (split; [done | split; [by exists y, sub | by apply Hruns]]).
  apply ewp_bind. apply (ewp_mono (fun _ s' e' => frame s0 s' g e' /\ (ex_excepted e' = TE_None \/ undone s' e')) _ (lost s0) _); [| done |].
  - intros [] s1 e1 (Hf1 & H1). apply ewp_bind, ewp_ex. unfold se_when. destruct (negb (bool_decide (ex_output e1 = []))); [| exact (conj Hf1 H1)]. apply ewp_mod.
    split; [apply (frame_keep _ _ _ e1); try done; apply Hf1 |]. destruct H1 as [H1|(Hf2 & H2)]; [by left | right].
    split; [| done]. apply (frame_keep _ _ _ e1); try done; apply Hf1.
  - apply ewp_catch. apply (ewp_mono (fun _ => running) _ thrown _).
    + intros [] s1 e1 Hr1. split; [apply Hr1 | left; apply Hr1].
    + intros ec s1 e1 Ht. split; [intros Hfat; split_and!; try apply Ht; by rewrite Hfat |]. intros _. eapply ewp_mono; [| done | by apply go_catch_ok].
      intros [] s2 e2 Hu. split; [apply Hu | by right].
    + destruct (ex_isCreation e); [by apply go_create_ok |]. apply ewp_bind. eapply ewp_mono; [| done | by apply run_vm_ok]. cbn beta.
      intros o s1 e1 (Hr1 & Ho). apply ewp_mod. apply (running_mod s1 e1 (with_output o)); try done. apply Hr1.
Qed.
End Go.

(** *** The host of a frame *)
Section Host.
Context (d : Z) (vm_runs : runs_ok (d + 1)) (below : d < Z.of_nat limit) (y : ExtVM) (y_ok : ext_ok d y) (s0 : S).
Abbreviation W := (S * SubState)%type.
Definition hosted (w : W) : Prop := Inv (fst w) /\ G s0 (fst w).
Abbreviation answering R m := (answers hosted frame_exn R m).

Lemma answers_bind {A B} (R : A -> Prop) (R' : B -> Prop) (m : SE W A) (k : A -> SE W B) :
  answering R m -> (forall a, R a -> answering R' (k a)) -> answering R' (m ≫= k).
Proof.
  intros Hm Hk w Hw. unfold mbind, SE_bind. specialize (Hm w Hw). destruct (m w) as [w' [a|ec]]; [| exact Hm].
  destruct Hm as [Hw' Ha]. by apply Hk.
Qed.
Lemma answers_mret {A} (R : A -> Prop) a : R a -> answering R (mret a).
Proof. by intros Ha w Hw. Qed.
Lemma answers_throw {A} (R : A -> Prop) ec : frame_exn ec -> answering R (se_lift (Throw ec)).
Proof. by intros He w Hw. Qed.
Lemma answers_sub f : answering (fun _ => True) (sub_mod (S := S) f).
Proof. by intros w Hw. Qed.
Lemma answers_xs {A} (R : A -> Prop) (m : SE S A) : does Inv G R m -> answering R (xs m).
Proof.
  intros Hm [s sub] [Hi Hg]. unfold xs. specialize (Hm s Hi). cbn in *. destruct (m s) as [s' r]. destruct Hm as (Hi' & Hg' & Hr). cbn in *.
  split; [split; [done | by etransitivity] |]. destruct r; [done | by apply state_frame_exn].
Qed.
Lemma answers_noexcept {A} (R : A -> Prop) (m : SE W A) : answering R m -> answering R (noexcept m).
Proof.
  intros Hm w Hw. specialize (Hm w Hw). unfold noexcept, try_catch. destruct (m w) as [w' [a|ec]]; [done |].
  destruct (fatal ec); [done |]. split; [apply Hm | done].
Qed.

Lemma ext_go_ok s1 g s e : started s1 g (d + 1) false s e ->
  ewp (fun _ s' e' => frame s1 s' g e') (lost s1) (ext_go sf ctx vm (xv_depth y)) s e.
Proof.
  intros Hst. rewrite (xo_depth _ _ y_ok). unfold ext_go, ewp. destruct (Z.eqb_spec d c_offloadPoint) as [Ed|_].
  - assert (Hlim : c_offloadPoint < Z.of_nat limit) by lia. destruct (law_thread s Hlim (fr_inv _ _ _ _ (sd_frame _ _ _ _ _ _ Hst))) as (Hi & Hg & Hj).
    assert (Hst' : started s1 g (d + 1) false (tf_newThread ctx s) e).
    { destruct Hst as [Hf ? ? ? Hruns Hfail]. constructor; try done; [by apply (frame_step _ s) |]. by rewrite Hruns by done. }
    pose proof (go_ok (d + 1) vm_runs s1 g _ _ Hst') as Hgo. unfold ewp in Hgo. cbn [fst snd]. pose proof (sd_frame _ _ _ _ _ _ Hst) as Hf.
    destruct (go sf ctx vm (tf_newThread ctx s, e)) as [[s' e'] [u|ec]].
    + destruct Hgo as (Hf' & _). destruct (Hj s' (fr_inv _ _ _ _ Hf')) as [Hi' Hg']. pose proof (frame_step _ _ _ _ _ Hf Hi' Hg') as Hf''.
      constructor; try apply Hf'; apply Hf''.
    + destruct Hgo as (Hi' & _ & He & Hl). destruct (Hj s' Hi') as [Hi'' Hg'']. split_and!; try done. etransitivity; [apply Hf | done].
  - pose proof (go_ok (d + 1) vm_runs s1 g _ _ Hst) as Hgo. unfold ewp in Hgo. destruct (go sf ctx vm (s, e)) as [[s' e'] [u|ec]]; [apply Hgo | done].
Qed.

Lemma nested_ok start g (before : SE S unit) :
  (forall s, Inv s -> ewp (created before s g (d + 1)) (lost s) start s (newExecutive (d + 1))) ->
  answering (fun e => 0 <= ex_gas e <= g /\ out_ok (ex_output e)) (nested sf ctx vm y start).
Proof.
  intros Hstart [s sub] [Hi Hg]. cbn in Hi, Hg. specialize (Hstart s Hi). unfold nested. rewrite (xo_depth _ _ y_ok). unfold ewp in Hstart.
  destruct (start (s, newExecutive (d + 1))) as [[s1 e1] [[]|ec]].
  - destruct Hstart as (s2 & _ & Hg2 & [Hf _ _ _ _ _]). split; [split; [apply Hf |] | split; apply Hf]. cbn. etransitivity; [done |]. etransitivity; [done | apply Hf].
  - destruct Hstart as (s2 & _ & Hg2 & Hst). pose proof (ext_go_ok s2 g s1 e1 Hst) as Hgo. unfold ewp in Hgo. rewrite (xo_depth _ _ y_ok) in Hgo.
    assert (G s0 s2) by by etransitivity.
    destruct (ext_go sf ctx vm d (s1, e1)) as [[s3 e3] [u|ec]].
    + split; [split; [apply Hgo |] | split; apply Hgo]. cbn. etransitivity; [done | apply Hgo].
    + destruct Hgo as (Hi3 & Hg3 & He & _). split; [split; [done |] | done]. cbn. by etransitivity.
  - destruct Hstart as (Hi1 & Hg1 & He & _). split; [split; [done |] | done]. cbn. by etransitivity.
Qed.
Lemma newExecutive_fresh z : fresh z (newExecutive z).
Proof. by constructor. Qed.

Definition result_ok (g : Z) (r : EvmcResult) : Prop := 0 <= gas_left r <= g /\ lenZ (output_data r) < 2 ^ 63 /\ bytes_ok (output_data r).
Lemma generate_ok status gas g o : 0 <= gas <= g -> g <= INT64_MAX -> out_ok o -> result_ok g (generateCallResult status gas o).
Proof. intros Hg Hm [Ho Hb]. unfold result_ok. cbn. unfold INT64_MAX in *. rewrite swrap_small by lia. done. Qed.
Lemma generate_create_ok status gas g o a : 0 <= gas <= g -> g <= INT64_MAX -> out_ok o -> result_ok g (generateCreateResult status gas o a).
Proof.
  intros Hg Hm Ho. destruct status; try by apply generate_ok. exact (generate_ok EVMC_SUCCESS gas g [] Hg Hm out_ok_nil).
Qed.

Lemma fn_call_ok m : message_ok m -> answering (result_ok (msg_gas m)) (fn_call sf ctx version vm y m).
Proof.
  intros (Hg & Hv & Hs & Hl & Hb). unfold fn_call. rewrite (proj2 (Z.ltb_ge _ _)) by lia.
  assert (Hcall : forall p, param_ok p -> cp_gas p = msg_gas m -> answering (result_ok (msg_gas m)) (ext_call sf ctx version vm y p)).
  { intros p Hp Ep. unfold ext_call. rewrite (xo_origin _ _ y_ok). eapply answers_bind.
    - apply (nested_ok _ (cp_gas p) (mret tt)). intros s Hi. eapply ewp_mono; [| | apply call_started; try done; apply y_ok]; [| done].
      intros b s' e' Hst. exists s. split; [done |]. split; [reflexivity | done].
    - intros e (Hge & Ho). apply answers_mret. rewrite Ep in Hge. apply generate_ok; try done. lia. }
  assert (Hcreate : forall c2, answering (result_ok (msg_gas m)) (ext_create sf ctx vm y (msg_value m) (msg_gas m) (msg_input m) c2 (msg_salt m))).
  { intros c2. unfold ext_create. rewrite (xo_origin _ _ y_ok). eapply answers_bind.
    - apply (nested_ok _ (msg_gas m) (if c2 then prologue (xv_myAddress y) else opening (xv_myAddress y))). intros s Hi.
      destruct c2; [apply create2Opcode_started | apply createOpcode_started]; try done; try apply y_ok; try apply newExecutive_fresh; lia.
    - intros e (Hge & Ho). apply answers_mret. apply generate_create_ok; try done. lia. }
  destruct (msg_kind m); try apply Hcreate; apply Hcall; try done; constructor; cbn; try done; lia.
Qed.

Lemma setStore_does k v : u256 k -> u256 v -> does Inv G (fun _ => True) (setStore sf y k v).
Proof.
  intros Hk Hv s Hi. unfold setStore, mbind, SE_bind. destruct (law_checkAuthority (xv_origin y) (xv_myAddress y) s Hi) as (Hi1 & Hg1 & Hr).
  destruct (sf_checkAuthority sf (xv_origin y) (xv_myAddress y) s) as [s1 [b|ec]]; [| done]. cbn in *. destruct b; [| done]. cbn.
  destruct (law_setStorage (xv_myAddress y) k v Hk Hv s1 Hi1) as (Hi2 & Hg2 & Hr2). split; [done |]. split; [by etransitivity | done].
Qed.

Lemma copyCode_ok a o n : 0 <= n -> answering (fun bs => lenZ bs <= n /\ bytes_ok bs) (xs (fn_copyCode sf a o n)).
Proof.
  intros Hn. apply answers_xs. intros s Hi. unfold fn_copyCode, mbind, SE_bind. destruct (law_code a s Hi) as (Hi1 & Hg1 & Hr).
  destruct (sf_code sf a s) as [s1 [c|ec]]; [| done]. cbn in *. destruct (lenZ c <=? o); (split; [done |]); (split; [done |]); cbn.
  - split; [rewrite lenZ_nil; lia | constructor].
  - split; [| apply Forall_take, Forall_drop, Hr]. unfold lenZ. rewrite length_take. lia.
Qed.
Lemma setStorage_ok k v : u256 k -> u256 v -> answering (fun _ => True) (fn_setStorage sf y k v).
Proof.
  intros Hk Hv. unfold fn_setStorage. eapply answers_bind; [apply answers_xs, law_storage |]. intros old Hold.
  destruct (v =? old); [by apply answers_mret |]. apply (answers_bind (fun _ => True)).
  - destruct (old =? 0); [by apply answers_mret |]. destruct (v =? 0); [| by apply answers_mret].
    eapply answers_bind; [apply answers_sub |]. intros. by apply answers_mret.
  - intros status _. eapply answers_bind; [by apply answers_xs, setStore_does |]. intros. by apply answers_mret.
Qed.
Lemma selfdestruct_ok a : answering (fun _ => True) (suicide sf version y a).
Proof.
  unfold suicide. rewrite (proj2 (Z.leb_le _ _)) by done. eapply answers_bind; [by apply (answers_mret (fun _ => True)) |]. intros. apply answers_sub.
Qed.
Lemma codeHash_ok a : answering u256 (h ← xs (codeHashAt sf a); mret (fromBigEndian (wrap 256) h)).
Proof.
  apply (answers_bind (fun _ => True)); [| intros; apply answers_mret, u256_fromBE]. apply answers_xs. intros s Hi. unfold codeHashAt, xv_exists, mbind, SE_bind. cbn [eip158Mode DefaultSchedule FiscoBcosSchedule ConstantinopleSchedule].
  destruct (law_exists a s Hi) as (Hi1 & Hg1 & Hr). destruct (sf_accountNonemptyAndExisting sf a s) as [s1 [b|ec]]; [| done]. cbn in *. destruct b; [| done].
  destruct (law_codeHash a s1 Hi1) as (Hi2 & Hg2 & Hr2). split; [done |]. split; [by etransitivity | done].
Qed.
Lemma codeSize_ok a : answering u256 (xs (codeSizeAt sf ctx a)).
Proof.
  apply answers_xs. unfold codeSizeAt. destruct (isPrecompiled ctx a); [| apply law_codeSize]. intros s Hi. split; [done |]. split; [cbn; reflexivity |]. cbn. unfold u256. lia.
Qed.

Lemma host_ok c : (forall m, message_ok m -> answering (result_ok (msg_gas m)) (c m)) -> HostOk hosted frame_exn (with_call (fnTable sf ctx env version vm y) c).
Proof.
  intros Hc. constructor; cbn [with_call fnTable account_exists get_storage set_storage get_balance get_code_size get_code_hash copy_code selfdestruct host_call get_tx_context get_block_hash emit_log].
  - intros a. apply answers_noexcept, answers_xs, law_exists.
  - intros _ k. apply answers_noexcept, answers_xs, law_storage.
  - intros _ k v Hk Hv. by apply answers_noexcept, setStorage_ok.
  - intros a. apply answers_noexcept, answers_xs, law_balance.
  - apply codeSize_ok.
  - apply codeHash_ok.
  - apply copyCode_ok.
  - intros _ b. apply answers_noexcept, selfdestruct_ok.
  - intros m Hm. by apply Hc.
  - apply answers_mret. split; [apply y_ok | apply u256_0].
  - intros n. apply answers_mret, u256_fromBE.
  - intros _ data ts _. apply answers_noexcept. intros w Hw. exact (conj Hw Logic.I).
Qed.
End Host.
End Frames.

(** ** Calls within calls *)
Section Depth.
Context `{Crypto} `{Recover} {S : Type} (sf : StateFace S) (ctx : ExecutiveContext S) (env : EnvInfo) (version : Z).
Context (origin : Address) (limit : nat) (Bad : Prop) (Inv : S -> Prop) (G Same : S -> S -> Prop) `{!StateLaws sf ctx origin limit Bad Inv G Same}.
Context (rc2 : RC2_VERSION <= version) (table : Z -> Metric) `{!MetricsOk table}.
Abbreviation runs := (runs_ok origin limit Bad Inv G).
Abbreviation exn_ok := (frame_exn limit Bad).

(** What the interpreter answers, as the executive sees it. *)
Definition exec_ok (gas : Z) (s0 : S) (r : S * SubState * (Z * result bytes)) : Prop :=
  let '((s', _), (gas', r)) := r in Inv s' /\ G s0 s' /\ 0 <= gas' <= gas /\ match r with Ok o => out_ok o | Throw ec => exn_ok ec end.

Lemma exec_result_ok (st : VM (S * SubState)) msg r gas s0 : run_end (hosted Inv G s0) exn_ok msg st r -> msg_gas msg = gas -> 0 <= gas ->
  exec_ok gas s0 (match vm_result (st, r) with (w', Throw ec) => (w', (gas, Throw ec)) | (w', Ok res) => (w', exec_result gas res) end).
Proof.
  intros ((Hi & Hg) & Hgas & Hr) Em Hge. rewrite Em in Hgas. unfold exec_ok, vm_result. destruct (m_context st) as [s' sub'] eqn:Ec. cbn in Hi, Hg.
  destruct r as [[]|ec]; cbn.
  - split_and!; try done; lia.
  - assert (Hex : exn_ok ec) by (destruct Hr as [Hr|Hr]; [done |]; by destruct ec).
    destruct ec; cbn; split_and!; try done; lia.
Qed.

Lemma evmc_exec_ok vm d y gas s sub : ext_ok origin d y -> 0 <= d <= 1024 -> d < Z.of_nat limit ->
  (d < 1024 -> runs vm (d + 1)) -> 0 <= gas -> Inv s ->
  exec_ok gas s (evmc_exec sf ctx env version table false vm y gas (s, sub)).
Proof.
  intros Hy Hd Hl Hvm Hgas Hi. unfold evmc_exec. destruct (Z.ltb_spec INT64_MAX gas) as [|Hmax]; [cbn; split_and!; try done; lia |].
  destruct (INT64_MAX <? m_gasLimit (env_header env)); [cbn; split_and!; try done; lia |]. cbn [orb].
  set (msg := frame_message y gas). set (h := fnTable sf ctx env version vm y).
  assert (Hms : msg_depth msg = d) by (unfold msg; cbn; rewrite (xo_depth _ _ _ Hy); apply swrap_small; lia).
  assert (Hrun : run_ok msg (xv_code y)).
  { destruct Hy as [_ Hv _ [Hdl Hdb] [Hcl Hcb] _]. unfold run_ok. cbn. split_and!; done. }
  assert (Hfuel : 2 * msg_gas msg + 1 < Z.of_nat (rounds gas)) by (unfold rounds; cbn; lia).
  assert (Hw : hosted Inv G s (s, sub)) by (split; [done | cbn; reflexivity]).
  assert (Htotal : forall h', HostOk (hosted Inv G s) exn_ok h' -> vm_execute h' table false (rounds gas) (toRevision DefaultSchedule) msg (xv_code y) (s, sub)
      = vm_execute h table false (rounds gas) (toRevision DefaultSchedule) msg (xv_code y) (s, sub) ->
    exec_ok gas s (match vm_execute h table false (rounds gas) (toRevision DefaultSchedule) msg (xv_code y) (s, sub) with
      | None => ((s, sub), (gas, Throw UndefinedBehaviour)) | Some (w', Throw e) => (w', (gas, Throw e)) | Some (w', Ok r) => (w', exec_result gas r) end)).
  { intros h' Hh' <-. destruct (run_total (hosted Inv G s) exn_ok h' table (toRevision DefaultSchedule) msg (xv_code y) (rounds gas) (s, sub) Hrun Hw Hfuel) as (st' & r & E & Hend).
    unfold vm_execute. rewrite E. cbn [fmap option_fmap option_map]. exact (exec_result_ok st' msg r gas s Hend eq_refl Hgas). }
  destruct (decide (d < 1024)) as [Hlt|Hge].
  - apply (Htotal h); [| done]. apply (host_ok sf ctx env version origin limit Bad Inv G Same rc2 vm d y Hy s (fun m => noexcept (fn_call sf ctx version vm y m))).
    intros m Hm. apply answers_noexcept. eapply fn_call_ok; try done. by apply Hvm.
  - apply (Htotal (with_call h (fun m => mret (mkResult EVMC_FAILURE 0 [] ZeroAddress)))); [| apply deep_execute; lia].
    apply (host_ok sf ctx env version origin limit Bad Inv G Same rc2 vm d y Hy s). intros m Hm. apply answers_mret. destruct Hm as (Hm & _). split; [cbn; lia | apply out_ok_nil].
Qed.

Lemma run_frame_ok n d : Z.of_nat n + d = Z.of_nat limit -> 0 <= d <= 1024 -> runs (run_frame sf ctx env version table false n) d.
Proof.
  revert d. induction n as [|n IH]; intros d Hn Hd y gas s sub Hy Hgas Hi.
  - cbn. split_and!; try done; try lia. unfold frames. lia.
  - cbn [run_frame]. pose proof (evmc_exec_ok (run_frame sf ctx env version table false n) d y gas s sub Hy Hd ltac:(lia)) as Hx. apply Hx; try done.
    intros Hlt. apply IH; lia.
Qed.

(** *** Transactions *)
Definition tx_fine (t : Transaction) : Prop := u256 (tx_value t) /\ u256 (tx_gasPrice t) /\ out_ok (tx_data t).
Lemma sender_same t a t' : sender version t = Ok (a, t') -> t' = t \/ t' = forceSender a t.
Proof.
  unfold sender. destruct (bool_decide _); [| intros [= <- <-]; by left]. destruct (tx_vrs t) as [vrs|]; [| done]. unfold tx_sha3, mbind, result_bind.
  destruct (tx_encode version [] WithoutSignature t) as [b|ec]; [| done]. destruct (bool_decide _); [done |]. intros [= <- <-]. by right.
Qed.

(** What a failed transaction leaves: the state it started from, and of a creation
    the nonce of its sender. *)
Definition restored (t : Transaction) (s s' : S) : Prop :=
  Same s s' \/ isCreation t = true /\ exists s1, opening sf ctx origin origin s = (s1, Ok tt) /\ Same s1 s'.

Lemma kill_all_ok l s e : Inv s ->
  ewp (fun _ s' e' => Inv s' /\ G s s' /\ e' = e) (fun ec s' e' => Inv s' /\ G s s' /\ e' = e /\ state_exn ec) (kill_all sf l) s e.
Proof.
  revert s. induction l as [|a l IH]; intros s Hi; cbn [kill_all]; [apply ewp_ret; split_and!; done |]. apply ewp_bind.
  eapply ewp_st; [apply law_kill | done | | done]. intros [] s1 _ Hi1 Hg1 _. eapply ewp_mono; [| | by apply IH]; cbn beta.
  - intros [] s2 e2 (? & ? & ?). split_and!; try done. by etransitivity.
  - intros ec s2 e2 (? & ? & ? & ?). split_and!; try done. by etransitivity.
Qed.

Definition idle (e : Executive) : Prop := match ex_ext e with None => True | Some (_, sub) => sub = emptySub end.
Lemma finalize_ok s e : Inv s ->
  ewp (fun _ s' e' => Inv s' /\ G s s' /\ ex_excepted e' = ex_excepted e /\ (idle e -> ex_logs e = [] -> s' = s /\ ex_logs e' = []))
    (fun ec s' e' => Inv s' /\ G s s' /\ ex_excepted e' = ex_excepted e /\ state_exn ec /\ ~ idle e) (ex_finalize sf ctx) s e.
Proof.
  intros Hi. unfold ex_finalize. apply ewp_bind, ewp_ex, ewp_bind.
  match goal with |- ewp ?Q ?X _ _ _ => apply (ewp_mono (fun _ s' e' => Inv s' /\ G s s' /\ ex_excepted e' = ex_excepted e /\ (idle e -> ex_logs e = [] -> s' = s /\ ex_logs e' = [])) Q X X) end; [| done |].
  - intros [] s1 e1 Hr. apply ewp_bind, ewp_ex, ewp_bind, ewp_mod. exact Hr.
  - destruct (ex_ext e) as [[y sub]|] eqn:Ex; [| apply ewp_mod; split_and!; done]. do 3 apply ewp_bind, ewp_mod. apply ewp_bind.
    destruct (decide (suicides sub = ∅)) as [Es|Es].
    + assert (map fst (in_order (suicides sub)) = []) as E by (rewrite Es; by vm_compute).
      cbn [suicides]. rewrite E. cbn [kill_all]. apply ewp_ret, ewp_mod. split_and!; try done. unfold idle. rewrite Ex. intros -> _. done.
    + assert (~ idle e) by (unfold idle; rewrite Ex; by intros ->). eapply ewp_mono; [| | by apply kill_all_ok]; cbn beta.
      * intros [] s1 e1 (? & ? & ->). apply ewp_mod. split_and!; done.
      * intros ec s1 e1 (? & ? & -> & ?). split_and!; done.
Qed.

Definition base_state (t : Transaction) (s s1 : S) : Prop := if isCreation t then opening sf ctx origin origin s = (s1, Ok tt) else s1 = s.
Definition stopped (t : Transaction) (s : S) (ec : Exn) (s' : S) (e' : Executive) : Prop :=
  Inv s' /\ G s s' /\ frame_exn limit Bad ec /\ (fatal ec = false -> ex_excepted e' <> TE_None -> restored t s s' /\ ex_logs e' = []).
Lemma lost_stopped t s ec s' e' : lost limit Bad Inv G s ec s' e' -> stopped t s ec s' e'.
Proof. intros (? & ? & ? & Hl). split_and!; try done. intros Hf. destruct (Hl Hf) as [-> _]. done. Qed.

Lemma execute_ok t t' s e : sender version t = Ok (origin, t') -> tx_fine t -> Inv s -> fresh 0 e -> ex_t e = t ->
  ewp (fun b s' e' => exists s1 g, base_state t s s1 /\ G s s1 /\ started sf ctx origin Inv G Same s1 g 0 b s' e') (stopped t s) (ex_execute sf ctx version) s e.
Proof.
  intros Hs (Hv & Hgp & Hd) Hi Hfr Ht. unfold ex_execute. apply ewp_bind, ewp_ex. rewrite Ht. destruct (_ <? _).
  { apply ewp_bind, ewp_mod, ewp_throw. split_and!; try done. intros _ _. split; [by left | apply Hfr]. }
  set (gas := wrap 256 _). assert (Hgas : u256 gas) by apply u256_wrap. clearbody gas. rewrite Hs. apply ewp_bind.
  change (ewp ?Q ?X (se_lift (Ok (origin, t'))) s e) with (Q (origin, t') s e). apply ewp_bind, ewp_mod.
  assert (Et : tx_value t' = tx_value t /\ tx_gasPrice t' = tx_gasPrice t /\ tx_data t' = tx_data t /\ isCreation t' = isCreation t) by (by destruct (sender_same t origin t' Hs) as [-> | ->]).
  destruct Et as (-> & -> & -> & Ec). rewrite Ec.
  assert (Hfr' : fresh 0 (with_tx t' (ex_baseGasRequired e) e)) by (destruct Hfr; by constructor). unfold base_state. destruct (isCreation t).
  - eapply ewp_mono; [| | apply (createOpcode_started sf ctx origin limit Bad Inv G Same origin (tx_value t) (tx_gasPrice t) gas (tx_data t) s 0); try done; apply Hgas].
    + intros b s' e' (s1 & Ho & Hg & Hst). by exists s1, gas.
    + intros ec s' e'. apply lost_stopped.
  - eapply ewp_mono; [| | apply (call_started sf ctx version origin limit Bad Inv G Same rc2); try done; constructor; cbn; try done; apply Hgas].
    + intros b s' e' Hst. exists s, gas. split; [done |]. split; [reflexivity | exact Hst].
    + intros ec s' e'. apply lost_stopped.
Qed.

Abbreviation vm := (run_frame sf ctx env version table false limit).
Lemma transaction_ok t t' s e : sender version t = Ok (origin, t') -> tx_fine t -> Inv s -> fresh 0 e ->
  ewp (fun _ s' e' => Inv s' /\ G s s' /\ (ex_excepted e' <> TE_None -> restored t s s' /\ ex_logs e' = []))
    (fun ec s' e' => Inv s' /\ G s s' /\ fatal ec = true /\ frame_exn limit Bad ec) (run_transaction sf ctx version vm t) s e.
Proof.
  intros Hs Ht Hi Hfr. unfold run_transaction. apply ewp_catch.
  apply (ewp_mono (fun _ s' e' => Inv s' /\ G s s' /\ (ex_excepted e' <> TE_None -> restored t s s' /\ ex_logs e' = [])) _ (stopped t s) _); [done | |].
  { intros ec s' e' (? & ? & ? & Hst). split; [done |]. intros Hf. apply ewp_ret. split_and!; try done. by apply Hst. }
  apply ewp_bind. unfold ex_initialize. apply ewp_bind, ewp_mod. destruct (_ <? _).
  { apply ewp_bind, ewp_mod, ewp_throw. split_and!; try done. intros _ _. split; [by left | apply Hfr]. }
  apply ewp_ret, ewp_bind. eapply ewp_mono; [| done | apply (execute_ok t t'); try done; destruct Hfr; by constructor]. cbn beta.
  intros b s1 e1 (s0 & g & Hbase & Hg0 & Hst).
  assert (Hrest : forall s', Same s0 s' -> restored t s s').
  { intros s' Hsm. unfold base_state in Hbase. unfold restored. destruct (isCreation t); [right; split; [done | by exists s0] | left; by rewrite <- Hbase]. }
  apply ewp_bind. apply (ewp_mono (fun _ s' e' => frame sf ctx Inv G Same s0 s' g e' /\ (ex_excepted e' = TE_None \/ Same s0 s' /\ idle e')) _ (stopped t s) _); [| done |].
  - intros [] s2 e2 (Hf2 & Hor). apply ewp_bind. eapply ewp_mono; [| | apply finalize_ok; apply Hf2]; cbn beta.
    + intros b2 s3 e3 (Hi3 & Hg3 & He3 & Hid). apply ewp_ret. assert (G s s3) by (etransitivity; [exact Hg0 |]; etransitivity; [apply Hf2 | done]).
      split_and!; try done. rewrite He3. intros Hne. destruct Hor as [Hn|(Hsm & Hidle)]; [done |]. destruct (Hid Hidle (fr_logs _ _ _ _ _ _ _ _ _ Hf2)) as [-> ->]. split; [by apply Hrest | done].
    + intros ec s3 e3 (Hi3 & Hg3 & He3 & Hex & Hid). assert (G s s3) by (etransitivity; [exact Hg0 |]; etransitivity; [apply Hf2 | done]).
      split_and!; try done; [by apply state_frame_exn |]. intros _. rewrite He3. intros Hne. destruct Hor as [Hn|(Hsm & Hidle)]; done.
  - destruct b; cbn [negb se_when].
    + apply ewp_ret. destruct Hst as [Hf _ Hx Hdone _ Hfail]. split; [done |]. destruct (decide (ex_excepted e1 = TE_None)) as [|Hne]; [by left | right].
      split; [by apply Hfail |]. unfold idle. destruct (ex_ext e1); [| done]. rewrite bool_decide_true in Hdone by by eexists. done.
    + eapply ewp_mono; [| | eapply (go_ok sf ctx origin limit Bad Inv G Same vm 0 (run_frame_ok limit 0 ltac:(lia) ltac:(lia)) s0 g); exact Hst]; cbn beta.
      * intros [] s2 e2 (Hf2 & [Hn|(_ & Hsm & y & Hy)]); (split; [done |]); [by left | right]. split; [done |]. unfold idle. by rewrite Hy.
      * intros ec s2 e2 Hl. apply lost_stopped. by eapply lost_trans.
Qed.
End Depth.
