(* ===== verification/ExecutiveFuel.v ===== *)
(** * Frames that are enough

    [run_frame n] nests calls at most [n] deep and is undefined beyond.  A run
    that is defined does not change when it may nest deeper: undefined behaviour
    is passed on by every handler of the executive and of the interpreter, so
    what is not undefined never asked for a frame more. *)

From S2P Require Import Prelude StateMonad CommonData RLP PBFTMsg BlockHeader Transaction Receipt StorageEntry EVM EVMProps EVMRuns Executive ExecutiveProps.
Import EVM.Op.

(** ** Runs that agree unless the first is undefined *)
Section Agrees.
Context {St : Type}.
Definition agrees {A} (r r' : St * result A) : Prop := r = r' \/ snd r = Throw UndefinedBehaviour.
Lemma agrees_refl {A} (r : St * result A) : agrees r r.
Proof. by left. Qed.
Lemma agrees_bind {A B} (m m' : SE St A) (k k' : A -> SE St B) s : agrees (m s) (m' s) -> (forall a s', agrees (k a s') (k' a s')) -> agrees ((m ≫= k) s) ((m' ≫= k') s).
Proof.
  intros [E|E] Hk; unfold mbind, SE_bind.
  - rewrite E. destruct (m' s) as [s' [a|e]]; [apply Hk | apply agrees_refl].
  - destruct (m s) as [s' r]. cbn in E. rewrite E. by right.
Qed.
Lemma agrees_then {A B} (m : SE St A) (k k' : A -> SE St B) s : (forall a s', agrees (k a s') (k' a s')) -> agrees ((m ≫= k) s) ((m ≫= k') s).
Proof. intros Hk. apply agrees_bind; [apply agrees_refl | done]. Qed.
Lemma agrees_catch {A} (m m' : SE St A) h s : agrees (m s) (m' s) -> agrees (try_catch m h s) (try_catch m' h s).
Proof.
  intros [E|E]; unfold try_catch; [rewrite E; apply agrees_refl |]. destruct (m s) as [s' r]. cbn in E. rewrite E. by right.
Qed.
End Agrees.

(** ** The interpreter *)
Section Interpreter.
Context `{Crypto} {W : Type} (h : Host W) (c : Message -> SE W EvmcResult) (table : Z -> Metric) (opt : bool) (rev : evmc_revision) (msg : Message).
Context (Hc : forall m w, agrees (host_call h m w) (c m w)).
Abbreviation h' := (with_call h c).

Lemma agrees_host m s : agrees (of_host (host_call h m) s) (of_host (host_call h' m) s).
Proof.
  unfold of_host. cbn [host_call with_call]. destruct (Hc m (m_context s)) as [E|E]; [rewrite E; apply agrees_refl |].
  destruct (host_call h m (m_context s)) as [w r]. cbn in E. rewrite E. by right.
Qed.
Lemma agrees_call s : agrees (caseCall h rev msg s) (caseCall h' rev msg s).
Proof.
  unfold caseCall. change (caseCallSetup h' rev msg) with (caseCallSetup h rev msg). apply agrees_then. intros _ s1. apply agrees_then. intros [m o] s2.
  apply agrees_bind; [| intros; apply agrees_refl]. destruct o as [[a n]|]; [| apply agrees_refl]. apply agrees_bind; [apply agrees_host | intros; apply agrees_refl].
Qed.
Lemma agrees_create s : agrees (caseCreate h rev msg s) (caseCreate h' rev msg s).
Proof.
  unfold caseCreate. change (get_balance h') with (get_balance h). repeat (apply agrees_then; intros ? ?).
  apply agrees_bind; [| intros; apply agrees_refl]. destruct (_ && _); [| apply agrees_refl]. do 2 (apply agrees_then; intros ? ?).
  apply agrees_bind; [apply agrees_host | intros; apply agrees_refl].
Qed.
Lemma agrees_bounce pCode code dests pool b s :
  agrees (bounce h table opt rev msg pCode code dests pool b s) (bounce h' table opt rev msg pCode code dests pool b s).
Proof. destruct b; [apply agrees_refl | apply agrees_create | apply agrees_call | apply agrees_refl]. Qed.
Lemma agrees_trampoline pCode code dests pool fuel b s :
  let r := trampoline h table opt rev msg pCode code dests pool fuel b s in
  r = trampoline h' table opt rev msg pCode code dests pool fuel b s \/ exists s', r = Some (s', Throw UndefinedBehaviour).
Proof.
  cbv zeta. revert b s. induction fuel as [|fuel IH]; intros b s; destruct b; try (by left); cbn [trampoline];
    match goal with |- context [bounce h table opt rev msg pCode code dests pool ?b s] => destruct (agrees_bounce pCode code dests pool b s) as [E|E] end.
  1, 3, 5: (rewrite E; destruct (bounce h' table opt rev msg pCode code dests pool _ s) as [s' [b'|e]]; [apply IH | by left]).
  all: right; destruct (bounce h table opt rev msg pCode code dests pool _ s) as [s' r]; cbn in E; rewrite E; by eexists.
Qed.
Lemma agrees_execute fuel pCode w : let r := vm_execute h table opt fuel rev msg pCode w in
  r = vm_execute h' table opt fuel rev msg pCode w \/ exists w', r = Some (w', Throw UndefinedBehaviour).
Proof.
  cbv zeta. unfold vm_execute, vm_exec. destruct (optimize opt pCode) as [[code dests] pool].
  destruct (agrees_trampoline pCode code dests pool fuel BInterpret (newVM msg w)) as [E|[s' E]]; rewrite E; [by left | right; by eexists].
Qed.
End Interpreter.

(** ** The executive *)
Section Frames.
Context `{Crypto} `{Recover} {S : Type} (sf : StateFace S) (ctx : ExecutiveContext S) (env : EnvInfo) (version : Z).
Context (table : Z -> Metric) (opt : bool).
Definition runs_agree (r r' : S * SubState * (Z * result bytes)) : Prop := r = r' \/ snd (snd r) = Throw UndefinedBehaviour.

Section Vm.
Context (vm vm' : ExtVM -> Z -> S * SubState -> S * SubState * (Z * result bytes)) (Hvm : forall y gas w, runs_agree (vm y gas w) (vm' y gas w)).

Lemma agrees_run_vm se : agrees (run_vm vm se) (run_vm vm' se).
Proof.
  unfold run_vm. destruct se as [s e]. destruct (ex_ext e) as [[y sub]|]; [| apply agrees_refl]. destruct (Hvm y (ex_gas e) (s, sub)) as [E|E]; [rewrite E; apply agrees_refl |].
  destruct (vm y (ex_gas e) (s, sub)) as [[s' sub'] [gas' r]]. cbn in E. rewrite E. by right.
Qed.
Lemma agrees_go se : agrees (go sf ctx vm se) (go sf ctx vm' se).
Proof.
  unfold go. apply agrees_then. intros e se1. destruct (ex_ext e) as [[y sub]|]; [| apply agrees_refl].
  apply agrees_bind; [| intros; apply agrees_refl]. apply agrees_catch. destruct (ex_isCreation e).
  - unfold go_create. apply agrees_then. intros _ se2. apply agrees_bind; [apply agrees_run_vm | intros; apply agrees_refl].
  - apply agrees_bind; [apply agrees_run_vm | intros; apply agrees_refl].
Qed.
Lemma agrees_ext_go d se : agrees (ext_go sf ctx vm d se) (ext_go sf ctx vm' d se).
Proof.
  unfold ext_go. destruct (d =? c_offloadPoint); [| apply agrees_go]. destruct (agrees_go (tf_newThread ctx (fst se), snd se)) as [E|E]; [rewrite E; apply agrees_refl |].
  destruct (go sf ctx vm (tf_newThread ctx (fst se), snd se)) as [[s' e'] r]. cbn in E. rewrite E. by right.
Qed.
Lemma agrees_nested y start w : agrees (nested sf ctx vm y start w) (nested sf ctx vm' y start w).
Proof.
  unfold nested. destruct w as [s sub]. destruct (start (s, newExecutive (xv_depth y + 1))) as [[s1 e1] [[]|ec]]; try apply agrees_refl.
  destruct (agrees_ext_go (xv_depth y) (s1, e1)) as [E|E]; [rewrite E; apply agrees_refl |].
  destruct (ext_go sf ctx vm (xv_depth y) (s1, e1)) as [[s2 e2] r]. cbn in E. rewrite E. by right.
Qed.
Lemma agrees_fn_call y m w : agrees (noexcept (fn_call sf ctx version vm y m) w) (noexcept (fn_call sf ctx version vm' y m) w).
Proof.
  apply agrees_catch. unfold fn_call. destruct (msg_gas m <? 0); [apply agrees_refl |]. unfold ext_call, ext_create.
  destruct (msg_kind m); (apply agrees_bind; [apply agrees_nested | intros; apply agrees_refl]).
Qed.
Lemma agrees_exec y gas w : runs_agree (evmc_exec sf ctx env version table opt vm y gas w) (evmc_exec sf ctx env version table opt vm' y gas w).
Proof.
  unfold evmc_exec. destruct (_ || _); [by left |].
  destruct (agrees_execute (fnTable sf ctx env version vm y) (fun m => noexcept (fn_call sf ctx version vm' y m)) table opt (toRevision DefaultSchedule) (frame_message y gas) (agrees_fn_call y)
    (rounds gas) (xv_code y) w) as [E|[w' E]]; rewrite E; [by left | by right].
Qed.
Lemma agrees_transaction t se : agrees (run_transaction sf ctx version vm t se) (run_transaction sf ctx version vm' t se).
Proof.
  unfold run_transaction. apply agrees_catch. do 2 (apply agrees_then; intros ? ?). apply agrees_bind; [| intros; apply agrees_refl].
  destruct (negb _); [apply agrees_go | apply agrees_refl].
Qed.
End Vm.

Lemma run_frame_more n k y gas w : runs_agree (run_frame sf ctx env version table opt n y gas w) (run_frame sf ctx env version table opt (n + k) y gas w).
Proof.
  revert y gas w. induction n as [|n IH]; intros y gas w; [by right |]. cbn [run_frame Nat.add]. by apply agrees_exec.
Qed.

(** A transaction whose calls nest [n] deep at most runs as it does with any number of frames. *)
Lemma transaction_more n k t se : snd (run_transaction sf ctx version (run_frame sf ctx env version table opt n) t se) <> Throw UndefinedBehaviour ->
  run_transaction sf ctx version (run_frame sf ctx env version table opt (n + k)) t se = run_transaction sf ctx version (run_frame sf ctx env version table opt n) t se.
Proof.
  intros Hd. destruct (agrees_transaction _ _ (run_frame_more n k) t se) as [E|E]; [by symmetry | done].
Qed.
End Frames.
