(* ===== verification/ExecutiveState.v ===== *)
(** * The executive over the accounts

    The state the executive runs on in a node: the accounts of
    [StorageState.v] in the tables of [TableFactory.v], and the context of
    [ExecutiveContext] with its change log per thread.  The laws of
    [ExecutiveProps.v] are proved of it for any storage whose rows of accounts
    have a key and a value, and any precompiled contracts that keep them; the
    theorems on transactions follow. *)

From S2P Require Import Prelude StateMonad CommonData Text PBFTMsg BlockHeader Transaction Receipt TrieHash StorageEntry MemoryTable TableProps TableFactory FactoryProps TableRows TableEffects StorageState StateProps TableInv.
From S2P Require Import EVM EVMProps EVMRuns Executive ExecutiveProps ExecutiveFuel.

(** ** The state and the context of a node *)
Section Node.
Context `{Crypto} (storage : option (h256 -> Z -> TableInfo -> chars -> Condition -> result (option (list Entry)))).
Context (m_accountStartNonce : Z) (sha256 : list Z -> list Z) (sch : Schedule).

(** [StorageState::rootHash] *)
Definition ss_rootHash (needCalculate : bool) : FE h256 :=
  if needCalculate then fun f => let '(f', h) := factory_hash sha256 sch f in (f', Ok h) else mret h256_0.

Definition StorageState_face : StateFace Factory := {|
  sf_addressInUse := addressInUse storage;
  sf_accountNonemptyAndExisting := accountNonemptyAndExisting storage m_accountStartNonce;
  sf_addressHasCode := addressHasCode storage;
  sf_balance := balance storage;
  sf_addBalance := addBalance storage m_accountStartNonce;
  sf_setBalance := setBalance storage m_accountStartNonce;
  sf_transferBalance := transferBalance storage m_accountStartNonce;
  sf_storage := ss_storage storage;
  sf_setStorage := setStorage storage;
  sf_clearStorage := fun _ => mret tt;
  sf_setCode := setCode storage;
  sf_kill := kill storage m_accountStartNonce;
  sf_code := ss_code storage;
  sf_codeHash := codeHash storage;
  sf_codeSize := codeSize storage;
  sf_incNonce := incNonce storage m_accountStartNonce;
  sf_setNonce := setNonce storage;
  sf_getNonce := getNonce storage m_accountStartNonce;
  sf_requireAccountStartNonce := se_lift (requireAccountStartNonce m_accountStartNonce);
  sf_checkAuthority := ss_checkAuthority storage;
  sf_rootHash := ss_rootHash;
  sf_savepoint := f_savepoint;
  sf_rollback := f_rollback
|}.

(** [openTable(SYS_TABLES)->checkAuthority(_origin)] *)
Definition mayDeploy (origin : Address) : FE bool :=
  t ← openTable storage SYS_TABLES true;
  match t with
  | None => se_lift (Throw UndefinedBehaviour)
  | Some p => at_table p (fun o => mret (checkAuthority origin (mt_info (ob_table o))))
  end.

(** The log is [tbb::enumerable_thread_specific]: a new thread starts with an
    empty one, which is lost when it ends; the tables are shared. *)
Definition factory_context (precompiled : gmap Address (bytes -> Address -> FE bytes)) (original : gmap Address (bytes -> bool * bytes))
    (txGasLimit : Z) : ExecutiveContext Factory :=
  mkContext precompiled original txGasLimit mayDeploy f_savepoint f_rollback (with_log []) (fun f f' => with_log (f_log f) f').
End Node.

(** ** Rows of accounts *)
Definition short (v : chars) : Prop := lenZ v < 2 ^ 63.
Definition account_row (fs : gmap chars chars) : Prop :=
  is_Some (fs !! STORAGE_KEY) /\ is_Some (fs !! STORAGE_VALUE) /\ map_Forall (fun _ v => short v) fs.

Lemma account_row_insert fs k v : account_row fs -> short v -> account_row (<[k := v]> fs).
Proof.
  intros (Hk & Hv & Hs) Hn. split_and!; [apply lookup_insert_is_Some' | apply lookup_insert_is_Some' | by apply map_Forall_insert_2]; tauto.
Qed.
Lemma account_row_old fs k : account_row fs -> short (default [] (fs !! k)).
Proof. intros (_ & _ & Hs). destruct (fs !! k) as [v|] eqn:E; [by apply (Hs k) | unfold short; cbn; rewrite lenZ_nil; lia]. Qed.

(** Numbers are short. *)
Lemma dec_loop_length fuel n acc : (length (dec_loop fuel n acc) <= fuel + length acc)%nat.
Proof. revert n acc. induction fuel as [|fuel IH]; intros n acc; cbn [dec_loop]; [lia |]. case_match; cbn; [lia |]. specialize (IH (n / 10) (48 + n mod 10 :: acc)). cbn in IH. lia. Qed.
Lemma short_dec n : u256 n -> short (dec n).
Proof.
  intros [Hn Hn']. unfold short, lenZ, dec. pose proof (dec_loop_length (Datatypes.S (Z.to_nat (Z.log2 n))) n []) as Hl. cbn [length] in Hl.
  assert (Z.log2 n <= 256) by (transitivity (Z.log2 (2 ^ 256)); [apply Z.log2_le_mono; lia | by vm_compute]).
  repeat case_match; cbn [length] in *; lia.
Qed.

(** ** The invariant of a node *)
Section Laws.
Context `{Crypto} (db : Z -> option Entry) (storage : option (h256 -> Z -> TableInfo -> chars -> Condition -> result (option (list Entry)))).
Context (start : Z) (start_word : u256 start) (sha256 : list Z -> list Z) (sch : Schedule) (origins : list Address).
(** The storage gives every row its own identifier, and holds good accounts. *)
Context (Hstorage : forall h n, remote_ok db ((fun s => s h n) <$> storage)).
Definition stores_accounts : Prop := forall s h n i k c l a, storage = Some s -> s h n i k c = Ok (Some l) -> ti_name i = account_table a ->
  Forall (entry_is account_row) l.
(** The permission to deploy, as stored: nobody is named, or the senders are. *)
Definition stores_permission : Prop := forall s h n i c l num, storage = Some s -> s h n i SYS_TABLES c = Ok (Some l) -> ti_name i = SYS_ACCESS_TABLE ->
  match enabled_addresses num l with Ok l' => l' = [] \/ origins ⊆ l' | Throw _ => True end.
Context (Hrows : stores_accounts) (Hperm : stores_permission) (sha3_len : forall b, lenZ (sha3 b) = 32).

(** The senders [origins] may deploy: the table of tables says so, or it is not open
    yet and the permissions are as stored.  Nothing is asked of the permissions when
    there are none. *)
Definition all_allowed (i : TableInfo) : Prop := forall a, a ∈ origins -> checkAuthority a i = true.
Definition access_fresh (f : Factory) : Prop :=
  forall p, f_names f !! SYS_ACCESS_TABLE = Some p -> exists i h n, f_objs f !! p = Some (mkTableObj (newTable i) h n) /\ ti_name i = SYS_ACCESS_TABLE.
Definition permitted (f : Factory) : Prop :=
  match f_names f !! SYS_TABLES with
  | Some p => exists o, f_objs f !! p = Some o /\ all_allowed (mt_info (ob_table o))
  | None => access_fresh f
  end.
Definition permits (f : Factory) : Prop := origins = [] \/ permitted f.
Record node_ok (f : Factory) : Prop := {
  no_range : forall n p, f_names f !! n = Some p -> (p < length (f_objs f))%nat;
  no_inj : forall n n' p, f_names f !! n = Some p -> f_names f !! n' = Some p -> n = n';
  no_accounts : forall a p o, f_names f !! account_table a = Some p -> f_objs f !! p = Some o ->
    ti_name (mt_info (ob_table o)) = account_table a /\ all_rows account_row (ob_table o);
  no_log : Forall (fun c => change_is short (snd c)) (f_log f);
  no_sys : permits f
}.
Definition evolves (f f' : Factory) : Prop := grows db f f' /\ f_names f ⊆ f_names f'.
#[local] Instance evolves_preorder : PreOrder evolves.
Proof.
  split; [intros f; split; [reflexivity | done] |]. intros f1 f2 f3 [A B] [C D]. split; [by etransitivity | by etransitivity].
Qed.

Lemma sys_not_account a : account_table a <> SYS_TABLES.
Proof. intros E. apply (account_not_sys a). rewrite E. unfold m_sysTables. set_solver. Qed.
Lemma access_not_account a : account_table a <> SYS_ACCESS_TABLE.
Proof. intros E. apply (account_not_sys a). rewrite E. unfold m_sysTables. set_solver. Qed.

Lemma node_logged p o t ch f : node_ok f -> f_objs f !! p = Some o -> mt_info t = mt_info (ob_table o) ->
  (forall a, f_names f !! account_table a = Some p -> all_rows account_row t) ->
  (origins <> [] -> f_names f !! SYS_ACCESS_TABLE = Some p -> f_names f !! SYS_TABLES = None -> t = ob_table o) ->
  Forall (change_is short) (option_list ch) -> node_ok (logged p t ch f).
Proof.
  intros [Hr Hi Ha Hl Hsys] Ho Ei Ht Hacc Hc. unfold logged, set_obj. split; cbn.
  - intros n q'. rewrite length_alter. apply Hr.
  - done.
  - intros a q' o' Hn Ho'. destruct (decide (p = q')) as [<-|Hne].
    + rewrite list_lookup_alter_eq, Ho in Ho'. injection Ho' as <-. cbn. rewrite Ei. split; [by apply (Ha a p o) | by apply (Ht a)].
    + rewrite list_lookup_alter_ne in Ho' by done. by apply (Ha a q').
  - apply Forall_app. split; [done |]. by apply Forall_fmap.
  - destruct (decide (origins = [])) as [|Hne0]; [by left |]. destruct Hsys as [|Hsys]; [done | right].
    unfold permitted, access_fresh in *. cbn. destruct (f_names f !! SYS_TABLES) as [q|] eqn:Hq.
    + destruct Hsys as (oq & Hoq & Hs). destruct (decide (p = q)) as [<-|Hne].
      * exists (with_table t o). rewrite list_lookup_alter_eq, Ho. split; [done |]. cbn. rewrite Ei. rewrite Ho in Hoq. by injection Hoq as <-.
      * exists oq. by rewrite list_lookup_alter_ne.
    + intros q Hqa. destruct (Hsys q Hqa) as (i & h & n & Hobj & Hname). exists i, h, n. split; [| done]. destruct (decide (p = q)) as [<-|Hne].
      * rewrite list_lookup_alter_eq, Ho. rewrite Ho in Hobj. injection Hobj as ->. cbn. by rewrite (Hacc Hne0 Hqa eq_refl).
      * by rewrite list_lookup_alter_ne.
Qed.
Lemma logged_none p t f : logged p t None f = set_obj p t f.
Proof. unfold logged. cbn. rewrite app_nil_r. by destruct f. Qed.
Lemma node_add name o f : node_ok f -> f_names f !! name = None ->
  (forall a, name = account_table a -> ti_name (mt_info (ob_table o)) = name /\ all_rows account_row (ob_table o)) ->
  (name = SYS_TABLES -> all_allowed (mt_info (ob_table o))) ->
  (name = SYS_ACCESS_TABLE -> exists i h n, o = mkTableObj (newTable i) h n /\ ti_name i = name) -> node_ok (add_obj name o f).
Proof.
  intros [Hr Hi Ha Hl Hsys] Hn Ho Hsy Hac. unfold add_obj. split; cbn.
  - intros n p. rewrite length_app, lookup_insert_Some. cbn. intros [[_ <-]|[_ Hp]]; [lia |]. apply Hr in Hp. lia.
  - intros n n' p. rewrite !lookup_insert_Some. intros [[<- <-]|[Hne Hp]] [[<- E]|[Hne' Hp']]; try done; [apply Hr in Hp'; lia | apply Hr in Hp; lia | by apply (Hi n n' p)].
  - intros a p o'. rewrite lookup_insert_Some. intros [[-> <-]|[Hne Hp]].
    + rewrite lookup_app_r, Nat.sub_diag by done. intros [= <-]. exact (Ho a eq_refl).
    + rewrite lookup_app_l by by eapply Hr. by apply Ha.
  - done.
  - destruct Hsys as [|Hsys]; [by left | right]. unfold permitted, access_fresh in *. cbn. destruct (decide (name = SYS_TABLES)) as [->|Hns].
    + rewrite lookup_insert_eq. exists o. rewrite lookup_app_r, Nat.sub_diag by done. split; [done | by apply Hsy].
    + rewrite lookup_insert_ne by done. destruct (f_names f !! SYS_TABLES) as [q|] eqn:Hq.
      * destruct Hsys as (oq & Hoq & Hs). exists oq. split; [by apply lookup_app_l_Some | done].
      * intros q. rewrite lookup_insert_Some. intros [[E <-]|[Hne Hqa]].
        -- destruct (Hac E) as (i & h & n & -> & Hi'). exists i, h, n. rewrite lookup_app_r, Nat.sub_diag by done. split; [done | by rewrite <- E].
        -- destruct (Hsys q Hqa) as (i & h & n & Hobj & Hname). exists i, h, n. split; [by apply lookup_app_l_Some | done].
Qed.

(** *** Runs from a state *)
Definition sdoes {A} (R : A -> Factory -> Prop) (m : FE A) (f : Factory) : Prop :=
  node_ok (fst (m f)) /\ evolves f (fst (m f)) /\ match snd (m f) with Ok a => R a (fst (m f)) | Throw e => state_exn e end.
Lemma sdoes_bind {A B} (R : A -> Factory -> Prop) (R' : B -> Factory -> Prop) (m : FE A) (k : A -> FE B) f :
  sdoes R m f -> (forall a f1, node_ok f1 -> evolves f f1 -> R a f1 -> sdoes R' (k a) f1) -> sdoes R' (m ≫= k) f.
Proof.
  intros (Hn & He & Hr) Hk. unfold sdoes, mbind, SE_bind. destruct (m f) as [f1 [a|e]]; cbn in *; [| done].
  destruct (Hk a f1 Hn He Hr) as (Hn2 & He2 & Hr2). split; [done |]. split; [by etransitivity | done].
Qed.
Lemma sdoes_ret {A} (R : A -> Factory -> Prop) a f : node_ok f -> R a f -> sdoes R (mret a) f.
Proof. intros Hn Hr. split; [done |]. split; [cbn; reflexivity | done]. Qed.
Lemma sdoes_lift {A} (R : A -> Factory -> Prop) (r : result A) f : node_ok f -> match r with Ok a => R a f | Throw e => state_exn e end -> sdoes R (se_lift r) f.
Proof. intros Hn Hr. split; [done |]. split; [cbn; reflexivity | done]. Qed.
Lemma sdoes_mono {A} (R R' : A -> Factory -> Prop) (m : FE A) f :
  sdoes R m f -> (forall a f1, node_ok f1 -> evolves f f1 -> R a f1 -> R' a f1) -> sdoes R' m f.
Proof. intros (Hn & He & Hr) HR. split; [done |]. split; [done |]. destruct (m f) as [f1 [a|e]]; [by apply HR | done]. Qed.
Lemma sdoes_get {A} (R : A -> Factory -> Prop) (k : Factory -> FE A) f : sdoes R (k f) f -> sdoes R (se_get ≫= k) f.
Proof. done. Qed.
Lemma sdoes_ok {A B} (R : B -> Factory -> Prop) (m : FE A) (k : A -> FE B) a f : m f = (f, Ok a) -> sdoes R (k a) f -> sdoes R (m ≫= k) f.
Proof. intros E. unfold sdoes. by rewrite (se_bind_ok _ _ _ _ _ E). Qed.
Lemma sdoes_step {A B} (R : B -> Factory -> Prop) (m : FE A) (k : A -> FE B) a f f1 : m f = (f1, Ok a) -> evolves f f1 -> sdoes R (k a) f1 -> sdoes R (m ≫= k) f.
Proof. intros E He (H1 & H2 & H3). unfold sdoes. rewrite (se_bind_ok _ _ _ _ _ E). split; [done |]. split; [by etransitivity | done]. Qed.
Lemma sdoes_does {A} (R : A -> Prop) (m : FE A) : (forall f, node_ok f -> sdoes (fun a _ => R a) m f) -> does node_ok evolves R m.
Proof. intros Hm f Hf. by apply Hm. Qed.

(** *** Tables *)
Lemma stored_account a o : ti_name (mt_info (ob_table o)) = account_table a -> stored_rows account_row (remote_of storage o) (mt_info (ob_table o)).
Proof.
  intros Hn r k c l Hr. unfold remote_of in Hr. destruct storage as [s|] eqn:Es; [| done]. injection Hr as <-. intros Hl. by eapply (Hrows s).
Qed.

Lemma evolves_logged p t ch f : grows db f (logged p t ch f) -> evolves f (logged p t ch f).
Proof. intros Hg. split; [done |]. unfold logged, set_obj. done. Qed.

(** What a selection returns from the table of an account. *)
Definition rows_from (f : Factory) (p : nat) (l : list Entry) : Prop := forall a, f_names f !! account_table a = Some p -> Forall (entry_is account_row) l.
Lemma select_does p k c f : node_ok f -> (p < length (f_objs f))%nat ->
  sdoes (fun l f' => rows_from f p l /\ f_names f' = f_names f /\ f_log f' = f_log f /\ length (f_objs f') = length (f_objs f)) (t_select storage p k c) f.
Proof.
  intros Hn Hp. pose proof (t_select_grows db storage Hstorage p k c f) as Hg. unfold sdoes, t_select, at_table in *. rewrite se_bind_get in *.
  destruct (lookup_lt_is_Some_2 (f_objs f) p Hp) as [o Ho]. rewrite Ho in *. unfold table_select in *.
  destruct (selectNoLock (remote_of storage o) k c (ob_table o)) as [t l] eqn:Es. rewrite se_bind_mod in *. cbn [fst snd mret SE_ret] in *.
  assert (Hinfo : mt_info t = mt_info (ob_table o)).
  { unfold selectNoLock in Es. destruct (remote_of storage o) as [r|]; [destruct (r _ _ _) as [[rows|]|] |]; try (by injection Es as <- _); unfold select_news in Es; injection Es as <- _; apply index_info. }
  assert (Hsel : forall a, f_names f !! account_table a = Some p -> all_rows account_row t /\ Forall (fun le => entry_is account_row (snd le)) l).
  { intros a Ha. destruct (no_accounts _ Hn a p o Ha Ho) as [Hname Hall]. destruct (select_rows account_row (remote_of storage o) k c (ob_table o) t l (stored_account a o Hname) Hall Es) as (? & ? & ?). done. }
  split_and!.
  - rewrite <- logged_none. apply (node_logged p o); try done; [intros a Ha; by apply (Hsel a) |]. intros Hne0 Hacc Hsys.
    destruct (no_sys _ Hn) as [|Hp']; [done |]. unfold permitted in Hp'. rewrite Hsys in Hp'. destruct (Hp' p Hacc) as (i & h & n & Hobj & _). rewrite Ho in Hobj. injection Hobj as ->.
    pose proof (select_new_same (remote_of storage (mkTableObj (newTable i) h n)) k c i) as Esame. unfold table_select in Esame. cbn [ob_table] in Es |- *. by rewrite Es in Esame.
  - by split.
  - intros a Ha. apply Forall_fmap. by apply (Hsel a).
  - done.
  - done.
  - cbn. apply length_alter.
Qed.

Lemma insert_does p k fs opt f : node_ok f -> (p < length (f_objs f))%nat ->
  (forall a o, f_names f !! account_table a = Some p -> f_objs f !! p = Some o -> account_row (<[ti_key (mt_info (ob_table o)) := k]> fs)) ->
  (origins <> [] -> f_names f !! SYS_ACCESS_TABLE <> Some p) ->
  sdoes (fun _ f' => f_names f' = f_names f) (t_insert p k fs false opt) f.
Proof.
  intros Hn Hp Hfs Hna. pose proof (t_insert_grows db p k fs false opt f) as Hg. unfold sdoes, t_insert, at_table in *. rewrite se_bind_get in *.
  destruct (lookup_lt_is_Some_2 (f_objs f) p Hp) as [o Ho]. rewrite Ho in Hg |- *.
  assert (Hv : short []) by (unfold short; rewrite lenZ_nil; lia).
  pose proof (fun a Ha => insert_all account_row short k fs false opt (ob_table o) (proj2 (no_accounts _ Hn a p o Ha Ho)) (Hfs a o Ha Ho) Hv) as Hall.
  assert (Hany : let '(t, ch, _) := table_insert k fs false opt (ob_table o) in mt_info t = mt_info (ob_table o) /\ Forall (change_is short) (option_list ch)).
  { unfold table_insert. destruct (denied _ _); [split; [done | constructor] |]. destruct (negb _); [split; [done | constructor] |]. split; [done |]. repeat constructor; done. }
  destruct (table_insert k fs false opt (ob_table o)) as [[t ch] n]. rewrite se_bind_mod in *. cbn [fst snd mret SE_ret] in *. destruct Hany as [Hi Hc].
  split_and!; [| by apply evolves_logged | done]. apply (node_logged p o); try done; [intros a Ha; by apply (Hall a) |].
  intros Hne Hacc. by destruct (Hna Hne).
Qed.

Lemma update_does p k fs f : node_ok f -> (p < length (f_objs f))%nat -> (exists a, f_names f !! account_table a = Some p) ->
  map_Forall (fun k v => (k = STORAGE_KEY \/ k = STORAGE_VALUE) /\ short v) fs ->
  sdoes (fun _ f' => f_names f' = f_names f) (t_update storage p k fs newCondition noOptions) f.
Proof.
  intros Hn Hp (a & Ha) Hfs. destruct (lookup_lt_is_Some_2 (f_objs f) p Hp) as [o Ho]. destruct (no_accounts _ Hn a p o Ha Ho) as [Hname Hall].
  pose proof (stored_account a o Hname) as Hst.
  assert (Hop : op_ok storage p (TUpdate k fs newCondition noOptions) f).
  { unfold op_ok. rewrite Ho. cbn. destruct (selectNoLock (remote_of storage o) k newCondition (ob_table o)) as [t l] eqn:Es.
    destruct (select_rows account_row (remote_of storage o) k newCondition (ob_table o) t l Hst Hall Es) as (_ & _ & Hl). eapply Forall_impl; [exact Hl |].
    intros [loc e] (Hk & Hv & _). apply Forall_forall. intros [k' v] Hin. unfold written_fields in Hin. apply list_elem_of_In, filter_In in Hin as [Hin _].
    apply list_elem_of_In, elem_of_in_order in Hin. by destruct (Hfs k' v Hin) as [[-> | ->] _]. }
  pose proof (f_step_grows db storage Hstorage p _ f Hop) as Hg. cbn [f_step] in Hg. unfold sdoes, t_update, at_table in *. rewrite se_bind_assoc, se_bind_get in Hg. rewrite se_bind_get. rewrite Ho in *.
  assert (Hv : map_Forall (fun _ v => short v) fs) by (intros k' v Hkv; by apply (Hfs k')).
  pose proof (update_all account_row short account_row_insert (remote_of storage o) account_row_old k fs newCondition noOptions (ob_table o) Hst Hall Hv) as Hup.
  destruct (table_update (remote_of storage o) k fs newCondition noOptions (ob_table o)) as [[t ch] n]. destruct Hup as (Hr & Hi & Hc).
  rewrite se_bind_mod in *. cbn [fst snd mret SE_ret] in *. split_and!; [| by apply evolves_logged | done]. apply (node_logged p o); try done. intros _ Hacc _. destruct (access_not_account a). by apply (no_inj _ Hn _ _ p).
Qed.

(** *** Opening tables *)
Definition sys_name (n : chars) : Prop := n = SYS_TABLES \/ n = SYS_ACCESS_TABLE.
(** Nothing but system tables was opened. *)
Definition others (f f' : Factory) : Prop := forall n, ~ sys_name n -> f_names f' !! n = f_names f !! n.
Lemma account_not_sys_name a : ~ sys_name (account_table a).
Proof. intros [E|E]; [by apply (sys_not_account a) | by apply (access_not_account a)]. Qed.
Lemma others_trans f1 f2 f3 : others f1 f2 -> others f2 f3 -> others f1 f3.
Proof. intros A B n Hn. by rewrite B, A. Qed.

Lemma register_does name i h n f : node_ok f -> f_names f !! name = None -> (forall a, name = account_table a -> ti_name i = name) ->
  (name = SYS_TABLES -> all_allowed i) -> (name = SYS_ACCESS_TABLE -> ti_name i = name) ->
  sdoes (fun r f' => exists p, r = Some p /\ f_names f' = <[name := p]> (f_names f)) (register name (mkTableObj (newTable i) h n)) f.
Proof.
  intros Hn Hnone Hi Hsy Hac. pose proof (register_new db name i h n f) as Hg. unfold sdoes, register in *. rewrite se_bind_get, se_bind_mod in *. cbn [fst snd mret SE_ret] in *.
  split_and!.
  - apply node_add; try done; [intros a Ea; split; [by apply (Hi a) | apply all_rows_new] |]. intros E. exists i, h, n. split; [done | by apply Hac].
  - split; [done |]. cbn. by apply insert_subseteq.
  - by eexists.
Qed.

Lemma enabled_tame num l : match enabled_addresses num l with Ok _ => True | Throw e => state_exn e end.
Proof.
  induction l as [|e l IH]; cbn; [done |]. destruct (stoi _) as [z|]; [| done]. destruct (z <=? num); [| done]. unfold mbind, result_bind.
  destruct (fromHex (getField address_field e) ThrowOnBad) as [b|ec] eqn:Eh.
  - destruct (enabled_addresses num l); done.
  - unfold fromHex in Eh. repeat case_match; simplify_eq; done.
Qed.
(** The access table, where it is; the table of tables stays as it is. *)
Definition access_open (f : Factory) (r : option nat) (f' : Factory) : Prop :=
  (forall n, n <> SYS_ACCESS_TABLE -> f_names f' !! n = f_names f !! n) /\ exists p, r = Some p /\ f_names f' !! SYS_ACCESS_TABLE = Some p.
Lemma access_does b f : node_ok f -> sdoes (access_open f) (open_access storage b) f.
Proof.
  intros Hn. unfold open_access, find_table. apply sdoes_get. destruct (f_names f !! SYS_ACCESS_TABLE) as [p|] eqn:Ep.
  { apply sdoes_ret; [done |]. split; [done | by exists p]. }
  apply sdoes_get. cbv zeta. set (i := with_sys_fields _).
  assert (Hreg : forall i', ti_name i' = SYS_ACCESS_TABLE -> sdoes (access_open f) (register SYS_ACCESS_TABLE (mkTableObj (newTable i') (f_blockHash f) (f_blockNum f))) f).
  { intros i' Hi'. eapply sdoes_mono; [apply register_does; try done; intros a Ea; by destruct (access_not_account a) |].
    cbn beta. intros r f' Hn' He (p & -> & E). split; [intros n Hne; rewrite E; by apply lookup_insert_ne |]. exists p. split; [done |]. rewrite E. apply lookup_insert_eq. }
  destruct b; [| by apply Hreg]. unfold fresh_obj. cbn [ob_table]. pose proof (select_new_same (remote_of storage (mkTableObj (newTable i) (f_blockHash f) (f_blockNum f))) SYS_ACCESS_TABLE newCondition i) as Es.
  destruct (table_select _ SYS_ACCESS_TABLE newCondition (newTable i)) as [t l]. cbn [fst] in Es. subst t.
  pose proof (enabled_tame (f_blockNum f) l) as Ht. destruct (enabled_addresses (f_blockNum f) l) as [addrs|e].
  - eapply sdoes_ok; [done |]. by apply (Hreg (with_authorized addrs i)).
  - apply (sdoes_lift _ (Throw e)); done.
Qed.

(** The stored permissions of a table. *)
Lemma select_stored_rows p i h n k f l : f_objs f !! p = Some (mkTableObj (newTable i) h n) -> snd (t_select storage p k newCondition f) = Ok l ->
  l = [] \/ exists s c, storage = Some s /\ s h n i k c = Ok (Some l).
Proof.
  intros Ho. unfold t_select, at_table. rewrite se_bind_get, Ho. unfold table_select, selectNoLock, remote_of. cbn [ob_table ob_hash ob_num newTable mt_info].
  set (c := EQ (ti_key i) k newCondition).
  assert (Hfin : forall rows, (let '(t, news) := select_news k c (newTable i) in (t, if (0 <=? getOffset c) && (0 <=? getCount c) then proccessLimit c (rows ++ news) else rows ++ news)) = (newTable i, rows)).
  { intros rows. unfold select_news, index_news, new_at. cbn. rewrite lookup_empty. cbn. unfold processEntries. cbn. destruct (cond_empty c); by rewrite app_nil_r. }
  destruct storage as [s|] eqn:Es; cbn [fmap option_fmap option_map].
  - destruct (s h n i k c) as [[rows|]|] eqn:Er; [| intros [= <-]; by left ..]. change (mt_info (newTable i)) with i in *. rewrite Hfin. cbn. intros [= <-]. right. exists s, c. split; [done |].
    rewrite Er. do 2 f_equal. unfold remote_rows. rewrite map_map. rewrite <- (map_id rows) at 1. apply map_ext. intros e. cbn. try rewrite lookup_empty. done.
  - rewrite Hfin. cbn. intros [= <-]. by left.
Qed.

Lemma setAuthorized_does i f : node_ok f ->
  sdoes (fun i' f' => ti_name i' = ti_name i /\ (forall n, n <> SYS_ACCESS_TABLE -> f_names f' !! n = f_names f !! n) /\
    (ti_name i = SYS_TABLES -> f_names f !! SYS_TABLES = None -> ti_authorized i = [] -> all_allowed i')) (setAuthorizedAddress storage i) f.
Proof.
  intros Hn. unfold setAuthorizedAddress. eapply sdoes_bind; [by apply access_does |]. intros r f1 Hn1 _ (Ho & p & -> & Hp).
  pose proof (select_does p (ti_name i) newCondition f1 Hn1 ltac:(by eapply no_range)) as Hsel.
  destruct (t_select storage p (ti_name i) newCondition f1) as [f2 [l|e]] eqn:Esel; [| destruct Hsel as (? & ? & ?); rewrite Esel in *; unfold sdoes, mbind, SE_bind; rewrite Esel; done].
  unfold sdoes in Hsel. rewrite Esel in Hsel. cbn in Hsel. destruct Hsel as (Hn2 & He2 & _ & En & _).
  assert (Hl : ti_name i = SYS_TABLES -> f_names f !! SYS_TABLES = None -> match enabled_addresses (f_blockNum f2) l with Ok l' => l' = [] \/ origins ⊆ l' | Throw _ => True end).
  { intros Ei Hnone. destruct (no_sys _ Hn1) as [E0|Hper]; [destruct (enabled_addresses _ _); [right; rewrite E0; apply list_subseteq_nil | done] |]. unfold permitted in Hper. rewrite Ho, Hnone in Hper by done. destruct (Hper p Hp) as (ia & h & n & Hobj & Hname).
    destruct (select_stored_rows p ia h n (ti_name i) f1 l Hobj) as [->|(s & c & Es & Er)]; [by rewrite Esel | by left |]. rewrite Ei in Er. by eapply Hperm. }
  assert (Hres : sdoes (fun i' f' => ti_name i' = ti_name i /\ (forall n, n <> SYS_ACCESS_TABLE -> f_names f' !! n = f_names f !! n) /\
    (ti_name i = SYS_TABLES -> f_names f !! SYS_TABLES = None -> ti_authorized i = [] -> all_allowed i'))
    (f ← se_get; addrs ← se_lift (enabled_addresses (f_blockNum f) l); mret (with_authorized addrs i)) f2).
  { apply sdoes_get. pose proof (enabled_tame (f_blockNum f2) l) as Ht. destruct (enabled_addresses (f_blockNum f2) l) as [addrs|e]; [| by apply (sdoes_lift _ (Throw e))].
    eapply sdoes_ok; [done |]. apply sdoes_ret; [done |]. split; [done |]. split; [intros n Hne; rewrite En; by apply Ho |].
    intros Ei Hnone Ea a Ha. unfold checkAuthority. cbn. rewrite Ea. cbn. destruct addrs as [|x addrs]; [done |]. apply bool_decide_eq_true_2. destruct (Hl Ei Hnone) as [|Hsub]; [done | by apply Hsub]. }
  by eapply sdoes_step.
Qed.
Lemma open_with_does name b i0 f : node_ok f -> f_names f !! name = None -> name <> SYS_ACCESS_TABLE -> (forall a, name = account_table a -> ti_name i0 = name) ->
  (name = SYS_TABLES -> ti_name i0 = name /\ ti_authorized i0 = []) ->
  sdoes (fun r f' => (exists p, r = Some p /\ f_names f' !! name = Some p) /\ forall n, n <> name -> n <> SYS_ACCESS_TABLE -> f_names f' !! n = f_names f !! n) (open_with storage name b i0) f.
Proof.
  intros Hn Hnone Hne Hi Hsy. unfold open_with. apply sdoes_get. cbv zeta. unfold fresh_obj. cbn [ob_table].
  eapply (sdoes_bind (fun i' f' => ti_name i' = ti_name i0 /\ (forall n, n <> SYS_ACCESS_TABLE -> f_names f' !! n = f_names f !! n) /\ (name = SYS_TABLES -> all_allowed i'))).
  - destruct b.
    + eapply sdoes_mono; [by apply (setAuthorized_does (with_sys_fields i0)) |]. cbn beta. intros i' f1 _ _ (H1 & H2 & H3). split; [done |]. split; [done |].
      intros ->. destruct (Hsy eq_refl). by apply H3.
    + apply sdoes_ret; [done |]. split; [done |]. split; [done |]. intros -> a _. destruct (Hsy eq_refl) as [_ Ea]. unfold checkAuthority. cbn. by rewrite Ea.
  - intros i' f1 Hn1 _ (Et & Ho & Hc). eapply sdoes_mono; [apply (register_does name i'); try done|]; cbn beta.
    + by rewrite Ho.
    + intros a Ea. rewrite Et. by apply (Hi a).
    + intros r f2 _ _ (p & -> & E). split; [exists p; rewrite E; split; [done | apply lookup_insert_eq] |].
      intros n Hn1' Hn2. rewrite E, lookup_insert_ne by done. by apply Ho.
Qed.

(** The table of tables. *)
Lemma sys_does b f : node_ok f ->
  sdoes (fun r f' => (exists p, r = Some p /\ f_names f' !! SYS_TABLES = Some p) /\ others f f') (open_sys storage SYS_TABLES b) f.
Proof.
  intros Hn. unfold open_sys. rewrite bool_decide_false by done. unfold find_table. apply sdoes_get. destruct (f_names f !! SYS_TABLES) as [p|] eqn:Ep.
  - apply sdoes_ret; [done |]. split; [by exists p | done].
  - eapply sdoes_mono; [apply open_with_does; try done; intros a Ea; by destruct (sys_not_account a) |]. cbn beta. intros r f' _ _ [Hp Ho]. split; [done |].
    intros n Hs. apply Ho; intros ->; apply Hs; [by left | by right].
Qed.
Lemma sys_open_does b f : node_ok f ->
  sdoes (fun r f' => (exists p, r = Some p /\ f_names f' !! SYS_TABLES = Some p) /\ others f f') (openTable storage SYS_TABLES b) f.
Proof. intros Hn. unfold openTable. rewrite bool_decide_true by (unfold m_sysTables; set_solver). by apply sys_does. Qed.
Lemma sys_no_other p f : node_ok f -> f_names f !! SYS_TABLES = Some p -> (forall a, f_names f !! account_table a <> Some p) /\ f_names f !! SYS_ACCESS_TABLE <> Some p.
Proof.
  intros Hn Hp. split; [intros a Ha; apply (sys_not_account a); by apply (no_inj _ Hn _ _ p) |]. intros Ha. by pose proof (no_inj _ Hn _ _ p Ha Hp).
Qed.

Definition opened (a : Address) (r : option nat) (f : Factory) : Prop := match r with Some p => f_names f !! account_table a = Some p | None => True end.
Lemma open_account a b f : node_ok f -> sdoes (opened a) (openTable storage (account_table a) b) f.
Proof.
  intros Hn. unfold openTable. rewrite bool_decide_false by apply account_not_sys. unfold find_table. apply sdoes_get.
  destruct (f_names f !! account_table a) as [p|] eqn:Ep; [by apply sdoes_ret |].
  eapply sdoes_bind; [by apply sys_does |]. cbn beta. intros r f0 Hn0 _ [(q & -> & Hq) Ho].
  eapply sdoes_bind; [apply select_does; [done | by eapply no_range] |]. cbn beta. intros l f1 Hn1 _ (_ & En & _). destruct l as [|e l]; [by apply sdoes_ret |].
  eapply sdoes_mono; [apply open_with_does; try done; by rewrite En, Ho by apply account_not_sys_name |].
  cbn beta. by intros r f2 _ _ [(p & -> & Hp) _].
Qed.
Lemma create_account a f : node_ok f ->
  sdoes (opened a) (createTable storage (account_table a) STORAGE_KEY STORAGE_VALUE false ZeroAddress) f.
Proof.
  intros Hn. unfold createTable. eapply sdoes_bind; [by apply sys_open_does |]. cbn beta. intros r f0 Hn0 _ [(q & -> & Hq) _].
  eapply sdoes_bind; [apply select_does; [done | by eapply no_range] |]. cbn beta. intros l f1 Hn1 _ (_ & En & _). destruct l as [|e l]; [| by apply sdoes_ret].
  rewrite <- En in Hq. destruct (sys_no_other q f1 Hn1 Hq) as [Hna Hac].
  eapply sdoes_bind; [apply insert_does; [done | by eapply no_range | | done] |].
  - intros a' o' Ha'. by destruct (Hna a').
  - cbn beta. intros r f2 Hn2 _ En2. destruct (r =? CODE_NO_AUTHORIZED); [by apply sdoes_lift | by apply open_account].
Qed.

(** *** Values of accounts *)
Definition account_at (p : nat) (f : Factory) : Prop := exists a, f_names f !! account_table a = Some p.
Lemma account_evolves p f f' : evolves f f' -> account_at p f -> account_at p f'.
Proof. intros [_ Hs] [a Ha]. exists a. by eapply lookup_weaken. Qed.
Lemma account_range p f : node_ok f -> account_at p f -> (p < length (f_objs f))%nat.
Proof. intros Hn [a Ha]. by eapply no_range. Qed.

Lemma account_not_access p f : node_ok f -> account_at p f -> f_names f !! SYS_ACCESS_TABLE <> Some p.
Proof. intros Hn [a Ha] Hp. apply (access_not_account a). by apply (no_inj _ Hn _ _ p). Qed.

Lemma radix_word radix s acc n : u256 acc -> radix_val radix s acc = Some n -> u256 n.
Proof.
  revert acc. induction s as [|c s IH]; intros acc Ha; cbn; [by intros [= <-] |]. destruct (radix_digit radix c) as [v|]; [| done].
  cbn. apply IH, u256_wrap.
Qed.
Lemma parse_word s : match parse_u256 s with Ok n => u256 n | Throw e => state_exn e end.
Proof.
  assert (Hm : forall s n, u256_magnitude s = Some n -> u256 n).
  { intros s' n. unfold u256_magnitude. repeat case_match; try (by apply radix_word, u256_0); intros [= <-]; apply u256_0. }
  unfold parse_u256. destruct (u256_of_string s) as [n|] eqn:E; [| done]. unfold u256_of_string in E.
  repeat case_match; try (by eapply Hm). destruct (u256_magnitude _) as [v|]; [| done]. injection E as <-. apply u256_wrap.
Qed.

Lemma first_does p k f : node_ok f -> account_at p f -> sdoes (fun v f' => from_option short True v /\ f_log f' = f_log f) (first_value storage p k) f.
Proof.
  intros Hn Hp. unfold first_value. eapply sdoes_bind; [apply select_does; [done | by apply account_range] |]. cbn beta.
  intros l f1 Hn1 _ (Hl & _ & Hlog & _). apply sdoes_ret; [done |]. split; [| done]. destruct l as [|e l]; [done |]. cbn. destruct Hp as [a Ha].
  pose proof (Hl a Ha) as Hall. apply Forall_cons in Hall as [He _]. by apply account_row_old.
Qed.
Lemma update_value_does p k v f : node_ok f -> account_at p f -> short v -> sdoes (fun _ _ => True) (update_value storage p k v) f.
Proof.
  intros Hn Hp Hv. unfold update_value. eapply sdoes_bind; [apply update_does; try done; [by apply account_range |] | intros; by apply sdoes_ret].
  unfold value_row. apply map_Forall_insert_2; [split; [by right | done] | apply map_Forall_empty].
Qed.
Lemma key_value_fields k v : short k -> short v -> map_Forall (fun k v => (k = STORAGE_KEY \/ k = STORAGE_VALUE) /\ short v) (key_value_row k v).
Proof.
  intros Hk Hv. unfold key_value_row. apply map_Forall_insert_2; [split; [by left | done] |]. apply map_Forall_insert_2; [split; [by right | done] | apply map_Forall_empty].
Qed.
Lemma insert_value_does p k v f : node_ok f -> account_at p f -> short k -> short v -> sdoes (fun _ _ => True) (insert_value p k v) f.
Proof.
  intros Hn Hp Hk Hv. unfold insert_value. eapply sdoes_bind; [apply insert_does; try done; [by apply account_range | | intros _; by apply account_not_access] | intros; by apply sdoes_ret].
  intros a o Ha Ho. apply account_row_insert; [| done]. unfold key_value_row. split_and!; [by apply lookup_insert_is_Some'; left | apply lookup_insert_is_Some'; right; apply lookup_insert_is_Some'; by left |].
  apply map_Forall_insert_2; [done |]. apply map_Forall_insert_2; [done | apply map_Forall_empty].
Qed.

Lemma opened_account a p f : opened a (Some p) f -> account_at p f.
Proof. intros Hp. by exists a. Qed.
(** Opens the table of an account and works on it. *)
Lemma with_account {A} (R : A -> Factory -> Prop) a (none : FE A) (some : nat -> FE A) f : node_ok f ->
  (forall f1, node_ok f1 -> evolves f f1 -> sdoes R none f1) -> (forall p f1, node_ok f1 -> evolves f f1 -> account_at p f1 -> sdoes R (some p) f1) ->
  sdoes R (t ← getTable storage a; match t with None => none | Some p => some p end) f.
Proof.
  intros Hn H0 H1. eapply sdoes_bind; [by apply open_account |]. intros [p|] f1 Hn1 He Hp; [| by apply H0]. apply H1; try done. by exists a.
Qed.
Lemma read_does a k d f : node_ok f -> u256 d -> sdoes (fun n _ => u256 n) (read_u256 storage a k d) f.
Proof.
  intros Hn Hd. unfold read_u256. apply with_account; [done | intros; by apply sdoes_ret |]. intros p f1 Hn1 _ Hp.
  eapply sdoes_bind; [by apply first_does |]. cbn beta. intros [s|] f2 Hn2 _ [Hs _]; [| by apply sdoes_ret]. apply sdoes_lift; [done | apply parse_word].
Qed.
Lemma change_does p k g f : node_ok f -> account_at p f -> (forall n, u256 n -> match g n with Ok m => u256 m | Throw e => state_exn e end) ->
  sdoes (fun _ _ => True) (change_balance storage p k g) f.
Proof.
  intros Hn Hp Hg. unfold change_balance. eapply sdoes_bind; [by apply first_does |]. cbn beta. intros [s|] f2 Hn2 He2 _; [| by apply sdoes_ret].
  eapply (sdoes_bind (fun n f' => u256 n /\ f' = f2)); [apply sdoes_lift; [done |]; pose proof (parse_word s) as Hw; by destruct (parse_u256 s) |].
  intros n f3 _ _ [Hw ->]. eapply (sdoes_bind (fun m f' => u256 m /\ f' = f2)); [apply sdoes_lift; [done |]; specialize (Hg n Hw); by destruct (g n) |].
  intros m f3 _ _ [Hm ->]. apply update_value_does; [done | by eapply account_evolves | by apply short_dec].
Qed.

(** *** Code *)
Lemma hex_digit_range c : fromHexChar c = -1 \/ 0 <= fromHexChar c < 16.
Proof. unfold fromHexChar. repeat case_match; bool_to_prop; lia. Qed.
Lemma fromHex_pairs_ok n : forall s, (length s <= n)%nat -> match fromHex_pairs s with Some b => bytes_ok b /\ lenZ b <= lenZ s | None => True end.
Proof.
  induction n as [|n IH]; intros [|h [|l s]] Hn; cbn [fromHex_pairs length] in *; try lia; try (split; [constructor | unfold lenZ; cbn; lia]).
  destruct (_ && _); [| done]. cbn. specialize (IH s ltac:(lia)). destruct (fromHex_pairs s) as [b|]; [| done]. destruct IH as [Hb Hl]. cbn. split.
  - constructor; [| done]. apply (wrap_range 8). lia.
  - unfold lenZ in *. cbn [length]. lia.
Qed.
Lemma fromHex_ok s : match fromHex s DontThrow with Ok b => bytes_ok b /\ lenZ b <= lenZ s | Throw _ => False end.
Proof.
  assert (Hnil : bytes_ok [] /\ lenZ ([] : bytes) <= lenZ s) by (split; [apply Forall_nil_2 | pose proof (lenZ_nonneg s); rewrite lenZ_nil; lia]).
  unfold fromHex. set (body := if starts_0x s then drop 2 s else s).
  assert (Hbody : lenZ body <= lenZ s) by (unfold body; destruct (starts_0x s); [unfold lenZ; rewrite length_drop; lia | lia]).
  destruct (Z.odd (lenZ s)).
  - destruct body as [|c rest]; [done |]. destruct (Z.eqb_spec (fromHexChar c) (-1)) as [|Hne]; [done |].
    pose proof (fromHex_pairs_ok (length rest) rest ltac:(done)) as Hp. destruct (fromHex_pairs rest) as [b|]; [| done]. destruct Hp as [Hb Hl].
    destruct (hex_digit_range c) as [|Hc]; [done |]. split; [constructor; [unfold is_byte; lia | done] |]. unfold lenZ in *. cbn [length] in *. lia.
  - pose proof (fromHex_pairs_ok (length body) body ltac:(done)) as Hp. destruct (fromHex_pairs body) as [b|]; [| done]. destruct Hp. split; [done | lia].
Qed.

Lemma hash_does a f : node_ok f -> sdoes (fun _ _ => True) (codeHash storage a) f.
Proof.
  intros Hn. unfold codeHash. apply with_account; [done | intros; by apply sdoes_ret |]. intros p f1 Hn1 _ Hp.
  eapply sdoes_bind; [by apply first_does |]. cbn beta. intros [s|] f2 Hn2 _ _; [| by apply sdoes_ret].
  eapply (sdoes_bind (fun _ _ => True)); [apply sdoes_lift; [done |]; pose proof (fromHex_ok s); by destruct (fromHex s DontThrow) |]. intros. by apply sdoes_ret.
Qed.
Lemma hasCode_does a f : node_ok f -> sdoes (fun _ _ => True) (addressHasCode storage a) f.
Proof.
  intros Hn. unfold addressHasCode. apply with_account; [done | intros; by apply sdoes_ret |]. intros p f1 Hn1 _ Hp.
  eapply sdoes_bind; [by apply first_does |]. cbn beta. intros [s|] f2 Hn2 _ _; [| by apply sdoes_ret].
  eapply (sdoes_bind (fun _ _ => True)); [apply sdoes_lift; [done |]; pose proof (fromHex_ok s); by destruct (fromHex s DontThrow) |]. intros. by apply sdoes_ret.
Qed.
Lemma exists_does a f : node_ok f -> sdoes (fun _ _ => True) (accountNonemptyAndExisting storage start a) f.
Proof.
  intros Hn. unfold accountNonemptyAndExisting, balance, getNonce. apply with_account; [done | intros; by apply sdoes_ret |]. intros p f1 Hn1 _ _.
  eapply sdoes_bind; [apply read_does; [done | apply u256_0] |]. cbn beta. intros b f2 Hn2 _ _. destruct (0 <? b); [by apply sdoes_ret |].
  eapply sdoes_bind; [by apply hash_does |]. intros h f3 Hn3 _ _. destruct (negb _); [by apply sdoes_ret |].
  eapply sdoes_bind; [by apply read_does |]. intros n f4 Hn4 _ _. by apply sdoes_ret.
Qed.
Lemma code_does a f : node_ok f -> sdoes (fun c _ => out_ok c) (ss_code storage a) f.
Proof.
  intros Hn. unfold ss_code. eapply sdoes_bind; [by apply hash_does |]. intros h f1 Hn1 _ _. destruct (bool_decide _); [apply sdoes_ret; [done | apply out_ok_nil] |].
  apply with_account; [done | intros; apply sdoes_ret; [done | apply out_ok_nil] |]. intros p f2 Hn2 _ Hp.
  eapply sdoes_bind; [by apply first_does |]. cbn beta. intros [s|] f3 Hn3 _ [Hs _]; [| apply sdoes_ret; [done | apply out_ok_nil]].
  apply sdoes_lift; [done |]. pose proof (fromHex_ok s) as Hf. destruct (fromHex s DontThrow) as [b|]; [| done]. destruct Hf as [Hb Hl].
  split; [cbn in Hs; unfold short in Hs; lia | done].
Qed.

(** *** Accounts that are created and changed *)
Ltac short_const := unfold short; vm_compute; reflexivity.
Lemma short_hash b : short (toHex [] (sha3 b)).
Proof. unfold short. rewrite toHex_even, sha3_len. lia. Qed.
Lemma createAccount_does a n amount f : node_ok f -> u256 n -> u256 amount -> sdoes (fun _ _ => True) (createAccount storage a n amount) f.
Proof.
  intros Hn Hw Ha. unfold createAccount. eapply sdoes_bind; [by apply create_account |]. intros [p|] f1 Hn1 _ Hp; [| by apply sdoes_ret].
  assert (Hat : account_at p f1) by by exists a. clear Hp Hn f.
  assert (Hseq : forall k v (m : FE unit), short k -> short v -> (forall f, node_ok f -> account_at p f -> sdoes (fun _ _ => True) m f) ->
    forall f, node_ok f -> account_at p f -> sdoes (fun _ _ => True) (insert_value p k v;; m) f).
  { intros k v m Hk Hv Hm f Hn Hpf. eapply sdoes_bind; [by apply insert_value_does |]. intros [] f2 Hn2 He2 _. apply Hm; [done | by eapply account_evolves]. }
  revert f1 Hn1 Hat. apply Hseq; [short_const | by apply short_dec |]. apply Hseq; [short_const | apply short_hash |].
  apply Hseq; [short_const | short_const |]. apply Hseq; [short_const | by apply short_dec |]. intros f Hn Hpf. apply insert_value_does; try done; short_const.
Qed.
Lemma startNonce_does f : node_ok f -> sdoes (fun n f' => u256 n /\ f' = f) (se_lift (requireAccountStartNonce start)) f.
Proof. intros Hn. apply sdoes_lift; [done |]. unfold requireAccountStartNonce. by destruct (start =? Invalid256). Qed.
Lemma add_does a v f : node_ok f -> u256 v -> sdoes (fun _ _ => True) (addBalance storage start a v) f.
Proof.
  intros Hn Hv. unfold addBalance. destruct (v =? 0); [by apply sdoes_ret |]. apply with_account; [done | |].
  - intros f1 Hn1 _. eapply sdoes_bind; [by apply startNonce_does |]. cbn beta. intros n f2 Hn2 _ [Hw ->]. by apply createAccount_does.
  - intros p f1 Hn1 _ Hp. apply change_does; try done. intros n Hw. apply u256_wrap.
Qed.
Lemma sub_does a v f : node_ok f -> u256 v -> sdoes (fun _ _ => True) (subBalance storage a v) f.
Proof.
  intros Hn Hv. unfold subBalance. apply with_account; [done | intros; by apply sdoes_lift |].
  intros p f1 Hn1 _ Hp. apply change_does; try done. intros n Hw. destruct (Z.ltb_spec n v); [done |]. unfold u256 in *. lia.
Qed.
Lemma transfer_does a b v f : node_ok f -> u256 v -> sdoes (fun _ _ => True) (transferBalance storage start a b v) f.
Proof. intros Hn Hv. unfold transferBalance. eapply sdoes_bind; [by apply sub_does |]. intros [] f1 Hn1 _ _. by apply add_does. Qed.
Lemma setStorage_does a k v f : node_ok f -> u256 k -> u256 v -> sdoes (fun _ _ => True) (setStorage storage a k v) f.
Proof.
  intros Hn Hk Hv. unfold setStorage. apply with_account; [done | intros; by apply sdoes_ret |]. intros p f1 Hn1 _ Hp.
  eapply sdoes_bind; [apply select_does; [done | by apply account_range] |]. cbn beta. intros l f2 Hn2 He2 _.
  assert (Hp2 : account_at p f2) by by eapply account_evolves. destruct l as [|e l]; [apply insert_value_does; try done; by apply short_dec |].
  eapply sdoes_bind; [apply update_does; try done; [by apply account_range | apply key_value_fields; by apply short_dec] | intros; by apply sdoes_ret].
Qed.
Lemma update_seq p k v (m : FE unit) : short v -> (forall f, node_ok f -> account_at p f -> sdoes (fun _ _ => True) m f) ->
  forall f, node_ok f -> account_at p f -> sdoes (fun _ _ => True) (update_value storage p k v;; m) f.
Proof. intros Hv Hm f Hn Hp. eapply sdoes_bind; [by apply update_value_does |]. intros [] f2 Hn2 He2 _. apply Hm; [done | by eapply account_evolves]. Qed.
Lemma setCode_does a c f : node_ok f -> lenZ c <= 0x6000 -> sdoes (fun _ _ => True) (setCode storage a c) f.
Proof.
  intros Hn Hc. unfold setCode. apply with_account; [done | intros; by apply sdoes_ret |]. intros p f1 Hn1 _ Hp. revert f1 Hn1 Hp.
  assert (short (toHex [] c)) by (unfold short; rewrite toHex_even; lia). intros f1 Hn1 Hp.
  apply update_seq; try done. intros f2 Hn2 Hp2. apply update_value_does; try done. apply short_hash.
Qed.
Lemma kill_does a f : node_ok f -> sdoes (fun _ _ => True) (kill storage start a) f.
Proof.
  intros Hn. unfold kill. apply with_account; [done | intros; by apply sdoes_ret |]. intros p f1 Hn1 _ Hp. revert f1 Hn1 Hp.
  apply update_seq; [by apply short_dec |]. apply update_seq; [short_const |]. apply update_seq; [short_const |]. apply update_seq; [apply short_hash |].
  intros f2 Hn2 Hp2. apply update_value_does; try done; short_const.
Qed.
Lemma incNonce_does a f : node_ok f -> sdoes (fun _ _ => True) (incNonce storage start a) f.
Proof.
  intros Hn. unfold incNonce. apply with_account; [done | |].
  - intros f1 Hn1 _. eapply sdoes_bind; [by apply startNonce_does |]. cbn beta. intros n f2 Hn2 _ [Hw ->]. apply createAccount_does; [done | apply u256_wrap | apply u256_0].
  - intros p f1 Hn1 _ Hp. apply change_does; try done. intros n Hw. apply u256_wrap.
Qed.
Lemma setNonce_does a n f : node_ok f -> u256 n -> sdoes (fun _ _ => True) (setNonce storage a n) f.
Proof.
  intros Hn Hw. unfold setNonce. apply with_account; [done | intros; by apply createAccount_does; [| | apply u256_0] |].
  intros p f1 Hn1 _ Hp. apply update_value_does; try done. by apply short_dec.
Qed.
Lemma at_table_does {A} (R : A -> Factory -> Prop) p (k : TableObj -> FE A) f o : f_objs f !! p = Some o -> sdoes R (k o) f -> sdoes R (at_table p k) f.
Proof. intros Ho Hk. unfold at_table. apply sdoes_get. by rewrite Ho. Qed.
Lemma authority_does a b f : node_ok f -> sdoes (fun _ _ => True) (ss_checkAuthority storage a b) f.
Proof.
  intros Hn. unfold ss_checkAuthority. apply with_account; [done | intros; by apply sdoes_ret |]. intros p f1 Hn1 _ Hp.
  destruct (lookup_lt_is_Some_2 (f_objs f1) p (account_range p f1 Hn1 Hp)) as [o Ho]. eapply at_table_does; [done |]. by apply sdoes_ret.
Qed.
Lemma deploy_does origin f : origin ∈ origins -> node_ok f -> sdoes (fun b _ => true = b) (mayDeploy storage origin) f.
Proof.
  intros Hin Hn. unfold mayDeploy. eapply sdoes_bind; [by apply sys_open_does |]. cbn beta. intros r f1 Hn1 _ [(p & -> & Hp) _].
  destruct (no_sys _ Hn1) as [E0|Hs]; [rewrite E0 in Hin; by apply not_elem_of_nil in Hin |]. unfold permitted in Hs. rewrite Hp in Hs. destruct Hs as (o & Ho & Hc).
  eapply at_table_does; [done |]. apply sdoes_ret; [done |]. by rewrite (Hc origin Hin).
Qed.
Lemma deploy_any origin f : node_ok f -> sdoes (fun _ _ => True) (mayDeploy storage origin) f.
Proof.
  intros Hn. unfold mayDeploy. eapply sdoes_bind; [by apply sys_open_does |]. cbn beta. intros r f1 Hn1 _ [(p & -> & Hp) _].
  destruct (lookup_lt_is_Some_2 (f_objs f1) p (no_range _ Hn1 _ _ Hp)) as [o Ho]. eapply at_table_does; [done |]. by apply sdoes_ret.
Qed.

(** *** Rollback *)
Lemma rollback_new ch i : table_rollback ch (newTable i) = newTable i.
Proof.
  assert (Hu : forall k g r, undo_record k g r (newTable i) = newTable i).
  { intros k g r. unfold undo_record. by destruct (negb _). }
  unfold table_rollback. destruct (ch_kind ch); [by destruct (ch_value ch) | |]; (induction (ch_value ch) as [|r rs IH]; [done |]; cbn [foldl]; by rewrite Hu).
Qed.
Lemma node_undo c f : change_is short (snd c) -> node_ok f -> node_ok (undo_change c f).
Proof.
  intros Hc [Hr Hi Ha Hl Hsys]. unfold undo_change.
  assert (Hinfo : forall t, mt_info (table_rollback (snd c) t) = mt_info t).
  { intros t. unfold table_rollback. destruct (ch_kind (snd c)); [destruct (ch_value (snd c)); [done |]; by destruct (mt_new t !! _) | apply (fold_undo_info _ (fun r => setField (rec_key r) (rec_oldValue r))) | apply (fold_undo_info _ (fun _ => setStatus 0))]. }
  split; cbn.
  - intros n p. rewrite length_alter. apply Hr.
  - done.
  - intros a p o Hn Ho. destruct (decide (fst c = p)) as [<-|Hne].
    + rewrite list_lookup_alter_eq in Ho. destruct (f_objs f !! fst c) as [o'|] eqn:Eo; [| done]. injection Ho as <-. destruct (Ha a _ o' Hn Eo) as [Hname Hall].
      cbn. rewrite Hinfo. split; [done |]. by apply (rollback_all_rows account_row short account_row_insert).
    + rewrite list_lookup_alter_ne in Ho by done. by apply (Ha a p).
  - done.
  - destruct Hsys as [|Hsys]; [by left | right]. unfold permitted, access_fresh in *. cbn. destruct (f_names f !! SYS_TABLES) as [q|] eqn:Hq.
    + destruct Hsys as (oq & Hoq & Hs). destruct (decide (fst c = q)) as [Eq|Hne].
      * rewrite Eq, list_lookup_alter_eq, Hoq. eexists. split; [done |]. cbn. by rewrite Hinfo.
      * exists oq. by rewrite list_lookup_alter_ne.
    + intros q Hqa. destruct (Hsys q Hqa) as (i & h & n & Hobj & Hname). exists i, h, n. split; [| done]. destruct (decide (fst c = q)) as [Eq|Hne].
      * rewrite Eq, list_lookup_alter_eq, Hobj. unfold with_table. cbn. by rewrite rollback_new.
      * by rewrite list_lookup_alter_ne.
Qed.
Lemma node_log l f : node_ok f -> Forall (fun c => change_is short (snd c)) l -> node_ok (with_log l f).
Proof. intros [] Hl. by split. Qed.
Lemma node_rollback sp f : node_ok f -> node_ok (f_rollback sp f).
Proof.
  intros Hn. unfold f_rollback. pose proof (no_log _ Hn) as Hl. rewrite <- (take_drop sp (f_log f)) in Hl. apply Forall_app in Hl as [Hl1 Hl2].
  apply node_log; [| done]. clear Hl1. apply forall_rev in Hl2. unfold undo_log. revert Hl2. generalize (rev (drop sp (f_log f))). intros log Hl2. revert f Hn.
  induction log as [|c r IH]; intros f Hn; [done |]. apply Forall_cons in Hl2 as [Hc Hl2]. cbn. apply IH; [done |]. by apply node_undo.
Qed.
Lemma rollback_twice sp f : f_rollback sp (f_rollback sp f) = f_rollback sp f.
Proof.
  assert (Hsame : forall g, (length (f_log g) <= sp)%nat -> f_rollback sp g = g).
  { intros g Hg. unfold f_rollback. rewrite take_ge, drop_ge by done. by destruct g. }
  apply Hsame. unfold f_rollback. cbn. rewrite length_take. lia.
Qed.

Definition node_logged_ok (f : Factory) : Prop := node_ok f /\ factory_ok f.

Lemma rollback_node f0 f : node_logged_ok f0 -> node_logged_ok f -> evolves f0 f ->
  let f' := f_rollback (f_savepoint f0) (f_rollback (f_savepoint f0) f) in node_logged_ok f' /\ evolves f0 f' /\ shows storage f0 f'.
Proof.
  intros [Hn0 Hf0] [Hn Hf] [Hg Hs]. cbv zeta. rewrite rollback_twice. pose proof (rollback_ok (f_savepoint f0) f Hf) as Hok.
  split; [split; [by apply node_rollback | done] |]. split; [| exact (proj2 (rollback_shows db storage Hstorage f0 f Hf0 Hg))]. split.
  - intros _. split; [done |]. destruct (Hg Hf0) as (_ & d & Ed & Hres). exists []. unfold f_rollback, f_savepoint. cbn [f_log f_objs with_log].
    rewrite Ed, take_app_length, drop_app_length, app_nil_r, undo_log_objs. done.
  - unfold f_rollback. cbn. by rewrite undo_log_names.
Qed.

(** *** Reading leaves the log alone *)
Definition calm (f f' : Factory) : Prop := f_log f' = f_log f.
#[local] Instance calm_preorder : PreOrder calm.
Proof. split; [done |]. intros f1 f2 f3. unfold calm. congruence. Qed.
Lemma calm_select p k c : se_keeps calm (t_select storage p k c).
Proof.
  intros f. unfold t_select, at_table. rewrite se_bind_get. destruct (f_objs f !! p) as [o|]; [| done].
  by destruct (table_select (remote_of storage o) k c (ob_table o)).
Qed.
Lemma calm_register name o : se_keeps calm (register name o).
Proof. by intros f. Qed.
Lemma calm_find name m : se_keeps calm m -> se_keeps calm (find_table name m).
Proof. intros Hm f. unfold find_table. rewrite se_bind_get. destruct (f_names f !! name); [done | apply Hm]. Qed.
#[local] Hint Resolve calm_select calm_register calm_find : se.
Lemma calm_access b : se_keeps calm (open_access storage b).
Proof. unfold open_access. apply calm_find. se_keeps_auto. Qed.
#[local] Hint Resolve calm_access : se.
Lemma calm_open_with name b i : se_keeps calm (open_with storage name b i).
Proof. unfold open_with, setAuthorizedAddress. se_keeps_auto. Qed.
#[local] Hint Resolve calm_open_with : se.
Lemma calm_sys name b : se_keeps calm (open_sys storage name b).
Proof. unfold open_sys. case_bool_decide; [apply calm_access | apply calm_find, calm_open_with]. Qed.
#[local] Hint Resolve calm_sys : se.
Lemma calm_open name b : se_keeps calm (openTable storage name b).
Proof. unfold openTable. case_bool_decide; [apply calm_sys | apply calm_find]. se_keeps_auto. Qed.
#[local] Hint Resolve calm_open : se.
Lemma calm_hasCode a : se_keeps calm (addressHasCode storage a).
Proof. unfold addressHasCode, getTable, first_value. se_keeps_auto. Qed.

Lemma calm_shows f f' : factory_ok f -> grows db f f' -> f_log f' = f_log f -> shows storage f f'.
Proof.
  intros Hf Hg El. destruct (rollback_shows db storage Hstorage f f' Hf Hg) as [_ Hs]. revert Hs.
  unfold f_rollback, f_savepoint. rewrite <- El, drop_all, take_ge by done. intros [A B]. by split.
Qed.

(** *** The instances *)
Context (precompiled : gmap Address (bytes -> Address -> FE bytes)) (original : gmap Address (bytes -> bool * bytes)) (txGasLimit : Z).
Context (origin : Address).
Context (Horiginal : forall a g inp, original !! a = Some g -> out_ok inp -> out_ok (snd (g inp))).
Abbreviation face := (StorageState_face storage start sha256 sch).
Abbreviation context := (factory_context storage precompiled original txGasLimit).

(** Every operation keeps the invariants and what [I] and [K] say besides. *)
Section Keep.
Context (I : Factory -> Prop) (K : Factory -> Factory -> Prop) (HI : forall f f', node_ok f' -> evolves f f' -> I f -> I f') (HIn : forall f, I f -> node_ok f) (HK : forall f f', evolves f f' -> K f f').
Lemma keep_does {A} (R : A -> Prop) (m : FE A) : (forall f, node_ok f -> sdoes (fun a _ => R a) m f) -> does I K R m.
Proof. intros Hm f Hf. destruct (Hm f (HIn f Hf)) as (Hn & He & Hr). split; [by eapply HI |]. split; [by apply HK | done]. Qed.
Lemma keep_any {A} (R : A -> Factory -> Prop) (m : FE A) f : sdoes R m f -> sdoes (fun _ _ => True) m f.
Proof. intros Hm. by eapply sdoes_mono. Qed.

Lemma face_laws (limit : nat) (Bad : Prop) (Same : Factory -> Factory -> Prop) `{!PreOrder K} `{!PreOrder Same} :
  (forall a f, I f -> Same f (fst (addressHasCode storage a f))) ->
  (forall f f1, I f -> mayDeploy storage origin f = (f1, Ok false) -> forall sp tsp f2, I f2 -> K f1 f2 ->
    let f' := f_rollback tsp (f_rollback sp f2) in I f' /\ K f1 f' /\ Same f1 f') ->
  (forall a p inp, precompiled !! a = Some p -> out_ok inp -> forall f, I f ->
    I (fst (p inp origin f)) /\ K f (fst (p inp origin f)) /\
    match snd (p inp origin f) with Ok o => out_ok o | Throw e => state_exn e \/ e = UndefinedBehaviour /\ Bad end) ->
  (forall f0 f, I f0 -> I f -> K f0 f ->
    let f' := f_rollback (f_savepoint f0) (f_rollback (f_savepoint f0) f) in I f' /\ K f0 f' /\ Same f0 f') ->
  (forall f, c_offloadPoint < Z.of_nat limit -> I f -> I (with_log [] f) /\ K f (with_log [] f) /\
    forall f', I f' -> I (with_log (f_log f) f') /\ K f (with_log (f_log f) f')) ->
  StateLaws face context origin limit Bad I K Same.
Proof.
  intros Hcode Hdenied Hpre Hroll Hthread. constructor; try done; try (intros; apply keep_does; intros f Hn); cbn [StorageState_face sf_accountNonemptyAndExisting sf_addressHasCode sf_balance sf_transferBalance
    sf_storage sf_setStorage sf_clearStorage sf_setCode sf_kill sf_code sf_codeHash sf_codeSize sf_incNonce sf_requireAccountStartNonce sf_setNonce sf_getNonce sf_rootHash sf_checkAuthority tf_mayDeploy factory_context].
  - by apply exists_does.
  - by apply hasCode_does.
  - unfold balance. apply read_does; [done | apply u256_0].
  - by apply transfer_does.
  - unfold ss_storage. apply read_does; [done | apply u256_0].
  - by apply setStorage_does.
  - by apply setCode_does.
  - by apply kill_does.
  - by apply code_does.
  - by apply hash_does.
  - unfold codeSize. eapply sdoes_bind; [by apply code_does |]. cbn beta. intros c f1 Hn1 _ [Hl _]. apply sdoes_ret; [done |]. pose proof (lenZ_nonneg c). unfold u256. lia.
  - by apply incNonce_does.
  - eapply sdoes_mono; [by apply startNonce_does |]. cbn beta. by intros n f1 _ _ [? _].
  - by apply setNonce_does.
  - unfold getNonce. eapply keep_any. by apply read_does.
  - by apply authority_does.
  - by apply deploy_any.
Qed.
End Keep.

(** Frames that stay on their thread: a rollback restores what readers see. *)
Lemma shallow_laws limit : origin ∈ origins -> Z.of_nat limit <= c_offloadPoint ->
  (forall a p inp, precompiled !! a = Some p -> out_ok inp -> forall f, node_logged_ok f ->
    node_logged_ok (fst (p inp origin f)) /\ evolves f (fst (p inp origin f)) /\
    match snd (p inp origin f) with Ok o => out_ok o | Throw e => state_exn e \/ e = UndefinedBehaviour /\ True end) ->
  StateLaws face context origin limit True node_logged_ok evolves (shows storage).
Proof.
  intros Hin Hlim Hpre. apply face_laws; try done; try apply _.
  - intros f f' Hn [Hg _] [_ Hf]. split; [done |]. by apply Hg.
  - by intros f [Hn _].
  - intros a f [Hn Hf]. pose proof (hasCode_does a f Hn) as (_ & [Hg _] & _). apply calm_shows; [done | done | apply calm_hasCode].
  - intros f f1 [Hn _] E. destruct (deploy_does origin f Hin Hn) as (_ & _ & Hb). by rewrite E in Hb.
  - apply rollback_node.
  - intros f Hoff. lia.
Qed.
(** Frames of any depth. *)
Lemma deep_laws limit Bad :
  (forall a p inp, precompiled !! a = Some p -> out_ok inp -> forall f, node_ok f -> node_ok (fst (p inp origin f)) /\
    match snd (p inp origin f) with Ok o => out_ok o | Throw e => state_exn e \/ e = UndefinedBehaviour /\ Bad end) ->
  StateLaws face context origin limit Bad node_ok (fun _ _ => True) (fun _ _ => True).
Proof.
  intros Hpre. apply face_laws; try done.
  - intros f f1 Hn _ sp tsp f2 Hn2 _. cbv zeta. split; [by do 2 apply node_rollback | done].
  - intros a p inp Hp Hinp f Hf. destruct (Hpre a p inp Hp Hinp f Hf) as [? ?]. done.
  - intros f0 f Hn0 Hn _. cbv zeta. rewrite rollback_twice. split; [by apply node_rollback | done].
  - intros f _ Hn. split; [apply node_log; [done | constructor] |]. split; [done |]. intros f' Hn'. split; [| done]. apply node_log; [done | apply Hn].
Qed.
End Laws.

(** ** Transactions on a node *)
Record node_setup `{Crypto} (db : Z -> option Entry) (storage : option (h256 -> Z -> TableInfo -> chars -> Condition -> result (option (list Entry))))
    (start : Z) (origins : list Address) (original : gmap Address (bytes -> bool * bytes)) : Prop := {
  ns_start : u256 start;
  ns_ids : forall h n, remote_ok db ((fun s => s h n) <$> storage);
  ns_rows : stores_accounts storage;
  ns_permission : stores_permission storage origins;
  ns_sha3 : forall b, lenZ (sha3 b) = 32;
  ns_original : forall a g inp, original !! a = Some g -> out_ok inp -> out_ok (snd (g inp))
}.

Section Transactions.
Context `{Crypto} `{Recover} (db : Z -> option Entry) (storage : option (h256 -> Z -> TableInfo -> chars -> Condition -> result (option (list Entry)))).
Context (start : Z) (sha256 : list Z -> list Z) (sch : Schedule) (origins : list Address) (origin : Address).
Context (precompiled : gmap Address (bytes -> Address -> FE bytes)) (original : gmap Address (bytes -> bool * bytes)) (txGasLimit : Z).
Context (env : EnvInfo) (version : Z) (table : Z -> Metric) `{!MetricsOk table}.
Abbreviation face := (StorageState_face storage start sha256 sch).
Abbreviation context := (factory_context storage precompiled original txGasLimit).

(** What the precompiled contracts have to keep: the tables of the accounts, with
    answers that are byte strings; they may write any other table and throw what
    they like but the virtual machine's [RevertInstruction]. *)
Definition contract_exn (e : Exn) : Prop := match e with RevertInstruction _ => False | _ => True end.
Definition precompiled_safe : Prop :=
  forall a p inp f, precompiled !! a = Some p -> out_ok inp -> node_ok [] f -> node_ok [] (fst (p inp origin f)) /\
    match snd (p inp origin f) with Ok o => out_ok o | Throw e => contract_exn e end.
(** A precompiled contract that runs into undefined behaviour itself. *)
Definition precompiled_ub : Prop :=
  exists a p inp f, precompiled !! a = Some p /\ out_ok inp /\ node_ok [] f /\ snd (p inp origin f) = Throw UndefinedBehaviour.
(** ... and, for a failed transaction to be undone, every change they make is one
    that the undo log takes back. *)
Definition precompiled_undoable : Prop :=
  forall a p inp f, precompiled !! a = Some p -> out_ok inp -> node_logged_ok origins f ->
    node_logged_ok origins (fst (p inp origin f)) /\ evolves db f (fst (p inp origin f)) /\
    match snd (p inp origin f) with Ok o => out_ok o | Throw e => contract_exn e end.

Definition beginning : Executive := with_res (Some newExecutionResult) (newExecutive 0).
Lemma beginning_fresh : fresh 0 beginning.
Proof. by constructor. Qed.

Lemma transaction_safe t t' f : node_setup db storage start [] original -> precompiled_safe -> RC2_VERSION <= version ->
  sender version t = Ok (origin, t') -> tx_fine t -> node_ok [] f ->
  node_ok [] (fst (execute_transaction face context env version table false t f)) /\
  match snd (execute_transaction face context env version table false t f) with
  | Ok _ => True | Throw ec => ec = Terminated \/ ec = UndefinedBehaviour /\ precompiled_ub end.
Proof.
  intros [N1 N2 N3 N6 N4 N5] Hpre Hver Hs Ht Hf.
  pose proof (deep_laws db storage start N1 sha256 sch [] N2 N3 N6 N4 precompiled original txGasLimit origin N5 frames precompiled_ub) as Hlaws.
  assert (Hpre' : forall a p inp, precompiled !! a = Some p -> out_ok inp -> forall f, node_ok [] f -> node_ok [] (fst (p inp origin f)) /\
    match snd (p inp origin f) with Ok o => out_ok o | Throw e => state_exn e \/ e = UndefinedBehaviour /\ precompiled_ub end).
  { intros a p inp Hp Hin f0 Hf0. destruct (Hpre a p inp f0 Hp Hin Hf0) as [Hn Hr]. split; [done |].
    destruct (snd (p inp origin f0)) as [o|e] eqn:Er; [done |]. destruct e; try (by left). right. split; [done |]. by exists a, p, inp, f0. }
  specialize (Hlaws Hpre').
  pose proof (transaction_ok face context env version origin frames precompiled_ub (node_ok []) (fun _ _ => True) (fun _ _ => True) Hver table t t' f beginning Hs Ht Hf beginning_fresh) as Hrun.
  unfold ewp in Hrun. unfold execute_transaction, beginning in *.
  destruct (run_transaction face context version _ t _) as [[f' e'] [u|ec]]; [by destruct Hrun as (Hf' & _) |].
  destruct Hrun as (Hf' & _ & Hfat & Hex). split; [done |]. destruct ec; try done; [by left |]. right. split; [done |].
  cbn in Hex. destruct Hex as [Hex|]; [lia | done].
Qed.


End Transactions.

(** ** A node with one contract *)
(** Its contract stores a word, and then fails. *)
Definition toy_sender : Address := repeat 7 20.
Definition toy_contract : Address := repeat 9 20.
Definition failing_code : bytes := [0x60; 1; 0x60; 0; 0x55; 0xfe].
Definition toy_schedule : Schedule := fun _ => ([], [], []).
Definition toy_env : EnvInfo := mkEnvInfo emptyHeader (fun _ => h256_0).
Definition toy_tx : Transaction :=
  mkTx MessageCall 0 0 toy_contract 0 100000 [] None h256_0 toy_sender 0 0 None [] 0 0 [].
Definition account_node : Factory := fst (createAccount (H := toy_crypto) None toy_contract 0 0 newFactory).
Definition code_node (code : bytes) : Factory := fst (setCode (H := toy_crypto) None toy_contract code account_node).
Definition no_rows : Z -> option Entry := fun _ => None.

(** The tables of a new block. *)
Lemma newFactory_node origins h n : node_ok origins (setBlockNum n (setBlockHash h newFactory)).
Proof.
  split; try done. right. unfold permitted, access_fresh. cbn. rewrite lookup_empty. intros p. by rewrite lookup_empty.
Qed.
Definition no_storage : option (h256 -> Z -> TableInfo -> chars -> Condition -> result (option (list Entry))) := None.
Lemma no_storage_ids h n : remote_ok no_rows ((fun s => s h n) <$> no_storage).
Proof. done. Qed.
Lemma no_storage_rows : stores_accounts None.
Proof. done. Qed.
Lemma no_storage_permission origins : stores_permission None origins.
Proof. done. Qed.
Lemma code_node_ok origins code : lenZ code <= 0x6000 -> node_logged_ok origins (code_node code).
Proof.
  intros Hl. pose proof (createAccount_does (H := toy_crypto) no_rows None 0 u256_0 origins no_storage_ids no_storage_rows (no_storage_permission origins) toy_sha3_len toy_contract 0 0 newFactory (newFactory_node origins h256_0 0) u256_0 u256_0) as (Hn1 & [Hg1 _] & _).
  pose proof (setCode_does (H := toy_crypto) no_rows None origins no_storage_ids no_storage_rows (no_storage_permission origins) toy_sha3_len toy_contract code account_node Hn1 Hl) as (Hn2 & [Hg2 _] & _).
  split; [done |]. apply Hg2, Hg1, newFactory_ok.
Qed.
Lemma toy_setup origins : node_setup (H := toy_crypto) no_rows None 0 origins ∅.
Proof. constructor; [apply u256_0 | done | done | done | apply toy_sha3_len | done]. Qed.
Lemma toy_tx_fine : tx_fine toy_tx.
Proof. split; [apply u256_0 |]. split; [apply u256_0 | apply out_ok_nil]. Qed.

Abbreviation toy_face := (StorageState_face (H := toy_crypto) None 0 id toy_schedule).
Abbreviation toy_context := (factory_context None ∅ ∅ 100000).
Abbreviation toy_execute code := (execute_transaction (H := toy_crypto) (H0 := toy_recover) toy_face toy_context toy_env RC2_VERSION info_table false toy_tx (code_node code)).
Definition failed_node : Factory := Eval vm_compute in fst (toy_execute failing_code).
Definition failed_result : ExecutionResult * TransactionReceipt :=
  Eval vm_compute in from_ok (newExecutionResult, emptyReceipt) (snd (toy_execute failing_code)).
Lemma toy_fails : toy_execute failing_code = (failed_node, Ok failed_result).
Proof. vm_compute. reflexivity. Qed.

(** A precompiled contract that answers with its input. *)
Definition toy_echo : gmap Address (bytes -> Address -> FE bytes) := {[ toy_contract := fun inp _ => mret inp ]}.
Lemma toy_echo_safe : precompiled_safe toy_sender toy_echo.
Proof. intros a p inp f Hp Hin Hf. unfold toy_echo in Hp. apply lookup_singleton_Some in Hp as [<- <-]. done. Qed.
