(* ===== verification/PermissionPrecompiled.v ===== *)
(** * The contract that grants permissions

    [libprecompiled/PermissionPrecompiled.cpp], registered on every node: it writes
    the access table.  Its calls keep the tables of the accounts well formed and
    throw nothing but what the tables throw, so it is one of the contracts that
    [ExecutiveState.precompiled_safe] speaks of. *)

From S2P Require Import Prelude StateMonad CommonData Text PBFTMsg Transaction ABI StorageEntry MemoryTable TableProps TableFactory FactoryProps TableRows TableEffects StorageState Precompiled.
From S2P Require Import EVM EVMProps TableInv Executive ExecutiveProps ExecutiveState.

Definition AUP_METHOD_INS : chars := Eval vm_compute in str "insert(string,string)".
Definition AUP_METHOD_REM : chars := Eval vm_compute in str "remove(string,string)".
Definition AUP_METHOD_QUE : chars := Eval vm_compute in str "queryByName(string)".
Definition USER_TABLE_PREFIX : chars := Eval vm_compute in str "_user_".

Definition addPrefixToUserTable (name : chars) : chars :=
  if bool_decide (name = SYS_ACCESS_TABLE) || bool_decide (name = SYS_CONSENSUS) || bool_decide (name = SYS_TABLES) ||
     bool_decide (name = SYS_CNS) || bool_decide (name = SYS_CONFIG) then name
  else USER_TABLE_PREFIX ++ name.

Section Permission.
Context `{Crypto}.
Context (storage : option (h256 -> Z -> TableInfo -> chars -> Condition -> result (option (list Entry)))).
(** [context->blockInfo().number], and the JSON text of the rows of an answer:
    table, address and number of each. *)
Context (version number : Z) (fastWriter : list (chars * chars * chars) -> chars).

Definition permission_condition (addr : chars) : Condition := EQ address_field addr newCondition.

(** The access table is used without a test: a null pointer is dereferenced. *)
Definition permission_table : FE nat :=
  t ← pre_openTable storage SYS_ACCESS_TABLE;
  match t with Some p => mret p | None => se_lift (Throw UndefinedBehaviour) end.

Definition permission_insert (data : bytes) (origin : Address) : FE bytes :=
  let vs := fst (abiOut data [AString; AString]) in
  let tableName := addPrefixToUserTable (arg_string 0 vs) in
  let addr := arg_string 1 vs in
  p ← permission_table;
  entries ← t_select storage p tableName (permission_condition addr);
  result ←
    (if negb (lenZ entries =? 0) then mret CODE_TABLE_AND_ADDRESS_EXIST
     else t_insert p tableName (<[table_name := tableName]> (<[address_field := addr]> (<[enable_num := dec (number + 1)]> ∅))) false (by_origin origin));
  mret (getErrorCodeOut version result).

Definition permission_remove (data : bytes) (origin : Address) : FE bytes :=
  let vs := fst (abiOut data [AString; AString]) in
  let tableName := addPrefixToUserTable (arg_string 0 vs) in
  let addr := arg_string 1 vs in
  p ← permission_table;
  entries ← t_select storage p tableName (permission_condition addr);
  result ←
    (if lenZ entries =? 0 then mret CODE_TABLE_AND_ADDRESS_NOT_EXIST
     else t_remove storage p tableName (permission_condition addr) (by_origin origin));
  mret (getErrorCodeOut version result).

Definition permission_query (data : bytes) : FE bytes :=
  let vs := fst (abiOut data [AString]) in
  let tableName := addPrefixToUserTable (arg_string 0 vs) in
  p ← permission_table;
  entries ← t_select storage p tableName newCondition;
  mret (abiIn [(AString, VBytes (fastWriter (map (fun e => (tableName, getField address_field e, getField enable_num e)) entries)))]).

(** [call]. *)
Definition permission_call (param : bytes) (origin : Address) : FE bytes :=
  func ← se_lift (getParamFunc param);
  let data := getParamData param in
  if func =? getFuncSelector AUP_METHOD_INS then permission_insert data origin
  else if func =? getFuncSelector AUP_METHOD_REM then permission_remove data origin
  else if func =? getFuncSelector AUP_METHOD_QUE then permission_query data
  else mret [].

(** ** It keeps the accounts *)
Context (db : Z -> option Entry) (Hstorage : forall h n, remote_ok db ((fun s => s h n) <$> storage)) (Hrows : stores_accounts storage).
Context (writer_ok : forall l, out_ok (abiIn [(AString, VBytes (fastWriter l))])).

(** A run that keeps the node, whatever it logs. *)
Definition keeps {A} (R : A -> Factory -> Prop) (m : FE A) (f : Factory) : Prop :=
  node_ok [] (fst (m f)) /\ match snd (m f) with Ok a => R a (fst (m f)) | Throw e => contract_exn e end.
Lemma keeps_bind {A B} (R : A -> Factory -> Prop) (R' : B -> Factory -> Prop) (m : FE A) (k : A -> FE B) f :
  keeps R m f -> (forall a f1, node_ok [] f1 -> R a f1 -> keeps R' (k a) f1) -> keeps R' (m ≫= k) f.
Proof. intros [Hn Hr] Hk. unfold keeps, mbind, SE_bind. destruct (m f) as [f1 [a|e]]; cbn in *; [by apply Hk | done]. Qed.
Lemma keeps_ret {A} (R : A -> Factory -> Prop) a f : node_ok [] f -> R a f -> keeps R (mret a) f.
Proof. by split. Qed.
Lemma keeps_sdoes {A} (R : A -> Factory -> Prop) (m : FE A) f : sdoes db [] R m f -> keeps R m f.
Proof. intros (Hn & _ & Hr). split; [done |]. destruct (m f) as [f1 [a|e]]; [done |]. by destruct e. Qed.

Definition access_at (p : nat) (f : Factory) : Prop := f_names f !! SYS_ACCESS_TABLE = Some p.
Lemma access_no_account p f a : node_ok [] f -> access_at p f -> f_names f !! account_table a <> Some p.
Proof. intros Hn Hp Ha. apply (access_not_account a). by apply (no_inj _ _ Hn _ _ p). Qed.

Lemma permission_table_keeps f : node_ok [] f -> keeps access_at permission_table f.
Proof.
  intros Hn. unfold permission_table, pre_openTable, openTable. rewrite bool_decide_true by (unfold m_sysTables; set_solver). unfold open_sys. rewrite bool_decide_true by done.
  eapply keeps_bind; [apply keeps_sdoes; by apply (access_does db storage []) |]. intros r f1 Hn1 (_ & p & -> & Hp). by apply keeps_ret.
Qed.
Lemma permission_select_keeps p k c f : node_ok [] f -> access_at p f -> keeps (fun _ f' => access_at p f') (t_select storage p k c) f.
Proof.
  intros Hn Hp. apply keeps_sdoes. eapply sdoes_mono; [apply (select_does db storage [] Hstorage Hrows); [done | by eapply no_range] |].
  cbn beta. intros l f1 _ _ (_ & En & _). unfold access_at. by rewrite En.
Qed.
Lemma permission_insert_keeps p k fs o f : node_ok [] f -> access_at p f -> keeps (fun _ _ => True) (t_insert p k fs false o) f.
Proof.
  intros Hn Hp. apply keeps_sdoes. eapply sdoes_mono; [apply (insert_does db []); [done | by eapply no_range | | done] | done].
  intros a o0 Ha. by destruct (access_no_account p f a).
Qed.

Lemma select_keeps_info r k c t : mt_info (fst (selectNoLock r k c t)) = mt_info t.
Proof. unfold selectNoLock, select_news. destruct r as [r|]; [destruct (r _ _ _) as [[rows|]|] |]; cbn; try done; apply index_info. Qed.
Lemma remove_logs r k c o t : let '(t1, ch, _) := table_remove r k c o t in mt_info t1 = mt_info t /\ Forall (change_is short) (option_list ch).
Proof.
  unfold table_remove. destruct (denied o t); [split; [done | constructor] |]. pose proof (select_keeps_info r k c t) as Hi.
  destruct (selectNoLock r k c t) as [ts l]. cbn in Hi. destruct (remove_loop k l ts) as [t1 rs] eqn:E. unfold remove_loop in E.
  pose proof (fun A B C D => change_rows (fun _ => True) short k _ _ l ts t1 rs A B C D E) as (_ & H2 & H3).
  - done.
  - intros e _. constructor; [unfold short; cbn; rewrite lenZ_nil; lia | constructor].
  - intros g e _. done.
  - by apply Forall_true.
  - split; [cbn; congruence |]. constructor; [done | constructor].
Qed.
Lemma permission_remove_keeps p k c o f : node_ok [] f -> access_at p f -> keeps (fun _ _ => True) (t_remove storage p k c o) f.
Proof.
  intros Hn Hp. destruct (lookup_lt_is_Some_2 (f_objs f) p ltac:(by eapply no_range)) as [ob Ho].
  unfold keeps, t_remove, at_table. rewrite se_bind_get, Ho. pose proof (remove_logs (remote_of storage ob) k c o (ob_table ob)) as Hr.
  destruct (table_remove _ k c o (ob_table ob)) as [[t ch] n]. destruct Hr as [Hi Hc]. rewrite se_bind_mod. cbn [fst snd mret SE_ret]. split; [| done].
  apply (node_logged [] p ob); try done. intros a Ha. by destruct (access_no_account p f a).
Qed.

Lemma word_out n : lenZ (word n) = 32 /\ bytes_ok (word n).
Proof. split; [apply word_length | apply toBigEndian_bytes]. Qed.
Lemma code_out_ok result : out_ok (getErrorCodeOut version result).
Proof.
  assert (Hw : forall t n, t = AUint \/ t = AInt -> out_ok (abiIn [(t, VZ n)])).
  { intros t n Ht. replace (abiIn [(t, VZ n)]) with (word n) by (destruct Ht as [-> | ->]; unfold abiIn; cbn [abiInAux abiOffset foldr map dynamicType fst snd serialise]; by rewrite ?app_nil_r). destruct (word_out n) as [Hl Hb]. split; [lia | done]. }
  unfold getErrorCodeOut. repeat case_match; apply Hw; tauto.
Qed.

(** A call of the contract keeps the tables of the accounts, and answers with a byte
    string or throws what [precompiled_safe] allows. *)
Lemma permission_call_keeps param origin f : node_ok [] f -> keeps (fun o _ => out_ok o) (permission_call param origin) f.
Proof.
  intros Hn. unfold permission_call. eapply (keeps_bind (fun _ _ => True)).
  { split; [done |]. unfold getParamFunc. by destruct (lenZ param <? 4). }
  intros func f0 Hn0 _. cbv zeta. unfold permission_insert, permission_remove, permission_query. cbv zeta.
  assert (Hopen : forall k c (m : nat -> list Entry -> FE bytes),
    (forall p l f1, node_ok [] f1 -> access_at p f1 -> keeps (fun o _ => out_ok o) (m p l) f1) ->
    keeps (fun o _ => out_ok o) (p ← permission_table; l ← t_select storage p k c; m p l) f0).
  { intros k c m Hm. eapply keeps_bind; [by apply permission_table_keeps |]. intros p f1 Hn1 Hp.
    eapply keeps_bind; [by apply permission_select_keeps |]. intros l f2 Hn2 Hp2. by apply Hm. }
  repeat case_match; [| | | apply keeps_ret; [done | apply out_ok_nil]]; apply Hopen; intros p l f1 Hn1 Hp1.
  - eapply (keeps_bind (fun _ _ => True)); [| intros r f2 Hn2 _; apply keeps_ret; [done | apply code_out_ok]].
    case_match; [by apply keeps_ret | by apply permission_insert_keeps].
  - eapply (keeps_bind (fun _ _ => True)); [| intros r f2 Hn2 _; apply keeps_ret; [done | apply code_out_ok]].
    case_match; [by apply keeps_ret | by apply permission_remove_keeps].
  - apply keeps_ret; [done | apply writer_ok].
Qed.

(** The contract at its address keeps what [transaction_total] asks of the precompiled
    contracts; it is at address 0x1005 in [ExecutiveContextFactory.cpp]. *)
Definition permission_address : Address := toBigEndian 20 0x1005.
Lemma permission_safe origin : precompiled_safe origin {[ permission_address := permission_call ]}.
Proof. intros a p inp f [<- <-]%lookup_singleton_Some _ Hf. by apply permission_call_keeps. Qed.
(** A call without a selector is undefined behaviour. *)
Lemma permission_short_call origin : precompiled_ub origin {[ permission_address := permission_call ]}.
Proof. exists permission_address, permission_call, [], newFactory. rewrite lookup_singleton_eq. split_and!; [done | apply out_ok_nil | apply (newFactory_node [] h256_0 0) | done]. Qed.
End Permission.
