(* ===== verification/ExecutiveCases.v ===== *)
(** * Runs of the executive

    Transactions on the node of [ExecutiveState.v] whose outcome is not what
    their sender would expect: each is one run, evaluated.  And what a static call
    does not reach. *)

From S2P Require Import Prelude StateMonad CommonData Text PBFTMsg BlockHeader Transaction Receipt TrieHash StorageEntry MemoryTable TableFactory StorageState.
From S2P Require Import EVM EVMRuns Executive ExecutiveState.

Definition toy_run (version gasLimit : Z) (t : Transaction) (f : Factory) : Factory * result (ExecutionResult * TransactionReceipt) :=
  execute_transaction (H := toy_crypto) (H0 := toy_recover) toy_face (factory_context None ∅ ∅ gasLimit) toy_env version info_table false t f.
(** status and gas of the receipt *)
Definition status_and_gas (r : Factory * result (ExecutionResult * TransactionReceipt)) : option (Z * Z) :=
  match snd r with Ok (_, rc) => Some (rc_status rc, rc_gasUsed rc) | Throw _ => None end.

(** A contract that loops until its gas is gone pays for nothing but the
    transaction: [catch (OutOfGas&)] does not set [m_gas] to 0, and the gas that was
    given is what is left. *)
Theorem out_of_gas_pays_base :
  status_and_gas (toy_run RC2_VERSION 40000 toy_tx (code_node loop_code)) = Some (te_code TE_OutOfGas, 21000).
Proof. vm_compute. reflexivity. Qed.

(** A creation whose sender cannot pay its endowment: the exception of the transfer
    leaves [execute], nothing sets [m_excepted], and the receipt says that the
    contract was created. *)
Definition create_tx (value : Z) : Transaction := mkTx ContractCreation 0 value ZeroAddress 0 100000 [0] None h256_0 toy_sender 0 0 None [] 0 0 [].
Definition created_at (r : Factory * result (ExecutionResult * TransactionReceipt)) : option Address :=
  match snd r with Ok (_, rc) => Some (rc_contractAddress rc) | Throw _ => None end.
Theorem unpaid_creation_reports_success :
  let r := toy_run RC2_VERSION 100000 (create_tx 1) (code_node []) in
  status_and_gas r = Some (te_code TE_None, 53004) /\ created_at r = created_at (toy_run RC2_VERSION 100000 (create_tx 0) (code_node [])) /\
  match created_at r with Some a => snd (addressInUse None a (fst r)) = Ok false | None => False end.
Proof. vm_compute. split_and!; reflexivity. Qed.

(** Refunds: [m_t.gas() - m_gas] wraps when the transaction asks for less gas than
    the limit of the chain, so half of it bounds nothing; four words cleared give
    back more than the run cost, and [gasUsed] wraps as well. *)
Definition clear_code : bytes := concat (map (fun k => [0x60; 0; 0x60; k; 0x55]) [0; 1; 2; 3]).
Definition filled_node : Factory := foldl (fun f k => fst (setStorage None toy_contract k 1 f)) (code_node clear_code) [0; 1; 2; 3].
Definition small_tx : Transaction := mkTx MessageCall 0 0 toy_contract 0 21000 [] None h256_0 toy_sender 0 0 None [] 0 0 [].
Theorem refund_wraps_gas_used : status_and_gas (toy_run RC2_VERSION 100000 small_tx filled_node) = Some (te_code TE_None, 2 ^ 256 - 18976).
Proof. vm_compute. reflexivity. Qed.

(** Before RC2: the transfer fails after the contract was prepared, the receipt
    says so, and the contract runs all the same. *)
Definition word_code : bytes := [0x60; 1; 0x60; 0; 0x55; 0x00].
Definition paying_tx : Transaction := mkTx MessageCall 0 1 toy_contract 0 100000 [] None h256_0 toy_sender 0 0 None [] 0 0 [].
Theorem unpaid_call_runs :
  let r := toy_run 0 100000 paying_tx (code_node word_code) in
  status_and_gas r = Some (te_code TE_NotEnoughCash, 41006) /\ snd (ss_storage None toy_contract 0 (fst r)) = Ok 1.
Proof. vm_compute. split; reflexivity. Qed.

(** A static call of a precompiled contract is a call of it. *)
Theorem static_call_reaches_precompiled `{Crypto} {S} (sf : StateFace S) ctx version p gasPrice origin :
  isPrecompiled ctx (codeAddress p) = true ->
  ex_call sf ctx version p gasPrice origin =
  ex_call sf ctx version (mkCallParameters (senderAddress p) (codeAddress p) (receiveAddress p) (valueTransfer p) (apparentValue p) (cp_gas p) (cp_data p) false) gasPrice origin.
Proof. intros Hp. unfold ex_call, callRC2, callRC1. cbn [codeAddress]. rewrite Hp. reflexivity. Qed.
