(* ===== verification/BlockVerifier.v ===== *)
(** * The execution of a block

    [libblockverifier/BlockVerifier.cpp] and [ExecutiveContextFactory.cpp]: the
    tables and the context of a block, the execution of its transactions in the
    order of the block or in the order the workers take them, the roots of the
    header, and the comparison with the header that came with the block; and
    [ExecutiveContext::getTxCriticals], the fields by which transactions conflict.

    The theorems are in BlockProps.v. *)

From S2P Require Import Prelude DAG TxDAG StateMonad CommonData Text RLP PBFTMsg BlockHeader Block Transaction Receipt TrieHash BlockCodec StorageEntry MemoryTable TableProps TableFactory FactoryProps StorageState Precompiled ParallelConfig.
From S2P Require Import EVM EVMProps EVMRuns Executive ExecutiveProps ExecutiveState.

Record BlockInfo := mkBlockInfo { bi_hash : h256; bi_number : Z; bi_stateRoot : h256 }.

(** ** [ExecutiveContextFactory] *)
Definition tx_gas_limit : chars := Eval vm_compute in str "tx_gas_limit".
Definition defaultTxGasLimit : Z := 300000000.

(** [lexical_cast<int>] and [lexical_cast<uint64_t>], which takes a sign. *)
Definition lexical_int (s : chars) : option Z := v ← lexical_int64 s; if (- 2 ^ 31 <=? v) && (v <? 2 ^ 31) then Some v else None.
Definition lexical_uint64 (s : chars) : option Z :=
  match s with
  | 45 :: r => v ← cast_digits r; if v <? 2 ^ 64 then Some (wrap 64 (- v)) else None
  | 43 :: r => v ← cast_digits r; if v <? 2 ^ 64 then Some v else None
  | _ => v ← cast_digits s; if v <? 2 ^ 64 then Some v else None
  end.

(** Every exception is caught and logged. *)
Definition setTxGasLimitToContext (storage : option (h256 -> Z -> TableInfo -> chars -> Condition -> result (option (list Entry)))) (bi : BlockInfo) : result Z :=
  match storage with
  | None => Throw UndefinedBehaviour
  | Some s =>
      match s (bi_hash bi) (bi_number bi) (mkTableInfo SYS_CONFIG SYS_KEY [SYS_VALUE] []) tx_gas_limit (EQ SYS_KEY tx_gas_limit newCondition) with
      | Throw ec => if fatal ec then Throw ec else Ok defaultTxGasLimit
      | Ok (Some [e]) =>
          match lexical_int (getField enable_num e) with
          | Some n =>
              let ret := if n <=? bi_number bi then getField SYS_VALUE e else [] in
              Ok (if bool_decide (ret = []) then defaultTxGasLimit else default defaultTxGasLimit (lexical_uint64 ret))
          | None => Ok defaultTxGasLimit
          end
      | Ok _ => Ok defaultTxGasLimit
      end
  end.

Section BlockVerifier.
Context `{Crypto} `{Recover} (storage : option (h256 -> Z -> TableInfo -> chars -> Condition -> result (option (list Entry)))).
Context (start : Z) (sha256 : list Z -> list Z) (sch : Schedule).
(** the contracts of [initExecutiveContext] and of the configuration *)
Context (precompiled : gmap Address (bytes -> Address -> FE bytes)) (original : gmap Address (bytes -> bool * bytes)).
Context (tags : gmap Address (bytes -> result (list chars))).
Context (version : Z) (table : Z -> Metric) (EVM_OPTIMIZE : bool) (m_pNumberHash : Z -> h256) (m_enableParallel : bool).
Abbreviation face := (StorageState_face storage start sha256 sch).

Definition initExecutiveContext (bi : BlockInfo) : result (Factory * ExecutiveContext Factory) :=
  limit ← setTxGasLimitToContext storage bi;
  Ok (setBlockNum (bi_number bi) (setBlockHash (bi_hash bi) newFactory), factory_context storage precompiled original limit).

(** [catch (exception&)], with another exception thrown instead. *)
Definition rethrow {A} (ec : Exn) (r : result A) : result A :=
  match r with Throw e => if fatal e then Throw e else Throw ec | r => r end.

(** ** Transactions *)
(** [EnvInfo envInfo(block.blockHeader(), ...)] copies the header, which computes its hash. *)
Definition env_of (b : EthBlock) : result (EnvInfo * EthBlock) :=
  '(h, h0) ← header_copy (b_header b); Ok (mkEnvInfo h m_pNumberHash, with_header h0 b).

Definition execute_at (ctx : ExecutiveContext Factory) (i : nat) (t : Transaction) (b : EthBlock) : FE EthBlock :=
  eb ← se_lift (env_of b);
  r ← execute_transaction face ctx (fst eb) version table EVM_OPTIMIZE t;
  b ← se_lift (setTransactionReceipt i (snd r) (snd eb));
  se_mod f_commit;;
  mret b.

Fixpoint serial_loop (ctx : ExecutiveContext Factory) (i : nat) (txs : list Transaction) (b : EthBlock) : FE EthBlock :=
  match txs with [] => mret b | t :: txs' => b ← execute_at ctx i t b; serial_loop ctx (S i) txs' b end.

(** *** In parallel *)
(** [getTxCriticals]; [None] is the null pointer.  [tags] are the contracts that
    are [isParallelPrecompiled], with their [getParallelTag]. *)
Definition getTxCriticals (t : Transaction) : FE (option (list chars)) :=
  if isCreation t then mret None
  else
    match precompiled !! tx_receiveAddress t with
    | Some _ =>
        match tags !! tx_receiveAddress t with
        | Some getParallelTag => l ← se_lift (getParallelTag (tx_data t)); mret (Some l)
        | None => mret None
        end
    | None =>
        selector ← se_lift (getParamFunc (tx_data t));
        r ← se_lift (sender version t);
        config ← getParallelConfig storage (tx_receiveAddress t) selector (fst r);
        match config with
        | None => mret None
        | Some c => se_lift (config_criticals c (tx_receiveAddress t) (tx_data t))
        end
    end.
Fixpoint all_criticals (txs : list Transaction) : FE (list (option (list chars))) :=
  match txs with
  | [] => mret []
  | t :: txs' => c ← getTxCriticals t; cs ← all_criticals txs'; mret (c :: cs)
  end.
(** [txDag->init]; the fields are strings. *)
Definition text_of (s : chars) : string := String.string_of_list_ascii (map (fun c => Ascii.ascii_of_N (Z.to_N c)) s).
Definition init_dag (txs : list Transaction) : FE DAG :=
  cs ← all_criticals txs; se_lift (txdag_init (map (fmap (map text_of)) cs)).

(** The transactions in the order in which the workers of [TxDAG] take them: a run
    of the graph (TxDAG.v), here an argument. *)
Fixpoint parallel_loop (ctx : ExecutiveContext Factory) (txs : list Transaction) (order : list nat) (b : EthBlock) : FE EthBlock :=
  match order with
  | [] => mret b
  | i :: order' =>
      match txs !! i with
      | Some t => b ← execute_at ctx i t b; parallel_loop ctx txs order' b
      | None => se_lift (Throw UndefinedBehaviour)
      end
  end.

(** ** The header *)
(** Nothing is compared when the block comes without roots. *)
Definition check_header (tmpHeader : BlockHeader) (b : EthBlock) : result EthBlock :=
  if negb (bool_decide (m_receiptsRoot tmpHeader = h256_0)) && negb (bool_decide (m_stateRoot tmpHeader = h256_0)) then
    '(x, _) ← header_hash tmpHeader;
    '(y, h) ← header_hash (b_header b);
    if negb (bool_decide (x = y)) then Throw InvalidBlockWithBadStateOrReceipt else Ok (with_header h b)
  else Ok b.

Definition prepared (b : EthBlock) : result (BlockHeader * EthBlock) :=
  '(tmpHeader, h0) ← header_copy (b_header b);
  Ok (tmpHeader, resizeTransactionReceipt (length (b_transactions b)) (clearAllReceipts (with_header h0 b))).

Definition factory_hash_of : FE h256 := fun f => let '(f', h) := factory_hash sha256 sch f in (f', Ok h).

Definition serialExecuteBlock (b : EthBlock) (parent : BlockInfo) : result (Factory * EthBlock) :=
  '(f, ctx) ← rethrow InvalidBlockWithBadStateOrReceipt (initExecutiveContext parent);
  '(tmpHeader, b) ← prepared b;
  let '(f, r) := serial_loop ctx 0 (b_transactions b) b f in
  b ← rethrow BlockExecutionFailed r;
  let '(f, r) :=
    (stateRoot ← sf_rootHash face true;
     b ← se_lift (calReceiptRoot version true (updateSequenceReceiptGas b));
     dbHash ← factory_hash_of;
     mret (with_header (setDBhash dbHash (setStateRoot stateRoot (b_header b))) b)) f in
  b ← r; b ← check_header tmpHeader b; Ok (f, b).

Definition parallelExecuteBlock (order : list nat) (b : EthBlock) (parent : BlockInfo) : result (Factory * EthBlock) :=
  '(f, ctx) ← rethrow InvalidBlockWithBadStateOrReceipt (initExecutiveContext parent);
  '(tmpHeader, b) ← prepared b;
  let '(f, r) := init_dag (b_transactions b) f in
  _ ← r;
  let '(f, r) := parallel_loop ctx (b_transactions b) order b f in
  b ← rethrow BlockExecutionFailed r;
  let '(f, r) :=
    (stateRoot ← sf_rootHash face true;
     b ← se_lift (calReceiptRoot version true (updateSequenceReceiptGas (setStateRootToAllReceipt stateRoot b)));
     mret (with_header (setDBhash stateRoot (setStateRoot stateRoot (b_header b))) b)) f in
  b ← r; b ← check_header tmpHeader b; Ok (f, b).

(** [executeBlock] *)
Definition executeBlock (order : list nat) (b : EthBlock) (parent : BlockInfo) : result (Factory * EthBlock) :=
  if (RC2_VERSION <=? version) && m_enableParallel then parallelExecuteBlock order b parent else serialExecuteBlock b parent.

(** [executeTransaction]: a call from outside of a block. *)
Definition executeTransaction (h : BlockHeader) (t : Transaction) : result (ExecutionResult * TransactionReceipt) :=
  '(x, h1) ← header_hash h;
  '(f, ctx) ← initExecutiveContext (mkBlockInfo x (m_number h) (m_stateRoot h));
  '(h2, _) ← header_copy h1;
  snd (execute_transaction face ctx (mkEnvInfo h2 m_pNumberHash) version table EVM_OPTIMIZE t f).
End BlockVerifier.
