(* ===== verification/BlockProps.v ===== *)
(** * The execution of a block is a function of what it carries

    [block_outcome] is the execution of the transactions of a block in order, and
    the roots it ends in: it sees of the block its transactions, and of its header
    the number, the time and the gas limit.  [serialExecuteBlock] is that function,
    followed by the comparison of the headers ([serial_spec]); a block that was
    executed is therefore accepted by every node that starts from the same parent,
    and the roots of a block that is accepted are those of its execution. *)

From stdpp Require Import sorting.
From S2P Require Import Prelude StateMonad CommonData Text RLP PBFTMsg BlockHeader Block Transaction Receipt TrieHash BlockCodec StorageEntry MemoryTable TableProps TableFactory FactoryProps StorageState Precompiled ParallelConfig.
From S2P Require Import EVM EVMProps EVMRuns Executive ExecutiveProps ExecutiveState PermissionPrecompiled BlockVerifier.

(** ** The environment *)
Definition same_env (e e' : EnvInfo) : Prop :=
  m_number (env_header e) = m_number (env_header e') /\ m_timestamp (env_header e) = m_timestamp (env_header e') /\
  m_gasLimit (env_header e) = m_gasLimit (env_header e') /\ env_numberHash e = env_numberHash e'.

Section Environment.
Context `{Crypto} `{Recover} {S : Type} (sf : StateFace S) (ctx : ExecutiveContext S) (version : Z) (table : Z -> Metric) (opt : bool) (e e' : EnvInfo).
Hypothesis same : same_env e e'.

Lemma evmc_exec_env vm : evmc_exec sf ctx e version table opt vm = evmc_exec sf ctx e' version table opt vm.
Proof.
  destruct same as (E1 & E2 & E3 & E4). unfold evmc_exec, fnTable, fn_getTxContext. by rewrite E1, E2, E3, E4.
Qed.
Lemma run_frame_env n : run_frame sf ctx e version table opt n = run_frame sf ctx e' version table opt n.
Proof.
  induction n as [|n IH]; [done |].
  change (evmc_exec sf ctx e version table opt (run_frame sf ctx e version table opt n) = evmc_exec sf ctx e' version table opt (run_frame sf ctx e' version table opt n)).
  by rewrite IH, evmc_exec_env.
Qed.
Lemma execute_transaction_env t : execute_transaction sf ctx e version table opt t = execute_transaction sf ctx e' version table opt t.
Proof. unfold execute_transaction. by rewrite run_frame_env. Qed.
End Environment.

(** ** Headers *)
(** The header but its memo. *)
Definition bare (h : BlockHeader) : BlockHeader := set_hash h256_0 h.

Lemma set_hash_same h : set_hash (m_hash h) h = h.
Proof. by destruct h. Qed.
Lemma bare_set x h : bare (set_hash x h) = bare h.
Proof. done. Qed.
Lemma bare_eq h h' : bare h = bare h' -> h = set_hash (m_hash h) h'.
Proof. destruct h, h'. cbv [bare set_hash]. cbn. by intros [= -> -> -> -> -> -> -> -> -> -> -> -> ->]. Qed.

Lemma encode_bare h h' : bare h = bare h' -> header_encode h = header_encode h'.
Proof. intros E. by rewrite (bare_eq _ _ E), encode_memo. Qed.

Section Headers.
Context `{Crypto}.

Definition memoised (h : BlockHeader) : Prop := header_hash h = Ok (m_hash h, h).

Lemma header_hash_memoised h x h' : header_hash h = Ok (x, h') -> h' = set_hash x h /\ memoised h'.
Proof.
  unfold memoised, header_hash. case_bool_decide as E.
  - destruct (header_encode h) as [bs|] eqn:Eb; [| done]. cbn [mbind result_bind]. intros [= <- <-]. split; [done |].
    rewrite encode_memo, Eb. cbn [mbind result_bind]. by case_bool_decide.
  - intros [= <- <-]. rewrite set_hash_same. split; [done |]. by rewrite bool_decide_eq_false_2.
Qed.
Lemma header_copy_spec h h1 h2 : header_copy h = Ok (h1, h2) -> h1 = h2 /\ h2 = set_hash (m_hash h2) h /\ memoised h2.
Proof.
  unfold header_copy. destruct (header_hash h) as [[x h']|] eqn:E; [| done]. cbn. intros [= <- <-].
  destruct (header_hash_memoised _ _ _ E) as [-> Hs]. done.
Qed.
Lemma memoised_copy h : memoised h -> header_copy h = Ok (h, h).
Proof. unfold memoised, header_copy. intros ->. cbn. by rewrite set_hash_same. Qed.
Lemma header_copy_ok h bs : memo_ok h -> header_encode h = Ok bs ->
  exists h', header_copy h = Ok (h', h') /\ bare h' = bare h /\ memoised h' /\ m_hash h' = sha3 bs.
Proof.
  intros Hm He. assert (header_copy h = Ok (set_hash (sha3 bs) h, set_hash (sha3 bs) h)) as Hc.
  { unfold header_copy. by rewrite (header_hash_spec _ _ Hm He). }
  exists (set_hash (sha3 bs) h). destruct (header_copy_spec _ _ _ Hc) as (_ & _ & Hs). split_and!; done || exact Hs.
Qed.
(** A block whose header, as executed, has the hash of the header it came with. *)
Lemma check_header_accepts h (b : EthBlock) bs : memoised h -> m_hash h = sha3 bs -> m_hash (b_header b) = h256_0 -> header_encode (b_header b) = Ok bs ->
  exists b', check_header h b = Ok b' /\ bare (b_header b') = bare (b_header b) /\ b_receipts b' = b_receipts b.
Proof.
  intros Hs Hx Hz He. unfold check_header. rewrite Hs. cbn [mbind result_bind]. rewrite (header_hash_spec (b_header b) bs) by (by left || done).
  cbn [mbind result_bind]. rewrite (bool_decide_eq_true_2 (m_hash h = sha3 bs)) by done. cbn [negb]. destruct (negb _ && negb _); eexists; (split; [reflexivity |]); done.
Qed.
End Headers.

(** ** Hashes under any schedule *)
(** Every table can be hashed in one way only, and the threads of [dump] leave an
    order it allows. *)
Definition hashable (f : Factory) : Prop := forall p o, f_objs f !! p = Some o -> table_wf (ob_table o) /\ ties_agree (ob_table o).
Definition orders (sch : Schedule) (f : Factory) : Prop := forall name p o, f_names f !! name = Some p -> f_objs f !! p = Some o ->
  scheduled (ob_table o) (fst (fst (sch name))) (snd (fst (sch name))) (snd (sch name)).

Section Dumps.
Context (sha256 : list Z -> list Z) (sch sch' : Schedule) (f1 : Factory).
Hypothesis Hh : hashable f1.
Hypothesis Ho : orders sch f1.
Hypothesis Ho' : orders sch' f1.

(** The tables of two nodes that hash the tables [f1]: a table that is still to be
    hashed is the one of [f1]. *)
Definition alike_obj (o1 o o' : option TableObj) : Prop :=
  match o, o' with
  | Some x, Some x' => mt_hash (ob_table x) = mt_hash (ob_table x') /\ mt_isDirty (ob_table x) = mt_isDirty (ob_table x') /\
      (mt_isDirty (ob_table x) = true -> ob_table x = ob_table x' /\ exists x1, o1 = Some x1 /\ ob_table x = ob_table x1)
  | None, None => True
  | _, _ => False
  end.
Record alike (f f' : Factory) : Prop := {
  al_names : f_names f = f_names f1;
  al_names' : f_names f' = f_names f1;
  al_objs : forall p, alike_obj (f_objs f1 !! p) (f_objs f !! p) (f_objs f' !! p)
}.

Lemma alike_refl : alike f1 f1.
Proof. split; [done | done |]. intros p. unfold alike_obj. destruct (f_objs f1 !! p) as [o|]; [| done]. split_and!; [done | done |]. intros _. split; [done | by exists o]. Qed.

Lemma dump_at_alike f f' name p : f_names f1 !! name = Some p -> alike f f' -> alike (dump_at sha256 sch name p f) (dump_at sha256 sch' name p f').
Proof.
  intros Hn [Hf Hf' Ha]. unfold dump_at. destruct (sch name) as [[d n] l] eqn:E. destruct (sch' name) as [[d' n'] l'] eqn:E'.
  split; [done | done |]. intros q. specialize (Ha q). cbn [f_objs with_objs]. destruct (decide (q = p)) as [->|Hq].
  - rewrite !list_lookup_alter_eq. unfold alike_obj in *.
    destruct (f_objs f !! p) as [o|]; cbn in *; destruct (f_objs f' !! p) as [o'|]; cbn in *; try done.
    destruct Ha as (E1 & E2 & E3). unfold table_dump. rewrite <- E2. destruct (mt_isDirty (ob_table o)) eqn:Ed; [| by rewrite Ed].
    destruct (E3 eq_refl) as [E4 (x1 & Hx & E5)]. cbn [mt_hash mt_isDirty]. split_and!; [| done | done].
    destruct (Hh _ _ Hx) as [Hw Ht]. pose proof (Ho name p x1 Hn Hx) as S. pose proof (Ho' name p x1 Hn Hx) as S'.
    rewrite E in S. rewrite E' in S'. cbn in S, S'.
    f_equal. by apply (all_data_agree (ob_table x1) d n l d' n' l').
  - rewrite !list_lookup_alter_ne by done. done.
Qed.

Lemma dump_all_alike f f' : alike f f' -> alike (dump_all sha256 sch f) (dump_all sha256 sch' f').
Proof.
  intros Ha. unfold dump_all, named_tables. rewrite (al_names _ _ Ha), (al_names' _ _ Ha).
  assert (Forall (fun np => f_names f1 !! fst np = Some (snd np)) (in_order (f_names f1))) as Hl.
  { apply Forall_forall. intros [n p] Hnp. by apply elem_of_in_order in Hnp. }
  revert f f' Ha. induction Hl as [|[n p] l Hn Hl IH]; intros f f' Ha; [done |]. cbn. by apply IH, dump_at_alike.
Qed.

Lemma obj_hash_alike f f' p : alike f f' -> obj_hash f p = obj_hash f' p.
Proof.
  intros Ha. pose proof (al_objs _ _ Ha p) as Hp. unfold obj_hash, alike_obj in *.
  destruct (f_objs f !! p), (f_objs f' !! p); try done. by destruct Hp.
Qed.

Lemma factory_hash_alike f f' : alike f f' ->
  alike (fst (factory_hash sha256 sch f)) (fst (factory_hash sha256 sch' f')) /\ snd (factory_hash sha256 sch f) = snd (factory_hash sha256 sch' f').
Proof.
  intros Ha%dump_all_alike. unfold factory_hash.
  set (g := dump_all sha256 sch f) in *. set (g' := dump_all sha256 sch' f') in *.
  assert (concat (map (fun np => obj_hash g (snd np)) (named_tables g)) = concat (map (fun np => obj_hash g' (snd np)) (named_tables g'))) as ->.
  { unfold named_tables. rewrite (al_names _ _ Ha), (al_names' _ _ Ha). f_equal. apply map_ext. intros np. by apply obj_hash_alike. }
  case_bool_decide; [done |]. split; [| done]. destruct Ha. by split.
Qed.
End Dumps.

(** ** The loop *)
Section Outcome.
Context `{Crypto} `{Recover} (storage : option (h256 -> Z -> TableInfo -> chars -> Condition -> result (option (list Entry)))).
Context (start : Z) (sha256 : list Z -> list Z) (sch : Schedule).
Context (precompiled : gmap Address (bytes -> Address -> FE bytes)) (original : gmap Address (bytes -> bool * bytes)).
Context (version : Z) (table : Z -> Metric) (opt : bool) (numberHash : Z -> h256).
Abbreviation face := (StorageState_face storage start sha256 sch).
Abbreviation executes ctx env t := (execute_transaction face ctx env version table opt t).

Fixpoint run_all (ctx : ExecutiveContext Factory) (env : EnvInfo) (txs : list Transaction) : FE (list TransactionReceipt) :=
  match txs with
  | [] => mret []
  | t :: txs' => r ← executes ctx env t; se_mod f_commit;; rs ← run_all ctx env txs'; mret (snd r :: rs)
  end.

Definition receipts_root (rs : list TransactionReceipt) : result (bytes * h256) :=
  if RC2_VERSION <=? version then c ← receipts_rlp rs; Ok (c, sha3 c) else root_of receipt_encode rs.

(** The receipts, their encoding, and the roots. *)
Record Outcome := mkOutcome { o_receipts : list TransactionReceipt; o_encoded : bytes; o_receiptsRoot : h256; o_stateRoot : h256; o_dbHash : h256 }.

(** The tables and the receipts the transactions lead to. *)
Definition executed_state (h : BlockHeader) (txs : list Transaction) (parent : BlockInfo) : result (Factory * list TransactionReceipt) :=
  '(f, ctx) ← rethrow InvalidBlockWithBadStateOrReceipt (initExecutiveContext storage precompiled original parent);
  let '(f, r) := run_all ctx (mkEnvInfo h numberHash) txs f in
  rs ← rethrow BlockExecutionFailed r; Ok (f, rs).

Definition block_outcome (h : BlockHeader) (txs : list Transaction) (parent : BlockInfo) : result (Factory * Outcome) :=
  '(f, rs) ← executed_state h txs parent;
  let '(f, r) :=
    (stateRoot ← sf_rootHash face true;
     c ← se_lift (receipts_root (sequence_gas 0 rs));
     dbHash ← factory_hash_of sha256 sch;
     mret (mkOutcome (sequence_gas 0 rs) (fst c) (snd c) stateRoot dbHash)) f in
  o ← r; Ok (f, o).

(** The block with an outcome. *)
Definition with_outcome (h : BlockHeader) (b : EthBlock) (o : Outcome) : EthBlock :=
  mkBlock (setDBhash (o_dbHash o) (setStateRoot (o_stateRoot o) (setReceiptsRoot (o_receiptsRoot o) h))) (b_transactions b) (o_receipts o)
    (b_sigList b) (b_txsCache b) (o_encoded o) (b_transRootCache b) (o_receiptsRoot o).

Lemma env_of_memoised b : memoised (b_header b) -> env_of numberHash b = Ok (mkEnvInfo (b_header b) numberHash, b).
Proof. intros Hs. unfold env_of. rewrite (memoised_copy _ Hs). cbn [mbind result_bind]. by destruct b. Qed.

(** What the loop leaves of a block whose receipts are not encoded. *)
Lemma serial_loop_spec ctx txs b i f : memoised (b_header b) -> b_tReceiptsCache b = [] -> length (b_receipts b) = (i + length txs)%nat ->
  serial_loop storage start sha256 sch version table opt numberHash ctx i txs b f =
  let '(f', r) := run_all ctx (mkEnvInfo (b_header b) numberHash) txs f in (f', rs ← r; Ok (with_receipts (take i (b_receipts b) ++ rs) b)).
Proof.
  revert b i f. induction txs as [|t txs IH]; intros b i f Hs Hc Hl; cbn [serial_loop run_all length] in *.
  { unfold mret, SE_ret. cbn. rewrite app_nil_r, take_ge by lia. by destruct b. }
  unfold execute_at. unfold mbind, SE_bind, se_lift at 1. rewrite env_of_memoised by done. cbn [fst snd].
  destruct (executes ctx _ t f) as [f1 [r|ec]]; [| done]. unfold se_lift, setTransactionReceipt.
  rewrite (proj2 (Nat.ltb_lt _ _)) by lia. cbn [se_mod]. unfold mret, SE_ret.
  rewrite IH; [| done | done | cbn; rewrite length_insert; lia]. cbn [b_header noteReceiptChange with_receipts].
  destruct (run_all ctx _ txs (f_commit f1)) as [f2 [rs|ec]]; [| done]. unfold mbind, result_bind. f_equal. f_equal.
  cbn [b_receipts noteReceiptChange with_receipts snd]. rewrite (take_S_r _ _ (snd r)) by (rewrite list_lookup_insert_eq; [done | lia]).
  rewrite take_insert_ge, <- app_assoc by lia. unfold with_receipts, noteReceiptChange. cbn. by rewrite Hc.
Qed.

Lemma calReceiptRoot_fresh b : b_tReceiptsCache b = [] ->
  calReceiptRoot version true b = (c ← receipts_root (b_receipts b); Ok (with_header (setReceiptsRoot (snd c) (b_header b)) (set_receiptsCache (fst c) (snd c) b))).
Proof.
  intros E. unfold calReceiptRoot, calReceiptRootRC2, receipts_root. rewrite bool_decide_eq_true_2 by done.
  destruct (RC2_VERSION <=? version).
  - by destruct (receipts_rlp (b_receipts b)).
  - by destruct (root_of receipt_encode (b_receipts b)) as [[c root]|].
Qed.

(** [serialExecuteBlock] is [block_outcome] and the comparison of the headers. *)
Lemma serial_spec b parent h0 h : header_copy (b_header b) = Ok (h0, h) ->
  serialExecuteBlock storage start sha256 sch precompiled original version table opt numberHash b parent =
  '(f, o) ← block_outcome h (b_transactions b) parent; b' ← check_header h (with_outcome h b o); Ok (f, b').
Proof.
  intros Hc. destruct (header_copy_spec _ _ _ Hc) as (-> & _ & Hs). unfold serialExecuteBlock, block_outcome, executed_state, prepared. rewrite Hc.
  destruct (rethrow _ (initExecutiveContext _ _ _ parent)) as [[f ctx]|]; [| done]. cbn [mbind result_bind].
  set (b0 := resizeTransactionReceipt _ _).
  assert (b_receipts b0 = replicate (length (b_transactions b)) emptyReceipt) as Hr.
  { unfold b0. cbn. by rewrite take_nil, Nat.sub_0_r. }
  rewrite serial_loop_spec; [| done | done | rewrite Hr, length_replicate; done].
  change (b_header b0) with h. change (b_transactions b0) with (b_transactions b). cbn [take app].
  destruct (run_all ctx _ _ f) as [f1 [rs|ec]]; cbn [mbind result_bind rethrow]; [| by destruct (fatal ec)].
  unfold mbind, SE_bind. destruct (sf_rootHash face true f1) as [f2 [sr|ec]]; [| done]. unfold se_lift.
  rewrite calReceiptRoot_fresh by done. cbn [b_receipts updateSequenceReceiptGas with_receipts]. rewrite take_0, app_nil_l.
  destruct (receipts_root (sequence_gas 0 rs)) as [[c rr]|ec]; [| done]. cbn [result_bind mbind]. unfold mret, SE_ret.
  destruct (factory_hash_of sha256 sch f2) as [f3 [dh|ec]]; [| done]. done.
Qed.

Lemma run_all_env ctx e e' txs : same_env e e' -> run_all ctx e txs = run_all ctx e' txs.
Proof.
  intros Hs. induction txs as [|t txs IH]; [done |]. cbn [run_all].
  by rewrite IH, (execute_transaction_env face ctx version table opt e e' Hs).
Qed.
(** Of the header the execution sees the number, the time and the gas limit. *)
Lemma state_env h h' txs parent : m_number h = m_number h' -> m_timestamp h = m_timestamp h' -> m_gasLimit h = m_gasLimit h' ->
  executed_state h txs parent = executed_state h' txs parent.
Proof.
  intros E1 E2 E3. unfold executed_state. destruct (rethrow _ _) as [[f ctx]|]; [| done]. cbn [mbind result_bind].
  by rewrite (run_all_env ctx (mkEnvInfo h numberHash) (mkEnvInfo h' numberHash)).
Qed.
Lemma outcome_env h h' txs parent : m_number h = m_number h' -> m_timestamp h = m_timestamp h' -> m_gasLimit h = m_gasLimit h' ->
  block_outcome h txs parent = block_outcome h' txs parent.
Proof. intros E1 E2 E3. unfold block_outcome. by rewrite (state_env h h'). Qed.

(** ** What the check leaves *)
Abbreviation serial b parent := (serialExecuteBlock storage start sha256 sch precompiled original version table opt numberHash b parent).

(** The header [check_header] returns has the hash of the one that came, when
    there were roots to compare; its memo may be new. *)
Lemma check_header_ok h b b' : memoised h -> m_hash (b_header b) = h256_0 -> check_header h b = Ok b' ->
  bare (b_header b') = bare (b_header b) /\ b_transactions b' = b_transactions b /\ b_receipts b' = b_receipts b /\
  (m_receiptsRoot h <> h256_0 -> m_stateRoot h <> h256_0 -> exists bs, header_encode (b_header b) = Ok bs /\ m_hash h = sha3 bs).
Proof.
  intros Hs Hz Hc. unfold check_header in Hc. rewrite Hs in Hc. cbn [mbind result_bind] in Hc.
  case_bool_decide as E1; cbn [negb andb] in Hc; [by injection Hc as <- |].
  case_bool_decide as E2; cbn [negb] in Hc; [by injection Hc as <- |].
  unfold header_hash in Hc. rewrite bool_decide_eq_true_2 in Hc by done.
  destruct (header_encode (b_header b)) as [bs|] eqn:Eb; [| done]. cbn [mbind result_bind] in Hc.
  case_bool_decide as E3; cbn [negb] in Hc; [| done]. injection Hc as <-. split_and!; try done. by exists bs.
Qed.

(** A successful execution, taken apart. *)
Lemma serial_inv b parent f b1 : serial b parent = Ok (f, b1) -> exists h o,
  header_copy (b_header b) = Ok (h, h) /\ bare h = bare (b_header b) /\ memoised h /\
  block_outcome h (b_transactions b) parent = Ok (f, o) /\ check_header h (with_outcome h b o) = Ok b1.
Proof.
  intros Hrun. destruct (header_copy (b_header b)) as [[h0 h]|] eqn:Hc.
  - destruct (header_copy_spec _ _ _ Hc) as (-> & Eh & Hs). exists h. rewrite (serial_spec _ _ _ _ Hc) in Hrun.
    destruct (block_outcome h _ parent) as [[f' o]|]; [| done]. cbn [mbind result_bind] in Hrun.
    destruct (check_header h _) as [b'|] eqn:Ec; [| done]. cbn in Hrun. injection Hrun as -> ->.
    exists o. split_and!; try done. by rewrite Eh.
  - unfold serialExecuteBlock, prepared in Hrun. rewrite Hc in Hrun. by destruct (rethrow _ _) as [[? ?]|].
Qed.

Lemma with_outcome_roots h b o : m_receiptsRoot h = o_receiptsRoot o -> m_stateRoot h = o_stateRoot o -> m_dbHash h = o_dbHash o ->
  b_header (with_outcome h b o) = bare h.
Proof. intros E1 E2 E3. destruct h. cbn in *. by subst. Qed.

(** ** The roots *)
(** Hash functions give 32 bytes. *)
Definition digests (g : list Z -> list Z) : Prop := forall x, bytes_ok (g x) /\ lenZ (g x) = 32.

Lemma zero_digest : bytes_ok h256_0 /\ lenZ h256_0 = 32.
Proof. split; [| done]. by apply Forall_replicate. Qed.

Lemma factory_hash_digest f : digests sha256 -> bytes_ok (snd (factory_hash sha256 sch f)) /\ lenZ (snd (factory_hash sha256 sch f)) = 32.
Proof. intros Hd. unfold factory_hash. case_bool_decide; [apply zero_digest | apply Hd]. Qed.

Lemma receipts_root_digest rs c : digests sha3 -> receipts_root rs = Ok c -> bytes_ok (snd c) /\ lenZ (snd c) = 32.
Proof.
  intros Hd. unfold receipts_root, root_of, hash256. case_match; intros Hc.
  - apply bind_ok in Hc as (x & _ & [= <-]). apply Hd.
  - apply bind_ok in Hc as (s & _ & Hc). apply bind_ok in Hc as ([s1 m] & _ & Hc). apply bind_ok in Hc as (e & _ & Hc).
    apply bind_ok in Hc as (r & Hr & [= <-]). destruct (rlp256 m); [| done]. injection Hr as <-. apply Hd.
Qed.

Lemma outcome_digests h txs parent f o : digests sha3 -> digests sha256 -> block_outcome h txs parent = Ok (f, o) ->
  hashes_ok 32 [o_receiptsRoot o; o_stateRoot o; o_dbHash o].
Proof.
  intros H3 H2 Ho. unfold block_outcome in Ho. apply bind_ok in Ho as ([f1 rs] & _ & Ho). cbn [sf_rootHash StorageState_face] in Ho.
  unfold ss_rootHash, factory_hash_of, mbind, SE_bind, se_lift, mret, SE_ret in Ho.
  pose proof (factory_hash_digest f1 H2) as Hd1. destruct (factory_hash sha256 sch f1) as [f2 sr].
  destruct (receipts_root (sequence_gas 0 rs)) as [c|] eqn:Ec; [| done].
  pose proof (factory_hash_digest f2 H2) as Hd2. destruct (factory_hash sha256 sch f2) as [f3 dh].
  injection Ho as <- <-. pose proof (receipts_root_digest _ _ H3 Ec). repeat (apply Forall_cons_2; [done |]). by apply Forall_nil_2.
Qed.

Lemma header_encode_inj h h' bs : header_wf h -> header_wf h' -> header_encode h = Ok bs -> header_encode h' = Ok bs -> bare h = bare h'.
Proof.
  intros Hw Hw' E E'. destruct (header_wire h emptyHeader Hw) as (x & Ex & Dx). destruct (header_wire h' emptyHeader Hw') as (y & Ey & Dy).
  assert (x = y) as -> by congruence. rewrite Dx in Dy. injection Dy. destruct h, h'. cbn. by intros; simplify_eq.
Qed.

(** C13: a block that comes with roots is accepted only when they are the roots of
    its execution: the receipts, the state and the tables the header names are
    those its transactions lead to from the parent, unless two different headers
    have the same hash. *)
Theorem accepted_roots_true b b1 parent f :
  digests sha3 -> digests sha256 -> header_wf (b_header b) -> memo_ok (b_header b) ->
  m_receiptsRoot (b_header b) <> h256_0 -> m_stateRoot (b_header b) <> h256_0 ->
  serial b parent = Ok (f, b1) ->
  (exists o, block_outcome (b_header b) (b_transactions b) parent = Ok (f, o) /\ b_receipts b1 = o_receipts o /\
    m_receiptsRoot (b_header b) = o_receiptsRoot o /\ m_stateRoot (b_header b) = o_stateRoot o /\ m_dbHash (b_header b) = o_dbHash o) \/
  (exists x y, x <> y /\ sha3 x = sha3 y /\ header_encode (b_header b) = Ok x /\ header_encode (b_header b1) = Ok y).
Proof.
  intros H3 H2 Hw Hm Hrr Hsr Hrun. destruct (serial_inv _ _ _ _ Hrun) as (h & o & Hc & Eh & Hs & Ho & Hck).
  destruct (check_header_ok h (with_outcome h b o) b1 Hs eq_refl Hck) as (E1 & _ & E3 & Hcmp).
  pose proof (bare_eq _ _ Eh) as Eb. destruct (header_wire (b_header b) emptyHeader Hw) as (x & Ex & _).
  destruct Hcmp as (y & Ey & Hxy); [by rewrite Eb | by rewrite Eb |].
  assert (m_hash h = sha3 x) as Hx.
  { unfold header_copy in Hc. rewrite (header_hash_spec _ _ Hm Ex) in Hc. by injection Hc as <-. }
  destruct (decide (x = y)) as [<-|Hne].
  - left. exists o. rewrite (outcome_env _ h) by by rewrite Eb. split; [done |]. split; [done |].
    assert (header_wf (b_header (with_outcome h b o))) as Hwo.
    { pose proof (outcome_digests _ _ _ _ _ H3 H2 Ho) as Hd. rewrite Eb. destruct Hw as (Hh & Hrest). split; [| exact Hrest].
      unfold hashes_ok in *. rewrite !Forall_cons in *. cbn. naive_solver. }
    assert (bare (b_header b) = bare (b_header (with_outcome h b o))) as Heq by by apply (header_encode_inj _ _ x).
    rewrite (bare_eq _ _ Heq). done.
  - right. exists x, y. split_and!; try done; [congruence |]. by rewrite (encode_bare _ _ E1).
Qed.
End Outcome.

(** ** Two nodes *)
(** The threads of one node dump its tables as [sch] says, those of the other as
    [sch']. *)
Section Nodes.
Context `{Crypto} `{Recover} (storage : option (h256 -> Z -> TableInfo -> chars -> Condition -> result (option (list Entry)))).
Context (start : Z) (sha256 : list Z -> list Z) (sch sch' : Schedule).
Context (precompiled : gmap Address (bytes -> Address -> FE bytes)) (original : gmap Address (bytes -> bool * bytes)).
Context (version : Z) (table : Z -> Metric) (opt : bool) (numberHash : Z -> h256).
Abbreviation face s := (StorageState_face storage start sha256 s).

(** No transaction asks for the root. *)
Lemma evmc_exec_schedule ctx env vm : evmc_exec (face sch) ctx env version table opt vm = evmc_exec (face sch') ctx env version table opt vm.
Proof. reflexivity. Qed.
Lemma run_frame_schedule ctx env n : run_frame (face sch) ctx env version table opt n = run_frame (face sch') ctx env version table opt n.
Proof.
  induction n as [|n IH]; [done |].
  change (evmc_exec (face sch) ctx env version table opt (run_frame (face sch) ctx env version table opt n) =
    evmc_exec (face sch') ctx env version table opt (run_frame (face sch') ctx env version table opt n)).
  by rewrite IH, evmc_exec_schedule.
Qed.
Lemma run_transaction_schedule ctx vm t : run_transaction (face sch) ctx version vm t = run_transaction (face sch') ctx version vm t.
Proof. reflexivity. Qed.
Lemma execute_schedule ctx env t : execute_transaction (face sch) ctx env version table opt t = execute_transaction (face sch') ctx env version table opt t.
Proof. unfold execute_transaction. rewrite run_frame_schedule, run_transaction_schedule. reflexivity. Qed.
Lemma run_all_schedule ctx env txs : run_all storage start sha256 sch version table opt ctx env txs = run_all storage start sha256 sch' version table opt ctx env txs.
Proof. induction txs as [|t txs IH]; [done |]. cbn [run_all]. by rewrite IH, execute_schedule. Qed.

Abbreviation state_of s h txs parent := (executed_state storage start sha256 s precompiled original version table opt numberHash h txs parent).
Abbreviation outcome_of s h txs parent := (block_outcome storage start sha256 s precompiled original version table opt numberHash h txs parent).
Abbreviation serial s b parent := (serialExecuteBlock storage start sha256 s precompiled original version table opt numberHash b parent).

Lemma state_schedule h txs parent : state_of sch h txs parent = state_of sch' h txs parent.
Proof.
  unfold executed_state. destruct (rethrow InvalidBlockWithBadStateOrReceipt (initExecutiveContext storage precompiled original parent)) as [[f ctx]|];
    cbn [mbind result_bind]; [| reflexivity].
  rewrite run_all_schedule. reflexivity.
Qed.

Lemma outcome_schedule h txs parent f1 rs f o : state_of sch h txs parent = Ok (f1, rs) -> hashable f1 -> orders sch f1 -> orders sch' f1 ->
  outcome_of sch h txs parent = Ok (f, o) -> exists f', outcome_of sch' h txs parent = Ok (f', o) /\ alike f1 f f'.
Proof.
  intros Hst Hh Ho Ho' Hout. unfold block_outcome in *. rewrite <- state_schedule. rewrite Hst in *. cbn [mbind result_bind] in *.
  cbn [sf_rootHash StorageState_face] in *. unfold ss_rootHash, factory_hash_of, mbind, SE_bind, se_lift, mret, SE_ret in *.
  destruct (factory_hash_alike sha256 sch sch' f1 Hh Ho Ho' f1 f1 (alike_refl f1)) as [Ha1 E1].
  destruct (factory_hash sha256 sch f1) as [g x], (factory_hash sha256 sch' f1) as [g' x']. cbn in Ha1, E1. subst x'.
  destruct (receipts_root version (sequence_gas 0 rs)) as [c|]; [| done].
  destruct (factory_hash_alike sha256 sch sch' f1 Hh Ho Ho' g g' Ha1) as [Ha2 E2].
  destruct (factory_hash sha256 sch g) as [k y], (factory_hash sha256 sch' g') as [k' y']. cbn in Ha2, E2. subst y'.
  injection Hout as <- <-. exists k'. done.
Qed.

(** C12: a block that was executed serially is accepted by a node that executes it
    serially.  When the execution by the proposer succeeds, the block that comes out
    of it, with its roots, is accepted by a node that executes it from the same
    parent: the same receipts, the same header and tables that hash alike, whatever
    else the block holds by then (signatures, receipts, cached encodings, a memoised
    hash).  The threads of the two nodes may dump the rows of a table in different
    orders, provided that rows with the same fields have the same status in the
    tables written ([hashable]): [readded_row_hash_depends_on_order] shows that the
    hash depends on the order without it.  A node that executes the block in
    parallel may refuse it ([parallel_block_rejected]). *)
Theorem executed_block_accepted b b1 b2 parent f f1 rs bs :
  serial sch b parent = Ok (f, b1) -> state_of sch (b_header b) (b_transactions b) parent = Ok (f1, rs) ->
  hashable f1 -> orders sch f1 -> orders sch' f1 -> header_encode (b_header b1) = Ok bs ->
  b_transactions b2 = b_transactions b1 -> bare (b_header b2) = bare (b_header b1) -> memo_ok (b_header b2) ->
  exists f' b3, serial sch' b2 parent = Ok (f', b3) /\ alike f1 f f' /\ b_receipts b3 = b_receipts b1 /\ bare (b_header b3) = bare (b_header b1).
Proof.
  intros Hrun Hst Hha Hor Hor' Hbs Htx Hh Hm. destruct (serial_inv _ _ _ _ _ _ _ _ _ _ _ _ _ _ Hrun) as (h & o & _ & Eh & Hs & Ho & Hck).
  destruct (check_header_ok h (with_outcome h b o) b1 Hs eq_refl Hck) as (E1 & E2 & E3 & _). cbn [b_transactions b_receipts with_outcome] in E2, E3.
  assert (header_encode (b_header b2) = Ok bs) as Hbs2 by by rewrite (encode_bare _ _ Hh).
  destruct (header_copy_ok _ _ Hm Hbs2) as (h2 & Hc2 & Eb2 & Hs2 & Hx2).
  assert (bare h2 = bare (b_header (with_outcome h b o))) as E2h by congruence. pose proof (bare_eq _ _ E2h) as Eh2. pose proof (bare_eq _ _ Eh) as Ehb.
  rewrite (state_env _ _ _ _ _ _ _ _ _ _ _ h) in Hst by by rewrite Ehb.
  destruct (outcome_schedule _ _ _ _ _ _ _ Hst Hha Hor Hor' Ho) as (f' & Ho2 & Hal). exists f'.
  assert (b_header (with_outcome h2 b2 o) = bare h2) as Eo by (apply with_outcome_roots; by rewrite Eh2).
  destruct (check_header_accepts h2 (with_outcome h2 b2 o) bs Hs2 Hx2 eq_refl) as (b3 & Hck3 & E3h & E3r).
  { rewrite <- Hbs. apply encode_bare. rewrite Eo. change (bare (bare h2)) with (bare h2). congruence. }
  exists b3. rewrite (serial_spec _ _ _ _ _ _ _ _ _ _ _ _ _ _ Hc2), (outcome_env _ _ _ _ _ _ _ _ _ _ h2 h), Htx, E2, Ho2; [| by rewrite Eh2 ..].
  cbn [mbind result_bind]. rewrite Hck3. split; [done |]. split; [done |]. split; [by rewrite E3r, E3 |].
  rewrite E3h, Eo. change (bare (bare h2)) with (bare h2). congruence.
Qed.
End Nodes.

(** ** The execution of a block ends *)
(** The writers of RLP throw only exceptions of their own. *)
Lemma appendList_tame n z : tame (appendList n z).
Proof.
  unfold appendList. destruct (negb _); [done |]. unfold appendList_rlp. apply tame_bind; [| intros; apply noteAppended_tame].
  destruct (_ <? _); [done | apply pushCount_tame].
Qed.
Lemma foldM_tame {A} (g : A -> RLPStream -> result RLPStream) l z : (forall x z, tame (g x z)) -> tame (foldM_stream g l z).
Proof. intros Hg. revert z. induction l as [|x l IH]; intros z; [done |]. cbn. apply tame_bind; [apply Hg | apply IH]. Qed.
Lemma appendVector_tame {A} (g : A -> RLPStream -> result RLPStream) l z : (forall x z, tame (g x z)) -> tame (appendVector g l z).
Proof. intros Hg. unfold appendVector. apply tame_bind; [apply appendList_tame |]. intros z'. by apply foldM_tame. Qed.
Lemma out_tame z : tame (out z).
Proof. unfold out. by destruct (m_listStack z). Qed.
Lemma streamAll_tame ops z : Forall (fun op : RLPStream -> result RLPStream => forall z, tame (op z)) ops -> tame (streamAll ops z).
Proof. intros Ho. unfold streamAll. revert z. induction Ho as [|op ops Hop _ IH]; intros z; [done |]. cbn. apply tame_bind; [apply Hop | apply IH]. Qed.
Lemma log_tame l z : tame (log_streamRLP l z).
Proof.
  unfold log_streamRLP. apply tame_bind; [apply appendList_tame |]. intros z'. apply streamAll_tame.
  repeat (apply Forall_cons_2; [intros; first [apply append_data_tame | apply appendVector_tame; intros; apply append_data_tame] |]). by apply Forall_nil_2.
Qed.
Lemma receipt_tame r : tame (receipt_encode r).
Proof.
  unfold receipt_encode, receipt_streamRLP. apply tame_bind; [| apply out_tame]. apply tame_bind; [apply appendList_tame |]. intros z. apply streamAll_tame.
  repeat (apply Forall_cons_2; [intros; first [apply append_data_tame | apply append_bigint_tame | apply appendVector_tame; intros; apply log_tame] |]). by apply Forall_nil_2.
Qed.
Lemma receipts_tame rs : tame (receipts_rlp rs).
Proof.
  unfold receipts_rlp. apply tame_bind.
  { induction rs as [|r rs IH]; [done |]. cbn. apply tame_bind; [apply receipt_tame |]. intros. by apply tame_bind. }
  intros l. apply tame_bind; [apply appendList_tame |]. intros z. apply tame_bind; [| apply out_tame]. apply foldM_tame. intros; apply noteAppended_tame.
Qed.
Lemma header_tame h : tame (header_encode h).
Proof.
  unfold header_encode. apply tame_bind; [apply appendList_tame |]. intros z. apply tame_bind; [| apply out_tame]. apply streamAll_tame.
  repeat (apply Forall_cons_2; [intros; first [apply append_data_tame | apply append_bigint_tame | apply appendVector_tame; intros; apply append_data_tame] |]). by apply Forall_nil_2.
Qed.

Section Total.
Context `{Crypto} `{Recover} (db : Z -> option Entry) (s : h256 -> Z -> TableInfo -> chars -> Condition -> result (option (list Entry))).
Context (start : Z) (sha256 : list Z -> list Z) (sch : Schedule).
Context (precompiled : gmap Address (bytes -> Address -> FE bytes)) (original : gmap Address (bytes -> bool * bytes)).
Context (version : Z) (table : Z -> Metric) `{!MetricsOk table} (numberHash : Z -> h256).
Abbreviation execs ctx env txs := (run_all (Some s) start sha256 sch version table false ctx env txs).
Abbreviation serial b parent := (serialExecuteBlock (Some s) start sha256 sch precompiled original version table false numberHash b parent).

(** A transaction whose sender can be recovered, with fields of the widths they have. *)
Definition tx_ready (t : Transaction) : Prop := exists a t', sender version t = Ok (a, t') /\ tx_fine t.
(** A precompiled contract runs into undefined behaviour when one of the senders calls it. *)
Definition call_ub (txs : list Transaction) : Prop := exists t a t', t ∈ txs /\ sender version t = Ok (a, t') /\ precompiled_ub a precompiled.

Hypothesis setup : node_setup db (Some s) start [] original.
Hypothesis contracts : forall a, precompiled_safe a precompiled.
Hypothesis rc2 : RC2_VERSION <= version.

Lemma run_all_safe limit env txs f : Forall tx_ready txs -> node_ok [] f ->
  let '(f', r) := execs (factory_context (Some s) precompiled original limit) env txs f in
  node_ok [] f' /\ match r with Ok rs => length rs = length txs | Throw ec => ec = Terminated \/ ec = UndefinedBehaviour /\ call_ub txs end.
Proof.
  intros Ht. revert f. induction Ht as [|t txs (a & t' & Hs & Hf) Ht IH]; intros f Hn; [done |]. cbn [run_all].
  pose proof (transaction_safe db (Some s) start sha256 sch a precompiled original limit env version table t t' f setup (contracts a) rc2 Hs Hf Hn) as [Hn1 Hr].
  unfold mbind, SE_bind, se_mod. destruct (execute_transaction _ _ env version table false t f) as [f1 [r|ec]]; cbn [fst snd] in *.
  - specialize (IH (f_commit f1) (node_log _ [] _ Hn1 (Forall_nil_2 _))).
    destruct (execs _ env txs (f_commit f1)) as [f2 [rs|ec]].
    + destruct IH as [Hn2 Hl]. split; [done |]. cbn. by rewrite Hl.
    + destruct IH as [Hn2 Hl]. split; [done |]. destruct Hl as [Hl | (He & t1 & a1 & t1' & Hin & Hub)]; [by left |]. right. split; [done |].
      exists t1, a1, t1'. split; [by right | done].
  - split; [done |]. destruct Hr as [Hr | [He Hub]]; [by left |]. right. split; [done |]. exists t, a, t'. split; [by left | done].
Qed.

Lemma init_ok parent : (forall h n i k c ec, s h n i k c = Throw ec -> fatal ec = false) ->
  exists limit, initExecutiveContext (Some s) precompiled original parent = Ok (setBlockNum (bi_number parent) (setBlockHash (bi_hash parent) newFactory), factory_context (Some s) precompiled original limit).
Proof.
  intros Hs. unfold initExecutiveContext, setTxGasLimitToContext. destruct (s _ _ _ _ _) as [[l|]|ec] eqn:E; [| by eexists |].
  - destruct l as [|e [|e' l]]; [by eexists | | by eexists]. destruct (lexical_int _); by eexists.
  - rewrite (Hs _ _ _ _ _ _ E). by eexists.
Qed.

Lemma check_header_total h (b : EthBlock) : memoised h -> check_header h b <> Throw UndefinedBehaviour /\ forall b', check_header h b = Ok b' -> b_receipts b' = b_receipts b.
Proof.
  unfold memoised. intros Hs. unfold check_header. destruct (negb _ && negb _); [| split; [discriminate |]; intros b' Hb; by injection Hb as <-].
  rewrite !Hs. cbn [mbind result_bind]. destruct (header_hash (b_header b)) as [[y h']|ec] eqn:E; cbn [mbind result_bind].
  - destruct (negb _); (split; [discriminate |]); intros b' Hb; [discriminate Hb | by injection Hb as <-].
  - split; [| intros b' Hb; discriminate Hb]. intros Hb. injection Hb as ->. unfold header_hash in E. pose proof (header_tame (b_header b)) as Ht. case_bool_decide; [| done].
    destruct (header_encode (b_header b)) as [bs|ec]; [done |]. cbn in E. by injection E as ->.
Qed.

End Total.

(** ** A chain's first block *)
(** It creates a contract that stores a word; the gas limit of transactions comes
    from the table of the configuration. *)
Section Sorting.
Context (flip : list Entry -> list Entry) (flip_perm : forall l, flip l ≡ₚ l).
Definition not_after (key : chars) (a b : Entry) : Prop := EntryLess key b a = false.
#[local] Instance not_after_dec key a b : Decision (not_after key a b).
Proof. unfold not_after. apply _. Defined.
Definition dumped (t : MemTable) : list Entry * list Entry * list Entry :=
  (flip (live_dirty t), flip (live_new t), merge_sort (not_after (ti_key (mt_info t))) (flip (live_dirty t ++ live_new t))).
Definition dumps_of (f : Factory) : Schedule := fun name =>
  match f_names f !! name with Some p => match f_objs f !! p with Some o => dumped (ob_table o) | None => ([], [], []) end | None => ([], [], []) end.
Definition dumps_sorted (f : Factory) : bool := forallb (fun o => sortedb (ti_key (mt_info (ob_table o))) (snd (dumped (ob_table o)))) (f_objs f).

Lemma dumps_of_orders f : dumps_sorted f = true -> orders (dumps_of f) f.
Proof.
  intros Hs name p o Hn Hp. unfold dumps_of. rewrite Hn, Hp. unfold dumps_sorted in Hs. rewrite forallb_forall in Hs.
  apply list_elem_of_lookup_2, list_elem_of_In, Hs in Hp. split; cbn; [apply flip_perm | apply flip_perm | | by apply sortedb_ok].
  by rewrite merge_sort_Permutation, flip_perm.
Qed.
End Sorting.

Definition no_clash (f : Factory) : bool := forallb (fun o => let t := ob_table o in
  forallb (fun ke => forallb (fun e => e_ID e =? 0) (snd ke)) (map_to_list (mt_new t)) &&
  forallb (fun ie => (e_ID (snd ie) =? fst ie) && negb (fst ie =? 0)) (map_to_list (mt_dirty t)) &&
  forallb (fun a => forallb (fun b => negb (bool_decide (e_fields a = e_fields b)) || (e_status a =? e_status b)) (live_new t)) (live_new t)) (f_objs f).
Lemma no_clash_hashable f : no_clash f = true -> hashable f.
Proof.
  intros Hs p o Hp. unfold no_clash in Hs. rewrite forallb_forall in Hs. apply list_elem_of_lookup_2, list_elem_of_In, Hs in Hp.
  apply andb_true_iff in Hp as [[H1 H2]%andb_true_iff H3]. rewrite !forallb_forall in H1, H2, H3. split; [split |].
  - intros k i e He. cbn in He. unfold new_at in He. destruct (mt_new (ob_table o) !! k) as [l|] eqn:El; cbn in He; [| by rewrite lookup_nil in He].
    apply elem_of_map_to_list, list_elem_of_In, H1 in El. rewrite forallb_forall in El.
    apply list_elem_of_lookup_2, list_elem_of_In, El in He. by apply Z.eqb_eq.
  - intros id e He. cbn in He. apply elem_of_map_to_list, list_elem_of_In, H2 in He. cbn in He.
    apply andb_true_iff in He as [E1 E2]. apply Z.eqb_eq in E1. apply negb_true_iff, Z.eqb_neq in E2. done.
  - intros a b Ha Hb Eab. apply list_elem_of_In, H3 in Ha. rewrite forallb_forall in Ha. apply list_elem_of_In, Ha in Hb.
    apply orb_true_iff in Hb as [Hb|Hb]; [apply negb_true_iff, bool_decide_eq_false in Hb; done | by apply Z.eqb_eq].
Qed.

(** A hash that every byte goes into. *)
Definition mixing (b : list Z) : list Z := toBigEndian 32 ((be_val b + 1) mod (2 ^ 255 - 19)).
Definition mixing_hash : Crypto := {| sha3 := mixing; sign := fun k h => take 65 (k ++ h ++ zeros 65); verify := fun _ _ _ => true |}.
Lemma mixing_digests : digests mixing.
Proof. intros x. split; [apply toBigEndian_bytes | unfold lenZ, mixing; by rewrite toBigEndian_length]. Qed.

Definition limit_row : Entry := setID 1 (setField SYS_VALUE (str "100000") (setField enable_num (str "0") newEntry)).
Definition limit_rows : h256 -> Z -> TableInfo -> chars -> Condition -> result (option (list Entry)) :=
  fun _ _ i _ _ => Ok (Some (if bool_decide (ti_name i = SYS_CONFIG) then [limit_row] else [])).
Abbreviation limit_storage := (Some limit_rows).
Definition first_parent : BlockInfo := mkBlockInfo h256_0 0 h256_0.
Definition deploy_tx : Transaction := mkTx ContractCreation 0 0 ZeroAddress 0 100000 [0x60; 1; 0x60; 0; 0x55] None h256_0 toy_sender 0 0 None [] 0 0 [].
Definition proposed : EthBlock := mkBlock (setNumber 1 (setTimestamp 5 emptyHeader)) [deploy_tx] [] [] [] [] h256_0 h256_0.
Abbreviation toy_serial s b := (serialExecuteBlock (H := mixing_hash) (H0 := toy_recover) limit_storage 0 mixing s ∅ ∅ RC2_VERSION info_table false (fun _ => h256_0) b first_parent).
Abbreviation toy_state b := (executed_state (H := mixing_hash) (H0 := toy_recover) limit_storage 0 mixing toy_schedule ∅ ∅ RC2_VERSION info_table false (fun _ => h256_0) (b_header b) (b_transactions b) first_parent).
Definition deployed : Factory * list TransactionReceipt := Eval vm_compute in from_ok (newFactory, []) (toy_state proposed).
Definition dumps : Schedule := dumps_of id (fst deployed).
Definition dumps' : Schedule := dumps_of (fun l => rev l) (fst deployed).
Definition produced : Factory * EthBlock := Eval vm_compute in from_ok (newFactory, emptyBlock) (toy_serial dumps proposed).
Lemma toy_executes : toy_serial dumps proposed = Ok produced.
Proof. vm_cast_no_check (eq_refl (Ok produced)). Qed.
Lemma toy_state_deployed : toy_state proposed = Ok deployed.
Proof. vm_cast_no_check (eq_refl (Ok deployed)). Qed.
Lemma toy_hashable : hashable (fst deployed).
Proof. apply no_clash_hashable. vm_compute. reflexivity. Qed.
(** as it comes from the network, signed *)
Definition delivered : EthBlock :=
  mkBlock (bare (b_header (snd produced))) [deploy_tx] [] [(0, repeat 1 65)] [] [] h256_0 h256_0.
Lemma produced_wf : header_wf (b_header (snd produced)).
Proof.
  split. { unfold hashes_ok. repeat (apply Forall_cons_2; [apply (hash_okb 32); vm_compute; reflexivity |]). by apply Forall_nil_2. }
  split. { split; [| done]. apply (Forall_replicate (fun x => 0 <= x < 256) 256 0). lia. }
  split_and!; cbn; try lia; try done; by apply Forall_nil_2.
Qed.

Lemma executed_block_accepted_witness :
  exists f' b3, toy_serial dumps' delivered = Ok (f', b3) /\ b_receipts b3 = b_receipts (snd produced) /\
    m_stateRoot (b_header b3) = m_stateRoot (b_header (snd produced)).
Proof.
  destruct (executed_block_accepted (H := mixing_hash) (H0 := toy_recover) limit_storage 0 mixing dumps dumps' ∅ ∅ RC2_VERSION info_table false (fun _ => h256_0)
    proposed (snd produced) delivered first_parent (fst produced) (fst deployed) (snd deployed) (from_ok [] (header_encode (b_header (snd produced))))) as (f' & b3 & E & _ & Er & Eh).
  - exact toy_executes.
  - rewrite <- (state_schedule limit_storage 0 mixing toy_schedule dumps). exact toy_state_deployed.
  - exact toy_hashable.
  - apply dumps_of_orders; [done | vm_compute; reflexivity].
  - apply dumps_of_orders; [intros l; symmetry; apply Permutation_rev | vm_compute; reflexivity].
  - vm_compute. reflexivity.
  - reflexivity.
  - reflexivity.
  - by left.
  - exists f', b3. split; [exact E |]. split; [exact Er |]. by rewrite (bare_eq _ _ Eh).
Defined.

Definition limit_db (id : Z) : option Entry := if id =? 1 then Some limit_row else None.
Lemma limit_setup origins : node_setup (H := mixing_hash) limit_db limit_storage 0 origins ∅.
Proof.
  constructor; [apply u256_0 | | | | intros b; apply mixing_digests | done].
  - intros h n r i k c l [= <-] [= <-]. case_bool_decide; [| split; constructor].
    split; [apply NoDup_singleton | constructor; [split; [done | reflexivity] | constructor]].
  - intros s h n i k c l a [= <-] [= <-] Hi. rewrite bool_decide_eq_false_2 by (rewrite Hi; by destruct a). constructor.
  - intros s h n i c l num [= <-] [= <-] Hi. rewrite bool_decide_eq_false_2 by (by rewrite Hi). by left.
Qed.
(** with the contract that writes the permissions *)
Definition node_contracts : gmap Address (bytes -> Address -> FE bytes) := {[ permission_address := permission_call (H := mixing_hash) limit_storage RC2_VERSION 1 (fun _ => []) ]}.
Lemma node_contracts_safe a : precompiled_safe a node_contracts.
Proof.
  apply (permission_safe (H := mixing_hash) limit_storage RC2_VERSION 1 (fun _ => []) limit_db (ns_ids _ _ _ _ _ (limit_setup [])) (ns_rows _ _ _ _ _ (limit_setup []))).
  intros _. split; [reflexivity |]. vm_compute. repeat constructor; done.
Qed.

Definition reexecuted : Factory * EthBlock := Eval vm_compute in from_ok (newFactory, emptyBlock) (toy_serial dumps' delivered).
Lemma toy_reexecutes : toy_serial dumps' delivered = Ok reexecuted.
Proof. vm_cast_no_check (eq_refl (Ok reexecuted)). Qed.
Lemma accepted_roots_true_witness :
  (exists o, block_outcome (H := mixing_hash) (H0 := toy_recover) limit_storage 0 mixing dumps' ∅ ∅ RC2_VERSION info_table false (fun _ => h256_0)
      (b_header delivered) (b_transactions delivered) first_parent = Ok (fst reexecuted, o) /\ m_stateRoot (b_header delivered) = o_stateRoot o) \/
  (exists x y, x <> y /\ mixing x = mixing y).
Proof.
  destruct (accepted_roots_true (H := mixing_hash) (H0 := toy_recover) limit_storage 0 mixing dumps' ∅ ∅ RC2_VERSION info_table false (fun _ => h256_0)
    delivered (snd reexecuted) first_parent (fst reexecuted)) as [(o & E & _ & _ & Es & _) | (x & y & Hn & Hxy & _)].
  - exact mixing_digests.
  - exact mixing_digests.
  - exact produced_wf.
  - by left.
  - discriminate.
  - discriminate.
  - exact toy_reexecutes.
  - left. exists o. split; [exact E | exact Es].
  - right. exists x, y. split; [exact Hn | exact Hxy].
Defined.

(** ** Serial and parallel nodes *)
(** A parallel node writes the state root into the receipts, a serial one leaves it
    zero: the receipts roots differ, and neither accepts what the other executed.
    Which of the two a node does is its own configuration. *)
Abbreviation toy_parallel s b := (parallelExecuteBlock (H := mixing_hash) (H0 := toy_recover) limit_storage 0 mixing s ∅ ∅ ∅ RC2_VERSION info_table false (fun _ => h256_0) [0%nat] b first_parent).
Theorem parallel_block_rejected :
  match toy_parallel dumps proposed with
  | Ok (_, b) => m_stateRoot (b_header b) = m_stateRoot (b_header (snd produced)) /\ toy_serial dumps b = Throw InvalidBlockWithBadStateOrReceipt
  | Throw _ => False
  end /\ toy_parallel dumps (snd produced) = Throw InvalidBlockWithBadStateOrReceipt.
Proof. vm_compute. split_and!; reflexivity. Qed.

(** The graph of a parallel node is built from the selectors of the calls, which
    are read without looking at the length of the data: a call of a contract with
    less than four bytes reads through a null pointer.  A serial node executes it. *)
Lemma short_call_criticals `{Crypto} `{Recover} storage precompiled tags version t f :
  isCreation t = false -> precompiled !! tx_receiveAddress t = None -> lenZ (tx_data t) < 4 ->
  getTxCriticals storage precompiled tags version t f = (f, Throw UndefinedBehaviour).
Proof.
  intros Hc Hp Hl. unfold getTxCriticals. rewrite Hc, Hp. unfold getParamFunc. by rewrite (proj2 (Z.ltb_lt _ _)) by done.
Qed.
Definition short_call : EthBlock := mkBlock (setNumber 1 (setTimestamp 5 emptyHeader)) [toy_tx] [] [] [] [] h256_0 h256_0.
Theorem short_call_stops_parallel :
  toy_parallel dumps short_call = Throw UndefinedBehaviour /\
  match toy_serial dumps short_call with Ok (_, b) => map rc_status (b_receipts b) = [te_code TE_CallAddressError] | Throw _ => False end.
Proof. vm_compute. split; reflexivity. Qed.
